(* ===== verification/_CoqProject ===== *)
-Q . S2P
Prelude.v
Machine.v
Disk.v
Format.v
Image.v
Inode.v
Data.v
Reading.v
Dir.v
Path.v
Xattr.v
Stat.v
Open.v
Contents.v
Layout.v
Serialize.v
Roundtrip.v
DirWrite.v
ImageWrite.v
SuperWrite.v
FsTree.v
Mkfs.v
Build.v
TreeInv.v
TreeRemove.v
TreeOps.v
TreeCalls.v
TreeSane.v
BuildTree.v
CloseTree.v
Copy.v
CopyImage.v
CopyFrom.v
CopyWalk.v
CopyChunks.v
CopyData.v
WriteImage.v
PathRead.v
Spec.v
SpecDir.v
SpecInode.v
SpecData.v
SpecOpen.v
SpecXattr.v
SpecList.v
SpecLookup.v
Agreement.v
