(* ===== verification/Prelude.v ===== *)
(** * A verification library for the EROFS reader and writer

    The repository reads and writes EROFS images, a read-only file system laid
    out in blocks: a superblock, a metadata area of inodes addressed by nid (a
    multiple of 32 bytes), xattr areas, chunk maps and inline data beside the
    inodes, and data blocks on the image or on further devices.

    ** The program's parts

    - The reader (src/erofs.go, src/xattr.go): [Open] checks the superblock and
      the geometry and yields an image; paths resolve through directory blocks
      to nids; an inode is decoded on first use; its data is read block by
      block or, where it is one run, straight through a section reader.
    - The writer (src/mkfs.go, src/mkfs_image.go): a tree of entries built by
      calls, copied from a file system or from an image, then converted, planned
      (src/layout.go) and serialized (src/writer.go) by [Close].
    - The reference reader (src/internal/erofsspec): the format and the kernel's
      rules over an image in memory, which the tests hold the reader to.
    - Shared: the on-disk structures (src/internal/disk), the helpers of
      src/format.go, src/xattr.go and src/block.go.

    ** The files

    - [Prelude]: results, list slices, tactics.  [Machine]: integers at their
      width, bytes, little-endian accessors, names in byte order, rounding.
    - [Disk]: src/internal/disk, structures with Marshal and Unmarshal.
    - [Format]: src/format.go, src/xattr.go, src/block.go.
    - The reader.  [Image]: the opened image, its readers as a class
      ([ReaderAtLaws], [Backed]), nid and range checks, placement on devices.
      [Inode]: readInfo and its checks.  [Data], [Reading]: loadBlock, the
      direct path, Read, readAll, WriteTo, data ranges.  [Dir]: lookup and
      ReadDir.  [Path]: resolve and the fs.FS methods.  [Xattr]: loadXattrs and
      statInfo.  [Stat]: Stat and Lstat by name.  [Open]: Open, checksum, device
      table.  [Contents]: an open file as a byte string and an offset.
    - The serializer.  [Layout]: the entry tree as a store of shared entries,
      planLayout.  [Serialize]: src/writer.go over a class of sinks.
      [Roundtrip]: cores, attributes and chunk maps read back.  [DirWrite]:
      directories read back.  [ImageWrite]: the metadata of a whole plan.
      [SuperWrite]: block 0 and its checksum.
    - The Writer.  [FsTree]: its store of entries, name map and tree surgery.
      [Mkfs]: its calls.  [Build]: conversion and [Close].  [TreeInv]: the
      invariant of the tree.  [TreeRemove], [TreeOps], [TreeCalls]: what removal
      and every other call but CopyFrom keep of it, over call sequences.
      [TreeSane], [BuildTree], [CloseTree]: what [Close] makes of a tree so made.
    - Copying.  [Copy]: stat adapters and entries from an fs.FS.  [CopyImage]:
      src/mkfs_image.go, an inode at a time.  [CopyFrom]: CopyFrom, the walks
      and merged layers.  [CopyWalk]: the image walk ends.  [CopyChunks],
      [CopyData]: the chunks a copy keeps serve what the reader serves.
    - The whole image.  [WriteImage]: where [write] puts every part, that [Open]
      opens its output and reads every entry back.  [PathRead]: the files,
      symlinks and attributes of the tree read back by path.
    - The reference.  [Spec], [SpecDir]: src/internal/erofsspec.  [SpecInode],
      [SpecData], [SpecOpen], [SpecXattr], [SpecList], [SpecLookup]: the package
      against it.
      [Agreement]: the refinement theorems and their examples.

    ** How the code is modelled

    A Go function is a Rocq function of the same name where Rocq allows it; a
    loop is a Fixpoint.  A fallible function answers in [res]: a value, the
    sentinel at the end of the error's chain, or [Panic].  The Writer's methods
    are functions of its state in a small state and error monad.  Objects shared
    by pointer (the writer's entries) live in an explicit store.  A reader given
    by the caller is a record of its [ReadAt] with the [io.ReaderAt] contract as
    a class; a writer is a class with the law that a successful write appended
    its bytes.  Integers keep their width ([u16], [u32], [u64], [i64]) wherever
    a value can leave it; an [int] counted up from lengths is a plain [Z].  The
    reference reader has results and constants of its own, as in the source.

    ** What the theorems show

    - Opening: an opened image satisfies the invariant every read relies on.  An
      image that opens with its checksum verified and is then changed in a byte
      of the checksummed span is refused, but for the five bytes of the
      compatible features and the block size, where it opens only if the change
      turned the checksum off or changed the span.
    - Reading, on readers that keep the [io.ReaderAt] contract and whatever the
      image's bytes: readInfo, loadBlock, Read, readAll, lookup, resolve,
      loadXattrs and statInfo end and do not panic.  ReadDir does so for
      directories of at most [MaxInt64 - 2^16] declared bytes, a bound readInfo
      does not set.  Reads return what was asked or an error; data ranges sum to
      the file; lookup and ReadDir are exact on sorted directories; the xattr
      decoder equals a decoder of the whole area.  Where no mapped device range
      overlaps another or the image ([mapping_ok]) the direct path equals the
      block path, and a file every block of which loads is its content and an
      offset to any sequence of reads.
    - Reading against the reference: what the package opens, decodes, serves,
      lists, looks up and gives as attributes is what src/internal/erofsspec
      parses, decodes, reads, lists, looks up and gives, where the theorems'
      conditions hold: metadata addresses below the mapped devices
      ([metadata_apart]), an inline tail within its block ([tail_served]), names
      of at most 255 bytes, long xattr prefixes that both readers found.  The
      examples of [Agreement] show readers that differ outside them.
    - Planning: slots do not overlap, cores and inline data stay in their block.
    - Writing: the superblock, a plan's metadata, directories, attributes and
      chunk maps are read back as they were written; when [write] of a planned
      tree succeeds on an empty output, [Open] opens it and every entry reads
      back, by nid and by path.
    - The Writer: every sequence of calls other than CopyFrom, with names that do
      not climb above the root, keeps the tree well formed; in such a state
      removal takes exactly the names it should and [Close] lays out exactly the
      live tree.  [climbing_name_twice] and [file_over_directory_keeps_children]
      show what the left-out calls do.
    - Copying: the walk of an image ends whatever its dirents say; from a source
      whose mapped ranges lie past the image and apart ([source_ok]) a copied
      file's chunks and tail are the blocks the reader serves.

    ** Fuel

    A loop whose recursion is not structural takes fuel: the number of bytes
    asked for ([read_blocks], [read_pieces]: every turn reads at least one), of
    blocks ([readdir_loop], [dirents_blocks], [flat_chunks]), of entries
    ([search_block], [find_block], [find_target], halving; [parse_dir]), of
    components ([resolve_loop]), of xattr bytes ([inline_loop],
    [inline_xattrs]), of entries left ([dirent_blocks]), of the store's length
    ([walk], [build_loop], [find_aliases], [removeSubtree]: a child lies after
    its directory, or each turn uses up an entry), of the inode slots of an
    image ([copy_walk], [walkDir]: a directory is expanded once).  Running out
    is [Panic] or [Crash] there; the theorems that a function answers show that
    it does not happen.  Loops over a counted number of turns ([emit_chunks],
    [device_chunks], [minChunkBits_from], [pow2_from], [valid_elems]) are given
    that number and stop with what they have.

    ** Not modelled

    Pools and scratch buffers (not observable), goroutine safety of the lazily
    decoded inode, the stat adapters of systems other than Linux, temporary
    files and [os.File] (the spool is a list of bytes), and the image generator
    of the tests (src/internal/corpus). *)

From Stdlib Require Export ZArith Lia.
From Stdlib Require Export Init.Byte.
From Stdlib Require Strings.Byte.
From stdpp Require Export base tactics list numbers gmap countable sorting strings.
#[global] Open Scope Z_scope.

(** ** Results of fallible code

    A Go function returning [(T, error)] is a value of [res T].  [Panic] is a
    run-time panic (an index or a slice out of range); that a function never
    answers [Panic] is its memory safety. *)

(** The error sentinels of the package and of [io], [io/fs].  An error value
    is modelled by the sentinel at the end of its chain; [ErrReader] stands for
    the error a caller's [io.ReaderAt] reports of its own, [ErrWriter] for one
    of the operating system or of a caller's data file. *)
Inductive goerr :=
| ErrInvalid
| ErrCorrupt
| ErrInvalidSuperblock
| ErrNotImplemented
| ErrNotDirectory
| ErrIsDirectory
| ErrLoop
| ErrNotExist
| EOF
| ErrUnexpectedEOF
| ErrMetaOverrun
| ErrExist
| ErrClosed
| ErrFileOpen
| ErrDirNotEmpty
| ErrReader
| ErrWriter.

#[export] Instance goerr_eq_dec : EqDecision goerr.
Proof. solve_decision. Defined.

(** [errors.Is]: the chains the package builds with [%w] and [Unwrap]. *)
Definition errors_Is (e target : goerr) : bool :=
  match e, target with
  | ErrCorrupt, ErrInvalid => true
  | ErrInvalidSuperblock, (ErrCorrupt | ErrInvalid) => true
  | ErrLoop, ErrInvalid => true
  | _, _ => bool_decide (e = target)
  end.

Inductive res (A : Type) :=
| Ok (a : A)
| Err (e : goerr)
| Panic.
Arguments Ok {A} a.
Arguments Err {A} e.
Arguments Panic {A}.

Declare Scope go_scope.
Delimit Scope go_scope with go.
#[global] Open Scope go_scope.

Notation "'let!' x := c 'in' k" :=
  (match c with Ok x => k | Err err_ => Err err_ | Panic => Panic end)
  (at level 10, x pattern, c at level 100, k at level 200)
  : go_scope.

(** [if cond { return err }] followed by the rest of the body. *)
Notation "'reject' b 'with' e ;; k" :=
  (if b then Err e else k)
  (at level 10, b at level 99, e at level 99, k at level 200)
  : go_scope.

Lemma Ok_inj {A} (a b : A) : Ok a = Ok b -> a = b.
Proof. congruence. Qed.

Definition is_ok {A} (r : res A) : bool :=
  match r with Ok _ => true | _ => false end.

(** The result is not a run-time panic. *)
Definition no_panic {A} (r : res A) : Prop := r <> Panic.

Definition res_map {A B} (f : A -> B) (r : res A) : res B :=
  match r with Ok a => Ok (f a) | Err e => Err e | Panic => Panic end.

(** A loop [for _, x := range l] whose body may return early. *)
Fixpoint fold_res {A S} (f : S -> A -> res S) (s : S) (l : list A) : res S :=
  match l with
  | [] => Ok s
  | x :: l => let! s := f s x in fold_res f s l
  end.

(** ** Tactics of the development *)

(** Turn boolean tests in the context into propositions [lia] understands. *)
Ltac zbool :=
  repeat match goal with
  | H : (_ && _)%bool = true |- _ => apply andb_true_iff in H; destruct H
  | H : (_ || _)%bool = false |- _ => apply orb_false_iff in H; destruct H
  | H : (_ || _)%bool = true |- _ => apply orb_true_iff in H
  | H : (_ && _)%bool = false |- _ => apply andb_false_iff in H
  | H : negb _ = true |- _ => apply negb_true_iff in H
  | H : negb _ = false |- _ => apply negb_false_iff in H
  | H : (_ <? _) = true |- _ => apply Z.ltb_lt in H
  | H : (_ <? _) = false |- _ => apply Z.ltb_ge in H
  | H : (_ <=? _) = true |- _ => apply Z.leb_le in H
  | H : (_ <=? _) = false |- _ => apply Z.leb_gt in H
  | H : (_ =? _) = true |- _ => apply Z.eqb_eq in H
  | H : (_ =? _) = false |- _ => apply Z.eqb_neq in H
  | H : (_ >? _) = true |- _ => rewrite Z.gtb_ltb in H
  | H : (_ >? _) = false |- _ => rewrite Z.gtb_ltb in H
  | H : (_ >=? _) = true |- _ => rewrite Z.geb_leb in H
  | H : (_ >=? _) = false |- _ => rewrite Z.geb_leb in H
  end.

(** Case split on the scrutinee of a match or test in hypothesis [H]. *)
Ltac step_in H :=
  match type of H with
  | context [match ?c with _ => _ end] =>
      let E := fresh "E" in destruct c eqn:E; try discriminate H
  end.

(** Same for the goal. *)
Ltac step :=
  match goal with
  | |- context [match ?c with _ => _ end] =>
      let E := fresh "E" in destruct c eqn:E
  end.

Ltac steps_in H := repeat (step_in H); zbool.

Ltac no_panic_auto :=
  unfold no_panic; intros; repeat (step; try discriminate); try congruence.

(** ** Lists indexed and sliced the way Go does *)

Definition zlen {A} (l : list A) : Z := Z.of_nat (length l).

(** [n] elements of [b] from offset [off]; a plain subterm, no bounds check. *)
Definition sub {A} (b : list A) (off n : nat) : list A := take n (drop off b).

(** [b[lo:hi]].  Go allows [hi] up to the capacity; this model panics past the
    length, so a proof that it does not panic is a proof for both. *)
Definition slice {A} (b : list A) (lo hi : Z) : res (list A) :=
  if (0 <=? lo) && (lo <=? hi) && (hi <=? zlen b)
  then Ok (sub b (Z.to_nat lo) (Z.to_nat (hi - lo))) else Panic.

(** [b[:hi]] and [b[lo:]]. *)
Definition slice_to {A} (b : list A) (hi : Z) : res (list A) := slice b 0 hi.
Definition slice_from {A} (b : list A) (lo : Z) : res (list A) := slice b lo (zlen b).

(** Overwrite [length v] elements of [b] at [off]. *)
Definition splice {A} (b : list A) (off : nat) (v : list A) : list A :=
  take off b ++ v ++ drop (off + length v) b.

#[global] Arguments sub : simpl never.
#[global] Arguments slice : simpl never.
#[global] Arguments splice : simpl never.
#[global] Arguments zlen : simpl never.

Create Rewrite HintDb len.
Create Rewrite HintDb zlen.
Create HintDb disk.
#[export] Hint Rewrite @length_app @length_take @length_drop @length_replicate
  @length_fmap @length_insert @length_cons @length_nil : len.

Ltac len := autorewrite with len in *; try lia.

Lemma zlen_nonneg {A} (l : list A) : 0 <= zlen l.
Proof. unfold zlen. lia. Qed.

Lemma zlen_app {A} (a b : list A) : zlen (a ++ b) = zlen a + zlen b.
Proof. unfold zlen. rewrite length_app. lia. Qed.

Lemma zlen_cons {A} (a : A) (l : list A) : zlen (a :: l) = 1 + zlen l.
Proof. unfold zlen. cbn. lia. Qed.

Lemma zlen_nil {A} : zlen (@nil A) = 0.
Proof. reflexivity. Qed.

Lemma zlen_replicate {A} n (a : A) : zlen (replicate n a) = Z.of_nat n.
Proof. unfold zlen. by rewrite length_replicate. Qed.

Lemma zlen_drop {A} (l : list A) n : 0 <= n <= zlen l -> zlen (drop (Z.to_nat n) l) = zlen l - n.
Proof. unfold zlen. rewrite length_drop. lia. Qed.

#[export] Hint Rewrite @zlen_app @zlen_cons @zlen_nil @zlen_replicate : zlen.

Lemma length_sub {A} (b : list A) off n :
  (off + n <= length b)%nat -> length (sub b off n) = n.
Proof. unfold sub. len. Qed.

Lemma length_sub_le {A} (b : list A) off n : (length (sub b off n) <= n)%nat.
Proof. unfold sub. len. Qed.

Lemma length_splice {A} (b : list A) off v :
  (off + length v <= length b)%nat -> length (splice b off v) = length b.
Proof. unfold splice. len. Qed.

Lemma sub_splice_eq {A} (b : list A) off v n :
  n = length v -> (off + length v <= length b)%nat -> sub (splice b off v) off n = v.
Proof.
  intros -> Hb. unfold sub, splice.
  rewrite drop_app_ge by len. rewrite length_take.
  replace (off - off `min` length b)%nat with 0%nat by lia.
  rewrite drop_0. apply take_app_length.
Qed.

Lemma sub_splice_before {A} (b : list A) off n off' v :
  (off + n <= off')%nat -> (off' <= length b)%nat ->
  sub (splice b off' v) off n = sub b off n.
Proof.
  intros H1 H2. unfold sub, splice.
  rewrite drop_app_le by len. rewrite take_app_le by len.
  rewrite skipn_firstn_comm, take_take. f_equal. lia.
Qed.

Lemma sub_splice_after {A} (b : list A) off n off' v :
  (off' + length v <= off)%nat -> (off' + length v <= length b)%nat ->
  sub (splice b off' v) off n = sub b off n.
Proof.
  intros H1 H2. unfold sub, splice.
  rewrite drop_app_ge by len. rewrite drop_app_ge by len.
  rewrite drop_drop. f_equal. f_equal. len.
Qed.

Lemma sub_app_l {A} (a b : list A) off n :
  (off + n <= length a)%nat -> sub (a ++ b) off n = sub a off n.
Proof.
  intros. unfold sub. rewrite drop_app_le by lia. rewrite take_app_le; [done|len].
Qed.

Lemma sub_app_r {A} (a b : list A) off n :
  (length a <= off)%nat -> sub (a ++ b) off n = sub b (off - length a) n.
Proof. intros. unfold sub. rewrite drop_app_ge by lia. done. Qed.

Lemma sub_sub {A} (b : list A) o1 n1 o2 n2 :
  (o2 + n2 <= n1)%nat -> sub (sub b o1 n1) o2 n2 = sub b (o1 + o2) n2.
Proof.
  intros. unfold sub. rewrite skipn_firstn_comm, drop_drop, take_take.
  f_equal. lia.
Qed.

Lemma sub_take_drop {A} (b : list A) o n k :
  (k <= n)%nat -> take k (sub b o n) = sub b o k /\ drop k (sub b o n) = sub b (o + k) (n - k).
Proof.
  intros H. unfold sub. split.
  - rewrite take_take. f_equal. lia.
  - rewrite skipn_firstn_comm, drop_drop. done.
Qed.

Lemma sub_split {A} (b : list A) o n k :
  (k <= n)%nat -> sub b o n = sub b o k ++ sub b (o + k) (n - k).
Proof. intros H. destruct (sub_take_drop b o n k H) as [<- <-]. by rewrite take_drop. Qed.

Lemma sub_all {A} (b : list A) n : (length b <= n)%nat -> sub b 0 n = b.
Proof. intros. unfold sub. rewrite drop_0. by apply take_ge. Qed.

Lemma slice_ok {A} (b : list A) lo hi :
  0 <= lo <= hi -> hi <= zlen b ->
  slice b lo hi = Ok (sub b (Z.to_nat lo) (Z.to_nat (hi - lo))).
Proof.
  intros. unfold slice.
  rewrite !(proj2 (Z.leb_le _ _)) by lia. done.
Qed.

Lemma slice_to_ok {A} (b : list A) n : 0 <= n <= zlen b -> slice_to b n = Ok (take (Z.to_nat n) b).
Proof. intros. unfold slice_to. rewrite slice_ok by lia. by rewrite Z.sub_0_r. Qed.

Lemma slice_from_ok {A} (b : list A) n : 0 <= n <= zlen b -> slice_from b n = Ok (drop (Z.to_nat n) b).
Proof.
  intros. unfold slice_from. rewrite slice_ok by lia. f_equal. unfold sub, zlen in *. apply take_ge. rewrite length_drop. lia.
Qed.

Lemma slice_inv {A} (b : list A) lo hi s :
  slice b lo hi = Ok s ->
  0 <= lo <= hi /\ hi <= zlen b /\ s = sub b (Z.to_nat lo) (Z.to_nat (hi - lo)).
Proof. unfold slice. intros H. steps_in H. injection H as <-. repeat split; lia. Qed.

Lemma slice_length {A} (b : list A) lo hi s :
  slice b lo hi = Ok s -> zlen s = hi - lo.
Proof.
  intros H. apply slice_inv in H as (?&?&->). unfold zlen in *.
  rewrite length_sub; lia.
Qed.
