(* ===== verification/Machine.v ===== *)
(** * Machine integers, bytes and byte strings

    What the Go language and its standard library give the package: integer
    types with their wrap-around, [encoding/binary]'s little-endian accessors,
    byte-string comparison and search, rounding to powers of two.  Shared by
    every component. *)

From S2P Require Import Prelude.

(** ** Integers at their width *)

Definition u8 (z : Z) : Z := z mod 2 ^ 8.
Definition u16 (z : Z) : Z := z mod 2 ^ 16.
Definition u32 (z : Z) : Z := z mod 2 ^ 32.
Definition u64 (z : Z) : Z := z mod 2 ^ 64.
(** Conversion to [int64] (and to [int], 64 bits wide): two's complement. *)
Definition i64 (z : Z) : Z := (z + 2 ^ 63) mod 2 ^ 64 - 2 ^ 63.

Definition MaxInt64 : Z := 2 ^ 63 - 1.
Definition MaxUint16 : Z := 2 ^ 16 - 1.
Definition MaxUint32 : Z := 2 ^ 32 - 1.

Definition is_u8 (z : Z) : Prop := 0 <= z < 2 ^ 8.
Definition is_u16 (z : Z) : Prop := 0 <= z < 2 ^ 16.
Definition is_u32 (z : Z) : Prop := 0 <= z < 2 ^ 32.
Definition is_u64 (z : Z) : Prop := 0 <= z < 2 ^ 64.

Lemma i64_id z : - 2 ^ 63 <= z < 2 ^ 63 -> i64 z = z.
Proof. intros. unfold i64. rewrite Z.mod_small; lia. Qed.

Lemma i64_range z : - 2 ^ 63 <= i64 z < 2 ^ 63.
Proof. unfold i64. pose proof (Z.mod_pos_bound (z + 2 ^ 63) (2 ^ 64)). lia. Qed.

Lemma u64_id z : is_u64 z -> u64 z = z.
Proof. unfold is_u64, u64. intros. rewrite Z.mod_small; lia. Qed.

Lemma u32_id z : is_u32 z -> u32 z = z.
Proof. unfold is_u32, u32. intros. rewrite Z.mod_small; lia. Qed.

Lemma u16_id z : is_u16 z -> u16 z = z.
Proof. unfold is_u16, u16. intros. rewrite Z.mod_small; lia. Qed.

(** ** Bytes *)

Definition Z_of_byte (b : byte) : Z := Z.of_N (Byte.to_N b).

Definition byte_of_Z (z : Z) : byte :=
  match Byte.of_N (Z.to_N (z mod 256)) with Some b => b | None => x00 end.

Lemma Z_of_byte_range b : 0 <= Z_of_byte b < 256.
Proof.
  unfold Z_of_byte. pose proof (Byte.to_N_bounded b). lia.
Qed.

Lemma Z_of_byte_of_Z z : Z_of_byte (byte_of_Z z) = z mod 256.
Proof.
  unfold Z_of_byte, byte_of_Z.
  pose proof (Z.mod_pos_bound z 256 ltac:(lia)) as Hr.
  destruct (Byte.of_N (Z.to_N (z mod 256))) eqn:E.
  - apply Byte.to_of_N in E. rewrite E. lia.
  - apply Byte.of_N_None_iff in E. lia.
Qed.

Lemma byte_of_Z_of_byte b : byte_of_Z (Z_of_byte b) = b.
Proof.
  unfold byte_of_Z. rewrite Z.mod_small by apply Z_of_byte_range.
  unfold Z_of_byte. rewrite N2Z.id, Byte.of_to_N. done.
Qed.

#[export] Instance byte_inj : Inj (=) (=) Z_of_byte.
Proof. intros a b H. rewrite <- (byte_of_Z_of_byte a), <- (byte_of_Z_of_byte b). by rewrite H. Qed.

#[export] Instance byte_eq_dec : EqDecision byte := Byte.byte_eq_dec.

#[export] Instance byte_countable : Countable byte.
Proof. apply (inj_countable Byte.to_N Byte.of_N Byte.of_to_N). Defined.

(** A run of bytes of the image, a name, a value. *)
Abbreviation bytes := (list byte).

(** A Go string literal as its bytes. *)
Definition bs (s : string) : bytes := String.list_byte_of_string s.

Definition zeros (n : nat) : bytes := replicate n x00.

(** ** Little-endian accessors of [encoding/binary] *)

Fixpoint le (b : bytes) : Z :=
  match b with
  | [] => 0
  | x :: t => Z_of_byte x + 256 * le t
  end.

Fixpoint le_encode (n : nat) (z : Z) : bytes :=
  match n with
  | O => []
  | S n => byte_of_Z z :: le_encode n (z / 256)
  end.

(** [binary.LittleEndian.Uint16(b[off:off+2])] and its siblings. *)
Definition get8 (b : bytes) (off : nat) : Z := le (sub b off 1).
Definition get16 (b : bytes) (off : nat) : Z := le (sub b off 2).
Definition get32 (b : bytes) (off : nat) : Z := le (sub b off 4).
Definition get64 (b : bytes) (off : nat) : Z := le (sub b off 8).

(** [binary.LittleEndian.PutUint16(b[off:off+2], v)] and its siblings. *)
Definition put8 (off : nat) (v : Z) (b : bytes) : bytes := splice b off (le_encode 1 v).
Definition put16 (off : nat) (v : Z) (b : bytes) : bytes := splice b off (le_encode 2 v).
Definition put32 (off : nat) (v : Z) (b : bytes) : bytes := splice b off (le_encode 4 v).
Definition put64 (off : nat) (v : Z) (b : bytes) : bytes := splice b off (le_encode 8 v).
(** [copy(b[off:], v)]. *)
Definition putb (off : nat) (v : bytes) (b : bytes) : bytes := splice b off v.

Lemma length_le_encode n z : length (le_encode n z) = n.
Proof. revert z. induction n; intros; cbn [le_encode length]; [done|]. by rewrite IHn. Qed.
#[export] Hint Rewrite length_le_encode : len.

Lemma length_zeros n : length (zeros n) = n.
Proof. apply length_replicate. Qed.
#[export] Hint Rewrite length_zeros : len.

Lemma le_range b : 0 <= le b < 256 ^ (zlen b).
Proof.
  induction b as [|x b IH]; [by split|].
  rewrite zlen_cons. pose proof (Z_of_byte_range x). pose proof (zlen_nonneg b).
  rewrite Z.pow_add_r by lia. cbn [le]. change (256 ^ 1) with 256. nia.
Qed.

Lemma le_encode_le b : le_encode (length b) (le b) = b.
Proof.
  induction b as [|x b IH]; [done|]. cbn [length le le_encode].
  pose proof (Z_of_byte_range x). f_equal.
  - rewrite <- (byte_of_Z_of_byte x) at 2. unfold byte_of_Z. do 3 f_equal.
    rewrite Z.mul_comm, Z_mod_plus_full. done.
  - transitivity (le_encode (length b) (le b)); [|done]. f_equal.
    rewrite Z.mul_comm, Z.div_add by lia. rewrite Z.div_small; lia.
Qed.

Lemma le_le_encode n z : le (le_encode n z) = z mod 256 ^ (Z.of_nat n).
Proof.
  revert z. induction n as [|n IH]; intros z.
  - cbn. by rewrite Z.mod_1_r.
  - cbn [le le_encode]. rewrite IH, Z_of_byte_of_Z.
    rewrite Nat2Z.inj_succ, Z.pow_succ_r by lia.
    rewrite Z.rem_mul_r by lia. done.
Qed.

Lemma le_le_encode_id n z : 0 <= z < 256 ^ (Z.of_nat n) -> le (le_encode n z) = z.
Proof. intros. rewrite le_le_encode. by apply Z.mod_small. Qed.

#[global] Arguments le : simpl never.
#[global] Arguments le_encode : simpl never.

Lemma get16_range b off : is_u16 (get16 b off).
Proof.
  unfold is_u16, get16. pose proof (le_range (sub b off 2)).
  pose proof (length_sub_le b off 2). unfold zlen in *.
  assert (256 ^ Z.of_nat (length (sub b off 2)) <= 256 ^ 2) by (apply Z.pow_le_mono_r; lia).
  change (256 ^ 2) with (2 ^ 16) in *. lia.
Qed.

Lemma get32_range b off : is_u32 (get32 b off).
Proof.
  unfold is_u32, get32. pose proof (le_range (sub b off 4)).
  pose proof (length_sub_le b off 4). unfold zlen in *.
  assert (256 ^ Z.of_nat (length (sub b off 4)) <= 256 ^ 4) by (apply Z.pow_le_mono_r; lia).
  change (256 ^ 4) with (2 ^ 32) in *. lia.
Qed.

Lemma get64_range b off : is_u64 (get64 b off).
Proof.
  unfold is_u64, get64. pose proof (le_range (sub b off 8)).
  pose proof (length_sub_le b off 8). unfold zlen in *.
  assert (256 ^ Z.of_nat (length (sub b off 8)) <= 256 ^ 8) by (apply Z.pow_le_mono_r; lia).
  change (256 ^ 8) with (2 ^ 64) in *. lia.
Qed.

Lemma get8_range b off : is_u8 (get8 b off).
Proof.
  unfold is_u8, get8. pose proof (le_range (sub b off 1)).
  pose proof (length_sub_le b off 1). unfold zlen in *.
  assert (256 ^ Z.of_nat (length (sub b off 1)) <= 256 ^ 1) by (apply Z.pow_le_mono_r; lia).
  change (256 ^ 1) with (2 ^ 8) in *. lia.
Qed.

(** Reading back what a put wrote, and past it: a wide structure decoded from
    the buffer it was encoded into resolves field by field. *)
Ltac fields :=
  repeat first
    [ rewrite length_splice by fields_side
    | rewrite sub_splice_eq by fields_side
    | rewrite sub_splice_before by fields_side
    | rewrite sub_splice_after by fields_side ]
with fields_side :=
  repeat first [ rewrite length_splice by fields_side ];
  autorewrite with len; try assumption; try lia.

(** ** Byte strings *)

(** [bytes.Compare] and [cmp.Compare] on strings: lexicographic by byte. *)
Fixpoint Compare (a b : bytes) : comparison :=
  match a, b with
  | [], [] => Eq
  | [], _ :: _ => Lt
  | _ :: _, [] => Gt
  | x :: a, y :: b =>
      match Z.compare (Z_of_byte x) (Z_of_byte y) with
      | Eq => Compare a b
      | c => c
      end
  end.

Definition beqb (a b : bytes) : bool := bool_decide (a = b).

Lemma beqb_eq a b : beqb a b = true <-> a = b.
Proof. unfold beqb. apply bool_decide_eq_true. Qed.

Lemma beqb_neq a b : beqb a b = false <-> a <> b.
Proof. unfold beqb. apply bool_decide_eq_false. Qed.

Lemma Compare_refl a : Compare a a = Eq.
Proof. induction a; cbn; [done|]. by rewrite Z.compare_refl. Qed.

Lemma Compare_eq a b : Compare a b = Eq -> a = b.
Proof.
  revert b. induction a as [|x a IH]; intros [|y b]; cbn; try done.
  destruct (Z.compare_spec (Z_of_byte x) (Z_of_byte y)) as [E| |]; try done.
  intros H. apply IH in H. apply (inj Z_of_byte) in E. by subst.
Qed.

Lemma Compare_antisym a b : Compare b a = CompOpp (Compare a b).
Proof.
  revert b. induction a as [|x a IH]; intros [|y b]; cbn; try done.
  rewrite (Z.compare_antisym (Z_of_byte x)).
  destruct (Z_of_byte x ?= Z_of_byte y); cbn; auto.
Qed.

Lemma Compare_lt_trans a b c : Compare a b = Lt -> Compare b c = Lt -> Compare a c = Lt.
Proof.
  revert b c. induction a as [|x a IH]; intros [|y b] [|z c]; cbn; try done.
  destruct (Z.compare_spec (Z_of_byte x) (Z_of_byte y)) as [E1|E1|E1]; try done;
  destruct (Z.compare_spec (Z_of_byte y) (Z_of_byte z)) as [E2|E2|E2]; try done; intros H1 H2.
  - rewrite E1, E2, Z.compare_refl. eauto.
  - rewrite (proj2 (Z.compare_lt_iff _ _)) by lia. done.
  - rewrite (proj2 (Z.compare_lt_iff _ _)) by lia. done.
  - rewrite (proj2 (Z.compare_lt_iff _ _)) by lia. done.
Qed.

(** Strict and non-strict order of names. *)
Definition name_lt (a b : bytes) : Prop := Compare a b = Lt.
Definition name_le (a b : bytes) : Prop := Compare a b <> Gt.

#[export] Instance name_le_dec a b : Decision (name_le a b).
Proof. unfold name_le. apply _. Defined.
#[export] Instance name_lt_dec a b : Decision (name_lt a b).
Proof. unfold name_lt. apply _. Defined.

Lemma name_lt_irrefl a : ~ name_lt a a.
Proof. unfold name_lt. by rewrite Compare_refl. Qed.

#[export] Instance name_lt_trans : Transitive name_lt.
Proof. intros a b c. apply Compare_lt_trans. Qed.

Lemma name_le_lt_or_eq a b : name_le a b <-> name_lt a b \/ a = b.
Proof.
  unfold name_le, name_lt. split.
  - destruct (Compare a b) eqn:E; try done; [right|left]; auto using Compare_eq.
  - intros [H| ->]; [by rewrite H|by rewrite Compare_refl].
Qed.

#[export] Instance name_le_trans : Transitive name_le.
Proof.
  intros a b c. rewrite !name_le_lt_or_eq. intros [H1| ->] [H2| ->]; auto.
  left. by etransitivity.
Qed.

#[export] Instance name_le_total : Total name_le.
Proof.
  intros a b. unfold name_le. rewrite (Compare_antisym a b).
  destruct (Compare a b); cbn; auto; left; done.
Qed.

Lemma name_le_antisym a b : name_le a b -> name_le b a -> a = b.
Proof.
  rewrite !name_le_lt_or_eq. intros [H1|?] [H2|?]; auto.
  exfalso. apply (name_lt_irrefl a). by transitivity b.
Qed.

Lemma Compare_gt_lt a b : Compare a b = Gt <-> name_lt b a.
Proof. unfold name_lt. rewrite (Compare_antisym a b). destruct (Compare a b); done. Qed.

(** [bytes.IndexByte]: the first position of [c], or -1. *)
Fixpoint IndexByte (b : bytes) (c : byte) : Z :=
  match b with
  | [] => -1
  | x :: t => if bool_decide (x = c) then 0
              else let i := IndexByte t c in if i <? 0 then -1 else i + 1
  end.

Lemma IndexByte_spec b c :
  (IndexByte b c = -1 /\ c ∉ b) \/
  (0 <= IndexByte b c < zlen b /\ b !! Z.to_nat (IndexByte b c) = Some c /\
   c ∉ take (Z.to_nat (IndexByte b c)) b).
Proof.
  induction b as [|x b IH]; cbn [IndexByte].
  - left. split; [done|]. apply not_elem_of_nil.
  - rewrite zlen_cons. case_bool_decide as E.
    + subst. right. pose proof (zlen_nonneg b). split; [lia|]. cbn. split; [done|].
      apply not_elem_of_nil.
    + destruct IH as [[-> Hn]|(Hr & Hl & Hn)].
      * left. cbn. split; [done|]. rewrite elem_of_cons. intuition.
      * right. assert ((IndexByte b c <? 0) = false) as -> by (apply Z.ltb_ge; lia).
        replace (Z.to_nat (IndexByte b c + 1)) with (S (Z.to_nat (IndexByte b c))) by lia.
        cbn. split; [lia|]. split; [done|]. rewrite elem_of_cons. intuition.
Qed.

(** A name cut at its first NUL, as [strnlen] and the reader cut it. *)
Definition cut_nul (b : bytes) : res bytes :=
  let i := IndexByte b x00 in
  if 0 <=? i then slice b 0 i else Ok b.

(** The function computed by [cut_nul] (which never panics). *)
Fixpoint until_nul (b : bytes) : bytes :=
  match b with
  | [] => []
  | x :: t => if bool_decide (x = x00) then [] else x :: until_nul t
  end.

Lemma cut_nul_until b : cut_nul b = Ok (until_nul b).
Proof.
  unfold cut_nul.
  assert (H : (0 <=? IndexByte b x00) = false /\ until_nul b = b \/
          0 <= IndexByte b x00 < zlen b /\ until_nul b = take (Z.to_nat (IndexByte b x00)) b).
  { induction b as [|x b IH]; cbn [IndexByte until_nul]; [by left|].
    rewrite zlen_cons. pose proof (zlen_nonneg b). case_bool_decide as E.
    - right. split; [lia|]. done.
    - destruct IH as [[H1 H2]|[H1 H2]]; rewrite H2.
      + left. apply Z.leb_gt in H1. assert ((IndexByte b x00 <? 0) = true) as -> by (apply Z.ltb_lt; lia).
        done.
      + right. assert ((IndexByte b x00 <? 0) = false) as -> by (apply Z.ltb_ge; lia).
        split; [lia|].
        by replace (Z.to_nat (IndexByte b x00 + 1)) with (S (Z.to_nat (IndexByte b x00))) by lia. }
  destruct H as [[-> ->]|[H1 H2]]; [done|].
  rewrite (proj2 (Z.leb_le _ _)) by lia. rewrite slice_ok by lia.
  rewrite H2. unfold sub. rewrite drop_0. do 2 f_equal. lia.
Qed.

Lemma until_nul_no_nul b : x00 ∉ b -> until_nul b = b.
Proof.
  induction b as [|x b IH]; cbn; [done|]. rewrite not_elem_of_cons. intros [H1 H2].
  rewrite bool_decide_eq_false_2 by congruence. by rewrite IH.
Qed.

Lemma until_nul_app_nul b r : x00 ∉ b -> until_nul (b ++ x00 :: r) = b.
Proof.
  induction b as [|x b IH]; cbn; [done|]. rewrite not_elem_of_cons. intros [H1 H2].
  rewrite bool_decide_eq_false_2 by congruence. by rewrite IH.
Qed.

Lemma until_nul_sound b : x00 ∉ until_nul b.
Proof.
  induction b as [|x b IH]; cbn; [apply not_elem_of_nil|].
  case_bool_decide; [apply not_elem_of_nil|]. rewrite not_elem_of_cons. split; [congruence|done].
Qed.

(** [strings.HasPrefix], [strings.HasSuffix]. *)
Definition HasPrefix (s p : bytes) : bool :=
  beqb (take (length p) s) p.
Definition HasSuffix (s p : bytes) : bool :=
  (length p <=? length s)%nat && beqb (drop (length s - length p) s) p.

Lemma HasPrefix_spec s p : HasPrefix s p = true <-> s = p ++ drop (length p) s.
Proof.
  unfold HasPrefix. rewrite beqb_eq. split; intros H.
  - rewrite <- H at 1. by rewrite take_drop.
  - rewrite H at 1. by rewrite take_app_length.
Qed.

(** ** Rounding *)

(** [(v + n - 1) &^ (n - 1)] for a power of two [n]. *)
Definition round_up_pow2 (v n : Z) : Z := Z.land (v + n - 1) (Z.lnot (n - 1)).

Lemma land_lnot_pow2 a k : 0 <= k -> Z.land a (Z.lnot (2 ^ k - 1)) = a - a mod 2 ^ k.
Proof.
  intros Hk.
  replace (2 ^ k - 1) with (Z.ones k) by (rewrite Z.ones_equiv; lia).
  rewrite <- Z.ldiff_land, Z.ldiff_ones_r by done.
  rewrite Z.shiftl_mul_pow2, Z.shiftr_div_pow2 by done.
  pose proof (Z.div_mod a (2 ^ k)). lia.
Qed.

Lemma land_pow2_mask a k : 0 <= k -> Z.land a (2 ^ k - 1) = a mod 2 ^ k.
Proof.
  intros. replace (2 ^ k - 1) with (Z.ones k) by (rewrite Z.ones_equiv; lia).
  by rewrite Z.land_ones.
Qed.

Lemma round_up_pow2_spec v k :
  0 <= k ->
  let r := round_up_pow2 v (2 ^ k) in v <= r < v + 2 ^ k /\ r mod 2 ^ k = 0.
Proof.
  intros Hk r. subst r. unfold round_up_pow2. rewrite land_lnot_pow2 by done.
  pose proof (Z.pow_pos_nonneg 2 k ltac:(lia) Hk).
  pose proof (Z.mod_pos_bound (v + 2 ^ k - 1) (2 ^ k) ltac:(lia)).
  split; [lia|]. pose proof (Z.div_mod (v + 2 ^ k - 1) (2 ^ k) ltac:(lia)) as E.
  replace (v + 2 ^ k - 1 - (v + 2 ^ k - 1) mod 2 ^ k)
    with ((v + 2 ^ k - 1) / 2 ^ k * 2 ^ k) by lia.
  apply Z.mod_mul. lia.
Qed.

(** A multiple of a power of two is its own rounding. *)
Lemma round_up_pow2_id v k : 0 <= k -> v mod 2 ^ k = 0 -> round_up_pow2 v (2 ^ k) = v.
Proof.
  intros Hk Hv. destruct (round_up_pow2_spec v k Hk) as [H1 H2].
  pose proof (Z.pow_pos_nonneg 2 k ltac:(lia) Hk).
  apply Z.div_exact in H2; [|lia]. apply Z.div_exact in Hv; [|lia].
  set (r := round_up_pow2 v (2 ^ k)) in *.
  assert (r / 2 ^ k = v / 2 ^ k) as E by (generalize dependent (r / 2 ^ k);
    generalize dependent (v / 2 ^ k); intros; subst; nia).
  rewrite H2, E. by rewrite <- Hv.
Qed.
