(* ===== verification/Disk.v ===== *)
(** * The on-disk format: [internal/disk]

    The structures of [types.go] with their hand-written [Marshal] and
    [Unmarshal], and the file-type and mode conversions of [ftypes.go].  A
    fixed-size array field is a byte list whose length is part of the
    structure's well-formedness. *)

From S2P Require Import Prelude Machine.

(** ** Constants (types.go) *)

Definition MagicNumber : Z := 0xe0f5e1e2.
Definition SuperBlockOffset : Z := 1024.
Definition FeatureIncompatLZ4_0Padding : Z := 0x1.
Definition FeatureIncompatChunkedFile : Z := 0x4.
Definition FeatureIncompatDeviceTable : Z := 0x8.
Definition FeatureIncompatFragments : Z := 0x20.
Definition FeatureIncompatXattrPrefixes : Z := 0x40.
Definition FeatureIncompatAll : Z :=
  Z.lor FeatureIncompatLZ4_0Padding (Z.lor FeatureIncompatChunkedFile
    (Z.lor FeatureIncompatDeviceTable
      (Z.lor FeatureIncompatFragments FeatureIncompatXattrPrefixes))).
Definition SizeSuperBlock : Z := 128.
Definition SizeSuperExtSlot : Z := 16.
Definition MinPageSize : Z := 4096.
Definition MaxNameLen : Z := 255.
Definition SizeInodeCompact : Z := 32.
Definition SizeInodeExtended : Z := 64.
Definition SizeDirent : Z := 12.
Definition SizeXattrBodyHeader : Z := 12.
Definition SizeXattrEntry : Z := 4.
Definition SizeDeviceSlot : Z := 128.
Definition SizeChunkIndex : Z := 8.
Definition SizeInodeSlot : Z := 32.
Definition LayoutFlatPlain : Z := 0.
Definition LayoutCompressedFull : Z := 1.
Definition LayoutFlatInline : Z := 2.
Definition LayoutCompressedCompact : Z := 3.
Definition LayoutChunkBased : Z := 4.
Definition LayoutMax : Z := 5.
Definition LayoutChunkFormatBits : Z := 0x001F.
Definition LayoutChunkFormatIndexes : Z := 0x0020.
Definition LayoutChunkFormat48Bit : Z := 0x0040.
Definition LayoutChunkFormatAll : Z := 0x007F.
Definition InodeFormatExtended : Z := 0x0001.
Definition InodeFormatLayoutMask : Z := 0x000E.
Definition InodeFormatDotOmitted : Z := 0x0010.
Definition InodeFormatNlink1 : Z := 0x0010.
Definition InodeFormatAll : Z := 0x001F.
Definition FeatureCompatSBChksum : Z := 0x00000001.
Definition FeatureCompatIshareXattrs : Z := 0x00000020.
Definition FeatureCompatPlainXattrPfx : Z := 0x00000010.
Definition NullAddr : Z := 0xFFFFFFFF.
Definition XattrLongPrefixFlag : Z := 0x80.
Definition XattrLongPrefixMask : Z := 0x7F.

(** ** Structures (types.go) *)

Record SuperBlock := mkSuperBlock {
  sb_MagicNumber : Z;
  sb_Checksum : Z;
  sb_FeatureCompat : Z;
  sb_BlkSizeBits : Z;
  sb_ExtSlots : Z;
  sb_RootNid : Z;
  sb_Inos : Z;
  sb_BuildTime : Z;
  sb_BuildTimeNs : Z;
  sb_Blocks : Z;
  sb_MetaBlkAddr : Z;
  sb_XattrBlkAddr : Z;
  sb_UUID : bytes;
  sb_VolumeName : bytes;
  sb_FeatureIncompat : Z;
  sb_ComprAlgs : Z;
  sb_ExtraDevices : Z;
  sb_DevtSlotOff : Z;
  sb_DirBlkBits : Z;
  sb_XattrPrefixCount : Z;
  sb_XattrPrefixStart : Z;
  sb_PackedNid : Z;
  sb_XattrFilterRes : Z;
  sb_IshareXattrPrefixID : Z;
  sb_Reserved : bytes
}.

Record InodeCompact := mkInodeCompact {
  ic_Format : Z;
  ic_XattrCount : Z;
  ic_Mode : Z;
  ic_NB : Z;
  ic_Size : Z;
  ic_Mtime : Z;
  ic_InodeData : Z;
  ic_Inode : Z;
  ic_UID : Z;
  ic_GID : Z;
  ic_Reserved2 : Z
}.

Record InodeExtended := mkInodeExtended {
  ie_Format : Z;
  ie_XattrCount : Z;
  ie_Mode : Z;
  ie_NB : Z;
  ie_Size : Z;
  ie_InodeData : Z;
  ie_Inode : Z;
  ie_UID : Z;
  ie_GID : Z;
  ie_Mtime : Z;
  ie_MtimeNs : Z;
  ie_Nlink : Z;
  ie_Reserved2 : bytes
}.

Record Dirent := mkDirent {
  de_Nid : Z;
  de_NameOff : Z;
  de_FileType : Z;
  de_Reserved : Z
}.

Record XattrHeader := mkXattrHeader {
  xh_NameFilter : Z;
  xh_SharedCount : Z;
  xh_Reserved : bytes
}.

Record XattrEntry := mkXattrEntry {
  xe_NameLen : Z;
  xe_NameIndex : Z;
  xe_ValueLen : Z
}.

Record DeviceSlot := mkDeviceSlot {
  ds_Tag : bytes;
  ds_Blocks : Z;
  ds_MappedBlkAddr : Z;
  ds_Reserved : bytes
}.

(** ** Decoding.  [_ = b[Size-1]] panics on a short buffer. *)

Definition InodeCompact_Unmarshal (b : bytes) : res InodeCompact :=
  if zlen b <? SizeInodeCompact then Panic else
  Ok {| ic_Format := get16 b 0;
        ic_XattrCount := get16 b 2;
        ic_Mode := get16 b 4;
        ic_NB := get16 b 6;
        ic_Size := get32 b 8;
        ic_Mtime := get32 b 12;
        ic_InodeData := get32 b 16;
        ic_Inode := get32 b 20;
        ic_UID := get16 b 24;
        ic_GID := get16 b 26;
        ic_Reserved2 := get32 b 28 |}.

Definition InodeExtended_Unmarshal (b : bytes) : res InodeExtended :=
  if zlen b <? SizeInodeExtended then Panic else
  Ok {| ie_Format := get16 b 0;
        ie_XattrCount := get16 b 2;
        ie_Mode := get16 b 4;
        ie_NB := get16 b 6;
        ie_Size := get64 b 8;
        ie_InodeData := get32 b 16;
        ie_Inode := get32 b 20;
        ie_UID := get32 b 24;
        ie_GID := get32 b 28;
        ie_Mtime := get64 b 32;
        ie_MtimeNs := get32 b 40;
        ie_Nlink := get32 b 44;
        ie_Reserved2 := sub b 48 16 |}.

Definition Dirent_Unmarshal (b : bytes) : res Dirent :=
  if zlen b <? SizeDirent then Panic else
  Ok {| de_Nid := get64 b 0;
        de_NameOff := get16 b 8;
        de_FileType := get8 b 10;
        de_Reserved := get8 b 11 |}.

Definition XattrHeader_Unmarshal (b : bytes) : res XattrHeader :=
  if zlen b <? SizeXattrBodyHeader then Panic else
  Ok {| xh_NameFilter := get32 b 0;
        xh_SharedCount := get8 b 4;
        xh_Reserved := sub b 5 7 |}.

Definition XattrEntry_Unmarshal (b : bytes) : res XattrEntry :=
  if zlen b <? SizeXattrEntry then Panic else
  Ok {| xe_NameLen := get8 b 0;
        xe_NameIndex := get8 b 1;
        xe_ValueLen := get16 b 2 |}.

Definition SuperBlock_Unmarshal (b : bytes) : res SuperBlock :=
  if zlen b <? SizeSuperBlock then Panic else
  Ok {| sb_MagicNumber := get32 b 0;
        sb_Checksum := get32 b 4;
        sb_FeatureCompat := get32 b 8;
        sb_BlkSizeBits := get8 b 12;
        sb_ExtSlots := get8 b 13;
        sb_RootNid := get16 b 14;
        sb_Inos := get64 b 16;
        sb_BuildTime := get64 b 24;
        sb_BuildTimeNs := get32 b 32;
        sb_Blocks := get32 b 36;
        sb_MetaBlkAddr := get32 b 40;
        sb_XattrBlkAddr := get32 b 44;
        sb_UUID := sub b 48 16;
        sb_VolumeName := sub b 64 16;
        sb_FeatureIncompat := get32 b 80;
        sb_ComprAlgs := get16 b 84;
        sb_ExtraDevices := get16 b 86;
        sb_DevtSlotOff := get16 b 88;
        sb_DirBlkBits := get8 b 90;
        sb_XattrPrefixCount := get8 b 91;
        sb_XattrPrefixStart := get32 b 92;
        sb_PackedNid := get64 b 96;
        sb_XattrFilterRes := get8 b 104;
        sb_IshareXattrPrefixID := get8 b 105;
        sb_Reserved := sub b 106 22 |}.

Definition DeviceSlot_Unmarshal (b : bytes) : res DeviceSlot :=
  if zlen b <? SizeDeviceSlot then Panic else
  Ok {| ds_Tag := sub b 0 64;
        ds_Blocks := get32 b 64;
        ds_MappedBlkAddr := get32 b 68;
        ds_Reserved := sub b 72 56 |}.

(** ** Encoding, in place over the target slice *)

(** [clear(b[:n])]. *)
Definition clear_prefix (n : nat) (b : bytes) : bytes := zeros n ++ drop n b.

Definition SuperBlock_Marshal (s : SuperBlock) (b : bytes) : res bytes :=
  if zlen b <? SizeSuperBlock then Panic else
  let b := clear_prefix 128 b in
  let b := put32 0 (sb_MagicNumber s) b in
  let b := put32 4 (sb_Checksum s) b in
  let b := put32 8 (sb_FeatureCompat s) b in
  let b := put8 12 (sb_BlkSizeBits s) b in
  let b := put8 13 (sb_ExtSlots s) b in
  let b := put16 14 (sb_RootNid s) b in
  let b := put64 16 (sb_Inos s) b in
  let b := put64 24 (sb_BuildTime s) b in
  let b := put32 32 (sb_BuildTimeNs s) b in
  let b := put32 36 (sb_Blocks s) b in
  let b := put32 40 (sb_MetaBlkAddr s) b in
  let b := put32 44 (sb_XattrBlkAddr s) b in
  let b := putb 48 (sb_UUID s) b in
  let b := putb 64 (sb_VolumeName s) b in
  let b := put32 80 (sb_FeatureIncompat s) b in
  let b := put16 84 (sb_ComprAlgs s) b in
  let b := put16 86 (sb_ExtraDevices s) b in
  let b := put16 88 (sb_DevtSlotOff s) b in
  let b := put8 90 (sb_DirBlkBits s) b in
  let b := put8 91 (sb_XattrPrefixCount s) b in
  let b := put32 92 (sb_XattrPrefixStart s) b in
  let b := put64 96 (sb_PackedNid s) b in
  let b := put8 104 (sb_XattrFilterRes s) b in
  let b := put8 105 (sb_IshareXattrPrefixID s) b in
  let b := putb 106 (sb_Reserved s) b in
  Ok b.

Definition DeviceSlot_Marshal (d : DeviceSlot) (b : bytes) : res bytes :=
  if zlen b <? SizeDeviceSlot then Panic else
  let b := clear_prefix 128 b in
  let b := putb 0 (ds_Tag d) b in
  let b := put32 64 (ds_Blocks d) b in
  let b := put32 68 (ds_MappedBlkAddr d) b in
  let b := putb 72 (ds_Reserved d) b in
  Ok b.

(** ** File types and modes (ftypes.go) *)

Definition FileTypeReg : Z := 1.
Definition FileTypeDir : Z := 2.
Definition FileTypeChrdev : Z := 3.
Definition FileTypeBlkdev : Z := 4.
Definition FileTypeFifo : Z := 5.
Definition FileTypeSock : Z := 6.
Definition FileTypeSymlink : Z := 7.

Definition StatTypeMask : Z := 0xF000. (* 0o170000 *)
Definition StatTypeReg : Z := 0x8000. (* 0o100000 *)
Definition StatTypeDir : Z := 0x4000. (* 0o040000 *)
Definition StatTypeChrdev : Z := 0x2000. (* 0o020000 *)
Definition StatTypeBlkdev : Z := 0x6000. (* 0o060000 *)
Definition StatTypeFifo : Z := 0x1000. (* 0o010000 *)
Definition StatTypeSock : Z := 0xC000. (* 0o140000 *)
Definition StatTypeSymlink : Z := 0xA000. (* 0o120000 *)
Definition StatTypeIsUID : Z := 0x800. (* 0o004000 *)
Definition StatTypeIsGID : Z := 0x400. (* 0o002000 *)
Definition StatTypeIsVTX : Z := 0x200. (* 0o001000 *)

(** [io/fs.FileMode]'s bits. *)
Definition ModeDir : Z := 2 ^ 31.
Definition ModeSymlink : Z := 2 ^ 27.
Definition ModeDevice : Z := 2 ^ 26.
Definition ModeNamedPipe : Z := 2 ^ 25.
Definition ModeSocket : Z := 2 ^ 24.
Definition ModeSetuid : Z := 2 ^ 23.
Definition ModeSetgid : Z := 2 ^ 22.
Definition ModeCharDevice : Z := 2 ^ 21.
Definition ModeSticky : Z := 2 ^ 20.
Definition ModeIrregular : Z := 2 ^ 19.
Definition ModePerm : Z := 0x1FF. (* 0o777 *)
Definition ModeType : Z :=
  Z.lor ModeDir (Z.lor ModeSymlink (Z.lor ModeNamedPipe (Z.lor ModeSocket
    (Z.lor ModeDevice (Z.lor ModeCharDevice ModeIrregular))))).

Definition FileMode_Type (m : Z) : Z := Z.land m ModeType.
Definition FileMode_IsDir (m : Z) : bool := negb (Z.land m ModeDir =? 0).
Definition FileMode_IsRegular (m : Z) : bool := Z.land m ModeType =? 0.
Definition FileMode_Perm (m : Z) : Z := Z.land m ModePerm.

Definition EroFSFtypeToFileMode (ftype : Z) : Z :=
  if ftype =? FileTypeDir then ModeDir
  else if ftype =? FileTypeChrdev then Z.lor ModeDevice ModeCharDevice
  else if ftype =? FileTypeBlkdev then ModeDevice
  else if ftype =? FileTypeFifo then ModeNamedPipe
  else if ftype =? FileTypeSock then ModeSocket
  else if ftype =? FileTypeSymlink then ModeSymlink
  else 0.

Definition EroFSModeToGoFileMode (mode : Z) : Z :=
  let m := Z.land mode ModePerm in
  let t := Z.land mode StatTypeMask in
  let m :=
    if t =? StatTypeReg then m
    else if t =? StatTypeDir then Z.lor m ModeDir
    else if t =? StatTypeChrdev then Z.lor m (Z.lor ModeDevice ModeCharDevice)
    else if t =? StatTypeBlkdev then Z.lor m ModeDevice
    else if t =? StatTypeFifo then Z.lor m ModeNamedPipe
    else if t =? StatTypeSock then Z.lor m ModeSocket
    else if t =? StatTypeSymlink then Z.lor m ModeSymlink
    else Z.lor m ModeIrregular in
  let m := if negb (Z.land mode StatTypeIsUID =? 0) then Z.lor m ModeSetuid else m in
  let m := if negb (Z.land mode StatTypeIsGID =? 0) then Z.lor m ModeSetgid else m in
  if negb (Z.land mode StatTypeIsVTX =? 0) then Z.lor m ModeSticky else m.

Definition RdevFromMode (mode inodeData : Z) : Z :=
  let t := Z.land mode StatTypeMask in
  if (t =? StatTypeChrdev) || (t =? StatTypeBlkdev) then inodeData else 0.

(** ** Well-formedness: every field in its width, every array at its length *)

Record SuperBlock_wf (s : SuperBlock) : Prop := {
  wf_sb_MagicNumber : is_u32 (sb_MagicNumber s);
  wf_sb_Checksum : is_u32 (sb_Checksum s);
  wf_sb_FeatureCompat : is_u32 (sb_FeatureCompat s);
  wf_sb_BlkSizeBits : is_u8 (sb_BlkSizeBits s);
  wf_sb_ExtSlots : is_u8 (sb_ExtSlots s);
  wf_sb_RootNid : is_u16 (sb_RootNid s);
  wf_sb_Inos : is_u64 (sb_Inos s);
  wf_sb_BuildTime : is_u64 (sb_BuildTime s);
  wf_sb_BuildTimeNs : is_u32 (sb_BuildTimeNs s);
  wf_sb_Blocks : is_u32 (sb_Blocks s);
  wf_sb_MetaBlkAddr : is_u32 (sb_MetaBlkAddr s);
  wf_sb_XattrBlkAddr : is_u32 (sb_XattrBlkAddr s);
  wf_sb_UUID : length (sb_UUID s) = 16%nat;
  wf_sb_VolumeName : length (sb_VolumeName s) = 16%nat;
  wf_sb_FeatureIncompat : is_u32 (sb_FeatureIncompat s);
  wf_sb_ComprAlgs : is_u16 (sb_ComprAlgs s);
  wf_sb_ExtraDevices : is_u16 (sb_ExtraDevices s);
  wf_sb_DevtSlotOff : is_u16 (sb_DevtSlotOff s);
  wf_sb_DirBlkBits : is_u8 (sb_DirBlkBits s);
  wf_sb_XattrPrefixCount : is_u8 (sb_XattrPrefixCount s);
  wf_sb_XattrPrefixStart : is_u32 (sb_XattrPrefixStart s);
  wf_sb_PackedNid : is_u64 (sb_PackedNid s);
  wf_sb_XattrFilterRes : is_u8 (sb_XattrFilterRes s);
  wf_sb_IshareXattrPrefixID : is_u8 (sb_IshareXattrPrefixID s);
  wf_sb_Reserved : length (sb_Reserved s) = 22%nat
}.

Record DeviceSlot_wf (d : DeviceSlot) : Prop := {
  wf_ds_Tag : length (ds_Tag d) = 64%nat;
  wf_ds_Blocks : is_u32 (ds_Blocks d);
  wf_ds_MappedBlkAddr : is_u32 (ds_MappedBlkAddr d);
  wf_ds_Reserved : length (ds_Reserved d) = 56%nat
}.

(** ** Field access over an encoded buffer *)

Lemma length_clear_prefix n b : (n <= length b)%nat -> length (clear_prefix n b) = length b.
Proof. intros. unfold clear_prefix. len. Qed.

Lemma drop_splice (b : bytes) (off : nat) v n :
  (off + length v <= n)%nat -> (n <= length b)%nat -> drop n (splice b off v) = drop n b.
Proof.
  intros. unfold splice. rewrite !drop_app_ge by len.
  rewrite drop_drop. f_equal. len.
Qed.

Lemma drop_clear_prefix n b : (n <= length b)%nat -> drop n (clear_prefix n b) = drop n b.
Proof.
  intros. unfold clear_prefix. rewrite drop_app_ge by len.
  rewrite drop_drop. f_equal. len.
Qed.

(** A buffer cut into consecutive fields of the given widths. *)
Fixpoint segs (off : nat) (ws : list nat) (b : bytes) : list bytes :=
  match ws with
  | [] => []
  | w :: ws => sub b off w :: segs (off + w) ws b
  end.

Lemma segs_ext ws off b1 b2 :
  segs off ws b1 = segs off ws b2 ->
  sub b1 off (sum_list ws) = sub b2 off (sum_list ws).
Proof.
  assert (Hs : forall (b : bytes) o n m, sub b o (n + m) = sub b o n ++ sub b (o + n) m).
  { intros. unfold sub. rewrite <- drop_drop.
    by rewrite take_take_drop. }
  revert off. induction ws as [|w ws IH]; intros off H; [done|].
  injection H as H1 H2. change (sum_list (w :: ws)) with (w + sum_list ws)%nat. rewrite !Hs. rewrite H1. by rewrite (IH _ H2).
Qed.

(** A structure encoded field by field at consecutive offsets; [None] is a
    field the code leaves as the buffer has it. *)
Definition field : Type := nat * option bytes.

Fixpoint put_fields (off : nat) (fs : list field) (b : bytes) : bytes :=
  match fs with
  | [] => b
  | (w, Some v) :: fs => put_fields (off + w) fs (splice b off v)
  | (w, None) :: fs => put_fields (off + w) fs b
  end.

Fixpoint field_values (off : nat) (fs : list field) (b : bytes) : list bytes :=
  match fs with
  | [] => []
  | (w, Some v) :: fs => v :: field_values (off + w) fs b
  | (w, None) :: fs => sub b off w :: field_values (off + w) fs b
  end.

Definition field_wf (f : field) : Prop :=
  match f.2 with Some v => length v = f.1 | None => True end.

Definition fields_size (fs : list field) : nat := sum_list (fst <$> fs).

Lemma length_put_fields fs off b :
  Forall field_wf fs -> (off + fields_size fs <= length b)%nat ->
  length (put_fields off fs b) = length b.
Proof.
  unfold fields_size. intros H. revert off b.
  induction H as [|[w [v|]] fs Hw H IH]; intros off b Hl; cbn in *; [done| |].
  - unfold field_wf in Hw. cbn in Hw. rewrite IH; rewrite length_splice; lia.
  - apply IH. lia.
Qed.

Lemma sub_put_fields_before fs off b o n :
  Forall field_wf fs -> (off + fields_size fs <= length b)%nat -> (o + n <= off)%nat ->
  sub (put_fields off fs b) o n = sub b o n.
Proof.
  unfold fields_size. intros H. revert off b.
  induction H as [|[w [v|]] fs Hw H IH]; intros off b Hl Ho; cbn in *; [done| |].
  - unfold field_wf in Hw. cbn in Hw. rewrite IH by (rewrite ?length_splice; lia).
    apply sub_splice_before; lia.
  - apply IH; lia.
Qed.

Lemma drop_put_fields fs off b n :
  Forall field_wf fs -> (off + fields_size fs <= n)%nat -> (n <= length b)%nat ->
  drop n (put_fields off fs b) = drop n b.
Proof.
  unfold fields_size. intros H. revert off b.
  induction H as [|[w [v|]] fs Hw H IH]; intros off b Hl Ho; cbn in *; [done| |].
  - unfold field_wf in Hw. cbn in Hw. rewrite IH by (rewrite ?length_splice; lia).
    apply drop_splice; lia.
  - apply IH; lia.
Qed.

Lemma field_values_splice fs off b o v :
  (o + length v <= off)%nat -> (o + length v <= length b)%nat ->
  field_values off fs (splice b o v) = field_values off fs b.
Proof.
  revert off. induction fs as [|[w [u|]] fs IH]; intros off H1 H2; cbn; [done| |].
  - f_equal. apply IH; lia.
  - rewrite sub_splice_after by lia. f_equal. apply IH; lia.
Qed.

(** Decoding a buffer encoded field by field gives the fields back. *)
Lemma segs_put_fields fs off b :
  Forall field_wf fs -> (off + fields_size fs <= length b)%nat ->
  segs off (fst <$> fs) (put_fields off fs b) = field_values off fs b.
Proof.
  unfold fields_size. intros H. revert off b.
  induction H as [|[w [v|]] fs Hw H IH]; intros off b Hl; cbn in *; [done| |].
  - unfold field_wf in Hw. cbn in Hw.
    rewrite IH by (rewrite ?length_splice; lia). f_equal.
    + rewrite sub_put_fields_before; unfold fields_size; try done.
      * apply sub_splice_eq; lia.
      * rewrite length_splice; lia.
    + apply field_values_splice; lia.
  - rewrite IH by lia. f_equal. apply sub_put_fields_before; unfold fields_size; try done; lia.
Qed.

(** The fields of the superblock as [SuperBlock_Marshal] lays them out. *)
Definition superblock_fields (s : SuperBlock) : list field :=
  [(4, Some (le_encode 4 (sb_MagicNumber s))); (4, Some (le_encode 4 (sb_Checksum s)));
   (4, Some (le_encode 4 (sb_FeatureCompat s))); (1, Some (le_encode 1 (sb_BlkSizeBits s)));
   (1, Some (le_encode 1 (sb_ExtSlots s))); (2, Some (le_encode 2 (sb_RootNid s)));
   (8, Some (le_encode 8 (sb_Inos s))); (8, Some (le_encode 8 (sb_BuildTime s)));
   (4, Some (le_encode 4 (sb_BuildTimeNs s))); (4, Some (le_encode 4 (sb_Blocks s)));
   (4, Some (le_encode 4 (sb_MetaBlkAddr s))); (4, Some (le_encode 4 (sb_XattrBlkAddr s)));
   (16, Some (sb_UUID s)); (16, Some (sb_VolumeName s));
   (4, Some (le_encode 4 (sb_FeatureIncompat s))); (2, Some (le_encode 2 (sb_ComprAlgs s)));
   (2, Some (le_encode 2 (sb_ExtraDevices s))); (2, Some (le_encode 2 (sb_DevtSlotOff s)));
   (1, Some (le_encode 1 (sb_DirBlkBits s))); (1, Some (le_encode 1 (sb_XattrPrefixCount s)));
   (4, Some (le_encode 4 (sb_XattrPrefixStart s))); (8, Some (le_encode 8 (sb_PackedNid s)));
   (1, Some (le_encode 1 (sb_XattrFilterRes s)));
   (1, Some (le_encode 1 (sb_IshareXattrPrefixID s))); (22, Some (sb_Reserved s))]%nat.

Definition deviceslot_fields (d : DeviceSlot) : list field :=
  [(64, Some (ds_Tag d)); (4, Some (le_encode 4 (ds_Blocks d)));
   (4, Some (le_encode 4 (ds_MappedBlkAddr d))); (56, Some (ds_Reserved d))]%nat.

Lemma get_of_le8 z : is_u8 z -> le (le_encode 1 z) = z.
Proof. unfold is_u8. intros. by apply le_le_encode_id. Qed.
Lemma get_of_le16 z : is_u16 z -> le (le_encode 2 z) = z.
Proof. unfold is_u16. intros. by apply le_le_encode_id. Qed.
Lemma get_of_le32 z : is_u32 z -> le (le_encode 4 z) = z.
Proof. unfold is_u32. intros. by apply le_le_encode_id. Qed.
Lemma get_of_le64 z : is_u64 z -> le (le_encode 8 z) = z.
Proof. unfold is_u64. intros. by apply le_le_encode_id. Qed.

Lemma le_encode_get n b off :
  (off + n <= length b)%nat -> le_encode n (le (sub b off n)) = sub b off n.
Proof.
  intros. rewrite <- (length_sub b off n) at 1 by done. apply le_encode_le.
Qed.

Lemma SuperBlock_Marshal_fields s b :
  128 <= zlen b -> SuperBlock_Marshal s b = Ok (put_fields 0 (superblock_fields s) (clear_prefix 128 b)).
Proof.
  intros H. unfold SuperBlock_Marshal, SizeSuperBlock.
  rewrite (proj2 (Z.ltb_ge _ _)) by lia. set (c := clear_prefix _ _). clearbody c.
  cbv beta iota zeta delta [put_fields superblock_fields put8 put16 put32 put64 putb Nat.add].
  reflexivity.
Qed.

Lemma DeviceSlot_Marshal_fields d b :
  128 <= zlen b -> DeviceSlot_Marshal d b = Ok (put_fields 0 (deviceslot_fields d) (clear_prefix 128 b)).
Proof.
  intros H. unfold DeviceSlot_Marshal, SizeDeviceSlot.
  rewrite (proj2 (Z.ltb_ge _ _)) by lia. set (c := clear_prefix _ _). clearbody c.
  cbv beta iota zeta delta [put_fields deviceslot_fields put8 put16 put32 put64 putb Nat.add].
  reflexivity.
Qed.

Lemma superblock_fields_wf s : SuperBlock_wf s -> Forall field_wf (superblock_fields s).
Proof.
  intros [ ]. unfold superblock_fields.
  repeat constructor; unfold field_wf; cbn [fst snd];
    rewrite ?length_le_encode; auto.
Qed.

Lemma deviceslot_fields_wf d : DeviceSlot_wf d -> Forall field_wf (deviceslot_fields d).
Proof.
  intros [ ]. unfold deviceslot_fields.
  repeat constructor; unfold field_wf; cbn [fst snd];
    rewrite ?length_le_encode; auto.
Qed.

#[export] Hint Resolve superblock_fields_wf deviceslot_fields_wf : disk.

(** Encoding fills the first 128 bytes of its target and leaves the rest. *)
Lemma marshal_tail fs b :
  Forall field_wf fs -> fields_size fs = 128%nat -> 128 <= zlen b ->
  zlen (put_fields 0 fs (clear_prefix 128 b)) = zlen b /\
  drop 128 (put_fields 0 fs (clear_prefix 128 b)) = drop 128 b.
Proof.
  unfold zlen. intros Hf Hs Hb. pose proof (length_clear_prefix 128 b ltac:(lia)).
  split; [rewrite length_put_fields; lia || done|].
  rewrite drop_put_fields by (lia || done). apply drop_clear_prefix. lia.
Qed.

Ltac inject_all H :=
  match type of H with
  | _ :: _ = _ :: _ => let E := fresh "F" in injection H as E H; inject_all H
  | _ => idtac
  end.

Lemma SuperBlock_Marshal_facts s b :
  SuperBlock_wf s -> 128 <= zlen b ->
  exists b', SuperBlock_Marshal s b = Ok b' /\ SuperBlock_Unmarshal b' = Ok s /\
             drop 128 b' = drop 128 b.
Proof.
  intros Hwf Hb. eexists. split; [by apply SuperBlock_Marshal_fields|].
  pose proof (superblock_fields_wf s Hwf) as Hf.
  destruct (marshal_tail _ b Hf eq_refl Hb) as [Hl Hd]. split; [|done].
  pose proof (segs_put_fields (superblock_fields s) 0 (clear_prefix 128 b) Hf) as Hseg.
  rewrite length_clear_prefix in Hseg by (unfold zlen in *; lia).
  specialize (Hseg ltac:(unfold zlen in *; change (fields_size _) with 128%nat; lia)).
  set (b' := put_fields _ _ _) in *. clearbody b'.
  unfold superblock_fields in Hseg. cbn [fmap list_fmap fst segs field_values Nat.add] in Hseg.
  inject_all Hseg.
  unfold SuperBlock_Unmarshal, SizeSuperBlock. rewrite (proj2 (Z.ltb_ge _ _)) by lia.
  unfold get8, get16, get32, get64. destruct Hwf, s; cbn in *.
  repeat match goal with H : sub b' _ _ = _ |- _ => rewrite H; clear H end.
  rewrite ?get_of_le8, ?get_of_le16, ?get_of_le32, ?get_of_le64 by done. done.
Qed.

(** A superblock marshalled into a large enough buffer unmarshals to
    itself, and the bytes of the buffer past the 128 are untouched. *)
Theorem SuperBlock_roundtrip s b :
  SuperBlock_wf s -> 128 <= zlen b ->
  exists b', SuperBlock_Marshal s b = Ok b' /\ SuperBlock_Unmarshal b' = Ok s /\
             drop 128 b' = drop 128 b.
Proof. exact (SuperBlock_Marshal_facts s b). Qed.

Lemma SuperBlock_roundtrip_witness :
  let s := {| sb_MagicNumber := MagicNumber; sb_Checksum := 7; sb_FeatureCompat := 1;
              sb_BlkSizeBits := 12; sb_ExtSlots := 0; sb_RootNid := 36; sb_Inos := 2 ^ 40;
              sb_BuildTime := 2 ^ 63; sb_BuildTimeNs := 999999999; sb_Blocks := 3;
              sb_MetaBlkAddr := 1; sb_XattrBlkAddr := 0; sb_UUID := zeros 16;
              sb_VolumeName := replicate 16 xff; sb_FeatureIncompat := 12; sb_ComprAlgs := 0;
              sb_ExtraDevices := 1; sb_DevtSlotOff := 9; sb_DirBlkBits := 0;
              sb_XattrPrefixCount := 2; sb_XattrPrefixStart := 300; sb_PackedNid := 0;
              sb_XattrFilterRes := 0; sb_IshareXattrPrefixID := 0; sb_Reserved := zeros 22 |} in
  exists b', SuperBlock_Marshal s (replicate 512 xaa) = Ok b' /\
             SuperBlock_Unmarshal b' = Ok s /\ drop 128 b' = drop 128 (replicate 512 xaa).
Proof.
  intros s. apply (SuperBlock_roundtrip s (replicate 512 xaa)).
  - constructor; try (by split); reflexivity.
  - by vm_compute.
Defined.

(** The values of a superblock's fields, as the buffer they were decoded from
    spells them. *)
Lemma superblock_fields_of_buffer b s c :
  SuperBlock_Unmarshal b = Ok s ->
  Forall field_wf (superblock_fields s) /\
  field_values 0 (superblock_fields s) c = segs 0 (fst <$> superblock_fields s) b.
Proof.
  unfold SuperBlock_Unmarshal, SizeSuperBlock. intros H. step_in H.
  apply Z.ltb_ge in E. unfold zlen in E. apply Ok_inj in H.
  assert (Hl : forall off n, (off + n <= 128)%nat -> length (sub b off n) = n).
  { intros. apply length_sub. lia. }
  assert (Hg : forall n off, (off + n <= 128)%nat -> le_encode n (le (sub b off n)) = sub b off n).
  { intros. apply le_encode_get. lia. }
  clear E. unfold get8, get16, get32, get64 in H. split.
  - rewrite <- H. unfold superblock_fields.
    repeat constructor; unfold field_wf; cbn [fst snd sb_UUID sb_VolumeName sb_Reserved];
      first [apply length_le_encode | apply Hl; lia].
  - rewrite <- H. clear H s. unfold superblock_fields.
    cbn [fmap list_fmap fst segs field_values Nat.add sb_MagicNumber sb_Checksum sb_FeatureCompat
         sb_BlkSizeBits sb_ExtSlots sb_RootNid sb_Inos sb_BuildTime sb_BuildTimeNs sb_Blocks
         sb_MetaBlkAddr sb_XattrBlkAddr sb_UUID sb_VolumeName sb_FeatureIncompat sb_ComprAlgs
         sb_ExtraDevices sb_DevtSlotOff sb_DirBlkBits sb_XattrPrefixCount sb_XattrPrefixStart
         sb_PackedNid sb_XattrFilterRes sb_IshareXattrPrefixID sb_Reserved].
    repeat match goal with |- _ :: _ = _ :: _ => f_equal end; first [apply Hg; lia | reflexivity].
Qed.

(** Decoding then encoding a superblock reproduces its 128 bytes: no byte of
    the structure is outside the record. *)
Lemma SuperBlock_Unmarshal_Marshal b s b0 b' :
  SuperBlock_Unmarshal b = Ok s -> 128 <= zlen b0 -> SuperBlock_Marshal s b0 = Ok b' ->
  sub b' 0 128 = sub b 0 128.
Proof.
  intros H Hb0 Hm. rewrite SuperBlock_Marshal_fields in Hm by done. apply Ok_inj in Hm. subst b'.
  destruct (superblock_fields_of_buffer b s (clear_prefix 128 b0) H) as [Hf Hv]. clear H.
  pose proof (segs_put_fields (superblock_fields s) 0 (clear_prefix 128 b0) Hf) as Hseg.
  rewrite length_clear_prefix in Hseg by (unfold zlen in *; lia).
  assert (Hs : fields_size (superblock_fields s) = 128%nat) by reflexivity.
  rewrite Hs in Hseg. specialize (Hseg ltac:(unfold zlen in *; lia)).
  set (b' := put_fields _ _ _) in *. clearbody b'. clear Hf.
  pose proof (segs_ext (fst <$> superblock_fields s) 0 b' b) as Hx.
  unfold fields_size in Hs. rewrite Hs in Hx. apply Hx. by rewrite Hseg.
Qed.

(** A device slot marshalled unmarshals to itself. *)
Lemma DeviceSlot_roundtrip d b :
  DeviceSlot_wf d -> 128 <= zlen b ->
  exists b', DeviceSlot_Marshal d b = Ok b' /\ DeviceSlot_Unmarshal b' = Ok d /\
             drop 128 b' = drop 128 b.
Proof.
  intros Hwf Hb. eexists. split; [by apply DeviceSlot_Marshal_fields|].
  pose proof (deviceslot_fields_wf d Hwf) as Hf.
  destruct (marshal_tail _ b Hf eq_refl Hb) as [Hl Hd]. split; [|done].
  pose proof (segs_put_fields (deviceslot_fields d) 0 (clear_prefix 128 b) Hf) as Hseg.
  rewrite length_clear_prefix in Hseg by (unfold zlen in *; lia).
  specialize (Hseg ltac:(unfold zlen in *; change (fields_size _) with 128%nat; lia)).
  set (b' := put_fields _ _ _) in *. clearbody b'.
  unfold deviceslot_fields in Hseg. cbn [fmap list_fmap fst segs field_values Nat.add] in Hseg.
  inject_all Hseg.
  unfold DeviceSlot_Unmarshal, SizeDeviceSlot. rewrite (proj2 (Z.ltb_ge _ _)) by lia.
  unfold get32. destruct Hwf, d; cbn in *.
  repeat match goal with H : sub b' _ _ = _ |- _ => rewrite H; clear H end.
  rewrite ?get_of_le32 by done. done.
Qed.

(** ** Decoded values are in their widths *)

Lemma SuperBlock_Unmarshal_wf b s : SuperBlock_Unmarshal b = Ok s -> SuperBlock_wf s.
Proof.
  unfold SuperBlock_Unmarshal, SizeSuperBlock, zlen. intros H. steps_in H. injection H as <-.
  constructor; cbn;
    try apply get8_range; try apply get16_range; try apply get32_range; try apply get64_range;
    apply length_sub; lia.
Qed.

Lemma DeviceSlot_Unmarshal_wf b d : DeviceSlot_Unmarshal b = Ok d -> DeviceSlot_wf d.
Proof.
  unfold DeviceSlot_Unmarshal, SizeDeviceSlot, zlen. intros H. steps_in H. injection H as <-.
  constructor; cbn; try apply get32_range; apply length_sub; lia.
Qed.
#[export] Hint Resolve SuperBlock_Unmarshal_wf DeviceSlot_Unmarshal_wf : disk.

Lemma InodeCompact_Unmarshal_ranges b d :
  InodeCompact_Unmarshal b = Ok d ->
  is_u16 (ic_Format d) /\ is_u16 (ic_XattrCount d) /\ is_u16 (ic_Mode d) /\ is_u16 (ic_NB d) /\
  is_u32 (ic_Size d) /\ is_u32 (ic_Mtime d) /\ is_u32 (ic_InodeData d) /\
  is_u16 (ic_UID d) /\ is_u16 (ic_GID d).
Proof.
  unfold InodeCompact_Unmarshal. intros H. step_in H. apply Ok_inj in H. subst d.
  split_and!; apply get16_range || apply get32_range.
Qed.

Lemma InodeExtended_Unmarshal_ranges b d :
  InodeExtended_Unmarshal b = Ok d ->
  is_u16 (ie_Format d) /\ is_u16 (ie_XattrCount d) /\ is_u16 (ie_Mode d) /\ is_u16 (ie_NB d) /\
  is_u64 (ie_Size d) /\ is_u32 (ie_InodeData d) /\ is_u32 (ie_UID d) /\ is_u32 (ie_GID d) /\
  is_u64 (ie_Mtime d) /\ is_u32 (ie_MtimeNs d) /\ is_u32 (ie_Nlink d).
Proof.
  unfold InodeExtended_Unmarshal. intros H. step_in H. apply Ok_inj in H. subst d.
  split_and!; apply get16_range || apply get32_range || apply get64_range.
Qed.

Lemma Dirent_Unmarshal_ranges b d :
  Dirent_Unmarshal b = Ok d ->
  is_u64 (de_Nid d) /\ is_u16 (de_NameOff d) /\ is_u8 (de_FileType d).
Proof.
  unfold Dirent_Unmarshal. intros H. step_in H. apply Ok_inj in H. subst d.
  split_and!; apply get16_range || apply get8_range || apply get64_range.
Qed.
