(* ===== verification/Format.v ===== *)
(** * Name indexes, xattr sizes and mode conversions: [format.go]

    With the [xattrIndex] type of [xattr.go], [calculateBlocks] of [block.go]
    and [blkBits] of [mkfs.go].  An xattr map ([map[string]string]) is a
    [gmap bytes bytes]. *)

From S2P Require Import Prelude Machine Disk.

(** ** Name indexes (xattr.go) *)

Definition xattrIndexLast : Z := 6.

Definition xattrIndex_String (idx : Z) : bytes :=
  if idx =? 1 then bs "user."
  else if idx =? 2 then bs "system.posix_acl_access"
  else if idx =? 3 then bs "system.posix_acl_default"
  else if idx =? 4 then bs "trusted."
  else if idx =? 5 then bs "lustre."
  else if idx =? 6 then bs "security."
  else [].

Definition xattrIndex_prefix (idx : Z) : res bytes :=
  if idx =? 0 then Ok [] else
  let p := xattrIndex_String idx in
  if negb (beqb p []) then Ok p else Err ErrCorrupt.

(** [xattrSplit]'s loop, [idx] counting up to [xattrIndexLast]. *)
Fixpoint xattrSplit_from (n : nat) (idx : Z) (name : bytes) : Z * bytes :=
  match n with
  | O => (0, name)
  | S n =>
      let p := xattrIndex_String idx in
      if HasPrefix name p then (idx, drop (length p) name)
      else xattrSplit_from n (idx + 1) name
  end.

Definition xattrSplit (name : bytes) : Z * bytes :=
  xattrSplit_from (Z.to_nat xattrIndexLast) 1 name.

(** ** Limits and sizes (format.go) *)

Definition maxXattrNameLen : Z := 255.
Definition maxXattrValueLen : Z := 65535.
Definition maxXattrICount : Z := 65535.

Definition validateXattr (name value : bytes) : res unit :=
  let '(idx, suffix) := xattrSplit name in
  reject beqb suffix [] && ((idx =? 0) || HasSuffix (xattrIndex_String idx) (bs ".")) with ErrInvalid ;;
  reject maxXattrNameLen <? zlen suffix with ErrInvalid ;;
  reject maxXattrValueLen <? zlen value with ErrInvalid ;;
  Ok tt.

Definition xattrEntrySize (name value : bytes) : Z :=
  let '(_, suffix) := xattrSplit name in
  let sz := SizeXattrEntry + zlen suffix + zlen value in
  if negb (sz mod 4 =? 0) then Z.land (sz + 3) (Z.lnot 3) else sz.

Definition calcXattrSize (xattrs : gmap bytes bytes) : Z :=
  if bool_decide (size xattrs = 0%nat) then 0 else
  SizeXattrBodyHeader + map_fold (fun name value acc => acc + xattrEntrySize name value) 0 xattrs.

(** Go's [/] truncates; the operand is nonnegative for every area the code
    sizes, and [Z.quot] is that division. *)
Definition xattrICount (xattrSize : Z) : Z :=
  if xattrSize =? 0 then 0 else
  Z.quot (xattrSize - SizeXattrBodyHeader) SizeXattrEntry + 1.

Definition xattrCount (xattrSize : Z) : Z := u16 (xattrICount xattrSize).

Definition sortedXattrKeys (m : gmap bytes bytes) : list bytes :=
  merge_sort name_le (fst <$> map_to_list m).

Definition inodeFormat (layout : Z) (compact : bool) : Z :=
  let f := u16 (Z.shiftl (u16 layout) 1) in
  if negb compact then Z.lor f InodeFormatExtended else f.

Definition goModeToUnixMode (m : Z) : Z :=
  let mode := u16 (FileMode_Perm m) in
  let mode := if negb (Z.land m ModeSetuid =? 0) then Z.lor mode StatTypeIsUID else mode in
  let mode := if negb (Z.land m ModeSetgid =? 0) then Z.lor mode StatTypeIsGID else mode in
  let mode := if negb (Z.land m ModeSticky =? 0) then Z.lor mode StatTypeIsVTX else mode in
  let t := FileMode_Type m in
  if t =? 0 then Z.lor mode StatTypeReg
  else if t =? ModeDir then Z.lor mode StatTypeDir
  else if t =? ModeSymlink then Z.lor mode StatTypeSymlink
  else if t =? Z.lor ModeDevice ModeCharDevice then Z.lor mode StatTypeChrdev
  else if t =? ModeDevice then Z.lor mode StatTypeBlkdev
  else if t =? ModeNamedPipe then Z.lor mode StatTypeFifo
  else if t =? ModeSocket then Z.lor mode StatTypeSock
  else mode.

Definition modeToFileType (mode : Z) : Z :=
  let t := Z.land mode StatTypeMask in
  if t =? StatTypeReg then FileTypeReg
  else if t =? StatTypeDir then FileTypeDir
  else if t =? StatTypeChrdev then FileTypeChrdev
  else if t =? StatTypeBlkdev then FileTypeBlkdev
  else if t =? StatTypeFifo then FileTypeFifo
  else if t =? StatTypeSock then FileTypeSock
  else if t =? StatTypeSymlink then FileTypeSymlink
  else 0.

(** ** Block counts (block.go, mkfs.go) *)

Definition calculateBlocks (blockBits size : Z) : Z :=
  let blockNum := Z.shiftr size blockBits in
  if Z.shiftl blockNum blockBits <? size then blockNum + 1 else blockNum.

(** [bits.TrailingZeros], at most 64. *)
Fixpoint TrailingZeros_from (n : nat) (k v : Z) : Z :=
  match n with
  | O => 64
  | S n => if Z.testbit v k then k else TrailingZeros_from n (k + 1) v
  end.

Definition blkBits (blockSize : Z) : Z := u8 (TrailingZeros_from 64 0 (u64 blockSize)).

(** ** Properties *)

(** The six prefixes the loop tries, with the index each is found under. *)
Lemma xattrSplit_cases name :
  (exists idx, 1 <= idx <= 6 /\ xattrSplit name = (idx, drop (length (xattrIndex_String idx)) name) /\
               HasPrefix name (xattrIndex_String idx) = true) \/
  (xattrSplit name = (0, name) /\
   forall idx, 1 <= idx <= 6 -> HasPrefix name (xattrIndex_String idx) = false).
Proof.
  assert (G : forall n i, 1 <= i -> i + Z.of_nat n = 7 ->
    (exists idx, i <= idx <= 6 /\
       xattrSplit_from n i name = (idx, drop (length (xattrIndex_String idx)) name) /\
       HasPrefix name (xattrIndex_String idx) = true) \/
    (xattrSplit_from n i name = (0, name) /\
     forall idx, i <= idx <= 6 -> HasPrefix name (xattrIndex_String idx) = false)).
  { induction n as [|n IH]; intros i Hi Hn; cbn [xattrSplit_from].
    - right. split; [done|]. lia.
    - destruct (HasPrefix name (xattrIndex_String i)) eqn:E.
      + left. exists i. split; [lia|]. done.
      + destruct (IH (i + 1)) as [(idx & ? & ? & ?)|[H1 H2]]; [lia|lia| |].
        * left. exists idx. split; [lia|]. done.
        * right. split; [done|]. intros idx Hidx. destruct (decide (idx = i)) as [->|]; [done|].
          apply H2. lia. }
  apply (G 6%nat 1); lia.
Qed.

Lemma xattrIndex_prefix_ok idx :
  0 <= idx <= 6 -> xattrIndex_prefix idx = Ok (xattrIndex_String idx).
Proof.
  intros H. assert (idx = 0 \/ idx = 1 \/ idx = 2 \/ idx = 3 \/ idx = 4 \/ idx = 5 \/ idx = 6)
    as Hin by lia.
  destruct_or! Hin; subst; reflexivity.
Qed.

Lemma xattrIndex_prefix_unknown idx : 6 < idx -> xattrIndex_prefix idx = Err ErrCorrupt.
Proof.
  intros H. unfold xattrIndex_prefix, xattrIndex_String.
  rewrite !(proj2 (Z.eqb_neq _ _)) by lia. done.
Qed.

Lemma xattrSplit_parts name :
  let '(idx, suffix) := xattrSplit name in
  0 <= idx <= 6 /\ xattrIndex_prefix idx = Ok (xattrIndex_String idx) /\
  xattrIndex_String idx ++ suffix = name.
Proof.
  destruct (xattrSplit_cases name) as [(idx & Hi & -> & Hp)|[-> _]].
  - split; [lia|]. split; [apply xattrIndex_prefix_ok; lia|].
    apply HasPrefix_spec in Hp. by rewrite <- Hp.
  - done.
Qed.

(** Splitting a name and putting the prefix of its index back in front of
    the suffix is the name again, the index is one the reader accepts, and no
    two names split the same way. *)
Theorem xattrSplit_roundtrip name :
  let '(idx, suffix) := xattrSplit name in
  0 <= idx <= 6 /\ (exists p, xattrIndex_prefix idx = Ok p /\ p ++ suffix = name) /\
  forall name', xattrSplit name' = (idx, suffix) -> name' = name.
Proof.
  pose proof (xattrSplit_parts name) as H. destruct (xattrSplit name) as [idx suffix].
  destruct H as (Hi & Hp & E). split; [done|]. split; [by eexists|].
  intros name' E'. pose proof (xattrSplit_parts name') as H. rewrite E' in H.
  destruct H as (_ & _ & <-). done.
Qed.

(** A name [validateXattr] accepts fits the entry's fields. *)
Lemma validateXattr_fits name value :
  validateXattr name value = Ok tt ->
  is_u8 (zlen (xattrSplit name).2) /\ is_u16 (zlen value).
Proof.
  unfold validateXattr. destruct (xattrSplit name) as [idx suffix]. intros H.
  unfold maxXattrNameLen, maxXattrValueLen in *. steps_in H.
  pose proof (zlen_nonneg suffix). pose proof (zlen_nonneg value).
  unfold is_u8, is_u16. cbn. lia.
Qed.

(** [validateXattr] answers [nil] exactly for a name with something after
    its prefix (an ACL name needs nothing) whose suffix and value fit their
    on-disk fields, and its one error is [ErrInvalid]. *)
Theorem validateXattr_spec name value :
  (validateXattr name value = Ok tt \/ validateXattr name value = Err ErrInvalid) /\
  (validateXattr name value = Ok tt <->
     zlen (xattrSplit name).2 <= 255 /\ zlen value <= 65535 /\
     ((xattrSplit name).2 <> [] \/ (xattrSplit name).1 = 2 \/ (xattrSplit name).1 = 3)).
Proof.
  pose proof (xattrSplit_parts name) as Hr.
  unfold validateXattr. destruct (xattrSplit name) as [idx suffix] eqn:E.
  destruct Hr as [Hidx _]. cbn [fst snd]. unfold maxXattrNameLen, maxXattrValueLen.
  assert (Hs : (idx =? 0) || HasSuffix (xattrIndex_String idx) (bs ".") =
               negb ((idx =? 2) || (idx =? 3))).
  { assert (idx = 0 \/ idx = 1 \/ idx = 2 \/ idx = 3 \/ idx = 4 \/ idx = 5 \/ idx = 6)
      as Hin by lia.
    destruct_or! Hin; subst; reflexivity. }
  rewrite Hs. unfold beqb.
  repeat case_bool_decide; cbn [andb];
    destruct (Z.eqb_spec idx 2), (Z.eqb_spec idx 3); cbn [orb negb];
    destruct (Z.ltb_spec 255 (zlen suffix)), (Z.ltb_spec 65535 (zlen value));
    (split; [by auto|]); (split; [intros Hx; try discriminate Hx|]); try lia; auto; intuition lia.
Qed.

Lemma xattrEntrySize_spec name value :
  let raw := 4 + zlen (xattrSplit name).2 + zlen value in
  raw <= xattrEntrySize name value < raw + 4 /\ xattrEntrySize name value mod 4 = 0.
Proof.
  unfold xattrEntrySize, SizeXattrEntry. destruct (xattrSplit name) as [idx suffix]. cbn [fst snd].
  set (raw := 4 + zlen suffix + zlen value).
  destruct (Z.eqb_spec (raw mod 4) 0); cbn [negb]; [lia|].
  pose proof (round_up_pow2_spec raw 2 ltac:(lia)) as H. cbn zeta in H.
  unfold round_up_pow2 in H. change (2 ^ 2) with 4 in H.
  replace (raw + 4 - 1) with (raw + 3) in H by lia. change (4 - 1) with 3 in H. lia.
Qed.

Lemma xattr_fold_spec (m : gmap bytes bytes) :
  let s := map_fold (fun name value acc => acc + xattrEntrySize name value) 0 m in
  4 * Z.of_nat (size m) <= s /\ s mod 4 = 0.
Proof.
  intros s. subst s. apply (map_fold_weak_ind (fun r m => 4 * Z.of_nat (size m) <= r /\ r mod 4 = 0)).
  - cbn. rewrite map_size_empty. done.
  - intros k v m' r Hk [H1 H2]. rewrite map_size_insert_None by done.
    pose proof (xattrEntrySize_spec k v) as [H3 H4]. cbn zeta in *.
    pose proof (zlen_nonneg (xattrSplit k).2). pose proof (zlen_nonneg v).
    split; [lia|]. rewrite Z.add_mod, H2, H4 by lia. done.
Qed.

(** The xattr area: twelve bytes of header and whole four-byte units. *)
Lemma calcXattrSize_spec m :
  calcXattrSize m = 0 /\ m = ∅ \/
  (m <> ∅ /\ 16 <= calcXattrSize m /\ calcXattrSize m mod 4 = 0).
Proof.
  unfold calcXattrSize. case_bool_decide as E.
  - left. split; [done|]. by apply map_size_empty_iff.
  - right. pose proof (xattr_fold_spec m) as [H1 H2]. unfold SizeXattrBodyHeader.
    split; [intros ->; by rewrite map_size_empty in E|]. split; [lia|].
    rewrite Z.add_mod, H2 by lia. done.
Qed.

Lemma sortedXattrKeys_perm m : sortedXattrKeys m ≡ₚ fst <$> map_to_list m.
Proof. apply merge_sort_Permutation. Qed.

Lemma sortedXattrKeys_sorted m : Sorted name_le (sortedXattrKeys m).
Proof. apply Sorted_merge_sort, _. Qed.

Lemma elem_of_sortedXattrKeys m k : k ∈ sortedXattrKeys m <-> is_Some (m !! k).
Proof.
  rewrite sortedXattrKeys_perm, list_elem_of_fmap. split.
  - intros ([k' v] & -> & H). apply elem_of_map_to_list in H. by exists v.
  - intros [v H]. exists (k, v). split; [done|]. by apply elem_of_map_to_list.
Qed.

Lemma NoDup_sortedXattrKeys m : NoDup (sortedXattrKeys m).
Proof. rewrite sortedXattrKeys_perm. apply NoDup_fst_map_to_list. Qed.

(** ** Modes *)

(** The seven types the format defines. *)
Definition valid_type (mode : Z) : bool := negb (modeToFileType mode =? 0).

Fixpoint all_from (n : nat) (z : Z) (f : Z -> bool) : bool :=
  match n with O => true | S n => f z && all_from n (z + 1) f end.

Definition all_modes (f : Z -> bool) : bool := all_from (Z.to_nat 65536) 0 f.

Lemma all_modes_spec f : all_modes f = true -> forall m, is_u16 m -> f m = true.
Proof.
  assert (G : forall n z, all_from n z f = true ->
            forall m, z <= m < z + Z.of_nat n -> f m = true).
  { induction n as [|n IH]; intros z H m Hm; [lia|]. cbn [all_from] in H. zbool.
    destruct (decide (m = z)) as [->|]; [done|]. apply (IH (z + 1)); [done|lia]. }
  unfold all_modes, is_u16. intros H m Hm. apply (G _ _ H). lia.
Qed.

Lemma mode_facts mode :
  is_u16 mode -> valid_type mode = true ->
  goModeToUnixMode (EroFSModeToGoFileMode mode) = mode /\
  FileMode_Type (EroFSModeToGoFileMode mode) = EroFSFtypeToFileMode (modeToFileType mode).
Proof.
  intros Hm Hv.
  set (f m := negb (valid_type m) ||
    ((goModeToUnixMode (EroFSModeToGoFileMode m) =? m) &&
     (FileMode_Type (EroFSModeToGoFileMode m) =? EroFSFtypeToFileMode (modeToFileType m)))).
  assert (Hf : all_modes f = true) by (vm_compute; reflexivity).
  pose proof (all_modes_spec f Hf mode Hm) as H. clear Hf. unfold f in H. rewrite Hv in H.
  apply andb_true_iff in H as [H1%Z.eqb_eq H2%Z.eqb_eq]. split; assumption.
Qed.

(** The mode conversions agree on every one of the 65536 inode modes whose
    type the format defines: Unix to Go and back is the identity, and the
    type the inode's mode reads as is the one its dirent's file type reads as
    (so a directory written and read back never fails the reader's
    dirent/inode type check). *)
Theorem mode_roundtrip mode :
  is_u16 mode -> valid_type mode = true ->
  goModeToUnixMode (EroFSModeToGoFileMode mode) = mode /\
  FileMode_Type (EroFSModeToGoFileMode mode) = EroFSFtypeToFileMode (modeToFileType mode).
Proof. apply mode_facts. Qed.

Lemma mode_roundtrip_witness :
  goModeToUnixMode (EroFSModeToGoFileMode 0x6FFF) = 0x6FFF /\
  FileMode_Type (EroFSModeToGoFileMode 0x6FFF) = EroFSFtypeToFileMode (modeToFileType 0x6FFF).
Proof. apply mode_roundtrip; [by split|reflexivity]. Defined.
