(* ===== verification/Image.v ===== *)
(** * Readers, the open image and its address arithmetic: [erofs.go]

    [io.ReaderAt] is an interface the caller implements: its contract is the
    class [ReaderAtLaws], a reader over a known content is [Backed], and the
    readers the package builds ([io.SectionReader]) or is usually given
    ([bytes.Reader]) are instances.  Every address the reader computes goes
    through the checks modelled here; the arithmetic is [int64]'s, with its
    wrap-around written out. *)

From S2P Require Import Prelude Machine Disk Format.

(** ** [io.ReaderAt] *)

Record ReaderAt := mkReaderAt {
  (** [ReadAt(p, off)] with [len(p) = n]: the bytes read and the error. *)
  ReadAt : Z -> Z -> bytes * option goerr;
  (** [imageSize]: the length, when the reader can say. *)
  reader_size : option Z
}.

(** The documented contract: at most [len(p)] bytes, and an error when fewer. *)
Class ReaderAtLaws (r : ReaderAt) : Prop := {
  ReadAt_len : forall off n, 0 <= n -> zlen (ReadAt r off n).1 <= n;
  ReadAt_short : forall off n, 0 <= n -> zlen (ReadAt r off n).1 < n -> is_Some (ReadAt r off n).2
}.

(** A reader over the bytes [c]: it answers what [c] holds at the offset, and
    its only error is [io.EOF]. *)
Class Backed (r : ReaderAt) (c : bytes) : Prop := {
  backed_bytes : forall off n, 0 <= off -> 0 <= n ->
    (ReadAt r off n).1 = sub c (Z.to_nat off) (Z.to_nat n);
  backed_err : forall off n, 0 <= off -> 0 <= n ->
    (ReadAt r off n).2 = None \/ (ReadAt r off n).2 = Some EOF;
  backed_short : forall off n, 0 <= off -> 0 <= n ->
    zlen (ReadAt r off n).1 < n -> (ReadAt r off n).2 = Some EOF
}.

(** [bytes.Reader]. *)
Definition bytes_reader (c : bytes) : ReaderAt := {|
  ReadAt off n :=
    if off <? 0 then ([], Some ErrReader)
    else if zlen c <=? off then ([], Some EOF)
    else let got := sub c (Z.to_nat off) (Z.to_nat n) in
         (got, if zlen got <? n then Some EOF else None);
  reader_size := Some (zlen c)
|}.

(** [io.NewSectionReader(r, off, n)]: reads of [r] shifted by [off], ending
    after [n] bytes. *)
Definition NewSectionReader (r : ReaderAt) (base n : Z) : ReaderAt :=
  let limit := if base <=? MaxInt64 - n then base + n else MaxInt64 in {|
  ReadAt off len :=
    if (off <? 0) || (limit - base <=? off) then ([], Some EOF) else
    let off := off + base in
    if limit - off <? len then
      let '(b, err) := ReadAt r off (limit - off) in
      (b, match err with None => Some EOF | e => e end)
    else ReadAt r off len;
  reader_size := Some (limit - base)
|}.

(** ** The open image *)

Record deviceInfo := mkDeviceInfo {
  dev_device : ReaderAt;
  dev_size : Z;
  dev_mappedBlkAddr : Z;
  dev_blocks : Z
}.

(** [sync.Pool] of scratch blocks is left out: a loaded block is the window of
    bytes it holds. *)
Record image := mkImage {
  img_sb : SuperBlock;
  img_size : Z;
  img_meta : ReaderAt;
  img_devices : list deviceInfo;
  img_deviceIDMask : Z;
  img_longPrefixes : list bytes
}.

Definition imageSize (r : ReaderAt) : Z := default 0 (reader_size r).

Definition img_bits (img : image) : Z := sb_BlkSizeBits (img_sb img).

Definition blockSize (img : image) : Z := u32 (Z.shiftl 1 (img_bits img)).
Definition blocks (img : image) : Z := sb_Blocks (img_sb img).
Definition buildTime (img : image) : Z := sb_BuildTime (img_sb img).
Definition deviceBlocks (img : image) : list Z := dev_blocks <$> img_devices img.

Definition roundupPowerOfTwo (v : Z) : Z :=
  let v := u32 (v - 1) in
  let v := Z.lor v (Z.shiftr v 1) in
  let v := Z.lor v (Z.shiftr v 2) in
  let v := Z.lor v (Z.shiftr v 4) in
  let v := Z.lor v (Z.shiftr v 8) in
  let v := Z.lor v (Z.shiftr v 16) in
  u32 (v + 1).

Definition metaStartPos (img : image) : Z :=
  i64 (Z.shiftl (sb_MetaBlkAddr (img_sb img)) (img_bits img)).

(** ** The checks every address goes through *)

Definition checkNid (img : image) (nid : Z) : res unit :=
  reject (MaxInt64 - SizeInodeExtended) / SizeInodeCompact <? nid with ErrCorrupt ;;
  let off := i64 (metaStartPos img + i64 (i64 nid * SizeInodeCompact)) in
  reject (off <? 0) || (MaxInt64 - SizeInodeExtended <? off) with ErrCorrupt ;;
  reject (0 <? img_size img) && (img_size img <? i64 (off + SizeInodeCompact)) with ErrCorrupt ;;
  Ok tt.

Definition maxChunkIndexBytes : Z := Z.shiftl 64 20.

Definition chunkIndexFits (img : image) (off needed : Z) : bool :=
  if (needed <? 0) || (maxChunkIndexBytes <? needed) then false
  else if (off <? 0) || (MaxInt64 - needed <? off) then false
  else (img_size img <=? 0) || (i64 (off + needed) <=? img_size img).

Definition chunkAddr (img : image) (phys : Z) : res Z :=
  reject Z.shiftr MaxInt64 (img_bits img) <? phys with ErrCorrupt ;;
  Ok (i64 (Z.shiftl (i64 phys) (img_bits img))).

Definition checkImageRange (img : image) (off n : Z) : res unit :=
  reject (off <? 0) || (n <? 0) || (MaxInt64 - n <? off) with ErrCorrupt ;;
  reject (0 <? img_size img) && (img_size img <? i64 (off + n)) with ErrCorrupt ;;
  Ok tt.

(** The byte range of the primary address space a device's slot maps. *)
Definition dev_start (img : image) (d : deviceInfo) : Z :=
  i64 (Z.shiftl (dev_mappedBlkAddr d) (img_bits img)).
Definition dev_length (img : image) (d : deviceInfo) : Z :=
  i64 (Z.shiftl (dev_blocks d) (img_bits img)).

(** The loop of [locateRange] over the devices, [i] the one-based id. *)
Fixpoint locateRange_devs (img : image) (devs : list deviceInfo) (i pa n : Z) : res (Z * Z) :=
  match devs with
  | [] => let! _ := checkImageRange img pa n in Ok (0, pa)
  | d :: devs =>
      if dev_mappedBlkAddr d =? 0 then locateRange_devs img devs (i + 1) pa n else
      let startOff := dev_start img d in
      let length := dev_length img d in
      if (startOff <=? pa) && (pa <? i64 (startOff + length)) then
        reject i64 (startOff + length) <? i64 (pa + n) with ErrCorrupt ;;
        Ok (u16 i, pa - startOff)
      else locateRange_devs img devs (i + 1) pa n
  end.

Definition locateRange (img : image) (pa n : Z) : res (Z * Z) :=
  reject (pa <? 0) || (n <? 0) || (MaxInt64 - n <? pa) with ErrCorrupt ;;
  locateRange_devs img (img_devices img) 1 pa n.

Definition deviceReader (img : image) (dev : Z) : res ReaderAt :=
  if dev =? 0 then Ok (img_meta img) else
  match img_devices img !! Z.to_nat (dev - 1) with
  | Some d => if dev <? 0 then Panic else Ok (dev_device d)
  | None => Panic
  end.

Fixpoint locate_devs (img : image) (devs : list deviceInfo) (i pa : Z) : res (Z * Z) :=
  match devs with
  | [] =>
      reject (pa <? 0) || ((0 <? img_size img) && (img_size img <=? pa)) with ErrCorrupt ;;
      Ok (0, pa)
  | d :: devs =>
      if dev_mappedBlkAddr d =? 0 then locate_devs img devs (i + 1) pa else
      let startOff := dev_start img d in
      let length := dev_length img d in
      if (startOff <=? pa) && (pa <? i64 (startOff + length)) then Ok (u16 i, pa - startOff)
      else locate_devs img devs (i + 1) pa
  end.

Definition locate (img : image) (deviceID pa : Z) : res (Z * Z) :=
  if 0 <? deviceID then
    reject zlen (img_devices img) <? deviceID with ErrCorrupt ;;
    Ok (deviceID, pa)
  else locate_devs img (img_devices img) 1 pa.

Definition flatWindow (bits size : Z) (r : ReaderAt) (mappedBlkAddr : Z) : ReaderAt :=
  let start := i64 (Z.shiftl mappedBlkAddr bits) in
  let length := if 0 <? size then Z.max (size - start) 0 else MaxInt64 - start in
  NewSectionReader r start length.

Definition boundOnDevice (img : image) (dev off n : Z) : res unit :=
  if dev =? 0 then checkImageRange img off n else
  reject zlen (img_devices img) <? dev with ErrCorrupt ;;
  reject (off <? 0) || (n <? 0) || (MaxInt64 - n <? off) with ErrCorrupt ;;
  match img_devices img !! Z.to_nat (dev - 1) with
  | None => Panic
  | Some d =>
      let extent := dev_size d in
      if 0 <? extent then
        reject extent <? i64 (off + n) with ErrCorrupt ;; Ok tt
      else
        let blocks := dev_blocks d in
        if blocks =? 0 then Ok tt else
        reject i64 (Z.shiftl blocks (img_bits img)) <? i64 (off + n) with ErrCorrupt ;;
        Ok tt
  end.

Definition blockAddr (img : image) (blk : Z) : res Z :=
  reject Z.shiftr MaxInt64 (img_bits img) <? blk with ErrCorrupt ;;
  Ok (i64 (Z.shiftl (i64 blk) (img_bits img))).

Definition getLongPrefix (img : image) (index : Z) : res bytes :=
  reject zlen (img_longPrefixes img) <=? index with ErrCorrupt ;;
  match img_longPrefixes img !! Z.to_nat index with Some p => Ok p | None => Panic end.

(** [loadAt]: at most a block of the image from [addr], short at its end. *)
Definition loadAt (img : image) (addr size : Z) : res bytes :=
  let blkSize := Z.shiftl 1 (img_bits img) in
  let size := if blkSize <? size then blkSize else size in
  reject size <=? 0 with ErrCorrupt ;;
  reject (addr <? 0) || ((0 <? img_size img) && (img_size img <=? addr)) with ErrCorrupt ;;
  let '(b, err) := ReadAt (img_meta img) addr size in
  match err with
  | Some e => if negb (errors_Is e EOF) then Err e else
      if zlen b <=? 0 then Err (if 0 <? img_size img then ErrCorrupt else ErrUnexpectedEOF)
      else Ok b
  | None =>
      if zlen b <=? 0 then Err (if 0 <? img_size img then ErrCorrupt else ErrUnexpectedEOF)
      else Ok b
  end.

(** ** Readers keep their contract *)

Lemma zlen_sub_le {A} (c : list A) o n : 0 <= n -> zlen (sub c o (Z.to_nat n)) <= n.
Proof. intros. unfold zlen. pose proof (length_sub_le c o (Z.to_nat n)). lia. Qed.

Lemma zlen_sub {A} (c : list A) o n :
  0 <= o -> 0 <= n -> zlen (sub c (Z.to_nat o) (Z.to_nat n)) = Z.max 0 (Z.min n (zlen c - o)).
Proof. intros. unfold zlen, sub. rewrite length_take, length_drop. lia. Qed.

#[export] Instance bytes_reader_laws c : ReaderAtLaws (bytes_reader c).
Proof.
  split; intros off n Hn; cbn [ReadAt bytes_reader].
  - repeat case_match; cbn [fst]; rewrite ?zlen_nil; try done; by apply zlen_sub_le.
  - repeat case_match; cbn [fst snd]; intros H'; zbool; try done; lia.
Qed.

#[export] Instance bytes_reader_backed c : Backed (bytes_reader c) c.
Proof.
  split; intros off n Hoff Hn; cbn [ReadAt bytes_reader];
    rewrite (proj2 (Z.ltb_ge off 0)) by lia;
    destruct (Z.leb_spec (zlen c) off); cbn [fst snd]; auto.
  - unfold sub, zlen in *. rewrite drop_ge by lia. by destruct (Z.to_nat n).
  - case_match; auto.
  - intros H'. by rewrite (proj2 (Z.ltb_lt _ _)).
Qed.

(** A section of a backed reader is backed by that part of the content. *)
Lemma section_backed r c base n :
  Backed r c -> 0 <= base -> 0 <= n -> base + n <= MaxInt64 ->
  Backed (NewSectionReader r base n) (sub c (Z.to_nat base) (Z.to_nat n)).
Proof.
  intros [Hb He Hs] Hbase Hn Hmax.
  split; intros off m Hoff Hm; unfold NewSectionReader; cbn [ReadAt];
    rewrite (proj2 (Z.leb_le base (MaxInt64 - n))) by lia;
    rewrite (proj2 (Z.ltb_ge off 0)) by lia; cbn [orb];
    replace (base + n - base) with n by lia;
    destruct (Z.leb_spec n off) as [Ho|Ho]; cbn [fst snd]; auto;
    replace (base + n - (off + base)) with (n - off) by lia;
    destruct (Z.ltb_spec (n - off) m) as [Hlt|Hlt].
  - unfold sub. rewrite drop_ge; [by destruct (Z.to_nat m)|]. rewrite length_take. lia.
  - unfold sub. rewrite drop_ge; [by destruct (Z.to_nat m)|]. rewrite length_take. lia.
  - pose proof (Hb (off + base) (n - off) ltac:(lia) ltac:(lia)) as H1.
    destruct (ReadAt r (off + base) (n - off)) as [b err]. cbn in *. rewrite H1.
    unfold sub. rewrite skipn_firstn_comm, drop_drop, take_take. f_equal; [|f_equal]; lia.
  - rewrite Hb by lia. symmetry.
    unfold sub. rewrite skipn_firstn_comm, drop_drop, take_take. f_equal; [|f_equal]; lia.
  - pose proof (He (off + base) (n - off) ltac:(lia) ltac:(lia)) as H1.
    destruct (ReadAt r (off + base) (n - off)) as [b [e|]]; cbn in *; by intuition auto.
  - apply He; lia.
  - pose proof (He (off + base) (n - off) ltac:(lia) ltac:(lia)) as H1.
    destruct (ReadAt r (off + base) (n - off)) as [b [e|]]; cbn in *; by intuition auto.
  - apply Hs; lia.
Qed.

(** ** Well-formed images: what [Open] establishes *)

Record dev_wf (d : deviceInfo) : Prop := {
  wf_dev_size : 0 <= dev_size d <= MaxInt64;
  wf_dev_mapped : is_u32 (dev_mappedBlkAddr d);
  wf_dev_blocks : is_u32 (dev_blocks d)
}.

Record image_wf (img : image) : Prop := {
  wf_sb : SuperBlock_wf (img_sb img);
  wf_bits : 9 <= img_bits img <= 16;
  wf_size : 0 <= img_size img <= MaxInt64;
  wf_devs : Forall dev_wf (img_devices img);
  wf_ndevs : zlen (img_devices img) <= MaxUint16
}.

Lemma pow2_bits k : 9 <= k <= 16 -> 512 <= 2 ^ k <= 65536.
Proof.
  intros. change 512 with (2 ^ 9). change 65536 with (2 ^ 16).
  split; apply Z.pow_le_mono_r; lia.
Qed.

Lemma shiftl_u32_bits a k :
  is_u32 a -> 9 <= k <= 16 -> i64 (Z.shiftl a k) = a * 2 ^ k /\ 0 <= a * 2 ^ k < 2 ^ 48.
Proof.
  unfold is_u32. intros Ha Hk. pose proof (pow2_bits k Hk). rewrite Z.shiftl_mul_pow2 by lia.
  assert (0 <= a * 2 ^ k < 2 ^ 48) by nia. split; [|done]. apply i64_id. lia.
Qed.

Section Geometry.
Context (img : image) (Hwf : image_wf img).
Let bits := img_bits img.

Lemma metaStartPos_eq :
  metaStartPos img = sb_MetaBlkAddr (img_sb img) * 2 ^ bits /\
  0 <= metaStartPos img < 2 ^ 48.
Proof using Hwf.
  unfold metaStartPos. destruct Hwf as [[] Hb _ _ _].
  destruct (shiftl_u32_bits (sb_MetaBlkAddr (img_sb img)) (img_bits img)) as [-> ?]; auto.
Qed.

Lemma dev_start_eq d :
  dev_wf d -> dev_start img d = dev_mappedBlkAddr d * 2 ^ bits /\ 0 <= dev_start img d < 2 ^ 48.
Proof using Hwf.
  intros []. unfold dev_start. destruct Hwf.
  destruct (shiftl_u32_bits (dev_mappedBlkAddr d) (img_bits img)) as [-> ?]; auto.
Qed.

Lemma dev_length_eq d :
  dev_wf d -> dev_length img d = dev_blocks d * 2 ^ bits /\ 0 <= dev_length img d < 2 ^ 48.
Proof using Hwf.
  intros []. unfold dev_length. destruct Hwf.
  destruct (shiftl_u32_bits (dev_blocks d) (img_bits img)) as [-> ?]; auto.
Qed.

(** The absolute offset of an accepted nid, with no wrap-around. *)
Lemma checkNid_offset nid :
  is_u64 nid -> checkNid img nid = Ok tt ->
  i64 (metaStartPos img + i64 (i64 nid * SizeInodeCompact)) = metaStartPos img + nid * 32 /\
  0 <= metaStartPos img + nid * 32 <= MaxInt64 - 64.
Proof using Hwf.
  unfold is_u64, checkNid, MaxInt64, SizeInodeExtended, SizeInodeCompact. intros Hn H.
  destruct metaStartPos_eq as [_ Hm]. steps_in H.
  assert (nid * 32 <= 2 ^ 63 - 65)
    by (pose proof (Z.mul_div_le (2 ^ 63 - 1 - 64) 32 ltac:(lia)); lia).
  rewrite (i64_id nid) in * by lia. rewrite (i64_id (nid * 32)) in * by lia.
  destruct (Z.lt_ge_cases (metaStartPos img + nid * 32) (2 ^ 63)) as [Hlt|Hge].
  - rewrite (i64_id (_ + _)) in * by lia. lia.
  - exfalso. unfold i64 in *.
    replace (metaStartPos img + nid * 32 + 2 ^ 63)
      with (metaStartPos img + nid * 32 - 2 ^ 63 + 1 * 2 ^ 64) in * by lia.
    rewrite Z.mod_add, Z.mod_small in * by lia. lia.
Qed.
End Geometry.

(** C39: [checkNid] accepts exactly the nids whose 32-byte inode core lies in
    an image of known length, and the absolute offset it guards is then
    computed without [int64] overflow. *)
Theorem checkNid_exact img nid :
  image_wf img -> is_u64 nid -> 0 < img_size img <= MaxInt64 - 32 ->
  (checkNid img nid = Ok tt <-> metaStartPos img + nid * 32 + 32 <= img_size img) /\
  (checkNid img nid = Ok tt \/ checkNid img nid = Err ErrCorrupt) /\
  (checkNid img nid = Ok tt ->
     i64 (metaStartPos img + i64 (i64 nid * SizeInodeCompact)) = metaStartPos img + nid * 32).
Proof.
  intros Hwf Hn Hs. destruct (metaStartPos_eq img Hwf) as [_ Hm].
  split; [split|split].
  - intros H. destruct (checkNid_offset img Hwf nid Hn H) as [E Hr].
    unfold checkNid in H. rewrite E in H. unfold SizeInodeCompact, MaxInt64 in *.
    steps_in H. rewrite i64_id in * by lia. lia.
  - unfold is_u64, MaxInt64 in *. intros H. unfold checkNid, MaxInt64, SizeInodeExtended, SizeInodeCompact.
    rewrite (i64_id nid), (i64_id (nid * 32)) by lia.
    rewrite (i64_id (_ + _)) by lia. rewrite (i64_id (_ + 32)) by lia.
    rewrite (proj2 (Z.ltb_ge _ _)) by (apply Z.div_le_lower_bound; lia).
    repeat case_match; zbool; intuition (done || lia).
  - unfold checkNid. repeat case_match; auto.
  - intros H. by apply checkNid_offset.
Qed.

(** A four-block image at a 4 KiB block size with its metadata in block 1,
    whose inode 0 is a compact flat-plain regular file of 100 bytes at block
    0, and two extra devices, one mapped at block 16. *)
Definition example_sb : SuperBlock :=
  {| sb_MagicNumber := MagicNumber; sb_Checksum := 0; sb_FeatureCompat := 0;
     sb_BlkSizeBits := 12; sb_ExtSlots := 0; sb_RootNid := 0; sb_Inos := 1;
     sb_BuildTime := 0; sb_BuildTimeNs := 0; sb_Blocks := 4;
     sb_MetaBlkAddr := 1; sb_XattrBlkAddr := 0; sb_UUID := zeros 16;
     sb_VolumeName := zeros 16; sb_FeatureIncompat := 12; sb_ComprAlgs := 0;
     sb_ExtraDevices := 2; sb_DevtSlotOff := 9; sb_DirBlkBits := 0;
     sb_XattrPrefixCount := 0; sb_XattrPrefixStart := 0; sb_PackedNid := 0;
     sb_XattrFilterRes := 0; sb_IshareXattrPrefixID := 0; sb_Reserved := zeros 22 |}.

Definition example_img : image :=
  {| img_sb := example_sb; img_size := 16384; 
     img_meta := bytes_reader (put32 (Z.to_nat 4104) 100
                   (put16 (Z.to_nat 4100) 0x81A4 (zeros (Z.to_nat 16384))));
     img_devices :=
       [ {| dev_device := bytes_reader (zeros (Z.to_nat 8192)); dev_size := 8192;
            dev_mappedBlkAddr := 16; dev_blocks := 2 |};
         {| dev_device := bytes_reader (zeros (Z.to_nat 4096)); dev_size := 0;
            dev_mappedBlkAddr := 0; dev_blocks := 1 |} ];
     img_deviceIDMask := 3; img_longPrefixes := [] |}.

Lemma example_img_wf : image_wf example_img.
Proof.
  constructor; cbn.
  - constructor; cbn; by split || reflexivity.
  - done.
  - by split.
  - repeat constructor; done.
  - done.
Qed.

Lemma checkNid_exact_witness :
  checkNid example_img 383 = Ok tt /\ checkNid example_img 384 = Err ErrCorrupt.
Proof.
  assert (H : forall nid, is_u64 nid ->
    (checkNid example_img nid = Ok tt <-> metaStartPos example_img + nid * 32 + 32 <= 16384) /\
    (checkNid example_img nid = Ok tt \/ checkNid example_img nid = Err ErrCorrupt)).
  { intros nid Hn. destruct (checkNid_exact example_img nid example_img_wf Hn) as (H1 & H2 & _);
      [by vm_compute|by split]. }
  assert (M : metaStartPos example_img = 4096) by reflexivity.
  rewrite M in H. split.
  - apply H; [by split|lia].
  - destruct (H 384) as [H1 [H2|H2]]; [by split| |done]. apply H1 in H2. lia.
Defined.

(** ** Placing an address on a device *)

Lemma i64_plus_small a b : 0 <= a < 2 ^ 62 -> 0 <= b < 2 ^ 62 -> i64 (a + b) = a + b.
Proof. intros. apply i64_id. lia. Qed.

Lemma i64_in_range a b : 0 <= a -> 0 <= b -> a <= MaxInt64 - b -> i64 (a + b) = a + b.
Proof. unfold MaxInt64. intros. apply i64_id. lia. Qed.

(** Where an address of the primary device lives: device [dev], one-based, at
    [off], by the mapped ranges of the slots. *)
Definition placed (img : image) (pa dev off : Z) : Prop :=
  (dev = 0 /\ off = pa) \/
  (exists d, 1 <= dev /\ img_devices img !! Z.to_nat (dev - 1) = Some d /\
             dev_mappedBlkAddr d <> 0 /\ pa = dev_start img d + off /\
             0 <= off < dev_length img d).

Lemma locate_devs_sound img devs i pa dev off :
  image_wf img -> Forall dev_wf devs -> 1 <= i -> i + zlen devs <= 65536 ->
  (forall k d, devs !! k = Some d -> img_devices img !! (Z.to_nat (i - 1) + k)%nat = Some d) ->
  locate_devs img devs i pa = Ok (dev, off) ->
  placed img pa dev off /\ (dev = 0 -> 0 <= pa /\ (0 < img_size img -> pa < img_size img)).
Proof.
  intros Hwf. revert i. induction devs as [|d devs IH]; intros i Hf Hi Hl Hlk H; cbn [locate_devs] in H.
  - steps_in H. injection H as <- <-. split; [by left|]. intuition lia.
  - inv Hf. rewrite zlen_cons in Hl. pose proof (zlen_nonneg devs).
    assert (Hrest : forall k d', devs !! k = Some d' ->
      img_devices img !! (Z.to_nat (i + 1 - 1) + k)%nat = Some d').
    { intros k d' Hk. rewrite <- (Hlk (S k) d' Hk). f_equal. lia. }
    destruct (dev_start_eq img Hwf d) as [_ ?]; [done|].
    destruct (dev_length_eq img Hwf d) as [_ ?]; [done|].
    step_in H.
    { eapply (IH (i + 1)); eauto; lia. }
    rewrite i64_plus_small in H by lia. step_in H.
    + injection H as <- <-. zbool. rewrite u16_id by (unfold is_u16; lia). split; [|lia].
      right. exists d. split; [lia|]. split; [|lia]. rewrite <- (Hlk 0%nat d); [f_equal; lia|done].
    + eapply (IH (i + 1)); eauto; lia.
Qed.

Lemma locate_primary_sound img pa dev off :
  image_wf img -> locate img 0 pa = Ok (dev, off) ->
  placed img pa dev off /\ (dev = 0 -> 0 <= pa /\ (0 < img_size img -> pa < img_size img)).
Proof.
  intros Hwf H. unfold locate in H. cbn in H. destruct (Hwf) as [? ? ? Hf Hn]. unfold MaxUint16 in Hn.
  eapply (locate_devs_sound img (img_devices img) 1); eauto; try lia.
Qed.

(** [locateRange] is [locate] with the range's end bounded too. *)
Lemma locateRange_devs_locate img devs i pa n dev off :
  image_wf img -> Forall dev_wf devs -> 1 <= i -> i + zlen devs <= 65536 ->
  0 <= pa -> 0 < n -> pa <= MaxInt64 - n ->
  locateRange_devs img devs i pa n = Ok (dev, off) ->
  locate_devs img devs i pa = Ok (dev, off) /\
  (dev = 0 -> checkImageRange img pa n = Ok tt) /\
  (1 <= dev -> exists d, d ∈ devs /\ devs !! Z.to_nat (dev - i) = Some d /\
                         i <= dev /\ off + n <= dev_length img d).
Proof.
  intros Hwf. revert i. induction devs as [|d devs IH];
    intros i Hf Hi Hl Hpa Hn Hmax H; cbn [locateRange_devs locate_devs] in *.
  - destruct (checkImageRange img pa n) as [[]| |] eqn:E; [|done..]. injection H as <- <-.
    unfold checkImageRange in E. rewrite i64_in_range in E by lia.
    split; [|split; [done|lia]]. repeat case_match; zbool; intuition (done || lia).
  - inv Hf. rewrite zlen_cons in Hl. pose proof (zlen_nonneg devs).
    destruct (dev_start_eq img Hwf d) as [_ ?]; [done|].
    destruct (dev_length_eq img Hwf d) as [_ ?]; [done|].
    rewrite i64_plus_small in * by lia.
    assert (Hrec : locateRange_devs img devs (i + 1) pa n = Ok (dev, off) ->
      locate_devs img devs (i + 1) pa = Ok (dev, off) /\
      (dev = 0 -> checkImageRange img pa n = Ok tt) /\
      (1 <= dev -> exists d', d' ∈ d :: devs /\ (d :: devs) !! Z.to_nat (dev - i) = Some d' /\
                   i <= dev /\ off + n <= dev_length img d')).
    { intros H'. destruct (IH (i + 1)) as (? & ? & Hd); auto; try lia.
      split; [done|]. split; [done|]. intros Hdev. destruct (Hd Hdev) as (d' & ? & Hlk & ? & ?).
      exists d'. split; [by right|]. split; [|lia].
      replace (Z.to_nat (dev - i)) with (S (Z.to_nat (dev - (i + 1)))) by lia. done. }
    step_in H; [by apply Hrec|]. step_in H; [|by apply Hrec].
    rewrite i64_in_range in H by lia. step_in H. injection H as <- <-. zbool.
    rewrite u16_id by (unfold is_u16; lia). split; [done|]. split; [lia|]. intros _.
    exists d. split; [by left|]. replace (i - i) with 0 by lia. split; [done|]. lia.
Qed.

Lemma locateRange_facts img pa n dev off :
  image_wf img -> 0 < n -> locateRange img pa n = Ok (dev, off) ->
  locate img 0 pa = Ok (dev, off) /\ placed img pa dev off /\
  (dev = 0 -> 0 < img_size img -> pa + n <= img_size img) /\
  (forall d, 1 <= dev -> img_devices img !! Z.to_nat (dev - 1) = Some d -> off + n <= dev_length img d).
Proof.
  intros Hwf Hn H. unfold locateRange in H. steps_in H.
  pose proof (wf_devs img Hwf) as Hf. pose proof (wf_ndevs img Hwf) as Hl. unfold MaxUint16 in Hl.
  destruct (locateRange_devs_locate img (img_devices img) 1 pa n dev off) as (L1 & L2 & L3);
    auto; try lia.
  assert (Hloc : locate img 0 pa = Ok (dev, off)) by (unfold locate; cbn; done).
  split; [done|]. split; [by apply locate_primary_sound|]. split.
  - intros -> Hs. specialize (L2 eq_refl). unfold checkImageRange in L2.
    rewrite i64_in_range in L2 by lia. steps_in L2. intuition lia.
  - intros d Hd Hlk. destruct (L3 Hd) as (d' & _ & Hlk' & _ & ?). congruence.
Qed.

(** The two placements agree.  A flat range [locateRange] places on a
    device is where [locate], the chunk path's placement, puts its first
    byte; the whole range then lies in the image's extent (device 0) or in
    the blocks of the extra device whose mapped range holds the address. *)
Theorem locateRange_agrees img pa n dev off :
  image_wf img -> 0 < n -> locateRange img pa n = Ok (dev, off) ->
  locate img 0 pa = Ok (dev, off) /\ placed img pa dev off /\
  (dev = 0 -> 0 < img_size img -> pa + n <= img_size img) /\
  (forall d, 1 <= dev -> img_devices img !! Z.to_nat (dev - 1) = Some d -> off + n <= dev_length img d).
Proof. apply locateRange_facts. Qed.

Lemma locateRange_agrees_witness :
  locate example_img 0 69632 = Ok (1, 4096) /\ placed example_img 69632 1 4096 /\
  (1 = 0 -> 0 < 16384 -> 69632 + 4096 <= 16384) /\
  (forall d, 1 <= 1 -> img_devices example_img !! Z.to_nat (1 - 1) = Some d ->
             4096 + 4096 <= dev_length example_img d).
Proof.
  apply (locateRange_agrees example_img 69632 4096 1 4096 example_img_wf); [lia|reflexivity].
Defined.

(** ** Placement is stable inside a range *)

(** The mapped ranges lie past the image, apart from each other, and a mapped
    device is no longer than its range: what [mkfs] lays out. *)
Record mapping_ok (img : image) : Prop := {
  map_size : 0 < img_size img;
  map_above : forall d, d ∈ img_devices img -> dev_mappedBlkAddr d <> 0 ->
    img_size img <= dev_start img d;
  map_disjoint : forall i j d d', i <> j -> img_devices img !! i = Some d ->
    img_devices img !! j = Some d' -> dev_mappedBlkAddr d <> 0 -> dev_mappedBlkAddr d' <> 0 ->
    dev_start img d + dev_length img d <= dev_start img d' \/
    dev_start img d' + dev_length img d' <= dev_start img d;
  map_extent : forall d, d ∈ img_devices img -> dev_mappedBlkAddr d <> 0 ->
    dev_size d <= dev_length img d
}.

(** The slot's mapped range holds the address. *)
Definition covers (img : image) (d : deviceInfo) (pa : Z) : Prop :=
  dev_mappedBlkAddr d <> 0 /\ dev_start img d <= pa < dev_start img d + dev_length img d.

Lemma covers_test img d pa :
  image_wf img -> dev_wf d ->
  (dev_start img d <=? pa) && (pa <? i64 (dev_start img d + dev_length img d)) = true <->
  dev_start img d <= pa < dev_start img d + dev_length img d.
Proof.
  intros Hwf Hd. destruct (dev_start_eq img Hwf d Hd) as [_ ?].
  destruct (dev_length_eq img Hwf d Hd) as [_ ?].
  rewrite i64_plus_small by lia. rewrite andb_true_iff, Z.leb_le, Z.ltb_lt. done.
Qed.

Lemma locate_devs_hit img devs i pa k d :
  image_wf img -> Forall dev_wf devs -> 1 <= i -> i + zlen devs <= 65536 ->
  devs !! k = Some d -> covers img d pa ->
  (forall j d', (j < k)%nat -> devs !! j = Some d' -> ~ covers img d' pa) ->
  locate_devs img devs i pa = Ok (i + Z.of_nat k, pa - dev_start img d).
Proof.
  intros Hwf. revert i k. induction devs as [|d0 devs IH]; intros i k Hf Hi Hl Hk Hc Hn; [done|].
  inv Hf. rewrite zlen_cons in Hl. pose proof (zlen_nonneg devs). cbn [locate_devs].
  destruct k as [|k].
  - injection Hk as ->. destruct Hc as [Hm Hc]. rewrite (proj2 (Z.eqb_neq _ _)) by done.
    rewrite (proj2 (covers_test img d pa Hwf ltac:(done))) by done.
    rewrite u16_id by (unfold is_u16; lia). do 2 f_equal. lia.
  - pose proof (Hn 0%nat d0 ltac:(lia) eq_refl) as H0.
    replace (i + Z.of_nat (S k)) with (i + 1 + Z.of_nat k) by lia.
    assert (Hrec : locate_devs img devs (i + 1) pa = Ok (i + 1 + Z.of_nat k, pa - dev_start img d)).
    { apply IH; auto; try lia. intros j d' Hj Hd'. apply (Hn (S j)); [lia|done]. }
    destruct (Z.eqb_spec (dev_mappedBlkAddr d0) 0); [done|].
    destruct (_ && _) eqn:E; [|done]. apply covers_test in E; auto. by destruct H0.
Qed.

Lemma locate_devs_miss img devs i pa :
  image_wf img -> Forall dev_wf devs ->
  (forall d', d' ∈ devs -> ~ covers img d' pa) ->
  locate_devs img devs i pa = locate_devs img [] i pa.
Proof.
  intros Hwf. revert i. induction devs as [|d0 devs IH]; intros i Hf Hn; [done|].
  inv Hf. pose proof (Hn d0 ltac:(by left)) as H0. cbn [locate_devs].
  assert (Hrec : locate_devs img devs (i + 1) pa = locate_devs img [] i pa).
  { rewrite IH; auto. intros d' Hd'. apply Hn. by right. }
  destruct (Z.eqb_spec (dev_mappedBlkAddr d0) 0); [done|].
  destruct (_ && _) eqn:E; [|done]. apply covers_test in E; auto. by destruct H0.
Qed.

(** On an image whose mapping is sound, every address of a placed range is
    placed by the same shift. *)
Lemma locate_shift img pa dev off k :
  image_wf img -> mapping_ok img -> locate img 0 pa = Ok (dev, off) -> 0 <= k ->
  (dev = 0 -> pa + k < img_size img) ->
  (forall d, img_devices img !! Z.to_nat (dev - 1) = Some d -> 1 <= dev -> off + k < dev_length img d) ->
  locate img 0 (pa + k) = Ok (dev, off + k).
Proof.
  intros Hwf [Ms Ma Md _] H Hk H0 H1.
  destruct (locate_primary_sound img pa dev off Hwf H) as [Hp Hb].
  pose proof (wf_ndevs img Hwf) as Hn. unfold MaxUint16 in Hn.
  unfold locate. cbn [Z.ltb Z.compare].
  destruct Hp as [[-> ->]|(d & P1 & P2 & P3 & P4 & P5)].
  - specialize (H0 eq_refl). specialize (Hb eq_refl). rewrite locate_devs_miss; auto using wf_devs.
    + cbn [locate_devs]. destruct (_ || _) eqn:E; [|done]. zbool. lia.
    + intros d' Hd' [Hm Hc]. specialize (Ma d' Hd' Hm). lia.
  - specialize (H1 d P2 P1).
    rewrite (locate_devs_hit img _ 1 (pa + k) (Z.to_nat (dev - 1)) d); auto using wf_devs; try lia.
    + do 2 f_equal; lia.
    + split; [done|]. lia.
    + intros j d' Hj Hd' [Hm Hc].
      destruct (Md j (Z.to_nat (dev - 1)) d' d) as [Hx|Hx]; auto; lia.
Qed.

Lemma locateRange_devs_of_locate img devs i pa n dev off :
  image_wf img -> Forall dev_wf devs -> 1 <= i -> i + zlen devs <= 65536 ->
  0 <= pa -> 0 <= n -> pa <= MaxInt64 - n ->
  locate_devs img devs i pa = Ok (dev, off) ->
  (dev = 0 -> checkImageRange img pa n = Ok tt) ->
  (forall d, i <= dev -> devs !! Z.to_nat (dev - i) = Some d -> off + n <= dev_length img d) ->
  locateRange_devs img devs i pa n = Ok (dev, off).
Proof.
  intros Hwf. revert i. induction devs as [|d0 devs IH];
    intros i Hf Hi Hl Hpa Hn Hmax H H0 H1; cbn [locateRange_devs locate_devs] in *.
  - steps_in H. injection H as <- <-. by rewrite H0.
  - inv Hf. rewrite zlen_cons in Hl. pose proof (zlen_nonneg devs).
    destruct (dev_start_eq img Hwf d0) as [_ ?]; [done|].
    destruct (dev_length_eq img Hwf d0) as [_ ?]; [done|].
    assert (Hrec : locate_devs img devs (i + 1) pa = Ok (dev, off) ->
                   locateRange_devs img devs (i + 1) pa n = Ok (dev, off)).
    { intros H'. apply IH; auto; try lia. intros d Hd Hlk. apply H1; [lia|].
      replace (Z.to_nat (dev - i)) with (S (Z.to_nat (dev - (i + 1)))) by lia. done. }
    step_in H; [by apply Hrec|]. step_in H; [|by apply Hrec].
    injection H as Hu Ho. rewrite u16_id in Hu |- * by (unfold is_u16; lia). subst dev off.
    specialize (H1 d0 ltac:(lia)). replace (i - i) with 0 in H1 by lia. specialize (H1 eq_refl).
    rewrite i64_plus_small, i64_in_range by lia. by rewrite (proj2 (Z.ltb_ge _ _)) by lia.
Qed.

Lemma locateRange_of_locate img pa n dev off :
  image_wf img -> 0 <= pa -> 0 <= n -> pa <= MaxInt64 - n ->
  locate img 0 pa = Ok (dev, off) ->
  (dev = 0 -> checkImageRange img pa n = Ok tt) ->
  (forall d, 1 <= dev -> img_devices img !! Z.to_nat (dev - 1) = Some d -> off + n <= dev_length img d) ->
  locateRange img pa n = Ok (dev, off).
Proof.
  intros Hwf Hpa Hn Hm H H0 H1. unfold locateRange.
  rewrite (proj2 (Z.ltb_ge pa 0)), (proj2 (Z.ltb_ge n 0)), (proj2 (Z.ltb_ge _ pa)) by lia. cbn [orb].
  pose proof (wf_ndevs img Hwf) as Hl. unfold MaxUint16 in Hl.
  apply locateRange_devs_of_locate; auto using wf_devs; lia.
Qed.

Lemma checkImageRange_spec img off n :
  image_wf img ->
  checkImageRange img off n = Ok tt <->
  0 <= off /\ 0 <= n /\ off + n <= MaxInt64 /\ (0 < img_size img -> off + n <= img_size img).
Proof.
  intros Hwf. unfold checkImageRange.
  destruct ((off <? 0) || (n <? 0) || (MaxInt64 - n <? off)) eqn:E; zbool.
  - split; [done|]. rewrite !orb_true_iff in E. intros; exfalso.
    destruct E as [[E|E]|E]; zbool; lia.
  - rewrite i64_in_range by lia. destruct (_ && _) eqn:E1.
    + zbool. split; [done|]. lia.
    + split; [|done]. intros _. apply andb_false_iff in E1 as [E1|E1]; zbool; lia.
Qed.

(** A range within a range that fits a device fits it. *)
Lemma boundOnDevice_sub img dev off n k m :
  image_wf img -> 0 <= dev -> boundOnDevice img dev off n = Ok tt ->
  0 <= k -> 0 <= m -> k + m <= n -> boundOnDevice img dev (off + k) m = Ok tt.
Proof.
  intros Hwf Hd H Hk Hm Hkm. unfold boundOnDevice in *.
  destruct (Z.eqb_spec dev 0).
  - apply checkImageRange_spec in H; auto. apply checkImageRange_spec; auto. lia.
  - step_in H. step_in H. zbool. rewrite i64_in_range in * by lia.
    rewrite (proj2 (Z.ltb_ge (off + k) 0)), (proj2 (Z.ltb_ge m 0)),
      (proj2 (Z.ltb_ge _ (off + k))) by lia. cbn [orb].
    step_in H. repeat step_in H; zbool; try done.
    by rewrite (proj2 (Z.ltb_ge _ _)) by lia.
    by rewrite (proj2 (Z.ltb_ge _ _)) by lia.
Qed.

Lemma boundOnDevice_range img dev off n :
  boundOnDevice img dev off n = Ok tt -> 0 <= off /\ 0 <= n /\ off <= MaxInt64 - n.
Proof. unfold boundOnDevice, checkImageRange. intros H. repeat step_in H; zbool; lia. Qed.

(** ** The device id mask *)

Lemma roundupPowerOfTwo_u16 v :
  1 <= v <= 65536 ->
  exists k, 0 <= k <= 16 /\ roundupPowerOfTwo v = 2 ^ k /\ v <= 2 ^ k < 2 * v.
Proof.
  intros Hv.
  set (f z := let r := roundupPowerOfTwo (z + 1) in let k := Z.log2 r in
                (r =? 2 ^ k) && (z + 1 <=? r) && (r <? 2 * (z + 1)) && (0 <=? k) && (k <=? 16)).
  assert (Hf : all_modes f = true) by (vm_compute; reflexivity).
  pose proof (all_modes_spec f Hf (v - 1) ltac:(unfold is_u16; lia)) as H. clear Hf.
  unfold f in H. replace (v - 1 + 1) with v in H by lia. cbn zeta in H. zbool.
  exists (Z.log2 (roundupPowerOfTwo v)). lia.
Qed.

(** The device id mask [Open] computes from the superblock's device count
    is [2^k - 1], fits its 16 bits, leaves every valid device id as it is and
    is the smallest such mask. *)
Theorem deviceIDMask_exact n :
  is_u16 n ->
  let mask := u16 (roundupPowerOfTwo (n + 1) - 1) in
  (exists k, 0 <= k <= 16 /\ mask = 2 ^ k - 1) /\
  (forall id, 0 <= id <= n -> Z.land id mask = id) /\
  n <= mask /\ mask <= 2 * n.
Proof.
  intros Hn mask. unfold is_u16 in Hn. destruct (roundupPowerOfTwo_u16 (n + 1)) as (k & Hk & E & H); [lia|].
  assert (Em : mask = 2 ^ k - 1).
  { subst mask. rewrite E. apply u16_id. unfold is_u16.
    assert (2 ^ k <= 2 ^ 16) by (apply Z.pow_le_mono_r; lia). lia. }
  rewrite Em. split; [by exists k|]. split; [|lia].
  intros id Hid. rewrite land_pow2_mask by lia. apply Z.mod_small. lia.
Qed.

Lemma deviceIDMask_exact_witness :
  (exists k, 0 <= k <= 16 /\ u16 (roundupPowerOfTwo (65535 + 1) - 1) = 2 ^ k - 1) /\
  (forall id, 0 <= id <= 65535 -> Z.land id (u16 (roundupPowerOfTwo (65535 + 1) - 1)) = id) /\
  65535 <= u16 (roundupPowerOfTwo (65535 + 1) - 1) /\
  u16 (roundupPowerOfTwo (65535 + 1) - 1) <= 2 * 65535.
Proof. apply (deviceIDMask_exact 65535). by split. Defined.
