(* ===== verification/Inode.v ===== *)
(** * Inodes: [readInfo] and what it decodes ([erofs.go])

    The in-memory [inode], the on-disk rules judged with it, and the invariant
    [inode_wf] every inode [readInfo] returns satisfies; the address
    arithmetic of the data paths relies on it. *)

From S2P Require Import Prelude Machine Disk Format Image.

Record inode := mkInode {
  ino_name : bytes;
  ino_nid : Z;
  ino_icsize : Z;
  ino_xsize : Z;
  ino_inodeLayout : Z;
  ino_inodeData : Z;
  ino_startHi : Z;
  ino_addr48 : bool;
  ino_size : Z;
  ino_mode : Z;
  ino_rawMode : Z;
  ino_uid : Z;
  ino_gid : Z;
  ino_nlink : Z;
  ino_mtime : Z;
  ino_mtimeNs : Z
}.

Definition set_xsize (x : Z) (i : inode) : inode :=
  {| ino_name := ino_name i; ino_nid := ino_nid i; ino_icsize := ino_icsize i; ino_xsize := x;
     ino_inodeLayout := ino_inodeLayout i; ino_inodeData := ino_inodeData i;
     ino_startHi := ino_startHi i; ino_addr48 := ino_addr48 i; ino_size := ino_size i;
     ino_mode := ino_mode i; ino_rawMode := ino_rawMode i; ino_uid := ino_uid i;
     ino_gid := ino_gid i; ino_nlink := ino_nlink i; ino_mtime := ino_mtime i;
     ino_mtimeNs := ino_mtimeNs i |}.

Definition flatDataOffset (ino : inode) : Z := ino_icsize ino + ino_xsize ino.

Definition startBlockBits32 : Z := 32.
Definition startBlockBits48 : Z := 48.

Definition startBlock (ino : inode) : Z :=
  Z.lor (ino_inodeData ino) (u64 (Z.shiftl (ino_startHi ino) startBlockBits32)).

Definition nullStartBlock (start : Z) (addr48 : bool) : bool :=
  let mask := if addr48 then Z.shiftl 1 startBlockBits48 - 1
              else Z.shiftl 1 startBlockBits32 - 1 in
  Z.land start mask =? mask.

Definition nullAddress (ino : inode) : bool :=
  (ino_inodeLayout ino =? LayoutFlatPlain) && nullStartBlock (startBlock ino) (ino_addr48 ino).

(** [a &^ b] *)
Definition andnot (a b : Z) : Z := Z.land a (Z.lnot b).

Definition checkInodeFormat (format : Z) : res unit :=
  reject negb (andnot format InodeFormatAll =? 0) with ErrNotImplemented ;;
  let layout := Z.shiftr (Z.land format InodeFormatLayoutMask) 1 in
  reject (LayoutMax <=? layout) || (layout =? LayoutCompressedFull) ||
         (layout =? LayoutCompressedCompact) with ErrNotImplemented ;;
  Ok tt.

Definition xattrBodySize (xcnt : Z) : res Z :=
  reject xcnt =? 1 with ErrNotImplemented ;;
  Ok (u16 (xcnt - 1) * SizeXattrEntry + SizeXattrBodyHeader).

Definition checkChunkFormat (layout inodeData : Z) : res unit :=
  if negb (layout =? LayoutChunkBased) then Ok tt else
  reject negb (andnot (u16 inodeData) LayoutChunkFormatAll =? 0) with ErrNotImplemented ;;
  Ok tt.

Definition decodeInode (img : image) (name : bytes) (nid : Z) (buf : bytes) (format : Z)
  : res (inode * Z) :=
  let layout := u8 (Z.shiftr (Z.land format InodeFormatLayoutMask) 1) in
  if Z.land format InodeFormatExtended =? 0 then
    let! di := InodeCompact_Unmarshal buf in
    let nlink1 := negb (Z.land (ic_Mode di) StatTypeMask =? StatTypeDir) &&
                  negb (Z.land format InodeFormatNlink1 =? 0) in
    Ok ({| ino_name := name; ino_nid := nid; ino_icsize := SizeInodeCompact; ino_xsize := 0;
           ino_inodeLayout := layout; ino_inodeData := ic_InodeData di;
           ino_startHi := if nlink1 then ic_NB di else 0;
           ino_addr48 := nlink1;
           ino_size := ic_Size di;
           ino_mode := EroFSModeToGoFileMode (ic_Mode di);
           ino_rawMode := ic_Mode di;
           ino_uid := ic_UID di; ino_gid := ic_GID di;
           ino_nlink := if nlink1 then 1 else ic_NB di;
           ino_mtime := u64 (sb_BuildTime (img_sb img) + ic_Mtime di);
           ino_mtimeNs := sb_BuildTimeNs (img_sb img) |},
        ic_XattrCount di)
  else
    reject zlen buf <? SizeInodeExtended with ErrCorrupt ;;
    let! di := InodeExtended_Unmarshal buf in
    Ok ({| ino_name := name; ino_nid := nid; ino_icsize := SizeInodeExtended; ino_xsize := 0;
           ino_inodeLayout := layout; ino_inodeData := ie_InodeData di;
           ino_startHi := ie_NB di; ino_addr48 := true;
           ino_size := i64 (ie_Size di);
           ino_mode := EroFSModeToGoFileMode (ie_Mode di);
           ino_rawMode := ie_Mode di;
           ino_uid := ie_UID di; ino_gid := ie_GID di;
           ino_nlink := ie_Nlink di;
           ino_mtime := ie_Mtime di; ino_mtimeNs := ie_MtimeNs di |},
        ie_XattrCount di).

(** What [finishInfo] assigns to [b.info]: the xattr body's size. *)
Definition assign_xsize (ino : inode) (xcnt : Z) : res inode :=
  if 0 <? xcnt then let! xsize := xattrBodySize xcnt in Ok (set_xsize xsize ino) else Ok ino.

(** [finishInfo]: the xattr body's size, the chunk format, and a fast
    symlink's target, judged with the inode; [buf] is the inode's block from
    the inode on.  The sum [start + size] can wrap below [start], and the
    slice then panics. *)
Definition finishInfo (ino : inode) (buf : bytes) (xcnt : Z) : res inode :=
  let! ino := assign_xsize ino xcnt in
  let! _ := checkChunkFormat (ino_inodeLayout ino) (ino_inodeData ino) in
  if (Z.land (ino_mode ino) ModeSymlink =? 0) || negb (ino_inodeLayout ino =? LayoutFlatInline) ||
     (ino_size ino <? 0) then Ok ino else
  reject ino_size ino =? 0 with ErrCorrupt ;;
  let start := ino_icsize ino + ino_xsize ino in
  let endp := i64 (start + ino_size ino) in
  if endp <=? zlen buf then
    let! target := slice buf start endp in
    reject 0 <=? IndexByte target x00 with ErrCorrupt ;; Ok ino
  else Ok ino.

(** The window of the scratch block [readInfo] reads the inode into: to the
    end of the inode's block, or 64 bytes when less than that is left. *)
Definition readInfo_len (img : image) (addr : Z) : Z :=
  let blkSize := Z.shiftl 1 (img_bits img) in
  let off := Z.land addr (blkSize - 1) in
  if blkSize - off <? SizeInodeExtended then SizeInodeExtended else blkSize - off.

(** The body of [readInfo] after the block is taken from the pool, up to the
    call of [finishInfo]: the inode [b.info] holds there, the bytes read and
    the xattr count. *)
Definition readInfo_decode (img : image) (name : bytes) (nid ftype addr : Z) : res (inode * bytes * Z) :=
  let '(buf, err) := ReadAt (img_meta img) addr (readInfo_len img addr) in
  let! _ := (match err with
             | Some e => if negb (errors_Is e EOF) then Err e else Ok tt
             | None => Ok tt end : res unit) in
  reject zlen buf <? SizeInodeCompact with ErrCorrupt ;;
  let format := get16 buf 0 in
  let! _ := checkInodeFormat format in
  let! (ino, xcnt) := decodeInode img name nid buf format in
  reject ino_size ino <? 0 with ErrCorrupt ;;
  reject negb (ftype =? FileMode_Type (ino_mode ino)) with ErrCorrupt ;;
  Ok (ino, buf, xcnt).

Definition readInfo_body (img : image) (name : bytes) (nid ftype addr : Z) : res inode :=
  let! (ino, buf, xcnt) := readInfo_decode img name nid ftype addr in
  finishInfo ino buf xcnt.

(** [recover()]: a panic while decoding is a corrupt image. *)
Definition recovered {A} (r : res A) : res A :=
  match r with Panic => Err ErrCorrupt | r => r end.

Definition readInfo_addr (img : image) (nid : Z) : Z :=
  i64 (metaStartPos img + i64 (u64 (nid * SizeInodeCompact))).

(** What [readInfo] answers for a file whose inode is not cached yet. *)
Definition readInfo_fresh (img : image) (name : bytes) (nid ftype : Z) : res inode :=
  let! _ := checkNid img nid in
  recovered (readInfo_body img name nid ftype (readInfo_addr img nid)).

(** ** Open files *)

Record file := mkFile {
  f_name : bytes;
  f_nid : Z;
  f_ftype : Z;
  f_offset : Z;
  f_info : option inode;
  f_direct : option ReaderAt;
  f_directChecked : bool
}.

Definition new_file (name : bytes) (nid ftype : Z) : file :=
  {| f_name := name; f_nid := nid; f_ftype := ftype; f_offset := 0; f_info := None;
     f_direct := None; f_directChecked := false |}.

Definition with_info (f : file) (i : option inode) : file :=
  {| f_name := f_name f; f_nid := f_nid f; f_ftype := f_ftype f; f_offset := f_offset f;
     f_info := i; f_direct := f_direct f; f_directChecked := f_directChecked f |}.

Definition with_offset (f : file) (o : Z) : file :=
  {| f_name := f_name f; f_nid := f_nid f; f_ftype := f_ftype f; f_offset := o;
     f_info := f_info f; f_direct := f_direct f; f_directChecked := f_directChecked f |}.

Definition with_direct (f : file) (d : option ReaderAt) : file :=
  {| f_name := f_name f; f_nid := f_nid f; f_ftype := f_ftype f; f_offset := f_offset f;
     f_info := f_info f; f_direct := d; f_directChecked := true |}.

(** [readInfo]: the cached inode, or a fresh one and the file holding it.  An
    error the code returns leaves [b.info] unset; a panic in [finishInfo] is
    recovered into an error with [b.info] as it was assigned. *)
Definition readInfo (img : image) (f : file) : res inode * file :=
  match f_info f with
  | Some ino => (Ok ino, f)
  | None =>
      match checkNid img (f_nid f) with
      | Panic => (Panic, f)
      | Err e => (Err e, f)
      | Ok _ =>
          match readInfo_decode img (f_name f) (f_nid f) (f_ftype f) (readInfo_addr img (f_nid f)) with
          | Panic => (Err ErrCorrupt, f)
          | Err e => (Err e, f)
          | Ok (ino, buf, xcnt) =>
              match finishInfo ino buf xcnt with
              | Ok ino => (Ok ino, with_info f (Some ino))
              | Err e => (Err e, f)
              | Panic =>
                  (Err ErrCorrupt,
                   with_info f (Some (match assign_xsize ino xcnt with Ok i => i | _ => ino end)))
              end
          end
      end
  end.

(** ** The invariant of a decoded inode *)

Record inode_wf (img : image) (ino : inode) : Prop := {
  wf_nid : checkNid img (ino_nid ino) = Ok tt;
  wf_icsize : ino_icsize ino = 32 \/ ino_icsize ino = 64;
  wf_xsize : ino_xsize ino = 0 \/
             (16 <= ino_xsize ino <= 262148 /\ ino_xsize ino mod 4 = 0);
  wf_layout : ino_inodeLayout ino = LayoutFlatPlain \/ ino_inodeLayout ino = LayoutFlatInline \/
              ino_inodeLayout ino = LayoutChunkBased;
  wf_data : is_u32 (ino_inodeData ino);
  wf_startHi : is_u16 (ino_startHi ino);
  wf_isize : 0 <= ino_size ino <= MaxInt64;
  wf_chunkfmt : ino_inodeLayout ino = LayoutChunkBased ->
                andnot (u16 (ino_inodeData ino)) LayoutChunkFormatAll = 0;
  wf_mode : ino_mode ino = EroFSModeToGoFileMode (ino_rawMode ino);
  wf_rawMode : is_u16 (ino_rawMode ino);
  wf_fastlink : Z.land (ino_mode ino) ModeSymlink <> 0 ->
                ino_inodeLayout ino = LayoutFlatInline -> 0 < ino_size ino
}.

Lemma checkInodeFormat_layout format :
  is_u16 format -> checkInodeFormat format = Ok tt ->
  let layout := u8 (Z.shiftr (Z.land format InodeFormatLayoutMask) 1) in
  format < 32 /\
  (layout = LayoutFlatPlain \/ layout = LayoutFlatInline \/ layout = LayoutChunkBased).
Proof.
  intros Hf H.
  set (g f := negb (is_ok (checkInodeFormat f)) ||
    (let layout := u8 (Z.shiftr (Z.land f InodeFormatLayoutMask) 1) in
     (f <? 32) && ((layout =? 0) || (layout =? 2) || (layout =? 4)))).
  assert (Hg : all_modes g = true) by (vm_compute; reflexivity).
  pose proof (all_modes_spec g Hg format Hf) as Hx. clear Hg. unfold g in Hx. rewrite H in Hx.
  cbn zeta in *. cbn [is_ok negb orb] in Hx. unfold LayoutFlatPlain, LayoutFlatInline, LayoutChunkBased.
  apply andb_true_iff in Hx as [H1 H2]. rewrite !orb_true_iff, !Z.eqb_eq in H2. zbool. intuition lia.
Qed.

Lemma decodeInode_wf img name nid buf format ino xcnt :
  checkNid img nid = Ok tt -> is_u16 format -> checkInodeFormat format = Ok tt ->
  decodeInode img name nid buf format = Ok (ino, xcnt) ->
  is_u16 xcnt /\ ino_xsize ino = 0 /\ ino_nid ino = nid /\ ino_name ino = name /\
  (ino_icsize ino = 32 \/ ino_icsize ino = 64) /\
  (ino_inodeLayout ino = LayoutFlatPlain \/ ino_inodeLayout ino = LayoutFlatInline \/
   ino_inodeLayout ino = LayoutChunkBased) /\
  is_u32 (ino_inodeData ino) /\ is_u16 (ino_startHi ino) /\
  - 2 ^ 63 <= ino_size ino <= MaxInt64 /\
  ino_mode ino = EroFSModeToGoFileMode (ino_rawMode ino) /\ is_u16 (ino_rawMode ino).
Proof.
  intros Hn Hf Hc H. destruct (checkInodeFormat_layout format Hf Hc) as [_ Hl]. cbn zeta in Hl.
  unfold decodeInode in H. assert (H0 : is_u16 0) by (by split).
  step_in H; step_in H; [|step_in H]; apply Ok_inj in H; injection H as <- <-.
  - apply InodeCompact_Unmarshal_ranges in E0. unfold MaxInt64, is_u32 in *. cbn.
    split_and!; auto; try lia; try tauto. case_match; tauto.
  - apply InodeExtended_Unmarshal_ranges in E1. cbn.
    pose proof (i64_range (ie_Size a)). unfold MaxInt64. split_and!; auto; try lia; tauto.
Qed.

Lemma xattrBodySize_range xcnt x :
  is_u16 xcnt -> 0 < xcnt -> xattrBodySize xcnt = Ok x -> 16 <= x <= 262148 /\ x mod 4 = 0.
Proof.
  unfold is_u16, xattrBodySize, SizeXattrEntry, SizeXattrBodyHeader. intros Hx Hp H.
  steps_in H. apply Ok_inj in H. subst x. rewrite u16_id by (unfold is_u16; lia). split; [lia|].
  replace ((xcnt - 1) * 4 + 12) with ((xcnt + 2) * 4) by lia. apply Z.mod_mul. lia.
Qed.

Definition xsize_ok (x : Z) : Prop := x = 0 \/ (16 <= x <= 262148 /\ x mod 4 = 0).

Lemma assign_xsize_spec ino xcnt ino' :
  is_u16 xcnt -> ino_xsize ino = 0 -> assign_xsize ino xcnt = Ok ino' ->
  ino' = set_xsize (ino_xsize ino') ino /\ xsize_ok (ino_xsize ino').
Proof.
  intros Hx Hz E. unfold assign_xsize in E. destruct (Z.ltb_spec 0 xcnt).
  - step_in E. apply Ok_inj in E. subst ino'. cbn. split; [by destruct ino|]. right. by eapply xattrBodySize_range.
  - apply Ok_inj in E. subst ino'. split; [destruct ino; cbn in *; by subst|]. by left.
Qed.

(** A fast symlink whose declared size wraps the sum [finishInfo] slices at. *)
Definition wrapping_link (ino : inode) : Prop :=
  Z.land (ino_mode ino) ModeSymlink <> 0 /\ ino_inodeLayout ino = LayoutFlatInline /\
  MaxInt64 < ino_icsize ino + ino_xsize ino + ino_size ino.

(** [finishInfo] answers the inode it has assigned, or panics with it assigned:
    on nothing but a fast symlink whose size wraps. *)
Lemma finishInfo_cases ino buf xcnt :
  finishInfo ino buf xcnt = Panic \/ is_ok (finishInfo ino buf xcnt) = true ->
  is_u16 xcnt -> ino_xsize ino = 0 -> (ino_icsize ino = 32 \/ ino_icsize ino = 64) -> ino_size ino <= MaxInt64 ->
  exists ino', assign_xsize ino xcnt = Ok ino' /\
    (finishInfo ino buf xcnt = Ok ino' \/ finishInfo ino buf xcnt = Panic /\ wrapping_link ino') /\
    (ino_inodeLayout ino = LayoutChunkBased -> andnot (u16 (ino_inodeData ino)) LayoutChunkFormatAll = 0) /\
    (0 <= ino_size ino -> Z.land (ino_mode ino) ModeSymlink <> 0 ->
       ino_inodeLayout ino = LayoutFlatInline -> 0 < ino_size ino).
Proof.
  intros H Hx Hz Hi Hs. unfold finishInfo in *.
  destruct (assign_xsize ino xcnt) as [i|e|] eqn:E.
  2: by destruct H.
  2: { exfalso. unfold assign_xsize in E. step_in E. unfold xattrBodySize in E. by repeat case_match. }
  destruct (assign_xsize_spec _ _ _ Hx Hz E) as [Ei Hxs]. exists i. split; [done|].
  destruct (checkChunkFormat _ _) as [[]|e|] eqn:Ec.
  2: by destruct H.
  2: { exfalso. unfold checkChunkFormat in Ec. by repeat case_match. }
  assert (Hc : ino_inodeLayout ino = LayoutChunkBased -> andnot (u16 (ino_inodeData ino)) LayoutChunkFormatAll = 0).
  { intros Hl. rewrite Ei in Ec. cbn in Ec. unfold checkChunkFormat in Ec. rewrite Hl in Ec. cbn in Ec. steps_in Ec. done. }
  destruct (_ || _) eqn:El in H |- *.
  { split; [by left|]. split; [done|]. intros H0 Hm Hl. rewrite Ei in El. cbn in El. rewrite Hl in El. cbn in El.
    rewrite (proj2 (Z.eqb_neq _ _)) in El by done. cbn in El. zbool. lia. }
  zbool. destruct (Z.eqb_spec (ino_size i) 0) as [|Hn]; [by destruct H|].
  assert (Es : ino_size ino = ino_size i) by (by rewrite Ei).
  split; [|split; [done|]; intros; lia].
  destruct (Z.leb_spec (i64 (ino_icsize i + ino_xsize i + ino_size i)) (zlen buf)) as [Hle|]; [|by left].
  destruct (slice buf _ _) as [s|e|] eqn:Esl; [|by destruct H|].
  { destruct (0 <=? _); [by destruct H|by left]. }
  right. split; [done|]. split; [done|]. split; [done|].
  assert (Hic : ino_icsize ino = ino_icsize i) by (by rewrite Ei). unfold xsize_ok in Hxs.
  destruct (Z.le_gt_cases (ino_icsize i + ino_xsize i + ino_size i) MaxInt64) as [Hm|]; [exfalso|done].
  rewrite i64_id in Esl, Hle by (unfold MaxInt64 in *; lia). rewrite slice_ok in Esl by lia. done.
Qed.

(** What [readInfo_decode] has judged of the inode it hands to [finishInfo]. *)
Lemma readInfo_decode_facts img name nid ftype addr ino buf xcnt :
  checkNid img nid = Ok tt -> readInfo_decode img name nid ftype addr = Ok (ino, buf, xcnt) ->
  (is_u16 xcnt /\ ino_xsize ino = 0 /\ ino_nid ino = nid /\ ino_name ino = name /\
  (ino_icsize ino = 32 \/ ino_icsize ino = 64) /\
  (ino_inodeLayout ino = LayoutFlatPlain \/ ino_inodeLayout ino = LayoutFlatInline \/
   ino_inodeLayout ino = LayoutChunkBased) /\
  is_u32 (ino_inodeData ino) /\ is_u16 (ino_startHi ino) /\
  - 2 ^ 63 <= ino_size ino <= MaxInt64 /\
  ino_mode ino = EroFSModeToGoFileMode (ino_rawMode ino) /\ is_u16 (ino_rawMode ino)) /\
  0 <= ino_size ino /\ FileMode_Type (ino_mode ino) = ftype.
Proof.
  intros Hn H. unfold readInfo_decode in H.
  destruct (ReadAt (img_meta img) addr (readInfo_len img addr)) as [b err].
  step_in H. step_in H. step_in H. destruct a0.
  step_in H. destruct a0 as [ino0 xc]. step_in H. step_in H. apply Ok_inj in H. injection H as -> -> ->.
  split; [by eapply decodeInode_wf, E2; [|apply get16_range|]|]. zbool. auto.
Qed.

(** The inode assigned to [b.info] when [finishInfo] does not report an error. *)
Lemma assigned_wf img name nid ftype addr ino buf xcnt :
  checkNid img nid = Ok tt -> readInfo_decode img name nid ftype addr = Ok (ino, buf, xcnt) ->
  finishInfo ino buf xcnt = Panic \/ is_ok (finishInfo ino buf xcnt) = true ->
  exists ino', assign_xsize ino xcnt = Ok ino' /\
    (finishInfo ino buf xcnt = Ok ino' \/ finishInfo ino buf xcnt = Panic /\ wrapping_link ino') /\
    inode_wf img ino' /\ ino_nid ino' = nid /\ ino_name ino' = name /\ FileMode_Type (ino_mode ino') = ftype.
Proof.
  intros Hn Hd Hf. destruct (readInfo_decode_facts _ _ _ _ _ _ _ _ Hn Hd) as
    ((D1 & D2 & D3 & D4 & D5 & D6 & D7 & D8 & D9 & D10 & D11) & D12 & D13).
  destruct (finishInfo_cases ino buf xcnt Hf D1 D2 D5 ltac:(lia)) as (i & A1 & A2 & A3 & A4).
  exists i. split; [done|]. split; [done|]. destruct (assign_xsize_spec _ _ _ D1 D2 A1) as [E X].
  rewrite E. unfold set_xsize. cbn. split; [|auto]. constructor; cbn; auto; try congruence; lia.
Qed.

Lemma readInfo_body_wf img name nid ftype addr ino :
  checkNid img nid = Ok tt -> readInfo_body img name nid ftype addr = Ok ino ->
  inode_wf img ino /\ ino_nid ino = nid /\ ino_name ino = name /\
  FileMode_Type (ino_mode ino) = ftype.
Proof.
  intros Hn H. unfold readInfo_body in H. destruct (readInfo_decode _ _ _ _ _) as [[[ino0 buf] xcnt]| |] eqn:Ed; try done.
  destruct (assigned_wf _ _ _ _ _ _ _ _ Hn Ed) as (i & _ & [A|[A _]] & W); [right; by rewrite H|congruence..].
Qed.

Lemma readInfo_fresh_facts img name nid ftype ino :
  readInfo_fresh img name nid ftype = Ok ino -> inode_wf img ino /\ ino_nid ino = nid /\ FileMode_Type (ino_mode ino) = ftype.
Proof.
  unfold readInfo_fresh. destruct (checkNid img nid) as [[]| |] eqn:Ec; try done.
  destruct (readInfo_body _ _ _ _ _) as [ino'| |] eqn:Eb; try done. intros [= ->].
  destruct (readInfo_body_wf _ _ _ _ _ _ Ec Eb) as (W & W1 & _ & W2). done.
Qed.

(** [readInfo] of a file that caches nothing answers what [readInfo_fresh] does. *)
Lemma readInfo_answer img f :
  f_info f = None -> (readInfo img f).1 = readInfo_fresh img (f_name f) (f_nid f) (f_ftype f).
Proof.
  intros E. unfold readInfo, readInfo_fresh, readInfo_body. rewrite E.
  destruct (checkNid _ _); try done. destruct (readInfo_decode _ _ _ _ _) as [[[ino buf] xcnt]| |]; try done.
  by destruct (finishInfo _ _ _).
Qed.

Lemma readInfo_of_fresh img f ino :
  f_info f = None -> readInfo_fresh img (f_name f) (f_nid f) (f_ftype f) = Ok ino ->
  readInfo img f = (Ok ino, with_info f (Some ino)).
Proof.
  intros E. unfold readInfo, readInfo_fresh, readInfo_body. rewrite E.
  destruct (checkNid _ _); try done. destruct (readInfo_decode _ _ _ _ _) as [[[i buf] xcnt]| |]; try done.
  destruct (finishInfo _ _ _); try done. by intros [= ->].
Qed.

Lemma with_info_same f i : f_info f = i -> with_info f i = f.
Proof. destruct f. cbn. by intros ->. Qed.

(** The three ends of [readInfo]: a sound inode, cached; an error and nothing
    cached; the recovered panic of a fast symlink whose size wraps, cached. *)
Inductive readInfo_ends (img : image) (f : file) : Prop :=
| ends_ok ino : readInfo img f = (Ok ino, with_info f (Some ino)) ->
    inode_wf img ino -> FileMode_Type (ino_mode ino) = f_ftype f -> readInfo_ends img f
| ends_err e : readInfo img f = (Err e, f) -> f_info f = None -> readInfo_ends img f
| ends_panic ino : readInfo img f = (Err ErrCorrupt, with_info f (Some ino)) -> f_info f = None ->
    inode_wf img ino -> FileMode_Type (ino_mode ino) = f_ftype f -> wrapping_link ino -> readInfo_ends img f.

Lemma readInfo_end img f :
  (forall i, f_info f = Some i -> inode_wf img i /\ FileMode_Type (ino_mode i) = f_ftype f) -> readInfo_ends img f.
Proof.
  intros Hc. destruct (f_info f) as [i|] eqn:E.
  { destruct (Hc i eq_refl). apply (ends_ok _ _ i); [|done..]. unfold readInfo. by rewrite E, with_info_same. }
  destruct (checkNid img (f_nid f)) as [[]|e|] eqn:En.
  2: { apply (ends_err _ _ e); [|done]. unfold readInfo. by rewrite E, En. }
  2: { exfalso. unfold checkNid in En. by repeat case_match. }
  destruct (readInfo_decode img (f_name f) (f_nid f) (f_ftype f) (readInfo_addr img (f_nid f)))
    as [[[ino buf] xcnt]|e|] eqn:Ed.
  2, 3: eapply ends_err; [unfold readInfo; by rewrite E, En, Ed|done].
  pose proof (assigned_wf _ _ _ _ _ _ _ _ En Ed) as A. destruct (finishInfo ino buf xcnt) as [i|e|] eqn:Ef.
  - destruct (A (or_intror eq_refl)) as (i' & _ & [A1|[? _]] & W & _ & _ & T); [|done]. apply Ok_inj in A1 as <-.
    apply (ends_ok _ _ i); [|done..]. unfold readInfo. by rewrite E, En, Ed, Ef.
  - apply (ends_err _ _ e); [|done]. unfold readInfo. by rewrite E, En, Ed, Ef.
  - destruct (A (or_introl eq_refl)) as (i & A1 & [?|[_ L]] & W & _ & _ & T); [done|].
    apply (ends_panic _ _ i); [|done..]. unfold readInfo. by rewrite E, En, Ed, Ef, A1.
Qed.

(** C30: every inode [readInfo] returns satisfies the invariant the data paths
    rely on (a nid [checkNid] accepts, a size that is a nonnegative [int64], a
    flat or chunk-based layout, an xattr area that is empty or a header and
    whole units of at most 262148 bytes, the type the dirent claimed, a fast
    symlink's target not empty), and the file caches it, so that the next call
    returns it again.  [readInfo] never panics.  An error leaves the file as it
    was and caches nothing, with one exception: the panic in [finishInfo] on a
    fast symlink whose size wraps the slice bound is recovered into
    [ErrCorrupt] with the inode cached, and the next call of the same file
    returns that inode without an error. *)
Theorem readInfo_invariant img f :
  (forall i, f_info f = Some i -> inode_wf img i /\ FileMode_Type (ino_mode i) = f_ftype f) ->
  let '(r, f') := readInfo img f in
  match r with
  | Ok ino => inode_wf img ino /\ FileMode_Type (ino_mode ino) = f_ftype f /\
              f' = with_info f (Some ino) /\ readInfo img f' = (Ok ino, f')
  | Err e => f' = f /\ f_info f = None \/
             exists ino, e = ErrCorrupt /\ f_info f = None /\ wrapping_link ino /\ inode_wf img ino /\
               f' = with_info f (Some ino) /\ readInfo img f' = (Ok ino, f')
  | Panic => False
  end.
Proof.
  intros Hc. destruct (readInfo_end img f Hc) as [ino E W T|e E N|ino E N W T L]; rewrite E.
  - split_and!; auto.
  - by left.
  - right. exists ino. split_and!; auto.
Qed.

(** An image whose inode 0 is a regular file, and inode 2 a fast symlink of a
    declared size of [MaxInt64] bytes. *)
Definition wrapping_image : image :=
  {| img_sb := example_sb; img_size := 16384;
     img_meta := bytes_reader
       (put64 (Z.to_nat (4160 + 8)) MaxInt64 (put16 (Z.to_nat (4160 + 4)) 0xA1FF (put16 (Z.to_nat 4160) 5
         (put32 (Z.to_nat 4104) 100 (put16 (Z.to_nat 4100) 0x81A4 (zeros (Z.to_nat 16384)))))));
     img_devices := []; img_deviceIDMask := 0; img_longPrefixes := [] |}.

Lemma readInfo_invariant_witness :
  let f := new_file (bs "f") 0 0 in let l := new_file (bs "l") 2 ModeSymlink in
  (exists ino, (readInfo wrapping_image f).1 = Ok ino /\ ino_size ino = 100 /\ inode_wf wrapping_image ino) /\
  (readInfo wrapping_image l).1 = Err ErrCorrupt /\
  exists ino, (readInfo wrapping_image (readInfo wrapping_image l).2).1 = Ok ino /\ ino_size ino = MaxInt64.
Proof.
  cbn zeta. split; [|split].
  - pose proof (readInfo_invariant wrapping_image (new_file (bs "f") 0 0) ltac:(done)) as H.
    destruct (readInfo wrapping_image (new_file (bs "f") 0 0)) as [[ino| |] f'] eqn:E.
    + exists ino. destruct H as [H _]. split; [reflexivity|]. vm_compute in E. injection E as <- <-.
      split; [reflexivity|exact H].
    + exfalso. vm_compute in E. discriminate E.
    + exfalso. vm_compute in E. discriminate E.
  - vm_compute. reflexivity.
  - pose proof (readInfo_invariant wrapping_image (new_file (bs "l") 2 ModeSymlink) ltac:(done)) as H.
    destruct (readInfo wrapping_image (new_file (bs "l") 2 ModeSymlink)) as [[ino|e|] f'] eqn:E.
    + exfalso. vm_compute in E. discriminate E.
    + destruct H as [[-> _]|(ino & _ & _ & _ & _ & _ & H)].
      { exfalso. vm_compute in E. discriminate E. }
      cbn [snd]. rewrite H. exists ino. split; [reflexivity|]. vm_compute in E. injection E as _ <-.
      vm_compute in H. injection H as <-. reflexivity.
    + exfalso. vm_compute in E. discriminate E.
Defined.
