(* ===== verification/Data.v ===== *)
(** * File data: blocks, the direct path and data ranges ([erofs.go])

    [loadBlock] maps one block of a file, [openDirect] a whole file when it is
    one physical run, [buildDataRanges] the public description of where the
    bytes are; [Read], [WriteTo] and [readAll] consume them. *)

From S2P Require Import Prelude Machine Disk Format Image Inode.

(** ** One block ([loadBlock]) *)

(** The read every case of [loadBlock] ends in: the count before the error. *)
Definition read_exact (r : ReaderAt) (start len : Z) : res bytes :=
  let '(b, err) := ReadAt r start len in
  if zlen b =? len then Ok b else
  match err with
  | Some e => if negb (errors_Is e EOF) then Err e else Err ErrCorrupt
  | None => Err ErrCorrupt
  end.

Definition bad_bounds (blockSize blockOffset blockEnd : Z) : bool :=
  (blockOffset <? 0) || (blockSize <? blockEnd) || (blockEnd <=? blockOffset).

(** [holeBlock] *)
Definition holeBlock (blockOffset blockEnd : Z) : bytes := zeros (Z.to_nat (blockEnd - blockOffset)).

(** The code after the switch: the flat cases' read. *)
Definition loadBlock_read (img : image) (addr blockOffset blockEnd : Z) (dataBlock : bool) : res bytes :=
  let blockSize := Z.shiftl 1 (img_bits img) in
  reject bad_bounds blockSize blockOffset blockEnd with ErrCorrupt ;;
  let start := i64 (addr + blockOffset) in
  let len := blockEnd - blockOffset in
  if dataBlock then
    let! (dev, off) := locateRange img start len in
    let! reader := deviceReader img dev in
    read_exact reader off len
  else
    let! _ := checkImageRange img start len in
    read_exact (img_meta img) start len.

Definition loadBlock_plain (img : image) (fi : inode) (pos bn nblocks : Z) : res bytes :=
  let blockSize := Z.shiftl 1 (img_bits img) in
  let blockOffset := Z.rem pos blockSize in
  let blockEnd := if bn =? nblocks - 1 then ino_size fi - bn * blockSize else blockSize in
  if nullAddress fi then
    reject bad_bounds blockSize blockOffset blockEnd with ErrCorrupt ;;
    Ok (holeBlock blockOffset blockEnd)
  else
    let! pa := blockAddr img (u64 (startBlock fi + bn)) in
    loadBlock_read img pa blockOffset blockEnd true.

Definition loadBlock_inline (img : image) (fi : inode) (pos bn nblocks : Z) : res bytes :=
  let blockSize := Z.shiftl 1 (img_bits img) in
  if bn =? nblocks - 1 then
    let addr := i64 (metaStartPos img + i64 (u64 (ino_nid fi * SizeInodeCompact))) in
    let addr := i64 (addr + flatDataOffset fi) in
    let blockOffset := Z.land addr (blockSize - 1) in
    let addr := Z.land addr (Z.lnot (blockSize - 1)) in
    let blockEnd := (ino_size fi - bn * blockSize) + blockOffset in
    let blockOffset := blockOffset + (pos - Z.shiftl bn (img_bits img)) in
    reject blockSize <? blockEnd with ErrCorrupt ;;
    loadBlock_read img addr blockOffset blockEnd false
  else
    let! pa := blockAddr img (u64 (startBlock fi + bn)) in
    loadBlock_read img pa (Z.rem pos blockSize) blockSize true.

(** A chunk-index entry: the block address in bytes, -1 for a hole, and the
    device.  [unit] is 8 for an index, 4 for a bare block address. *)
Definition chunk_entry (img : image) (unit : Z) (entry : bytes) : res (Z * Z) :=
  let blk := if unit =? 8 then get32 entry 4 else get32 entry 0 in
  if blk =? 2 ^ 32 - 1 then Ok (-1, 0) else
  let! addr := chunkAddr img blk in
  Ok (addr, if unit =? 8 then Z.land (get16 entry 2) (img_deviceIDMask img) else 0).

(** [(v + 7) & ^7], applied when [v] is not a multiple of 8. *)
Definition align8 (v : Z) : Z :=
  if negb (Z.rem v 8 =? 0) then Z.land (v + 7) (Z.lnot 7) else v.

Definition chunk_bits (img : image) (format : Z) : Z :=
  u8 (img_bits img + u8 (Z.land format LayoutChunkFormatBits)).

Definition chunk_indexed (format : Z) : bool :=
  negb (Z.land format LayoutChunkFormatIndexes =? 0).

(** Where an inode's chunk map starts: after the xattr area, an index map
    aligned to 8. *)
Definition chunk_base (img : image) (fi : inode) (format : Z) : Z :=
  let inodeStart := i64 (metaStartPos img + i64 (u64 (ino_nid fi * SizeInodeCompact))) in
  let baseOffset := i64 (inodeStart + flatDataOffset fi) in
  if chunk_indexed format then align8 baseOffset else baseOffset.

Definition loadBlock_chunk (img : image) (fi : inode) (pos bn nblocks : Z) : res bytes :=
  let blockSize := Z.shiftl 1 (img_bits img) in
  let format := u16 (ino_inodeData fi) in
  reject negb (Z.land format LayoutChunkFormat48Bit =? 0) with ErrNotImplemented ;;
  reject negb (andnot format (Z.lor LayoutChunkFormatBits LayoutChunkFormatIndexes) =? 0)
    with ErrNotImplemented ;;
  let chunkbits := chunk_bits img format in
  let chunkn := Z.shiftr (ino_size fi - 1) chunkbits + 1 in
  let cn := Z.shiftr pos chunkbits in
  reject chunkn <=? cn with ErrCorrupt ;;
  let unit := if chunk_indexed format then 8 else 4 in
  let entryPos := i64 (chunk_base img fi format + cn * unit) in
  let '(entry, rerr) := ReadAt (img_meta img) entryPos unit in
  let! _ := (match rerr with Some e => Err e | None =>
               if negb (zlen entry =? unit) then Err ErrUnexpectedEOF else Ok tt end : res _) in
  let! (addr, deviceID) := chunk_entry img unit entry in
  let blockEnd := if bn =? nblocks - 1 then ino_size fi - bn * blockSize else blockSize in
  let blockOffset := Z.rem pos blockSize in
  reject bad_bounds blockSize blockOffset blockEnd with ErrCorrupt ;;
  if addr =? -1 then Ok (holeBlock blockOffset blockEnd) else
  let blockPos := Z.shiftl bn (img_bits img) in
  let addr := if 0 <? blockPos then i64 (addr + (blockPos - Z.shiftl cn chunkbits)) else addr in
  let! (dev, addr) := locate img deviceID addr in
  let! _ := boundOnDevice img dev (i64 (addr + blockOffset)) (blockEnd - blockOffset) in
  let! reader := deviceReader img dev in
  read_exact reader (i64 (addr + blockOffset)) (blockEnd - blockOffset).

Definition loadBlock (img : image) (fi : inode) (pos : Z) : res bytes :=
  let nblocks := calculateBlocks (img_bits img) (ino_size fi) in
  let bn := Z.shiftr pos (img_bits img) in
  reject nblocks <=? bn with EOF ;;
  let layout := ino_inodeLayout fi in
  if layout =? LayoutFlatPlain then loadBlock_plain img fi pos bn nblocks
  else if layout =? LayoutFlatInline then loadBlock_inline img fi pos bn nblocks
  else if layout =? LayoutChunkBased then loadBlock_chunk img fi pos bn nblocks
  else if (layout =? LayoutCompressedFull) || (layout =? LayoutCompressedCompact)
       then Err ErrNotImplemented
  else Err ErrCorrupt.

(** ** The direct path ([openDirect]) *)

Definition locateStart (img : image) (ino : inode) (n : Z) : res (Z * Z) :=
  let! pa := blockAddr img (startBlock ino) in
  locateRange img pa n.

(** The loop over the chunk index: every chunk at the block after the one
    before it, on the same device; the answer is the first block and the
    device.  [None] is "not contiguous, or a hole". *)
Fixpoint direct_chunks (img : image) (idxBuf : bytes) (blocksPerChunk : Z)
  (n : nat) (i startBlk deviceID : Z) : option (Z * Z) :=
  match n with
  | O => Some (startBlk, deviceID)
  | S n =>
      let off := Z.to_nat (i * SizeChunkIndex) in
      let blkLo := get32 idxBuf (off + 4) in
      if blkLo =? 2 ^ 32 - 1 then None else
      let did := Z.land (get16 idxBuf (off + 2)) (img_deviceIDMask img) in
      if i =? 0 then direct_chunks img idxBuf blocksPerChunk n (i + 1) blkLo did
      else
        let expected := u64 (startBlk + u64 (i * blocksPerChunk)) in
        if negb (blkLo =? expected) || negb (did =? deviceID) then None
        else direct_chunks img idxBuf blocksPerChunk n (i + 1) startBlk deviceID
  end.

Definition openDirect_plain (img : image) (ino : inode) : res (option ReaderAt) :=
  if nullAddress ino then Ok None else
  match locateStart img ino (ino_size ino) with
  | Ok (dev, off) =>
      let! r := deviceReader img dev in
      Ok (Some (NewSectionReader r off (ino_size ino)))
  | Err _ => Ok None
  | Panic => Panic
  end.

Definition openDirect_inline (img : image) (ino : inode) : res (option ReaderAt) :=
  let blockSize := Z.shiftl 1 (img_bits img) in
  if blockSize <? ino_size ino then Ok None else
  let inodeAddr := i64 (metaStartPos img + i64 (i64 (ino_nid ino) * SizeInodeCompact)) in
  let trailingAddr := i64 (inodeAddr + flatDataOffset ino) in
  if blockSize <? Z.land trailingAddr (blockSize - 1) + ino_size ino then Ok None else
  match checkImageRange img trailingAddr (ino_size ino) with
  | Ok _ => Ok (Some (NewSectionReader (img_meta img) trailingAddr (ino_size ino)))
  | Err _ => Ok None
  | Panic => Panic
  end.

Definition openDirect_chunk (img : image) (ino : inode) : res (option ReaderAt) :=
  let chunkFmt := u16 (ino_inodeData ino) in
  if Z.land chunkFmt LayoutChunkFormatIndexes =? 0 then Ok None else
  if negb (andnot chunkFmt (Z.lor LayoutChunkFormatBits LayoutChunkFormatIndexes) =? 0)
  then Ok None else
  let chunkBits := chunk_bits img chunkFmt in
  let nchunks := Z.shiftr (ino_size ino - 1) chunkBits + 1 in
  let inodeStart := i64 (metaStartPos img + i64 (i64 (ino_nid ino) * SizeInodeCompact)) in
  let baseOffset := align8 (i64 (inodeStart + flatDataOffset ino)) in
  let needed := i64 (nchunks * SizeChunkIndex) in
  if negb (chunkIndexFits img baseOffset needed) then Ok None else
  let '(idxBuf, err) := ReadAt (img_meta img) baseOffset needed in
  match err with
  | Some _ => Ok None
  | None =>
      let blocksPerChunk := Z.shiftl 1 (chunkBits - img_bits img) in
      match direct_chunks img idxBuf blocksPerChunk (Z.to_nat nchunks) 0 0 0 with
      | None => Ok None
      | Some (startBlk, deviceID) =>
          match chunkAddr img startBlk with
          | Ok dataOffset =>
              match locate img deviceID dataOffset with
              | Ok (dev, mapped) =>
                  match boundOnDevice img dev mapped (ino_size ino) with
                  | Ok _ =>
                      let! r := deviceReader img dev in
                      Ok (Some (NewSectionReader r mapped (ino_size ino)))
                  | Err _ => Ok None
                  | Panic => Panic
                  end
              | Err _ => Ok None
              | Panic => Panic
              end
          | Err _ => Ok None
          | Panic => Panic
          end
      end
  end.

Definition openDirect (img : image) (ino : inode) : res (option ReaderAt) :=
  if ino_size ino <=? 0 then Ok None else
  let layout := ino_inodeLayout ino in
  if layout =? LayoutFlatPlain then openDirect_plain img ino
  else if layout =? LayoutFlatInline then openDirect_inline img ino
  else if layout =? LayoutChunkBased then openDirect_chunk img ino
  else Ok None.

(** [directReader]: the answer, memoized in the file. *)
Definition directReader (img : image) (f : file) (ino : inode) : res (option ReaderAt * file) :=
  if f_directChecked f then Ok (f_direct f, f) else
  let! d := openDirect img ino in
  Ok (d, with_direct f d).

(** ** [file.Read], [file.WriteTo], [readAll] *)

(** What a call to [Read] did: the bytes it put in [p], its error. *)
Record read_result := mkRead { rd_data : bytes; rd_err : option goerr }.

(** The block loop of [Read]: [n] is what is left of [p]. *)
Fixpoint read_blocks (fuel : nat) (img : image) (fi : inode) (offset n : Z) (acc : bytes)
  : res (read_result * Z) :=
  if n <=? 0 then Ok (mkRead acc None, offset) else
  if ino_size fi <=? offset then Ok (mkRead acc (Some EOF), offset) else
  match fuel with
  | O => Panic
  | S fuel =>
      match loadBlock img fi offset with
      | Panic => Panic
      | Err e => Ok (mkRead acc (Some (if errors_Is e EOF then EOF else e)), offset)
      | Ok buf =>
          let copied := take (Z.to_nat n) buf in
          read_blocks fuel img fi (offset + zlen copied) (n - zlen copied) (acc ++ copied)
      end
  end.

Definition Read (img : image) (f : file) (n : Z) : res (read_result * file) :=
  match readInfo img f with
  | (Panic, _) => Panic
  | (Err e, f) => Ok (mkRead [] (Some e), f)
  | (Ok fi, f) =>
      let! (sr, f) := directReader img f fi in
      match sr with
      | Some sr =>
          if ino_size fi <=? f_offset f then Ok (mkRead [] (Some EOF), f) else
          let n := Z.min n (ino_size fi - f_offset f) in
          let '(b, err) := ReadAt sr (f_offset f) n in
          let err := match err with
                     | Some e => if errors_Is e EOF && (zlen b =? n) then None else Some e
                     | None => None end in
          Ok (mkRead b err, with_offset f (f_offset f + zlen b))
      | None =>
          let! (r, off) := read_blocks (Z.to_nat n) img fi (f_offset f) n [] in
          Ok (r, with_offset f off)
      end
  end.

(** [io.ReadFull(f, buf)]: read until the buffer is full or an error; an [EOF]
    before the first byte stays [EOF], a later one is [ErrUnexpectedEOF]. *)
Fixpoint ReadFull (fuel : nat) (img : image) (f : file) (n : Z) (acc : bytes)
  : res (read_result * file) :=
  if n <=? zlen acc then Ok (mkRead acc None, f) else
  match fuel with
  | O => Panic
  | S fuel =>
      let! (r, f) := Read img f (n - zlen acc) in
      let acc := acc ++ rd_data r in
      match rd_err r with
      | None => ReadFull fuel img f n acc
      | Some e =>
          if n <=? zlen acc then Ok (mkRead acc None, f)
          else if bool_decide (e = EOF) && (0 <? zlen acc)
               then Ok (mkRead acc (Some ErrUnexpectedEOF), f)
          else Ok (mkRead acc (Some e), f)
      end
  end.

(** [readAll(f, buf)] with [len(buf) = n]: the filled buffer. *)
Definition readAll (img : image) (f : file) (n : Z) : res bytes :=
  if n =? 0 then Ok [] else
  let! (r, _) := ReadFull (Z.to_nat n) img f n [] in
  match rd_err r with
  | Some e => if errors_Is e EOF || errors_Is e ErrUnexpectedEOF then Err ErrCorrupt else Err e
  | None => Ok (rd_data r)
  end.

(** The block loop of [WriteTo] into a writer that accepts everything. *)
Fixpoint write_blocks (fuel : nat) (img : image) (fi : inode) (offset : Z) (acc : bytes)
  : res (read_result * Z) :=
  if ino_size fi <=? offset then Ok (mkRead acc None, offset) else
  match fuel with
  | O => Panic
  | S fuel =>
      match loadBlock img fi offset with
      | Panic => Panic
      | Err e => Ok (mkRead acc (if errors_Is e EOF then None else Some e), offset)
      | Ok buf => write_blocks fuel img fi (offset + zlen buf) (acc ++ buf)
      end
  end.

(** ** Data ranges *)

Record DataRange := mkDataRange { dr_Device : Z; dr_Offset : Z; dr_Size : Z }.

Definition holeOffset : Z := -1.

Definition flatPlainRange (img : image) (ino : inode) (dst : list DataRange) : res (list DataRange) :=
  if nullAddress ino then Ok (dst ++ [mkDataRange 0 holeOffset (ino_size ino)]) else
  let! (dev, off) := locateStart img ino (ino_size ino) in
  Ok (dst ++ [mkDataRange dev off (ino_size ino)]).

(** One step of the loop of [buildChunkDataRanges]: the chunk's size and its
    index entry added to the ranges so far. *)
Definition merge_hole (size : Z) (ranges : list DataRange) : list DataRange :=
  match last ranges with
  | Some prev =>
      if dr_Offset prev =? holeOffset
      then removelast ranges ++ [mkDataRange (dr_Device prev) (dr_Offset prev) (dr_Size prev + size)]
      else ranges ++ [mkDataRange 0 holeOffset size]
  | None => ranges ++ [mkDataRange 0 holeOffset size]
  end.

Definition merge_data (dev off size : Z) (ranges : list DataRange) : list DataRange :=
  match last ranges with
  | Some prev =>
      if negb (dr_Offset prev =? holeOffset) && (dr_Device prev =? dev) &&
         (i64 (dr_Offset prev + dr_Size prev) =? off)
      then removelast ranges ++ [mkDataRange (dr_Device prev) (dr_Offset prev) (dr_Size prev + size)]
      else ranges ++ [mkDataRange dev off size]
  | None => ranges ++ [mkDataRange dev off size]
  end.

Definition chunk_step (img : image) (indexed : bool) (entry : bytes) (size : Z)
  (ranges : list DataRange) : res (list DataRange) :=
  let deviceID := if indexed then Z.land (get16 entry 2) (img_deviceIDMask img) else 0 in
  let blkLo := if indexed then get32 entry 4 else get32 entry 0 in
  if blkLo =? 2 ^ 32 - 1 then Ok (merge_hole size ranges) else
  let! byteOffset := chunkAddr img blkLo in
  let! (dev, byteOffset) := locate img deviceID byteOffset in
  let! _ := boundOnDevice img dev byteOffset size in
  Ok (merge_data dev byteOffset size ranges).

Fixpoint chunk_loop (img : image) (indexed : bool) (idxBuf : bytes) (unit chunkSize fileSize nchunks : Z)
  (n : nat) (i : Z) (ranges : list DataRange) : res (list DataRange) :=
  match n with
  | O => Ok ranges
  | S n =>
      let size := if i =? nchunks - 1 then fileSize - i * chunkSize else chunkSize in
      let entry := sub idxBuf (Z.to_nat (i * unit)) (Z.to_nat unit) in
      let! ranges := chunk_step img indexed entry size ranges in
      chunk_loop img indexed idxBuf unit chunkSize fileSize nchunks n (i + 1) ranges
  end.

Definition buildChunkDataRanges (img : image) (ino : inode) : res (list DataRange) :=
  let chunkFmt := u16 (ino_inodeData ino) in
  reject negb (Z.land chunkFmt LayoutChunkFormat48Bit =? 0) with ErrNotImplemented ;;
  let chunkBits := chunk_bits img chunkFmt in
  let nchunks := Z.shiftr (ino_size ino - 1) chunkBits + 1 in
  let chunkSize := Z.shiftl 1 chunkBits in
  let indexed := chunk_indexed chunkFmt in
  let unit := if indexed then SizeChunkIndex else 4 in
  let baseOffset := chunk_base img ino chunkFmt in
  let needed := i64 (nchunks * unit) in
  reject negb (chunkIndexFits img baseOffset needed) with ErrCorrupt ;;
  let '(idxBuf, err) := ReadAt (img_meta img) baseOffset needed in
  match err with
  | Some e => Err e
  | None => chunk_loop img indexed idxBuf unit chunkSize (ino_size ino) nchunks (Z.to_nat nchunks) 0 []
  end.

Definition buildDataRanges (img : image) (ino : inode) (dst : list DataRange) : res (list DataRange) :=
  let blockSize := Z.shiftl 1 (img_bits img) in
  let layout := ino_inodeLayout ino in
  if layout =? LayoutFlatPlain then flatPlainRange img ino dst
  else if layout =? LayoutFlatInline then
    let inodeAddr := i64 (metaStartPos img + i64 (i64 (ino_nid ino) * SizeInodeCompact)) in
    let trailingAddr := i64 (inodeAddr + flatDataOffset ino) in
    if ino_size ino <=? blockSize then
      let! _ := checkImageRange img trailingAddr (ino_size ino) in
      Ok (dst ++ [mkDataRange 0 trailingAddr (ino_size ino)])
    else
      let headSize := Z.quot (ino_size ino - 1) blockSize * blockSize in
      let tailSize := ino_size ino - headSize in
      let! dst :=
        (if 0 <? headSize then
           let! (dev, off) := locateStart img ino headSize in
           Ok (dst ++ [mkDataRange dev off headSize])
         else Ok dst) in
      let! _ := checkImageRange img trailingAddr tailSize in
      Ok (dst ++ [mkDataRange 0 trailingAddr tailSize])
  else if layout =? LayoutChunkBased then buildChunkDataRanges img ino
  else Ok [].

(** The rest of a file through the direct reader, as [io.Copy] moves it: 32 KiB
    at a time, an [EOF] ending the copy. *)
Fixpoint copy_section (fuel : nat) (sr : ReaderAt) (off endp : Z) (acc : bytes) : res read_result :=
  if endp <=? off then Ok (mkRead acc None) else
  match fuel with
  | O => Panic
  | S fuel =>
      let '(b, err) := ReadAt sr off (Z.min 32768 (endp - off)) in
      match err with
      | None => copy_section fuel sr (off + zlen b) endp (acc ++ b)
      | Some e => Ok (mkRead (acc ++ b) (if bool_decide (e = EOF) then None else Some e))
      end
  end.

(** [WriteTo] into a writer that accepts everything: what it was given. *)
Definition WriteTo (img : image) (f : file) : res (read_result * file) :=
  match readInfo img f with
  | (Panic, _) => Panic
  | (Err e, f) => Ok (mkRead [] (Some e), f)
  | (Ok fi, f) =>
      if ino_size fi <=? f_offset f then Ok (mkRead [] None, f) else
      let! (sr, f) := directReader img f fi in
      match sr with
      | Some sr =>
          let! r := copy_section (Z.to_nat (ino_size fi)) sr (f_offset f) (ino_size fi) [] in
          Ok (r, with_offset f (f_offset f + zlen (rd_data r)))
      | None =>
          let! (r, off) := write_blocks (Z.to_nat (ino_size fi)) img fi (f_offset f) [] in
          Ok (r, with_offset f off)
      end
  end.

(** ** Arithmetic of blocks *)

Lemma shiftl1 k : 0 <= k -> Z.shiftl 1 k = 2 ^ k.
Proof. intros. rewrite Z.shiftl_mul_pow2 by done. lia. Qed.

Lemma calculateBlocks_ceil k size :
  0 <= k -> 0 <= size ->
  let n := calculateBlocks k size in (n - 1) * 2 ^ k < size \/ n = 0 /\ size = 0.
Proof.
  intros Hk Hs n. subst n. unfold calculateBlocks.
  rewrite Z.shiftr_div_pow2, Z.shiftl_mul_pow2 by done.
  pose proof (Z.pow_pos_nonneg 2 k ltac:(lia) Hk) as Hp.
  pose proof (Z.div_mod size (2 ^ k) ltac:(lia)) as E.
  pose proof (Z.mod_pos_bound size (2 ^ k) Hp).
  destruct (Z.ltb_spec (size / 2 ^ k * 2 ^ k) size).
  - left. replace (size / 2 ^ k + 1 - 1) with (size / 2 ^ k) by lia. lia.
  - assert (size mod 2 ^ k = 0) by lia.
    destruct (Z.eq_dec size 0) as [->|]; [right; split; [apply Z.div_0_l; lia|done]|].
    left. nia.
Qed.

Lemma calculateBlocks_upper k size :
  0 <= k -> 0 <= size -> size <= calculateBlocks k size * 2 ^ k.
Proof.
  intros Hk Hs. unfold calculateBlocks.
  rewrite Z.shiftr_div_pow2, Z.shiftl_mul_pow2 by done.
  pose proof (Z.pow_pos_nonneg 2 k ltac:(lia) Hk) as Hp.
  pose proof (Z.div_mod size (2 ^ k) ltac:(lia)) as E.
  pose proof (Z.mod_pos_bound size (2 ^ k) Hp).
  destruct (Z.ltb_spec (size / 2 ^ k * 2 ^ k) size); nia.
Qed.

Lemma calculateBlocks_pos k size pos :
  0 <= k -> 0 <= pos < size -> pos / 2 ^ k < calculateBlocks k size.
Proof.
  intros Hk Hp. pose proof (calculateBlocks_upper k size Hk ltac:(lia)).
  pose proof (Z.pow_pos_nonneg 2 k ltac:(lia) Hk).
  apply Z.div_lt_upper_bound; nia.
Qed.

(** How much of a file one load at [pos] covers: to the end of the block, or
    of the file. *)
Definition block_span (img : image) (fi : inode) (pos : Z) : Z :=
  Z.min (2 ^ img_bits img - pos mod 2 ^ img_bits img) (ino_size fi - pos).

Lemma block_span_pos img fi pos :
  9 <= img_bits img <= 16 -> 0 <= pos < ino_size fi -> 0 < block_span img fi pos.
Proof.
  intros Hb Hp. unfold block_span. pose proof (pow2_bits _ Hb).
  pose proof (Z.mod_pos_bound pos (2 ^ img_bits img) ltac:(lia)). lia.
Qed.

(** The end of the block in [loadBlock]'s plain and chunk cases. *)
Lemma block_end_span img fi pos :
  9 <= img_bits img <= 16 -> 0 <= pos < ino_size fi ->
  let bs := 2 ^ img_bits img in
  let bn := pos / bs in
  let nb := calculateBlocks (img_bits img) (ino_size fi) in
  (if bn =? nb - 1 then ino_size fi - bn * bs else bs) - pos mod bs = block_span img fi pos.
Proof.
  intros Hb Hp bs bn nb. unfold block_span. fold bs.
  pose proof (pow2_bits _ Hb) as Hbs. fold bs in Hbs.
  pose proof (Z.mod_pos_bound pos bs ltac:(lia)).
  pose proof (Z.div_mod pos bs ltac:(lia)) as E. fold bn in E.
  pose proof (calculateBlocks_upper (img_bits img) (ino_size fi) ltac:(lia) ltac:(lia)) as Hu.
  pose proof (calculateBlocks_ceil (img_bits img) (ino_size fi) ltac:(lia) ltac:(lia)) as Hc.
  pose proof (calculateBlocks_pos (img_bits img) (ino_size fi) pos ltac:(lia) Hp) as Hn.
  fold nb bs in Hu, Hc, Hn. fold bn in Hn. cbn zeta in Hc.
  destruct (Z.eqb_spec bn (nb - 1)) as [En|En]; [nia|].
  assert (bn * bs + bs <= (nb - 1) * bs) by nia. destruct Hc as [Hc|[Hc ?]]; nia.
Qed.

(** ** A loaded block is the rest of its block, and loading never panics *)

Lemma read_exact_len r s n b : read_exact r s n = Ok b -> zlen b = n.
Proof.
  unfold read_exact. destruct (ReadAt r s n) as [x err]. intros H.
  steps_in H. apply Ok_inj in H. by subst.
Qed.

Lemma read_exact_no_panic r s n : no_panic (read_exact r s n).
Proof. unfold no_panic, read_exact. repeat case_match; congruence. Qed.

Lemma holeBlock_len a b : a <= b -> zlen (holeBlock a b) = b - a.
Proof. intros. unfold holeBlock, zeros. rewrite zlen_replicate. lia. Qed.

Lemma deviceReader_ok img dev :
  0 <= dev <= zlen (img_devices img) -> exists r, deviceReader img dev = Ok r.
Proof.
  intros H. unfold deviceReader. destruct (Z.eqb_spec dev 0); [by eexists|].
  destruct (lookup_lt_is_Some_2 (img_devices img) (Z.to_nat (dev - 1))) as [d Hd];
    [unfold zlen in *; lia|].
  rewrite Hd. rewrite (proj2 (Z.ltb_ge _ _)) by lia. by eexists.
Qed.

Lemma placed_dev_range img pa dev off :
  placed img pa dev off -> 0 <= dev <= zlen (img_devices img).
Proof.
  intros [[-> _]|(d & H1 & H2 & _)]; [pose proof (zlen_nonneg (img_devices img)); lia|].
  apply lookup_lt_Some in H2. unfold zlen. lia.
Qed.

Lemma locateRange_no_panic img pa n : no_panic (locateRange img pa n).
Proof.
  unfold no_panic, locateRange. case_match; [congruence|].
  assert (G : forall devs i, locateRange_devs img devs i pa n <> Panic).
  { induction devs as [|d devs IH]; intros i; cbn [locateRange_devs].
    - unfold checkImageRange. repeat case_match; congruence.
    - repeat case_match; try congruence; apply IH. }
  apply G.
Qed.

Lemma locate_dev_range img deviceID pa dev off :
  image_wf img -> 0 <= deviceID -> locate img deviceID pa = Ok (dev, off) ->
  0 <= dev <= zlen (img_devices img).
Proof.
  intros Hwf Hd H. destruct (Z.eq_dec deviceID 0) as [->|].
  - eapply placed_dev_range, locate_primary_sound; eauto.
  - unfold locate in H. rewrite (proj2 (Z.ltb_lt _ _)) in H by lia. steps_in H.
    apply Ok_inj in H. injection H as <- <-. lia.
Qed.

Lemma locate_no_panic img deviceID pa : no_panic (locate img deviceID pa).
Proof.
  unfold no_panic, locate. case_match; [case_match; congruence|].
  assert (G : forall devs i, locate_devs img devs i pa <> Panic).
  { induction devs as [|d devs IH]; intros i; cbn [locate_devs];
      repeat case_match; try congruence; apply IH. }
  apply G.
Qed.

Lemma boundOnDevice_no_panic img dev off n :
  0 <= dev -> no_panic (boundOnDevice img dev off n).
Proof.
  intros Hd. unfold no_panic, boundOnDevice, checkImageRange.
  destruct (Z.eqb_spec dev 0); [repeat case_match; congruence|].
  destruct (Z.ltb_spec (zlen (img_devices img)) dev); [congruence|].
  destruct (lookup_lt_is_Some_2 (img_devices img) (Z.to_nat (dev - 1))) as [d ->];
    [unfold zlen in *; lia|].
  repeat case_match; congruence.
Qed.

Lemma locateRange_agrees_dev img pa n dev off :
  image_wf img -> 0 < n -> locateRange img pa n = Ok (dev, off) ->
  exists r, deviceReader img dev = Ok r.
Proof.
  intros Hwf Hn H. apply deviceReader_ok. eapply placed_dev_range.
  eapply locateRange_facts; eauto.
Qed.

Lemma bad_bounds_false bs o e :
  bad_bounds bs o e = false -> 0 <= o < e /\ e <= bs.
Proof. unfold bad_bounds. intros H. zbool. lia. Qed.

Lemma loadBlock_read_len img addr o e d b :
  loadBlock_read img addr o e d = Ok b -> zlen b = e - o /\ 0 <= o < e.
Proof.
  unfold loadBlock_read. intros H. step_in H. apply bad_bounds_false in E.
  split; [|lia]. repeat step_in H; by eapply read_exact_len.
Qed.

Lemma loadBlock_read_no_panic img addr o e d :
  image_wf img -> no_panic (loadBlock_read img addr o e d).
Proof.
  intros Hwf. unfold no_panic, loadBlock_read. case_match eqn:E; [congruence|].
  apply bad_bounds_false in E. destruct d.
  - destruct (locateRange img (i64 (addr + o)) (e - o)) as [[dev off]|err|] eqn:El;
      [|congruence|by apply locateRange_no_panic in El].
    destruct (locateRange_agrees_dev img (i64 (addr + o)) (e - o) dev off) as [r Hr]; auto; [lia|].
    rewrite Hr. apply read_exact_no_panic.
  - destruct (checkImageRange img (i64 (addr + o)) (e - o)) eqn:Ec; try congruence.
    + apply read_exact_no_panic.
    + unfold checkImageRange in Ec. repeat case_match; congruence.
Qed.

Lemma chunk_entry_dev img unit entry addr did :
  chunk_entry img unit entry = Ok (addr, did) -> 0 <= did.
Proof.
  unfold chunk_entry. intros H.
  assert (0 <= Z.land (get16 entry 2) (img_deviceIDMask img)).
  { apply Z.land_nonneg. left. apply get16_range. }
  repeat step_in H; apply Ok_inj in H; injection H as <- <-; lia.
Qed.

Lemma chunk_entry_no_panic img unit entry : no_panic (chunk_entry img unit entry).
Proof. unfold no_panic, chunk_entry, chunkAddr. repeat case_match; congruence. Qed.

Lemma loadBlock_chunk_len img fi pos bn nb w :
  loadBlock_chunk img fi pos bn nb = Ok w ->
  zlen w = (if bn =? nb - 1 then ino_size fi - bn * Z.shiftl 1 (img_bits img)
            else Z.shiftl 1 (img_bits img)) - Z.rem pos (Z.shiftl 1 (img_bits img)).
Proof.
  unfold loadBlock_chunk. intros H.
  do 3 (step_in H). destruct (ReadAt _ _ _) as [entry rerr]. step_in H. step_in H.
  destruct a0 as [addr did]. step_in H. apply bad_bounds_false in E4. step_in H.
  - apply Ok_inj in H. subst w. apply holeBlock_len. lia.
  - step_in H. destruct a0 as [dev mapped]. step_in H. step_in H. by eapply read_exact_len.
Qed.

Lemma loadBlock_chunk_no_panic img fi pos bn nb :
  image_wf img -> no_panic (loadBlock_chunk img fi pos bn nb).
Proof.
  intros Hwf. unfold no_panic, loadBlock_chunk.
  do 3 (case_match; [congruence|]). destruct (ReadAt _ _ _) as [entry rerr].
  destruct rerr; [congruence|]. destruct (negb (zlen entry =? _)); [congruence|].
  destruct (chunk_entry _ _ _) as [[addr did]| |] eqn:Ee;
    [|congruence|by apply chunk_entry_no_panic in Ee].
  apply chunk_entry_dev in Ee. destruct (bad_bounds _ _ _); [congruence|].
  destruct (addr =? -1); [congruence|].
  match goal with |- context [locate img did ?a] => generalize a end. intros pa.
  destruct (locate img did pa) as [[dev mapped]| |] eqn:El;
    [|congruence|by apply locate_no_panic in El].
  apply locate_dev_range in El; [|done..].
  match goal with |- context [boundOnDevice img dev ?o ?n] =>
    destruct (boundOnDevice img dev o n) eqn:Eb end;
    [|congruence|apply boundOnDevice_no_panic in Eb; [done|lia]].
  destruct (deviceReader_ok img dev El) as [r ->]. apply read_exact_no_panic.
Qed.

Lemma loadBlock_window_len img fi pos w :
  image_wf img -> 0 <= pos < ino_size fi ->
  loadBlock img fi pos = Ok w -> zlen w = block_span img fi pos.
Proof.
  intros Hwf Hp H. pose proof (wf_bits img Hwf) as Hb. pose proof (pow2_bits _ Hb) as Hbs.
  pose proof (block_end_span img fi pos Hb Hp) as Hend. cbn zeta in Hend.
  unfold loadBlock in H. rewrite Z.shiftr_div_pow2 in H by lia. step_in H.
  set (bn := pos / 2 ^ img_bits img) in *.
  set (nb := calculateBlocks (img_bits img) (ino_size fi)) in *.
  pose proof (Z.div_mod pos (2 ^ img_bits img) ltac:(lia)) as Ed. fold bn in Ed.
  repeat step_in H.
  - unfold loadBlock_plain in H. rewrite shiftl1 in H by lia.
    rewrite Z.rem_mod_nonneg in H by lia. step_in H.
    + step_in H. apply bad_bounds_false in E2. apply Ok_inj in H. subst w.
      rewrite holeBlock_len by lia. done.
    + step_in H. apply loadBlock_read_len in H. lia.
  - unfold loadBlock_inline in H. rewrite shiftl1 in H by lia. step_in H.
    + step_in H. apply loadBlock_read_len in H as [-> _].
      rewrite Z.shiftl_mul_pow2 by lia. cbn in Hend. lia.
    + step_in H. apply loadBlock_read_len in H as [-> _].
      rewrite Z.rem_mod_nonneg by lia. done.
  - apply loadBlock_chunk_len in H. rewrite shiftl1 in H by lia.
    rewrite Z.rem_mod_nonneg in H by lia. lia.
Qed.

Lemma loadBlock_no_panic img fi pos : image_wf img -> no_panic (loadBlock img fi pos).
Proof.
  intros Hwf. unfold no_panic, loadBlock. destruct (_ <=? _); [congruence|].
  destruct (_ =? LayoutFlatPlain); [|destruct (_ =? LayoutFlatInline);
    [|destruct (_ =? LayoutChunkBased); [|destruct (_ || _); congruence]]].
  - unfold loadBlock_plain. destruct (nullAddress fi); [destruct (bad_bounds _ _ _); congruence|].
    unfold blockAddr. destruct (_ <? _); [congruence|]. by apply loadBlock_read_no_panic.
  - unfold loadBlock_inline. destruct (_ =? _ - 1).
    + destruct (_ <? _); [congruence|]. by apply loadBlock_read_no_panic.
    + unfold blockAddr. destruct (_ <? _); [congruence|]. by apply loadBlock_read_no_panic.
  - by apply loadBlock_chunk_no_panic.
Qed.

(** A call that does not panic either answers or reports an error. *)
Inductive answered {A} (r : res A) : Prop :=
| answered_ok (a : A) (H : r = Ok a)
| answered_err (e : goerr) (H : r = Err e).

Lemma no_panic_answered {A} (r : res A) : no_panic r -> answered r.
Proof. destruct r; intros H; [by eapply answered_ok|by eapply answered_err|by destruct H]. Qed.

Lemma loadBlock_window_no_panic img fi pos : image_wf img -> answered (loadBlock img fi pos).
Proof. intros. by apply no_panic_answered, loadBlock_no_panic. Qed.

(** C37: loading a block never panics, whatever the image holds, and a load
    that succeeds yields exactly the bytes from the position to the end of
    its block or of the file: never an empty window, so a read loop advances. *)
Theorem loadBlock_window img fi pos :
  image_wf img -> 0 <= pos < ino_size fi ->
  no_panic (loadBlock img fi pos) /\
  forall w, loadBlock img fi pos = Ok w ->
    zlen w = Z.min (2 ^ img_bits img - pos mod 2 ^ img_bits img) (ino_size fi - pos) /\ 0 < zlen w.
Proof.
  intros Hwf Hp. split; [by apply loadBlock_no_panic|].
  intros w H. rewrite (loadBlock_window_len img fi pos w Hwf Hp H).
  split; [done|]. apply block_span_pos; [apply Hwf|done].
Qed.

(** A 5000-byte flat-plain file at block 1 of [example_img]. *)
Definition example_ino : inode :=
  {| ino_name := bs "f"; ino_nid := 0; ino_icsize := 32; ino_xsize := 0;
     ino_inodeLayout := LayoutFlatPlain; ino_inodeData := 1; ino_startHi := 0;
     ino_addr48 := false; ino_size := 5000; ino_mode := 0x1A4; ino_rawMode := 0x81A4;
     ino_uid := 0; ino_gid := 0; ino_nlink := 1; ino_mtime := 0; ino_mtimeNs := 0 |}.

Lemma loadBlock_window_witness :
  no_panic (loadBlock example_img example_ino 4100) /\
  exists w, loadBlock example_img example_ino 4100 = Ok w /\ zlen w = 900.
Proof.
  destruct (loadBlock_window example_img example_ino 4100 example_img_wf ltac:(by cbn)) as [H1 H2].
  split; [exact H1|].
  destruct (loadBlock example_img example_ino 4100) as [w| |] eqn:E.
  - exists w. split; [done|]. destruct (H2 w eq_refl) as [-> _]. reflexivity.
  - exfalso. vm_compute in E. discriminate E.
  - exfalso. by apply H1.
Defined.

(** ** Reading: progress and termination *)

(** The block loop with fuel for every byte asked: it ends, accounts for every
    byte it returns in the offset, fills the request unless it reports an
    error, and never moves past the end of the file. *)
Lemma read_blocks_spec img fi :
  image_wf img -> forall fuel offset n acc,
  0 <= offset -> 0 <= n <= Z.of_nat fuel ->
  exists d err, read_blocks fuel img fi offset n acc = Ok (mkRead (acc ++ d) err, offset + zlen d) /\
    zlen d <= n /\ (err = None -> zlen d = n) /\
    (offset + zlen d <= Z.max offset (ino_size fi)) /\
    (err = Some EOF -> offset + zlen d < ino_size fi ->
       exists p, loadBlock img fi p = Err EOF).
Proof.
  intros Hwf. induction fuel as [|fuel IH]; intros offset n acc Ho Hn; cbn [read_blocks].
  - exists [], None. change (zlen (@nil Byte.byte)) with 0. rewrite app_nil_r. rewrite (proj2 (Z.leb_le n 0)) by lia.
    rewrite Z.add_0_r. split; [done|]. split; [lia|]. split; [lia|]. split; [lia|done].
  - destruct (Z.leb_spec n 0).
    { exists [], None. change (zlen (@nil Byte.byte)) with 0; rewrite app_nil_r, Z.add_0_r. split; [done|].
      split; [lia|]. split; [lia|]. split; [lia|done]. }
    destruct (Z.leb_spec (ino_size fi) offset).
    { exists [], (Some EOF). change (zlen (@nil Byte.byte)) with 0; rewrite app_nil_r, Z.add_0_r. split; [done|].
      split; [lia|]. split; [done|]. split; lia. }
    destruct (loadBlock_window_no_panic img fi offset Hwf) as [w Hw|e He].
    + rewrite Hw. pose proof (loadBlock_window_len img fi offset w Hwf ltac:(lia) Hw) as Hl.
      pose proof (block_span_pos img fi offset (wf_bits img Hwf) ltac:(lia)) as Hsp.
      assert (Hs : block_span img fi offset <= ino_size fi - offset) by (unfold block_span; lia).
      set (c := take (Z.to_nat n) w).
      assert (Hc : zlen c = Z.min n (block_span img fi offset)).
      { unfold c, zlen in *. rewrite length_take. lia. }
      destruct (IH (offset + zlen c) (n - zlen c) (acc ++ c)) as (d & err & E & H1 & H2 & H3 & H4);
        [lia|lia|].
      exists (c ++ d), err. rewrite E, zlen_app, app_assoc, Z.add_assoc.
      split; [done|]. split; [lia|]. split; [intros Hx; apply H2 in Hx; lia|]. split; [lia|].
      intros Hx Hy. apply (H4 Hx). lia.
    + rewrite He. exists [], (Some (if errors_Is e EOF then EOF else e)).
      change (zlen (@nil Byte.byte)) with 0; rewrite app_nil_r, Z.add_0_r. split; [done|]. split; [lia|]. split; [done|].
      split; [lia|]. intros Hx _. exists offset. rewrite He. f_equal.
      destruct e; vm_compute in Hx; congruence.
Qed.

(** ** The direct path answers what the block path answers *)

Lemma section_read_exact r base n pos len :
  base + n <= MaxInt64 -> 0 <= pos < n -> pos + len <= n ->
  read_exact (NewSectionReader r base n) pos len = read_exact r (base + pos) len.
Proof.
  intros Hb Hp Hl. unfold read_exact, NewSectionReader. cbn [ReadAt].
  rewrite (proj2 (Z.leb_le base (MaxInt64 - n))) by lia. rewrite (proj2 (Z.ltb_ge pos 0)) by lia.
  rewrite (proj2 (Z.leb_gt _ pos)) by lia. cbn [orb].
  rewrite (proj2 (Z.ltb_ge _ len)) by lia. by rewrite (Z.add_comm pos base).
Qed.

Lemma blockAddr_eq img blk pa :
  image_wf img -> 0 <= blk -> blockAddr img blk = Ok pa ->
  pa = blk * 2 ^ img_bits img /\ 0 <= pa <= MaxInt64.
Proof.
  intros Hwf Hb H. unfold blockAddr in H. pose proof (wf_bits img Hwf) as Hbits.
  pose proof (pow2_bits _ Hbits). step_in H. apply Ok_inj in H. subst pa. zbool.
  rewrite Z.shiftr_div_pow2 in E by lia.
  pose proof (Z.mul_div_le MaxInt64 (2 ^ img_bits img) ltac:(lia)).
  unfold MaxInt64 in *. rewrite (i64_id blk) by nia.
  rewrite Z.shiftl_mul_pow2 by lia. rewrite i64_id by nia. split; [done|]. nia.
Qed.

Lemma blockAddr_ok img blk :
  image_wf img -> 0 <= blk -> blk * 2 ^ img_bits img <= MaxInt64 ->
  blockAddr img blk = Ok (blk * 2 ^ img_bits img).
Proof.
  intros Hwf Hb H. pose proof (wf_bits img Hwf) as Hbits. pose proof (pow2_bits _ Hbits).
  unfold blockAddr. rewrite Z.shiftr_div_pow2 by lia.
  rewrite (proj2 (Z.ltb_ge _ _)) by (apply Z.div_le_lower_bound; lia).
  unfold MaxInt64 in *. rewrite (i64_id blk) by nia. rewrite Z.shiftl_mul_pow2 by lia.
  by rewrite i64_id by nia.
Qed.

Lemma startBlock_range img ino : inode_wf img ino -> 0 <= startBlock ino < 2 ^ 48.
Proof.
  intros W. pose proof (wf_data _ _ W) as H1. pose proof (wf_startHi _ _ W) as H2.
  unfold is_u32, is_u16, startBlock, startBlockBits32 in *. rewrite Z.shiftl_mul_pow2 by lia.
  rewrite u64_id by (unfold is_u64; lia).
  assert (Hor : forall a b, 0 <= a < 2 ^ 48 -> 0 <= b < 2 ^ 48 -> 0 <= Z.lor a b < 2 ^ 48).
  { intros a b Ha Hb. split; [apply Z.lor_nonneg; lia|].
    destruct (Z.eq_dec (Z.lor a b) 0) as [->|Hz]; [lia|].
    assert (0 <= Z.lor a b) by (apply Z.lor_nonneg; lia).
    apply Z.log2_lt_pow2; [lia|]. rewrite Z.log2_lor by lia.
    apply Z.max_lub_lt.
    - destruct (Z.eq_dec a 0) as [->|]; [done|]. apply Z.log2_lt_pow2; lia.
    - destruct (Z.eq_dec b 0) as [->|]; [done|]. apply Z.log2_lt_pow2; lia. }
  apply Hor; lia.
Qed.

(** The read at the end of a flat load, once the window is known to be sound. *)
Lemma loadBlock_read_data img addr o e dev off r :
  image_wf img -> 0 <= o < e -> e <= 2 ^ img_bits img -> 0 <= addr -> addr + e <= MaxInt64 ->
  locateRange img (addr + o) (e - o) = Ok (dev, off) -> deviceReader img dev = Ok r ->
  loadBlock_read img addr o e true = read_exact r off (e - o).
Proof.
  intros Hwf Ho He Ha Hm Hl Hr. unfold loadBlock_read.
  rewrite shiftl1 by (pose proof (wf_bits img Hwf); lia).
  replace (bad_bounds _ _ _) with false by (unfold bad_bounds; symmetry;
    rewrite !orb_false_iff, !Z.ltb_ge, Z.leb_gt; lia).
  rewrite i64_in_range by lia. by rewrite Hl, Hr.
Qed.

Lemma locateRange_shift img pa n dev off k m :
  image_wf img -> mapping_ok img -> 0 < n -> locateRange img pa n = Ok (dev, off) ->
  0 <= k -> 0 < m -> k + m <= n -> locateRange img (pa + k) m = Ok (dev, off + k).
Proof.
  intros Hwf Hmap Hn H Hk Hm Hkm.
  destruct (locateRange_facts img pa n dev off Hwf Hn H) as (L1 & L2 & L3 & L4).
  pose proof (map_size img Hmap) as Hs. unfold locateRange in H. steps_in H.
  apply locateRange_of_locate; auto; try lia.
  - apply locate_shift; auto; [lia|]. intros d Hd Hdev. specialize (L4 d Hdev Hd). lia.
  - intros ->. apply checkImageRange_spec; auto. pose proof (wf_size img Hwf). lia.
  - intros d Hdev Hd. specialize (L4 d Hdev Hd). lia.
Qed.

(** ** The chunk index, read whole and read entry by entry *)

(** The block address and the device of entry [j] of an index. *)
Definition idx_blk (idx : bytes) (j : Z) : Z := get32 idx (Z.to_nat (j * SizeChunkIndex) + 4).
Definition idx_dev (img : image) (idx : bytes) (j : Z) : Z :=
  Z.land (get16 idx (Z.to_nat (j * SizeChunkIndex) + 2)) (img_deviceIDMask img).

Lemma direct_chunks_spec img idx bpc n : forall i sb did s d,
  0 <= i -> direct_chunks img idx bpc n i sb did = Some (s, d) ->
  (0 < i -> s = sb /\ d = did) /\
  forall j, i <= j < i + Z.of_nat n ->
    idx_blk idx j <> 2 ^ 32 - 1 /\ idx_dev img idx j = d /\
    idx_blk idx j = if j =? 0 then s else u64 (s + u64 (j * bpc)).
Proof.
  induction n as [|n IH]; intros i sb did s d Hi H; cbn [direct_chunks] in H.
  - injection H as -> ->. split; [done|]. lia.
  - fold (idx_blk idx i) in H. fold (idx_dev img idx i) in H.
    destruct (Z.eqb_spec (idx_blk idx i) (2 ^ 32 - 1)) as [|Hb]; [done|].
    destruct (Z.eqb_spec i 0) as [->|Hi0].
    + apply IH in H as [Ha Hc]; [|lia]. destruct (Ha ltac:(lia)) as [-> ->].
      split; [lia|]. intros j Hj. destruct (Z.eq_dec j 0) as [->|Hj0]; [done|]. apply Hc. lia.
    + step_in H. zbool. apply IH in H as [Ha Hc]; [|lia].
      destruct (Ha ltac:(lia)) as [-> ->]. split; [done|]. intros j Hj.
      destruct (Z.eq_dec j i) as [->|]; [|apply Hc; lia].
      rewrite (proj2 (Z.eqb_neq _ _)) by done. auto.
Qed.

Lemma chunkAddr_u32 img blk :
  image_wf img -> is_u32 blk -> chunkAddr img blk = Ok (blk * 2 ^ img_bits img).
Proof.
  intros Hwf Hb. apply blockAddr_ok; auto; unfold is_u32 in *; [lia|].
  pose proof (pow2_bits _ (wf_bits img Hwf)). unfold MaxInt64. nia.
Qed.

Lemma chunk_bits_eq img fmt :
  image_wf img -> is_u16 fmt ->
  exists k, 0 <= k <= 31 /\ chunk_bits img fmt = img_bits img + k.
Proof.
  intros Hwf Hf. pose proof (wf_bits img Hwf). exists (Z.land fmt LayoutChunkFormatBits).
  assert (E : Z.land fmt LayoutChunkFormatBits = fmt mod 2 ^ 5)
    by (change LayoutChunkFormatBits with (2 ^ 5 - 1); by rewrite land_pow2_mask).
  unfold chunk_bits. rewrite E. pose proof (Z.mod_pos_bound fmt (2 ^ 5) ltac:(lia)).
  split; [lia|]. unfold u8. rewrite (Z.mod_small (fmt mod 2 ^ 5)) by lia. rewrite Z.mod_small; lia.
Qed.

(** What the placement of a chunk's first byte says of the others. *)
Lemma locate_within img did pa dev off n k :
  image_wf img -> mapping_ok img -> 0 <= did -> locate img did pa = Ok (dev, off) ->
  boundOnDevice img dev off n = Ok tt -> 0 <= k < n ->
  locate img did (pa + k) = Ok (dev, off + k).
Proof.
  intros Hwf Hmap Hd H Hb Hk. destruct (Z.eq_dec did 0) as [->|Hd0].
  - pose proof (locate_primary_sound img pa dev off Hwf H) as [Hp _].
    apply locate_shift; auto; [lia|..].
    + intros ->. destruct Hp as [[_ ->]|(d & ? & _)]; [|lia].
      cbn in Hb. apply checkImageRange_spec in Hb; auto. pose proof (map_size img Hmap). lia.
    + intros d Hlk Hdev. destruct Hp as [[-> _]|(d' & _ & Hlk' & Hm & _ & Ho)]; [lia|].
      rewrite Hlk in Hlk'. injection Hlk' as <-. unfold boundOnDevice in Hb.
      rewrite (proj2 (Z.eqb_neq _ _)) in Hb by lia. step_in Hb. step_in Hb. rewrite Hlk in Hb.
      apply list_elem_of_lookup_2 in Hlk as Hin.
      pose proof (map_extent img Hmap d Hin Hm) as Hx. zbool. rewrite i64_in_range in Hb by lia.
      unfold dev_length in *. destruct (Z.ltb_spec 0 (dev_size d)); [step_in Hb; zbool; lia|].
      destruct (Z.eqb_spec (dev_blocks d) 0) as [E2|]; [rewrite E2, Z.shiftl_0_l in Ho; change (i64 0) with 0 in Ho; lia|].
      step_in Hb. zbool. lia.
  - unfold locate in *. rewrite (proj2 (Z.ltb_lt 0 did)) in * by lia. step_in H.
    apply Ok_inj in H. injection H as -> ->. done.
Qed.

Section Direct.
Context (img : image) (ino : inode).
Context (Hwf : image_wf img) (Hmap : mapping_ok img) (Hino : inode_wf img ino).
Context (pos : Z) (Hpos : 0 <= pos < ino_size ino).

Lemma span_facts :
  let bs := 2 ^ img_bits img in let bn := pos / bs in
  let nb := calculateBlocks (img_bits img) (ino_size ino) in
  let e := if bn =? nb - 1 then ino_size ino - bn * bs else bs in
  512 <= bs <= 65536 /\ 0 <= bn < nb /\ pos = bn * bs + pos mod bs /\ 0 <= pos mod bs < bs /\
  e - pos mod bs = block_span img ino pos /\ 0 < block_span img ino pos /\ e <= bs /\
  bn * bs + e <= ino_size ino.
Proof using Hwf Hpos.
  intros bs bn nb e. pose proof (wf_bits img Hwf) as Hb. pose proof (pow2_bits _ Hb) as Hbs.
  pose proof (block_end_span img ino pos Hb Hpos) as He. cbn zeta in He.
  change (e - pos mod bs = block_span img ino pos) in He.
  pose proof (block_span_pos img ino pos Hb Hpos) as Hsp.
  pose proof (calculateBlocks_pos (img_bits img) (ino_size ino) pos ltac:(lia) Hpos).
  pose proof (Z.div_mod pos bs ltac:(lia)) as Ed. fold bn in Ed.
  pose proof (Z.mod_pos_bound pos bs ltac:(lia)).
  pose proof (Z.div_pos pos bs ltac:(lia) ltac:(lia)) as Hn. fold bn in Hn.
  unfold block_span in He, Hsp |- *. fold bs in Hbs, He, Hsp |- *. fold bs in H. fold bn nb in H.
  split; [lia|]. split; [lia|]. split; [lia|]. split; [lia|]. split; [lia|]. split; [lia|].
  split; lia.
Qed.

Lemma openDirect_plain_agrees sr :
  ino_inodeLayout ino = LayoutFlatPlain -> openDirect_plain img ino = Ok (Some sr) ->
  loadBlock img ino pos = read_exact sr pos (block_span img ino pos).
Proof using Hwf Hmap Hino Hpos.
  intros Hl H. unfold openDirect_plain in H. step_in H.
  destruct (locateStart img ino (ino_size ino)) as [[dev off]| |] eqn:El; [|discriminate..].
  step_in H. apply Ok_inj in H. injection H as <-.
  unfold locateStart in El. destruct (blockAddr img (startBlock ino)) as [pa| |] eqn:Eb; [|done..].
  pose proof (startBlock_range img ino Hino) as Hsb.
  destruct (blockAddr_eq img (startBlock ino) pa Hwf ltac:(lia) Eb) as [Epa Hpa].
  destruct span_facts as (F1 & F2 & F3 & F4 & F5 & F6 & F7 & F8).
  set (bs := 2 ^ img_bits img) in *. set (bn := pos / bs) in *.
  set (nb := calculateBlocks _ _) in *. set (e := if bn =? nb - 1 then _ else _) in *.
  pose proof (locateRange_shift img pa (ino_size ino) dev off pos (block_span img ino pos)
    Hwf Hmap ltac:(lia) El ltac:(lia) ltac:(lia) ltac:(unfold block_span; lia)) as Hs.
  assert (Hoff : 0 <= off /\ pa + ino_size ino <= MaxInt64 /\ off <= pa).
  { destruct (locateRange_facts img pa (ino_size ino) dev off Hwf ltac:(lia) El) as (_ & Hp & _).
    unfold locateRange in El. steps_in El.
    destruct Hp as [[-> ->]|(d & ? & Hd & ? & ? & ?)]; [lia|].
    destruct (dev_start_eq img Hwf d) as [_ ?]; [|lia].
    by apply (Forall_lookup_1 _ _ _ _ (wf_devs img Hwf) Hd). }
  rewrite section_read_exact by (unfold block_span in *; lia).
  unfold loadBlock. rewrite Z.shiftr_div_pow2 by (pose proof (wf_bits img Hwf); lia).
  fold bs. fold bn nb. rewrite (proj2 (Z.leb_gt nb bn)) by lia.
  rewrite Hl. cbn [Z.eqb LayoutFlatPlain]. unfold loadBlock_plain. rewrite E.
  rewrite shiftl1 by (pose proof (wf_bits img Hwf); lia). fold bs. fold e.
  rewrite Z.rem_mod_nonneg by lia. rewrite u64_id by (unfold is_u64, MaxInt64 in *; nia).
  rewrite blockAddr_ok; [|done|lia|fold bs; nia]. fold bs.
  rewrite <- F5.
  apply (loadBlock_read_data img _ _ _ dev); auto; try (fold bs; nia).
  rewrite F5. replace ((startBlock ino + bn) * bs + pos mod bs) with (pa + pos) by nia. done.
Qed.
Lemma inode_addr_eq :
  is_u64 (ino_nid ino) ->
  i64 (u64 (ino_nid ino * SizeInodeCompact)) = i64 (i64 (ino_nid ino) * SizeInodeCompact).
Proof using Hwf Hino.
  intros Hn. pose proof (wf_nid _ _ Hino) as H. unfold checkNid, MaxInt64, SizeInodeExtended in H.
  unfold is_u64 in Hn. unfold SizeInodeCompact in *. steps_in H.
  pose proof (Z.mul_div_le (2 ^ 63 - 1 - 64) 32 ltac:(lia)).
  rewrite (i64_id (ino_nid ino)) by lia. rewrite u64_id by (unfold is_u64; lia). done.
Qed.

Lemma openDirect_inline_agrees sr :
  is_u64 (ino_nid ino) ->
  ino_inodeLayout ino = LayoutFlatInline -> openDirect_inline img ino = Ok (Some sr) ->
  loadBlock img ino pos = read_exact sr pos (block_span img ino pos).
Proof using Hwf Hino Hpos.
  intros Hn Hl H. unfold openDirect_inline in H. rewrite <- inode_addr_eq in H by done.
  pose proof (wf_bits img Hwf) as Hbits.
  rewrite shiftl1 in H by lia. set (bs := 2 ^ img_bits img) in *.
  set (T := i64 (i64 (metaStartPos img + _) + _)) in *.
  steps_in H. apply Ok_inj in H. injection H as <-. destruct a.
  apply checkImageRange_spec in E1 as (C1 & C2 & C3 & C4); auto.
  destruct span_facts as (F1 & F2 & F3 & F4 & F5 & F6 & F7 & F8). fold bs in F1, F2, F3, F4, F5, F6, F7, F8.
  assert (Hsz : pos < bs) by lia.
  assert (Hbn : pos / bs = 0) by (apply Z.div_small; lia).
  assert (Hmod : pos mod bs = pos) by (apply Z.mod_small; lia).
  assert (Hnb : calculateBlocks (img_bits img) (ino_size ino) = 1).
  { destruct (calculateBlocks_ceil (img_bits img) (ino_size ino)) as [Hc|Hc]; [lia|lia| |lia].
    fold bs in Hc. pose proof (calculateBlocks_upper (img_bits img) (ino_size ino) ltac:(lia) ltac:(lia)) as Hu.
    fold bs in Hu. rewrite Hbn in F2. nia. }
  assert (Hspan : block_span img ino pos = ino_size ino - pos).
  { unfold block_span. fold bs. rewrite Hmod. lia. }
  rewrite section_read_exact by lia. rewrite Hspan.
  unfold loadBlock. rewrite Z.shiftr_div_pow2 by lia. fold bs. rewrite Hbn, Hnb, Hl.
  cbn [Z.leb Z.compare Z.eqb LayoutFlatInline LayoutFlatPlain Pos.eqb]. unfold loadBlock_inline.
  cbn [Z.eqb Z.sub Z.add Z.opp Z.pos_sub]. rewrite shiftl1 by lia. fold bs. fold T.
  pose proof (land_pow2_mask T (img_bits img) ltac:(lia)) as L1.
  pose proof (land_lnot_pow2 T (img_bits img) ltac:(lia)) as L2. fold bs in L1, L2.
  rewrite L1, L2 in *. pose proof (Z.mod_pos_bound T bs ltac:(lia)).
  pose proof (Z.mod_le T bs ltac:(lia) ltac:(lia)).
  rewrite Z.shiftl_0_l, Z.mul_0_l, !Z.sub_0_r.
  rewrite (proj2 (Z.ltb_ge bs _)) by lia. unfold loadBlock_read. rewrite shiftl1 by lia. fold bs.
  replace (bad_bounds _ _ _) with false by (unfold bad_bounds; symmetry;
    rewrite !orb_false_iff, !Z.ltb_ge, Z.leb_gt; lia).
  replace (i64 (T - T mod bs + (T mod bs + pos))) with (T + pos) by (symmetry; unfold MaxInt64 in *;
    rewrite i64_id by lia; lia).
  replace (ino_size ino + T mod bs - (T mod bs + pos)) with (ino_size ino - pos) by lia.
  rewrite (proj2 (checkImageRange_spec img (T + pos) (ino_size ino - pos) Hwf)) by lia. done.
Qed.
(** The reader of the metadata answers from fixed bytes, and reports no error
    with a full read. *)
Context (c : bytes) (Hback : Backed (img_meta img) c).
Context (Hfull : forall off n, 0 <= off -> 0 < n ->
  zlen (ReadAt (img_meta img) off n).1 = n -> (ReadAt (img_meta img) off n).2 = None).

(** A bulk read that reported no error holds what a read of one entry gives. *)
Lemma bulk_entry base n o m idx :
  0 <= base -> 0 <= o -> 0 < m -> o + m <= n ->
  ReadAt (img_meta img) base n = (idx, None) ->
  ReadAt (img_meta img) (base + o) m = (sub idx (Z.to_nat o) (Z.to_nat m), None) /\
  zlen (sub idx (Z.to_nat o) (Z.to_nat m)) = m.
Proof using Hback Hfull.
  intros Hb Ho Hm Hn H.
  pose proof (backed_bytes base n Hb ltac:(lia)) as B. rewrite H in B. cbn in B.
  assert (Hl : zlen idx = n).
  { destruct (Z.lt_ge_cases (zlen idx) n) as [Hlt|Hge].
    - pose proof (backed_short base n Hb ltac:(lia)) as S. rewrite H in S. cbn in S. by specialize (S Hlt).
    - subst idx. pose proof (zlen_sub_le c (Z.to_nat base) n ltac:(lia)). lia. }
  pose proof (backed_bytes (base + o) m ltac:(lia) ltac:(lia)) as B'.
  assert (Es : sub c (Z.to_nat (base + o)) (Z.to_nat m) = sub idx (Z.to_nat o) (Z.to_nat m)).
  { subst idx. rewrite sub_sub by lia. f_equal. lia. }
  assert (El : zlen (sub idx (Z.to_nat o) (Z.to_nat m)) = m).
  { unfold zlen in *. rewrite length_sub; lia. }
  split; [|done]. pose proof (Hfull (base + o) m ltac:(lia) ltac:(lia)) as F.
  destruct (ReadAt (img_meta img) (base + o) m) as [b e]. cbn in *. rewrite B', Es in *.
  by rewrite (F El).
Qed.

Lemma chunkIndexFits_range off n :
  chunkIndexFits img off n = true -> 0 <= off /\ 0 <= n <= 2 ^ 26 /\ off <= MaxInt64 - n.
Proof.
  unfold chunkIndexFits. change maxChunkIndexBytes with (2 ^ 26). intros H.
  repeat step_in H; zbool; lia.
Qed.

(** One block of a file whose chunks form one run from block [s] of device
    [did]: the bytes of the run at the position. *)
Lemma loadBlock_chunk_run s did dev mapped r idx fmt base :
  fmt = u16 (ino_inodeData ino) ->
  chunk_indexed fmt = true -> Z.land fmt LayoutChunkFormat48Bit = 0 ->
  andnot fmt (Z.lor LayoutChunkFormatBits LayoutChunkFormatIndexes) = 0 ->
  base = chunk_base img ino fmt ->
  let nchunks := Z.shiftr (ino_size ino - 1) (chunk_bits img fmt) + 1 in
  0 <= base -> base <= MaxInt64 - nchunks * 8 ->
  ReadAt (img_meta img) base (nchunks * 8) = (idx, None) ->
  (forall j, 0 <= j < nchunks -> idx_blk idx j <> 2 ^ 32 - 1 /\ idx_dev img idx j = did /\
     idx_blk idx j = s + j * 2 ^ (chunk_bits img fmt - img_bits img)) ->
  locate img did (s * 2 ^ img_bits img) = Ok (dev, mapped) ->
  boundOnDevice img dev mapped (ino_size ino) = Ok tt -> deviceReader img dev = Ok r -> 0 <= dev ->
  loadBlock_chunk img ino pos (pos / 2 ^ img_bits img)
    (calculateBlocks (img_bits img) (ino_size ino)) =
  read_exact r (mapped + pos) (block_span img ino pos).
Proof using Hwf Hmap Hpos Hback Hfull.
  intros Efmt Hidx H48 Hand Ebase nchunks Hb0 Hb1 Hread Hall Hloc Hbd Hr Hdev0.
  pose proof (wf_bits img Hwf) as Hbits.
  destruct (chunk_bits_eq img fmt Hwf ltac:(subst; apply Z.mod_pos_bound; lia)) as (k & Hk & Ecb).
  destruct span_facts as (F1 & F2 & F3 & F4 & F5 & F6 & F7 & F8).
  unfold loadBlock_chunk. rewrite <- Efmt, H48, Hand, Hidx, <- Ebase. cbn [negb Z.eqb].
  fold nchunks.
  assert (Hn : nchunks = (ino_size ino - 1) / 2 ^ (img_bits img + k) + 1)
    by (unfold nchunks; rewrite Ecb, Z.shiftr_div_pow2 by lia; done).
  clearbody nchunks. rewrite Ecb in *.
  replace (img_bits img + k - img_bits img) with k in Hall by lia.
  rewrite shiftl1 by lia.
  set (bs := 2 ^ img_bits img) in *. set (bn := pos / bs) in *.
  set (nb := calculateBlocks _ _) in *.
  assert (Ecs : 2 ^ (img_bits img + k) = 2 ^ k * bs) by (rewrite Z.pow_add_r by lia; unfold bs; lia).
  assert (0 < 2 ^ k <= 2 ^ 31) by (split; [lia|apply Z.pow_le_mono_r; lia]).
  rewrite !Z.shiftr_div_pow2 by lia. rewrite Ecs in *.
  set (cn := pos / (2 ^ k * bs)).
  assert (Hcn : 0 <= cn < nchunks).
  { unfold cn. split; [apply Z.div_pos; nia|]. rewrite Hn.
    pose proof (Z.div_le_mono pos (ino_size ino - 1) (2 ^ k * bs) ltac:(nia) ltac:(lia)). lia. }
  rewrite (proj2 (Z.leb_gt nchunks cn)) by lia.
  rewrite i64_in_range by lia.
  destruct (bulk_entry base (nchunks * 8) (cn * 8) 8 idx) as [Re Le]; auto; try lia.
  rewrite Re, Le. cbn [negb Z.eqb Pos.eqb].
  destruct (Hall cn Hcn) as (A1 & A2 & A3).
  assert (Eb : get32 (sub idx (Z.to_nat (cn * 8)) (Z.to_nat 8)) 4 = idx_blk idx cn).
  { unfold get32, idx_blk, get32, SizeChunkIndex. rewrite sub_sub by lia. done. }
  assert (Ed : Z.land (get16 (sub idx (Z.to_nat (cn * 8)) (Z.to_nat 8)) 2) (img_deviceIDMask img)
               = did).
  { rewrite <- A2. unfold idx_dev, get16, SizeChunkIndex. rewrite sub_sub by lia. done. }
  unfold chunk_entry. cbn [Z.eqb Pos.eqb]. rewrite Eb, (proj2 (Z.eqb_neq _ _)) by done.
  pose proof (get32_range idx (Z.to_nat (cn * SizeChunkIndex) + 4)) as Hrange.
  change (is_u32 (idx_blk idx cn)) in Hrange.
  rewrite chunkAddr_u32 by done. fold bs. rewrite Ed.
  set (e := if bn =? nb - 1 then _ else _) in *. rewrite Z.rem_mod_nonneg by lia.
  replace (bad_bounds _ _ _) with false by (unfold bad_bounds; symmetry;
    rewrite !orb_false_iff, !Z.ltb_ge, Z.leb_gt; lia).
  unfold is_u32 in Hrange. rewrite (proj2 (Z.eqb_neq _ (-1))) by nia.
  rewrite !Z.shiftl_mul_pow2 by lia. fold bs. rewrite Ecs.
  pose proof (Z.div_mod pos (2 ^ k * bs) ltac:(nia)) as Ec. fold cn in Ec.
  pose proof (Z.mod_pos_bound pos (2 ^ k * bs) ltac:(nia)).
  assert (Ebn : cn * (2 ^ k * bs) <= bn * bs).
  { assert (cn * 2 ^ k <= bn); [|nia]. unfold bn. apply Z.div_le_lower_bound; nia. }
  replace (if 0 <? bn * bs then _ else _) with (s * bs + bn * bs).
  2:{ destruct (Z.ltb_spec 0 (bn * bs)).
      - rewrite i64_id by nia. rewrite A3. nia.
      - rewrite A3. assert (bn = 0) by nia. assert (cn = 0) by nia. nia. }
  pose proof (boundOnDevice_range img dev mapped (ino_size ino) Hbd) as Hbr.
  assert (Hdid : 0 <= did) by (rewrite <- Ed; apply Z.land_nonneg; left; apply get16_range).
  rewrite (locate_within img did (s * bs) dev mapped (ino_size ino) (bn * bs)); auto; [|nia].
  rewrite i64_in_range by lia. rewrite F5.
  replace (mapped + bn * bs + pos mod bs) with (mapped + pos) by lia.
  rewrite (boundOnDevice_sub img dev mapped (ino_size ino) pos (block_span img ino pos));
    auto; try lia.
  by rewrite Hr.
Qed.

Lemma chunk_format_48 fmt :
  is_u16 fmt -> andnot fmt (Z.lor LayoutChunkFormatBits LayoutChunkFormatIndexes) = 0 ->
  Z.land fmt LayoutChunkFormat48Bit = 0.
Proof using Type.
  intros Hf H.
  set (g f := negb (andnot f (Z.lor LayoutChunkFormatBits LayoutChunkFormatIndexes) =? 0) ||
              (Z.land f LayoutChunkFormat48Bit =? 0)).
  assert (Hg : all_modes g = true) by (vm_compute; reflexivity).
  pose proof (all_modes_spec g Hg fmt Hf) as Hx. clear Hg. unfold g in Hx. rewrite H in Hx.
  cbn [Z.eqb negb orb] in Hx. by apply Z.eqb_eq.
Qed.

Lemma openDirect_chunk_agrees sr :
  is_u64 (ino_nid ino) ->
  ino_inodeLayout ino = LayoutChunkBased -> openDirect_chunk img ino = Ok (Some sr) ->
  loadBlock img ino pos = read_exact sr pos (block_span img ino pos).
Proof using Hwf Hmap Hino Hpos Hback Hfull.
  intros Hnid Hl H. unfold openDirect_chunk in H. rewrite <- inode_addr_eq in H by done.
  pose proof (wf_bits img Hwf) as Hbits.
  set (fmt := u16 (ino_inodeData ino)) in *.
  assert (Hf : is_u16 fmt) by (apply Z.mod_pos_bound; lia).
  destruct (chunk_bits_eq img fmt Hwf Hf) as (k & Hk & Ecb).
  step_in H. step_in H. apply negb_false_iff, Z.eqb_eq in E0.
  assert (Hidx : chunk_indexed fmt = true) by (unfold chunk_indexed; by rewrite E).
  assert (Hnc : 0 <= Z.shiftr (ino_size ino - 1) (chunk_bits img fmt) + 1 <= 2 ^ 54).
  { rewrite Ecb, Z.shiftr_div_pow2 by lia. pose proof (wf_isize _ _ Hino). unfold MaxInt64 in *.
    assert (2 ^ 9 <= 2 ^ (img_bits img + k)) by (apply Z.pow_le_mono_r; lia).
    split; [pose proof (Z.div_pos (ino_size ino - 1) (2 ^ (img_bits img + k))); lia|].
    pose proof (Z.div_lt_upper_bound (ino_size ino - 1) (2 ^ (img_bits img + k)) (2 ^ 54)). nia. }
  rewrite (i64_id (_ * SizeChunkIndex)) in H by (unfold SizeChunkIndex; lia).
  assert (Ebase : chunk_base img ino fmt =
    align8 (i64 (i64 (metaStartPos img + i64 (u64 (ino_nid ino * SizeInodeCompact))) + flatDataOffset ino)))
    by (unfold chunk_base; by rewrite Hidx).
  rewrite <- Ebase in H. set (nc := Z.shiftr _ _ + 1) in *.
  step_in H. apply negb_false_iff, chunkIndexFits_range in E1.
  destruct (ReadAt (img_meta img) _ _) as [idx [|]] eqn:Er; [done|].
  destruct (direct_chunks _ _ _ _ _ _ _) as [[s did]|] eqn:Ed; [|done].
  apply direct_chunks_spec in Ed as [_ Ed]; [|lia]. rewrite shiftl1 in Ed by (rewrite Ecb; lia).
  destruct (chunkAddr img s) as [da| |] eqn:Ea; [|done..].
  destruct (locate img did da) as [[dev mapped]| |] eqn:El; [|done..].
  destruct (boundOnDevice img dev mapped (ino_size ino)) as [[]| |] eqn:Eb; [|done..].
  destruct (deviceReader img dev) as [r| |] eqn:Edr; [|done..].
  apply Ok_inj in H. injection H as <-.
  assert (Hnc1 : 0 < nc).
  { unfold nc. rewrite Ecb, Z.shiftr_div_pow2 by lia.
    pose proof (Z.div_pos (ino_size ino - 1) (2 ^ (img_bits img + k)) ltac:(lia)
      ltac:(apply Z.pow_pos_nonneg; lia)). lia. }
  assert (Hs : is_u32 s).
  { destruct (Ed 0 ltac:(lia)) as (_ & _ & E3). cbn in E3. rewrite <- E3. apply get32_range. }
  rewrite chunkAddr_u32 in Ea by done. apply Ok_inj in Ea. subst da.
  pose proof (boundOnDevice_range _ _ _ _ Eb) as Hbr.
  assert (Hdev : 0 <= dev).
  { destruct (Ed 0 ltac:(lia)) as (_ & Hd & _). assert (0 <= did).
    { rewrite <- Hd. apply Z.land_nonneg. left. apply get16_range. }
    eapply locate_dev_range; eauto. }
  rewrite section_read_exact by (unfold block_span; lia).
  unfold loadBlock. rewrite Z.shiftr_div_pow2, Hl by lia.
  pose proof (calculateBlocks_pos (img_bits img) (ino_size ino) pos ltac:(lia) Hpos).
  rewrite (proj2 (Z.leb_gt _ _)) by lia. cbn [Z.eqb LayoutChunkBased LayoutFlatPlain LayoutFlatInline Pos.eqb].
  eapply (loadBlock_chunk_run s did dev mapped r idx fmt (chunk_base img ino fmt));
    eauto using chunk_format_48; fold nc; unfold SizeChunkIndex in *; try lia.
  intros j Hj. destruct (Ed j ltac:(lia)) as (G1 & G2 & G3). split; [done|]. split; [done|].
  rewrite G3. destruct (Z.eqb_spec j 0) as [->|]; [lia|].
  rewrite Ecb. replace (img_bits img + k - img_bits img) with k by lia.
  assert (0 < 2 ^ k <= 2 ^ 31) by (split; [lia|apply Z.pow_le_mono_r; lia]).
  unfold is_u32 in Hs. assert (0 <= j * 2 ^ k <= 2 ^ 55) by nia.
  rewrite (u64_id (j * 2 ^ k)) by (unfold is_u64; lia). rewrite u64_id by (unfold is_u64; lia). done.
Qed.
End Direct.

(** Any run [openDirect] accepts, whatever the layout. *)
Lemma openDirect_reads img ino c sr pos :
  image_wf img -> mapping_ok img -> inode_wf img ino -> is_u64 (ino_nid ino) ->
  Backed (img_meta img) c ->
  (forall off n, 0 <= off -> 0 < n -> zlen (ReadAt (img_meta img) off n).1 = n ->
     (ReadAt (img_meta img) off n).2 = None) ->
  openDirect img ino = Ok (Some sr) -> 0 <= pos < ino_size ino ->
  loadBlock img ino pos = read_exact sr pos (block_span img ino pos).
Proof.
  intros Hwf Hmap Hino Hnid Hback Hfull H Hpos. unfold openDirect in H.
  rewrite (proj2 (Z.leb_gt _ _)) in H by lia.
  destruct (Z.eqb_spec (ino_inodeLayout ino) LayoutFlatPlain) as [E|_].
  { by eapply openDirect_plain_agrees. }
  destruct (Z.eqb_spec (ino_inodeLayout ino) LayoutFlatInline) as [E|_].
  { by eapply openDirect_inline_agrees. }
  destruct (Z.eqb_spec (ino_inodeLayout ino) LayoutChunkBased) as [E|_]; [|done].
  by eapply openDirect_chunk_agrees.
Qed.

(** C20: the direct path and the block path read the same bytes.  On an opened
    image whose mapped device ranges lie past the image, apart from each other
    and no shorter than their devices ([mapping_ok], which [Open] does not
    check), over a reader of the image's bytes that reports no error with a full
    read, a file [openDirect] accepts as one physical run answers, at every
    position, exactly what [loadBlock] answers: the same bytes, or the same
    error. *)
Theorem openDirect_agrees img ino c sr pos :
  image_wf img -> mapping_ok img -> inode_wf img ino -> is_u64 (ino_nid ino) ->
  Backed (img_meta img) c ->
  (forall off n, 0 <= off -> 0 < n -> zlen (ReadAt (img_meta img) off n).1 = n ->
     (ReadAt (img_meta img) off n).2 = None) ->
  openDirect img ino = Ok (Some sr) -> 0 <= pos < ino_size ino ->
  loadBlock img ino pos = read_exact sr pos (block_span img ino pos).
Proof. apply openDirect_reads. Qed.

Lemma example_mapping_ok : mapping_ok example_img.
Proof.
  constructor; [done|..].
  - intros d Hd Hm. cbn in Hd. rewrite !elem_of_cons in Hd.
    destruct Hd as [->|[->|Hd]]; [by vm_compute|done|by inv Hd].
  - intros i j d d' Hij Hi Hj Hm Hm'.
    destruct i as [|[|i]]; destruct j as [|[|j]]; cbn in Hi, Hj; try done;
      injection Hi as <-; injection Hj as <-; done.
  - intros d Hd Hm. cbn in Hd. rewrite !elem_of_cons in Hd.
    destruct Hd as [->|[->|Hd]]; [by vm_compute|done|by inv Hd].
Qed.

Lemma bytes_reader_full c off n :
  0 <= off -> 0 < n -> zlen (ReadAt (bytes_reader c) off n).1 = n ->
  (ReadAt (bytes_reader c) off n).2 = None.
Proof.
  intros Ho Hn. cbn. rewrite (proj2 (Z.ltb_ge off 0)) by lia.
  destruct (Z.leb_spec (zlen c) off); cbn; intros H'.
  - change (0 = n) in H'. lia.
  - by rewrite H', Z.ltb_irrefl.
Qed.

Lemma example_ino_wf : inode_wf example_img example_ino.
Proof. constructor; cbn; auto; try done; by split. Qed.

Lemma openDirect_agrees_witness :
  exists sr, openDirect example_img example_ino = Ok (Some sr) /\
    loadBlock example_img example_ino 4100 = read_exact sr 4100 900.
Proof.
  eexists. split; [reflexivity|].
  apply (openDirect_agrees example_img example_ino _ _ 4100 example_img_wf example_mapping_ok
    example_ino_wf ltac:(by split) (bytes_reader_backed _) (bytes_reader_full _) eq_refl).
  by cbn.
Defined.
