(* ===== verification/Reading.v ===== *)
(** * Reading a file: the [io.Reader] contract, [readAll], the data ranges

    Theorems about the consumers of [Data]: every call of [Read] ends, moves
    the offset by what it returns and keeps the promises of [io.Reader]; what
    [readAll] returns is whole; the ranges [DataRanges] reports partition the
    file and lie within their devices. *)

From S2P Require Import Prelude Machine Disk Format Image Inode Data.

(** ** The reader's contract is kept by the readers it builds *)

#[export] Instance section_laws r base n : ReaderAtLaws r -> ReaderAtLaws (NewSectionReader r base n).
Proof.
  intros [L1 L2]. split; intros off len Hl; unfold NewSectionReader; cbn [ReadAt];
    set (limit := if base <=? MaxInt64 - n then base + n else MaxInt64);
    (destruct ((off <? 0) || (limit - base <=? off)) eqn:E; [cbn; try done|]); zbool.
  - destruct (Z.ltb_spec (limit - (off + base)) len); [|by apply L1].
    specialize (L1 (off + base) (limit - (off + base)) ltac:(lia)).
    destruct (ReadAt r _ _) as [b e]. cbn in *. lia.
  - destruct (Z.ltb_spec (limit - (off + base)) len); [|by apply L2].
    destruct (ReadAt r _ _) as [b [e|]]; cbn; by eexists.
Qed.

(** Every reader the image was opened with keeps the contract of
    [io.ReaderAt]. *)
Record readers_ok (img : image) : Prop := {
  meta_laws : ReaderAtLaws (img_meta img);
  devs_laws : Forall (fun d => ReaderAtLaws (dev_device d)) (img_devices img)
}.

Lemma deviceReader_laws img dev r : readers_ok img -> deviceReader img dev = Ok r -> ReaderAtLaws r.
Proof.
  intros [Hm Hd] H. unfold deviceReader in H. step_in H; [apply Ok_inj in H; by subst|].
  destruct (_ !! _) as [d|] eqn:E1; [|done]. step_in H. apply Ok_inj in H. subst r.
  by eapply (Forall_lookup_1 _ _ _ _ Hd).
Qed.

Lemma openDirect_laws img ino sr :
  readers_ok img -> openDirect img ino = Ok (Some sr) -> ReaderAtLaws sr.
Proof.
  intros Hr H. unfold openDirect in H.
  assert (G : forall dev r off n, deviceReader img dev = Ok r -> ReaderAtLaws (NewSectionReader r off n)).
  { intros. eapply section_laws, deviceReader_laws; eauto. }
  step_in H. step_in H; [|step_in H; [|step_in H]].
  - unfold openDirect_plain in H. repeat step_in H. apply Ok_inj in H. injection H as <-. eauto.
  - unfold openDirect_inline in H. repeat step_in H. apply Ok_inj in H. injection H as <-.
    apply section_laws, Hr.
  - unfold openDirect_chunk in H. repeat step_in H. apply Ok_inj in H. injection H as <-. eauto.
Qed.

Lemma direct_chunks_dev img idx bpc n : forall i sb did s d,
  0 <= did -> direct_chunks img idx bpc n i sb did = Some (s, d) -> 0 <= d.
Proof.
  induction n as [|n IH]; intros i sb did s d Hd H; cbn [direct_chunks] in H; [by injection H as -> ->|].
  step_in H. assert (0 <= Z.land (get16 idx (Z.to_nat (i * SizeChunkIndex) + 2)) (img_deviceIDMask img))
    by (apply Z.land_nonneg; left; apply get16_range).
  step_in H; [by eapply IH in H|]. step_in H. by eapply IH in H.
Qed.

Lemma openDirect_plain_no_panic img ino :
  image_wf img -> 0 < ino_size ino -> no_panic (openDirect_plain img ino).
Proof.
  intros Hwf Hs. unfold no_panic, openDirect_plain, locateStart, blockAddr.
  destruct (nullAddress ino); [congruence|]. destruct (_ <? _); [congruence|].
  destruct (locateRange _ _ _) as [[dev off]| |] eqn:E; [|congruence|by apply locateRange_no_panic in E].
  apply locateRange_agrees_dev in E as [r ->]; auto; congruence.
Qed.

Lemma checkImageRange_no_panic img off n : no_panic (checkImageRange img off n).
Proof. unfold no_panic, checkImageRange. repeat case_match; congruence. Qed.

Lemma openDirect_inline_no_panic img ino : no_panic (openDirect_inline img ino).
Proof.
  unfold no_panic, openDirect_inline. repeat (destruct (_ <? _); [congruence|]).
  destruct (checkImageRange _ _ _) eqn:E; try congruence. by apply checkImageRange_no_panic in E.
Qed.

Lemma openDirect_chunk_no_panic img ino : image_wf img -> no_panic (openDirect_chunk img ino).
Proof.
  intros Hwf. unfold no_panic, openDirect_chunk.
  destruct (_ =? 0); [congruence|]. destruct (negb _); [congruence|].
  destruct (negb (chunkIndexFits _ _ _)); [congruence|].
  destruct (ReadAt _ _ _) as [idx [|]]; [congruence|].
  destruct (direct_chunks _ _ _ _ _ _ _) as [[s did]|] eqn:Ed; [|congruence].
  apply direct_chunks_dev in Ed; [|lia].
  destruct (chunkAddr img s) as [pa| |] eqn:Ea; [|congruence|unfold chunkAddr in Ea; by step_in Ea].
  destruct (locate img did pa) as [[dev m]| |] eqn:El; [|congruence|by apply locate_no_panic in El].
  apply locate_dev_range in El; auto.
  destruct (boundOnDevice img dev m (ino_size ino)) eqn:Eb;
    [|congruence|apply boundOnDevice_no_panic in Eb; [done|lia]].
  destruct (deviceReader_ok img dev El) as [r ->]. congruence.
Qed.

Lemma openDirect_no_panic img ino : image_wf img -> no_panic (openDirect img ino).
Proof.
  intros Hwf. unfold no_panic, openDirect. destruct (Z.leb_spec (ino_size ino) 0); [congruence|].
  destruct (_ =? _); [by apply openDirect_plain_no_panic|].
  destruct (_ =? _); [by apply openDirect_inline_no_panic|].
  destruct (_ =? _); [by apply openDirect_chunk_no_panic|congruence].
Qed.

Lemma deviceReader_no_err img dev e : deviceReader img dev <> Err e.
Proof. unfold deviceReader. repeat case_match; congruence. Qed.

(** Not being one run is an answer, never an error. *)
Lemma openDirect_no_err img ino e : openDirect img ino <> Err e.
Proof.
  unfold openDirect. intros H. step_in H. step_in H; [|step_in H; [|step_in H]].
  - unfold openDirect_plain in H. repeat step_in H; by eapply deviceReader_no_err.
  - unfold openDirect_inline in H. by repeat step_in H.
  - unfold openDirect_chunk in H. repeat step_in H; by eapply deviceReader_no_err.
Qed.

(** ** Open files *)

(** What the methods of [file] keep: a cached inode is a sound one, a cached
    direct reader is [openDirect]'s answer for it, the offset is not negative. *)
Record file_wf (img : image) (f : file) : Prop := {
  fwf_info : forall i, f_info f = Some i -> inode_wf img i /\ FileMode_Type (ino_mode i) = f_ftype f;
  fwf_direct : f_directChecked f = true ->
    exists i, f_info f = Some i /\ openDirect img i = Ok (f_direct f);
  fwf_offset : 0 <= f_offset f
}.

Lemma new_file_wf img name nid ftype : file_wf img (new_file name nid ftype).
Proof. by constructor. Qed.

Lemma file_wf_offset img f o : file_wf img f -> 0 <= o -> file_wf img (with_offset f o).
Proof. intros [] Ho. by constructor. Qed.

(** [readInfo] on a sound file: an error, or a sound inode and the file holding
    it; the file stays sound and where it was. *)
Lemma readInfo_cases img f :
  file_wf img f ->
  (exists e f', readInfo img f = (Err e, f') /\ file_wf img f' /\ f_offset f' = f_offset f) \/
  (exists fi, readInfo img f = (Ok fi, with_info f (Some fi)) /\ inode_wf img fi /\
              file_wf img (with_info f (Some fi))).
Proof.
  intros [W1 W2 W3].
  assert (Hs : forall i, inode_wf img i -> FileMode_Type (ino_mode i) = f_ftype f ->
            (forall i', f_info f = Some i' -> i' = i) -> file_wf img (with_info f (Some i))).
  { intros i Hi Ht Hu. constructor; cbn; [by intros ? [= <-]| |done]. intros Hd.
    destruct (W2 Hd) as (i' & Hi' & Ho). exists i. split; [done|]. by rewrite <- (Hu i' Hi'). }
  destruct (readInfo_end img f W1) as [fi E W T|e E N|fi E N W T L].
  - right. exists fi. split; [done|]. split; [done|]. apply Hs; [done..|]. intros i' Hi'.
    unfold readInfo in E. rewrite Hi' in E. congruence.
  - left. exists e, f. split; [done|]. split; [by constructor|done].
  - left. exists ErrCorrupt, (with_info f (Some fi)). split; [done|]. split; [|done].
    apply Hs; [done..|]. intros i' Hi'. congruence.
Qed.

Lemma directReader_cases img f fi :
  image_wf img -> file_wf img f -> f_info f = Some fi ->
  exists sr f', directReader img f fi = Ok (sr, f') /\ openDirect img fi = Ok sr /\
    file_wf img f' /\ f_offset f' = f_offset f /\ f_info f' = Some fi /\
    f_directChecked f' = true.
Proof.
  intros Hwf [W1 W2 W3] Hi. unfold directReader. destruct (f_directChecked f) eqn:E.
  - destruct (W2 eq_refl) as (i & Hi' & Ho). rewrite Hi in Hi'. injection Hi' as <-.
    exists (f_direct f), f. split; [done|]. split; [done|]. split; [by constructor; auto|auto].
  - destruct (W1 fi Hi) as [Hfi _].
    destruct (openDirect img fi) as [sr|e|] eqn:Eo.
    + exists sr, (with_direct f sr). split; [done|]. split; [done|]. split; [|auto].
      constructor; cbn; auto. intros _. exists fi. auto.
    + by apply openDirect_no_err in Eo.
    + by apply openDirect_no_panic in Eo.
Qed.

(** ** The [io.Reader] contract *)

Lemma Read_facts img f n :
  image_wf img -> readers_ok img -> file_wf img f -> 0 < n ->
  exists r f', Read img f n = Ok (r, f') /\
    zlen (rd_data r) <= n /\
    f_offset f' = f_offset f + zlen (rd_data r) /\
    (rd_err r = None -> 0 < zlen (rd_data r)) /\
    (forall fi, f_info f' = Some fi -> f_offset f' <= Z.max (f_offset f) (ino_size fi)) /\
    file_wf img f'.
Proof.
  intros Hwf Hrd Hf Hn. unfold Read.
  destruct (readInfo_cases img f Hf) as [(e & f1 & -> & Hf1 & E1)|(fi & -> & Hfi & Hf1)].
  { exists (mkRead [] (Some e)), f1. cbn. change (zlen (@nil Byte.byte)) with 0. rewrite Z.add_0_r.
    split_and!; auto; try lia; try done; intros; lia. }
  destruct (directReader_cases img _ fi Hwf Hf1 eq_refl) as (sr & f' & -> & Ho & Hf' & Eo & Ei & _).
  cbn in Eo. pose proof (fwf_offset _ _ Hf) as H0. destruct sr as [sr|].
  - pose proof (openDirect_laws img fi sr Hrd Ho) as [L1 L2].
    destruct (Z.leb_spec (ino_size fi) (f_offset f')) as [Hle|Hgt].
    { exists (mkRead [] (Some EOF)), f'. cbn. change (zlen (@nil Byte.byte)) with 0. rewrite Z.add_0_r.
      split_and!; auto; try lia; try done; intros; lia. }
    set (m := Z.min n (ino_size fi - f_offset f')).
    specialize (L1 (f_offset f') m ltac:(lia)). specialize (L2 (f_offset f') m ltac:(lia)).
    destruct (ReadAt sr (f_offset f') m) as [b err]. cbn in L1, L2. cbn [rd_data rd_err].
    eexists _, _. split; [reflexivity|]. cbn. pose proof (zlen_nonneg b).
    split; [lia|]. split; [lia|]. split; [|split].
    + intros He. destruct (Z.eq_dec (zlen b) m) as [->|Hx]; [lia|]. destruct (L2 ltac:(lia)) as [e Hx'].
      rewrite Hx' in He. rewrite (proj2 (Z.eqb_neq _ _)), andb_false_r in He by done. done.
    + intros fi' Hfi'. rewrite Ei in Hfi'. injection Hfi' as <-. lia.
    + apply file_wf_offset; auto. lia.
  - destruct (read_blocks_spec img fi Hwf (Z.to_nat n) (f_offset f') n []) as
      (d & err & -> & S1 & S2 & S3 & _); [lia|lia|].
    eexists _, _. split; [reflexivity|]. cbn. pose proof (zlen_nonneg d).
    split; [lia|]. split; [lia|]. split; [|split].
    + intros He. rewrite (S2 He). lia.
    + intros fi' Hfi'. rewrite Ei in Hfi'. injection Hfi' as <-. lia.
    + apply file_wf_offset; auto. lia.
Qed.

(** C26: [Read] keeps the contract of [io.Reader].  On any image and any file
    it ends without a panic, returns at most the bytes asked, moves the offset
    by exactly what it returned and never past the end of the file, and with
    no error it has made progress; the file stays sound, its direct reader
    memoized. *)
Theorem Read_contract img f n :
  image_wf img -> readers_ok img -> file_wf img f -> 0 < n ->
  exists r f', Read img f n = Ok (r, f') /\
    zlen (rd_data r) <= n /\
    f_offset f' = f_offset f + zlen (rd_data r) /\
    (rd_err r = None -> 0 < zlen (rd_data r)) /\
    (forall fi, f_info f' = Some fi -> f_offset f' <= Z.max (f_offset f) (ino_size fi)) /\
    file_wf img f'.
Proof. apply Read_facts. Qed.

Lemma example_readers_ok : readers_ok example_img.
Proof. constructor; [apply bytes_reader_laws|]. repeat constructor; apply bytes_reader_laws. Qed.

Lemma Read_contract_witness :
  exists r f', Read example_img (new_file (bs "f") 0 0) 512 = Ok (r, f') /\
    zlen (rd_data r) <= 512 /\ f_offset f' = 0 + zlen (rd_data r) /\
    (rd_err r = None -> 0 < zlen (rd_data r)) /\
    (forall fi, f_info f' = Some fi -> f_offset f' <= Z.max 0 (ino_size fi)) /\
    file_wf example_img f'.
Proof.
  apply (Read_contract example_img (new_file (bs "f") 0 0) 512 example_img_wf example_readers_ok).
  - apply new_file_wf.
  - lia.
Defined.

(** ** [readAll] *)

(** Each round of [io.ReadFull] makes progress, so as many rounds as bytes are
    enough, and it stops without an error only when the buffer is full. *)
Lemma ReadFull_spec img n : image_wf img -> readers_ok img -> forall fuel f acc,
  file_wf img f -> zlen acc <= n -> n - zlen acc <= Z.of_nat fuel ->
  exists r f', ReadFull fuel img f n acc = Ok (r, f') /\ file_wf img f' /\
    (rd_err r = None -> zlen (rd_data r) = n) /\ zlen (rd_data r) <= n /\
    f_offset f' = f_offset f + (zlen (rd_data r) - zlen acc).
Proof.
  intros Hwf Hrd. induction fuel as [|fuel IH]; intros f acc Hf Ha Hn; cbn [ReadFull].
  - rewrite (proj2 (Z.leb_le _ _)) by lia. eexists _, _. split; [done|]. cbn.
    split; [done|]. split; [intros; lia|]. split; lia.
  - destruct (Z.leb_spec n (zlen acc)).
    { eexists _, _. split; [done|]. cbn. split; [done|]. split; [intros; lia|]. split; lia. }
    destruct (Read_facts img f (n - zlen acc) Hwf Hrd Hf ltac:(lia)) as (r & f1 & -> & R1 & R2 & R3 & _ & Hf1).
    pose proof (zlen_nonneg (rd_data r)).
    destruct (rd_err r) as [e|] eqn:Ee.
    + destruct (Z.leb_spec n (zlen (acc ++ rd_data r))) as [Hx|Hx]; rewrite zlen_app in Hx.
      * eexists _, _. split; [done|]. cbn. rewrite zlen_app. split; [done|]. split; [intros; lia|]. split; lia.
      * case_match; eexists _, _; (split; [done|]); cbn; rewrite zlen_app;
          (split; [done|]); (split; [done|]); split; lia.
    + specialize (R3 eq_refl).
      destruct (IH f1 (acc ++ rd_data r) Hf1) as (r' & f2 & -> & F1 & F2 & F3 & F4);
        rewrite ?zlen_app; [lia|lia|].
      rewrite zlen_app in F4. eexists _, _. split; [done|]. split; [done|]. split; [done|]. split; lia.
Qed.

Lemma readAll_facts img f n :
  image_wf img -> readers_ok img -> file_wf img f -> 0 <= n ->
  (exists b, readAll img f n = Ok b /\ zlen b = n) \/
  (exists e, readAll img f n = Err e /\ e <> EOF /\ e <> ErrUnexpectedEOF).
Proof.
  intros Hwf Hrd Hf Hn. unfold readAll. destruct (Z.eqb_spec n 0) as [->|]; [left; by exists []|].
  destruct (ReadFull_spec img n Hwf Hrd (Z.to_nat n) f []) as (r & f' & -> & _ & H1 & _); auto;
    change (zlen (@nil Byte.byte)) with 0; try lia.
  destruct (rd_err r) as [e|]; [|left; eauto]. right.
  destruct e; cbn; eauto 10.
Qed.

(** C33: [readAll] is all or nothing.  It ends without a panic and either
    fills the whole buffer or reports an error, and the error is never one a
    caller may take for the end of the file. *)
Theorem readAll_whole img f n :
  image_wf img -> readers_ok img -> file_wf img f -> 0 <= n ->
  (exists b, readAll img f n = Ok b /\ zlen b = n) \/
  (exists e, readAll img f n = Err e /\ e <> EOF /\ e <> ErrUnexpectedEOF).
Proof. apply readAll_facts. Qed.

Lemma readAll_whole_witness :
  (exists b, readAll example_img (new_file (bs "f") 0 0) 100 = Ok b /\ zlen b = 100) /\
  (exists e, readAll example_img (new_file (bs "f") 0 0) 101 = Err e /\ e <> EOF /\ e <> ErrUnexpectedEOF).
Proof.
  pose proof (fun n => readAll_whole example_img (new_file (bs "f") 0 0) n
    example_img_wf example_readers_ok (new_file_wf _ _ _ _)) as H. split.
  - destruct (H 100 ltac:(lia)) as [Hx|(e & He & _)]; [exact Hx|].
    exfalso. vm_compute in He. discriminate He.
  - destruct (H 101 ltac:(lia)) as [(b & Hb & _)|Hx]; [|exact Hx].
    exfalso. vm_compute in Hb. discriminate Hb.
Defined.

(** ** The data ranges *)

(** The bytes exist: within the image when its length is known, within the
    device's length or its block count otherwise. *)
Definition in_extent (img : image) (dev off n : Z) : Prop :=
  0 <= off /\ off + n <= MaxInt64 /\
  (dev = 0 -> 0 < img_size img -> off + n <= img_size img) /\
  (dev <> 0 -> exists d, img_devices img !! Z.to_nat (dev - 1) = Some d /\
     (off + n <= dev_length img d \/ off + n <= dev_size d \/ dev_size d = 0 /\ dev_blocks d = 0)).

Definition range_ok (img : image) (r : DataRange) : Prop :=
  0 < dr_Size r /\ (dr_Offset r = holeOffset \/ in_extent img (dr_Device r) (dr_Offset r) (dr_Size r)).

Definition total_size (l : list DataRange) : Z := foldr (fun r n => dr_Size r + n) 0 l.

(** Two neighbouring ranges that are really one. *)
Definition mergeable (a b : DataRange) : Prop :=
  (dr_Offset a = holeOffset /\ dr_Offset b = holeOffset) \/
  (dr_Offset a <> holeOffset /\ dr_Offset b <> holeOffset /\ dr_Device a = dr_Device b /\
   dr_Offset a + dr_Size a = dr_Offset b).

Fixpoint separate (l : list DataRange) : Prop :=
  match l with
  | a :: (b :: _) as t => ~ mergeable a b /\ separate t
  | _ => True
  end.

Lemma total_size_app a b : total_size (a ++ b) = total_size a + total_size b.
Proof. unfold total_size. induction a as [|x a IH]; cbn; [done|]. rewrite IH. lia. Qed.

Lemma separate_snoc l p x : separate (l ++ [p]) -> ~ mergeable p x -> separate (l ++ [p; x]).
Proof.
  induction l as [|a l IH]; cbn; [done|]. intros H Hx. destruct l as [|b l]; cbn in *; tauto.
Qed.

Lemma separate_grow l p q :
  dr_Device p = dr_Device q -> dr_Offset p = dr_Offset q -> separate (l ++ [p]) -> separate (l ++ [q]).
Proof.
  intros Hd Ho. induction l as [|a l IH]; cbn; [done|].
  destruct l as [|b l]; cbn in *; [|tauto]. unfold mergeable. by rewrite Hd, Ho.
Qed.

Lemma boundOnDevice_extent img dev off n :
  image_wf img -> 0 <= dev -> boundOnDevice img dev off n = Ok tt -> in_extent img dev off n.
Proof.
  intros Hwf Hd H. pose proof (boundOnDevice_range img dev off n H) as R.
  split; [lia|]. split; [lia|]. unfold boundOnDevice in H. split.
  - intros ->. cbn in H. apply checkImageRange_spec in H; tauto.
  - intros Hn. rewrite (proj2 (Z.eqb_neq _ _)) in H by done. step_in H. step_in H. step_in H.
    exists d. split; [done|]. rewrite i64_in_range in H by lia.
    destruct (Forall_lookup_1 _ _ _ _ (wf_devs img Hwf) E1) as [W _ _].
    destruct (Z.ltb_spec 0 (dev_size d)); [step_in H; zbool; auto|].
    destruct (Z.eqb_spec (dev_blocks d) 0); [right; right; lia|].
    step_in H. zbool. left. unfold dev_length. lia.
Qed.

Lemma in_extent_join img dev off a b :
  0 < a -> 0 < b -> in_extent img dev off a -> in_extent img dev (off + a) b -> in_extent img dev off (a + b).
Proof.
  intros Ha Hb (A1 & A2 & A3 & A4) (B1 & B2 & B3 & B4).
  split; [lia|]. split; [lia|]. rewrite Z.add_assoc. auto.
Qed.

(** What the loop over the chunks keeps. *)
Record ranges_inv (img : image) (l : list DataRange) (total : Z) : Prop := {
  ri_total : total_size l = total;
  ri_ok : Forall (range_ok img) l;
  ri_separate : separate l
}.

(** Adding a range, or growing the last one. *)
Lemma ranges_inv_snoc img l r total :
  ranges_inv img l total -> range_ok img r -> (forall p, last l = Some p -> ~ mergeable p r) ->
  ranges_inv img (l ++ [r]) (total + dr_Size r).
Proof.
  intros [I1 I2 I3] Hr Hm. constructor.
  - rewrite total_size_app. cbn. lia.
  - apply Forall_app; auto.
  - destruct l as [|p l _] using rev_ind; [done|]. rewrite <- app_assoc.
    apply separate_snoc; [done|]. apply Hm. apply last_snoc.
Qed.

Lemma ranges_inv_grow img l p size total :
  ranges_inv img (l ++ [p]) total -> 0 < size ->
  range_ok img (mkDataRange (dr_Device p) (dr_Offset p) (dr_Size p + size)) ->
  ranges_inv img (l ++ [mkDataRange (dr_Device p) (dr_Offset p) (dr_Size p + size)]) (total + size).
Proof.
  intros [I1 I2 I3] Hs Hr. apply Forall_app in I2 as [I2 _]. constructor.
  - rewrite total_size_app in *. cbn in *. lia.
  - apply Forall_app; auto.
  - by eapply (separate_grow l p).
Qed.

Lemma merge_hole_inv img size l total :
  0 < size -> ranges_inv img l total -> ranges_inv img (merge_hole size l) (total + size).
Proof.
  intros Hs I. assert (Hr : range_ok img (mkDataRange 0 holeOffset size)) by (split; cbn; auto).
  unfold merge_hole. destruct l as [|p l _] using rev_ind; [by apply (ranges_inv_snoc img [])|].
  rewrite last_snoc. destruct (Z.eqb_spec (dr_Offset p) holeOffset) as [E|E].
  - rewrite removelast_last. apply ranges_inv_grow; auto. split; cbn; [|auto].
    pose proof (ri_ok _ _ _ I) as F. apply Forall_app in F as [_ F]. inv F. destruct H1. lia.
  - apply (ranges_inv_snoc img _ (mkDataRange 0 holeOffset size)); auto.
    intros q Hq. rewrite last_snoc in Hq. injection Hq as <-. unfold mergeable. cbn. tauto.
Qed.

Lemma merge_data_inv img dev off size l total :
  0 < size -> in_extent img dev off size -> ranges_inv img l total ->
  ranges_inv img (merge_data dev off size l) (total + size).
Proof.
  intros Hs Hx I. assert (Hr : range_ok img (mkDataRange dev off size)) by (split; cbn; auto).
  assert (Ho : off <> holeOffset) by (destruct Hx; unfold holeOffset; lia).
  unfold merge_data. destruct l as [|p l _] using rev_ind; [by apply (ranges_inv_snoc img [])|].
  pose proof (ri_ok _ _ _ I) as F. apply Forall_app in F as [_ F]. inv F. destruct H1 as [P1 P2].
  rewrite last_snoc. destruct (Z.eqb_spec (dr_Offset p) holeOffset) as [E|E].
  - apply (ranges_inv_snoc img _ (mkDataRange dev off size)); auto.
    intros q Hq. rewrite last_snoc in Hq. injection Hq as <-. unfold mergeable. cbn. tauto.
  - destruct P2 as [|P2]; [done|]. pose proof P2 as (Q1 & Q2 & _).
    cbn [negb andb]. rewrite i64_in_range by lia.
    destruct (Z.eqb_spec (dr_Device p) dev) as [Ed|Ed];
      [destruct (Z.eqb_spec (dr_Offset p + dr_Size p) off) as [Eo|Eo]|]; cbn [andb].
    + rewrite removelast_last. apply ranges_inv_grow; auto. split; cbn; [lia|]. right.
      apply in_extent_join; auto. by rewrite Ed, Eo.
    + apply (ranges_inv_snoc img _ (mkDataRange dev off size)); auto.
      intros q Hq. rewrite last_snoc in Hq. injection Hq as <-. unfold mergeable. cbn. tauto.
    + apply (ranges_inv_snoc img _ (mkDataRange dev off size)); auto.
      intros q Hq. rewrite last_snoc in Hq. injection Hq as <-. unfold mergeable. cbn. tauto.
Qed.

Lemma chunk_step_inv img indexed entry size l l' total :
  image_wf img -> 0 < size -> ranges_inv img l total ->
  chunk_step img indexed entry size l = Ok l' -> ranges_inv img l' (total + size).
Proof.
  intros Hwf Hs I H. unfold chunk_step in H.
  assert (Hd : 0 <= if indexed then Z.land (get16 entry 2) (img_deviceIDMask img) else 0).
  { destruct indexed; [|done]. apply Z.land_nonneg. left. apply get16_range. }
  set (did := if indexed then Z.land _ _ else 0) in *.
  destruct (_ =? _); [apply Ok_inj in H; subst; by apply merge_hole_inv|].
  step_in H. destruct (locate img did a) as [[dev off]| |] eqn:El; [|done..].
  destruct (boundOnDevice img dev off size) as [[]| |] eqn:Eb; [|done..]. apply Ok_inj in H. subst l'.
  apply merge_data_inv; auto. apply locate_dev_range in El; auto. apply boundOnDevice_extent; auto. lia.
Qed.

Lemma chunk_loop_inv img indexed idx unit cs fs nc : image_wf img -> 0 < cs ->
  (nc - 1) * cs < fs <= nc * cs -> forall n i l l',
  0 <= i -> i + Z.of_nat n = nc -> ranges_inv img l (Z.min (i * cs) fs) ->
  chunk_loop img indexed idx unit cs fs nc n i l = Ok l' -> ranges_inv img l' fs.
Proof.
  intros Hwf Hc Hf. induction n as [|n IH]; intros i l l' Hi Hn I H; cbn [chunk_loop] in H.
  - apply Ok_inj in H. subst l'. replace fs with (Z.min (i * cs) fs) by nia. done.
  - set (size := if i =? nc - 1 then fs - i * cs else cs) in *.
    assert (Hs : 0 < size /\ Z.min (i * cs) fs + size = Z.min ((i + 1) * cs) fs).
    { unfold size. destruct (Z.eqb_spec i (nc - 1)) as [->|]; [split; nia|].
      assert ((i + 1) * cs <= (nc - 1) * cs) by nia. split; nia. }
    destruct (chunk_step _ _ _ _ _) as [l1| |] eqn:E; [|done..].
    apply (chunk_step_inv img indexed _ size l l1 (Z.min (i * cs) fs)) in E; auto; [|tauto].
    rewrite (proj2 Hs) in E. by eapply (IH (i + 1)); eauto; lia.
Qed.

Lemma locateRange_extent img pa n dev off :
  image_wf img -> 0 < n -> locateRange img pa n = Ok (dev, off) -> in_extent img dev off n.
Proof.
  intros Hwf Hn H. destruct (locateRange_facts img pa n dev off Hwf Hn H) as (_ & Hp & H1 & H2).
  unfold locateRange in H. steps_in H. destruct Hp as [[-> ->]|(d & P1 & P2 & P3 & P4 & P5)].
  - split; [lia|]. split; [lia|]. split; [auto|done].
  - destruct (dev_length_eq img Hwf d) as [_ ?]; [by apply (Forall_lookup_1 _ _ _ _ (wf_devs img Hwf) P2)|].
    specialize (H2 d P1 P2). unfold in_extent, MaxInt64. split; [lia|]. split; [lia|]. split; [intros; lia|].
    intros _. exists d. auto.
Qed.

Lemma locateStart_extent img ino n dev off :
  image_wf img -> 0 < n -> locateStart img ino n = Ok (dev, off) -> in_extent img dev off n.
Proof. intros Hwf Hn H. unfold locateStart in H. step_in H. by eapply locateRange_extent. Qed.

Lemma buildChunkDataRanges_inv img ino l :
  image_wf img -> inode_wf img ino -> 0 < ino_size ino ->
  buildChunkDataRanges img ino = Ok l -> ranges_inv img l (ino_size ino).
Proof.
  intros Hwf Hino Hs H. unfold buildChunkDataRanges in H. step_in H. step_in H.
  destruct (ReadAt _ _ _) as [idx [|]]; [done|].
  destruct (chunk_bits_eq img (u16 (ino_inodeData ino)) Hwf) as (k & Hk & Ek);
    [apply Z.mod_pos_bound; lia|].
  pose proof (wf_bits img Hwf). set (cb := chunk_bits _ _) in *.
  rewrite shiftl1, Z.shiftr_div_pow2 in H by lia.
  pose proof (Z.pow_pos_nonneg 2 cb ltac:(lia) ltac:(lia)) as Hc.
  pose proof (Z.div_mod (ino_size ino - 1) (2 ^ cb) ltac:(lia)).
  pose proof (Z.mod_pos_bound (ino_size ino - 1) (2 ^ cb) Hc).
  pose proof (Z.div_pos (ino_size ino - 1) (2 ^ cb) ltac:(lia) Hc).
  eapply chunk_loop_inv in H; eauto; [nia|lia|lia|].
  constructor; [cbn; lia|by constructor|done].
Qed.

Lemma inline_extent img a n :
  image_wf img -> checkImageRange img a n = Ok tt -> in_extent img 0 a n.
Proof.
  intros Hwf H. apply checkImageRange_spec in H as (? & ? & ? & ?); auto.
  split; [done|]. split; [done|]. split; [auto|done].
Qed.

Lemma buildDataRanges_facts img ino l :
  image_wf img -> inode_wf img ino -> 0 < ino_size ino ->
  buildDataRanges img ino [] = Ok l ->
  total_size l = ino_size ino /\ Forall (range_ok img) l /\
  (ino_inodeLayout ino = LayoutChunkBased -> separate l).
Proof.
  intros Hwf Hino Hs H. unfold buildDataRanges in H.
  pose proof (wf_bits img Hwf). pose proof (pow2_bits _ (wf_bits img Hwf)) as Hbs.
  assert (Hone : forall d o n, 0 < n -> in_extent img d o n -> Forall (range_ok img) [mkDataRange d o n]).
  { intros. constructor; [split; cbn; auto|done]. }
  destruct (wf_layout _ _ Hino) as [El|[El|El]]; rewrite El in *; cbn in H.
  - unfold flatPlainRange in H. step_in H.
    + apply Ok_inj in H. subst l. cbn. split; [lia|]. split; [|done].
      constructor; [split; cbn; auto|done].
    + destruct (locateStart _ _ _) as [[dev off]| |] eqn:E1; [|done..]. apply Ok_inj in H. subst l.
      cbn. split; [lia|]. split; [|done]. apply Hone; [done|]. by eapply locateStart_extent.
  - rewrite shiftl1 in H by lia. set (bs := 2 ^ img_bits img) in *.
    destruct (Z.leb_spec (ino_size ino) bs).
    + step_in H. destruct a. apply Ok_inj in H. subst l. cbn. split; [lia|]. split; [|done].
      apply Hone; auto. by apply inline_extent.
    + rewrite Z.quot_div_nonneg in H by lia. set (q := (ino_size ino - 1) / bs) in *.
      assert (Hq : 0 < q * bs < ino_size ino).
      { pose proof (Z.div_mod (ino_size ino - 1) bs ltac:(lia)) as Ed. fold q in Ed.
        pose proof (Z.mod_pos_bound (ino_size ino - 1) bs ltac:(lia)).
        assert (1 <= q) by (apply Z.div_le_lower_bound; lia). nia. }
      rewrite (proj2 (Z.ltb_lt 0 _)) in H by lia.
      destruct (locateStart img ino (q * bs)) as [[dev off]| |] eqn:E1; [|done..].
      step_in H. destruct a. apply Ok_inj in H. subst l. cbn. split; [lia|]. split; [|done].
      apply (Forall_app_2 _ [_] [_]); apply Hone; try lia.
      * eapply locateStart_extent; eauto. lia.
      * by apply inline_extent.
  - apply buildChunkDataRanges_inv in H as []; auto.
Qed.

(** C31: the ranges [DataRanges] reports partition the file: each has bytes,
    together they have exactly the file's size, each is a hole or lies within
    the device it names, and of a chunked file no two neighbours are one
    range (neither two holes nor a physically contiguous pair). *)
Theorem buildDataRanges_partition img ino l :
  image_wf img -> inode_wf img ino -> 0 < ino_size ino ->
  buildDataRanges img ino [] = Ok l ->
  total_size l = ino_size ino /\ Forall (range_ok img) l /\
  (ino_inodeLayout ino = LayoutChunkBased -> separate l).
Proof. apply buildDataRanges_facts. Qed.

Lemma buildDataRanges_partition_witness :
  exists l, buildDataRanges example_img example_ino [] = Ok l /\ total_size l = 5000 /\
            Forall (range_ok example_img) l.
Proof.
  eexists. split; [reflexivity|].
  destruct (buildDataRanges_partition example_img example_ino _ example_img_wf example_ino_wf
    ltac:(by vm_compute) eq_refl) as (H1 & H2 & _).
  split; [exact H1|exact H2].
Defined.

(** Building the ranges never panics. *)
Lemma locateStart_no_panic img ino n : no_panic (locateStart img ino n).
Proof. unfold no_panic, locateStart, blockAddr. destruct (_ <? _); [congruence|apply locateRange_no_panic]. Qed.

Lemma chunk_step_no_panic img indexed entry size l :
  image_wf img -> no_panic (chunk_step img indexed entry size l).
Proof.
  intros Hwf. unfold no_panic, chunk_step.
  assert (Hd : 0 <= if indexed then Z.land (get16 entry 2) (img_deviceIDMask img) else 0).
  { destruct indexed; [|done]. apply Z.land_nonneg. left. apply get16_range. }
  set (did := if indexed then Z.land _ _ else 0) in *. destruct (_ =? _); [congruence|].
  unfold chunkAddr. destruct (_ <? _); [congruence|].
  match goal with |- context [locate img did ?a] => destruct (locate img did a) as [[dev off]| |] eqn:El end;
    [|congruence|by apply locate_no_panic in El].
  apply locate_dev_range in El; auto.
  destruct (boundOnDevice img dev off size) eqn:Eb; [congruence..|].
  apply boundOnDevice_no_panic in Eb; [done|lia].
Qed.

Lemma chunk_loop_no_panic img indexed idx unit cs fs nc n : image_wf img -> forall i l,
  no_panic (chunk_loop img indexed idx unit cs fs nc n i l).
Proof.
  intros Hwf. unfold no_panic. induction n as [|n IH]; intros i l; cbn [chunk_loop]; [congruence|].
  match goal with |- context [chunk_step ?a ?b ?c ?d ?e] =>
    pose proof (chunk_step_no_panic a b c d e Hwf) as Hs; destruct (chunk_step a b c d e) end;
    [apply IH|congruence|by destruct (Hs eq_refl)].
Qed.

Lemma buildChunkDataRanges_no_panic img ino : image_wf img -> no_panic (buildChunkDataRanges img ino).
Proof.
  intros Hwf. unfold no_panic, buildChunkDataRanges. destruct (negb _); [congruence|].
  destruct (negb _); [congruence|]. destruct (ReadAt _ _ _) as [idx [|]]; [congruence|].
  by apply chunk_loop_no_panic.
Qed.

Lemma buildDataRanges_no_panic img ino dst : image_wf img -> no_panic (buildDataRanges img ino dst).
Proof.
  intros Hwf. unfold no_panic, buildDataRanges.
  destruct (_ =? _); [|destruct (_ =? _); [|destruct (_ =? _); [by apply buildChunkDataRanges_no_panic|congruence]]].
  - unfold flatPlainRange. destruct (nullAddress ino); [congruence|].
    pose proof (locateStart_no_panic img ino (ino_size ino)) as Hl.
    destruct (locateStart _ _ _) as [[]| |]; [congruence|congruence|by destruct (Hl eq_refl)].
  - match goal with |- context [locateStart ?a ?b ?c] => pose proof (locateStart_no_panic a b c) as Hl end.
    repeat match goal with
    | |- context [checkImageRange ?a ?b ?c] =>
        let H := fresh in pose proof (checkImageRange_no_panic a b c) as H;
        destruct (checkImageRange a b c); [|try congruence|by destruct (H eq_refl)]
    | |- context [locateStart ?a ?b ?c] =>
        destruct (locateStart a b c) as [[]| |]; [|try congruence|by destruct (Hl eq_refl)]
    | |- context [if ?b then _ else _] => destruct b
    end; congruence.
Qed.

(** ** A chunk map past the end of the image reads as an empty file *)

(** The map entry of the chunk at [pos], in a format the package reads, is cut
    short by the end of the image's bytes [c]. *)
Definition entry_past (img : image) (fi : inode) (c : bytes) (pos : Z) : Prop :=
  let format := u16 (ino_inodeData fi) in
  let unit := if chunk_indexed format then 8 else 4 in
  let entryPos := chunk_base img fi format + Z.shiftr pos (chunk_bits img format) * unit in
  ino_inodeLayout fi = LayoutChunkBased /\
  andnot format (Z.lor LayoutChunkFormatBits LayoutChunkFormatIndexes) = 0 /\
  0 <= chunk_base img fi format /\ entryPos <= MaxInt64 /\ zlen c < entryPos + unit.

Section Past.
Context (img : image) (fi : inode) (c : bytes) (pos : Z).
Context (Hwf : image_wf img) (Hino : inode_wf img fi) (Hnid : is_u64 (ino_nid fi)) (Hback : Backed (img_meta img) c).
Context (Hpos : 0 <= pos < ino_size fi) (Hpast : entry_past img fi c pos).

Lemma short_read off n : 0 <= off -> 0 < n -> zlen c < off + n -> exists b, ReadAt (img_meta img) off n = (b, Some EOF).
Proof using Hback.
  intros Ho Hn Hs. pose proof (backed_bytes off n Ho ltac:(lia)) as B. pose proof (backed_short off n Ho ltac:(lia)) as S.
  destruct (ReadAt (img_meta img) off n) as [b err]. cbn in B, S. exists b. f_equal. apply S. subst b.
  unfold sub, zlen in *. rewrite length_take, length_drop. lia.
Qed.

Lemma loadBlock_past : loadBlock img fi pos = Err EOF.
Proof using Hwf Hback Hpos Hpast.
  destruct Hpast as (Hl & Hf & Hb0 & Hm & Hz). pose proof (wf_bits img Hwf) as Hb.
  unfold loadBlock. rewrite Z.shiftr_div_pow2 by lia.
  pose proof (calculateBlocks_pos (img_bits img) (ino_size fi) pos ltac:(lia) Hpos).
  rewrite (proj2 (Z.leb_gt _ _)) by done. rewrite Hl. cbn [Z.eqb LayoutChunkBased LayoutFlatPlain LayoutFlatInline Pos.eqb].
  unfold loadBlock_chunk. set (format := u16 (ino_inodeData fi)) in *.
  assert (Hfmt : is_u16 format) by (unfold format, is_u16, u16; apply Z.mod_pos_bound; lia).
  rewrite (chunk_format_48 format Hfmt Hf), Hf. cbn [Z.eqb negb].
  destruct (chunk_bits_eq img format Hwf Hfmt) as (k & Hk & Ek). rewrite Ek in *.
  rewrite !Z.shiftr_div_pow2 in * by lia. set (cb := 2 ^ (img_bits img + k)) in *.
  assert (0 < cb) by (unfold cb; lia).
  pose proof (Z.div_le_mono pos (ino_size fi - 1) cb ltac:(lia) ltac:(lia)).
  rewrite (proj2 (Z.leb_gt _ _)) by lia. pose proof (Z.div_pos pos cb ltac:(lia) ltac:(lia)).
  set (unit := if chunk_indexed format then 8 else 4) in *.
  assert (Hu : 0 < unit) by (unfold unit; destruct (chunk_indexed format); lia).
  set (ep := chunk_base img fi format + pos / cb * unit) in *. assert (He : 0 <= ep) by (unfold ep; nia).
  rewrite i64_id by (unfold MaxInt64 in *; lia). destruct (short_read ep unit He Hu Hz) as [b ->]. done.
Qed.

Lemma openDirect_past : openDirect img fi = Ok None.
Proof using Hwf Hino Hnid Hback Hpos Hpast.
  destruct Hpast as (Hl & Hf & Hb0 & Hm & Hz). pose proof (wf_bits img Hwf) as Hb. pose proof (wf_isize _ _ Hino) as Hs.
  unfold openDirect. rewrite (proj2 (Z.leb_gt _ _)) by lia. rewrite Hl.
  cbn [Z.eqb LayoutChunkBased LayoutFlatPlain LayoutFlatInline Pos.eqb].
  unfold openDirect_chunk. rewrite <- (inode_addr_eq img fi Hwf Hino Hnid).
  set (format := u16 (ino_inodeData fi)) in *.
  destruct (Z.land format LayoutChunkFormatIndexes =? 0) eqn:Ei; [done|].
  assert (Hx : chunk_indexed format = true) by (unfold chunk_indexed; by rewrite Ei).
  rewrite Hf. cbn [Z.eqb negb]. unfold chunk_base in Hb0, Hz, Hm. rewrite Hx in Hb0, Hz, Hm.
  set (base := align8 _) in *.
  assert (Hfmt : is_u16 format) by (unfold format, is_u16, u16; apply Z.mod_pos_bound; lia).
  destruct (chunk_bits_eq img format Hwf Hfmt) as (k & Hk & Ek). rewrite Ek in *.
  rewrite !Z.shiftr_div_pow2 in * by lia. set (cb := 2 ^ (img_bits img + k)) in *.
  assert (Hcb : 2 ^ 9 <= cb) by (apply Z.pow_le_mono_r; lia). change (2 ^ 9) with 512 in Hcb.
  pose proof (Z.div_le_mono pos (ino_size fi - 1) cb ltac:(lia) ltac:(lia)).
  pose proof (Z.div_pos pos cb ltac:(lia) ltac:(lia)).
  assert (Hn : (ino_size fi - 1) / cb <= MaxInt64 / 512).
  { etransitivity; [apply (Z.div_le_compat_l _ 512); lia|]. apply Z.div_le_mono; lia. }
  change (MaxInt64 / 512) with 18014398509481983 in Hn. change SizeChunkIndex with 8.
  rewrite i64_id by lia.
  destruct (chunkIndexFits _ _ _); [|done]. cbn [negb].
  destruct (short_read base (((ino_size fi - 1) / cb + 1) * 8) ltac:(lia) ltac:(lia) ltac:(lia)) as [b ->]. done.
Qed.
End Past.

(** The load of a chunk map entry cut short by the end of the image hands
    the reader's own [io.EOF] on, where every other structure past the image is
    [ErrCorrupt].  So wherever a file's chunk map ends early, [Read] answers
    the end of the file before the file's size, at whatever offset below it,
    [WriteTo] succeeds having copied nothing more, and only [readAll] reports
    the corruption. *)
Theorem chunk_map_past_image img f fi f' c n :
  image_wf img -> Backed (img_meta img) c -> file_wf img f -> readInfo img f = (Ok fi, f') -> is_u64 (ino_nid fi) ->
  f_offset f < ino_size fi -> entry_past img fi c (f_offset f) -> 0 < n ->
  loadBlock img fi (f_offset f) = Err EOF /\
  (exists f'', Read img f n = Ok (mkRead [] (Some EOF), f'') /\ f_offset f'' = f_offset f) /\
  (exists f'', WriteTo img f = Ok (mkRead [] None, f'') /\ f_offset f'' = f_offset f) /\
  readAll img f n = Err ErrCorrupt.
Proof.
  intros Hwf Hback Hf Hr Hnid Ho Hpast Hn.
  destruct (readInfo_cases img f Hf) as [(e & ? & Er & _)|(fi' & Er & Hino & Hf1)]; [congruence|].
  rewrite Er in Hr. injection Hr as -> <-. pose proof (fwf_offset _ _ Hf) as H0.
  pose proof (loadBlock_past img fi c _ Hwf Hback (conj H0 Ho) Hpast) as HL.
  pose proof (openDirect_past img fi c _ Hwf Hino Hnid Hback (conj H0 Ho) Hpast) as HD.
  destruct (directReader_cases img _ fi Hwf Hf1 eq_refl) as (sr & f2 & Ed & Es & _ & E2 & _).
  rewrite HD in Es. apply Ok_inj in Es as <-. cbn in E2.
  assert (HR : Read img f n = Ok (mkRead [] (Some EOF), with_offset f2 (f_offset f))).
  { unfold Read. rewrite Er, Ed, E2. destruct (Z.to_nat n) as [|k] eqn:Ek; [lia|]. cbn [read_blocks].
    rewrite (proj2 (Z.leb_gt n 0)), (proj2 (Z.leb_gt (ino_size fi) _)) by lia. by rewrite HL. }
  split; [done|]. split; [eexists; by rewrite HR|]. split.
  - eexists. unfold WriteTo. rewrite Er. cbn [f_offset with_info]. rewrite (proj2 (Z.leb_gt _ _)) by lia.
    rewrite Ed, E2. destruct (Z.to_nat (ino_size fi)) as [|k] eqn:Ek; [lia|]. cbn [write_blocks].
    rewrite (proj2 (Z.leb_gt (ino_size fi) _)) by lia. rewrite HL. done.
  - unfold readAll. rewrite (proj2 (Z.eqb_neq n 0)) by lia. destruct (Z.to_nat n) as [|k] eqn:Ek; [lia|]. cbn [ReadFull].
    change (zlen (@nil Byte.byte)) with 0. rewrite Z.sub_0_r, HR. rewrite (proj2 (Z.leb_gt n 0)) by lia.
    cbn [rd_data rd_err app]. change (zlen (@nil Byte.byte)) with 0. by rewrite (proj2 (Z.leb_gt n 0)) by lia.
Qed.

(** [example_img] with a chunk-based file of 5000 bytes as its last inode, nid
    383: the chunk map would start where the image ends. *)
Definition eof_content : bytes :=
  put32 (Z.to_nat 16368) 0x20 (put32 (Z.to_nat 16360) 5000
    (put16 (Z.to_nat 16356) 0x81A4 (put16 (Z.to_nat 16352) 8 (zeros (Z.to_nat 16384))))).

Definition eof_img : image :=
  {| img_sb := example_sb; img_size := 16384; img_meta := bytes_reader eof_content;
     img_devices := []; img_deviceIDMask := 0; img_longPrefixes := [] |}.

Lemma eof_img_wf : image_wf eof_img.
Proof. constructor; cbn; try done. Qed.

Lemma chunk_map_past_image_witness :
  let f := new_file (bs "f") 383 0 in
  (exists f', Read eof_img f 512 = Ok (mkRead [] (Some EOF), f')) /\
  (exists f', WriteTo eof_img f = Ok (mkRead [] None, f')).
Proof.
  cbn zeta. set (f := new_file (bs "f") 383 0).
  destruct (readInfo eof_img f) as [[fi| |] f'] eqn:E; try (exfalso; vm_compute in E; discriminate E).
  assert (Ei : fi = match (readInfo eof_img f).1 with Ok i => i | _ => fi end) by (by rewrite E).
  vm_compute in Ei.
  destruct (chunk_map_past_image eof_img f fi f' eof_content 512 eof_img_wf (bytes_reader_backed _) (new_file_wf _ _ _ _) E)
    as (_ & (f1 & H1 & _) & (f2 & H2 & _) & _).
  - rewrite Ei. by split.
  - rewrite Ei. reflexivity.
  - rewrite Ei. split; [reflexivity|]. split; [reflexivity|]. split; [by vm_compute|]. split; by vm_compute.
  - reflexivity.
  - split; [by exists f1|by exists f2].
Defined.
