(* ===== verification/Dir.v ===== *)
(** * Directories: lookup and listing ([erofs.go])

    A directory's data is a run of blocks, each a table of dirents followed by
    the names; names ascend within a block and from block to block.  [lookup]
    searches the blocks, then the block; [ReadDir] walks them in pages.  Every
    name is checked before it leaves. *)

From S2P Require Import Prelude Machine Disk Format Image Inode Data.

(** ** Names *)

Definition contains (b : bytes) (c : byte) : bool := 0 <=? IndexByte b c.

Definition checkDirentName (name : bytes) : res unit :=
  reject zlen name =? 0 with ErrCorrupt ;;
  reject contains name x2f with ErrCorrupt ;;
  reject contains name x00 with ErrCorrupt ;;
  Ok tt.

(** ** One block *)

Definition blockFirstName (buf : bytes) : res bytes :=
  reject zlen buf <? SizeDirent with ErrCorrupt ;;
  let! first := Dirent_Unmarshal buf in
  let nameOff := de_NameOff first in
  let entryN := nameOff / SizeDirent in
  reject (entryN =? 0) || (zlen buf <? nameOff) with ErrCorrupt ;;
  let! nameEnd :=
    (if 1 <? entryN then
       let nextOff := SizeDirent + 8 in
       reject zlen buf <? nextOff + 2 with ErrCorrupt ;;
       Ok (get16 buf (Z.to_nat nextOff))
     else Ok (zlen buf)) in
  reject (nameEnd <? nameOff) || (zlen buf <? nameEnd) with ErrCorrupt ;;
  let! name := slice buf nameOff nameEnd in
  let! name := cut_nul name in
  let! _ := checkDirentName name in
  Ok name.

(** Where the name of entry [i] ends: at the next entry's name, or the block's
    end. *)
Definition dirent_name_end (buf : bytes) (i entryN : Z) : res Z :=
  if i <? entryN - 1 then
    let nextOff := SizeDirent * (i + 1) + 8 in
    reject zlen buf <? nextOff + 2 with ErrCorrupt ;;
    Ok (get16 buf (Z.to_nat nextOff))
  else Ok (zlen buf).

Definition blockDirent (buf : bytes) (i entryN : Z) : res (Dirent * bytes) :=
  let off := SizeDirent * i in
  reject zlen buf <? off + SizeDirent with ErrCorrupt ;;
  let! rest := slice buf off (zlen buf) in
  let! de := Dirent_Unmarshal rest in
  let nameOff := de_NameOff de in
  let! nameEnd := dirent_name_end buf i entryN in
  reject (nameEnd <? nameOff) || (zlen buf <? nameEnd) with ErrCorrupt ;;
  let! name := slice buf nameOff nameEnd in
  let! name := (if i =? entryN - 1 then cut_nul name else Ok name) in
  let! _ := checkDirentName name in
  Ok (de, name).

(** The binary search of [lookupBlock] over entries [lo, hi).  Fuel that runs
    out is a panic, so the theorems below show it does not. *)
Fixpoint search_block (fuel : nat) (buf target : bytes) (entryN lo hi : Z) : res (Z * Z) :=
  if hi <=? lo then Err ErrNotExist else
  match fuel with
  | O => Panic
  | S fuel =>
      let mid := lo + Z.quot (hi - lo) 2 in
      let! (de, name) := blockDirent buf mid entryN in
      match Compare name target with
      | Eq => Ok (de_Nid de, EroFSFtypeToFileMode (de_FileType de))
      | Lt => search_block fuel buf target entryN (mid + 1) hi
      | Gt => search_block fuel buf target entryN lo mid
      end
  end.

Definition lookupBlock (buf target : bytes) : res (Z * Z) :=
  reject zlen buf <? SizeDirent with ErrCorrupt ;;
  let! first := Dirent_Unmarshal buf in
  reject negb (de_NameOff first mod SizeDirent =? 0) with ErrCorrupt ;;
  let entryN := de_NameOff first / SizeDirent in
  reject zlen buf <? de_NameOff first with ErrCorrupt ;;
  search_block (Z.to_nat entryN) buf target entryN 0 entryN.

(** ** Lookup across blocks *)

(** The loop of [lookup]: the last loaded block whose first name is at most
    the target, [None] while there is none. *)
Fixpoint search_dir (fuel : nat) (img : image) (fi : inode) (target : bytes) (blkSize lo hi : Z)
  (lastBlk : option bytes) : res (option bytes) :=
  if hi <=? lo then Ok lastBlk else
  match fuel with
  | O => Panic
  | S fuel =>
      let mid := lo + Z.quot (hi - lo) 2 in
      match loadBlock img fi (mid * blkSize) with
      | Panic => Panic
      | Err e => if errors_Is e EOF then search_dir fuel img fi target blkSize lo mid lastBlk else Err e
      | Ok buf =>
          let! firstName := blockFirstName buf in
          match Compare firstName target with
          | Gt => search_dir fuel img fi target blkSize lo mid lastBlk
          | _ => search_dir fuel img fi target blkSize (mid + 1) hi (Some buf)
          end
      end
  end.

(** [dir.lookup], its inode read. *)
Definition lookup_inode (img : image) (fi : inode) (target : bytes) : res (Z * Z) :=
  let blkSize := Z.shiftl 1 (img_bits img) in
  let nblocks := Z.quot (i64 (ino_size fi + blkSize - 1)) blkSize in
  let! lastBlk := search_dir (Z.to_nat nblocks) img fi target blkSize 0 nblocks None in
  match lastBlk with
  | None => Err ErrNotExist
  | Some buf => lookupBlock buf target
  end.

Definition lookup (img : image) (f : file) (target : bytes) : res (Z * Z) * file :=
  match readInfo img f with
  | (Panic, f) => (Panic, f)
  | (Err e, f) => (Err e, f)
  | (Ok fi, f) => (lookup_inode img fi target, f)
  end.

(** ** Listing *)

Record direntry := mkDirentry { ent_name : bytes; ent_nid : Z; ent_ftype : Z }.

Record dir := mkDir { d_file : file; d_bn : Z; d_consumed : Z }.

(** [fs.ReadDirFile.ReadDir]: the entries, the error, the directory's state. *)
Record readdir_result := mkReadDir { rdd_ents : list direntry; rdd_err : option goerr; rdd_dir : dir }.

Definition is_dot (name : bytes) : bool := beqb name (bs ".") || beqb name (bs "..").

(** The name of entry [i] in [ReadDir]'s walk, [cur] its dirent, and the dirent
    after it ([dirents[1]], the one before when [i] is the last). *)
Definition readdir_name (buf names : bytes) (nameBase entryN i : Z) (cur next : Dirent)
  : res (bytes * Dirent) :=
  let bufLen := zlen buf in
  let lo := de_NameOff cur in
  let! (hi, next) :=
    (if i <? entryN - 1 then
       let start := SizeDirent * (i + 1) in
       reject bufLen <? start + SizeDirent with ErrCorrupt ;;
       let! rest := slice buf start bufLen in
       let! next := Dirent_Unmarshal rest in
       reject (bufLen <? lo) || (bufLen <? de_NameOff next) || (de_NameOff next <? lo)
         with ErrCorrupt ;;
       Ok (de_NameOff next, next)
     else
       reject bufLen <? lo with ErrCorrupt ;;
       let! rest := slice buf lo bufLen in
       let j := IndexByte rest x00 in
       Ok (if 0 <=? j then lo + j else bufLen, next)) in
  reject lo <? nameBase with ErrCorrupt ;;
  let! raw := slice buf lo hi in
  let! _ := checkDirentName raw in
  let! name := slice names (lo - nameBase) (hi - nameBase) in
  Ok (name, next).

(** How the walk of one block ended: every entry seen, [n] entries collected
    (with whether that was at the block's last entry), or an error. *)
Inductive walk :=
| walk_end (ents : list direntry)
| walk_full (ents : list direntry) (consumed : Z) (at_end : bool)
| walk_err (ents : list direntry) (consumed : Z) (e : goerr).

(** The loop over a block's entries: [k] of them left from [i]; [want] is the
    length of the slab of entries, [used] how many of it are handed out. *)
Fixpoint walk_block (k : nat) (buf names : bytes) (nameBase entryN n want : Z)
  (i used consumed : Z) (cur next : Dirent) (ents : list direntry) : res walk :=
  match k with
  | O => Ok (walk_end ents)
  | S k =>
      match readdir_name buf names nameBase entryN i cur next with
      | Panic => Panic
      | Err e => Ok (walk_err ents consumed e)
      | Ok (name, next) =>
          if (consumed <=? i) && negb (is_dot name) then
            if want <=? used then Panic else
            let ents := ents ++ [mkDirentry name (de_Nid cur) (EroFSFtypeToFileMode (de_FileType cur))] in
            let consumed := u16 (i + 1) in
            if (0 <? n) && (zlen ents =? n)
            then Ok (walk_full ents consumed (i =? entryN - 1))
            else walk_block k buf names nameBase entryN n want (i + 1) (used + 1) consumed next next ents
          else walk_block k buf names nameBase entryN n want (i + 1) used consumed next next ents
      end
  end.

Definition zero_dirent : Dirent := mkDirent 0 0 0 0.

(** One iteration of the block loop: the checks of the first dirent, then the
    walk. *)
Definition readdir_block (buf : bytes) (n consumed : Z) (ents : list direntry) : res walk :=
  if zlen buf <? SizeDirent then Ok (walk_err ents consumed ErrCorrupt) else
  let! first := Dirent_Unmarshal buf in
  let entryN := de_NameOff first / SizeDirent in
  if (zlen buf <=? de_NameOff first) || (entryN =? 0) || negb (de_NameOff first mod SizeDirent =? 0)
  then Ok (walk_err ents consumed ErrCorrupt) else
  let nameBase := de_NameOff first in
  let! names := slice buf nameBase (zlen buf) in
  let want := Z.max (entryN - consumed) 0 in
  let want := if (0 <? n) && (n <? want) then n else want in
  walk_block (Z.to_nat entryN) buf names nameBase entryN n want 0 0 consumed first zero_dirent ents.

Fixpoint readdir_loop (fuel : nat) (img : image) (fi : inode) (n : Z) (d : dir) (ents : list direntry)
  : res readdir_result :=
  let pos := i64 (Z.shiftl (d_bn d) (img_bits img)) in
  let finish := Ok (mkReadDir ents (if 0 <? n then Some EOF else None) d) in
  if ino_size fi <=? pos then finish else
  match fuel with
  | O => Panic
  | S fuel =>
      match loadBlock img fi pos with
      | Panic => Panic
      | Err e => if errors_Is e EOF then finish else Ok (mkReadDir [] (Some e) d)
      | Ok buf =>
          let! w := readdir_block buf n (d_consumed d) ents in
          match w with
          | walk_err ents consumed e =>
              Ok (mkReadDir ents (Some e) (mkDir (d_file d) (d_bn d) consumed))
          | walk_full ents consumed at_end =>
              Ok (mkReadDir ents None
                    (if at_end then mkDir (d_file d) (d_bn d + 1) 0
                     else mkDir (d_file d) (d_bn d) consumed))
          | walk_end ents => readdir_loop fuel img fi n (mkDir (d_file d) (d_bn d + 1) 0) ents
          end
      end
  end.

Definition ReadDir (img : image) (d : dir) (n : Z) : res readdir_result :=
  match readInfo img (d_file d) with
  | (Panic, _) => Panic
  | (Err e, f) => Ok (mkReadDir [] (Some e) (mkDir f (d_bn d) (d_consumed d)))
  | (Ok fi, f) =>
      readdir_loop (Z.to_nat (calculateBlocks (img_bits img) (ino_size fi))) img fi n
        (mkDir f (d_bn d) (d_consumed d)) []
  end.

(** ** Names that leave the decoder *)

(** A name that can serve as a path element. *)
Definition good_name (name : bytes) : Prop := name <> [] /\ (x2f ∉ name) /\ (x00 ∉ name).

Lemma contains_spec b c : contains b c = true <-> c ∈ b.
Proof.
  unfold contains. destruct (IndexByte_spec b c) as [[-> H]|(H1 & H2 & _)]; split.
  - done.
  - intros. done.
  - intros _. by eapply list_elem_of_lookup_2.
  - intros _. apply Z.leb_le. lia.
Qed.

Lemma checkDirentName_spec name : checkDirentName name = Ok tt <-> good_name name.
Proof.
  unfold checkDirentName, good_name. destruct (Z.eqb_spec (zlen name) 0) as [E|E].
  { split; [done|]. intros [H _]. destruct name; [done|]. rewrite zlen_cons in E.
    pose proof (zlen_nonneg name). lia. }
  assert (name <> []) by (intros ->; by apply E).
  destruct (contains name x2f) eqn:E1.
  { apply contains_spec in E1. split; [done|]. tauto. }
  destruct (contains name x00) eqn:E2.
  { apply contains_spec in E2. split; [done|]. tauto. }
  split; [|done]. intros _. split; [done|]. split; intros Hx; apply contains_spec in Hx; congruence.
Qed.

Lemma checkDirentName_cases name :
  checkDirentName name = Ok tt \/ checkDirentName name = Err ErrCorrupt.
Proof. unfold checkDirentName. repeat case_match; auto. Qed.

Lemma good_name_nonempty name : good_name name -> 0 < zlen name.
Proof. intros [H _]. destruct name; [done|]. rewrite zlen_cons. pose proof (zlen_nonneg name). lia. Qed.

(** ** A block's entries *)

Lemma Dirent_Unmarshal_ok b : SizeDirent <= zlen b -> exists d, Dirent_Unmarshal b = Ok d.
Proof. intros. unfold Dirent_Unmarshal. rewrite (proj2 (Z.ltb_ge _ _)) by lia. by eexists. Qed.

Lemma dirent_name_end_cases buf i entryN :
  dirent_name_end buf i entryN = Err ErrCorrupt \/
  exists e, dirent_name_end buf i entryN = Ok e /\
    (i < entryN - 1 -> e = get16 buf (Z.to_nat (SizeDirent * (i + 1) + 8)) /\
                       SizeDirent * (i + 1) + 10 <= zlen buf) /\
    (entryN - 1 <= i -> e = zlen buf).
Proof.
  unfold dirent_name_end. destruct (Z.ltb_spec i (entryN - 1)).
  - destruct (Z.ltb_spec (zlen buf) (SizeDirent * (i + 1) + 8 + 2)); [by left|right].
    eexists. split; [done|]. split; [|lia]. intros _. split; [done|lia].
  - right. eexists. split; [done|]. split; [lia|done].
Qed.

(** What [blockDirent] yields: the dirent at its place in the table, a name
    between its offset and the next one's, cut at a NUL if it is the last. *)
Record dirent_at (buf : bytes) (i entryN : Z) (de : Dirent) (name : bytes) (nameEnd : Z) : Prop := {
  da_table : SizeDirent * i + SizeDirent <= zlen buf;
  da_dirent : Dirent_Unmarshal (sub buf (Z.to_nat (SizeDirent * i))
                                  (Z.to_nat (zlen buf - SizeDirent * i))) = Ok de;
  da_next : i < entryN - 1 -> nameEnd = get16 buf (Z.to_nat (SizeDirent * (i + 1) + 8)) /\
                              SizeDirent * (i + 1) + 10 <= zlen buf;
  da_last : entryN - 1 <= i -> nameEnd = zlen buf;
  da_bounds : 0 <= de_NameOff de < nameEnd /\ nameEnd <= zlen buf;
  da_name : name = if i =? entryN - 1
    then until_nul (sub buf (Z.to_nat (de_NameOff de)) (Z.to_nat (nameEnd - de_NameOff de)))
    else sub buf (Z.to_nat (de_NameOff de)) (Z.to_nat (nameEnd - de_NameOff de));
  da_good : good_name name
}.

(** [blockDirent] on any entry of any block: no panic, and what it yields has
    a name within the block that can serve as a path element. *)
Lemma blockDirent_cases buf i entryN :
  0 <= i ->
  blockDirent buf i entryN = Err ErrCorrupt \/
  exists de name nameEnd, blockDirent buf i entryN = Ok (de, name) /\
                          dirent_at buf i entryN de name nameEnd.
Proof.
  intros Hi. unfold blockDirent.
  destruct (Z.ltb_spec (zlen buf) (SizeDirent * i + SizeDirent)) as [|H1]; [by left|].
  rewrite slice_ok by (unfold SizeDirent in *; lia).
  destruct (Dirent_Unmarshal_ok (sub buf (Z.to_nat (SizeDirent * i)) (Z.to_nat (zlen buf - SizeDirent * i))))
    as [de Hde]; [unfold zlen, SizeDirent in *; rewrite length_sub; lia|].
  rewrite Hde. pose proof (Dirent_Unmarshal_ranges _ _ Hde) as (_ & Hno & _). unfold is_u16 in Hno.
  destruct (dirent_name_end_cases buf i entryN) as [->|(e & -> & He1 & He2)]; [by left|].
  destruct ((e <? de_NameOff de) || (zlen buf <? e)) eqn:E; [by left|]. zbool.
  rewrite slice_ok by lia.
  set (raw := sub buf (Z.to_nat (de_NameOff de)) (Z.to_nat (e - de_NameOff de))).
  set (name := if i =? entryN - 1 then until_nul raw else raw).
  replace (if i =? entryN - 1 then cut_nul raw else Ok raw) with (@Ok bytes name)
    by (unfold name; rewrite cut_nul_until; by destruct (i =? entryN - 1)).
  destruct (checkDirentName_cases name) as [Hc| ->]; [|by left]. rewrite Hc. right.
  apply checkDirentName_spec in Hc. exists de, name, e. split; [done|]. constructor; auto.
  assert (de_NameOff de <> e); [|lia]. intros Ex.
  apply good_name_nonempty in Hc. unfold name, raw in Hc. rewrite Ex, Z.sub_diag in Hc.
  unfold sub in Hc. cbn in Hc. destruct (i =? entryN - 1); cbn in Hc; by vm_compute in Hc.
Qed.

Lemma blockDirent_inv buf i entryN de name :
  0 <= i -> blockDirent buf i entryN = Ok (de, name) ->
  exists nameEnd, dirent_at buf i entryN de name nameEnd.
Proof.
  intros Hi H. destruct (blockDirent_cases buf i entryN Hi) as [E|(de' & name' & e & E & D)]; [congruence|].
  rewrite E in H. apply Ok_inj in H. injection H as -> ->. eauto.
Qed.

(** A block's table of entries, as [blockDirent] decodes it. *)
Record block_view (buf : bytes) (l : list (Dirent * bytes)) : Prop := {
  bv_first : exists d0 n0 t, l = (d0, n0) :: t /\ de_NameOff d0 = SizeDirent * zlen l;
  bv_entries : forall i de name, l !! i = Some (de, name) ->
    blockDirent buf (Z.of_nat i) (zlen l) = Ok (de, name)
}.

Definition names_of (l : list (Dirent * bytes)) : list bytes := snd <$> l.

Lemma Dirent_Unmarshal_prefix buf n :
  SizeDirent <= n -> n <= zlen buf ->
  Dirent_Unmarshal (sub buf 0 (Z.to_nat n)) = Dirent_Unmarshal buf.
Proof.
  intros H1 H2. unfold Dirent_Unmarshal, SizeDirent, zlen in *. rewrite length_sub by lia.
  rewrite !(proj2 (Z.ltb_ge _ _)) by lia. unfold get64, get16, get8. by rewrite !sub_sub by lia.
Qed.

(** The first dirent of a viewed block. *)
Lemma view_first buf l :
  block_view buf l ->
  exists d0 n0 t, l = (d0, n0) :: t /\ Dirent_Unmarshal buf = Ok d0 /\
    de_NameOff d0 = SizeDirent * zlen l /\ SizeDirent <= zlen buf /\ de_NameOff d0 < zlen buf.
Proof.
  intros [(d0 & n0 & t & El & Eo) He]. exists d0, n0, t. split; [done|].
  specialize (He 0%nat d0 n0 ltac:(by rewrite El)).
  apply blockDirent_inv in He as [e [D1 D2 _ _ D5 _ _]]; [|lia].
  change (SizeDirent * Z.of_nat 0) with 0 in *. rewrite Z.sub_0_r in D2.
  rewrite Dirent_Unmarshal_prefix in D2 by lia. split; [done|]. split; [done|]. lia.
Qed.

(** ** The search within a block *)

Lemma sorted_lookup {A} (R : A -> A -> Prop) l i j a b :
  StronglySorted R l -> (i < j)%nat -> l !! i = Some a -> l !! j = Some b -> R a b.
Proof.
  intros Hs. revert i j. induction Hs as [|x l Hs IH Hf]; intros i j Hij Hi Hj; [done|].
  destruct i as [|i], j as [|j]; cbn in *; try lia.
  - injection Hi as ->. by eapply (Forall_lookup_1 _ _ _ _ Hf).
  - eapply (IH i j); eauto. lia.
Qed.

Lemma names_of_lookup l i de name : l !! i = Some (de, name) -> names_of l !! i = Some name.
Proof. intros H. unfold names_of. by rewrite list_lookup_fmap, H. Qed.

Lemma names_of_elem l x :
  x ∈ names_of l -> exists i de, l !! i = Some (de, x).
Proof.
  intros H. apply list_elem_of_lookup in H as [i H]. unfold names_of in H.
  rewrite list_lookup_fmap in H. destruct (l !! i) as [[de n]|] eqn:E; [|done].
  injection H as <-. eauto.
Qed.

Lemma mid_range lo hi : 0 <= lo < hi -> lo <= lo + Z.quot (hi - lo) 2 < hi.
Proof.
  intros. rewrite Z.quot_div_nonneg by lia.
  pose proof (Z.div_pos (hi - lo) 2 ltac:(lia) ltac:(lia)).
  pose proof (Z.div_lt (hi - lo) 2 ltac:(lia) ltac:(lia)). lia.
Qed.

(** The answer for an entry. *)
Definition entry_answer (de : Dirent) : Z * Z := (de_Nid de, EroFSFtypeToFileMode (de_FileType de)).

(** What a correct lookup answers: the entry of that name, or that there is
    none. *)
Definition lookup_answers (l : list (Dirent * bytes)) (target : bytes) (r : res (Z * Z)) : Prop :=
  (exists i de, l !! i = Some (de, target) /\ r = Ok (entry_answer de)) \/
  ((target ∉ names_of l) /\ r = Err ErrNotExist).

Lemma search_block_spec buf l target :
  block_view buf l -> StronglySorted name_lt (names_of l) ->
  forall fuel lo hi, 0 <= lo -> hi <= zlen l -> hi - lo <= Z.of_nat fuel ->
  (forall i x, names_of l !! i = Some x -> Z.of_nat i < lo -> name_lt x target) ->
  (forall i x, names_of l !! i = Some x -> hi <= Z.of_nat i -> name_lt target x) ->
  lookup_answers l target (search_block fuel buf target (zlen l) lo hi).
Proof.
  intros [_ He] Hs. induction fuel as [|fuel IH]; intros lo hi Hlo Hhi Hf Hl Hh; cbn [search_block];
    destruct (Z.leb_spec hi lo) as [Hd|Hd]; try lia.
  1, 2: right; split; [|done]; intros Hx; apply list_elem_of_lookup in Hx as [i Hi];
    destruct (Z.lt_ge_cases (Z.of_nat i) lo) as [H|H];
    [apply (name_lt_irrefl target), (Hl i); done|apply (name_lt_irrefl target), (Hh i); [done|lia]].
  pose proof (mid_range lo hi ltac:(lia)) as Hm. set (mid := lo + Z.quot (hi - lo) 2) in *.
  destruct (lookup_lt_is_Some_2 l (Z.to_nat mid)) as [[de name] Hde]; [unfold zlen in *; lia|].
  pose proof (He _ _ _ Hde) as Hb. rewrite Z2Nat.id in Hb by lia. rewrite Hb.
  pose proof (names_of_lookup _ _ _ _ Hde) as Hn.
  destruct (Compare name target) eqn:Ec.
  - apply Compare_eq in Ec. subst. left. eauto.
  - apply IH; auto; try lia. intros i x Hi Hx.
    destruct (Z.eq_dec (Z.of_nat i) mid) as [Ei|].
    + replace i with (Z.to_nat mid) in Hi by lia. rewrite Hn in Hi. by injection Hi as <-.
    + transitivity name; [|done]. apply (sorted_lookup name_lt (names_of l) i (Z.to_nat mid)); auto. lia.
  - apply Compare_gt_lt in Ec. apply IH; auto; try lia. intros i x Hi Hx.
    destruct (Z.eq_dec (Z.of_nat i) mid) as [Ei|].
    + replace i with (Z.to_nat mid) in Hi by lia. rewrite Hn in Hi. by injection Hi as <-.
    + transitivity name; [done|]. apply (sorted_lookup name_lt (names_of l) (Z.to_nat mid) i); auto. lia.
Qed.

Lemma lookupBlock_view buf l target :
  block_view buf l -> StronglySorted name_lt (names_of l) ->
  lookup_answers l target (lookupBlock buf target).
Proof.
  intros Hv Hs. destruct (view_first buf l Hv) as (d0 & n0 & t & El & Hu & Ho & Hlen & Hlt).
  unfold lookupBlock. rewrite (proj2 (Z.ltb_ge _ _)) by lia. rewrite Hu, Ho.
  rewrite (Z.mul_comm SizeDirent), Z.mod_mul, Z.div_mul by done. cbn [negb Z.eqb].
  rewrite (proj2 (Z.ltb_ge _ _)) by (unfold SizeDirent in *; lia).
  pose proof (zlen_nonneg l). apply search_block_spec; auto; try lia.
  intros i x Hi Hx. apply lookup_lt_Some in Hi. unfold names_of in Hi. rewrite length_fmap in Hi.
  unfold zlen in Hx. lia.
Qed.

(** ** The search across blocks *)

Lemma blockFirstName_view buf l :
  block_view buf l -> exists d0 n0 t, l = (d0, n0) :: t /\ blockFirstName buf = Ok n0.
Proof.
  intros Hv. destruct (view_first buf l Hv) as (d0 & n0 & t & El & Hu & Ho & Hlen & Hlt).
  exists d0, n0, t. split; [done|]. destruct Hv as [_ He].
  specialize (He 0%nat d0 n0 ltac:(by rewrite El)).
  apply blockDirent_inv in He as [e [_ _ D3 D4 D5 D6 D7]]; [|lia].
  change (Z.of_nat 0) with 0 in *. unfold blockFirstName.
  rewrite (proj2 (Z.ltb_ge _ _)) by lia. rewrite Hu, Ho.
  rewrite (Z.mul_comm SizeDirent), Z.div_mul by done.
  assert (Hl1 : 0 < zlen l) by (rewrite El, zlen_cons; pose proof (zlen_nonneg t); lia).
  rewrite (proj2 (Z.eqb_neq _ _)) by lia. rewrite (proj2 (Z.ltb_ge _ _)) by lia. cbn [orb].
  replace (if 1 <? zlen l then _ else _) with (@Ok Z e).
  2:{ unfold SizeDirent in *. destruct (Z.ltb_spec 1 (zlen l)).
      - destruct (D3 ltac:(lia)) as [-> ?]. by rewrite (proj2 (Z.ltb_ge _ _)) by lia.
      - by rewrite D4 by lia. }
  rewrite <- (Z.mul_comm SizeDirent), <- Ho.
  replace ((e <? de_NameOff d0) || (zlen buf <? e)) with false
    by (symmetry; rewrite orb_false_iff, !Z.ltb_ge; lia).
  rewrite slice_ok by lia. rewrite cut_nul_until.
  assert (En : until_nul (sub buf (Z.to_nat (de_NameOff d0)) (Z.to_nat (e - de_NameOff d0))) = n0).
  { rewrite D6. destruct (0 =? zlen l - 1) eqn:E0; [done|]. apply until_nul_no_nul.
    destruct D7 as (_ & _ & Hz). rewrite D6 in Hz. exact Hz. }
  rewrite En. apply checkDirentName_spec in D7. by rewrite D7.
Qed.

(** A directory's blocks: block [i] loads, and decodes to the [i]-th table. *)
Record dir_view (img : image) (fi : inode) (blks : list (list (Dirent * bytes))) : Prop := {
  dv_size : 0 <= ino_size fi <= MaxInt64 - 2 ^ 16;
  dv_count : calculateBlocks (img_bits img) (ino_size fi) = zlen blks;
  dv_blocks : forall i l, blks !! i = Some l ->
    exists buf, loadBlock img fi (Z.of_nat i * 2 ^ img_bits img) = Ok buf /\ block_view buf l
}.

(** All the directory's entries, in order. *)
Definition entries_of (blks : list (list (Dirent * bytes))) : list (Dirent * bytes) := mjoin blks.

Definition first_name (l : list (Dirent * bytes)) : bytes :=
  match l with (_, n) :: _ => n | [] => [] end.

Lemma names_of_app a b : names_of (a ++ b) = names_of a ++ names_of b.
Proof. apply fmap_app. Qed.

Lemma elem_of_entries blks x :
  x ∈ names_of (entries_of blks) <-> exists i l, blks !! i = Some l /\ x ∈ names_of l.
Proof.
  unfold names_of, entries_of. rewrite list_elem_of_fmap. split.
  - intros ([de n] & -> & H). apply list_elem_of_join in H as (l & Hl & Hb).
    apply list_elem_of_lookup in Hb as [i Hi]. exists i, l. split; [done|].
    apply list_elem_of_fmap. eauto.
  - intros (i & l & Hi & Hx). apply list_elem_of_fmap in Hx as ([de n] & -> & Hx).
    exists (de, n). split; [done|]. apply list_elem_of_join. exists l. split; [done|].
    by eapply list_elem_of_lookup_2.
Qed.

(** The names of a block are below those of the blocks after it. *)
Lemma sorted_blocks blks i j li lj x y :
  StronglySorted name_lt (names_of (entries_of blks)) ->
  blks !! i = Some li -> blks !! j = Some lj -> (i < j)%nat ->
  x ∈ names_of li -> y ∈ names_of lj -> name_lt x y.
Proof.
  intros Hs Hi Hj Hij Hx Hy. revert i j Hi Hj Hij Hs.
  induction blks as [|b blks IH]; intros i j Hi Hj Hij Hs; [done|].
  unfold entries_of in Hs. cbn in Hs. rewrite names_of_app in Hs.
  apply StronglySorted_app in Hs as (H1 & H2 & H3). destruct i as [|i], j as [|j]; cbn in *; try lia.
  - injection Hi as ->. apply H1; auto. apply elem_of_entries. eauto.
  - eapply (IH i j); eauto. lia.
Qed.

Lemma sorted_block blks i l :
  StronglySorted name_lt (names_of (entries_of blks)) -> blks !! i = Some l ->
  StronglySorted name_lt (names_of l).
Proof.
  revert i. induction blks as [|b blks IH]; intros i Hs Hi; [done|].
  unfold entries_of in Hs. cbn in Hs. rewrite names_of_app in Hs.
  apply StronglySorted_app in Hs as (_ & H2 & H3). destruct i; cbn in Hi; [by injection Hi as <-|eauto].
Qed.

Lemma first_name_in l : l <> [] -> first_name l ∈ names_of l.
Proof. destruct l as [|[d n] l]; [done|]. intros _. by left. Qed.

Lemma first_name_least l x :
  StronglySorted name_lt (names_of l) -> x ∈ names_of l -> name_le (first_name l) x.
Proof.
  destruct l as [|[d n] l]; intros Hs Hx; [by inv Hx|]. cbn in *.
  apply StronglySorted_inv in Hs as [_ Hf]. apply name_le_lt_or_eq.
  apply elem_of_cons in Hx as [->|Hx]; [by right|left]. by eapply Forall_forall.
Qed.

Lemma name_le_lt_trans a b c : name_le a b -> name_lt b c -> name_lt a c.
Proof. rewrite name_le_lt_or_eq. intros [H| ->] H2; [by transitivity b|done]. Qed.

Lemma name_lt_le_trans a b c : name_lt a b -> name_le b c -> name_lt a c.
Proof. rewrite name_le_lt_or_eq. intros H [H2| <-]; [by transitivity b|done]. Qed.

Section Lookup.
Context (img : image) (fi : inode) (blks : list (list (Dirent * bytes))) (target : bytes).
Context (Hdv : dir_view img fi blks).
Context (Hs : StronglySorted name_lt (names_of (entries_of blks))).
Let blkSize := 2 ^ img_bits img.

Lemma block_nonempty i l : blks !! i = Some l -> l <> [].
Proof using Hdv.
  intros Hi. destruct (dv_blocks _ _ _ Hdv i l Hi) as (buf & _ & Hv).
  destruct (view_first buf l Hv) as (? & ? & ? & -> & _). done.
Qed.

(** The candidate the search keeps: none at the start, the block before [lo]
    after that. *)
Definition candidate (lo : Z) (lastBlk : option bytes) : Prop :=
  match lastBlk with
  | None => lo = 0
  | Some buf => exists l, 0 < lo /\ blks !! Z.to_nat (lo - 1) = Some l /\ block_view buf l
  end.

Lemma search_dir_spec fuel : forall lo hi lastBlk,
  0 <= lo <= hi -> hi <= zlen blks -> hi - lo <= Z.of_nat fuel -> candidate lo lastBlk ->
  (forall i l, blks !! i = Some l -> Z.of_nat i < lo -> name_le (first_name l) target) ->
  (forall i l, blks !! i = Some l -> hi <= Z.of_nat i -> name_lt target (first_name l)) ->
  exists k r, search_dir fuel img fi target blkSize lo hi lastBlk = Ok r /\ candidate k r /\
    0 <= k <= zlen blks /\
    (forall i l, blks !! i = Some l -> Z.of_nat i < k -> name_le (first_name l) target) /\
    (forall i l, blks !! i = Some l -> k <= Z.of_nat i -> name_lt target (first_name l)).
Proof using Hdv Hs.
  induction fuel as [|fuel IH]; intros lo hi lastBlk Hr Hhi Hf Hc Hl Hh; cbn [search_dir];
    destruct (Z.leb_spec hi lo) as [Hd|Hd]; try lia.
  1, 2: assert (hi = lo) as -> by lia; exists lo, lastBlk; split_and!; auto; lia.
  pose proof (mid_range lo hi ltac:(lia)) as Hm. set (mid := lo + Z.quot (hi - lo) 2) in *.
  destruct (lookup_lt_is_Some_2 blks (Z.to_nat mid)) as [l Hlk]; [unfold zlen in *; lia|].
  destruct (dv_blocks _ _ _ Hdv _ _ Hlk) as (buf & Hb & Hv). rewrite Z2Nat.id in Hb by lia.
  fold blkSize in Hb. rewrite Hb.
  destruct (blockFirstName_view buf l Hv) as (d0 & n0 & t & El & ->).
  assert (Hn0 : first_name l = n0) by (by rewrite El).
  assert (Hnn : first_name l ∈ names_of l) by (by eapply first_name_in, block_nonempty).
  assert (Hlow : name_le n0 target -> forall i l', blks !! i = Some l' -> Z.of_nat i < mid + 1 ->
                 name_le (first_name l') target).
  { intros Hle i l' Hi Hx. destruct (Z.eq_dec (Z.of_nat i) mid) as [E|].
    - replace i with (Z.to_nat mid) in Hi by lia. rewrite Hlk in Hi. injection Hi as <-. by rewrite Hn0.
    - transitivity n0; [|done]. apply name_le_lt_or_eq. left. rewrite <- Hn0.
      eapply (sorted_blocks blks i (Z.to_nat mid)); eauto; [lia|]. by eapply first_name_in, block_nonempty. }
  assert (Hup : name_lt target n0 -> forall i l', blks !! i = Some l' -> mid <= Z.of_nat i ->
                name_lt target (first_name l')).
  { intros Hlt i l' Hi Hx. destruct (Z.eq_dec (Z.of_nat i) mid) as [E|].
    - replace i with (Z.to_nat mid) in Hi by lia. rewrite Hlk in Hi. injection Hi as <-. by rewrite Hn0.
    - transitivity n0; [done|]. rewrite <- Hn0.
      eapply (sorted_blocks blks (Z.to_nat mid) i); eauto; [lia|]. by eapply first_name_in, block_nonempty. }
  assert (Hcand : candidate (mid + 1) (Some buf)).
  { exists l. split; [lia|]. split; [|done]. rewrite <- Hlk. f_equal. lia. }
  destruct (Compare n0 target) eqn:Ec.
  - apply IH; auto; try lia. apply Hlow. unfold name_le. by rewrite Ec.
  - apply IH; auto; try lia. apply Hlow. unfold name_le. by rewrite Ec.
  - apply IH; auto; try lia. apply Hup. by apply Compare_gt_lt.
Qed.

Lemma blocks_count :
  9 <= img_bits img <= 16 ->
  Z.quot (i64 (ino_size fi + Z.shiftl 1 (img_bits img) - 1)) (Z.shiftl 1 (img_bits img)) = zlen blks.
Proof using Hdv.
  intros Hb. rewrite shiftl1 by lia. pose proof (pow2_bits _ Hb) as Hp. destruct Hdv as [Hz Hn _].
  unfold MaxInt64 in Hz. rewrite i64_id by lia. rewrite Z.quot_div_nonneg by lia. rewrite <- Hn.
  pose proof (calculateBlocks_upper (img_bits img) (ino_size fi) ltac:(lia) ltac:(lia)) as Hu.
  destruct (calculateBlocks_ceil (img_bits img) (ino_size fi)) as [Hc|[Hc1 Hc2]]; try lia.
  - symmetry. eapply (Z.div_unique _ _ _ (ino_size fi + 2 ^ img_bits img - 1 -
      2 ^ img_bits img * calculateBlocks (img_bits img) (ino_size fi))); nia.
  - rewrite Hc1, Hc2. apply Z.div_small. lia.
Qed.

Lemma lookup_inode_answers :
  9 <= img_bits img <= 16 ->
  lookup_answers (entries_of blks) target (lookup_inode img fi target).
Proof using Hdv Hs.
  intros Hb. unfold lookup_inode. rewrite blocks_count by done. rewrite shiftl1 by lia. fold blkSize.
  pose proof (zlen_nonneg blks).
  destruct (search_dir_spec (Z.to_nat (zlen blks)) 0 (zlen blks) None) as
    (k & r & -> & Hc & Hk & Hlo & Hhi); try lia; try done.
  { intros i l Hi Hx. apply lookup_lt_Some in Hi. unfold zlen in Hx. lia. }
  assert (Habove : forall i l x, blks !! i = Some l -> k <= Z.of_nat i -> x ∈ names_of l -> name_lt target x).
  { intros i l x Hi Hx Hin. eapply name_lt_le_trans; [by eapply Hhi|].
    apply first_name_least; [by eapply sorted_block|done]. }
  destruct r as [buf|]; cbn in Hc.
  - destruct Hc as (l & Hk0 & Hl & Hv).
    destruct (lookupBlock_view buf l target Hv ltac:(by eapply sorted_block)) as [(i & de & Hi & ->)|[Hn ->]].
    + left. assert (Hin : (de, target) ∈ entries_of blks).
      { apply list_elem_of_join. exists l. split; by eapply list_elem_of_lookup_2. }
      apply list_elem_of_lookup in Hin as [j Hj]. eauto.
    + right. split; [|done]. intros Hin. apply elem_of_entries in Hin as (i & l' & Hi & Hx).
      destruct (Z.lt_trichotomy (Z.of_nat i) (k - 1)) as [Hlt|[Heq|Hgt]].
      * apply (name_lt_irrefl target). eapply name_lt_le_trans; [|by apply (Hlo _ l Hl); lia].
        apply (sorted_blocks blks i (Z.to_nat (k - 1)) l' l); auto; [lia|].
        by eapply first_name_in, block_nonempty.
      * replace (Z.to_nat (k - 1)) with i in Hl by lia. rewrite Hi in Hl. injection Hl as <-. done.
      * apply (name_lt_irrefl target). eapply Habove; eauto. lia.
  - right. split; [|done]. intros Hin. apply elem_of_entries in Hin as (i & l' & Hi & Hx).
    apply (name_lt_irrefl target). eapply Habove; eauto. lia.
Qed.
End Lookup.

(** ** Listing: the walk of a block *)

Lemma get16_sub buf o n k :
  (k + 2 <= n)%nat -> get16 (sub buf o n) k = get16 buf (o + k).
Proof. intros. unfold get16. by rewrite sub_sub by lia. Qed.

Lemma dirent_at_nameoff buf i entryN de name e :
  0 <= i -> dirent_at buf i entryN de name e -> de_NameOff de = get16 buf (Z.to_nat (SizeDirent * i + 8)).
Proof.
  intros Hi [D1 D2 _ _ _ _ _]. unfold Dirent_Unmarshal in D2. step_in D2. apply Ok_inj in D2. subst de.
  unfold SizeDirent in *. cbn. rewrite get16_sub by lia. f_equal. lia.
Qed.

Section Walk.
Context (buf : bytes) (l : list (Dirent * bytes)) (Hv : block_view buf l).

Lemma view_at i de name :
  l !! i = Some (de, name) -> exists e, dirent_at buf (Z.of_nat i) (zlen l) de name e.
Proof using Hv. intros H. apply (bv_entries _ _ Hv) in H. by apply blockDirent_inv in H; [|lia]. Qed.

(** A name ends where the next one starts. *)
Lemma view_next i de name e de' name' :
  dirent_at buf (Z.of_nat i) (zlen l) de name e -> l !! S i = Some (de', name') -> e = de_NameOff de'.
Proof using Hv.
  intros D H. pose proof (lookup_lt_Some _ _ _ H). apply view_at in H as [e' D'].
  rewrite (dirent_at_nameoff buf (Z.of_nat (S i)) (zlen l) de' name' e' ltac:(lia) D').
  destruct (da_next _ _ _ _ _ _ D) as [-> _]; [unfold zlen; lia|]. do 2 f_equal. lia.
Qed.

Lemma view_base i de name : l !! i = Some (de, name) -> SizeDirent * zlen l <= de_NameOff de.
Proof using Hv.
  revert de name. induction i as [|i IH]; intros de name Hi.
  - destruct (bv_first _ _ Hv) as (d0 & n0 & t & El & Eo). rewrite El in Hi. injection Hi as <- <-. lia.
  - destruct (lookup_lt_is_Some_2 l i) as [[d n] Hd]; [apply lookup_lt_Some in Hi; lia|].
    specialize (IH _ _ Hd). destruct (view_at _ _ _ Hd) as [e D].
    rewrite <- (view_next _ _ _ _ _ _ D Hi). pose proof (da_bounds _ _ _ _ _ _ D). lia.
Qed.

Lemma view_small : 0 < zlen l <= 5461.
Proof using Hv.
  destruct (view_first buf l Hv) as (d0 & n0 & t & El & Hu & Ho & _).
  apply Dirent_Unmarshal_ranges in Hu as (_ & Hr & _). unfold is_u16, SizeDirent in *.
  assert (0 < zlen l) by (rewrite El, zlen_cons; pose proof (zlen_nonneg t); lia). lia.
Qed.

Let nameBase := SizeDirent * zlen l.
Let names := sub buf (Z.to_nat nameBase) (Z.to_nat (zlen buf - nameBase)).

(** The dirent [ReadDir] holds after entry [i]. *)
Definition next_dirent (i : nat) (d : Dirent) : Dirent :=
  match l !! S i with Some (de, _) => de | None => d end.

(** [ReadDir] and [blockDirent] decode the same names. *)
Lemma readdir_name_view i de name next :
  l !! i = Some (de, name) ->
  readdir_name buf names nameBase (zlen l) (Z.of_nat i) de next = Ok (name, next_dirent i next).
Proof using Hv.
  intros Hi. destruct (view_at _ _ _ Hi) as [e D]. pose proof (view_base _ _ _ Hi) as Hbase.
  pose proof (lookup_lt_Some _ _ _ Hi) as Hlt. pose proof (da_bounds _ _ _ _ _ _ D) as Hb.
  fold nameBase in Hbase. pose proof (da_good _ _ _ _ _ _ D) as Hgood.
  pose proof view_small as Hsm. assert (Hnb : 0 <= nameBase) by (unfold nameBase, SizeDirent; lia).
  assert (Hslice : forall hi, de_NameOff de <= hi <= zlen buf ->
    slice names (de_NameOff de - nameBase) (hi - nameBase) =
    Ok (sub buf (Z.to_nat (de_NameOff de)) (Z.to_nat (hi - de_NameOff de)))).
  { intros hi Hhi. unfold names. rewrite slice_ok; [|lia|unfold zlen in *; rewrite length_sub; lia].
    rewrite sub_sub by lia. do 2 f_equal; lia. }
  unfold readdir_name. destruct (Z.ltb_spec (Z.of_nat i) (zlen l - 1)) as [Hn|Hn].
  - destruct (lookup_lt_is_Some_2 l (S i)) as [[de' name'] Hi']; [unfold zlen in Hn; lia|].
    destruct (view_at _ _ _ Hi') as [e' D']. pose proof (view_next _ _ _ _ _ _ D Hi') as ->.
    pose proof (da_table _ _ _ _ _ _ D') as T. pose proof (da_dirent _ _ _ _ _ _ D') as U.
    replace (Z.of_nat (S i)) with (Z.of_nat i + 1) in T, U by lia.
    rewrite (proj2 (Z.ltb_ge (zlen buf) _)) by lia.
    rewrite slice_ok by (unfold SizeDirent in *; lia). rewrite U.
    replace (_ || _ || _) with false by (symmetry; rewrite !orb_false_iff, !Z.ltb_ge; lia).
    rewrite (proj2 (Z.ltb_ge _ nameBase)) by lia. rewrite slice_ok by lia.
    assert (En : name = sub buf (Z.to_nat (de_NameOff de)) (Z.to_nat (de_NameOff de' - de_NameOff de))).
    { rewrite (da_name _ _ _ _ _ _ D). by rewrite (proj2 (Z.eqb_neq _ _)) by lia. }
    rewrite <- En. rewrite (proj2 (checkDirentName_spec name) Hgood), Hslice, <- En by lia.
    unfold next_dirent. by rewrite Hi'.
  - rewrite (proj2 (Z.ltb_ge (zlen buf) _)) by lia. rewrite slice_ok by lia.
    pose proof (da_last _ _ _ _ _ _ D ltac:(lia)) as ->.
    set (rest := sub buf (Z.to_nat (de_NameOff de)) (Z.to_nat (zlen buf - de_NameOff de))) in *.
    set (hi := if 0 <=? IndexByte rest x00 then de_NameOff de + IndexByte rest x00 else zlen buf).
    assert (Hrl : zlen rest = zlen buf - de_NameOff de) by (unfold rest, zlen in *; rewrite length_sub; lia).
    assert (Hhi : de_NameOff de <= hi <= zlen buf /\
      sub buf (Z.to_nat (de_NameOff de)) (Z.to_nat (hi - de_NameOff de)) = name).
    { rewrite (da_name _ _ _ _ _ _ D). rewrite (proj2 (Z.eqb_eq _ _)) by (unfold zlen in *; lia). fold rest.
      pose proof (cut_nul_until rest) as Hc. unfold cut_nul in Hc. unfold hi.
      destruct (IndexByte_spec rest x00) as [[E _]|(E & _)].
      - rewrite E in Hc |- *. cbn in Hc |- *. apply Ok_inj in Hc. split; [lia|]. by rewrite <- Hc.
      - rewrite (proj2 (Z.leb_le 0 _)) in Hc |- * by lia. apply slice_inv in Hc as (_ & _ & ->).
        split; [lia|]. clear hi. revert E. generalize (IndexByte rest x00) as j. intros j E.
        unfold rest. rewrite sub_sub by lia. f_equal; lia. }
    destruct Hhi as [Hh1 Hh2]. rewrite (proj2 (Z.ltb_ge _ nameBase)) by lia.
    rewrite slice_ok by lia. rewrite Hh2, (proj2 (checkDirentName_spec name) Hgood), Hslice, Hh2 by lia.
    unfold next_dirent. rewrite lookup_ge_None_2; [done|]. unfold zlen in *; lia.
Qed.
End Walk.

(** ** Listing: pages *)

Definition ent_of (p : Dirent * bytes) : direntry :=
  mkDirentry p.2 (de_Nid p.1) (EroFSFtypeToFileMode (de_FileType p.1)).

(** What a listing shows of a table: everything but "." and "..". *)
Fixpoint visible (l : list (Dirent * bytes)) : list direntry :=
  match l with
  | [] => []
  | p :: l => if is_dot p.2 then visible l else ent_of p :: visible l
  end.

Lemma visible_app a b : visible (a ++ b) = visible a ++ visible b.
Proof. induction a as [|p a IH]; cbn; [done|]. rewrite IH. by destruct (is_dot p.2). Qed.

(** The room left in the slab of entries is enough for what the walk may
    still hand out. *)
Definition slab_ok (entryN n want i used consumed count : Z) : Prop :=
  (n <= 0 -> used + Z.max 0 (entryN - Z.max i consumed) <= want) /\
  (0 < n -> count < n /\ used + Z.min (Z.max 0 (entryN - Z.max i consumed)) (n - count) <= want).

Lemma walk_block_view buf l :
  block_view buf l ->
  let nameBase := SizeDirent * zlen l in
  let names := sub buf (Z.to_nat nameBase) (Z.to_nat (zlen buf - nameBase)) in
  forall k n want i used consumed cur next ents,
  Z.of_nat i + Z.of_nat k = zlen l -> (forall de nm, l !! i = Some (de, nm) -> cur = de) ->
  slab_ok (zlen l) n want (Z.of_nat i) used consumed (zlen ents) -> 0 <= consumed ->
  let s := Nat.max i (Z.to_nat consumed) in
  exists w, walk_block k buf names nameBase (zlen l) n want (Z.of_nat i) used consumed cur next ents = Ok w /\
    ((w = walk_end (ents ++ visible (drop s l)) /\
      (0 < n -> zlen ents + zlen (visible (drop s l)) < n)) \/
     (exists j, (i <= j < length l)%nat /\ 0 < n /\
        w = walk_full (ents ++ visible (drop s (take (S j) l))) (Z.of_nat (S j))
              (Z.of_nat j =? zlen l - 1) /\
        zlen (ents ++ visible (drop s (take (S j) l))) = n /\ (Z.to_nat consumed <= S j)%nat)).
Proof.
  intros Hv nameBase names. pose proof (view_small buf l Hv) as Hsm.
  induction k as [|k IH]; intros n want i used consumed cur next ents Hk Hcur Hslab Hc s; cbn [walk_block].
  - eexists. split; [done|]. left. rewrite drop_ge by (unfold zlen in *; lia). cbn.
    rewrite app_nil_r. split; [done|]. change (zlen (@nil direntry)) with 0.
    destruct Hslab as [_ S2]. intros Hn. destruct (S2 Hn). lia.
  - destruct (lookup_lt_is_Some_2 l i) as [[de name] Hi]; [unfold zlen in *; lia|].
    rewrite (Hcur _ _ Hi).
    pose proof (readdir_name_view buf l Hv i de name next Hi) as Hr. cbn zeta in Hr.
    fold nameBase names in Hr. rewrite Hr. clear Hr.
    assert (Hnx : forall de' nm, l !! S i = Some (de', nm) -> next_dirent l i next = de')
      by (intros de' nm E; unfold next_dirent; by rewrite E).
    replace (Z.of_nat i + 1) with (Z.of_nat (S i)) by lia.
    assert (Hdrop : (Z.to_nat consumed <= i)%nat -> drop s l = (de, name) :: drop (S i) l).
    { intros Hle. unfold s. rewrite Nat.max_l by lia. by apply drop_S. }
    destruct ((consumed <=? Z.of_nat i) && negb (is_dot name)) eqn:Et.
    + zbool. specialize (Hdrop ltac:(lia)).
      destruct Hslab as [S1 S2]. rewrite (Z.max_l (Z.of_nat i) consumed) in S1, S2 by lia.
      rewrite (proj2 (Z.leb_gt want used)) by (destruct (Z.le_gt_cases n 0); [lia|]; lia).
      change (mkDirentry name (de_Nid de) (EroFSFtypeToFileMode (de_FileType de)))
        with (ent_of (de, name)).
      rewrite u16_id by (unfold is_u16, zlen in *; lia).
      destruct ((0 <? n) && (zlen (ents ++ [ent_of (de, name)]) =? n)) eqn:Ef.
      * zbool. eexists. split; [done|]. right. exists i. pose proof (lookup_lt_Some _ _ _ Hi).
        assert (Etake : drop s (take (S i) l) = [(de, name)]).
        { unfold s. rewrite Nat.max_l by lia. rewrite (take_S_r _ _ _ Hi).
          rewrite drop_app_ge by (rewrite length_take; lia). rewrite length_take.
          by replace (i - i `min` length l)%nat with 0%nat by lia. }
        rewrite Etake. cbn [visible snd]. rewrite H0. cbn [visible].
        split; [lia|]. split; [lia|]. split; [done|]. split; [done|lia].
      * assert (Hnf : 0 < n -> zlen ents + 1 < n).
        { intros Hn. rewrite (proj2 (Z.ltb_lt _ _)) in Ef by done. cbn [andb] in Ef. zbool.
          rewrite zlen_app in Ef. change (zlen [ent_of (de, name)]) with 1 in Ef.
          specialize (S2 Hn). lia. }
        destruct (IH n want (S i) (used + 1) (Z.of_nat (S i)) (next_dirent l i next) (next_dirent l i next)
          (ents ++ [ent_of (de, name)])) as (w & -> & Hw); auto; try lia.
        { rewrite zlen_app. change (zlen [ent_of (de, name)]) with 1. split; intros Hn; lia. }
        exists w. split; [done|]. rewrite Nat2Z.id, Nat.max_id in Hw. rewrite Hdrop. cbn [visible snd].
        rewrite H0. destruct Hw as [[-> Hw]|(j & J1 & J2 & -> & J3 & J4)].
        -- left. rewrite <- app_assoc. split; [done|]. rewrite zlen_app in Hw. rewrite zlen_cons.
           change (zlen [ent_of (de, name)]) with 1 in Hw. lia.
        -- right. exists j. assert (Ed : drop s (take (S j) l) = (de, name) :: drop (S i) (take (S j) l)).
           { unfold s. rewrite Nat.max_l by lia. apply drop_S. rewrite lookup_take_lt by lia; done. }
           rewrite Ed. cbn [visible snd]. rewrite H0. rewrite <- app_assoc in J3 |- *.
           split; [lia|]. split; [lia|]. split; [done|]. split; [done|lia].
    + assert (Hsame : visible (drop s l) = visible (drop (Nat.max (S i) (Z.to_nat consumed)) l) /\
        forall j, (S i <= j)%nat -> visible (drop s (take (S j) l)) =
          visible (drop (Nat.max (S i) (Z.to_nat consumed)) (take (S j) l))).
      { destruct (Z.leb_spec consumed (Z.of_nat i)) as [Hle|Hgt].
        - cbn [andb] in Et. apply negb_false_iff in Et. specialize (Hdrop ltac:(lia)). split.
          + rewrite Hdrop. cbn [visible snd]. rewrite Et. do 2 f_equal. lia.
          + intros j Hj. unfold s. rewrite (Nat.max_l i) by lia.
            rewrite (drop_S _ (de, name) i) by (rewrite lookup_take_lt by lia; done). cbn [visible snd].
            rewrite Et. do 2 f_equal. lia.
        - unfold s. split; [|intros j _]; do 2 f_equal; lia. }
      destruct Hsame as [Hs1 Hs2].
      destruct (IH n want (S i) used consumed (next_dirent l i next) (next_dirent l i next) ents)
        as (w & -> & Hw); auto; try lia.
      { destruct Hslab as [S1 S2]. split; intros Hn; [specialize (S1 Hn)|specialize (S2 Hn)]; lia. }
      exists w. split; [done|]. rewrite Hs1. destruct Hw as [Hw|(j & J1 & J)]; [by left|].
      right. exists j. rewrite Hs2 by lia. split; [lia|]. exact J.
Qed.

Lemma readdir_block_view buf l n consumed ents :
  block_view buf l -> 0 <= consumed -> (0 < n -> zlen ents < n) ->
  let s := Z.to_nat consumed in
  exists w, readdir_block buf n consumed ents = Ok w /\
    ((w = walk_end (ents ++ visible (drop s l)) /\
      (0 < n -> zlen ents + zlen (visible (drop s l)) < n)) \/
     (exists j, (j < length l)%nat /\ 0 < n /\
        w = walk_full (ents ++ visible (drop s (take (S j) l))) (Z.of_nat (S j))
              (Z.of_nat j =? zlen l - 1) /\
        zlen (ents ++ visible (drop s (take (S j) l))) = n /\ (s <= S j)%nat)).
Proof.
  intros Hv Hc Hn s. destruct (view_first buf l Hv) as (d0 & n0 & t & El & Hu & Ho & Hlen & Hlt).
  pose proof (view_small buf l Hv) as Hsm. unfold readdir_block.
  rewrite (proj2 (Z.ltb_ge _ _)) by lia. rewrite Hu, Ho.
  rewrite (Z.mul_comm SizeDirent), Z.div_mul, Z.mod_mul by done. rewrite (Z.mul_comm _ SizeDirent).
  replace (_ || _ || _) with false.
  2:{ symmetry. rewrite !orb_false_iff, Z.leb_gt, Z.eqb_neq. cbn. lia. }
  rewrite slice_ok by (unfold SizeDirent in *; lia).
  pose proof (walk_block_view buf l Hv (Z.to_nat (zlen l)) n
    (if (0 <? n) && (n <? Z.max (zlen l - consumed) 0) then n else Z.max (zlen l - consumed) 0)
    0%nat 0 consumed d0 zero_dirent ents) as W. cbn zeta in W. change (Z.of_nat 0) with 0 in W.
  destruct W as (w & -> & Hw); auto.
  - lia.
  - intros de nm Hx. rewrite El in Hx. by injection Hx.
  - split; intros Hx.
    + rewrite (proj2 (Z.ltb_ge 0 n)) by lia. cbn. lia.
    + specialize (Hn Hx). rewrite (proj2 (Z.ltb_lt 0 n)) by lia. cbn [andb].
      pose proof (zlen_nonneg ents). destruct (Z.ltb_spec n (Z.max (zlen l - consumed) 0)); lia.
  - exists w. split; [done|]. rewrite Nat.max_0_l in Hw. fold s in Hw.
    destruct Hw as [?|(j & J1 & J)]; [by left|]. right. exists j. split; [lia|]. exact J.
Qed.

Section Pages.
Context (img : image) (fi : inode) (blks : list (list (Dirent * bytes))) (n : Z).
Context (Hbits : 9 <= img_bits img <= 16) (Hdv : dir_view img fi blks).

(** What a directory's position leaves to be listed. *)
Definition remaining (bn consumed : Z) : list direntry :=
  visible (drop (Z.to_nat consumed) (default [] (blks !! Z.to_nat bn))) ++
  visible (mjoin (drop (S (Z.to_nat bn)) blks)).

Lemma remaining_next bn l :
  0 <= bn -> blks !! Z.to_nat bn = Some l ->
  remaining (bn + 1) 0 = visible (mjoin (drop (S (Z.to_nat bn)) blks)).
Proof using Type.
  intros Hb Hl. unfold remaining. replace (Z.to_nat (bn + 1)) with (S (Z.to_nat bn)) by lia.
  change (Z.to_nat 0) with 0%nat. rewrite drop_0.
  destruct (blks !! S (Z.to_nat bn)) as [l'|] eqn:E; cbn.
  - rewrite (drop_S _ _ _ E). cbn. by rewrite visible_app.
  - apply lookup_ge_None_1 in E. by rewrite !drop_ge by lia.
Qed.

Lemma position_test bn :
  0 <= bn <= zlen blks ->
  i64 (Z.shiftl bn (img_bits img)) = bn * 2 ^ img_bits img /\
  (ino_size fi <=? bn * 2 ^ img_bits img) = (zlen blks <=? bn).
Proof using Hbits Hdv.
  intros Hb. pose proof (pow2_bits _ Hbits) as Hp. destruct Hdv as [Hz Hn _].
  pose proof (calculateBlocks_upper (img_bits img) (ino_size fi) ltac:(lia) ltac:(lia)) as Hu.
  pose proof (calculateBlocks_ceil (img_bits img) (ino_size fi) ltac:(lia) ltac:(lia)) as Hc.
  cbn zeta in Hc. rewrite Hn in Hu, Hc. unfold MaxInt64 in Hz.
  assert (Hm : bn * 2 ^ img_bits img < ino_size fi + 2 ^ img_bits img)
    by (destruct Hc as [Hc|[Hc1 Hc2]]; nia).
  rewrite Z.shiftl_mul_pow2 by lia. rewrite i64_id by nia. split; [done|].
  destruct (Z.leb_spec (zlen blks) bn).
  - apply Z.leb_le. nia.
  - apply Z.leb_gt. destruct Hc as [Hc|[Hc1 Hc2]]; nia.
Qed.

(** How a call of [ReadDir] ends. *)
Definition page_end (r : readdir_result) : Prop :=
  (rdd_err r = None /\ 0 < n /\ zlen (rdd_ents r) = n) \/
  (rdd_err r = (if 0 <? n then Some EOF else None) /\
   remaining (d_bn (rdd_dir r)) (d_consumed (rdd_dir r)) = [] /\ (0 < n -> zlen (rdd_ents r) < n)).

Lemma readdir_loop_spec : forall fuel d ents,
  0 <= d_bn d <= zlen blks -> 0 <= d_consumed d -> zlen blks - d_bn d <= Z.of_nat fuel ->
  (0 < n -> zlen ents < n) ->
  exists r page, readdir_loop fuel img fi n d ents = Ok r /\ rdd_ents r = ents ++ page /\
    remaining (d_bn d) (d_consumed d) = page ++ remaining (d_bn (rdd_dir r)) (d_consumed (rdd_dir r)) /\
    0 <= d_bn (rdd_dir r) <= zlen blks /\ 0 <= d_consumed (rdd_dir r) /\
    d_file (rdd_dir r) = d_file d /\ page_end r.
Proof using Hbits Hdv.
  induction fuel as [|fuel IH]; intros d ents Hb Hc Hf He; cbn [readdir_loop];
    destruct (position_test (d_bn d) Hb) as [-> ->]; destruct (Z.leb_spec (zlen blks) (d_bn d)) as [Hx|Hx];
    try lia.
  1, 2: (assert (Hr : remaining (d_bn d) (d_consumed d) = []) by
      (unfold remaining; rewrite lookup_ge_None_2 by (unfold zlen in *; lia);
       rewrite (drop_ge blks) by (unfold zlen in *; lia); cbn [default mjoin list_join];
       by rewrite drop_nil));
    eexists _, []; split; [done|]; cbn; rewrite app_nil_r; split_and!; auto; try lia;
    right; cbn; auto.
  destruct (lookup_lt_is_Some_2 blks (Z.to_nat (d_bn d))) as [l Hl]; [unfold zlen in *; lia|].
  destruct (dv_blocks _ _ _ Hdv _ _ Hl) as (buf & Hld & Hv). rewrite Z2Nat.id in Hld by lia. rewrite Hld.
  destruct (readdir_block_view buf l n (d_consumed d) ents Hv Hc He) as (w & -> & Hw).
  assert (Hrem : remaining (d_bn d) (d_consumed d) =
    visible (drop (Z.to_nat (d_consumed d)) l) ++ remaining (d_bn d + 1) 0).
  { rewrite (remaining_next _ l) by (lia || done). unfold remaining. by rewrite Hl. }
  destruct Hw as [[-> Hw]|(j & J1 & J2 & -> & J3 & J4)].
  - destruct (IH (mkDir (d_file d) (d_bn d + 1) 0) (ents ++ visible (drop (Z.to_nat (d_consumed d)) l)))
      as (r & page & -> & R1 & R2 & R3 & R4 & R5 & R6); cbn; try lia.
    { rewrite zlen_app. auto. }
    eexists r, _. split; [done|]. rewrite R1, <- app_assoc. split; [done|].
    cbn in R2, R5. rewrite Hrem, R2, app_assoc. auto.
  - eexists _, (visible (drop (Z.to_nat (d_consumed d)) (take (S j) l))). split; [done|].
    set (d' := if Z.of_nat j =? zlen l - 1 then _ else _). cbn [rdd_ents rdd_dir rdd_err].
    assert (Hd' : remaining (d_bn d') (d_consumed d') = visible (drop (S j) l) ++ remaining (d_bn d + 1) 0 /\
                  0 <= d_bn d' <= zlen blks /\ 0 <= d_consumed d' /\ d_file d' = d_file d).
    { unfold d'. destruct (Z.eqb_spec (Z.of_nat j) (zlen l - 1)); cbn.
      - rewrite drop_ge by (unfold zlen in *; lia). split_and!; auto; lia.
      - split_and!; auto; try lia. rewrite (remaining_next _ l) by (lia || done).
        unfold remaining. rewrite Hl, Nat2Z.id || (rewrite Hl; do 3 f_equal; lia). done. }
    destruct Hd' as (D1 & D2 & D3 & D4). split; [done|]. rewrite Hrem, D1. split.
    + rewrite app_assoc, <- visible_app. do 2 f_equal.
      rewrite <- (take_drop (S j) l) at 1. rewrite drop_app_le; [done|]. rewrite length_take. lia.
    + split; [done|]. split; [done|]. split; [done|]. left. auto.
Qed.
End Pages.

(** ** On any bytes: no panic, and only base names *)

Lemma search_block_no_panic buf target entryN : forall fuel lo hi,
  0 <= lo -> hi - lo <= Z.of_nat fuel -> no_panic (search_block fuel buf target entryN lo hi).
Proof.
  unfold no_panic. induction fuel as [|fuel IH]; intros lo hi Hlo Hf; cbn [search_block];
    destruct (Z.leb_spec hi lo); try congruence; try lia.
  pose proof (mid_range lo hi ltac:(lia)) as Hm. set (mid := lo + Z.quot (hi - lo) 2) in *.
  destruct (blockDirent_cases buf mid entryN ltac:(lia)) as [->|(de & name & e & -> & _)]; [congruence|].
  destruct (Compare name target); [congruence|apply IH; lia|apply IH; lia].
Qed.

Lemma lookupBlock_no_panic buf target : no_panic (lookupBlock buf target).
Proof.
  unfold no_panic, lookupBlock. destruct (Z.ltb_spec (zlen buf) SizeDirent); [congruence|].
  destruct (Dirent_Unmarshal_ok buf) as [d Hd]; [lia|]. rewrite Hd.
  apply Dirent_Unmarshal_ranges in Hd as (_ & Hr & _). unfold is_u16 in Hr.
  destruct (negb _); [congruence|]. destruct (_ <? _); [congruence|].
  apply search_block_no_panic; [lia|].
  pose proof (Z.div_pos (de_NameOff d) SizeDirent ltac:(lia) ltac:(done)). lia.
Qed.

Lemma blockFirstName_no_panic buf : no_panic (blockFirstName buf).
Proof.
  unfold no_panic, blockFirstName. destruct (Z.ltb_spec (zlen buf) SizeDirent); [congruence|].
  destruct (Dirent_Unmarshal_ok buf) as [d Hd]; [lia|]. rewrite Hd.
  apply Dirent_Unmarshal_ranges in Hd as (_ & Hr & _). unfold is_u16 in Hr.
  destruct (_ || _); [congruence|].
  set (r := if 1 <? _ then _ else _).
  assert (Hr' : r <> Panic) by (unfold r; repeat case_match; congruence). clearbody r.
  destruct r as [e| |]; [|congruence|done].
  destruct ((e <? _) || _) eqn:E; [congruence|]. zbool. rewrite slice_ok by lia.
  rewrite cut_nul_until. destruct (checkDirentName_cases (until_nul
    (sub buf (Z.to_nat (de_NameOff d)) (Z.to_nat (e - de_NameOff d))))) as [-> | ->]; congruence.
Qed.

Lemma search_dir_no_panic img fi target blkSize : image_wf img -> forall fuel lo hi last,
  0 <= lo -> hi - lo <= Z.of_nat fuel -> no_panic (search_dir fuel img fi target blkSize lo hi last).
Proof.
  intros Hwf. unfold no_panic. induction fuel as [|fuel IH]; intros lo hi last Hlo Hf; cbn [search_dir];
    destruct (Z.leb_spec hi lo); try congruence; try lia.
  pose proof (mid_range lo hi ltac:(lia)) as Hm. set (mid := lo + Z.quot (hi - lo) 2) in *.
  destruct (loadBlock img fi (mid * blkSize)) as [buf|e|] eqn:E;
    [|destruct (errors_Is e EOF); [apply IH; lia|congruence]|by apply loadBlock_no_panic in E].
  pose proof (blockFirstName_no_panic buf) as Hb.
  destruct (blockFirstName buf) as [nm| |]; [|congruence|done].
  destruct (Compare nm target); apply IH; lia.
Qed.

Lemma lookup_inode_no_panic img fi target :
  image_wf img -> no_panic (lookup_inode img fi target).
Proof.
  intros Hwf. unfold no_panic, lookup_inode. set (nb := Z.quot _ _). set (bs := Z.shiftl _ _).
  pose proof (search_dir_no_panic img fi target bs Hwf (Z.to_nat nb) 0 nb None) as Hd.
  specialize (Hd ltac:(lia) ltac:(lia)). unfold no_panic in Hd.
  destruct (search_dir _ _ _ _ _ _ _ _) as [[buf|]| |]; try congruence. apply lookupBlock_no_panic.
Qed.

(** A name [ReadDir] decodes is a base name, and is within the block. *)
Lemma readdir_name_cases buf nameBase entryN i cur next :
  0 <= i -> 0 <= nameBase <= zlen buf -> is_u16 (de_NameOff cur) ->
  let names := sub buf (Z.to_nat nameBase) (Z.to_nat (zlen buf - nameBase)) in
  readdir_name buf names nameBase entryN i cur next = Err ErrCorrupt \/
  exists name next', readdir_name buf names nameBase entryN i cur next = Ok (name, next') /\
    good_name name /\ (is_u16 (de_NameOff next) -> is_u16 (de_NameOff next')).
Proof.
  intros Hi Hnb Hcur names. unfold readdir_name, is_u16 in *.
  assert (Htail : forall hi next', de_NameOff cur <= hi <= zlen buf ->
    (is_u16 (de_NameOff next) -> is_u16 (de_NameOff next')) ->
    let r := (if de_NameOff cur <? nameBase then Err ErrCorrupt else
      let! raw := slice buf (de_NameOff cur) hi in
      let! _ := checkDirentName raw in
      let! name := slice names (de_NameOff cur - nameBase) (hi - nameBase) in
      Ok (name, next')) in
    r = Err ErrCorrupt \/ exists name next'', r = Ok (name, next'') /\ good_name name /\
      (is_u16 (de_NameOff next) -> is_u16 (de_NameOff next''))).
  { intros hi next' Hhi Hnx r. unfold r. destruct (Z.ltb_spec (de_NameOff cur) nameBase); [by left|].
    rewrite slice_ok by lia. set (raw := sub buf _ _).
    destruct (checkDirentName_cases raw) as [Hc| ->]; [|by left]. rewrite Hc.
    rewrite slice_ok; [|lia|unfold names, zlen in *; rewrite length_sub; lia].
    right. eexists _, _. split; [done|]. split; [|done]. apply checkDirentName_spec in Hc.
    replace (sub names _ _) with raw; [done|]. unfold raw, names. rewrite sub_sub by lia. f_equal; lia. }
  unfold SizeDirent in *. destruct (Z.ltb_spec i (entryN - 1)).
  - destruct (Z.ltb_spec (zlen buf) (12 * (i + 1) + 12)); [by left|]. rewrite slice_ok by lia.
    match goal with |- context [Dirent_Unmarshal ?b] => destruct (Dirent_Unmarshal_ok b) as [d Hd] end.
    { unfold zlen, SizeDirent in *. rewrite length_sub; lia. }
    rewrite Hd. apply Dirent_Unmarshal_ranges in Hd as (_ & Hr & _).
    destruct (_ || _ || _) eqn:E; [by left|]. zbool. apply (Htail (de_NameOff d) d); [lia|done].
  - destruct (Z.ltb_spec (zlen buf) (de_NameOff cur)); [by left|]. rewrite slice_ok by lia.
    set (rest := sub buf _ _).
    assert (Hl : zlen rest = zlen buf - de_NameOff cur) by (unfold rest, zlen in *; rewrite length_sub; lia).
    apply Htail; [|done]. destruct (IndexByte_spec rest x00) as [[-> _]|(Hx & _)]; [cbn; lia|].
    rewrite (proj2 (Z.leb_le _ _)) by lia. lia.
Qed.

(** An entry a listing may hand out. *)
Definition listable (e : direntry) : Prop := good_name (ent_name e) /\ is_dot (ent_name e) = false.

Definition walk_ents (w : walk) : list direntry :=
  match w with walk_end e => e | walk_full e _ _ => e | walk_err e _ _ => e end.

Definition walk_ok (n : Z) (w : walk) : Prop :=
  Forall listable (walk_ents w) /\ (0 < n -> zlen (walk_ents w) <= n) /\
  match w with
  | walk_end e => 0 < n -> zlen e < n
  | walk_full e c _ => 0 < n /\ zlen e = n /\ 0 <= c
  | walk_err _ c _ => 0 <= c
  end.

Lemma walk_block_safe buf nameBase entryN n want :
  0 <= nameBase <= zlen buf ->
  let names := sub buf (Z.to_nat nameBase) (Z.to_nat (zlen buf - nameBase)) in
  forall k i used consumed cur next ents,
  0 <= i -> i + Z.of_nat k = entryN -> entryN <= 5461 -> is_u16 (de_NameOff cur) -> is_u16 (de_NameOff next) ->
  slab_ok entryN n want i used consumed (zlen ents) -> Forall listable ents -> 0 <= consumed ->
  exists w, walk_block k buf names nameBase entryN n want i used consumed cur next ents = Ok w /\ walk_ok n w.
Proof.
  intros Hnb names. induction k as [|k IH];
    intros i used consumed cur next ents Hi Hk Hsm Hc Hnx Hslab Hf Hc0; cbn [walk_block].
  { eexists. split; [done|]. split; [done|]. destruct Hslab as [_ S2]. cbn.
    split; intros Hn; destruct (S2 Hn); lia. }
  destruct (readdir_name_cases buf nameBase entryN i cur next Hi Hnb Hc) as [E|(name & next' & E & Hg & Hn')];
    unfold names; rewrite E; clear E.
  { eexists. split; [done|]. split; [done|]. destruct Hslab as [_ S2]. cbn.
    split; [intros Hn; destruct (S2 Hn); lia|done]. }
  specialize (Hn' Hnx).
  destruct ((consumed <=? i) && negb (is_dot name)) eqn:Et.
  - zbool. destruct Hslab as [S1 S2]. rewrite (Z.max_l i consumed) in S1, S2 by lia.
    rewrite (proj2 (Z.leb_gt want used)) by (destruct (Z.le_gt_cases n 0); lia).
    set (e := mkDirentry _ _ _).
    assert (Hf' : Forall listable (ents ++ [e])) by (apply Forall_app; split; [done|]; apply Forall_singleton; by split).
    assert (Hz : zlen (ents ++ [e]) = zlen ents + 1) by (by rewrite zlen_app).
    rewrite u16_id by (unfold is_u16; lia).
    destruct ((0 <? n) && (zlen (ents ++ [e]) =? n)) eqn:Ef.
    + zbool. eexists. split; [done|]. split; [done|]. cbn. split; [lia|]. split_and!; [done|done|lia].
    + assert (Hnf : 0 < n -> zlen ents + 1 < n).
      { intros Hn. rewrite (proj2 (Z.ltb_lt _ _)) in Ef by done. cbn [andb] in Ef. zbool.
        destruct (S2 Hn). lia. }
      apply IH; auto; try lia. rewrite Hz. split; intros Hn; lia.
  - apply IH; auto; try lia.
    destruct Hslab as [S1 S2]. split; intros Hn; [specialize (S1 Hn)|specialize (S2 Hn)]; lia.
Qed.

Lemma readdir_block_safe buf n consumed ents :
  0 <= consumed -> (0 < n -> zlen ents < n) -> Forall listable ents ->
  exists w, readdir_block buf n consumed ents = Ok w /\ walk_ok n w.
Proof.
  intros Hc Hn Hf. unfold readdir_block.
  assert (Herr : walk_ok n (walk_err ents consumed ErrCorrupt)).
  { split; [done|]. split; [|done]. intros Hx. specialize (Hn Hx). cbn. lia. }
  destruct (Z.ltb_spec (zlen buf) SizeDirent); [eauto|].
  destruct (Dirent_Unmarshal_ok buf) as [d Hd]; [lia|]. rewrite Hd.
  apply Dirent_Unmarshal_ranges in Hd as (_ & Hr & _).
  destruct (_ || _ || _) eqn:E; [eauto|]. zbool. unfold is_u16 in Hr. rewrite slice_ok by lia.
  unfold SizeDirent in *. pose proof (Z.div_pos (de_NameOff d) 12 ltac:(lia) ltac:(lia)).
  pose proof (Z.mul_div_le (de_NameOff d) 12 ltac:(lia)).
  apply (walk_block_safe buf (de_NameOff d)); auto; try lia; [done|].
  pose proof (zlen_nonneg ents). split; intros Hx.
  - rewrite (proj2 (Z.ltb_ge 0 n)) by lia. cbn. lia.
  - specialize (Hn Hx). rewrite (proj2 (Z.ltb_lt 0 n)) by lia. cbn [andb].
    match goal with |- context [n <? ?m] => destruct (Z.ltb_spec n m) end; lia.
Qed.

Lemma readdir_loop_safe img fi n :
  image_wf img -> 0 <= ino_size fi <= MaxInt64 - 2 ^ 16 ->
  let nb := calculateBlocks (img_bits img) (ino_size fi) in
  forall fuel d ents,
  0 <= d_bn d <= nb -> 0 <= d_consumed d -> nb - d_bn d <= Z.of_nat fuel ->
  (0 < n -> zlen ents < n) -> Forall listable ents ->
  exists r, readdir_loop fuel img fi n d ents = Ok r /\ Forall listable (rdd_ents r) /\
    (0 < n -> zlen (rdd_ents r) <= n) /\ (0 < n -> rdd_err r = None -> zlen (rdd_ents r) = n).
Proof.
  intros Hwf Hs nb. pose proof (wf_bits img Hwf) as Hbits. pose proof (pow2_bits _ Hbits) as Hp.
  pose proof (calculateBlocks_upper (img_bits img) (ino_size fi) ltac:(lia) ltac:(lia)) as Hu.
  pose proof (calculateBlocks_ceil (img_bits img) (ino_size fi) ltac:(lia) ltac:(lia)) as Hcl.
  cbn zeta in Hcl. fold nb in Hu, Hcl. unfold MaxInt64 in Hs.
  induction fuel as [|fuel IH]; intros d ents Hb Hc Hf Hn Hl; cbn [readdir_loop];
    (rewrite Z.shiftl_mul_pow2 by lia);
    (assert (Hm : d_bn d * 2 ^ img_bits img < ino_size fi + 2 ^ img_bits img)
      by (destruct Hcl as [Hcl|[Hc1 Hc2]]; nia));
    (rewrite i64_id by nia);
    (set (fin := Ok (mkReadDir ents _ d));
     assert (Hfin : exists r, fin = Ok r /\ Forall listable (rdd_ents r) /\
       (0 < n -> zlen (rdd_ents r) <= n) /\ (0 < n -> rdd_err r = None -> zlen (rdd_ents r) = n))
       by (eexists; split; [done|]; cbn; split; [done|]; split; intros Hx; [specialize (Hn Hx); lia|];
           by rewrite (proj2 (Z.ltb_lt 0 n)) by lia));
    (destruct (Z.leb_spec (ino_size fi) (d_bn d * 2 ^ img_bits img)); [exact Hfin|]).
  - assert (nb <= d_bn d) by lia. nia.
  - destruct (loadBlock img fi (d_bn d * 2 ^ img_bits img)) as [buf|e|] eqn:E;
      [|destruct (errors_Is e EOF); [exact Hfin|]|by apply loadBlock_no_panic in E].
    2:{ eexists. split; [done|]. cbn. split; [done|]. change (zlen (@nil direntry)) with 0. split; [lia|done]. }
    destruct (readdir_block_safe buf n (d_consumed d) ents Hc Hn Hl) as (w & -> & W1 & W2 & W3).
    destruct w as [e|e c b|e c er]; cbn [walk_ents] in *.
    + apply IH; cbn; auto; try lia. split; [lia|]. destruct Hcl as [Hcl|[Hc1 Hc2]]; nia.
    + eexists. split; [done|]. cbn. split; [done|]. split; [done|]. tauto.
    + eexists. split; [done|]. cbn. split; [done|]. split; done.
Qed.

(** ** The claims *)

(** A directory of two blocks in [example_img]'s geometry: inode 0 is a
    directory of 8192 bytes at block 2; "." and ".." and "a" in its first
    block, "b" and "cc" in its second. *)
Definition example_dirent (nid off ft : Z) : bytes := le_encode 8 nid ++ le_encode 2 off ++ le_encode 1 ft ++ [x00].

Definition example_dir_blocks : bytes :=
  let b1 := example_dirent 0 36 2 ++ example_dirent 0 37 2 ++ example_dirent 7 39 1 ++ bs "...a" in
  let b2 := example_dirent 8 24 1 ++ example_dirent 9 25 7 ++ bs "bcc" in
  b1 ++ zeros (Z.to_nat (4096 - zlen b1)) ++ b2 ++ zeros (Z.to_nat (4096 - zlen b2)).

Definition example_dir_img : image :=
  {| img_sb := example_sb; img_size := 16384;
     img_meta := bytes_reader (zeros (Z.to_nat 4096) ++
       put32 16 2 (put32 8 8192 (put16 4 0x41ED (zeros (Z.to_nat 4096)))) ++ example_dir_blocks);
     img_devices := []; img_deviceIDMask := 0; img_longPrefixes := [] |}.

Definition example_dir : dir := mkDir (new_file (bs ".") 0 ModeDir) 0 0.

Definition example_tables : list (list (Dirent * bytes)) :=
  [ [ (mkDirent 0 36 2 0, bs "."); (mkDirent 0 37 2 0, bs ".."); (mkDirent 7 39 1 0, bs "a") ];
    [ (mkDirent 8 24 1 0, bs "b"); (mkDirent 9 25 7 0, bs "cc") ] ].

Lemma example_dir_img_wf : image_wf example_dir_img.
Proof.
  constructor; cbn; try done.
Qed.

(** Reading the directory's inode. *)
Definition example_dir_ino : inode :=
  {| ino_name := bs "."; ino_nid := 0; ino_icsize := 32; ino_xsize := 0;
     ino_inodeLayout := LayoutFlatPlain; ino_inodeData := 2; ino_startHi := 0;
     ino_addr48 := false; ino_size := 8192; ino_mode := EroFSModeToGoFileMode 0x41ED;
     ino_rawMode := 0x41ED; ino_uid := 0; ino_gid := 0; ino_nlink := 0; ino_mtime := 0; ino_mtimeNs := 0 |}.

Lemma example_dir_readInfo :
  readInfo example_dir_img (d_file example_dir) =
  (Ok example_dir_ino, with_info (d_file example_dir) (Some example_dir_ino)).
Proof. vm_compute. reflexivity. Qed.

Lemma example_dir_view : dir_view example_dir_img example_dir_ino example_tables.
Proof.
  constructor; [by vm_compute|reflexivity|].
  intros i l Hi. destruct i as [|[|i]]; cbn in Hi; [injection Hi as <-|injection Hi as <-|done].
  all: eexists; split; [vm_compute; reflexivity|]; constructor; [by eexists _, _, _|]; intros i de nm Hi.
  - destruct i as [|[|[|i]]]; cbn in Hi; try (injection Hi as <- <-; vm_compute; reflexivity). done.
  - destruct i as [|[|i]]; cbn in Hi; try (injection Hi as <- <-; vm_compute; reflexivity). done.
Qed.

Lemma example_tables_sorted : StronglySorted name_lt (names_of (entries_of example_tables)).
Proof. repeat constructor. Qed.

Lemma lookup_facts img f fi f' blks target :
  image_wf img -> readInfo img f = (Ok fi, f') ->
  dir_view img fi blks -> StronglySorted name_lt (names_of (entries_of blks)) ->
  lookup_answers (entries_of blks) target (lookup img f target).1.
Proof.
  intros Hwf Hr Hdv Hs. unfold lookup. rewrite Hr. cbn.
  apply lookup_inode_answers; auto. apply Hwf.
Qed.

Lemma ReadDir_facts img d n fi f' blks :
  image_wf img -> readInfo img (d_file d) = (Ok fi, f') -> dir_view img fi blks ->
  0 <= d_bn d <= zlen blks -> 0 <= d_consumed d ->
  exists r, ReadDir img d n = Ok r /\
    remaining blks (d_bn d) (d_consumed d) =
      rdd_ents r ++ remaining blks (d_bn (rdd_dir r)) (d_consumed (rdd_dir r)) /\
    0 <= d_bn (rdd_dir r) <= zlen blks /\ 0 <= d_consumed (rdd_dir r) /\
    d_file (rdd_dir r) = f' /\ page_end blks n r.
Proof.
  intros Hwf Hr Hdv Hb Hc. unfold ReadDir. rewrite Hr.
  destruct (readdir_loop_spec img fi blks n (wf_bits img Hwf) Hdv
    (Z.to_nat (calculateBlocks (img_bits img) (ino_size fi))) (mkDir f' (d_bn d) (d_consumed d)) [])
    as (r & page & -> & R1 & R2 & R3 & R4 & R5 & R6); cbn; auto.
  - rewrite (dv_count _ _ _ Hdv). pose proof (zlen_nonneg blks). lia.
  - cbn in R1, R2, R5. subst page. exists r. split_and!; auto; lia.
Qed.

(** C21: [lookup] finds exactly what the directory holds.  On a directory whose
    names ascend, the two binary searches end and answer the nid and the type
    of the entry of that name, or [fs.ErrNotExist] when no block has it. *)
Theorem lookup_correct img f fi f' blks target :
  image_wf img -> readInfo img f = (Ok fi, f') ->
  dir_view img fi blks -> StronglySorted name_lt (names_of (entries_of blks)) ->
  lookup_answers (entries_of blks) target (lookup img f target).1.
Proof. apply lookup_facts. Qed.

Lemma lookup_correct_witness :
  (lookup example_dir_img (d_file example_dir) (bs "cc")).1 = Ok (9, EroFSFtypeToFileMode 7) /\
  (lookup example_dir_img (d_file example_dir) (bs "bb")).1 = Err ErrNotExist.
Proof.
  pose proof (fun t => lookup_correct example_dir_img _ _ _ _ t example_dir_img_wf example_dir_readInfo
    example_dir_view example_tables_sorted) as H. split.
  - destruct (H (bs "cc")) as [(i & de & Hi & ->)|[Hn _]].
    + destruct i as [|[|[|[|[|i]]]]]; cbn in Hi; try discriminate Hi. injection Hi as <-. reflexivity.
    + exfalso. apply Hn. apply elem_of_entries. exists 1%nat. eexists. split; [reflexivity|].
      apply (list_elem_of_lookup_2 _ 1). reflexivity.
  - destruct (H (bs "bb")) as [(i & de & Hi & _)|[_ Hn]]; [|exact Hn].
    destruct i as [|[|[|[|[|i]]]]]; cbn in Hi; discriminate Hi.
Defined.

(** C22: [ReadDir] pages through the directory.  From any position, a call
    hands out the next entries of the listing ("." and ".." left out) in
    order, and the position it leaves is where the rest starts: with [n > 0]
    exactly [n] of them, or fewer with [io.EOF] when they were the last; with
    [n <= 0] all of them. *)
Theorem ReadDir_pages img d n fi f' blks :
  image_wf img -> readInfo img (d_file d) = (Ok fi, f') -> dir_view img fi blks ->
  0 <= d_bn d <= zlen blks -> 0 <= d_consumed d ->
  exists r, ReadDir img d n = Ok r /\
    remaining blks (d_bn d) (d_consumed d) =
      rdd_ents r ++ remaining blks (d_bn (rdd_dir r)) (d_consumed (rdd_dir r)) /\
    0 <= d_bn (rdd_dir r) <= zlen blks /\ 0 <= d_consumed (rdd_dir r) /\
    d_file (rdd_dir r) = f' /\ page_end blks n r.
Proof. apply ReadDir_facts. Qed.

Lemma ReadDir_pages_witness :
  exists r, ReadDir example_dir_img example_dir 2 = Ok r /\
    remaining example_tables 0 0 =
      rdd_ents r ++ remaining example_tables (d_bn (rdd_dir r)) (d_consumed (rdd_dir r)) /\
    page_end example_tables 2 r /\ ent_name <$> rdd_ents r = [bs "a"; bs "b"].
Proof.
  destruct (ReadDir_pages example_dir_img example_dir 2 _ _ _ example_dir_img_wf example_dir_readInfo
    example_dir_view ltac:(by split) ltac:(done)) as (r & Hr & H1 & _ & _ & _ & H2).
  exists r. split; [exact Hr|]. split; [exact H1|]. split; [exact H2|].
  vm_compute in Hr. injection Hr as <-. reflexivity.
Defined.

(** C32: directory decoding is safe on any directory bytes.  [lookup] never
    panics, whatever the directory declares and its blocks hold.  From any
    position within the directory [ReadDir] ends without a panic, provided the
    declared size is at most [MaxInt64] less a block of the largest size (which
    [readInfo] does not enforce; past it the position of the block after the
    last wraps); every entry it hands out is a base name (not empty, no "/", no
    NUL, not "." or ".."), and a page has at most [n] of them, [n] when there
    is no error. *)
Theorem dir_safe img d n fi f' target :
  image_wf img -> readInfo img (d_file d) = (Ok fi, f') ->
  no_panic (lookup img (d_file d) target).1 /\
  (0 <= ino_size fi <= MaxInt64 - 2 ^ 16 ->
   0 <= d_bn d <= calculateBlocks (img_bits img) (ino_size fi) -> 0 <= d_consumed d ->
   exists r, ReadDir img d n = Ok r /\ Forall listable (rdd_ents r) /\
     (0 < n -> zlen (rdd_ents r) <= n) /\ (0 < n -> rdd_err r = None -> zlen (rdd_ents r) = n)).
Proof.
  intros Hwf Hr. unfold lookup, ReadDir. rewrite Hr. split; [by apply lookup_inode_no_panic|].
  intros Hs Hb Hc. apply readdir_loop_safe; auto; cbn; try lia.
Qed.

Lemma dir_safe_witness :
  no_panic (lookup example_dir_img (d_file example_dir) (bs "x")).1 /\
  exists r, ReadDir example_dir_img example_dir 1 = Ok r /\ Forall listable (rdd_ents r) /\ zlen (rdd_ents r) <= 1.
Proof.
  destruct (dir_safe example_dir_img example_dir 1 _ _ (bs "x") example_dir_img_wf example_dir_readInfo) as [H1 H2].
  split; [exact H1|]. destruct H2 as (r & H3 & H4 & H5 & _); [by vm_compute|by vm_compute|done|].
  exists r. split; [exact H3|]. split; [exact H4|]. apply H5. lia.
Defined.
