(* ===== verification/Path.v ===== *)
(** * Paths: [validPath], symlinks and the walk from the root ([erofs.go])

    [resolve] walks one component at a time, restarting from the root at each
    symlink; the file-system operations of the image ([Open], [ReadFile],
    [ReadDir], [ReadLink]) are calls of it.  [path.Clean] of the standard
    library is modelled on the path's components. *)

From S2P Require Import Prelude Machine Disk Format Image Inode Data Reading Dir.

Abbreviation slash := x2f.

(** ** Components *)

(** Up to the first '/', and what follows it when there is one. *)
Fixpoint cut_slash (name : bytes) : bytes * option bytes :=
  match name with
  | [] => ([], None)
  | c :: t => if bool_decide (c = slash) then ([], Some t)
              else let '(e, r) := cut_slash t in (c :: e, r)
  end.

(** [strings.Split(name, "/")]. *)
Fixpoint components (name : bytes) : list bytes :=
  match name with
  | [] => [[]]
  | c :: t => if bool_decide (c = slash) then [] :: components t
              else match components t with
                   | e :: es => (c :: e) :: es
                   | [] => [[c]]
                   end
  end.

(** [strings.Join(l, "/")]. *)
Fixpoint join (l : list bytes) : bytes :=
  match l with
  | [] => []
  | [e] => e
  | e :: es => e ++ slash :: join es
  end.

(** Not empty, "." or "..": an element that names an entry. *)
Definition proper (e : bytes) : bool :=
  negb (beqb e [] || beqb e (bs ".") || beqb e (bs "..")).

Fixpoint valid_elems (fuel : nat) (name : bytes) : bool :=
  match fuel with
  | O => false
  | S fuel =>
      let '(elem, rest) := cut_slash name in
      if negb (proper elem) then false else
      match rest with
      | None => true
      | Some name => valid_elems fuel name
      end
  end.

Definition validPath (name : bytes) : bool :=
  if beqb name (bs ".") then true else valid_elems (S (length name)) name.

(** ** [path.Clean] *)

(** One element against the output so far (a stack, last element first):
    empty and "." elements vanish, ".." takes the element before it away, or
    stays when the path is not rooted and there is none. *)
Definition clean_step (rooted : bool) (out : list bytes) (e : bytes) : list bytes :=
  if beqb e [] || beqb e (bs ".") then out
  else if beqb e (bs "..") then
    match out with
    | [] => if rooted then [] else [e]
    | top :: out' => if beqb top (bs "..") then e :: out else out'
    end
  else e :: out.

Definition clean_elems (rooted : bool) (l : list bytes) : list bytes :=
  rev (foldl (clean_step rooted) [] l).

Definition IsAbs (p : bytes) : bool :=
  match p with c :: _ => bool_decide (c = slash) | [] => false end.

Definition Clean (p : bytes) : bytes :=
  let rooted := IsAbs p in
  let l := clean_elems rooted (components p) in
  if rooted then slash :: join l
  else match l with [] => bs "." | _ => join l end.

(** ** Symlinks *)

Definition maxSymlinks : Z := 255.
Definition maxSymlinkSize : Z := 4096.
Definition maxPathLen : Z := 4096.
Definition maxResolveComponents : Z := maxSymlinks * (maxSymlinkSize / 2).

Definition linkTarget (img : image) (nid : Z) (name : bytes) : res bytes :=
  match readInfo img (new_file name nid ModeSymlink) with
  | (Panic, _) => Panic
  | (Err e, _) => Err e
  | (Ok fi, f) =>
      reject ino_size fi =? 0 with ErrCorrupt ;;
      reject (ino_size fi <? 0) || (maxSymlinkSize <? ino_size fi) with ErrCorrupt ;;
      let! buf := readAll img f (ino_size fi) in
      reject 0 <=? IndexByte buf x00 with ErrCorrupt ;;
      Ok buf
  end.

(** The composed path of a hop: the target, what was left of the path after
    the link, from the directory of the link when it is relative; cleaned,
    bounded, and stripped of its leading '/'. *)
Definition hop_path (curPath target rest : bytes) : res bytes :=
  let target := if negb (beqb rest []) then target ++ slash :: rest else target in
  let target := if negb (IsAbs target) then curPath ++ slash :: target else target in
  let target := Clean target in
  reject maxPathLen <? zlen target with ErrInvalid ;;
  let! target := (if IsAbs target then slice target 1 (zlen target) else Ok target) in
  reject negb (beqb target []) && negb (validPath target) with ErrInvalid ;;
  Ok (if beqb target (bs ".") then [] else target).

(** ** The walk *)

(** The loop of [resolve]. *)
Fixpoint resolve_loop (fuel : nat) (img : image) (follow : bool) (name : bytes) (nid ftype : Z)
  (linksFollowed comps : Z) (curPath basename : bytes) : res (Z * Z * bytes) :=
  if beqb name [] then Ok (nid, ftype, basename) else
  match fuel with
  | O => Panic
  | S fuel =>
      let comps := comps + 1 in
      reject maxResolveComponents <? comps with ErrLoop ;;
      let '(basename, rest) := cut_slash name in
      let rest := default [] rest in
      reject negb (ftype =? ModeDir) with ErrNotDirectory ;;
      let! (entNid, entFtype) := (lookup img (new_file basename nid ftype) basename).1 in
      let nid := entNid in
      let ftype := Z.land entFtype ModeType in
      let isFinal := beqb rest [] in
      if negb (Z.land ftype ModeSymlink =? 0) && (follow || negb isFinal) then
        let linksFollowed := linksFollowed + 1 in
        reject maxSymlinks <? linksFollowed with ErrLoop ;;
        let! target := linkTarget img nid basename in
        let! name := hop_path curPath target rest in
        resolve_loop fuel img follow name (sb_RootNid (img_sb img)) ModeDir linksFollowed comps [] name
      else
        let curPath := if beqb curPath [] then basename else curPath ++ slash :: basename in
        resolve_loop fuel img follow rest nid ftype linksFollowed comps curPath basename
  end.

Definition resolve (img : image) (name : bytes) (follow : bool) : res (Z * Z * bytes) :=
  let original := name in
  reject negb (validPath name) with ErrInvalid ;;
  reject maxPathLen <? zlen name with ErrInvalid ;;
  let name := if beqb name (bs ".") then [] else name in
  let! (nid, ftype, basename) :=
    resolve_loop (S (Z.to_nat maxResolveComponents)) img follow name
      (sb_RootNid (img_sb img)) ModeDir 0 0 [] name in
  Ok (nid, ftype, if beqb basename [] then original else basename).

(** ** The image's operations *)

Inductive opened := opened_dir (d : dir) | opened_file (f : file).

Definition Open (img : image) (name : bytes) : res opened :=
  let! (nid, ftype, basename) := resolve img name true in
  let b := new_file basename nid ftype in
  Ok (if FileMode_IsDir ftype then opened_dir (mkDir b 0 0) else opened_file b).

Definition maxReadFileSize : Z := Z.shiftl 128 20.

Definition ReadFile (img : image) (name : bytes) : res bytes :=
  let! (nid, ftype, basename) := resolve img name true in
  reject FileMode_IsDir ftype with ErrIsDirectory ;;
  match readInfo img (new_file basename nid ftype) with
  | (Panic, _) => Panic
  | (Err e, _) => Err e
  | (Ok fi, f) =>
      reject (ino_size fi <? 0) || (maxReadFileSize <? ino_size fi) with ErrInvalid ;;
      readAll img f (ino_size fi)
  end.

(** [cmp.Compare(a.Name(), b.Name())] below or equal. *)
Definition ent_le (a b : direntry) : Prop := name_le (ent_name a) (ent_name b).

#[export] Instance ent_le_dec a b : Decision (ent_le a b).
Proof. unfold ent_le. apply _. Defined.

Fixpoint is_sorted (l : list direntry) : bool :=
  match l with
  | a :: (b :: _) as t => bool_decide (ent_le a b) && is_sorted t
  | _ => true
  end.

(** [image.ReadDir]; [slices.SortFunc] is a sort by name, which may permute
    entries of the same name. *)
Definition image_ReadDir (img : image) (name : bytes) : res (list direntry) :=
  let! (nid, ftype, basename) := resolve img name true in
  reject negb (FileMode_IsDir ftype) with ErrNotDirectory ;;
  let! r := ReadDir img (mkDir (new_file basename nid ftype) 0 0) (-1) in
  match rdd_err r with
  | Some e => Err e
  | None => Ok (if is_sorted (rdd_ents r) then rdd_ents r else merge_sort ent_le (rdd_ents r))
  end.

Definition ReadLink (img : image) (name : bytes) : res bytes :=
  let! (nid, ftype, basename) := resolve img name false in
  reject Z.land ftype ModeSymlink =? 0 with ErrInvalid ;;
  linkTarget img nid basename.

(** ** Components and validity *)

Lemma cut_slash_spec name :
  match cut_slash name with
  | (e, None) => name = e /\ components name = [e] /\ (slash ∉ e)
  | (e, Some r) => name = e ++ slash :: r /\ components name = e :: components r /\ (slash ∉ e)
  end.
Proof.
  induction name as [|c t IH]; cbn; [split_and!; auto; apply not_elem_of_nil|].
  case_bool_decide as E.
  - subst c. split_and!; auto. apply not_elem_of_nil.
  - destruct (cut_slash t) as [e [r|]]; destruct IH as (-> & H2 & H3); rewrite H2;
      split_and!; auto; rewrite not_elem_of_cons; split; auto.
Qed.

Lemma components_nonempty name : components name <> [].
Proof. destruct name as [|c t]; cbn; [done|]. repeat case_match; done. Qed.

Lemma components_no_slash name : Forall (fun e => slash ∉ e) (components name).
Proof.
  remember (length name) as n eqn:En. revert name En. induction n as [n IH] using lt_wf_ind. intros name ->.
  pose proof (cut_slash_spec name) as H. destruct (cut_slash name) as [e [r|]];
    destruct H as (E & -> & H3); constructor; auto.
  eapply IH; [|done]. rewrite E, length_app. cbn. lia.
Qed.

Lemma components_app e r : slash ∉ e -> components (e ++ slash :: r) = e :: components r.
Proof.
  induction e as [|c e IH]; cbn; intros H; [by rewrite bool_decide_eq_true_2|].
  rewrite not_elem_of_cons in H. destruct H as [H1 H2]. rewrite bool_decide_eq_false_2 by congruence.
  by rewrite IH.
Qed.

Lemma components_single e : slash ∉ e -> components e = [e].
Proof.
  intros H. pose proof (cut_slash_spec e) as Hc. destruct (cut_slash e) as [e' [r|]].
  - destruct Hc as (-> & _). exfalso. apply H. rewrite elem_of_app, elem_of_cons. auto.
  - destruct Hc as (-> & -> & _). done.
Qed.

(** [Split] and [Join] are inverse. *)
Lemma components_join l : l <> [] -> Forall (fun e => slash ∉ e) l -> components (join l) = l.
Proof.
  induction l as [|e l IH]; [done|]. intros _ Hf. inv Hf.
  destruct l as [|e' l]; [by apply components_single|].
  change (join (e :: e' :: l)) with (e ++ slash :: join (e' :: l)).
  rewrite components_app by done. by rewrite IH.
Qed.

Lemma join_components name : join (components name) = name.
Proof.
  remember (length name) as n eqn:En. revert name En. induction n as [n IH] using lt_wf_ind. intros name ->.
  pose proof (cut_slash_spec name) as H. destruct (cut_slash name) as [e [r|]]; destruct H as (E & -> & _).
  - pose proof (components_nonempty r). destruct (components r) as [|c cs] eqn:Er; [done|].
    change (join (e :: c :: cs)) with (e ++ slash :: join (c :: cs)). rewrite <- Er.
    rewrite (IH (length r)) by (done || (rewrite E, length_app; cbn; lia)). done.
  - done.
Qed.

Lemma valid_elems_spec fuel : forall name,
  (length name < fuel)%nat -> valid_elems fuel name = forallb proper (components name).
Proof.
  induction fuel as [|fuel IH]; intros name Hf; [lia|]. cbn [valid_elems].
  pose proof (cut_slash_spec name) as H. destruct (cut_slash name) as [e [r|]]; destruct H as (E & -> & _); cbn.
  - destruct (proper e); cbn; [|done]. apply IH. subst name. rewrite length_app in Hf. cbn in Hf. lia.
  - destruct (proper e); done.
Qed.

Lemma validPath_components name :
  validPath name = true <-> name = bs "." \/ forallb proper (components name) = true.
Proof.
  unfold validPath. rewrite valid_elems_spec by lia. destruct (beqb name (bs ".")) eqn:E.
  - apply beqb_eq in E. tauto.
  - apply beqb_neq in E. tauto.
Qed.

(** C40: [validPath] accepts exactly "." and the paths all of whose
    '/'-separated elements are neither empty nor "." nor "..": such a path is
    not rooted, and no element of it walks up. *)
Theorem validPath_spec name :
  validPath name = true <->
  name = bs "." \/
  (Forall (fun e => e <> [] /\ e <> bs "." /\ e <> bs "..") (components name) /\
   join (components name) = name).
Proof.
  rewrite validPath_components, join_components, forallb_forall, Forall_forall.
  assert (Hp : forall e, proper e = true <-> e <> [] /\ e <> bs "." /\ e <> bs "..").
  { intros e. unfold proper. rewrite negb_true_iff, !orb_false_iff, !beqb_neq. tauto. }
  setoid_rewrite Hp. setoid_rewrite <- list_elem_of_In. tauto.
Qed.

(** ** [Clean] of a rooted path is a valid path *)

Lemma beqb_refl a : beqb a a = true.
Proof. by apply beqb_eq. Qed.

Lemma proper_not_up e : proper e = true -> beqb e (bs "..") = false.
Proof. unfold proper. rewrite negb_true_iff, !orb_false_iff. tauto. Qed.

Lemma clean_step_rooted out e :
  Forall (fun x => proper x = true) out -> Forall (fun x => proper x = true) (clean_step true out e).
Proof.
  intros Hf. unfold clean_step.
  destruct (beqb e [] || beqb e (bs ".")) eqn:E1; [done|].
  destruct (beqb e (bs "..")) eqn:E2.
  - destruct out as [|top out]; [done|]. inv Hf. by rewrite proper_not_up.
  - constructor; [|done]. unfold proper. by rewrite E1, E2.
Qed.

Lemma clean_step_no_slash rooted out e :
  slash ∉ e -> Forall (fun x => slash ∉ x) out -> Forall (fun x => slash ∉ x) (clean_step rooted out e).
Proof.
  intros He Hf. unfold clean_step. repeat case_match; auto; try (by constructor); by inv Hf.
Qed.

Lemma clean_fold {P : bytes -> Prop} (Q : bytes -> Prop) rooted l :
  (forall out e, Q e -> Forall P out -> Forall P (clean_step rooted out e)) ->
  Forall Q l -> forall out, Forall P out -> Forall P (foldl (clean_step rooted) out l).
Proof.
  intros Hstep. induction 1 as [|e l Hq Hl IH]; intros out Hout; cbn; [done|]. auto.
Qed.

Lemma clean_elems_rooted p :
  Forall (fun x => proper x = true) (clean_elems true (components p)) /\
  Forall (fun x => slash ∉ x) (clean_elems true (components p)).
Proof.
  unfold clean_elems. split; apply Forall_rev.
  - apply (clean_fold (fun _ => True)); [|by apply Forall_true|done]. intros. by apply clean_step_rooted.
  - apply (clean_fold (fun x => slash ∉ x)); [|apply components_no_slash|done].
    intros. by apply clean_step_no_slash.
Qed.

(** What [resolve] does with a rooted composed path cannot be refused for its
    form: stripped of its '/', it is empty or a valid path. *)
Lemma Clean_rooted p :
  IsAbs p = true ->
  exists l, Clean p = slash :: join l /\ l = clean_elems true (components p) /\
            (l = [] \/ validPath (join l) = true /\ components (join l) = l).
Proof.
  intros H. unfold Clean. rewrite H. eexists. split; [done|]. split; [done|].
  destruct (clean_elems_rooted p) as [H1 H2].
  destruct (clean_elems true (components p)) as [|e l] eqn:E; [by left|right].
  assert (Hc : components (join (e :: l)) = e :: l) by (by apply components_join).
  split; [|done]. apply validPath_components. right. rewrite Hc. apply forallb_forall.
  intros x Hx. apply list_elem_of_In in Hx. by eapply (Forall_forall _ _) in H1.
Qed.

Lemma IsAbs_app_slash a b : IsAbs (a ++ slash :: b) = IsAbs a || beqb a [].
Proof. destruct a; [by cbn|]. cbn. by rewrite orb_false_r. Qed.

Lemma hop_path_facts curPath target rest :
  (forall n, hop_path curPath target rest = Ok n ->
     zlen n <= maxPathLen /\ (n = [] \/ forallb proper (components n) = true)) /\
  (target <> [] -> IsAbs target = true \/ curPath = [] ->
     let composed := if negb (beqb rest []) then target ++ slash :: rest else target in
     let full := if IsAbs composed then composed else curPath ++ slash :: composed in
     zlen (Clean full) <= maxPathLen ->
     hop_path curPath target rest = Ok (join (clean_elems true (components full)))).
Proof.
  split.
  - intros n H. unfold hop_path in H. cbv zeta in H.
    set (t := Clean _) in H. step_in H. zbool.
    destruct (if IsAbs t then slice t 1 (zlen t) else Ok t) as [t'| |] eqn:Et; [|done..].
    assert (Hl : zlen t' <= zlen t).
    { destruct (IsAbs t); [|apply Ok_inj in Et; subst; lia]. apply slice_inv in Et as (? & ? & ->).
      unfold zlen in *. rewrite length_sub; lia. }
    step_in H. apply Ok_inj in H. subst n. pose proof (zlen_nonneg t).
    destruct (beqb t' (bs ".")) eqn:Ed; [split; [by vm_compute|by left]|].
    split; [lia|]. destruct (beqb t' []) eqn:Ee; [left; by apply beqb_eq|].
    cbn in E0. apply negb_false_iff, validPath_components in E0 as [->|E0]; [|by right].
    by rewrite beqb_refl in Ed.
  - intros Ht Hr composed full Hlen.
    assert (Hc : IsAbs composed = IsAbs target).
    { unfold composed. destruct (beqb rest []); cbn; [done|]. rewrite IsAbs_app_slash.
      apply beqb_neq in Ht. by rewrite Ht, orb_false_r. }
    assert (Hf : IsAbs full = true).
    { unfold full. destruct (IsAbs composed) eqn:E; [done|]. destruct Hr as [Hr| ->]; [congruence|done]. }
    unfold hop_path. fold composed.
    replace (if negb (IsAbs composed) then curPath ++ slash :: composed else composed) with full
      by (unfold full; by destruct (IsAbs composed)).
    rewrite (proj2 (Z.ltb_ge _ _)) by done.
    destruct (Clean_rooted full Hf) as (l & E1 & E2 & E3). rewrite E1. cbn [IsAbs].
    rewrite bool_decide_eq_true_2 by done.
    assert (Es : slice (slash :: join l) 1 (zlen (slash :: join l)) = Ok (join l)).
    { pose proof (zlen_nonneg (join l)). rewrite slice_ok by (rewrite zlen_cons; lia).
      rewrite zlen_cons. unfold sub. change (drop (Z.to_nat 1) (slash :: join l)) with (join l).
      rewrite take_ge; [done|]. unfold zlen. lia. }
    rewrite Es, <- E2. destruct E3 as [->|[Hv Hcl]]; [done|].
    rewrite Hv, andb_false_r. destruct (beqb (join l) (bs ".")) eqn:Ed; [|done].
    exfalso. apply beqb_eq in Ed. rewrite Ed in Hcl. cbn in Hcl.
    destruct (clean_elems_rooted full) as [H1 _]. rewrite <- E2, <- Hcl in H1. inv H1.
Qed.

(** C36: a hop of [resolve] keeps the path well formed.  Whatever the symlink
    holds, a hop that is accepted leaves the empty path (the root) or a valid
    one of at most PATH_MAX bytes; and a target that is absolute, or that is
    followed from the root directory, is never refused for its form, only for
    its length: it is cleaned, its ".." folded at the root. *)
Theorem hop_path_valid curPath target rest :
  (forall n, hop_path curPath target rest = Ok n ->
     zlen n <= maxPathLen /\ (n = [] \/ forallb proper (components n) = true)) /\
  (target <> [] -> IsAbs target = true \/ curPath = [] ->
     let composed := if negb (beqb rest []) then target ++ slash :: rest else target in
     let full := if IsAbs composed then composed else curPath ++ slash :: composed in
     zlen (Clean full) <= maxPathLen ->
     hop_path curPath target rest = Ok (join (clean_elems true (components full)))).
Proof. apply hop_path_facts. Qed.

Lemma hop_path_valid_witness :
  hop_path (bs "a/b") (bs "/x/../../y") (bs "z") = Ok (bs "y/z") /\
  hop_path [] (bs "../y") [] = Ok (bs "y").
Proof.
  split.
  - apply (proj2 (hop_path_valid (bs "a/b") (bs "/x/../../y") (bs "z")));
      [discriminate|left; reflexivity|by vm_compute].
  - apply (proj2 (hop_path_valid [] (bs "../y") [])); [discriminate|right; reflexivity|by vm_compute].
Defined.

(** ** The walk ends *)

Lemma lookup_no_panic img f target :
  image_wf img -> file_wf img f -> no_panic (lookup img f target).1.
Proof.
  intros Hwf Hf. unfold lookup. destruct (readInfo_cases img f Hf) as [(e & ? & -> & _)|(fi & -> & _ & _)]; cbn.
  - done.
  - by apply lookup_inode_no_panic.
Qed.

Lemma linkTarget_answers img nid name :
  image_wf img -> readers_ok img ->
  answered (linkTarget img nid name) /\
  forall t, linkTarget img nid name = Ok t -> 0 < zlen t <= maxSymlinkSize /\ (x00 ∉ t).
Proof.
  intros Hwf Hrd. unfold linkTarget.
  destruct (readInfo_cases img (new_file name nid ModeSymlink) (new_file_wf _ _ _ _))
    as [(e & ? & -> & _)|(fi & -> & Hfi & Hf)]; [split; [by eapply answered_err|done]|].
  destruct (Z.eqb_spec (ino_size fi) 0); [split; [by eapply answered_err|done]|].
  destruct (_ || _) eqn:E; [split; [by eapply answered_err|done]|]. zbool.
  destruct (readAll_facts img _ (ino_size fi) Hwf Hrd Hf) as [(b & -> & Hb)|(e & -> & _)]; [lia| |].
  - destruct (IndexByte_spec b x00) as [[-> Hn]|(Hi & _)].
    + cbn. split; [by eapply answered_ok|]. intros t Ht. apply Ok_inj in Ht. subst t. split; [lia|done].
    + rewrite (proj2 (Z.leb_le _ _)) by lia. split; [by eapply answered_err|done].
  - split; [by eapply answered_err|done].
Qed.

Lemma hop_path_answers curPath target rest : answered (hop_path curPath target rest).
Proof.
  unfold hop_path. set (t := Clean _). destruct (_ <? _); [by eapply answered_err|].
  assert (Hs : answered (if IsAbs t then slice t 1 (zlen t) else Ok t)).
  { destruct t as [|c t]; [by eapply answered_ok|]. cbn [IsAbs]. case_bool_decide; [|by eapply answered_ok].
    pose proof (zlen_nonneg t). rewrite slice_ok by (rewrite zlen_cons; lia). by eapply answered_ok. }
  destruct Hs as [a ->|e ->]; [|by eapply answered_err].
  destruct (_ && _); [by eapply answered_err|by eapply answered_ok].
Qed.

(** A name [resolve] reports: an element of a path. *)
Definition elem_name (e : bytes) : Prop := proper e = true /\ (slash ∉ e).

(** The invariant of the loop's path: empty or valid. *)
Definition walkable (name : bytes) : Prop := name = [] \/ forallb proper (components name) = true.

Lemma walkable_cut name :
  walkable name -> name <> [] ->
  elem_name (cut_slash name).1 /\ walkable (default [] (cut_slash name).2).
Proof.
  intros [?|H] Hn; [done|]. pose proof (cut_slash_spec name) as Hc.
  destruct (cut_slash name) as [e [r|]]; destruct Hc as (_ & E & Hs); rewrite E in H; cbn in *;
    apply andb_true_iff in H as [H1 H2]; (split; [by split|]).
  - by right.
  - by left.
Qed.

(** Every iteration counts a component, so the budget bounds the loop; what
    it answers is an element name, or the empty one for the root. *)
Lemma resolve_loop_answers img follow : image_wf img -> readers_ok img ->
  forall fuel name nid ftype links comps curPath basename,
  walkable name -> (name = [] -> basename = [] \/ elem_name basename) ->
  comps <= maxResolveComponents -> maxResolveComponents < comps + Z.of_nat fuel ->
  answered (resolve_loop fuel img follow name nid ftype links comps curPath basename) /\
  forall r, resolve_loop fuel img follow name nid ftype links comps curPath basename = Ok r ->
    r.2 = [] \/ elem_name r.2.
Proof.
  intros Hwf Hrd. induction fuel as [|fuel IH];
    intros name nid ftype links comps curPath basename Hw Hb Hc Hf; [lia|]. cbn [resolve_loop].
  destruct (beqb name []) eqn:En.
  { apply beqb_eq in En. split; [by eapply answered_ok|]. intros r Hr. apply Ok_inj in Hr. subst r. auto. }
  apply beqb_neq in En. destruct (walkable_cut name Hw En) as [He Hwr].
  destruct (Z.ltb_spec maxResolveComponents (comps + 1)); [split; [by eapply answered_err|done]|].
  destruct (cut_slash name) as [e rest]. cbn [fst snd] in *.
  destruct (negb (ftype =? ModeDir)); [split; [by eapply answered_err|done]|].
  pose proof (no_panic_answered _ (lookup_no_panic img (new_file e nid ftype) e Hwf (new_file_wf _ _ _ _))) as Hl.
  destruct Hl as [[n t] ->|er ->]; [|split; [by eapply answered_err|done]].
  destruct (negb _ && _).
  - destruct (_ <? _); [split; [by eapply answered_err|done]|].
    destruct (linkTarget_answers img n e Hwf Hrd) as [[tg ->|er ->] _]; [|split; [by eapply answered_err|done]].
    pose proof (fun x => proj1 (hop_path_facts curPath tg (default [] rest)) x) as Hv.
    destruct (hop_path_answers curPath tg (default [] rest)) as [nm Hnm|er ->];
      [|split; [by eapply answered_err|done]].
    rewrite Hnm. apply IH; try lia; [by apply (Hv nm Hnm)|auto].
  - apply IH; try lia; auto.
Qed.

(** C27: [resolve] ends on every image and every path, cyclic symlinks
    included: it answers or reports an error within its budget of
    [maxResolveComponents] components, never panics, and the name it reports is
    the caller's own path or a single element that is not empty, ".", ".." and
    holds no '/'. *)
Theorem resolve_total img name follow :
  image_wf img -> readers_ok img ->
  answered (resolve img name follow) /\
  forall nid ftype base, resolve img name follow = Ok (nid, ftype, base) ->
    base = name \/ elem_name base.
Proof.
  intros Hwf Hrd. unfold resolve. destruct (validPath name) eqn:Ev; cbn [negb];
    [|split; [by eapply answered_err|done]].
  destruct (_ <? _); [split; [by eapply answered_err|done]|].
  set (start := if beqb name (bs ".") then [] else name).
  assert (Hw : walkable start).
  { unfold start. destruct (beqb name (bs ".")) eqn:E; [by left|right]. apply beqb_neq in E.
    apply validPath_components in Ev. tauto. }
  destruct (resolve_loop_answers img follow Hwf Hrd (S (Z.to_nat maxResolveComponents)) start
    (sb_RootNid (img_sb img)) ModeDir 0 0 [] start Hw) as [[[[n t] b] Hr|e He] Hb].
  - auto.
  - done.
  - rewrite Nat2Z.inj_succ, Z2Nat.id; [lia|done].
  - rewrite Hr. split; [by eapply answered_ok|]. intros n' t' b' Ho. apply Ok_inj in Ho.
    injection Ho as <- <- <-. destruct (Hb _ Hr) as [Hx|Hx]; cbn in Hx; [rewrite Hx; by left|].
    destruct (beqb b []); auto.
  - rewrite He. split; [by eapply answered_err|done].
Qed.

Lemma resolve_total_witness :
  answered (resolve example_dir_img (bs "a") true) /\
  forall nid ftype base, resolve example_dir_img (bs "a") true = Ok (nid, ftype, base) ->
    base = bs "a" \/ elem_name base.
Proof.
  apply (resolve_total example_dir_img (bs "a") true example_dir_img_wf).
  constructor; [apply bytes_reader_laws|by constructor].
Defined.

(** ** Paths without symlinks *)

(** The walk of a list of elements that meets no symlink to follow. *)
Inductive walks (img : image) (follow : bool) : list bytes -> Z -> Z -> Z -> Z -> Prop :=
| walks_nil nid ft : walks img follow [] nid ft nid ft
| walks_cons e es nid n t nid' ft' :
    (lookup img (new_file e nid ModeDir) e).1 = Ok (n, t) ->
    (Z.land (Z.land t ModeType) ModeSymlink = 0 \/ (es = [] /\ follow = false)) ->
    walks img follow es n (Z.land t ModeType) nid' ft' ->
    walks img follow (e :: es) nid ModeDir nid' ft'.

Lemma resolve_loop_walks img follow es : forall fuel name nid ftype nid' ft' links comps curPath basename,
  name <> [] -> components name = es -> Forall (fun e => e <> []) es ->
  walks img follow es nid ftype nid' ft' ->
  0 <= comps -> comps + zlen es <= maxResolveComponents -> zlen es < Z.of_nat fuel ->
  resolve_loop fuel img follow name nid ftype links comps curPath basename =
  Ok (nid', ft', List.last es []).
Proof.
  induction es as [|e es IH]; intros fuel name nid ftype nid' ft' links comps curPath basename Hn Hc Hne Hw H0 Hm Hf.
  { by apply components_nonempty in Hc. }
  rewrite zlen_cons in Hm, Hf. pose proof (zlen_nonneg es). destruct fuel as [|fuel]; [lia|].
  cbn [resolve_loop]. apply beqb_neq in Hn. rewrite Hn. rewrite (proj2 (Z.ltb_ge _ _)) by lia.
  inversion Hw as [|? ? ? n t ? ? Hlk Hnl Hws]; subst. apply Forall_cons in Hne as [He Hne].
  pose proof (cut_slash_spec name) as Hcut.
  assert (Hstep : exists rest, (cut_slash name = (e, rest)) /\
    (es = [] /\ rest = None \/ exists r, rest = Some r /\ components r = es /\ r <> [])).
  { destruct (cut_slash name) as [e' [r|]]; destruct Hcut as (_ & E & _); rewrite E in Hc;
      injection Hc as -> Hr.
    - exists (Some r). split; [done|]. right. exists r. split; [done|]. split; [done|].
      intros ->. cbn in Hr. subst es. by apply Forall_cons in Hne as [? _].
    - exists None. split; [done|]. left. by subst. }
  destruct Hstep as (rest & -> & Hrest). rewrite Z.eqb_refl. cbn [negb]. rewrite Hlk.
  destruct Hrest as [[-> ->]|(r & -> & Hr & Hrn)]; cbn [default].
  - inversion Hws; subst. cbn [beqb]. replace (negb _ && _) with false.
    2:{ symmetry. destruct Hnl as [->|[_ ->]]; [done|]. rewrite beqb_refl. cbn. by rewrite andb_false_r. }
    destruct fuel; cbn; done.
  - destruct Hnl as [E|[-> _]]; [|by apply components_nonempty in Hr].
    rewrite E. cbn [negb andb Z.eqb].
    rewrite (IH fuel r n (Z.land t ModeType) nid' ft'); auto; try lia.
    destruct es as [|e2 es]; [by apply components_nonempty in Hr|done].
Qed.

(** A walk of lookups is what [resolve] does. *)
Lemma resolve_plain_facts img follow name nid ft :
  validPath name = true -> name <> bs "." -> zlen name <= maxPathLen ->
  walks img follow (components name) (sb_RootNid (img_sb img)) ModeDir nid ft ->
  resolve img name follow = Ok (nid, ft, List.last (components name) []).
Proof.
  intros Hv Hd Hl Hw. unfold resolve. rewrite Hv. cbn [negb]. rewrite (proj2 (Z.ltb_ge _ _)) by done.
  apply beqb_neq in Hd as Hd'. rewrite Hd'. apply validPath_components in Hv as [?|Hv]; [done|].
  assert (Hne : Forall (fun e => e <> []) (components name)).
  { apply Forall_forall. intros e He. rewrite forallb_forall in Hv. apply list_elem_of_In, Hv in He. by intros ->. }
  assert (Hcount : zlen (components name) <= zlen name + 1).
  { clear. remember (length name) as n eqn:En. revert name En. induction n as [n IH] using lt_wf_ind. intros name ->.
    pose proof (cut_slash_spec name) as H. destruct (cut_slash name) as [e [r|]]; destruct H as (E & -> & _).
    - specialize (IH (length r)). rewrite E, zlen_cons, zlen_app, zlen_cons. pose proof (zlen_nonneg e).
      assert (zlen (components r) <= zlen r + 1); [|lia].
      apply IH; [rewrite E, length_app; cbn; lia|done].
    - rewrite zlen_cons, zlen_nil. pose proof (zlen_nonneg name). lia. }
  assert (Hnn : name <> []) by (intros ->; done).
  rewrite (resolve_loop_walks img follow (components name) _ name (sb_RootNid (img_sb img)) ModeDir nid ft); auto.
  - assert (Hlast : List.last (components name) [] <> []).
    { destruct (exists_last (components_nonempty name)) as (l' & a & E). rewrite E in *.
      rewrite last_last. apply Forall_app in Hne as [_ Hx]. by inv Hx. }
    apply beqb_neq in Hlast. by rewrite Hlast.
  - lia.
  - unfold maxPathLen, maxResolveComponents, maxSymlinks, maxSymlinkSize in *.
    change (255 * (4096 / 2)) with 522240. lia.
  - unfold maxPathLen in *. change maxResolveComponents with 522240. rewrite Nat2Z.inj_succ, Z2Nat.id; lia.
Qed.

(** C34: on a path that meets no symlink (the last element aside when it is not
    followed), [resolve] is the plain walk: from the root inode, one [lookup]
    per element in the directory the one before it named, and the answer is
    the last one's inode, type and name. *)
Theorem resolve_plain img follow name nid ft :
  validPath name = true -> name <> bs "." -> zlen name <= maxPathLen ->
  walks img follow (components name) (sb_RootNid (img_sb img)) ModeDir nid ft ->
  resolve img name follow = Ok (nid, ft, List.last (components name) []).
Proof. apply resolve_plain_facts. Qed.

Lemma resolve_plain_witness :
  resolve example_dir_img (bs "cc") false = Ok (9, ModeSymlink, bs "cc").
Proof.
  apply (resolve_plain example_dir_img false (bs "cc")); [reflexivity|discriminate|by vm_compute|].
  eapply walks_cons; [vm_compute; reflexivity|right; split; reflexivity|apply walks_nil].
Defined.

(** ** The directory listing of the image *)

#[export] Instance ent_le_trans : Transitive ent_le.
Proof. intros a b c. apply name_le_trans. Qed.

#[export] Instance ent_le_total : Total ent_le.
Proof. intros a b. apply name_le_total. Qed.

Lemma is_sorted_Sorted l : is_sorted l = true -> Sorted ent_le l.
Proof.
  induction l as [|a l IH]; [constructor|]. intros H. destruct l as [|b l]; [by repeat constructor|].
  change (bool_decide (ent_le a b) && is_sorted (b :: l) = true) in H.
  apply andb_true_iff in H as [H1 H2]. apply bool_decide_eq_true in H1. constructor; auto.
Qed.

(** The listing [image.ReadDir] returns is in name order whatever the
    image holds, and has exactly the entries of the directory's own listing. *)
Theorem image_ReadDir_sorted img name l :
  image_ReadDir img name = Ok l ->
  Sorted ent_le l /\
  exists nid ftype base r, resolve img name true = Ok (nid, ftype, base) /\
    ReadDir img (mkDir (new_file base nid ftype) 0 0) (-1) = Ok r /\ rdd_err r = None /\
    l ≡ₚ rdd_ents r.
Proof.
  unfold image_ReadDir. intros H.
  destruct (resolve img name true) as [[[nid ftype] base]| |] eqn:Er; [|done..]. step_in H.
  destruct (ReadDir _ _ _) as [r| |] eqn:Ed; [|done..]. destruct (rdd_err r) eqn:Ee; [done|].
  apply Ok_inj in H. destruct (is_sorted (rdd_ents r)) eqn:Es; subst l.
  - split; [by apply is_sorted_Sorted|]. exists nid, ftype, base, r. auto.
  - split; [apply Sorted_merge_sort; apply _|]. exists nid, ftype, base, r.
    split_and!; auto. apply merge_sort_Permutation.
Qed.

Lemma image_ReadDir_sorted_witness :
  exists l, image_ReadDir example_dir_img (bs ".") = Ok l /\ Sorted ent_le l /\
            ent_name <$> l = [bs "a"; bs "b"; bs "cc"].
Proof.
  destruct (image_ReadDir example_dir_img (bs ".")) as [l| |] eqn:E.
  - exists l. split; [reflexivity|]. split; [apply (image_ReadDir_sorted _ _ _ E)|].
    vm_compute in E. injection E as <-. reflexivity.
  - exfalso. vm_compute in E. discriminate E.
  - exfalso. vm_compute in E. discriminate E.
Defined.
