(* ===== verification/Xattr.v ===== *)
(** * Extended attributes and [Stat] ([xattr.go], [erofs.go])

    An inode's xattr area is a header, references into the shared area and
    inline entries, 4-byte aligned.  [loadXattrs] reads it through a cursor
    over at most one block at a time; the reference decoder below reads the
    whole area, and the two agree.  [statInfo] adds the data ranges. *)

From S2P Require Import Prelude Machine Disk Format Image Inode Data Reading.

(** ** The attribute map *)

Definition setXattr (xattrs : gmap bytes bytes) (name value : bytes) : res (gmap bytes bytes) :=
  match xattrs !! name with
  | Some _ => Err ErrCorrupt
  | None => Ok (<[name := value]> xattrs)
  end.

(** The prefix a name index stands for, long prefixes included. *)
Definition entry_prefix (img : image) (nameIndex : Z) : res bytes :=
  if negb (Z.land nameIndex XattrLongPrefixFlag =? 0)
  then getLongPrefix img (Z.land nameIndex XattrLongPrefixMask)
  else xattrIndex_prefix nameIndex.

(** ** Shared entries *)

(** The body of the loop over the shared references: the entry at [xattrAddr]
    4-byte units into the shared area. *)
Definition shared_entry (img : image) (xattrAddr : Z) : res (bytes * bytes) :=
  let sharedAddr := i64 (i64 (Z.shiftl (sb_XattrBlkAddr (img_sb img)) (img_bits img)) + xattrAddr * 4) in
  let! sb := loadAt img sharedAddr (Z.shiftl 1 (img_bits img)) in
  reject zlen sb <? SizeXattrEntry with ErrCorrupt ;;
  let! xe := XattrEntry_Unmarshal sb in
  let! sb := slice_from sb SizeXattrEntry in
  let! prefix := entry_prefix img (xe_NameIndex xe) in
  reject zlen sb <? xe_NameLen xe + xe_ValueLen xe with ErrCorrupt ;;
  let! suffix := slice_to sb (xe_NameLen xe) in
  let! sb := slice_from sb (xe_NameLen xe) in
  let! value := slice_to sb (xe_ValueLen xe) in
  Ok (prefix ++ suffix, value).

(** ** The cursor *)

(** [reload]: the area from [pos] on, at most a block of it. *)
Definition reload (img : image) (addr xsize pos : Z) : res bytes :=
  loadAt img (i64 (addr + pos)) (xsize - pos).

(** At least [n] bytes at [pos], reloading once when the window has fewer. *)
Definition refill (img : image) (addr xsize pos n : Z) (xb : bytes) : res bytes :=
  if zlen xb <? n then
    let! xb := reload img addr xsize pos in
    reject zlen xb <? n with ErrCorrupt ;;
    Ok xb
  else Ok xb.

Fixpoint shared_loop (img : image) (addr xsize : Z) (n : nat) (i : Z) (xb : bytes)
  (m : gmap bytes bytes) : res (bytes * gmap bytes bytes) :=
  match n with
  | O => Ok (xb, m)
  | S n =>
      let! xb := refill img addr xsize (SizeXattrBodyHeader + i * 4) 4 xb in
      let! word := slice_to xb 4 in
      let! (name, value) := shared_entry img (get32 word 0) in
      let! m := setXattr m name value in
      let! xb := slice_from xb 4 in
      shared_loop img addr xsize n (i + 1) xb m
  end.

(** The loop that collects a value longer than the window. *)
Fixpoint read_value (fuel : nat) (img : image) (addr xsize remaining pos : Z) (xb buf : bytes)
  : res (bytes * Z * bytes) :=
  if remaining <=? 0 then Ok (buf, pos, xb) else
  match fuel with
  | O => Panic
  | S fuel =>
      let! xb :=
        (if zlen xb =? 0 then
           let! xb := reload img addr xsize pos in
           reject zlen xb =? 0 with ErrCorrupt ;; Ok xb
         else Ok xb) in
      let copySize := if remaining <? zlen xb then remaining else zlen xb in
      let! piece := slice_to xb copySize in
      let! rest := slice_from xb copySize in
      read_value fuel img addr xsize (remaining - copySize) (pos + copySize) rest (buf ++ piece)
  end.

(** One inline entry at [pos]: its name and value, and the cursor after it. *)
Definition inline_entry (img : image) (addr xsize pos : Z) (xb : bytes)
  : res (bytes * bytes * Z * bytes) :=
  let! xb := refill img addr xsize pos SizeXattrEntry xb in
  let! xe := XattrEntry_Unmarshal xb in
  let pos := pos + SizeXattrEntry in
  let! xb := slice_from xb SizeXattrEntry in
  let! prefix := entry_prefix img (xe_NameIndex xe) in
  let! xb := refill img addr xsize pos (xe_NameLen xe) xb in
  let! suffix := slice_to xb (xe_NameLen xe) in
  let name := prefix ++ suffix in
  let pos := pos + xe_NameLen xe in
  let! xb := slice_from xb (xe_NameLen xe) in
  let! (value, pos, xb) :=
    (if zlen xb <? xe_ValueLen xe
     then read_value (Z.to_nat (xe_ValueLen xe)) img addr xsize (xe_ValueLen xe) pos xb []
     else let! value := slice_to xb (xe_ValueLen xe) in
          let! xb := slice_from xb (xe_ValueLen xe) in
          Ok (value, pos + xe_ValueLen xe, xb)) in
  Ok (name, value, pos, xb).

(** Round the cursor up to the next 4-byte boundary. *)
Definition align_cursor (pos : Z) (xb : bytes) : res (Z * bytes) :=
  let rem := Z.rem pos 4 in
  if rem =? 0 then Ok (pos, xb) else
  let pad := 4 - rem in
  let! xb := (if zlen xb <? pad then Ok [] else slice_from xb pad) in
  Ok (pos + pad, xb).

Fixpoint inline_loop (fuel : nat) (img : image) (addr xsize pos : Z) (xb : bytes)
  (m : gmap bytes bytes) : res (gmap bytes bytes) :=
  if xsize <=? pos then Ok m else
  match fuel with
  | O => Panic
  | S fuel =>
      let! (name, value, pos, xb) := inline_entry img addr xsize pos xb in
      let! m := setXattr m name value in
      let! (pos, xb) := align_cursor pos xb in
      inline_loop fuel img addr xsize pos xb m
  end.

(** [loadXattrs] of a file whose inode is read. *)
Definition loadXattrs (img : image) (ino : inode) : res (gmap bytes bytes) :=
  let addr := i64 (i64 (metaStartPos img + i64 (u64 (ino_nid ino * SizeInodeCompact))) + ino_icsize ino) in
  let xsize := ino_xsize ino in
  let! xb := loadAt img addr xsize in
  reject zlen xb <? SizeXattrBodyHeader with ErrCorrupt ;;
  let! xh := XattrHeader_Unmarshal xb in
  let! xb := slice_from xb SizeXattrBodyHeader in
  reject xsize <? SizeXattrBodyHeader + xh_SharedCount xh * 4 with ErrCorrupt ;;
  let! (xb, m) := shared_loop img addr xsize (Z.to_nat (xh_SharedCount xh)) 0 xb ∅ in
  let pos := SizeXattrBodyHeader + xh_SharedCount xh * 4 in
  inline_loop (Z.to_nat xsize) img addr xsize pos xb m.

(** ** [Stat] *)

Record Stat := mkStat {
  st_Mode : Z; st_Size : Z; st_Ino : Z; st_Rdev : Z; st_UID : Z; st_GID : Z; st_Nlink : Z;
  st_Mtime : Z; st_MtimeNs : Z; st_Xattrs : option (gmap bytes bytes)
}.

Record fileInfo := mkFileInfo {
  fi_name : bytes; fi_size : Z; fi_mode : Z; fi_mtime : Z; fi_mtimeNs : Z;
  fi_stat : Stat; fi_layout : Z; fi_dataRanges : list DataRange
}.

(** [statInfo] of an inode that is read; a chunked file's ranges, which the
    code builds again on demand, are the ones it judged. *)
Definition statInfo_of (img : image) (ino : inode) : res fileInfo :=
  let! xattrs :=
    (if 0 <? ino_xsize ino
     then let! m := loadXattrs img ino in Ok (Some m) else Ok None) in
  let! ranges :=
    (if FileMode_IsRegular (ino_mode ino) && (0 <? ino_size ino) then
       if ino_inodeLayout ino =? LayoutChunkBased then buildChunkDataRanges img ino
       else buildDataRanges img ino []
     else Ok []) in
  Ok {| fi_name := ino_name ino; fi_size := ino_size ino; fi_mode := ino_mode ino;
        fi_mtime := ino_mtime ino; fi_mtimeNs := ino_mtimeNs ino;
        fi_stat := {| st_Mode := EroFSModeToGoFileMode (ino_rawMode ino); st_Size := ino_size ino;
                      st_Ino := ino_nid ino; st_Rdev := RdevFromMode (ino_rawMode ino) (ino_inodeData ino);
                      st_UID := ino_uid ino; st_GID := ino_gid ino; st_Nlink := u64 (ino_nlink ino);
                      st_Mtime := ino_mtime ino; st_MtimeNs := ino_mtimeNs ino; st_Xattrs := xattrs |};
        fi_layout := ino_inodeLayout ino; fi_dataRanges := ranges |}.

Definition statInfo (img : image) (f : file) : res fileInfo * file :=
  match readInfo img f with
  | (Ok ino, f) => (statInfo_of img ino, f)
  | (Err e, f) => (Err e, f)
  | (Panic, f) => (Panic, f)
  end.

(** ** The reference decoder *)

(** The inline entries of an area read whole, from [pos]. *)
Fixpoint ref_inline (fuel : nat) (img : image) (area : bytes) (pos : Z) (m : gmap bytes bytes)
  : res (gmap bytes bytes) :=
  if zlen area <=? pos then Ok m else
  match fuel with
  | O => Panic
  | S fuel =>
      reject zlen area <? pos + 4 with ErrCorrupt ;;
      let nameLen := get8 area (Z.to_nat pos) in
      let valueLen := get16 area (Z.to_nat pos + 2) in
      let! prefix := entry_prefix img (get8 area (Z.to_nat pos + 1)) in
      reject zlen area <? pos + 4 + nameLen + valueLen with ErrCorrupt ;;
      let name := prefix ++ sub area (Z.to_nat (pos + 4)) (Z.to_nat nameLen) in
      let value := sub area (Z.to_nat (pos + 4 + nameLen)) (Z.to_nat valueLen) in
      let! m := setXattr m name value in
      ref_inline fuel img area (round_up_pow2 (pos + 4 + nameLen + valueLen) 4) m
  end.

Fixpoint ref_shared (img : image) (area : bytes) (n : nat) (i : Z) (m : gmap bytes bytes)
  : res (gmap bytes bytes) :=
  match n with
  | O => Ok m
  | S n =>
      let! (name, value) := shared_entry img (get32 area (Z.to_nat (12 + i * 4))) in
      let! m := setXattr m name value in
      ref_shared img area n (i + 1) m
  end.

Definition ref_xattrs (img : image) (area : bytes) : res (gmap bytes bytes) :=
  let count := get8 area 4 in
  reject zlen area <? 12 + count * 4 with ErrCorrupt ;;
  let! m := ref_shared img area (Z.to_nat count) 0 ∅ in
  ref_inline (length area) img area (12 + count * 4) m.

(** ** The cursor reads the area *)

Section Cursor.
Context (img : image) (c : bytes) (addr xsize : Z).
Context (Hwf : image_wf img) (Hback : Backed (img_meta img) c).
Context (Haddr : 0 <= addr) (Hxs : 0 < xsize) (Hend : addr + xsize <= MaxInt64) (Hc : addr + xsize <= zlen c).
Context (Hsize : 0 < img_size img -> addr + xsize <= img_size img) (Halign : xsize mod 4 = 0).

(** The inode's xattr area. *)
Let area := sub c (Z.to_nat addr) (Z.to_nat xsize).

Lemma area_len : zlen area = xsize.
Proof. unfold area, zlen in *. rewrite length_sub; lia. Qed.

Lemma loadAt_inside a n :
  0 <= a -> 0 < n -> a + Z.min n (2 ^ img_bits img) <= zlen c -> (0 < img_size img -> a < img_size img) ->
  loadAt img a n = Ok (sub c (Z.to_nat a) (Z.to_nat (Z.min n (2 ^ img_bits img)))).
Proof.
  intros Ha Hn Hl Hs. unfold loadAt. pose proof (wf_bits img Hwf) as Hb. pose proof (pow2_bits _ Hb).
  rewrite shiftl1 by lia. set (bs := 2 ^ img_bits img) in *.
  replace (if bs <? n then bs else n) with (Z.min n bs) by (destruct (Z.ltb_spec bs n); lia).
  rewrite (proj2 (Z.leb_gt _ 0)) by lia.
  replace (_ || _) with false.
  2:{ symmetry. rewrite orb_false_iff, andb_false_iff, !Z.ltb_ge, Z.leb_gt.
      split; [done|]. destruct (Z.le_gt_cases (img_size img) 0); [by left|right; auto]. }
  pose proof (backed_bytes a (Z.min n bs) Ha ltac:(lia)) as B.
  pose proof (backed_err a (Z.min n bs) Ha ltac:(lia)) as Er.
  destruct (ReadAt (img_meta img) a (Z.min n bs)) as [b err]. cbn in B, Er. subst b.
  rewrite (proj2 (Z.leb_gt (zlen _) 0)) by (rewrite zlen_sub by lia; lia).
  destruct Er as [->| ->]; done.
Qed.

(** The window [xb] holds the area's bytes from [pos]. *)
Definition window (pos : Z) (xb : bytes) : Prop :=
  0 <= pos /\ pos + zlen xb <= xsize /\ xb = sub area (Z.to_nat pos) (Z.to_nat (zlen xb)).

Lemma window_sub pos n : 0 <= pos -> 0 <= n -> pos + n <= xsize ->
  window pos (sub area (Z.to_nat pos) (Z.to_nat n)) /\ zlen (sub area (Z.to_nat pos) (Z.to_nat n)) = n.
Proof.
  intros Hp Hn Hl. pose proof area_len as La.
  assert (E : zlen (sub area (Z.to_nat pos) (Z.to_nat n)) = n) by (rewrite zlen_sub by lia; lia).
  split; [|done]. split; [done|]. rewrite E. split; [lia|done].
Qed.

Lemma window_split pos xb n : window pos xb -> 0 <= n <= zlen xb ->
  slice_to xb n = Ok (sub area (Z.to_nat pos) (Z.to_nat n)) /\
  exists xb', slice_from xb n = Ok xb' /\ window (pos + n) xb' /\ zlen xb' = zlen xb - n.
Proof.
  intros (W1 & W2 & W3) Hn.
  destruct (sub_take_drop area (Z.to_nat pos) (Z.to_nat (zlen xb)) (Z.to_nat n) ltac:(lia)) as [T D].
  rewrite <- W3 in T, D.
  assert (Ez : zlen (drop (Z.to_nat n) xb) = zlen xb - n) by (unfold zlen in *; rewrite length_drop; lia).
  rewrite slice_to_ok, T by lia. split; [done|]. eexists. rewrite slice_from_ok by lia. split; [done|].
  split; [|done]. split; [lia|]. rewrite Ez. split; [lia|]. rewrite D. f_equal; lia.
Qed.

Lemma reload_inside pos : 0 <= pos < xsize ->
  exists xb, reload img addr xsize pos = Ok xb /\ window pos xb /\
             zlen xb = Z.min (xsize - pos) (2 ^ img_bits img).
Proof.
  intros Hp. pose proof (pow2_bits _ (wf_bits img Hwf)). unfold reload. rewrite i64_in_range by lia.
  rewrite loadAt_inside; [|lia|lia|lia|intros Hs; specialize (Hsize Hs); lia].
  set (n := Z.min (xsize - pos) (2 ^ img_bits img)).
  destruct (window_sub pos n ltac:(lia) ltac:(lia) ltac:(lia)) as [W L].
  assert (E : sub c (Z.to_nat (addr + pos)) (Z.to_nat n) = sub area (Z.to_nat pos) (Z.to_nat n)).
  { unfold area. rewrite sub_sub by lia. f_equal. lia. }
  rewrite E. eauto.
Qed.

Lemma reload_end : reload img addr xsize xsize = Err ErrCorrupt.
Proof.
  unfold reload, loadAt. rewrite Z.sub_diag. pose proof (Z.shiftl_nonneg 1 (img_bits img)) as Hs.
  destruct (Z.ltb_spec (Z.shiftl 1 (img_bits img)) 0); [lia|]. done.
Qed.

(** [n] more bytes: there, or the area is too short for them. *)
Lemma refill_spec pos n xb : window pos xb -> 0 <= n <= 512 ->
  (xsize < pos + n /\ refill img addr xsize pos n xb = Err ErrCorrupt) \/
  (pos + n <= xsize /\ exists xb', refill img addr xsize pos n xb = Ok xb' /\ window pos xb' /\ n <= zlen xb').
Proof.
  intros W Hn. pose proof (pow2_bits _ (wf_bits img Hwf)). unfold refill. pose proof W as (W1 & W2 & _).
  pose proof (zlen_nonneg xb).
  destruct (Z.ltb_spec (zlen xb) n).
  - destruct (Z.eq_dec pos xsize) as [->|]; [left; split; [lia|by rewrite reload_end]|].
    destruct (reload_inside pos ltac:(lia)) as (xb' & -> & W' & L).
    destruct (Z.ltb_spec (zlen xb') n); [left; split; [lia|done]|right]. split; [lia|]. eauto.
  - right. split; [lia|]. eauto.
Qed.

Lemma read_value_spec fuel : forall remaining pos xb buf,
  window pos xb -> 0 <= remaining <= Z.of_nat fuel ->
  (xsize < pos + remaining /\ read_value fuel img addr xsize remaining pos xb buf = Err ErrCorrupt) \/
  (pos + remaining <= xsize /\ exists xb',
     read_value fuel img addr xsize remaining pos xb buf =
       Ok (buf ++ sub area (Z.to_nat pos) (Z.to_nat remaining), pos + remaining, xb') /\
     window (pos + remaining) xb').
Proof.
  induction fuel as [|fuel IH]; intros remaining pos xb buf W Hr; cbn [read_value];
    pose proof W as (W1 & W2 & _); pose proof (zlen_nonneg xb);
    destruct (Z.leb_spec remaining 0); try lia.
  1, 2: assert (remaining = 0) as -> by lia; right; split; [lia|]; exists xb; rewrite Z.add_0_r;
    unfold sub; cbn; rewrite app_nil_r; done.
  assert (Hx : (xsize < pos + remaining /\ zlen xb = 0 /\ pos = xsize) \/
    exists xb', (if zlen xb =? 0 then
           let! xb := reload img addr xsize pos in
           if zlen xb =? 0 then Err ErrCorrupt else Ok xb
         else Ok xb) = Ok xb' /\ window pos xb' /\ 0 < zlen xb').
  { destruct (Z.eqb_spec (zlen xb) 0) as [E|E]; [|right; eexists; split; [done|]; split; [done|lia]].
    destruct (Z.eq_dec pos xsize); [left; lia|right].
    destruct (reload_inside pos ltac:(lia)) as (xb' & -> & W' & L).
    pose proof (pow2_bits _ (wf_bits img Hwf)). rewrite (proj2 (Z.eqb_neq _ _)) by lia.
    eexists; split; [done|]; split; [done|lia]. }
  destruct Hx as [(H1 & H2 & ->)|(xb' & -> & W' & L')].
  { left. split; [done|]. rewrite H2. cbn. by rewrite reload_end. }
  set (k := if remaining <? zlen xb' then remaining else zlen xb').
  assert (Hk : 0 < k <= zlen xb' /\ k <= remaining) by (unfold k; destruct (Z.ltb_spec remaining (zlen xb')); lia).
  destruct (window_split pos xb' k W' ltac:(lia)) as (-> & xb3 & -> & W2' & L2).
  destruct (IH (remaining - k) (pos + k) xb3 (buf ++ sub area (Z.to_nat pos) (Z.to_nat k)) W2' ltac:(lia))
    as [[H1 ->]|(H1 & xb2 & -> & W3)].
  - left. split; [lia|done].
  - right. split; [lia|]. exists xb2. replace (pos + k + (remaining - k)) with (pos + remaining) in * by lia.
    split; [|done]. do 3 f_equal. rewrite <- app_assoc. f_equal. unfold sub.
    replace (Z.to_nat (pos + k)) with (Z.to_nat pos + Z.to_nat k)%nat by lia.
    replace (Z.to_nat remaining) with (Z.to_nat k + Z.to_nat (remaining - k))%nat by lia.
    rewrite <- drop_drop. apply take_take_drop.
Qed.

Lemma XattrEntry_window pos xb :
  window pos xb -> 4 <= zlen xb ->
  XattrEntry_Unmarshal xb = Ok {| xe_NameLen := get8 area (Z.to_nat pos);
    xe_NameIndex := get8 area (Z.to_nat pos + 1); xe_ValueLen := get16 area (Z.to_nat pos + 2) |}.
Proof.
  intros (W1 & W2 & W3) Hl. unfold XattrEntry_Unmarshal, SizeXattrEntry.
  rewrite (proj2 (Z.ltb_ge _ _)) by lia. rewrite W3. unfold get8, get16.
  rewrite !sub_sub by lia. rewrite Nat.add_0_r. done.
Qed.

(** What the reference decoder reads of one entry. *)
Definition ref_entry (pos : Z) : res (bytes * bytes * Z) :=
  reject xsize <? pos + 4 with ErrCorrupt ;;
  let nameLen := get8 area (Z.to_nat pos) in
  let valueLen := get16 area (Z.to_nat pos + 2) in
  let! prefix := entry_prefix img (get8 area (Z.to_nat pos + 1)) in
  reject xsize <? pos + 4 + nameLen + valueLen with ErrCorrupt ;;
  Ok (prefix ++ sub area (Z.to_nat (pos + 4)) (Z.to_nat nameLen),
      sub area (Z.to_nat (pos + 4 + nameLen)) (Z.to_nat valueLen), pos + 4 + nameLen + valueLen).

Lemma inline_entry_spec pos xb :
  window pos xb ->
  match inline_entry img addr xsize pos xb with
  | Ok (name, value, pos', xb') => ref_entry pos = Ok (name, value, pos') /\ window pos' xb' /\ pos + 4 <= pos'
  | Err e => ref_entry pos = Err e
  | Panic => ref_entry pos = Panic
  end.
Proof.
  intros W. unfold inline_entry, ref_entry. change SizeXattrEntry with 4. pose proof W as (W0 & _).
  destruct (refill_spec pos 4 xb W ltac:(lia)) as [[H1 ->]|(H1 & xb1 & -> & W1 & L1)].
  { by rewrite (proj2 (Z.ltb_lt _ _)) by lia. }
  rewrite (proj2 (Z.ltb_ge xsize (pos + 4))) by lia.
  rewrite (XattrEntry_window pos xb1 W1 L1). cbn [xe_NameLen xe_NameIndex xe_ValueLen].
  pose proof (get8_range area (Z.to_nat pos)) as Hnl. pose proof (get16_range area (Z.to_nat pos + 2)) as Hvl.
  unfold is_u8, is_u16 in *. set (nl := get8 area (Z.to_nat pos)) in *.
  set (vl := get16 area (Z.to_nat pos + 2)) in *.
  destruct (window_split pos xb1 4 W1 ltac:(lia)) as (_ & xb0 & -> & W2 & _).
  destruct (entry_prefix img _) as [prefix|e|]; [|done..].
  destruct (refill_spec (pos + 4) nl _ W2 ltac:(lia)) as [[H2 ->]|(H2 & xb2 & -> & W3 & L3)].
  { by rewrite (proj2 (Z.ltb_lt _ _)) by lia. }
  destruct (window_split (pos + 4) xb2 nl W3 ltac:(lia)) as (-> & xb4 & -> & W4 & L4).
  destruct (Z.ltb_spec (zlen xb4) vl).
  - destruct (read_value_spec (Z.to_nat vl) vl (pos + 4 + nl) _ [] W4 ltac:(lia))
      as [[H3 ->]|(H3 & xb3 & -> & W5)].
    + by rewrite (proj2 (Z.ltb_lt _ _)) by lia.
    + rewrite (proj2 (Z.ltb_ge _ _)) by lia. cbn. split; [done|]. split; [done|lia].
  - destruct (window_split (pos + 4 + nl) _ vl W4 ltac:(lia)) as (-> & xb5 & -> & W5 & _).
    pose proof W5 as (_ & W6 & _).
    match type of W6 with _ + zlen ?x <= _ => pose proof (zlen_nonneg x) end.
    rewrite (proj2 (Z.ltb_ge _ _)) by lia. split; [done|]. split; [done|lia].
Qed.

Lemma align_cursor_spec pos xb :
  window pos xb ->
  exists xb', align_cursor pos xb = Ok (round_up_pow2 pos 4, xb') /\ window (round_up_pow2 pos 4) xb' /\
              pos <= round_up_pow2 pos 4.
Proof.
  intros W. pose proof W as (W1 & W2 & W3). unfold align_cursor. rewrite Z.rem_mod_nonneg by lia.
  destruct (round_up_pow2_spec pos 2 ltac:(lia)) as (R1 & R2). change (2 ^ 2) with 4 in *.
  pose proof (Z.mod_pos_bound pos 4 ltac:(lia)). pose proof (zlen_nonneg xb).
  destruct (Z.eqb_spec (pos mod 4) 0) as [E|E].
  - pose proof (round_up_pow2_id pos 2 ltac:(lia) E) as Ei. change (2 ^ 2) with 4 in Ei. rewrite Ei. exists xb. split; [done|]. split; [done|lia].
  - assert (Er : round_up_pow2 pos 4 = pos + (4 - pos mod 4)).
    { pose proof (Z.div_mod pos 4 ltac:(lia)). pose proof (Z.div_mod (round_up_pow2 pos 4) 4 ltac:(lia)). lia. }
    assert (Hle : round_up_pow2 pos 4 <= xsize).
    { pose proof (Z.div_mod xsize 4 ltac:(lia)). pose proof (Z.div_mod pos 4 ltac:(lia)).
      pose proof (Z.div_mod (round_up_pow2 pos 4) 4 ltac:(lia)). lia. }
    destruct (Z.ltb_spec (zlen xb) (4 - pos mod 4)).
    + exists []. rewrite <- Er. split; [done|]. split; [|lia]. split; [lia|].
      change (zlen (@nil Byte.byte)) with 0. split; [lia|done].
    + destruct (window_split pos xb (4 - pos mod 4) W ltac:(lia)) as (_ & xb' & -> & W' & _).
      rewrite <- Er in W' |- *. exists xb'. split; [done|]. split; [done|lia].
Qed.

Lemma inline_loop_ref fuel : forall pos xb m,
  window pos xb -> inline_loop fuel img addr xsize pos xb m = ref_inline fuel img area pos m.
Proof.
  induction fuel as [|fuel IH]; intros pos xb m W; cbn [inline_loop ref_inline]; rewrite area_len;
    destruct (Z.leb_spec xsize pos); try done.
  pose proof (inline_entry_spec pos xb W) as E. unfold ref_entry in E.
  destruct (inline_entry img addr xsize pos xb) as [[[[name value] pos'] xb']|e|].
  - destruct E as (E & W' & _). destruct (_ <? _); [done|]. destruct (entry_prefix img _); [|done..].
    destruct (_ <? _); [done|]. apply Ok_inj in E. injection E as <- <- Ep.
    destruct (setXattr _ _ _) as [m'| |]; [|done..].
    destruct (align_cursor_spec pos' xb' W') as (xb2 & -> & W2 & _). rewrite Ep. by apply IH.
  - destruct (_ <? _); [congruence|]. destruct (entry_prefix img _); [|congruence..].
    destruct (_ <? _); congruence.
  - destruct (_ <? _); [congruence|]. destruct (entry_prefix img _); [|congruence..].
    destruct (_ <? _); congruence.
Qed.

Lemma shared_loop_ref n : forall i xb m,
  0 <= i -> window (12 + i * 4) xb -> 12 + (i + Z.of_nat n) * 4 <= xsize ->
  match shared_loop img addr xsize n i xb m with
  | Ok (xb', m') => ref_shared img area n i m = Ok m' /\ window (12 + (i + Z.of_nat n) * 4) xb'
  | Err e => ref_shared img area n i m = Err e
  | Panic => ref_shared img area n i m = Panic
  end.
Proof.
  induction n as [|n IH]; intros i xb m Hi W Hn; cbn [shared_loop ref_shared].
  - rewrite Z.add_0_r. done.
  - change SizeXattrBodyHeader with 12.
    destruct (refill_spec (12 + i * 4) 4 xb W ltac:(lia)) as [[H1 ->]|(H1 & xb1 & -> & W1 & L1)]; [lia|].
    destruct (window_split (12 + i * 4) xb1 4 W1 ltac:(lia)) as (-> & xb2 & Es & W2 & _).
    assert (E : get32 (sub area (Z.to_nat (12 + i * 4)) (Z.to_nat 4)) 0 = get32 area (Z.to_nat (12 + i * 4))).
    { unfold get32. rewrite sub_sub by lia. by rewrite Nat.add_0_r. }
    rewrite E, Es. destruct (shared_entry _ _) as [[name value]|e|]; [|done..].
    destruct (setXattr _ _ _) as [m'| |]; [|done..].
    replace (12 + i * 4 + 4) with (12 + (i + 1) * 4) in W2 by lia.
    specialize (IH (i + 1) xb2 m' ltac:(lia) W2 ltac:(lia)).
    replace (i + 1 + Z.of_nat n) with (i + Z.of_nat (S n)) in IH by lia. exact IH.
Qed.

Lemma load_area_ref :
  12 <= xsize ->
  (let! xb := loadAt img addr xsize in
   reject zlen xb <? SizeXattrBodyHeader with ErrCorrupt ;;
   let! xh := XattrHeader_Unmarshal xb in
   let! xb := slice_from xb SizeXattrBodyHeader in
   reject xsize <? SizeXattrBodyHeader + xh_SharedCount xh * 4 with ErrCorrupt ;;
   let! (xb, m) := shared_loop img addr xsize (Z.to_nat (xh_SharedCount xh)) 0 xb ∅ in
   let pos := SizeXattrBodyHeader + xh_SharedCount xh * 4 in
   inline_loop (Z.to_nat xsize) img addr xsize pos xb m) = ref_xattrs img area.
Proof.
  intros H12. pose proof (pow2_bits _ (wf_bits img Hwf)).
  destruct (reload_inside 0 ltac:(lia)) as (xb & Hr & W & L). unfold reload in Hr.
  rewrite Z.add_0_r, Z.sub_0_r in Hr. unfold MaxInt64 in Hend. rewrite i64_id in Hr by lia. rewrite Hr.
  change SizeXattrBodyHeader with 12. rewrite (proj2 (Z.ltb_ge _ _)) by lia.
  unfold XattrHeader_Unmarshal. rewrite (proj2 (Z.ltb_ge _ _)) by (unfold SizeXattrBodyHeader; lia).
  cbn [xh_SharedCount].
  assert (Ec : get8 xb 4 = get8 area 4).
  { pose proof W as (_ & _ & W3). rewrite W3. unfold get8. rewrite sub_sub by lia. done. }
  destruct (window_split 0 xb 12 W ltac:(lia)) as (_ & xb2 & -> & W2 & _).
  rewrite Ec. unfold ref_xattrs. rewrite area_len.
  pose proof (get8_range area 4) as Hc8. unfold is_u8 in Hc8. set (cnt := get8 area 4) in *.
  destruct (Z.ltb_spec xsize (12 + cnt * 4)); [done|].
  pose proof (shared_loop_ref (Z.to_nat cnt) 0 xb2 ∅ ltac:(lia) W2 ltac:(lia)) as S.
  destruct (shared_loop _ _ _ _ _ _ _) as [[xb' m]|e|].
  - destruct S as [-> W3]. rewrite Z2Nat.id, Z.add_0_l in W3 by lia.
    rewrite (inline_loop_ref _ _ _ _ W3). f_equal. pose proof area_len as La. unfold zlen in La. lia.
  - by rewrite S.
  - by rewrite S.
Qed.
End Cursor.

(** ** No panic on any bytes *)

Lemma loadAt_no_panic img a n : no_panic (loadAt img a n).
Proof. unfold no_panic, loadAt. repeat case_match; congruence. Qed.

Lemma XattrEntry_ok b : 4 <= zlen b -> exists xe, XattrEntry_Unmarshal b = Ok xe /\
  0 <= xe_NameLen xe /\ 0 <= xe_ValueLen xe.
Proof.
  intros. unfold XattrEntry_Unmarshal, SizeXattrEntry. rewrite (proj2 (Z.ltb_ge _ _)) by lia.
  eexists. split; [done|]. cbn. pose proof (get8_range b 0). pose proof (get16_range b 2).
  unfold is_u8, is_u16 in *. lia.
Qed.

Lemma entry_prefix_no_panic img idx : 0 <= idx -> no_panic (entry_prefix img idx).
Proof.
  intros Hi. unfold no_panic, entry_prefix, getLongPrefix, xattrIndex_prefix. destruct (negb _).
  - destruct (Z.leb_spec (zlen (img_longPrefixes img)) (Z.land idx XattrLongPrefixMask)) as [|H]; [congruence|].
    assert (0 <= Z.land idx XattrLongPrefixMask) by (apply Z.land_nonneg; by left).
    destruct (lookup_lt_is_Some_2 (img_longPrefixes img) (Z.to_nat (Z.land idx XattrLongPrefixMask))) as [p ->];
      [unfold zlen in *; lia|congruence].
  - repeat case_match; congruence.
Qed.

Lemma setXattr_no_panic m name value : no_panic (setXattr m name value).
Proof. unfold no_panic, setXattr. case_match; congruence. Qed.

(** Case analysis on a call that does not panic. *)
Ltac answer H := let E := fresh "E" in
  match type of H with no_panic ?r => destruct r eqn:E; [|congruence|by destruct (H eq_refl)] end.

Lemma xe_index_nonneg b xe : XattrEntry_Unmarshal b = Ok xe -> 0 <= xe_NameIndex xe.
Proof.
  unfold XattrEntry_Unmarshal. intros H. step_in H. apply Ok_inj in H. subst xe. cbn.
  pose proof (get8_range b 1). unfold is_u8 in *. lia.
Qed.

Lemma shared_entry_no_panic img a : no_panic (shared_entry img a).
Proof.
  unfold no_panic, shared_entry.
  match goal with |- context [loadAt img ?x ?y] => pose proof (loadAt_no_panic img x y) as Hl; answer Hl end.
  destruct (Z.ltb_spec (zlen a0) SizeXattrEntry) as [|Hs]; [congruence|].
  destruct (XattrEntry_ok a0 Hs) as (xe & Hxe & Hn & Hv). rewrite Hxe. apply xe_index_nonneg in Hxe.
  rewrite slice_from_ok by (unfold SizeXattrEntry in *; lia).
  pose proof (entry_prefix_no_panic img _ Hxe) as Hp. answer Hp.
  destruct (Z.ltb_spec (zlen (drop (Z.to_nat SizeXattrEntry) a0)) (xe_NameLen xe + xe_ValueLen xe)); [congruence|].
  rewrite slice_to_ok, slice_from_ok by lia. rewrite slice_to_ok; [congruence|].
  rewrite zlen_drop by lia. lia.
Qed.

Lemma refill_cases img addr xsize pos n xb :
  (exists e, refill img addr xsize pos n xb = Err e) \/
  (exists xb', refill img addr xsize pos n xb = Ok xb' /\ n <= zlen xb').
Proof.
  unfold refill. destruct (Z.ltb_spec (zlen xb) n); [|eauto].
  unfold reload. pose proof (loadAt_no_panic img (i64 (addr + pos)) (xsize - pos)) as Hl.
  destruct (loadAt _ _ _) as [b|e|]; [|eauto|by destruct (Hl eq_refl)].
  destruct (Z.ltb_spec (zlen b) n); eauto.
Qed.

Lemma shared_loop_no_panic img addr xsize n : forall i xb m, no_panic (shared_loop img addr xsize n i xb m).
Proof.
  unfold no_panic. induction n as [|n IH]; intros i xb m; cbn [shared_loop]; [congruence|].
  destruct (refill_cases img addr xsize (SizeXattrBodyHeader + i * 4) 4 xb) as [[e ->]|(xb' & -> & L)];
    [congruence|]. rewrite slice_to_ok, slice_from_ok by lia.
  pose proof (shared_entry_no_panic img (get32 (take (Z.to_nat 4) xb') 0)) as Hs. answer Hs. destruct a as [name value].
  pose proof (setXattr_no_panic m name value) as Hm. answer Hm. apply IH.
Qed.

Lemma read_value_cases img addr xsize fuel : forall remaining pos xb buf,
  0 <= remaining <= Z.of_nat fuel ->
  (exists e, read_value fuel img addr xsize remaining pos xb buf = Err e) \/
  (exists v xb', read_value fuel img addr xsize remaining pos xb buf = Ok (v, pos + remaining, xb')).
Proof.
  induction fuel as [|fuel IH]; intros remaining pos xb buf Hr; cbn [read_value];
    destruct (Z.leb_spec remaining 0); try lia.
  1, 2: right; eexists _, _; do 3 f_equal; lia.
  set (r := if zlen xb =? 0 then _ else _).
  assert (Hx : (exists e, r = Err e) \/ exists xb', r = Ok xb' /\ 0 < zlen xb').
  { unfold r. pose proof (zlen_nonneg xb). destruct (Z.eqb_spec (zlen xb) 0).
    - unfold reload. pose proof (loadAt_no_panic img (i64 (addr + pos)) (xsize - pos)) as Hl.
      destruct (loadAt _ _ _) as [b|er|]; [|eauto|by destruct (Hl eq_refl)].
      pose proof (zlen_nonneg b). destruct (Z.eqb_spec (zlen b) 0); [eauto|right]. exists b. split; [done|lia].
    - right. exists xb. split; [done|lia]. }
  clearbody r. destruct Hx as [[e ->]|(xb' & -> & Hp)]; [eauto|].
  set (k := if remaining <? zlen xb' then remaining else zlen xb').
  assert (Hk : 0 < k <= remaining /\ k <= zlen xb') by (unfold k; destruct (Z.ltb_spec remaining (zlen xb')); lia).
  rewrite slice_to_ok, slice_from_ok by lia.
  destruct (IH (remaining - k) (pos + k) (drop (Z.to_nat k) xb') (buf ++ take (Z.to_nat k) xb') ltac:(lia))
    as [[e ->]|(v & xb2 & ->)]; [eauto|right]. eexists _, _. do 3 f_equal. lia.
Qed.

Lemma inline_entry_cases img addr xsize pos xb :
  (exists e, inline_entry img addr xsize pos xb = Err e) \/
  (exists name value pos' xb', inline_entry img addr xsize pos xb = Ok (name, value, pos', xb') /\ pos + 4 <= pos').
Proof.
  unfold inline_entry. change SizeXattrEntry with 4.
  destruct (refill_cases img addr xsize pos 4 xb) as [[e ->]|(xb1 & -> & L1)]; [eauto|].
  destruct (XattrEntry_ok xb1 L1) as (xe & Hxe & Hn & Hv). rewrite Hxe. apply xe_index_nonneg in Hxe.
  rewrite slice_from_ok by lia.
  pose proof (entry_prefix_no_panic img _ Hxe) as Hp.
  destruct (entry_prefix _ _) as [pre|e|]; [|eauto|by destruct (Hp eq_refl)].
  match goal with |- context [refill img addr xsize ?p ?n ?b] =>
    destruct (refill_cases img addr xsize p n b) as [[e2 ->]|(xb2 & -> & L2)] end; [eauto|].
  rewrite slice_to_ok, slice_from_ok by lia.
  destruct (Z.ltb_spec (zlen (drop (Z.to_nat (xe_NameLen xe)) xb2)) (xe_ValueLen xe)).
  - match goal with |- context [read_value ?f img addr xsize ?r ?p ?x ?b] =>
      destruct (read_value_cases img addr xsize f r p x b ltac:(lia)) as [[e3 ->]|(v & xb3 & ->)] end; [eauto|].
    right. eexists _, _, _, _. split; [done|]. lia.
  - rewrite slice_to_ok, slice_from_ok by lia. right. eexists _, _, _, _. split; [done|]. lia.
Qed.

Lemma inline_loop_no_panic img addr xsize fuel : forall pos xb m,
  0 <= pos -> xsize - pos <= Z.of_nat fuel -> no_panic (inline_loop fuel img addr xsize pos xb m).
Proof.
  unfold no_panic. induction fuel as [|fuel IH]; intros pos xb m H0 Hf; cbn [inline_loop];
    destruct (Z.leb_spec xsize pos); try congruence; try lia.
  destruct (inline_entry_cases img addr xsize pos xb) as [[e ->]|(name & value & pos' & xb' & -> & Hp)];
    [congruence|].
  pose proof (setXattr_no_panic m name value) as Hm. answer Hm.
  unfold align_cursor. pose proof (Z.rem_bound_pos pos' 4 ltac:(lia) ltac:(lia)).
  destruct (_ =? 0); [apply IH; lia|].
  destruct (Z.ltb_spec (zlen xb') (4 - Z.rem pos' 4)); [|rewrite slice_from_ok by lia]; apply IH; lia.
Qed.

Lemma loadXattrs_no_panic img ino : 0 < ino_xsize ino -> no_panic (loadXattrs img ino).
Proof.
  intros Hx. unfold no_panic, loadXattrs.
  match goal with |- context [loadAt img ?x ?y] => pose proof (loadAt_no_panic img x y) as Hl; answer Hl end.
  destruct (Z.ltb_spec (zlen a) SizeXattrBodyHeader); [congruence|].
  unfold XattrHeader_Unmarshal. rewrite (proj2 (Z.ltb_ge _ _)) by lia. cbn [xh_SharedCount].
  rewrite slice_from_ok by (unfold SizeXattrBodyHeader in *; lia).
  pose proof (get8_range a 4) as Hr. unfold is_u8 in Hr.
  destruct (_ <? _); [congruence|].
  match goal with |- context [shared_loop img ?ad ?xs ?n ?i ?x ?m] =>
    pose proof (shared_loop_no_panic img ad xs n i x m) as Hs; answer Hs end.
  destruct a0 as [xb m]. apply inline_loop_no_panic; unfold SizeXattrBodyHeader; lia.
Qed.

Lemma loadXattrs_ref img ino c :
  image_wf img -> inode_wf img ino -> is_u64 (ino_nid ino) -> Backed (img_meta img) c ->
  let addr := metaStartPos img + ino_nid ino * 32 + ino_icsize ino in
  0 < ino_xsize ino -> addr + ino_xsize ino <= Z.min (zlen c) MaxInt64 ->
  (0 < img_size img -> addr + ino_xsize ino <= img_size img) ->
  loadXattrs img ino = ref_xattrs img (sub c (Z.to_nat addr) (Z.to_nat (ino_xsize ino))).
Proof.
  intros Hwf Hino Hnid Hback addr Hx Hc Hs.
  unfold loadXattrs. rewrite (inode_addr_eq img ino Hwf Hino Hnid).
  destruct (checkNid_offset img Hwf (ino_nid ino) Hnid (wf_nid _ _ Hino)) as [-> Hr].
  assert (Hic : 0 <= ino_icsize ino <= 64) by (destruct (wf_icsize _ _ Hino); lia).
  rewrite i64_id by (unfold MaxInt64 in *; lia). fold addr.
  destruct (wf_xsize _ _ Hino) as [?|[Hxr Hxm]]; [lia|].
  apply (load_area_ref img c addr (ino_xsize ino)); auto; lia.
Qed.

(** C25: [loadXattrs], which reads the xattr area through a cursor over one
    block at a time (names and values may straddle any of the windows),
    decodes exactly what the reference decoder reads off the whole area: the
    same attributes, or the same error.  It never panics. *)
Theorem loadXattrs_reads_area img ino c :
  image_wf img -> inode_wf img ino -> is_u64 (ino_nid ino) -> Backed (img_meta img) c ->
  let addr := metaStartPos img + ino_nid ino * 32 + ino_icsize ino in
  0 < ino_xsize ino -> addr + ino_xsize ino <= Z.min (zlen c) MaxInt64 ->
  (0 < img_size img -> addr + ino_xsize ino <= img_size img) ->
  loadXattrs img ino = ref_xattrs img (sub c (Z.to_nat addr) (Z.to_nat (ino_xsize ino))) /\
  no_panic (loadXattrs img ino).
Proof.
  intros Hwf Hino Hnid Hback addr Hx Hc Hs. split; [by apply loadXattrs_ref|by apply loadXattrs_no_panic].
Qed.

(** An inode with an xattr area of 28 bytes after its compact core: a header
    without shared references, "user.a" with the value "v1" and
    "trusted.bb" with an empty one. *)
Definition example_xattr_area : bytes :=
  zeros 12 ++ le_encode 1 1 ++ le_encode 1 1 ++ le_encode 2 2 ++ bs "a" ++ bs "v1" ++ [x00] ++
  le_encode 1 2 ++ le_encode 1 4 ++ le_encode 2 0 ++ bs "bb" ++ zeros 2.

Definition example_xattr_content : bytes :=
  zeros (Z.to_nat 4128) ++ example_xattr_area ++ zeros (Z.to_nat (16384 - 4128 - zlen example_xattr_area)).

Definition example_xattr_img : image :=
  {| img_sb := example_sb; img_size := 16384; img_meta := bytes_reader example_xattr_content;
     img_devices := []; img_deviceIDMask := 0; img_longPrefixes := [] |}.

Definition example_xattr_ino : inode := set_xsize 28 example_ino.

Lemma example_xattr_img_wf : image_wf example_xattr_img.
Proof. constructor; cbn; try done. Qed.

Lemma loadXattrs_reads_area_witness :
  loadXattrs example_xattr_img example_xattr_ino = ref_xattrs example_xattr_img example_xattr_area /\
  res_map (fun m => (m !! bs "user.a", m !! bs "trusted.bb", m !! bs "bb"))
    (ref_xattrs example_xattr_img example_xattr_area) = Ok (Some (bs "v1"), Some [], None).
Proof.
  assert (Hw : inode_wf example_xattr_img example_xattr_ino).
  { constructor; cbn; auto; try done; try (by split); by (right; split; [lia|reflexivity]). }
  pose proof (loadXattrs_reads_area example_xattr_img example_xattr_ino example_xattr_content
    example_xattr_img_wf Hw ltac:(by split) (bytes_reader_backed _)
    ltac:(by vm_compute) ltac:(by vm_compute) ltac:(by vm_compute)) as [H _].
  assert (E : sub example_xattr_content
    (Z.to_nat (metaStartPos example_xattr_img + ino_nid example_xattr_ino * 32 + ino_icsize example_xattr_ino))
    (Z.to_nat (ino_xsize example_xattr_ino)) = example_xattr_area) by (vm_compute; reflexivity).
  rewrite E in H. split; [exact H|vm_compute; reflexivity].
Defined.

(** What [statInfo] reports of an inode beside its attributes and ranges. *)
Definition reports (ino : inode) (fi : fileInfo) : Prop :=
  fi_size fi = ino_size ino /\ fi_mode fi = ino_mode ino /\ st_Mode (fi_stat fi) = fi_mode fi /\
  st_UID (fi_stat fi) = ino_uid ino /\ st_GID (fi_stat fi) = ino_gid ino.

Lemma stat_xattrs img ino r :
  r = (if 0 <? ino_xsize ino then let! m := loadXattrs img ino in Ok (Some m) else Ok None) ->
  no_panic r /\ forall x, r = Ok x ->
    match x with Some m => 0 < ino_xsize ino /\ loadXattrs img ino = Ok m | None => ino_xsize ino <= 0 end.
Proof.
  intros ->. destruct (Z.ltb_spec 0 (ino_xsize ino)).
  - pose proof (loadXattrs_no_panic img ino ltac:(lia)) as Hp.
    destruct (loadXattrs img ino) as [m| |]; [|done|by destruct (Hp eq_refl)]. split; [done|]. by intros x [= <-].
  - split; [done|]. by intros x [= <-].
Qed.

Lemma stat_ranges img ino r :
  image_wf img -> inode_wf img ino ->
  r = (if FileMode_IsRegular (ino_mode ino) && (0 <? ino_size ino) then
         if ino_inodeLayout ino =? LayoutChunkBased then buildChunkDataRanges img ino else buildDataRanges img ino []
       else Ok []) ->
  no_panic r /\ forall l, r = Ok l ->
    if FileMode_IsRegular (ino_mode ino) then total_size l = ino_size ino /\ Forall (range_ok img) l else l = [].
Proof.
  intros Hwf Hino ->. pose proof (wf_isize _ _ Hino).
  destruct (FileMode_IsRegular _); [|split; [done|by intros l [= <-]]].
  destruct (Z.ltb_spec 0 (ino_size ino)).
  2:{ split; [done|]. intros l [= <-]. split; [cbn; lia|constructor]. }
  assert (E : (if ino_inodeLayout ino =? LayoutChunkBased then buildChunkDataRanges img ino else buildDataRanges img ino []) =
              buildDataRanges img ino []).
  { destruct (Z.eqb_spec (ino_inodeLayout ino) LayoutChunkBased) as [El|]; [|done]. unfold buildDataRanges. by rewrite El. }
  cbn [andb]. rewrite E. split; [by apply buildDataRanges_no_panic|].
  intros l El. by destruct (buildDataRanges_facts img ino l Hwf Hino ltac:(lia) El) as (? & ? & _).
Qed.

(** C38: [Stat] is safe on any image: whatever the inode, its xattr area and
    its chunk index hold, no slice of them is taken out of range and [statInfo]
    answers or reports an error.  When it answers, the size, the mode and the
    ids are the inode's, the attributes are the map [loadXattrs] decodes (none
    exactly when the inode has no area), and the data ranges of a regular file
    are of its size, each a hole or within its device. *)
Theorem statInfo_safe img f :
  image_wf img -> file_wf img f ->
  answered (statInfo img f).1 /\
  forall fi f', statInfo img f = (Ok fi, f') ->
    exists ino, f_info f' = Some ino /\ inode_wf img ino /\ reports ino fi /\
      match st_Xattrs (fi_stat fi) with
      | Some m => 0 < ino_xsize ino /\ loadXattrs img ino = Ok m
      | None => ino_xsize ino <= 0
      end /\
      if FileMode_IsRegular (ino_mode ino)
      then total_size (fi_dataRanges fi) = ino_size ino /\ Forall (range_ok img) (fi_dataRanges fi)
      else fi_dataRanges fi = [].
Proof.
  intros Hwf Hf. unfold statInfo.
  destruct (readInfo_cases img f Hf) as [(e & ? & -> & _)|(ino & -> & Hino & _)]; [split; [by eapply answered_err|done]|].
  cbn [fst]. unfold statInfo_of.
  destruct (stat_xattrs img ino _ eq_refl) as [X1 X2].
  destruct (if 0 <? ino_xsize ino then _ else _) as [x|e|]; [|split; [by eapply answered_err|done]|by destruct (X1 eq_refl)].
  destruct (stat_ranges img ino _ Hwf Hino eq_refl) as [R1 R2].
  destruct (if _ && _ then _ else _) as [l|e|]; [|split; [by eapply answered_err|done]|by destruct (R1 eq_refl)].
  split; [by eapply answered_ok|]. intros fi f' [= <- <-]. exists ino. split; [done|]. split; [done|].
  split; [|split; [by apply X2|by apply R2]]. unfold reports. cbn. by rewrite (wf_mode _ _ Hino).
Qed.

(** [example_xattr_img] with the inode the area belongs to. *)
Definition example_stat_img : image :=
  {| img_sb := example_sb; img_size := 16384;
     img_meta := bytes_reader (put32 (Z.to_nat 4112) 1 (put32 (Z.to_nat 4104) 100 (put16 (Z.to_nat 4100) 0x81A4
                   (put16 (Z.to_nat 4098) 5 example_xattr_content))));
     img_devices := []; img_deviceIDMask := 0; img_longPrefixes := [] |}.

Lemma example_stat_img_wf : image_wf example_stat_img.
Proof. unfold example_stat_img. generalize (bytes_reader (put32 (Z.to_nat 4112) 1 (put32 (Z.to_nat 4104) 100 (put16 (Z.to_nat 4100) 0x81A4
  (put16 (Z.to_nat 4098) 5 example_xattr_content))))). intros r. constructor; cbn; try done. Qed.

Lemma statInfo_safe_witness :
  exists fi, (statInfo example_stat_img (new_file (bs "f") 0 0)).1 = Ok fi /\ fi_size fi = 100 /\
    total_size (fi_dataRanges fi) = 100 /\ exists m, st_Xattrs (fi_stat fi) = Some m /\ m !! bs "user.a" = Some (bs "v1").
Proof.
  destruct (statInfo_safe example_stat_img (new_file (bs "f") 0 0) example_stat_img_wf (new_file_wf _ _ _ _)) as [_ H].
  destruct (statInfo example_stat_img (new_file (bs "f") 0 0)) as [[fi| |] f'] eqn:E; try (exfalso; vm_compute in E; discriminate E).
  destruct (H fi f' eq_refl) as (ino & Hi & _ & (Hz & Hm & _) & _ & Hr).
  assert (X : res_map (fun fi => (fi_size fi, FileMode_IsRegular (fi_mode fi), (st_Xattrs (fi_stat fi)) ≫= (fun m => m !! bs "user.a")))
    (statInfo example_stat_img (new_file (bs "f") 0 0)).1 = Ok (100, true, Some (bs "v1"))) by (vm_compute; reflexivity).
  rewrite E in X. cbn [fst res_map] in X. injection X as X1 X2 X3. exists fi. split; [reflexivity|]. split; [exact X1|].
  rewrite Hm in X2. rewrite X2 in Hr. destruct Hr as [Hr _]. rewrite <- Hz, X1 in Hr. split; [exact Hr|].
  destruct (st_Xattrs (fi_stat fi)) as [m|]; [|discriminate X3]. exists m. split; [reflexivity|exact X3].
Defined.
