(* ===== verification/Stat.v ===== *)
(** * Stat by name

    [image.Stat] and [image.Lstat], the [Stat] and [Close] of an open file, and
    what a [fileInfo] answers ([erofs.go]). *)

From S2P Require Import Prelude Machine Disk Format Image Inode Data Reading Dir Path Xattr.

Definition image_Stat (img : image) (name : bytes) : res fileInfo :=
  let! (nid, ftype, basename) := resolve img name true in
  (statInfo img (new_file basename nid ftype)).1.

Definition image_Lstat (img : image) (name : bytes) : res fileInfo :=
  let! (nid, ftype, basename) := resolve img name false in
  (statInfo img (new_file basename nid ftype)).1.

Definition file_Stat (img : image) (f : file) : res fileInfo * file := statInfo img f.

Definition file_Close (f : file) : res unit := Ok tt.

(** The seconds and nanoseconds of [ModTime]: [i_mtime] read as signed. *)
Definition ModTime (fi : fileInfo) : Z * Z := (i64 (fi_mtime fi), fi_mtimeNs fi).

Definition DataRange_of (fi : fileInfo) : list DataRange := fi_dataRanges fi.

Definition GetAllXattr (fi : fileInfo) : option (gmap bytes bytes) := st_Xattrs (fi_stat fi).

(** A nil map has no keys. *)
Definition GetXattr (fi : fileInfo) (name : bytes) : option bytes := default ∅ (st_Xattrs (fi_stat fi)) !! name.

(** [Stat] and [Lstat] differ only by the symlink they end on. *)
Lemma Lstat_Stat img name nid ft base : resolve img name false = Ok (nid, ft, base) -> resolve img name true = Ok (nid, ft, base) ->
  image_Lstat img name = image_Stat img name.
Proof. intros E1 E2. unfold image_Lstat, image_Stat. by rewrite E1, E2. Qed.

(** What [statInfo] says of an inode, with its xattrs and ranges. *)
Definition info_of (ino : inode) (xattrs : option (gmap bytes bytes)) (ranges : list DataRange) : fileInfo :=
  {| fi_name := ino_name ino; fi_size := ino_size ino; fi_mode := ino_mode ino; fi_mtime := ino_mtime ino; fi_mtimeNs := ino_mtimeNs ino;
     fi_stat := {| st_Mode := EroFSModeToGoFileMode (ino_rawMode ino); st_Size := ino_size ino; st_Ino := ino_nid ino;
                   st_Rdev := RdevFromMode (ino_rawMode ino) (ino_inodeData ino); st_UID := ino_uid ino; st_GID := ino_gid ino;
                   st_Nlink := u64 (ino_nlink ino); st_Mtime := ino_mtime ino; st_MtimeNs := ino_mtimeNs ino; st_Xattrs := xattrs |};
     fi_layout := ino_inodeLayout ino; fi_dataRanges := ranges |}.

Lemma statInfo_fresh img name nid ft ino xattrs ranges :
  readInfo_fresh img name nid ft = Ok ino ->
  (if 0 <? ino_xsize ino then let! m := loadXattrs img ino in Ok (Some m) else Ok None) = Ok xattrs ->
  (if FileMode_IsRegular (ino_mode ino) && (0 <? ino_size ino) then
     if ino_inodeLayout ino =? LayoutChunkBased then buildChunkDataRanges img ino else buildDataRanges img ino [] else Ok []) = Ok ranges ->
  (statInfo img (new_file name nid ft)).1 = Ok (info_of ino xattrs ranges).
Proof.
  intros Hi Hx Hr. unfold statInfo. rewrite (readInfo_of_fresh img (new_file name nid ft) _ eq_refl Hi). cbn [fst]. unfold statInfo_of.
  rewrite Hx, Hr. done.
Qed.
