(* ===== verification/Open.v ===== *)
(** * Opening an image: the superblock, the device table, the prefixes ([erofs.go])

    [Open] judges the superblock check by check and establishes [image_wf],
    the invariant every theorem about reading starts from. *)

From S2P Require Import Prelude Machine Disk Format Image Inode Data Reading.

(** ** The superblock checksum *)

Definition checksumEnd : Z := 8.
Definition superblockChecksumSeed : Z := 0x5045B54A.

Definition checksumSpan (blkSizeBits : Z) : Z :=
  let length := Z.shiftl 1 blkSizeBits in
  let length := if SuperBlockOffset <? length then length - SuperBlockOffset else length in
  length - checksumEnd.

(** [crc32.MakeTable(crc32.Castagnoli)]: the entry of a byte. *)
Definition castagnoli : Z := 0x82f63b78.

Fixpoint crc_bits (n : nat) (crc : Z) : Z :=
  match n with
  | O => crc
  | S n => crc_bits n (if Z.land crc 1 =? 1 then Z.lxor (Z.shiftr crc 1) castagnoli else Z.shiftr crc 1)
  end.

Definition crc_table (b : Z) : Z := crc_bits 8 b.

(** The loop of [crc32.Update], without its inversions. *)
Fixpoint crc_update (crc : Z) (p : bytes) : Z :=
  match p with
  | [] => crc
  | v :: p => crc_update (Z.lxor (crc_table (Z.lxor (Z.land crc 255) (Z_of_byte v))) (Z.shiftr crc 8)) p
  end.

(** [^v] on a [uint32]. *)
Definition not32 (v : Z) : Z := Z.lxor v (2 ^ 32 - 1).

(** [crc32.Update], which inverts before and after. *)
Definition crc32_Update (crc : Z) (p : bytes) : Z := not32 (crc_update (not32 crc) p).

Definition superblockChecksum (span : bytes) : Z :=
  not32 (crc32_Update (not32 superblockChecksumSeed) span).

Definition verifySuperblockChecksum (r : ReaderAt) (sb : SuperBlock) : res unit :=
  if Z.land (sb_FeatureCompat sb) FeatureCompatSBChksum =? 0 then Ok tt else
  let len := checksumSpan (sb_BlkSizeBits sb) in
  let '(data, err) := ReadAt r (SuperBlockOffset + checksumEnd) len in
  let! _ := (match err with
             | Some e => if negb (errors_Is e EOF) then Err e else Ok tt
             | None => Ok tt end : res unit) in
  reject negb (zlen data =? len) with ErrCorrupt ;;
  reject negb (superblockChecksum data =? sb_Checksum sb) with ErrCorrupt ;;
  Ok tt.

Definition decodeSuperBlock (b : bytes) : res SuperBlock :=
  let! sb := SuperBlock_Unmarshal b in
  reject negb (sb_MagicNumber sb =? MagicNumber) with ErrInvalidSuperblock ;;
  Ok sb.

(** ** The checks of [Open], in its order *)

(** Up to the device table. *)
Definition open_superblock (r : ReaderAt) : res SuperBlock :=
  let '(superBlock, err) := ReadAt r SuperBlockOffset SizeSuperBlock in
  let! _ := (match err with Some e => Err e | None => Ok tt end : res unit) in
  reject negb (zlen superBlock =? SizeSuperBlock) with ErrInvalidSuperblock ;;
  let! sb := decodeSuperBlock superBlock in
  reject (sb_BlkSizeBits sb <? 9) || (16 <? sb_BlkSizeBits sb) with ErrInvalidSuperblock ;;
  let! _ := verifySuperblockChecksum r sb in
  reject negb (andnot (sb_FeatureIncompat sb) FeatureIncompatAll =? 0) with ErrNotImplemented ;;
  let sbSize := SizeSuperBlock + sb_ExtSlots sb * SizeSuperExtSlot in
  reject Z.max (Z.shiftl 1 (sb_BlkSizeBits sb)) MinPageSize - SuperBlockOffset <? sbSize
    with ErrInvalidSuperblock ;;
  reject negb (Z.land (sb_FeatureCompat sb) FeatureCompatIshareXattrs =? 0) &&
         (sb_XattrPrefixCount sb <=? sb_IshareXattrPrefixID sb) with ErrInvalidSuperblock ;;
  Ok sb.

(** One slot of the device table, and the reader its device is read through:
    the one given, or the image's own window in flatdev mode. *)
Definition open_device (r : ReaderAt) (sb : SuperBlock) (size : Z) (extra : list ReaderAt)
  (flatdev : bool) (idx : Z) : res deviceInfo :=
  let offset := sb_DevtSlotOff sb * SizeDeviceSlot + idx * SizeDeviceSlot in
  let '(slotBuf, err) := ReadAt r offset SizeDeviceSlot in
  let! _ := (match err with Some e => Err e | None => Ok tt end : res unit) in
  (* the array the slot is read into: what was not read stays zero *)
  let! slot := DeviceSlot_Unmarshal (slotBuf ++ zeros (Z.to_nat (SizeDeviceSlot - zlen slotBuf))) in
  let! device :=
    (if flatdev then Ok (flatWindow (sb_BlkSizeBits sb) size r (ds_MappedBlkAddr slot))
     else match extra !! Z.to_nat idx with Some d => Ok d | None => Panic end) in
  Ok {| dev_device := device; dev_size := imageSize device;
        dev_mappedBlkAddr := ds_MappedBlkAddr slot; dev_blocks := ds_Blocks slot |}.

Fixpoint open_devices (r : ReaderAt) (sb : SuperBlock) (size : Z) (extra : list ReaderAt)
  (flatdev : bool) (n : nat) (idx : Z) : res (list deviceInfo) :=
  match n with
  | O => Ok []
  | S n =>
      let! d := open_device r sb size extra flatdev idx in
      let! ds := open_devices r sb size extra flatdev n (idx + 1) in
      Ok (d :: ds)
  end.

(** ** The long xattr prefixes *)

(** Where the table is read from: a section of the image, or the packed
    inode's data (through a [bufio.Reader], which batches the reads and hands
    out the same bytes). *)
Inductive prefix_source :=
| from_section (sr : ReaderAt) (off : Z)
| from_packed (f : file).

(** [io.ReadFull] of [n > 0] bytes. *)
Definition source_read (img : image) (src : prefix_source) (n : Z) : res bytes * prefix_source :=
  match src with
  | from_section sr off =>
      let '(b, err) := ReadAt sr off n in
      (if zlen b =? n then Ok b else
       match err with
       | Some e => if bool_decide (e = EOF) && (0 <? zlen b) then Err ErrUnexpectedEOF else Err e
       | None => Err ErrUnexpectedEOF
       end, from_section sr (off + zlen b))
  | from_packed f =>
      match ReadFull (Z.to_nat n) img f n [] with
      | Ok (r, f) => (match rd_err r with Some e => Err e | None => Ok (rd_data r) end, from_packed f)
      | Err e => (Err e, src)
      | Panic => (Panic, src)
      end
  end.

Definition readMetadata (img : image) (src : prefix_source) : res (bytes * prefix_source) :=
  let '(r, src) := source_read img src 2 in
  let! lenBuf := r in
  let dataLen := get16 lenBuf 0 in
  let dataLen := if dataLen <? 1 then 65536 else dataLen in
  let '(r, src) := source_read img src dataLen in
  let! data := r in
  let rem := Z.rem (2 + dataLen) 4 in
  if rem =? 0 then Ok (data, src) else
  let '(r, src) := source_read img src (4 - rem) in
  match r with
  | Ok _ => Ok (data, src)
  | Err e => if errors_Is e EOF || errors_Is e ErrUnexpectedEOF then Ok (data, src) else Err e
  | Panic => Panic
  end.

Definition prefixSource (img : image) (startOffset : Z) : res prefix_source :=
  let sb := img_sb img in
  if (Z.land (sb_FeatureCompat sb) FeatureCompatPlainXattrPfx =? 0) &&
     negb (Z.land (sb_FeatureIncompat sb) FeatureIncompatFragments =? 0) && (0 <? sb_PackedNid sb) then
    match readInfo img (new_file (bs ".packed") (sb_PackedNid sb) 0) with
    | (Panic, _) => Panic
    | (Err e, _) => Err e
    | (Ok fi, f) =>
        reject ino_size fi <? startOffset with ErrCorrupt ;;
        Ok (from_packed (with_offset f startOffset))
    end
  else if 0 <? img_size img then
    reject img_size img <=? startOffset with ErrCorrupt ;;
    Ok (from_section (NewSectionReader (img_meta img) startOffset (img_size img - startOffset)) 0)
  else Ok (from_section (NewSectionReader (img_meta img) startOffset (MaxInt64 - startOffset)) 0).

Fixpoint load_prefixes (img : image) (n : nat) (src : prefix_source) : res (list bytes) :=
  match n with
  | O => Ok []
  | S n =>
      match readMetadata img src with
      | Panic => Panic
      | Err e => if errors_Is e EOF || errors_Is e ErrUnexpectedEOF then Err ErrCorrupt else Err e
      | Ok (data, src) =>
          reject 1 + MaxNameLen <? zlen data with ErrCorrupt ;;
          match data with
          | [] => Panic
          | b :: infix =>
              let! rest := load_prefixes img n src in
              Ok ((xattrIndex_String (Z_of_byte b) ++ infix) :: rest)
          end
      end
  end.

Definition loadLongPrefixes (img : image) : res (list bytes) :=
  let n := sb_XattrPrefixCount (img_sb img) in
  if n =? 0 then Ok [] else
  let! src := prefixSource img (sb_XattrPrefixStart (img_sb img) * 4) in
  load_prefixes img (Z.to_nat n) src.

(** ** [Open] *)

Definition with_prefixes (img : image) (p : list bytes) : image :=
  {| img_sb := img_sb img; img_size := img_size img; img_meta := img_meta img;
     img_devices := img_devices img; img_deviceIDMask := img_deviceIDMask img; img_longPrefixes := p |}.

(** The checks after the device table: compression, the geometry, the root. *)
Definition open_geometry (img : image) : res image :=
  let sb := img_sb img in
  reject negb (Z.land (sb_FeatureIncompat sb) FeatureIncompatLZ4_0Padding =? 0) ||
         negb (sb_ComprAlgs sb =? 0) with ErrNotImplemented ;;
  let declared := i64 (Z.shiftl (sb_Blocks sb) (img_bits img)) in
  reject (0 <? img_size img) && (img_size img <? declared) with ErrInvalidSuperblock ;;
  let size := if 0 <? img_size img then img_size img else declared in
  let img := {| img_sb := sb; img_size := size; img_meta := img_meta img; img_devices := img_devices img;
                img_deviceIDMask := img_deviceIDMask img; img_longPrefixes := [] |} in
  reject (0 <? size) && ((metaStartPos img <? 0) || (size <=? metaStartPos img)) with ErrInvalidSuperblock ;;
  let xoff := i64 (Z.shiftl (sb_XattrBlkAddr sb) (img_bits img)) in
  reject (0 <? size) && ((xoff <? 0) || (size <=? xoff)) with ErrInvalidSuperblock ;;
  let! _ := checkNid img (sb_RootNid sb) in
  reject negb (sb_DirBlkBits sb =? 0) with ErrInvalidSuperblock ;;
  Ok img.

Definition Open_image (r : ReaderAt) (extra : list ReaderAt) : res image :=
  let! sb := open_superblock r in
  let size := imageSize r in
  let table := negb (Z.land (sb_FeatureIncompat sb) FeatureIncompatDeviceTable =? 0) in
  let ondisk := if table then sb_ExtraDevices sb else 0 in
  let mask := if table then u16 (roundupPowerOfTwo (u32 (sb_ExtraDevices sb + 1)) - 1) else 0 in
  let flatdev := (zlen extra =? 0) && (0 <? ondisk) in
  reject negb flatdev && negb (ondisk =? zlen extra) with ErrInvalidSuperblock ;;
  let! devices := open_devices r sb size extra flatdev (Z.to_nat ondisk) 0 in
  let! img := open_geometry {| img_sb := sb; img_size := size; img_meta := r; img_devices := devices;
                               img_deviceIDMask := mask; img_longPrefixes := [] |} in
  let! prefixes := loadLongPrefixes img in
  Ok (with_prefixes img prefixes).

(** ** What an opened image satisfies *)

(** A reader whose length, when it tells, is a length. *)
Definition sized (r : ReaderAt) : Prop := forall s, reader_size r = Some s -> 0 <= s <= MaxInt64.

Lemma imageSize_range r : sized r -> 0 <= imageSize r <= MaxInt64.
Proof.
  unfold sized, imageSize. intros H. destruct (reader_size r) as [s|]; cbn; [by apply H|].
  unfold MaxInt64. lia.
Qed.

Lemma flatWindow_sized bits size r a :
  is_u32 a -> 9 <= bits <= 16 -> 0 <= size <= MaxInt64 -> sized (flatWindow bits size r a).
Proof.
  intros Ha Hb Hs s. unfold flatWindow. destruct (shiftl_u32_bits a bits Ha Hb) as [-> Hr].
  set (len := if 0 <? size then _ else _).
  assert (Hl : 0 <= len /\ a * 2 ^ bits + len <= MaxInt64).
  { unfold len, MaxInt64 in *. destruct (Z.ltb_spec 0 size); lia. }
  cbn. rewrite (proj2 (Z.leb_le _ _)) by lia. intros [= <-]. lia.
Qed.

Lemma open_superblock_no_panic r : no_panic (open_superblock r).
Proof.
  unfold no_panic, open_superblock, verifySuperblockChecksum, decodeSuperBlock, SuperBlock_Unmarshal.
  destruct (ReadAt r _ _) as [b err]. destruct err; [congruence|].
  destruct (Z.eqb_spec (zlen b) SizeSuperBlock) as [E|E]; cbn [negb]; [|congruence].
  rewrite E, Z.ltb_irrefl. repeat case_match; congruence.
Qed.

Lemma open_superblock_facts r sb :
  open_superblock r = Ok sb ->
  SuperBlock_wf sb /\ 9 <= sb_BlkSizeBits sb <= 16 /\ sb_MagicNumber sb = MagicNumber /\
  verifySuperblockChecksum r sb = Ok tt /\ andnot (sb_FeatureIncompat sb) FeatureIncompatAll = 0.
Proof.
  unfold open_superblock. destruct (ReadAt _ _ _) as [b err]. intros H.
  step_in H. step_in H. unfold decodeSuperBlock in H.
  destruct (SuperBlock_Unmarshal b) as [s| |] eqn:Eu; [|done..].
  destruct (negb (sb_MagicNumber s =? MagicNumber)) eqn:Em; [done|].
  step_in H. step_in H. destruct a0. step_in H. step_in H. step_in H. apply Ok_inj in H. subst s. zbool.
  split; [by eapply SuperBlock_Unmarshal_wf|]. split; [lia|]. auto.
Qed.

Section OpenDevices.
Context (r : ReaderAt) (sb : SuperBlock) (extra : list ReaderAt) (flatdev : bool).
Context (Hsb : SuperBlock_wf sb) (Hbits : 9 <= sb_BlkSizeBits sb <= 16).
Context (Hr : sized r) (He : Forall sized extra) (Lr : ReaderAtLaws r) (Le : Forall ReaderAtLaws extra).

Lemma open_device_facts idx :
  0 <= idx -> (flatdev = false -> idx < zlen extra) ->
  (exists e, open_device r sb (imageSize r) extra flatdev idx = Err e) \/
  (exists d, open_device r sb (imageSize r) extra flatdev idx = Ok d /\ dev_wf d /\ ReaderAtLaws (dev_device d)).
Proof using Hbits Hr He Lr Le.
  intros Hi Hx. unfold open_device. pose proof (ReadAt_len (r := r)) as Hlen.
  specialize (Hlen (sb_DevtSlotOff sb * SizeDeviceSlot + idx * SizeDeviceSlot) SizeDeviceSlot ltac:(done)).
  destruct (ReadAt r _ _) as [b [e|]]; cbn in Hlen; [by left; eexists|].
  set (buf := b ++ _).
  destruct (DeviceSlot_Unmarshal buf) as [slot|e|] eqn:Es.
  2:{ unfold DeviceSlot_Unmarshal in Es. by step_in Es. }
  2:{ exfalso. unfold DeviceSlot_Unmarshal in Es. step_in Es. zbool. unfold buf in E.
      rewrite zlen_app in E. unfold zeros in E. rewrite zlen_replicate in E. unfold SizeDeviceSlot in *. lia. }
  apply DeviceSlot_Unmarshal_wf in Es as [_ W2 W3 _].
  assert (Hd : exists d, (if flatdev then Ok (flatWindow (sb_BlkSizeBits sb) (imageSize r) r (ds_MappedBlkAddr slot))
     else match extra !! Z.to_nat idx with Some d => Ok d | None => Panic end) = Ok d /\
     sized d /\ ReaderAtLaws d).
  { destruct flatdev.
    - eexists. split; [done|]. split; [apply flatWindow_sized; auto using imageSize_range|].
      unfold flatWindow. by apply section_laws.
    - destruct (lookup_lt_is_Some_2 extra (Z.to_nat idx)) as [d Hd];
        [specialize (Hx eq_refl); unfold zlen in *; lia|].
      rewrite Hd. exists d. split; [done|].
      split; [by apply (Forall_lookup_1 _ _ _ _ He Hd)|by apply (Forall_lookup_1 _ _ _ _ Le Hd)]. }
  destruct Hd as (d & -> & Hsz & Hl). right. eexists. split; [done|]. split; [|done].
  constructor; cbn; auto using imageSize_range.
Qed.

Lemma open_devices_facts n : forall idx,
  0 <= idx -> (flatdev = false -> idx + Z.of_nat n <= zlen extra) ->
  (exists e, open_devices r sb (imageSize r) extra flatdev n idx = Err e) \/
  (exists ds, open_devices r sb (imageSize r) extra flatdev n idx = Ok ds /\ length ds = n /\
              Forall dev_wf ds /\ Forall (fun d => ReaderAtLaws (dev_device d)) ds).
Proof using Hbits Hr He Lr Le.
  induction n as [|n IH]; intros idx Hi Hx; cbn [open_devices]; [right; by exists []|].
  destruct (open_device_facts idx Hi) as [[e ->]|(d & -> & Wd & Ld)]; [|by left; eexists|].
  { intros Hf. specialize (Hx Hf). lia. }
  destruct (IH (idx + 1) ltac:(lia)) as [[e ->]|(ds & -> & L & Wds & Lds)]; [|by left; eexists|].
  { intros Hf. specialize (Hx Hf). lia. }
  right. exists (d :: ds). split; [done|]. split; [cbn; by rewrite L|]. split; by constructor.
Qed.
End OpenDevices.

(** ** The prefixes are read without a panic *)

Definition source_ok (img : image) (src : prefix_source) : Prop :=
  match src with
  | from_section sr off => ReaderAtLaws sr
  | from_packed f => file_wf img f
  end.

Lemma source_read_cases img src n :
  image_wf img -> readers_ok img -> source_ok img src -> 0 < n ->
  exists r src', source_read img src n = (r, src') /\ source_ok img src' /\ answered r /\
    forall b, r = Ok b -> zlen b = n.
Proof.
  intros Hwf Hrd Hs Hn. destruct src as [sr off|f]; cbn [source_read source_ok] in *.
  - destruct (ReadAt sr off n) as [b err]. eexists _, _. split; [done|]. split; [done|].
    destruct (Z.eqb_spec (zlen b) n) as [E|E].
    + split; [by eapply answered_ok|]. intros b' Hb. apply Ok_inj in Hb. by subst.
    + destruct err as [e|]; [destruct (bool_decide (e = EOF) && (0 <? zlen b))|];
        (split; [by eapply answered_err|done]).
  - destruct (ReadFull_spec img n Hwf Hrd (Z.to_nat n) f []) as (r & f' & -> & Hf' & R1 & _); auto;
      change (zlen (@nil Byte.byte)) with 0; try lia.
    eexists _, _. split; [done|]. split; [done|].
    destruct (rd_err r) as [e|]; [split; [by eapply answered_err|done]|].
    split; [by eapply answered_ok|]. intros b Hb. apply Ok_inj in Hb. subst b. auto.
Qed.

Lemma readMetadata_cases img src :
  image_wf img -> readers_ok img -> source_ok img src ->
  (exists e, readMetadata img src = Err e) \/
  (exists data src', readMetadata img src = Ok (data, src') /\ source_ok img src' /\ 0 < zlen data).
Proof.
  intros Hwf Hrd Hs. unfold readMetadata.
  destruct (source_read_cases img src 2 Hwf Hrd Hs ltac:(lia)) as (r1 & s1 & -> & Hs1 & A1 & L1).
  destruct A1 as [b1 ->|e ->]; [|by left; eexists].
  pose proof (get16_range b1 0) as Hg. unfold is_u16 in Hg.
  set (n := if get16 b1 0 <? 1 then 65536 else get16 b1 0).
  assert (Hn : 0 < n) by (unfold n; destruct (Z.ltb_spec (get16 b1 0) 1); lia).
  destruct (source_read_cases img s1 n Hwf Hrd Hs1 Hn) as (r2 & s2 & -> & Hs2 & A2 & L2).
  destruct A2 as [b2 ->|e ->]; [|by left; eexists]. specialize (L2 b2 eq_refl).
  destruct (Z.eqb_spec (Z.rem (2 + n) 4) 0); [right; eexists _, _; split; [done|]; split; [done|lia]|].
  pose proof (Z.rem_bound_pos (2 + n) 4 ltac:(lia) ltac:(lia)).
  destruct (source_read_cases img s2 (4 - Z.rem (2 + n) 4) Hwf Hrd Hs2 ltac:(lia))
    as (r3 & s3 & -> & Hs3 & A3 & _).
  destruct A3 as [b3 ->|e ->]; [|destruct (_ || _); [|by left; eexists]];
    (right; eexists _, _; split; [done|]; split; [done|lia]).
Qed.

Lemma load_prefixes_cases img : image_wf img -> readers_ok img -> forall n src, source_ok img src ->
  (exists e, load_prefixes img n src = Err e) \/
  (exists l, load_prefixes img n src = Ok l /\ length l = n).
Proof.
  intros Hwf Hrd. induction n as [|n IH]; intros src Hs; cbn [load_prefixes]; [right; by exists []|].
  destruct (readMetadata_cases img src Hwf Hrd Hs) as [[e ->]|(data & src' & -> & Hs' & Hd)].
  { left. destruct (_ || _); by eexists. }
  destruct (_ <? _); [by left; eexists|]. destruct data as [|b infix]; [done|].
  destruct (IH src' Hs') as [[e ->]|(l & -> & Hl)]; [by left; eexists|].
  right. eexists. split; [done|]. cbn. by rewrite Hl.
Qed.

Lemma loadLongPrefixes_cases img : image_wf img -> readers_ok img ->
  (exists e, loadLongPrefixes img = Err e) \/
  (exists l, loadLongPrefixes img = Ok l /\ zlen l = sb_XattrPrefixCount (img_sb img)).
Proof.
  intros Hwf Hrd. unfold loadLongPrefixes. pose proof (wf_sb_XattrPrefixCount _ (wf_sb _ Hwf)) as Hc.
  unfold is_u8 in Hc. destruct (Z.eqb_spec (sb_XattrPrefixCount (img_sb img)) 0) as [->|]; [right; by exists []|].
  pose proof (wf_sb_XattrPrefixStart _ (wf_sb _ Hwf)) as Hps. unfold is_u32 in Hps.
  assert (Hsrc : (exists e, prefixSource img (sb_XattrPrefixStart (img_sb img) * 4) = Err e) \/
    (exists s, prefixSource img (sb_XattrPrefixStart (img_sb img) * 4) = Ok s /\ source_ok img s)).
  { unfold prefixSource. destruct (_ && _ && _).
    - destruct (readInfo_cases img (new_file (bs ".packed") (sb_PackedNid (img_sb img)) 0) (new_file_wf _ _ _ _))
        as [(e & ? & -> & _)|(fi & -> & _ & Hf)]; [by left; eexists|].
      destruct (_ <? _); [by left; eexists|]. right. eexists. split; [done|]. cbn.
      apply file_wf_offset; [done|lia].
    - destruct (_ <? _); [destruct (_ <=? _); [by left; eexists|]|];
        (right; eexists; split; [done|]; cbn; apply section_laws, Hrd). }
  destruct Hsrc as [[e ->]|(s & -> & Hs)]; [by left; eexists|].
  destruct (load_prefixes_cases img Hwf Hrd (Z.to_nat (sb_XattrPrefixCount (img_sb img))) s Hs)
    as [[e ->]|(l & -> & Hl)]; [by left; eexists|].
  right. exists l. split; [done|]. unfold zlen. lia.
Qed.

(** ** The claims *)

Lemma open_geometry_facts img img' :
  SuperBlock_wf (img_sb img) -> 9 <= img_bits img <= 16 -> 0 <= img_size img <= MaxInt64 ->
  open_geometry img = Ok img' ->
  img_sb img' = img_sb img /\ img_meta img' = img_meta img /\ img_devices img' = img_devices img /\
  img_deviceIDMask img' = img_deviceIDMask img /\ 0 <= img_size img' <= MaxInt64 /\
  checkNid img' (sb_RootNid (img_sb img')) = Ok tt /\
  (0 < img_size img' -> 0 <= metaStartPos img' < img_size img') /\
  (0 < img_size img -> img_size img' = img_size img) /\
  sb_Blocks (img_sb img) * 2 ^ img_bits img <= img_size img'.
Proof.
  intros Hsb Hb Hs H. unfold open_geometry in H.
  destruct (shiftl_u32_bits (sb_Blocks (img_sb img)) (img_bits img) (wf_sb_Blocks _ Hsb) Hb) as [Ed Hd].
  rewrite Ed in H. set (d := sb_Blocks (img_sb img) * 2 ^ img_bits img) in *.
  set (size := if 0 <? img_size img then img_size img else d) in *.
  assert (Hsize : 0 <= size <= MaxInt64)
    by (unfold size, MaxInt64 in *; destruct (Z.ltb_spec 0 (img_size img)); lia).
  step_in H. step_in H. step_in H. step_in H. step_in H. destruct a. step_in H.
  apply Ok_inj in H. subst img'. cbn in *. split_and!; auto; try lia.
  - intros Hp. unfold size. by rewrite (proj2 (Z.ltb_lt _ _)).
  - unfold size. destruct (Z.ltb_spec 0 (img_size img)); [|lia]. cbn in E0. zbool. lia.
Qed.

Lemma Open_facts r extra :
  sized r -> Forall sized extra -> ReaderAtLaws r -> Forall ReaderAtLaws extra ->
  no_panic (Open_image r extra) /\
  forall img, Open_image r extra = Ok img ->
    image_wf img /\ readers_ok img /\
    sb_MagicNumber (img_sb img) = MagicNumber /\ verifySuperblockChecksum r (img_sb img) = Ok tt /\
    andnot (sb_FeatureIncompat (img_sb img)) FeatureIncompatAll = 0 /\
    checkNid img (sb_RootNid (img_sb img)) = Ok tt /\
    (0 < img_size img -> 0 <= metaStartPos img < img_size img) /\
    sb_Blocks (img_sb img) * 2 ^ img_bits img <= img_size img /\
    (extra <> [] -> zlen (img_devices img) = zlen extra) /\
    zlen (img_longPrefixes img) = sb_XattrPrefixCount (img_sb img).
Proof.
  intros Hr He Lr Le. unfold Open_image.
  pose proof (open_superblock_no_panic r) as Hnp.
  destruct (open_superblock r) as [sb|e|] eqn:Esb; [|by split|by destruct (Hnp eq_refl)].
  destruct (open_superblock_facts r sb Esb) as (Wsb & Hb & Hm & Hv & Hf).
  set (ondisk := if negb _ then sb_ExtraDevices sb else 0).
  assert (Ho : 0 <= ondisk <= MaxUint16).
  { unfold ondisk. pose proof (wf_sb_ExtraDevices _ Wsb) as Hx. unfold is_u16, MaxUint16 in *.
    destruct (negb _); lia. }
  set (flatdev := (zlen extra =? 0) && (0 <? ondisk)).
  destruct (negb flatdev && negb (ondisk =? zlen extra)) eqn:Ec; [by split|].
  assert (Hcount : flatdev = false -> ondisk = zlen extra).
  { intros E. rewrite E in Ec. cbn in Ec. zbool. done. }
  destruct (open_devices_facts r sb extra flatdev Hb Hr He Lr Le (Z.to_nat ondisk) 0 ltac:(lia))
    as [[e ->]|(ds & -> & Lds & Wds & Rds)]; [|by split|].
  { intros E. rewrite <- (Hcount E). lia. }
  set (img0 := {| img_sb := sb; img_size := imageSize r; img_meta := r; img_devices := ds;
                  img_deviceIDMask := _; img_longPrefixes := [] |}).
  assert (Hg : no_panic (open_geometry img0)).
  { unfold no_panic, open_geometry, checkNid. repeat case_match; congruence. }
  destruct (open_geometry img0) as [img1|e|] eqn:Eg; [|by split|by destruct (Hg eq_refl)].
  apply open_geometry_facts in Eg as (G1 & G2 & G3 & _ & G5 & G6 & G7 & _ & G9); [|done|done|by apply imageSize_range].
  cbn in G1, G2, G3, G9.
  assert (Wimg : image_wf img1).
  { constructor; [by rewrite G1|unfold img_bits; by rewrite G1|done|by rewrite G3|].
    rewrite G3. unfold zlen. rewrite Lds. lia. }
  assert (Rimg : readers_ok img1) by (constructor; [by rewrite G2|by rewrite G3]).
  destruct (loadLongPrefixes_cases img1 Wimg Rimg) as [[e ->]|(l & -> & Hl)]; [by split|].
  split; [done|]. intros img H. apply Ok_inj in H. subst img. cbn.
  split; [by destruct Wimg|]. split; [by destruct Rimg|]. rewrite G1 in *.
  split_and!; auto.
  - by rewrite <- G9; unfold img_bits; cbn; rewrite G1.
  - intros Hx. rewrite G3. unfold zlen at 1. rewrite Lds, Z2Nat.id by lia. apply Hcount.
    unfold flatdev. destruct extra; [done|]. rewrite zlen_cons. pose proof (zlen_nonneg extra).
    by rewrite (proj2 (Z.eqb_neq _ _)) by lia.
Qed.

(** C1: what [Open] establishes.  Given readers that keep the [io.ReaderAt]
    contract it never panics; an image it opens satisfies the invariant every
    other operation relies on, has the magic number, a block size from 512
    bytes to 64 KiB, a superblock that passed its checksum, no feature outside
    the supported ones, a root inode in bounds, the metadata and all declared
    blocks within its extent, one device per table entry and one prefix per
    declared prefix. *)
Theorem Open_establishes r extra :
  sized r -> Forall sized extra -> ReaderAtLaws r -> Forall ReaderAtLaws extra ->
  no_panic (Open_image r extra) /\
  forall img, Open_image r extra = Ok img ->
    image_wf img /\ readers_ok img /\
    sb_MagicNumber (img_sb img) = MagicNumber /\ verifySuperblockChecksum r (img_sb img) = Ok tt /\
    andnot (sb_FeatureIncompat (img_sb img)) FeatureIncompatAll = 0 /\
    checkNid img (sb_RootNid (img_sb img)) = Ok tt /\
    (0 < img_size img -> 0 <= metaStartPos img < img_size img) /\
    sb_Blocks (img_sb img) * 2 ^ img_bits img <= img_size img /\
    (extra <> [] -> zlen (img_devices img) = zlen extra) /\
    zlen (img_longPrefixes img) = sb_XattrPrefixCount (img_sb img).
Proof. apply Open_facts. Qed.

(** The superblock of [example_img] on a disk of four blocks. *)
Definition example_disk : bytes :=
  match SuperBlock_Marshal example_sb (zeros 128) with
  | Ok b => zeros (Z.to_nat 1024) ++ b ++ zeros (Z.to_nat (16384 - 1152))
  | _ => []
  end.

Lemma bytes_reader_sized c : zlen c <= MaxInt64 -> sized (bytes_reader c).
Proof. intros H s [= <-]. split; [apply zlen_nonneg|done]. Qed.

Lemma Open_establishes_witness :
  exists img, Open_image (bytes_reader example_disk) [] = Ok img /\ image_wf img /\
    zlen (img_devices img) = 2 /\ img_deviceIDMask img = 3 /\ img_size img = 16384.
Proof.
  destruct (Open_establishes (bytes_reader example_disk) []
    (bytes_reader_sized example_disk ltac:(by vm_compute)) ltac:(by constructor)
    (bytes_reader_laws _) ltac:(by constructor)) as [_ H].
  destruct (Open_image (bytes_reader example_disk) []) as [img|e|] eqn:E.
  - exists img. split; [reflexivity|]. split; [apply (H img eq_refl)|].
    assert (Ex : res_map (fun i => (zlen (img_devices i), img_deviceIDMask i, img_size i))
                   (Open_image (bytes_reader example_disk) []) = Ok (2, 3, 16384)) by (vm_compute; reflexivity).
    rewrite E in Ex. cbn in Ex. apply Ok_inj in Ex. injection Ex as -> -> ->. auto.
  - exfalso. assert (Ex : is_ok (Open_image (bytes_reader example_disk) []) = true) by (vm_compute; reflexivity).
    rewrite E in Ex. discriminate Ex.
  - exfalso. assert (Ex : is_ok (Open_image (bytes_reader example_disk) []) = true) by (vm_compute; reflexivity).
    rewrite E in Ex. discriminate Ex.
Defined.

(** ** The checksum *)

Lemma not32_involutive v : not32 (not32 v) = v.
Proof. unfold not32. by rewrite Z.lxor_assoc, Z.lxor_nilpotent, Z.lxor_0_r. Qed.

(** The inversions of [crc32.Update] cancel: the kernel's CRC. *)
Lemma superblockChecksum_plain span : superblockChecksum span = crc_update superblockChecksumSeed span.
Proof. unfold superblockChecksum, crc32_Update. by rewrite !not32_involutive. Qed.

(** The table's entries are 32-bit values with distinct top bytes. *)
Definition crc_entry_ok (i j : Z) : bool :=
  (0 <=? crc_table i) && (crc_table i <? 2 ^ 32) &&
  ((i =? j) || negb (Z.shiftr (crc_table i) 24 =? Z.shiftr (crc_table j) 24)).

(** [f] on every byte value. *)
Definition all_bytes (f : Z -> bool) : bool := all_from 256 0 f.

Lemma all_from_spec n : forall z f, all_from n z f = true -> forall k, z <= k < z + Z.of_nat n -> f k = true.
Proof.
  induction n as [|n IH]; intros z f H k Hk; [lia|]. cbn in H. apply andb_true_iff in H as [H1 H2].
  destruct (Z.eq_dec k z) as [->|]; [done|]. apply (IH (z + 1) f H2). lia.
Qed.

Lemma all_bytes_spec f : all_bytes f = true -> forall k, 0 <= k < 256 -> f k = true.
Proof. intros H k Hk. apply (all_from_spec 256 0 f H). lia. Qed.

Lemma crc_table_ok : all_bytes (fun i => all_bytes (crc_entry_ok i)) = true.
Proof. vm_compute. reflexivity. Qed.

Lemma crc_table_facts i j :
  0 <= i < 256 -> 0 <= j < 256 ->
  0 <= crc_table i < 2 ^ 32 /\
  (Z.shiftr (crc_table i) 24 = Z.shiftr (crc_table j) 24 -> i = j).
Proof.
  intros Hi Hj. pose proof (all_bytes_spec _ (all_bytes_spec _ crc_table_ok i Hi) j Hj) as H.
  unfold crc_entry_ok in H. apply andb_true_iff in H as [H1 H2]. zbool. split; [lia|].
  intros E. rewrite E, Z.eqb_refl in H2. cbn in H2. destruct H2 as [H2|H2]; [by apply Z.eqb_eq|done].
Qed.

Definition crc_step (crc : Z) (v : byte) : Z :=
  Z.lxor (crc_table (Z.lxor (Z.land crc 255) (Z_of_byte v))) (Z.shiftr crc 8).

Lemma lxor_range a b n : 0 <= n -> 0 <= a < 2 ^ n -> 0 <= b < 2 ^ n -> 0 <= Z.lxor a b < 2 ^ n.
Proof.
  intros Hn Ha Hb. assert (H0 : 0 <= Z.lxor a b) by (apply Z.lxor_nonneg; lia). split; [done|].
  destruct (Z.eq_dec (Z.lxor a b) 0) as [->|]; [lia|].
  assert (Hlog : forall x, 0 <= x < 2 ^ n -> x = 0 \/ Z.log2 x < n).
  { intros x Hx. destruct (Z.eq_dec x 0); [by left|right]. apply Z.log2_lt_pow2; lia. }
  apply Z.log2_lt_pow2; [lia|]. pose proof (Z.log2_lxor a b ltac:(lia) ltac:(lia)).
  destruct (Hlog a Ha) as [->|Ha'].
  - rewrite Z.lxor_0_l in *. destruct (Hlog b Hb) as [->|]; [done|lia].
  - destruct (Hlog b Hb) as [->|]; [rewrite Z.lxor_0_r in *; lia|lia].
Qed.

Lemma crc_index crc v : 0 <= crc -> 0 <= Z.lxor (Z.land crc 255) (Z_of_byte v) < 256.
Proof.
  intros Hc. pose proof (Z_of_byte_range v). change 256 with (2 ^ 8). apply lxor_range; [lia| |lia].
  change 255 with (2 ^ 8 - 1). rewrite land_pow2_mask by lia. apply Z.mod_pos_bound. lia.
Qed.

Lemma crc_step_range crc v : 0 <= crc < 2 ^ 32 -> 0 <= crc_step crc v < 2 ^ 32.
Proof.
  intros Hc. unfold crc_step. pose proof (crc_index crc v ltac:(lia)) as Hi.
  destruct (crc_table_facts _ _ Hi Hi) as [Ht _]. apply lxor_range; [lia|done|].
  rewrite Z.shiftr_div_pow2 by lia. split; [apply Z.div_pos; lia|]. apply Z.div_lt_upper_bound; lia.
Qed.

(** A step of the CRC loses nothing: the register and the byte that were not
    changed can be told from the result. *)
Lemma crc_step_inj c1 c2 v1 v2 :
  0 <= c1 < 2 ^ 32 -> 0 <= c2 < 2 ^ 32 -> crc_step c1 v1 = crc_step c2 v2 ->
  Z.shiftr c1 8 = Z.shiftr c2 8 /\
  Z.lxor (Z.land c1 255) (Z_of_byte v1) = Z.lxor (Z.land c2 255) (Z_of_byte v2).
Proof.
  intros H1 H2 E. unfold crc_step in E.
  pose proof (crc_index c1 v1 ltac:(lia)) as I1. pose proof (crc_index c2 v2 ltac:(lia)) as I2.
  set (i1 := Z.lxor (Z.land c1 255) (Z_of_byte v1)) in *. set (i2 := Z.lxor (Z.land c2 255) (Z_of_byte v2)) in *.
  assert (Hz : forall c, 0 <= c < 2 ^ 32 -> Z.shiftr (Z.shiftr c 8) 24 = 0).
  { intros c Hc. rewrite Z.shiftr_shiftr by lia. rewrite Z.shiftr_div_pow2 by lia. apply Z.div_small. lia. }
  assert (Et : Z.shiftr (crc_table i1) 24 = Z.shiftr (crc_table i2) 24).
  { apply (f_equal (fun z => Z.shiftr z 24)) in E. rewrite !Z.shiftr_lxor in E.
    rewrite (Hz c1 H1), (Hz c2 H2), !Z.lxor_0_r in E. done. }
  destruct (crc_table_facts i1 i2 I1 I2) as [_ Hinj]. specialize (Hinj Et). rewrite Hinj in E. split; [|done].
  apply (f_equal (Z.lxor (crc_table i2))) in E.
  by rewrite <- !Z.lxor_assoc, Z.lxor_nilpotent, !Z.lxor_0_l in E.
Qed.

Lemma lxor_cancel_r a b c : Z.lxor a c = Z.lxor b c -> a = b.
Proof.
  intros E. apply (f_equal (fun z => Z.lxor z c)) in E.
  by rewrite !Z.lxor_assoc, Z.lxor_nilpotent, !Z.lxor_0_r in E.
Qed.

Lemma crc_update_inj p : forall c1 c2,
  0 <= c1 < 2 ^ 32 -> 0 <= c2 < 2 ^ 32 -> crc_update c1 p = crc_update c2 p -> c1 = c2.
Proof.
  induction p as [|v p IH]; intros c1 c2 H1 H2 E; [done|]. cbn [crc_update] in E.
  fold (crc_step c1 v) in E. fold (crc_step c2 v) in E.
  apply IH in E; [|by apply crc_step_range..]. apply crc_step_inj in E as [Es El]; auto.
  apply lxor_cancel_r in El. change 255 with (2 ^ 8 - 1) in El. rewrite !land_pow2_mask in El by lia.
  rewrite !Z.shiftr_div_pow2 in Es by lia.
  rewrite (Z.div_mod c1 (2 ^ 8)), (Z.div_mod c2 (2 ^ 8)) by lia. by rewrite Es, El.
Qed.

Lemma crc_update_range p : forall c, 0 <= c < 2 ^ 32 -> 0 <= crc_update c p < 2 ^ 32.
Proof. induction p as [|v p IH]; intros c Hc; [done|]. cbn. apply IH, crc_step_range, Hc. Qed.

Lemma crc_update_app p q c : crc_update c (p ++ q) = crc_update (crc_update c p) q.
Proof. revert c. induction p as [|v p IH]; intros c; cbn; [done|]. apply IH. Qed.

Lemma Z_of_byte_inj a b : Z_of_byte a = Z_of_byte b -> a = b.
Proof. intros H. rewrite <- (byte_of_Z_of_byte a), <- (byte_of_Z_of_byte b). by rewrite H. Qed.

Lemma superblockChecksum_byte a x y b :
  superblockChecksum (a ++ x :: b) = superblockChecksum (a ++ y :: b) -> x = y.
Proof.
  rewrite !superblockChecksum_plain, !crc_update_app. cbn [crc_update]. intros E.
  assert (Hr : 0 <= crc_update superblockChecksumSeed a < 2 ^ 32) by (apply crc_update_range; by vm_compute).
  apply crc_update_inj in E; [|by apply crc_step_range..].
  apply crc_step_inj in E as [_ E]; auto. rewrite !(Z.lxor_comm (Z.land _ _)) in E.
  apply lxor_cancel_r in E. by apply Z_of_byte_inj.
Qed.

(** Where the fields of a superblock [open_superblock] took lie in the image. *)
Lemma open_superblock_fields c sb :
  open_superblock (bytes_reader c) = Ok sb ->
  sb_Checksum sb = get32 c 1028 /\ sb_FeatureCompat sb = get32 c 1032 /\ sb_BlkSizeBits sb = get8 c 1036.
Proof.
  unfold open_superblock. intros H. cbn [ReadAt bytes_reader] in H. change (SuperBlockOffset <? 0) with false in H.
  destruct (zlen c <=? SuperBlockOffset); [done|]. change (Z.to_nat SuperBlockOffset) with 1024%nat in H.
  change (Z.to_nat SizeSuperBlock) with 128%nat in H. step_in H. step_in H. unfold decodeSuperBlock, SuperBlock_Unmarshal in H.
  destruct (_ <? SizeSuperBlock) eqn:El in H; [done|].
  cbn [sb_MagicNumber sb_BlkSizeBits sb_FeatureIncompat sb_ExtSlots sb_FeatureCompat sb_XattrPrefixCount sb_IshareXattrPrefixID] in H.
  destruct (negb (get32 _ 0 =? _)); [done|]. repeat step_in H. apply Ok_inj in H. subst sb.
  cbn [sb_Checksum sb_FeatureCompat sb_BlkSizeBits]. unfold get32, get8. rewrite !sub_sub by lia. done.
Qed.

(** The span a clean verification read, and its checksum. *)
Lemma verified_span c sb :
  Z.land (sb_FeatureCompat sb) FeatureCompatSBChksum <> 0 -> verifySuperblockChecksum (bytes_reader c) sb = Ok tt ->
  superblockChecksum (sub c 1032 (Z.to_nat (checksumSpan (sb_BlkSizeBits sb)))) = sb_Checksum sb.
Proof.
  intros Hf H. unfold verifySuperblockChecksum in H. rewrite (proj2 (Z.eqb_neq _ _)) in H by done.
  change (SuperBlockOffset + checksumEnd) with 1032 in H. set (n := checksumSpan _) in *.
  assert (Hr : (ReadAt (bytes_reader c) 1032 n).1 = sub c 1032 (Z.to_nat n)).
  { cbn [ReadAt bytes_reader]. change (1032 <? 0) with false. destruct (Z.leb_spec (zlen c) 1032) as [Hl|]; [|done]. cbn.
    unfold sub. rewrite drop_ge by (unfold zlen in Hl; lia). by rewrite take_nil. }
  destruct (ReadAt _ _ _) as [d e]. cbn in Hr. subst d. step_in H. step_in H. step_in H. zbool. done.
Qed.

Lemma sub_around {A} (a b : list A) x o n : (o <= length a < o + n)%nat ->
  sub (a ++ x :: b) o n = drop o a ++ x :: take (o + n - length a - 1) b.
Proof.
  intros H. unfold sub. rewrite drop_app_le by lia. rewrite take_app, length_drop.
  rewrite (take_ge (drop o a)) by (rewrite length_drop; lia). f_equal.
  destruct (n - (length a - o))%nat as [|k] eqn:E; [lia|]. cbn [take]. do 2 f_equal. lia.
Qed.

(** The same image but for one byte of the checksummed span opens only with the
    checksum turned off or over another block size. *)
Lemma changed_byte a x y b sb sb' :
  x <> y -> open_superblock (bytes_reader (a ++ x :: b)) = Ok sb -> Z.land (sb_FeatureCompat sb) FeatureCompatSBChksum <> 0 ->
  1032 <= zlen a < 1032 + checksumSpan (sb_BlkSizeBits sb) -> open_superblock (bytes_reader (a ++ y :: b)) = Ok sb' ->
  Z.land (sb_FeatureCompat sb') FeatureCompatSBChksum = 0 \/ sb_BlkSizeBits sb' <> sb_BlkSizeBits sb.
Proof.
  intros Hxy H Hf Hp H'. destruct (Z.eq_dec (Z.land (sb_FeatureCompat sb') FeatureCompatSBChksum) 0) as [|Hf']; [by left|right].
  intros Eb. apply Hxy. destruct (open_superblock_fields _ _ H) as (C & _). destruct (open_superblock_fields _ _ H') as (C' & _).
  destruct (open_superblock_facts _ _ H) as (_ & _ & _ & V & _). destruct (open_superblock_facts _ _ H') as (_ & _ & _ & V' & _).
  apply verified_span in V; [|done]. apply verified_span in V'; [|done]. rewrite Eb in V'.
  assert (Ec : get32 (a ++ x :: b) 1028 = get32 (a ++ y :: b) 1028)
    by (unfold get32; rewrite !sub_app_l by (unfold zlen in Hp; lia); done).
  rewrite C, Ec, <- C' in V. rewrite <- V' in V. unfold zlen in Hp.
  rewrite !sub_around in V by lia. by eapply superblockChecksum_byte.
Qed.

(** C35: the superblock checksum catches a changed byte.  Take an image that
    opens with the checksum feature set, and change one byte of the
    checksummed span.  Past the compatible features and the block size (its
    first five bytes) [Open] refuses every such image.  One of those five bytes
    changed, the image opens only if the change turned the checksum off or set
    another block size, and with it another span. *)
Theorem checksum_catches_byte a x y b sb :
  x <> y -> open_superblock (bytes_reader (a ++ x :: b)) = Ok sb -> Z.land (sb_FeatureCompat sb) FeatureCompatSBChksum <> 0 ->
  1032 <= zlen a < 1032 + checksumSpan (sb_BlkSizeBits sb) ->
  (1037 <= zlen a -> exists e, forall extra, Open_image (bytes_reader (a ++ y :: b)) extra = Err e) /\
  (forall sb', open_superblock (bytes_reader (a ++ y :: b)) = Ok sb' ->
     Z.land (sb_FeatureCompat sb') FeatureCompatSBChksum = 0 \/ sb_BlkSizeBits sb' <> sb_BlkSizeBits sb).
Proof.
  intros Hxy H Hf Hp. split; [|intros sb' H'; by eapply changed_byte].
  intros Hl. pose proof (open_superblock_no_panic (bytes_reader (a ++ y :: b))) as Hn.
  destruct (open_superblock (bytes_reader (a ++ y :: b))) as [sb'|e|] eqn:H'; [exfalso| |by destruct (Hn eq_refl)].
  2:{ exists e. intros extra. unfold Open_image. by rewrite H'. }
  destruct (open_superblock_fields _ _ H) as (_ & F & B). destruct (open_superblock_fields _ _ H') as (_ & F' & B').
  unfold zlen in Hl. unfold get32, get8 in *. rewrite sub_app_l in F, F', B, B' by lia.
  destruct (changed_byte a x y b sb sb' Hxy H Hf Hp H'); congruence.
Qed.

(** An image of 512-byte blocks whose superblock carries its checksum. *)
Definition sum_area : bytes := put8 12 9 (put32 8 1 (put32 0 MagicNumber (zeros 512))).

Definition sum_disk : bytes :=
  zeros 1024 ++ put32 4 (superblockChecksum (drop 8 sum_area)) sum_area.

Lemma checksum_catches_byte_witness :
  exists e, Open_image (bytes_reader (take 1200 sum_disk ++ x80 :: drop 1201 sum_disk)) [] = Err e.
Proof.
  assert (S : exists sb, open_superblock (bytes_reader (take 1200 sum_disk ++ x00 :: drop 1201 sum_disk)) = Ok sb /\
    sb_FeatureCompat sb = 1 /\ sb_BlkSizeBits sb = 9).
  { eexists. split; [vm_compute; reflexivity|]. split; reflexivity. }
  destruct S as (sb & H & F & B).
  destruct (checksum_catches_byte (take 1200 sum_disk) x00 x80 (drop 1201 sum_disk) sb ltac:(discriminate) H) as [W _].
  - rewrite F. discriminate.
  - rewrite B. split; [by vm_compute|vm_compute; reflexivity].
  - destruct W as [e W]; [by vm_compute|]. exists e. apply W.
Defined.
