(* ===== verification/Contents.v ===== *)
(** * A file is a byte string

    The reads of [file] ([erofs.go]) against the abstract file: its content and
    an offset.  When every block of an inode loads as a piece of the content,
    [Read], [readAll], [ReadFile] and [WriteTo] hand out the content, whichever
    of the direct and the block path serves them. *)

From S2P Require Import Prelude Machine Disk Format Image Inode Data Reading Dir Path.

(** The inode [ino] serves [data]: its size, and every block from any position. *)
Record serves (img : image) (ino : inode) (data : bytes) : Prop := {
  sv_size : ino_size ino = zlen data;
  sv_block pos : 0 <= pos < zlen data ->
    loadBlock img ino pos = Ok (sub data (Z.to_nat pos) (Z.to_nat (block_span img ino pos)));
}.

(** A reader of a fixed content that answers no [io.EOF] with a full read. *)
Record settled (r : ReaderAt) : Prop := {
  se_backed : exists c, Backed r c;
  se_full off n : 0 <= off -> 0 < n -> zlen (ReadAt r off n).1 = n -> (ReadAt r off n).2 = None;
}.

(** The image is as [Open] leaves it and its readers are settled. *)
Record steady (img : image) : Prop := {
  sd_wf : image_wf img;
  sd_mapping : mapping_ok img;
  sd_meta : settled (img_meta img);
  sd_devices : Forall (fun d => settled (dev_device d)) (img_devices img);
}.

Lemma bytes_reader_settled c : settled (bytes_reader c).
Proof. split; [exists c; apply _|]. exact (bytes_reader_full c). Qed.

Lemma section_settled r base n : settled r -> 0 <= base -> 0 <= n -> base + n <= MaxInt64 -> settled (NewSectionReader r base n).
Proof.
  intros [[c Hc] Hf] Hb Hn Hm. split; [eexists; by apply section_backed|]. intros off m Ho Hm0. unfold NewSectionReader. cbn [ReadAt].
  rewrite (proj2 (Z.leb_le base (MaxInt64 - n))), (proj2 (Z.ltb_ge off 0)) by lia. cbn [orb]. replace (base + n - base) with n by lia.
  destruct (Z.leb_spec n off); cbn [fst snd]; [change (zlen (@nil byte)) with 0; lia|].
  replace (base + n - (off + base)) with (n - off) by lia. destruct (Z.ltb_spec (n - off) m); [|apply Hf; lia].
  pose proof (backed_bytes (Backed := Hc) (off + base) (n - off) ltac:(lia) ltac:(lia)) as B.
  destruct (ReadAt r (off + base) (n - off)) as [b err]. cbn [fst snd] in *. subst b.
  pose proof (zlen_sub_le c (Z.to_nat (off + base)) (n - off)). lia.
Qed.

Lemma sub_ext {A} (a b : list A) i n : (0 < n)%nat -> sub a i n = sub b i n -> a !! i = b !! i.
Proof.
  intros Hn E. apply (f_equal (fun l => l !! 0%nat)) in E. unfold sub in E. rewrite !lookup_take_lt, !lookup_drop in E by lia.
  by rewrite Nat.add_0_r in E.
Qed.

Section Serve.
Context (img : image) (ino : inode) (data : bytes).
Context (Hst : steady img) (Hino : inode_wf img ino) (Hnid : is_u64 (ino_nid ino)) (Hsv : serves img ino data).

Lemma span_range pos : 0 <= pos < zlen data -> 0 < block_span img ino pos <= zlen data - pos.
Proof using Hst Hsv.
  intros Hp. pose proof (block_span_pos img ino pos (wf_bits _ (sd_wf _ Hst))) as B. rewrite (sv_size _ _ _ Hsv) in B.
  split; [by apply B|]. unfold block_span. rewrite (sv_size _ _ _ Hsv). lia.
Qed.

Lemma settled_reader dev r : deviceReader img dev = Ok r -> settled r.
Proof using Hst.
  pose proof (sd_meta _ Hst) as Hm. pose proof (sd_devices _ Hst) as Hd. unfold deviceReader. case_match; [intros [= <-]; done|].
  destruct (img_devices img !! _) as [d|] eqn:Ed; [|done]. case_match; [done|]. intros [= <-].
  exact (Forall_lookup_1 _ _ _ _ Hd Ed).
Qed.

(** What [openDirect] accepts is a section of a settled reader. *)
Lemma openDirect_settled sr : openDirect img ino = Ok (Some sr) -> settled sr.
Proof using Hst Hino.
  pose proof (sd_wf _ Hst) as Hwf. unfold openDirect. destruct (Z.leb_spec (ino_size ino) 0) as [|Hpos]; [done|].
  assert (X : forall dev off r, 0 <= off /\ off + ino_size ino <= MaxInt64 -> deviceReader img dev = Ok r ->
    settled (NewSectionReader r off (ino_size ino))).
  { intros dev off r [E1 E2] Hr. apply section_settled; [by apply (settled_reader dev)|lia..]. }
  case_match; [|case_match; [|case_match; [|done]]].
  - unfold openDirect_plain. case_match; [done|]. destruct (locateStart img ino (ino_size ino)) as [[dev off]| |] eqn:El; try done.
    destruct (deviceReader img dev) as [r| |] eqn:Er; try done. intros [= <-]. apply (X dev off r); [|done].
    destruct (locateStart_extent img ino _ dev off Hwf Hpos El) as (? & ? & _). done.
  - unfold openDirect_inline. case_match; [done|]. case_match; [done|]. destruct (checkImageRange img _ _) as [[]| |] eqn:Ec; try done.
    intros [= <-]. apply (X 0 _ (img_meta img)); [|done]. by destruct (inline_extent img _ _ Hwf Ec) as (? & ? & _).
  - unfold openDirect_chunk. do 3 (case_match; try done). destruct (ReadAt (img_meta img) _ _) as [idx err]. destruct err; [done|].
    destruct (direct_chunks _ _ _ _ _ _ _) as [[sb did]|]; [|done]. destruct (chunkAddr img sb) as [pa| |]; try done.
    destruct (locate img did pa) as [[dev off]| |]; try done. destruct (boundOnDevice img dev off (ino_size ino)) as [[]| |] eqn:Eb; try done.
    destruct (deviceReader img dev) as [r| |] eqn:Er; try done. intros [= <-]. apply (X dev off r); [|done].
    pose proof (boundOnDevice_range img dev off _ Eb). lia.
Qed.

(** The direct reader reads the content. *)
Lemma direct_content sr : openDirect img ino = Ok (Some sr) -> exists c, Backed sr c /\ take (length data) c = data.
Proof using Hst Hino Hnid Hsv.
  intros Ho. destruct (se_backed _ (openDirect_settled sr Ho)) as [c Hc]. exists c. split; [done|].
  destruct (se_backed _ (sd_meta _ Hst)) as [cm Hcm].
  assert (H : forall i, (i < length data)%nat -> c !! i = data !! i).
  { intros i Hi. assert (Hp : 0 <= Z.of_nat i < zlen data) by (unfold zlen; lia). pose proof (span_range _ Hp) as Sp.
    pose proof (openDirect_reads img ino cm sr (Z.of_nat i) (sd_wf _ Hst) (sd_mapping _ Hst) Hino Hnid Hcm (se_full _ (sd_meta _ Hst)) Ho) as R.
    rewrite (sv_size _ _ _ Hsv) in R. specialize (R Hp). rewrite (sv_block _ _ _ Hsv _ Hp) in R. unfold read_exact in R.
    pose proof (backed_bytes (Backed := Hc) (Z.of_nat i) (block_span img ino (Z.of_nat i)) ltac:(lia) ltac:(lia)) as B.
    destruct (ReadAt sr _ _) as [b err]. cbn [fst] in B. subst b. case_match; [|by repeat case_match]. apply Ok_inj in R. rewrite Nat2Z.id in R.
    symmetry. apply (sub_ext _ _ _ (Z.to_nat (block_span img ino (Z.of_nat i)))); [lia|done]. }
  apply list_eq. intros i. destruct (decide (i < length data)%nat) as [Hi|Hi].
  - rewrite lookup_take_lt by lia. by apply H.
  - rewrite lookup_take_ge by lia. symmetry. apply lookup_ge_None. lia.
Qed.

Lemma direct_read sr off k : openDirect img ino = Ok (Some sr) -> 0 <= off -> 0 <= k -> off + k <= zlen data ->
  exists err, ReadAt sr off k = (sub data (Z.to_nat off) (Z.to_nat k), err) /\ (err = None \/ err = Some EOF) /\ (0 < k -> err = None).
Proof using Hst Hino Hnid Hsv.
  intros Ho H0 Hk Hle. destruct (direct_content sr Ho) as (c & Hc & Ec).
  pose proof (backed_bytes (Backed := Hc) off k H0 Hk) as B.
  pose proof (backed_err (Backed := Hc) off k H0 Hk) as Be. pose proof (se_full _ (openDirect_settled sr Ho) off k H0) as F.
  assert (E : sub c (Z.to_nat off) (Z.to_nat k) = sub data (Z.to_nat off) (Z.to_nat k)).
  { rewrite <- Ec. unfold sub. rewrite skipn_firstn_comm, take_take. f_equal. unfold zlen in Hle. lia. }
  destruct (ReadAt sr off k) as [b err]. cbn [fst snd] in *. subst b. rewrite E in *. exists err. split; [done|]. split; [done|].
  intros Hp. apply F; [done|]. rewrite zlen_sub by lia. lia.
Qed.

(** The [io.Copy] of the direct reader moves the rest of the content. *)
Lemma copy_section_serves sr fuel : forall off acc, openDirect img ino = Ok (Some sr) -> 0 <= off <= zlen data -> zlen data - off <= Z.of_nat fuel ->
  copy_section fuel sr off (zlen data) acc = Ok (mkRead (acc ++ drop (Z.to_nat off) data) None).
Proof using Hst Hino Hnid Hsv.
  induction fuel as [|fuel IH]; intros off acc Hd Ho Hf; cbn [copy_section].
  - rewrite (proj2 (Z.leb_le _ off)) by lia. rewrite drop_ge by (unfold zlen in *; lia). by rewrite app_nil_r.
  - destruct (Z.leb_spec (zlen data) off) as [Hz|Hz]; [rewrite drop_ge by (unfold zlen in *; lia); by rewrite app_nil_r|].
    set (k := Z.min 32768 _). destruct (direct_read sr off k Hd) as (err & -> & _ & He); [lia..|]. rewrite He by lia. rewrite zlen_sub by lia. replace (Z.max 0 _) with k by lia.
    rewrite IH by (done || lia). rewrite <- app_assoc. do 3 f_equal. unfold sub.
    rewrite <- (take_drop (Z.to_nat k) (drop (Z.to_nat off) data)) at 2. rewrite drop_drop. do 2 f_equal. lia.
Qed.

(** So does the block loop of [WriteTo]. *)
Lemma write_blocks_serves fuel : forall off acc, 0 <= off <= zlen data -> zlen data - off <= Z.of_nat fuel ->
  write_blocks fuel img ino off acc = Ok (mkRead (acc ++ drop (Z.to_nat off) data) None, zlen data).
Proof using Hst Hsv.
  induction fuel as [|fuel IH]; intros off acc Ho Hf; cbn [write_blocks]; rewrite (sv_size _ _ _ Hsv).
  - rewrite (proj2 (Z.leb_le _ off)) by lia. rewrite drop_ge by (unfold zlen in *; lia). rewrite app_nil_r. do 2 f_equal. lia.
  - destruct (Z.leb_spec (zlen data) off) as [Hz|Hz]; [rewrite drop_ge by (unfold zlen in *; lia); rewrite app_nil_r; do 2 f_equal; lia|].
    pose proof (span_range off ltac:(lia)) as Sp. rewrite (sv_block _ _ _ Hsv) by lia. set (k := block_span img ino off) in *.
    rewrite zlen_sub by lia. replace (Z.max 0 _) with k by lia. rewrite IH by lia. rewrite <- app_assoc. do 4 f_equal. unfold sub.
    rewrite <- (take_drop (Z.to_nat k) (drop (Z.to_nat off) data)) at 2. rewrite drop_drop. do 2 f_equal. lia.
Qed.

(** The block loop reads the content from the offset on. *)
Lemma read_blocks_serves fuel : forall off n acc, 0 <= off <= zlen data -> 0 <= n <= Z.of_nat fuel ->
  read_blocks fuel img ino off n acc =
    Ok (mkRead (acc ++ sub data (Z.to_nat off) (Z.to_nat n)) (if n <=? zlen data - off then None else Some EOF),
        off + Z.min n (zlen data - off)).
Proof using Hst Hsv.
  induction fuel as [|fuel IH]; intros off n acc Ho Hn; cbn [read_blocks]; rewrite (sv_size _ _ _ Hsv).
  - replace n with 0 by lia. change (0 <=? 0) with true. cbv iota. change (Z.to_nat 0) with 0%nat.
    rewrite (proj2 (Z.leb_le 0 _)) by lia. unfold sub. rewrite take_0, app_nil_r. do 2 f_equal. lia.
  - destruct (Z.leb_spec n 0) as [Hz|Hz].
    { replace n with 0 by lia. change (Z.to_nat 0) with 0%nat.
      rewrite (proj2 (Z.leb_le 0 _)) by lia. unfold sub. rewrite take_0, app_nil_r. do 2 f_equal. lia. }
    destruct (Z.leb_spec (zlen data) off) as [He|He].
    { rewrite (proj2 (Z.leb_gt n _)) by lia. replace (sub data (Z.to_nat off) (Z.to_nat n)) with (@nil byte).
      - rewrite app_nil_r. do 2 f_equal. lia.
      - unfold sub. rewrite drop_ge by (unfold zlen in *; lia). by rewrite take_nil. }
    pose proof (span_range off ltac:(lia)) as Sp. rewrite (sv_block _ _ _ Hsv) by lia. set (k := block_span img ino off) in *.
    assert (Ec : take (Z.to_nat n) (sub data (Z.to_nat off) (Z.to_nat k)) = sub data (Z.to_nat off) (Z.to_nat (Z.min n k))).
    { unfold sub. rewrite take_take. f_equal. lia. }
    rewrite Ec, zlen_sub by lia. replace (Z.max 0 _) with (Z.min n k) by lia. rewrite IH by lia. rewrite <- app_assoc.
    rewrite (sub_split data (Z.to_nat off) (Z.to_nat n) (Z.to_nat (Z.min n k))) by lia.
    replace (Z.to_nat off + Z.to_nat (Z.min n k))%nat with (Z.to_nat (off + Z.min n k)) by lia.
    replace (Z.to_nat n - Z.to_nat (Z.min n k))%nat with (Z.to_nat (n - Z.min n k)) by lia.
    replace (n - Z.min n k <=? zlen data - (off + Z.min n k)) with (n <=? zlen data - off) by (apply eq_true_iff_eq; rewrite !Z.leb_le; lia).
    do 2 f_equal. lia.
Qed.

(** An open file of the inode. *)
Definition file_of (f : file) : Prop := file_wf img f /\ (exists f', readInfo img f = (Ok ino, f')) /\ f_offset f <= zlen data.

Lemma file_info f : file_of f -> readInfo img f = (Ok ino, with_info f (Some ino)) /\ file_wf img (with_info f (Some ino)).
Proof using Type.
  intros (Hf & (f' & E) & _). destruct (readInfo_cases img f Hf) as [(e & ? & E' & _)|(fi & E' & _ & Hw)]; rewrite E in E'; [done|].
  injection E' as <- ->. done.
Qed.

Lemma file_of_offset f o : file_wf img f -> f_info f = Some ino -> 0 <= o <= zlen data -> file_of (with_offset f o).
Proof using Type.
  intros Hf Hi Ho. split; [apply file_wf_offset; [done|lia]|]. split; [|cbn; lia]. exists (with_offset f o). unfold readInfo. cbn. by rewrite Hi.
Qed.

(** What is left of the content at the offset, at most [n] bytes of it. *)
Definition next (f : file) (n : Z) : bytes := sub data (Z.to_nat (f_offset f)) (Z.to_nat n).

Lemma Read_serves f n : file_of f -> 0 <= n ->
  exists err f', Read img f n = Ok (mkRead (next f n) err, f') /\ file_of f' /\ f_offset f' = f_offset f + zlen (next f n) /\
    (err = None \/ err = Some EOF /\ f_offset f' = zlen data) /\ (0 < n <= zlen data - f_offset f -> err = None) /\
    (0 < n -> f_offset f = zlen data -> err = Some EOF).
Proof using Hst Hino Hnid Hsv.
  intros Hf Hn. destruct (file_info f Hf) as [Hi Hw]. pose proof (fwf_offset _ _ Hw) as H0. cbn in H0. destruct Hf as (_ & _ & Hle).
  unfold next. rewrite zlen_sub by lia. set (m := Z.min n (zlen data - f_offset f)). replace (Z.max 0 _) with m by lia.
  unfold Read. rewrite Hi. destruct (directReader_cases img _ ino (sd_wf _ Hst) Hw eq_refl) as (sr & f' & -> & Ho & Hf' & Eo & Ei & _).
  cbn in Eo. rewrite Eo. destruct sr as [sr|].
  - rewrite (sv_size _ _ _ Hsv). destruct (Z.leb_spec (zlen data) (f_offset f)) as [He|He].
    { exists (Some EOF), f'. assert (m = 0) as E0 by lia. rewrite E0. replace (sub data _ _) with (@nil byte)
        by (unfold sub; rewrite drop_ge by (unfold zlen in *; lia); by rewrite take_nil). split; [done|].
      split; [|split; [lia|split; [right; split; [done|lia]|split; [lia|done]]]]. split; [done|]. split; [|lia]. exists f'. unfold readInfo. by rewrite Ei. }
    fold m. destruct (direct_read sr (f_offset f) m Ho) as (err & -> & Hr & _); [lia..|]. rewrite zlen_sub by lia. replace (Z.max 0 _) with m by lia.
    rewrite Z.eqb_refl. exists None, (with_offset f' (f_offset f + m)). 
    assert (En : sub data (Z.to_nat (f_offset f)) (Z.to_nat n) = sub data (Z.to_nat (f_offset f)) (Z.to_nat m)).
    { unfold m. destruct (Z.le_gt_cases n (zlen data - f_offset f)); [by rewrite Z.min_l by lia|]. rewrite Z.min_r by lia.
      unfold sub. rewrite !take_ge by (rewrite length_drop; unfold zlen in *; lia). done. }
    rewrite En. split; [by destruct Hr as [-> | ->]|]. split; [apply file_of_offset; [done|done|lia]|]. split; [done|]. split; [by left|split; [done|lia]].
  - rewrite read_blocks_serves by lia. rewrite app_nil_l. fold m. eexists _, _. split; [reflexivity|].
    split; [apply file_of_offset; [done|done|lia]|]. split; [done|]. cbn [f_offset with_offset]. destruct (Z.leb_spec n (zlen data - f_offset f)).
    + split; [by left|split; [done|lia]].
    + split; [right; split; [done|lia]|split; [lia|done]].
Qed.

(** [io.ReadFull] of no more than is left reads it all. *)
Lemma ReadFull_serves n : forall fuel f acc, file_of f -> zlen acc <= n -> n - zlen acc <= zlen data - f_offset f -> n - zlen acc <= Z.of_nat fuel ->
  exists f', ReadFull fuel img f n acc = Ok (mkRead (acc ++ next f (n - zlen acc)) None, f') /\ file_of f' /\ f_offset f' = f_offset f + (n - zlen acc).
Proof using Hst Hino Hnid Hsv.
  induction fuel as [|fuel IH]; intros f acc Hf Ha Hl Hn; cbn [ReadFull].
  - rewrite (proj2 (Z.leb_le n _)) by lia. replace (n - zlen acc) with 0 by lia. unfold next, sub. change (Z.to_nat 0) with 0%nat.
    rewrite take_0, app_nil_r. exists f. split; [done|]. split; [done|lia].
  - destruct (Z.leb_spec n (zlen acc)) as [Hz|Hz].
    { replace (n - zlen acc) with 0 by lia. unfold next, sub. change (Z.to_nat 0) with 0%nat.
      rewrite take_0, app_nil_r. exists f. split; [done|]. split; [done|lia]. }
    destruct (Read_serves f (n - zlen acc) Hf ltac:(lia)) as (err & f' & -> & Hf' & Eo & _ & He & _). rewrite He by lia. cbn [rd_data rd_err].
    pose proof (fwf_offset _ _ (proj1 Hf)) as H0.
    assert (Ln : zlen (next f (n - zlen acc)) = n - zlen acc) by (unfold next; rewrite zlen_sub by lia; lia).
    destruct (IH f' (acc ++ next f (n - zlen acc)) Hf') as (f2 & -> & F1 & F2); rewrite ?zlen_app, ?Ln; [lia..|].
    exists f2. replace (n - (zlen acc + (n - zlen acc))) with 0 by lia. unfold next at 2. unfold sub at 1. change (Z.to_nat 0) with 0%nat.
    rewrite take_0, app_nil_r. split; [done|]. split; [done|]. rewrite F2, zlen_app, Eo, Ln. lia.
Qed.

Lemma readAll_serves f : file_of f -> f_offset f = 0 -> readAll img f (ino_size ino) = Ok data.
Proof using Hst Hino Hnid Hsv.
  intros Hf H0. rewrite (sv_size _ _ _ Hsv). unfold readAll. pose proof (zlen_nonneg data). destruct (Z.eqb_spec (zlen data) 0) as [E|E].
  { f_equal. symmetry. apply nil_length_inv. unfold zlen in E. lia. }
  destruct (ReadFull_serves (zlen data) (Z.to_nat (zlen data)) f [] Hf) as (f' & -> & _); [change (zlen (@nil byte)) with 0; lia..|].
  cbn [rd_err rd_data]. rewrite app_nil_l. unfold next. rewrite H0. change (zlen (@nil byte)) with 0. rewrite Z.sub_0_r.
  f_equal. change (Z.to_nat 0) with 0%nat. apply sub_all. unfold zlen. lia.
Qed.

(** [WriteTo] hands out all that is left. *)
Lemma WriteTo_serves f : file_of f ->
  exists f', WriteTo img f = Ok (mkRead (drop (Z.to_nat (f_offset f)) data) None, f') /\ file_of f' /\ f_offset f' = zlen data.
Proof using Hst Hino Hnid Hsv.
  intros Hf. destruct (file_info f Hf) as [Hi Hw]. pose proof (fwf_offset _ _ Hw) as H0. cbn in H0. destruct Hf as (_ & _ & Hle).
  unfold WriteTo. rewrite Hi, (sv_size _ _ _ Hsv). cbn [f_offset with_info].
  destruct (Z.leb_spec (zlen data) (f_offset f)) as [He|He].
  { rewrite drop_ge by (unfold zlen in *; lia). eexists. split; [done|]. split; [|cbn; lia]. split; [done|]. split; [|cbn; lia].
    eexists. reflexivity. }
  destruct (directReader_cases img _ ino (sd_wf _ Hst) Hw eq_refl) as (sr & f' & -> & Ho & Hf' & Eo & Ei & _). cbn in Eo. rewrite Eo.
  destruct sr as [sr|].
  - rewrite (copy_section_serves sr _ _ _ Ho) by lia. cbn [rd_data]. rewrite app_nil_l. eexists. split; [reflexivity|].
    assert (E : f_offset f + zlen (drop (Z.to_nat (f_offset f)) data) = zlen data) by (unfold zlen in *; rewrite length_drop; lia).
    rewrite E. split; [apply file_of_offset; [done|done|lia]|done].
  - rewrite write_blocks_serves by lia. rewrite app_nil_l. eexists. split; [reflexivity|]. split; [apply file_of_offset; [done|done|lia]|done].
Qed.

End Serve.

(** ** The abstract file *)

(** The calls that read an open file. *)
Inductive read_call := RRead (n : Z) | RWriteTo.

Definition do_call (img : image) (f : file) (c : read_call) : res (read_result * file) :=
  match c with RRead n => Read img f n | RWriteTo => WriteTo img f end.

Fixpoint do_calls (img : image) (f : file) (cs : list read_call) : res (list read_result * file) :=
  match cs with
  | [] => Ok ([], f)
  | c :: cs => let! (r, f) := do_call img f c in let! (rs, f) := do_calls img f cs in Ok (r :: rs, f)
  end.

(** What [io.Reader] and [io.WriterTo] promise of a content read from [off]: the
    bytes handed out are the next ones, as many as asked for or left; [io.EOF]
    comes with the last byte or after it, always when there is nothing left to
    fill the buffer with, and is the only error. *)
Inductive file_step (data : bytes) (off : Z) : read_call -> read_result -> Z -> Prop :=
| step_read n err :
    let out := sub data (Z.to_nat off) (Z.to_nat n) in
    err = None \/ err = Some EOF /\ off + zlen out = zlen data ->
    (0 < n <= zlen data - off -> err = None) -> (0 < n -> off = zlen data -> err = Some EOF) ->
    file_step data off (RRead n) (mkRead out err) (off + zlen out)
| step_writeTo : file_step data off RWriteTo (mkRead (drop (Z.to_nat off) data) None) (zlen data).

Inductive file_steps (data : bytes) : Z -> list read_call -> list read_result -> Z -> Prop :=
| steps_nil off : file_steps data off [] [] off
| steps_cons off c cs r rs off' off'' :
    file_step data off c r off' -> file_steps data off' cs rs off'' -> file_steps data off (c :: cs) (r :: rs) off''.

Definition call_ok (c : read_call) : Prop := match c with RRead n => 0 <= n | RWriteTo => True end.

(** The pieces a run hands out are consecutive: together they are the content
    between the two offsets. *)
Lemma file_steps_consecutive data : forall cs off rs off', Forall call_ok cs -> 0 <= off <= zlen data ->
  file_steps data off cs rs off' ->
  off <= off' <= zlen data /\ concat (map rd_data rs) = sub data (Z.to_nat off) (Z.to_nat (off' - off)).
Proof.
  induction cs as [|c cs IH]; intros off rs off' Hc Ho H; inversion H as [|? ? ? r rs' o ? Hs Hss]; subst; clear H.
  { rewrite Z.sub_diag. unfold sub. rewrite take_0. split; [lia|done]. }
  apply Forall_cons in Hc as [Hc Hcs].
  assert (E : off <= o <= zlen data /\ rd_data r = sub data (Z.to_nat off) (Z.to_nat (o - off))).
  { inversion Hs as [n err out He1 He2 He3|]; subst; cbn [rd_data].
    - unfold out in *. cbn in Hc. rewrite zlen_sub by lia. split; [lia|]. unfold sub.
      destruct (Z.le_gt_cases n (zlen data - off)); [f_equal; lia|]. rewrite !take_ge by (rewrite length_drop; unfold zlen in *; lia). done.
    - split; [lia|]. unfold sub. rewrite take_ge by (rewrite length_drop; unfold zlen in *; lia). done. }
  destruct E as [Ho' Er]. destruct (IH o rs' off' Hcs ltac:(lia) Hss) as [H1 H2]. split; [lia|]. cbn [map concat]. rewrite Er, H2.
  rewrite (sub_split data (Z.to_nat off) (Z.to_nat (off' - off)) (Z.to_nat (o - off))) by lia. f_equal. f_equal; lia.
Qed.

Lemma do_calls_serves img ino data cs : steady img -> inode_wf img ino -> is_u64 (ino_nid ino) -> serves img ino data -> Forall call_ok cs ->
  forall f, file_of img ino data f ->
  exists rs f', do_calls img f cs = Ok (rs, f') /\ file_of img ino data f' /\ file_steps data (f_offset f) cs rs (f_offset f').
Proof.
  intros Hst Hino Hnid Hsv Hcs. induction Hcs as [|c cs Hc _ IH]; intros f Hf; cbn [do_calls]; [exists [], f; split; [done|]; split; [done|constructor]|].
  assert (X : exists r f', do_call img f c = Ok (r, f') /\ file_of img ino data f' /\ file_step data (f_offset f) c r (f_offset f')).
  { destruct c as [n|]; cbn [do_call].
    - destruct (Read_serves img ino data Hst Hino Hnid Hsv f n Hf Hc) as (err & f' & -> & Hf' & Eo & He1 & He2 & He3).
      rewrite Eo in He1. eexists _, f'. split; [reflexivity|]. split; [done|]. rewrite Eo. exact (step_read data (f_offset f) n err He1 He2 He3).
    - destruct (WriteTo_serves img ino data Hst Hino Hnid Hsv f Hf) as (f' & -> & Hf' & Eo). eexists _, f'. split; [reflexivity|].
      split; [done|]. rewrite Eo. constructor. }
  destruct X as (r & f1 & -> & Hf1 & Hs). destruct (IH f1 Hf1) as (rs & f2 & -> & Hf2 & Hss). eexists (r :: rs), f2.
  split; [reflexivity|]. split; [done|]. by econstructor.
Qed.

(** A file the direct path accepts serves what the direct reader holds. *)
Lemma direct_serves img ino sr c : image_wf img -> mapping_ok img -> settled (img_meta img) -> inode_wf img ino -> is_u64 (ino_nid ino) ->
  openDirect img ino = Ok (Some sr) -> Backed sr c -> ino_size ino <= zlen c -> serves img ino (take (Z.to_nat (ino_size ino)) c).
Proof.
  intros Hwf Hmap [[cm Hcm] Hfull] Hino Hnid Ho Hc Hle. pose proof (wf_isize _ _ Hino) as Hz.
  assert (Ez : ino_size ino = zlen (take (Z.to_nat (ino_size ino)) c)) by (unfold zlen in *; rewrite length_take; lia).
  split; [done|]. intros pos Hp. rewrite <- Ez in Hp.
  rewrite (openDirect_reads img ino cm sr pos Hwf Hmap Hino Hnid Hcm Hfull Ho Hp).
  pose proof (block_span_pos img ino pos (wf_bits _ Hwf) Hp) as Sp.
  assert (Sl : block_span img ino pos <= ino_size ino - pos) by (unfold block_span; lia).
  unfold read_exact. pose proof (backed_bytes (Backed := Hc) pos (block_span img ino pos) ltac:(lia) ltac:(lia)) as B.
  destruct (ReadAt sr pos (block_span img ino pos)) as [b err]. cbn [fst] in B. subst b. rewrite zlen_sub by lia.
  replace (Z.max 0 _) with (block_span img ino pos) by lia. rewrite Z.eqb_refl. f_equal. unfold sub. rewrite skipn_firstn_comm, take_take.
  f_equal. lia.
Qed.

(** A file that has just read its inode. *)
Lemma fresh_file_of img name nid ft ino data : inode_wf img ino -> FileMode_Type (ino_mode ino) = ft ->
  file_of img ino data (with_info (new_file name nid ft) (Some ino)).
Proof.
  intros Hino Hft. pose proof (new_file_wf img name nid ft) as [W1 W2 W3]. split; [|split; [by eexists|apply zlen_nonneg]].
  split; [|done|done]. cbn. intros i [= <-]. done.
Qed.

(** [image.ReadFile] answers the content of the file the name resolves to. *)
Lemma ReadFile_serves img name nid ft base ino data : steady img -> is_u64 nid -> resolve img name true = Ok (nid, ft, base) ->
  FileMode_IsDir ft = false -> readInfo_fresh img base nid ft = Ok ino -> serves img ino data -> zlen data <= maxReadFileSize ->
  ReadFile img name = Ok data.
Proof.
  intros Hst Hn Hr Hd Hi Hsv Hle. destruct (readInfo_fresh_facts _ _ _ _ _ Hi) as (Hino & Hid & Hft). unfold ReadFile. rewrite Hr.
  cbn beta iota. rewrite Hd. rewrite (readInfo_of_fresh img (new_file base nid ft) _ eq_refl Hi). rewrite (sv_size _ _ _ Hsv).
  pose proof (zlen_nonneg data). rewrite (proj2 (Z.ltb_ge (zlen data) 0)), (proj2 (Z.ltb_ge maxReadFileSize _)) by lia. cbn [orb].
  rewrite <- (sv_size _ _ _ Hsv). apply (readAll_serves img ino data Hst Hino ltac:(by rewrite Hid) Hsv); [|done].
  by apply fresh_file_of.
Qed.

(** [linkTarget] answers the content of the symlink. *)
Lemma linkTarget_serves img name nid ino data : steady img -> is_u64 nid -> readInfo_fresh img name nid ModeSymlink = Ok ino -> serves img ino data ->
  data <> [] -> (x00 ∉ data) -> zlen data <= maxSymlinkSize -> linkTarget img nid name = Ok data.
Proof.
  intros Hst Hn Hi Hsv Hne H0 Hle. destruct (readInfo_fresh_facts _ _ _ _ _ Hi) as (Hino & Hid & Hft). unfold linkTarget.
  rewrite (readInfo_of_fresh img (new_file name nid ModeSymlink) _ eq_refl Hi). rewrite (sv_size _ _ _ Hsv).
  assert (0 < zlen data) by (destruct data; [done|rewrite zlen_cons; pose proof (zlen_nonneg data); lia]).
  rewrite (proj2 (Z.eqb_neq (zlen data) 0)), (proj2 (Z.ltb_ge (zlen data) 0)), (proj2 (Z.ltb_ge maxSymlinkSize _)) by lia. cbn [orb].
  rewrite <- (sv_size _ _ _ Hsv). rewrite (readAll_serves img ino data Hst Hino ltac:(by rewrite Hid) Hsv).
  - destruct (IndexByte_spec data x00) as [[-> _]|(_ & Hx & _)]; [done|]. by apply list_elem_of_lookup_2 in Hx.
  - by apply fresh_file_of.
  - done.
Qed.


(** A file of 5000 bytes at block 2 of [example_img]'s geometry, with letters on
    the border of its two blocks. *)
Definition content_bytes : bytes :=
  put32 (Z.to_nat 12286) 0x64636261 (put32 (Z.to_nat 4112) 2 (put32 (Z.to_nat 4104) 5000 (put16 (Z.to_nat 4100) 0x81A4 (zeros (Z.to_nat 16384))))).

Definition content_img : image :=
  {| img_sb := example_sb; img_size := 16384; img_meta := bytes_reader content_bytes;
     img_devices := img_devices example_img; img_deviceIDMask := 3; img_longPrefixes := [] |}.

Lemma content_img_steady : steady content_img.
Proof.
  destruct example_img_wf, example_mapping_ok. split.
  - by split.
  - by split.
  - apply bytes_reader_settled.
  - repeat constructor; apply bytes_reader_settled.
Qed.

Definition content_data : bytes := sub content_bytes (Z.to_nat 8192) (Z.to_nat 5000).

Lemma content_serves : exists ino, readInfo_fresh content_img (bs "f") 0 0 = Ok ino /\ serves content_img ino content_data.
Proof.
  assert (X : exists ino, readInfo_fresh content_img (bs "f") 0 0 = Ok ino /\ ino_size ino = 5000 /\ ino_nid ino = 0 /\
    openDirect content_img ino = Ok (Some (NewSectionReader (img_meta content_img) 8192 5000))).
  { eexists. split; [vm_compute; reflexivity|]. repeat split. }
  destruct X as (ino & Hi & Ez & En & Ed). exists ino. split; [done|]. destruct (readInfo_fresh_facts _ _ _ _ _ Hi) as (Hino & _ & _).
  assert (Hb : Backed (NewSectionReader (img_meta content_img) 8192 5000) content_data).
  { unfold content_data. apply (section_backed _ content_bytes 8192 5000); [apply bytes_reader_backed|by vm_compute..]. }
  assert (Hn : is_u64 (ino_nid ino)) by (rewrite En; split; reflexivity || discriminate).
  assert (Hl : length content_data = Z.to_nat 5000) by (vm_compute; reflexivity).
  assert (Hz : zlen content_data = 5000) by (unfold zlen; rewrite Hl; reflexivity).
  destruct content_img_steady as [Cw Cm Cr _]. pose proof (direct_serves content_img ino _ content_data Cw Cm Cr Hino Hn Ed Hb) as S. rewrite Ez, Hz in S.
  rewrite take_ge in S by (rewrite Hl; lia). apply S. lia.
Qed.

