(* ===== verification/Layout.v ===== *)
(** * Layout planning

    The entry tree of the writer ([erofsEntry] of src/mkfs.go, [Chunk] of
    src/internal/builder/entry.go), the sizes an entry takes on disk, and
    [planLayout] of src/layout.go with [fixParentNids] of src/mkfs.go.

    Entries are shared objects: a directory points at its children, a hardlink
    alias at the entry it names, and the passes over the tree update them in
    place.  They live in a store, a list of entries, and a pointer is an index
    into it; [Panic] is a nil dereference.

    An [int] counted up from lengths and bounded terms is a plain [Z]; where
    the code converts a 64-bit size to [int] the conversion is written out. *)

From S2P Require Import Prelude Machine Disk Format Image Inode.

(** ** Data *)

Definition NullPhysicalBlock : Z := 2 ^ 64 - 1.

Record Chunk := mkChunk { ch_PhysicalBlock : Z; ch_Count : Z; ch_DeviceID : Z }.

(** An [io.Reader] a file's content comes from: what copying at most [n] bytes
    out of it delivers, and the error that ends the copy early. *)
Record source := mkSource { copy_upto : Z -> bytes * option goerr }.

Class SourceLaws (s : source) : Prop := {
  copy_upto_len n : 0 <= n -> zlen (copy_upto s n).1 <= n;
}.

(** A reader over bytes held in memory. *)
Definition bytes_source (b : bytes) : source := mkSource (fun n => (take (Z.to_nat n) b, None)).

#[export] Instance bytes_source_laws b : SourceLaws (bytes_source b).
Proof. constructor. intros. cbn. unfold zlen. len. Qed.

Abbreviation ptr := nat (only parsing).

#[projections(primitive)] Record erofsEntry := mkEntry {
  e_mode : Z; e_uid : Z; e_gid : Z; e_mtime : Z;
  e_mtimeNs : Z; e_nlink : Z; e_size : Z; e_rdev : Z;
  e_name : bytes; e_path : bytes; e_children : list ptr; e_symTarget : bytes;
  e_chunks : list Chunk; e_contiguous : bool; e_chunkBits : Z; e_metadataOnly : bool;
  e_tail : bytes; e_tailBlkAddr : Z; e_data : option source; e_xattrs : gmap bytes bytes;
  e_aliasOf : option ptr; e_nid : Z; e_parentNid : Z; e_erofsFileType : Z;
  e_layout : Z; e_compact : bool; e_xattrSize : Z; e_chunkPad : Z;
  e_trailingSize : Z; e_direntSize : Z; e_dataBlkAddr : Z }.

Definition set_children (v : list ptr) (e : erofsEntry) : erofsEntry :=
  mkEntry (e_mode e) (e_uid e) (e_gid e) (e_mtime e) (e_mtimeNs e) (e_nlink e) (e_size e) (e_rdev e)
    (e_name e) (e_path e) v (e_symTarget e) (e_chunks e) (e_contiguous e) (e_chunkBits e)
    (e_metadataOnly e) (e_tail e) (e_tailBlkAddr e) (e_data e) (e_xattrs e) (e_aliasOf e) (e_nid e)
    (e_parentNid e) (e_erofsFileType e) (e_layout e) (e_compact e) (e_xattrSize e) (e_chunkPad e)
    (e_trailingSize e) (e_direntSize e) (e_dataBlkAddr e).
Definition set_chunks (v : list Chunk) (e : erofsEntry) : erofsEntry :=
  mkEntry (e_mode e) (e_uid e) (e_gid e) (e_mtime e) (e_mtimeNs e) (e_nlink e) (e_size e) (e_rdev e)
    (e_name e) (e_path e) (e_children e) (e_symTarget e) v (e_contiguous e) (e_chunkBits e)
    (e_metadataOnly e) (e_tail e) (e_tailBlkAddr e) (e_data e) (e_xattrs e) (e_aliasOf e) (e_nid e)
    (e_parentNid e) (e_erofsFileType e) (e_layout e) (e_compact e) (e_xattrSize e) (e_chunkPad e)
    (e_trailingSize e) (e_direntSize e) (e_dataBlkAddr e).
Definition set_chunkBits (v : Z) (e : erofsEntry) : erofsEntry :=
  mkEntry (e_mode e) (e_uid e) (e_gid e) (e_mtime e) (e_mtimeNs e) (e_nlink e) (e_size e) (e_rdev e)
    (e_name e) (e_path e) (e_children e) (e_symTarget e) (e_chunks e) (e_contiguous e) v
    (e_metadataOnly e) (e_tail e) (e_tailBlkAddr e) (e_data e) (e_xattrs e) (e_aliasOf e) (e_nid e)
    (e_parentNid e) (e_erofsFileType e) (e_layout e) (e_compact e) (e_xattrSize e) (e_chunkPad e)
    (e_trailingSize e) (e_direntSize e) (e_dataBlkAddr e).
Definition set_tailBlkAddr (v : Z) (e : erofsEntry) : erofsEntry :=
  mkEntry (e_mode e) (e_uid e) (e_gid e) (e_mtime e) (e_mtimeNs e) (e_nlink e) (e_size e) (e_rdev e)
    (e_name e) (e_path e) (e_children e) (e_symTarget e) (e_chunks e) (e_contiguous e) (e_chunkBits e)
    (e_metadataOnly e) (e_tail e) v (e_data e) (e_xattrs e) (e_aliasOf e) (e_nid e) (e_parentNid e)
    (e_erofsFileType e) (e_layout e) (e_compact e) (e_xattrSize e) (e_chunkPad e) (e_trailingSize e)
    (e_direntSize e) (e_dataBlkAddr e).
Definition set_nid (v : Z) (e : erofsEntry) : erofsEntry :=
  mkEntry (e_mode e) (e_uid e) (e_gid e) (e_mtime e) (e_mtimeNs e) (e_nlink e) (e_size e) (e_rdev e)
    (e_name e) (e_path e) (e_children e) (e_symTarget e) (e_chunks e) (e_contiguous e) (e_chunkBits e)
    (e_metadataOnly e) (e_tail e) (e_tailBlkAddr e) (e_data e) (e_xattrs e) (e_aliasOf e) v
    (e_parentNid e) (e_erofsFileType e) (e_layout e) (e_compact e) (e_xattrSize e) (e_chunkPad e)
    (e_trailingSize e) (e_direntSize e) (e_dataBlkAddr e).
Definition set_parentNid (v : Z) (e : erofsEntry) : erofsEntry :=
  mkEntry (e_mode e) (e_uid e) (e_gid e) (e_mtime e) (e_mtimeNs e) (e_nlink e) (e_size e) (e_rdev e)
    (e_name e) (e_path e) (e_children e) (e_symTarget e) (e_chunks e) (e_contiguous e) (e_chunkBits e)
    (e_metadataOnly e) (e_tail e) (e_tailBlkAddr e) (e_data e) (e_xattrs e) (e_aliasOf e) (e_nid e) v
    (e_erofsFileType e) (e_layout e) (e_compact e) (e_xattrSize e) (e_chunkPad e) (e_trailingSize e)
    (e_direntSize e) (e_dataBlkAddr e).
Definition set_erofsFileType (v : Z) (e : erofsEntry) : erofsEntry :=
  mkEntry (e_mode e) (e_uid e) (e_gid e) (e_mtime e) (e_mtimeNs e) (e_nlink e) (e_size e) (e_rdev e)
    (e_name e) (e_path e) (e_children e) (e_symTarget e) (e_chunks e) (e_contiguous e) (e_chunkBits e)
    (e_metadataOnly e) (e_tail e) (e_tailBlkAddr e) (e_data e) (e_xattrs e) (e_aliasOf e) (e_nid e)
    (e_parentNid e) v (e_layout e) (e_compact e) (e_xattrSize e) (e_chunkPad e) (e_trailingSize e)
    (e_direntSize e) (e_dataBlkAddr e).
Definition set_layout (v : Z) (e : erofsEntry) : erofsEntry :=
  mkEntry (e_mode e) (e_uid e) (e_gid e) (e_mtime e) (e_mtimeNs e) (e_nlink e) (e_size e) (e_rdev e)
    (e_name e) (e_path e) (e_children e) (e_symTarget e) (e_chunks e) (e_contiguous e) (e_chunkBits e)
    (e_metadataOnly e) (e_tail e) (e_tailBlkAddr e) (e_data e) (e_xattrs e) (e_aliasOf e) (e_nid e)
    (e_parentNid e) (e_erofsFileType e) v (e_compact e) (e_xattrSize e) (e_chunkPad e) (e_trailingSize e)
    (e_direntSize e) (e_dataBlkAddr e).
Definition set_compact (v : bool) (e : erofsEntry) : erofsEntry :=
  mkEntry (e_mode e) (e_uid e) (e_gid e) (e_mtime e) (e_mtimeNs e) (e_nlink e) (e_size e) (e_rdev e)
    (e_name e) (e_path e) (e_children e) (e_symTarget e) (e_chunks e) (e_contiguous e) (e_chunkBits e)
    (e_metadataOnly e) (e_tail e) (e_tailBlkAddr e) (e_data e) (e_xattrs e) (e_aliasOf e) (e_nid e)
    (e_parentNid e) (e_erofsFileType e) (e_layout e) v (e_xattrSize e) (e_chunkPad e) (e_trailingSize e)
    (e_direntSize e) (e_dataBlkAddr e).
Definition set_xattrSize (v : Z) (e : erofsEntry) : erofsEntry :=
  mkEntry (e_mode e) (e_uid e) (e_gid e) (e_mtime e) (e_mtimeNs e) (e_nlink e) (e_size e) (e_rdev e)
    (e_name e) (e_path e) (e_children e) (e_symTarget e) (e_chunks e) (e_contiguous e) (e_chunkBits e)
    (e_metadataOnly e) (e_tail e) (e_tailBlkAddr e) (e_data e) (e_xattrs e) (e_aliasOf e) (e_nid e)
    (e_parentNid e) (e_erofsFileType e) (e_layout e) (e_compact e) v (e_chunkPad e) (e_trailingSize e)
    (e_direntSize e) (e_dataBlkAddr e).
Definition set_chunkPad (v : Z) (e : erofsEntry) : erofsEntry :=
  mkEntry (e_mode e) (e_uid e) (e_gid e) (e_mtime e) (e_mtimeNs e) (e_nlink e) (e_size e) (e_rdev e)
    (e_name e) (e_path e) (e_children e) (e_symTarget e) (e_chunks e) (e_contiguous e) (e_chunkBits e)
    (e_metadataOnly e) (e_tail e) (e_tailBlkAddr e) (e_data e) (e_xattrs e) (e_aliasOf e) (e_nid e)
    (e_parentNid e) (e_erofsFileType e) (e_layout e) (e_compact e) (e_xattrSize e) v (e_trailingSize e)
    (e_direntSize e) (e_dataBlkAddr e).
Definition set_trailingSize (v : Z) (e : erofsEntry) : erofsEntry :=
  mkEntry (e_mode e) (e_uid e) (e_gid e) (e_mtime e) (e_mtimeNs e) (e_nlink e) (e_size e) (e_rdev e)
    (e_name e) (e_path e) (e_children e) (e_symTarget e) (e_chunks e) (e_contiguous e) (e_chunkBits e)
    (e_metadataOnly e) (e_tail e) (e_tailBlkAddr e) (e_data e) (e_xattrs e) (e_aliasOf e) (e_nid e)
    (e_parentNid e) (e_erofsFileType e) (e_layout e) (e_compact e) (e_xattrSize e) (e_chunkPad e) v
    (e_direntSize e) (e_dataBlkAddr e).
Definition set_direntSize (v : Z) (e : erofsEntry) : erofsEntry :=
  mkEntry (e_mode e) (e_uid e) (e_gid e) (e_mtime e) (e_mtimeNs e) (e_nlink e) (e_size e) (e_rdev e)
    (e_name e) (e_path e) (e_children e) (e_symTarget e) (e_chunks e) (e_contiguous e) (e_chunkBits e)
    (e_metadataOnly e) (e_tail e) (e_tailBlkAddr e) (e_data e) (e_xattrs e) (e_aliasOf e) (e_nid e)
    (e_parentNid e) (e_erofsFileType e) (e_layout e) (e_compact e) (e_xattrSize e) (e_chunkPad e)
    (e_trailingSize e) v (e_dataBlkAddr e).
Definition set_dataBlkAddr (v : Z) (e : erofsEntry) : erofsEntry :=
  mkEntry (e_mode e) (e_uid e) (e_gid e) (e_mtime e) (e_mtimeNs e) (e_nlink e) (e_size e) (e_rdev e)
    (e_name e) (e_path e) (e_children e) (e_symTarget e) (e_chunks e) (e_contiguous e) (e_chunkBits e)
    (e_metadataOnly e) (e_tail e) (e_tailBlkAddr e) (e_data e) (e_xattrs e) (e_aliasOf e) (e_nid e)
    (e_parentNid e) (e_erofsFileType e) (e_layout e) (e_compact e) (e_xattrSize e) (e_chunkPad e)
    (e_trailingSize e) (e_direntSize e) v.

Abbreviation store := (list erofsEntry) (only parsing).

(** [*p] and [*p = e]. *)
Definition deref (st : store) (p : ptr) : res erofsEntry :=
  match st !! p with Some e => Ok e | None => Panic end.

(** The writer: its settings and what planning and writing assign. *)
Record erofsWriter := mkWriter {
  w_blockSize : Z; w_noInlineData : bool; w_chunkBits : Z;
  w_buildTime : Z; w_buildTimeNs : Z; w_devices : list Z;
  w_entries : list ptr; w_rootNid : Z; w_metaBlkAddr : Z; w_totalInodes : Z }.

Definition with_plan (w : erofsWriter) (entries : list ptr) (rootNid : Z) : erofsWriter :=
  {| w_blockSize := w_blockSize w; w_noInlineData := w_noInlineData w; w_chunkBits := w_chunkBits w;
     w_buildTime := w_buildTime w; w_buildTimeNs := w_buildTimeNs w; w_devices := w_devices w;
     w_entries := entries; w_rootNid := rootNid; w_metaBlkAddr := w_metaBlkAddr w;
     w_totalInodes := zlen entries |}.

Definition with_metaBlkAddr (w : erofsWriter) (a : Z) : erofsWriter :=
  {| w_blockSize := w_blockSize w; w_noInlineData := w_noInlineData w; w_chunkBits := w_chunkBits w;
     w_buildTime := w_buildTime w; w_buildTimeNs := w_buildTimeNs w; w_devices := w_devices w;
     w_entries := w_entries w; w_rootNid := w_rootNid w; w_metaBlkAddr := a;
     w_totalInodes := w_totalInodes w |}.

Definition e_type (e : erofsEntry) : Z := Z.land (e_mode e) StatTypeMask.

(** ** Sizes (writer.go) *)

Definition inodeCoreSize (e : erofsEntry) : Z :=
  if e_compact e then SizeInodeCompact else SizeInodeExtended.

Definition inodeSlotAlign (size : Z) : Z := round_up_pow2 size SizeInodeSlot.

Definition entryChunkBits (w : erofsWriter) (e : erofsEntry) : Z :=
  if 0 <? e_chunkBits e then e_chunkBits e else w_chunkBits w.

Definition entryChunkSize (w : erofsWriter) (e : erofsEntry) : Z :=
  i64 (Z.shiftl (w_blockSize w) (entryChunkBits w e)).

Definition maxChunkIndexEntries : Z := Z.shiftl 1 27.

Definition chunkCount (w : erofsWriter) (e : erofsEntry) : Z :=
  let cs := u64 (entryChunkSize w e) in
  if cs =? 0 then 0 else
  let n := e_size e / cs in
  let n := if negb (e_size e mod cs =? 0) then n + 1 else n in
  if maxChunkIndexEntries <? n then maxChunkIndexEntries + 1 else n.

(** The loop of [minChunkBits]; it stops at 31 bits. *)
Fixpoint minChunkBits_from (fuel : nat) (blockSize size bits : Z) : Z :=
  match fuel with
  | O => bits
  | S fuel =>
      if (u64 (Z.shiftl blockSize bits) <? size) && (bits <? 31)
      then minChunkBits_from fuel blockSize size (bits + 1) else bits
  end.

Definition minChunkBits (w : erofsWriter) (size : Z) : Z :=
  minChunkBits_from 32 (w_blockSize w) size (w_chunkBits w).

(** ** Directory data (layout.go) *)

(** The names of a directory's children. *)
Definition child_names (st : store) (e : erofsEntry) : list bytes :=
  (fun c => default [] (e_name <$> st !! c)) <$> e_children e.

Definition direntNames (st : store) (e : erofsEntry) : list bytes :=
  merge_sort name_le (bs "." :: bs ".." :: child_names st e).

(** The inner loop: how many of the names, [k] of which are taken, fit in a
    block, and the bytes they use. *)
Fixpoint fit_block (blockSize : Z) (names : list bytes) (k nameSize blockUsed : Z) : Z * Z :=
  match names with
  | [] => (k, blockUsed)
  | n :: names =>
      let headerSize := (k + 1) * SizeDirent in
      let nameSize := nameSize + zlen n in
      let needed := headerSize + nameSize in
      if blockSize <? needed then (k, blockUsed)
      else fit_block blockSize names (k + 1) nameSize needed
  end.

(** The entries of the next block and their bytes: at least one entry, even
    one too large for the block. *)
Definition next_block (blockSize : Z) (names : list bytes) : Z * Z :=
  let '(k, used) := fit_block blockSize names 0 0 0 in
  if k =? 0 then (1, SizeDirent + zlen (default [] (head names))) else (k, used).

Fixpoint dirent_size_loop (fuel : nat) (blockSize : Z) (names : list bytes) (totalSize : Z) : Z :=
  match names, fuel with
  | [], _ | _, O => totalSize
  | _, S fuel =>
      let '(k, blockUsed) := next_block blockSize names in
      let rest := drop (Z.to_nat k) names in
      let blockUsed :=
        if negb (bool_decide (rest = [])) && negb (blockUsed mod blockSize =? 0)
        then round_up_pow2 blockUsed blockSize else blockUsed in
      dirent_size_loop fuel blockSize rest (totalSize + blockUsed)
  end.

Definition calcDirentDataSize (w : erofsWriter) (st : store) (e : erofsEntry) : Z :=
  let names := direntNames st e in
  if bool_decide (e_children e = []) then 2 * SizeDirent + 1 + 2 else
  dirent_size_loop (length names) (w_blockSize w) names 0.

(** The size, memoized in the entry: 0 is "not computed yet". *)
Definition direntDataSize (w : erofsWriter) (st : store) (e : erofsEntry) : Z :=
  if e_direntSize e =? 0 then calcDirentDataSize w st e else e_direntSize e.

Definition inodeFileSize (w : erofsWriter) (st : store) (e : erofsEntry) : Z :=
  let t := e_type e in
  if t =? StatTypeDir then u64 (direntDataSize w st e)
  else if t =? StatTypeSymlink then zlen (e_symTarget e)
  else e_size e.

(** ** The layout of one inode (layout.go) *)

Definition calcTrailingSize (w : erofsWriter) (st : store) (e : erofsEntry) : Z :=
  let t := e_type e in
  if t =? StatTypeReg then
    if e_layout e =? LayoutChunkBased then
      if (e_size e =? 0) && (zlen (e_chunks e) =? 0) then 0
      else chunkCount w e * SizeChunkIndex
    else if e_layout e =? LayoutFlatInline then i64 (e_size e)
    else 0
  else if t =? StatTypeDir then
    if e_layout e =? LayoutFlatInline then direntDataSize w st e else 0
  else if t =? StatTypeSymlink then
    if e_layout e =? LayoutFlatInline then zlen (e_symTarget e) else 0
  else 0.

Definition chunkIndexPad (e : erofsEntry) : Z :=
  if negb (e_layout e =? LayoutChunkBased) || (e_trailingSize e =? 0) then 0 else
  let r := (inodeCoreSize e + e_xattrSize e) mod SizeChunkIndex in
  if negb (r =? 0) then SizeChunkIndex - r else 0.

Definition is_none {A} (o : option A) : bool := match o with None => true | Some _ => false end.

(** The layout an entry gets at [currentOff], its core and xattrs taking
    [headerSize]; a contiguous file also gets its chunk size. *)
Definition choose_layout (w : erofsWriter) (st : store) (e : erofsEntry) (currentOff headerSize : Z)
  : erofsEntry :=
  let t := e_type e in
  let inBlockOff := (currentOff + headerSize) mod w_blockSize w in
  let fits n := if (0 <? n) && (inBlockOff + n <=? w_blockSize w)
                then LayoutFlatInline else LayoutFlatPlain in
  if t =? StatTypeReg then
    if (e_size e =? 0) && (zlen (e_chunks e) =? 0) && is_none (e_data e) && negb (e_metadataOnly e)
    then set_layout LayoutFlatPlain e
    else if (0 <? zlen (e_chunks e)) || e_metadataOnly e then
      let e := set_layout LayoutChunkBased e in
      if e_contiguous e then set_chunkBits (minChunkBits w (e_size e)) e else e
    else
      let avail := w_blockSize w - headerSize in
      if negb (w_noInlineData w) && (0 <=? avail) && (e_size e <=? u64 avail) then
        if inBlockOff + i64 (e_size e) <=? w_blockSize w
        then set_layout LayoutFlatInline e else set_layout LayoutFlatPlain e
      else set_layout LayoutFlatPlain e
  else if t =? StatTypeDir then
    let direntDataSize := direntDataSize w st e in
    set_layout (fits direntDataSize) (set_direntSize direntDataSize e)
  else if t =? StatTypeSymlink then set_layout (fits (zlen (e_symTarget e))) e
  else set_layout LayoutFlatPlain e.

Definition set_trailing (w : erofsWriter) (st : store) (e : erofsEntry) : erofsEntry :=
  let e := set_trailingSize (calcTrailingSize w st e) e in
  set_chunkPad (chunkIndexPad e) e.

(** One turn of the loop over the entries: the planned entry and the offset
    after its slot. *)
Definition plan_entry (w : erofsWriter) (st : store) (currentOff : Z) (e : erofsEntry)
  : erofsEntry * Z :=
  let e := set_nid (currentOff / 32) e in
  let e := set_xattrSize (calcXattrSize (e_xattrs e)) e in
  let e := set_compact
    ((e_uid e <=? 0xFFFF) && (e_gid e <=? 0xFFFF) && (e_nlink e <=? 0xFFFF) &&
     (inodeFileSize w st e <=? 0xFFFFFFFF) &&
     (e_mtime e =? w_buildTime w) && (e_mtimeNs e =? w_buildTimeNs w)) e in
  let inodeSize := if e_compact e then SizeInodeCompact else SizeInodeExtended in
  let headerSize := inodeSize + e_xattrSize e in
  let e := choose_layout w st e currentOff headerSize in
  let e := set_trailing w st e in
  let totalInodeSize := inodeSlotAlign (headerSize + e_chunkPad e + e_trailingSize e) in
  let '(e, currentOff) :=
    if w_blockSize w <? currentOff mod w_blockSize w + inodeSize then
      let currentOff := round_up_pow2 currentOff (w_blockSize w) in
      (set_nid (currentOff / 32) e, currentOff)
    else (e, currentOff) in
  if (e_layout e =? LayoutFlatInline) &&
     (w_blockSize w <? currentOff mod w_blockSize w + headerSize + e_trailingSize e) then
    let e := set_trailing w st (set_layout LayoutFlatPlain e) in
    (e, currentOff + inodeSlotAlign (headerSize + e_chunkPad e + e_trailingSize e))
  else (e, currentOff + totalInodeSize).

Fixpoint plan_loop (w : erofsWriter) (st : store) (entries : list ptr) (currentOff : Z) : res store :=
  match entries with
  | [] => Ok st
  | p :: entries =>
      let! e := deref st p in
      let '(e, currentOff) := plan_entry w st currentOff e in
      plan_loop w (<[p := e]> st) entries currentOff
  end.

(** ** The walk *)

(** Children in name order. *)
Definition name_at (st : store) (p : ptr) : bytes := default [] (e_name <$> st !! p).
Definition child_le (st : store) (a b : ptr) : Prop := name_le (name_at st a) (name_at st b).

#[export] Instance child_le_dec st a b : Decision (child_le st a b).
Proof. unfold child_le. apply _. Defined.

Definition sort_children (st : store) (l : list ptr) : list ptr := merge_sort (child_le st) l.

(** Where the walk is: the store, the entries in nid order, the aliases. *)
Record walk_state := mkWalk { wk_store : store; wk_entries : list ptr; wk_aliases : list ptr }.

(** The closure [walk]; [fuel] bounds the depth, and running out of it is a
    panic (a stack that overflows on a cyclic tree). *)
Fixpoint walk (fuel : nat) (s : walk_state) (p : ptr) : res walk_state :=
  match fuel with
  | O => Panic
  | S fuel =>
      let! e := deref (wk_store s) p in
      if negb (is_none (e_aliasOf e)) then
        Ok (mkWalk (wk_store s) (wk_entries s) (wk_aliases s ++ [p]))
      else
        let entries := wk_entries s ++ [p] in
        if e_type e =? StatTypeDir then
          let children := sort_children (wk_store s) (e_children e) in
          fold_res (walk fuel)
            (mkWalk (<[p := set_children children e]> (wk_store s)) entries (wk_aliases s)) children
        else Ok (mkWalk (wk_store s) entries (wk_aliases s))
  end.

(** An alias takes the nid and the file type of the entry it names. *)
Definition resolve_alias (st : store) (p : ptr) : res store :=
  let! a := deref st p in
  match e_aliasOf a with
  | None => Panic
  | Some t =>
      let! target := deref st t in
      Ok (<[p := set_erofsFileType (e_erofsFileType target) (set_nid (e_nid target) a)]> st)
  end.

Definition planLayout (w : erofsWriter) (st : store) (root : ptr) : res (erofsWriter * store) :=
  let! s := walk (S (length st)) (mkWalk st [] []) root in
  let! st := plan_loop w (wk_store s) (wk_entries s) 0 in
  let! st := fold_res resolve_alias st (wk_aliases s) in
  let! root := deref st root in
  Ok (with_plan w (wk_entries s) (e_nid root), st).

(** [fixParentNids] of src/mkfs.go: the nid of the parent, in every directory. *)
Fixpoint fixParentNids (fuel : nat) (st : store) (p parent : ptr) : res store :=
  match fuel with
  | O => Panic
  | S fuel =>
      let! e := deref st p in
      let! pe := deref st parent in
      let st := <[p := set_parentNid (e_nid pe) e]> st in
      fold_res (fun st c =>
        let! ce := deref st c in
        if e_type ce =? StatTypeDir then fixParentNids fuel st c p else Ok st)
        st (e_children e)
  end.

(** ** What planning keeps

    [strip] forgets what planning assigns; two entries with equal strips are
    the same entry of the tree. *)

Definition strip (e : erofsEntry) : erofsEntry :=
  set_nid 0 (set_xattrSize 0 (set_compact false (set_layout 0 (set_chunkBits 0 (set_chunkPad 0
    (set_trailingSize 0 (set_direntSize 0 (set_parentNid 0 (set_erofsFileType 0 e))))))))).

Create Rewrite HintDb strip.

Lemma strip_set_nid v e : strip (set_nid v e) = strip e. Proof. reflexivity. Qed.
Lemma strip_set_xattrSize v e : strip (set_xattrSize v e) = strip e. Proof. reflexivity. Qed.
Lemma strip_set_compact v e : strip (set_compact v e) = strip e. Proof. reflexivity. Qed.
Lemma strip_set_layout v e : strip (set_layout v e) = strip e. Proof. reflexivity. Qed.
Lemma strip_set_chunkBits v e : strip (set_chunkBits v e) = strip e. Proof. reflexivity. Qed.
Lemma strip_set_direntSize v e : strip (set_direntSize v e) = strip e. Proof. reflexivity. Qed.
Lemma strip_set_parentNid v e : strip (set_parentNid v e) = strip e. Proof. reflexivity. Qed.
Lemma strip_set_erofsFileType v e : strip (set_erofsFileType v e) = strip e. Proof. reflexivity. Qed.
Lemma strip_set_trailing w st e : strip (set_trailing w st e) = strip e. Proof. reflexivity. Qed.

#[export] Hint Rewrite strip_set_nid strip_set_xattrSize strip_set_compact strip_set_layout
  strip_set_chunkBits strip_set_direntSize strip_set_parentNid strip_set_erofsFileType
  strip_set_trailing : strip.

Lemma strip_choose_layout w st e off h : strip (choose_layout w st e off h) = strip e.
Proof. unfold choose_layout. cbv zeta. repeat case_match; by autorewrite with strip. Qed.

#[export] Hint Rewrite strip_choose_layout : strip.

(** The entry as it is when its layout is chosen: slot, xattrs and the kind of
    inode decided. *)
Definition plan_core (w : erofsWriter) (st : store) (currentOff : Z) (e : erofsEntry) : erofsEntry :=
  let e := set_xattrSize (calcXattrSize (e_xattrs e)) (set_nid (currentOff / 32) e) in
  set_compact
    ((e_uid e <=? 0xFFFF) && (e_gid e <=? 0xFFFF) && (e_nlink e <=? 0xFFFF) &&
     (inodeFileSize w st e <=? 0xFFFFFFFF) &&
     (e_mtime e =? w_buildTime w) && (e_mtimeNs e =? w_buildTimeNs w)) e.

(** The offset an inode of [inodeSize] goes to: the next block when its core
    would cross. *)
Definition plan_off (w : erofsWriter) (currentOff inodeSize : Z) : Z :=
  if w_blockSize w <? currentOff mod w_blockSize w + inodeSize
  then round_up_pow2 currentOff (w_blockSize w) else currentOff.

Definition slot_size (e : erofsEntry) : Z :=
  inodeSlotAlign (inodeCoreSize e + e_xattrSize e + e_chunkPad e + e_trailingSize e).

(** The planned entry before the last fall-back. *)
Definition plan_pre (w : erofsWriter) (st : store) (currentOff : Z) (e : erofsEntry) : erofsEntry :=
  let e := plan_core w st currentOff e in
  set_nid (plan_off w currentOff (inodeCoreSize e) / 32)
    (set_trailing w st (choose_layout w st e currentOff (inodeCoreSize e + e_xattrSize e))).

Lemma choose_layout_core w st e off h :
  let e' := choose_layout w st e off h in
  e_nid e' = e_nid e /\ e_compact e' = e_compact e /\ e_xattrSize e' = e_xattrSize e.
Proof. unfold choose_layout. cbv zeta. repeat case_match; repeat split. Qed.

Lemma set_nid_same e v : e_nid e = v -> set_nid v e = e.
Proof. intros <-. by destruct e. Qed.

Lemma set_trailing_core w st e :
  let e' := set_trailing w st e in
  e_nid e' = e_nid e /\ e_compact e' = e_compact e /\ e_xattrSize e' = e_xattrSize e /\
  e_layout e' = e_layout e.
Proof. repeat split. Qed.

(** [plan_entry] is [plan_pre], then flat data for inline data that crosses its
    block, and the slot's bytes added to the offset. *)
Lemma plan_entry_eq w st off e :
  let e1 := plan_pre w st off e in
  let o := plan_off w off (inodeCoreSize e1) in
  let e2 := if (e_layout e1 =? LayoutFlatInline) &&
               (w_blockSize w <? o mod w_blockSize w + (inodeCoreSize e1 + e_xattrSize e1) + e_trailingSize e1)
            then set_trailing w st (set_layout LayoutFlatPlain e1) else e1 in
  plan_entry w st off e = (e2, o + slot_size e2).
Proof.
  cbv zeta. set (c := plan_core w st off e).
  transitivity
    (let l := choose_layout w st c off (inodeCoreSize c + e_xattrSize c) in
     let e' := set_trailing w st l in
     let '(e', off') :=
       if w_blockSize w <? off mod w_blockSize w + inodeCoreSize c
       then (set_nid (round_up_pow2 off (w_blockSize w) / 32) e', round_up_pow2 off (w_blockSize w))
       else (e', off) in
     if (e_layout e' =? LayoutFlatInline) &&
        (w_blockSize w <? off' mod w_blockSize w + (inodeCoreSize c + e_xattrSize c) + e_trailingSize e') then
       let e' := set_trailing w st (set_layout LayoutFlatPlain e') in
       (e', off' + inodeSlotAlign (inodeCoreSize c + e_xattrSize c + e_chunkPad e' + e_trailingSize e'))
     else (e', off' + inodeSlotAlign (inodeCoreSize c + e_xattrSize c + e_chunkPad (set_trailing w st l) +
                                      e_trailingSize (set_trailing w st l)))); [reflexivity|].
  cbv zeta.
  set (l := choose_layout w st c off (inodeCoreSize c + e_xattrSize c)).
  destruct (choose_layout_core w st c off (inodeCoreSize c + e_xattrSize c)) as (L1 & L2 & L3).
  fold l in L1, L2, L3.
  assert (D : plan_pre w st off e =
              set_nid (plan_off w off (inodeCoreSize c) / 32) (set_trailing w st l)) by reflexivity.
  rewrite !D. clear D.
  assert (T1 : e_nid (set_trailing w st l) = off / 32) by (exact L1).
  assert (T2 : inodeCoreSize (set_trailing w st l) = inodeCoreSize c)
    by (unfold inodeCoreSize; by rewrite <- L2).
  assert (T3 : e_xattrSize (set_trailing w st l) = e_xattrSize c) by exact L3.
  rewrite <- T2, <- T3. generalize dependent (set_trailing w st l). clear.
  intros t Ht _ _. set (v := plan_off w off (inodeCoreSize t)).
  replace (if w_blockSize w <? off mod w_blockSize w + inodeCoreSize t
           then (set_nid (round_up_pow2 off (w_blockSize w) / 32) t, round_up_pow2 off (w_blockSize w))
           else (t, off)) with (set_nid (v / 32) t, v);
    [change (inodeCoreSize (set_nid (v / 32) t)) with (inodeCoreSize t);
     change (e_xattrSize (set_nid (v / 32) t)) with (e_xattrSize t); fold v; case_match; reflexivity|].
  unfold v, plan_off. case_match; [done|]. by rewrite set_nid_same.
Qed.

Lemma plan_entry_strip w st off e : strip (plan_entry w st off e).1 = strip e.
Proof.
  rewrite plan_entry_eq. cbv zeta. cbn [fst].
  assert (strip (plan_pre w st off e) = strip e)
    by (unfold plan_pre, plan_core; cbv zeta; by autorewrite with strip).
  case_match; by autorewrite with strip.
Qed.

(** ** The slot of a planned inode *)

(** A writer's settings: the block size [Create] checked, chunks no larger than
    the format's widest. *)
Record writer_ok (w : erofsWriter) : Prop := {
  wo_block : exists k, 9 <= k <= 16 /\ w_blockSize w = 2 ^ k;
  wo_chunk : 0 <= w_chunkBits w <= 31;
}.

(** What planning relies on of a fresh entry. *)
Record entry_ok (e : erofsEntry) : Prop := {
  eo_size : is_u64 (e_size e);
  eo_memo : 0 <= e_direntSize e;
}.

Definition slot_start (e : erofsEntry) : Z := 32 * e_nid e.
Definition slot_end (e : erofsEntry) : Z := slot_start e + slot_size e.

(** What the reader needs of an inode's place: a core within one block, inline
    data in the block of its inode, and the sizes the slot was reserved for. *)
Record slot_ok (w : erofsWriter) (st : store) (e : erofsEntry) : Prop := {
  so_nid : 0 <= e_nid e;
  so_core : slot_start e mod w_blockSize w + inodeCoreSize e <= w_blockSize w;
  so_inline : e_layout e = LayoutFlatInline ->
    slot_start e mod w_blockSize w + inodeCoreSize e + e_xattrSize e + e_trailingSize e <= w_blockSize w;
  so_xattr : e_xattrSize e = calcXattrSize (e_xattrs e);
  so_trailing : e_trailingSize e = calcTrailingSize w st e;
  so_trailing_nonneg : 0 <= e_trailingSize e;
  so_pad : e_chunkPad e = chunkIndexPad e;
}.

Lemma writer_ok_pos w : writer_ok w -> 512 <= w_blockSize w <= 65536.
Proof.
  intros [(k & Hk & ->) _]. split.
  - change 512 with (2 ^ 9). apply Z.pow_le_mono_r; lia.
  - change 65536 with (2 ^ 16). apply Z.pow_le_mono_r; lia.
Qed.

Lemma blockSize_slots w : writer_ok w -> w_blockSize w mod 32 = 0.
Proof.
  intros [(k & Hk & ->) _]. replace k with (5 + (k - 5)) by lia.
  rewrite Z.pow_add_r by lia. change (2 ^ 5) with 32. rewrite Z.mul_comm. apply Z.mod_mul. lia.
Qed.

Lemma round_up_block w v :
  writer_ok w -> let r := round_up_pow2 v (w_blockSize w) in
  v <= r < v + w_blockSize w /\ r mod w_blockSize w = 0.
Proof. intros [(k & Hk & ->) _]. apply round_up_pow2_spec. lia. Qed.

Lemma inodeSlotAlign_spec v :
  v <= inodeSlotAlign v < v + 32 /\ inodeSlotAlign v mod 32 = 0.
Proof. apply (round_up_pow2_spec v 5). lia. Qed.

Lemma inodeCoreSize_cases e : inodeCoreSize e = 32 \/ inodeCoreSize e = 64.
Proof. unfold inodeCoreSize. case_match; auto. Qed.

Lemma mod_dvd a n m : 0 < m -> n mod m = 0 -> 0 < n -> a mod n = 0 -> a mod m = 0.
Proof.
  intros Hm Hn Hp Ha. apply Z.mod_divide; [lia|]. apply Z.mod_divide in Ha; [|lia].
  apply Z.mod_divide in Hn; [|lia]. by transitivity n.
Qed.

(** The offset a core goes to is a slot, not before, and the core fits. *)
Lemma plan_off_spec w off e :
  writer_ok w -> 0 <= off -> off mod 32 = 0 ->
  let o := plan_off w off (inodeCoreSize e) in
  off <= o /\ o mod 32 = 0 /\ o mod w_blockSize w + inodeCoreSize e <= w_blockSize w.
Proof.
  intros Hw H0 H32 o. subst o. unfold plan_off. pose proof (writer_ok_pos w Hw).
  case_match; zbool; [|lia].
  destruct (round_up_block w off Hw) as [Hr1 Hr2]. split; [lia|]. split.
  - eapply mod_dvd; [lia|by apply blockSize_slots|lia|done].
  - rewrite Hr2. destruct (inodeCoreSize_cases e); lia.
Qed.

(** The bytes of the blocks of a directory. *)
Lemma next_block_pos blockSize names : 0 <= (next_block blockSize names).2.
Proof.
  unfold next_block.
  assert (G : forall l k n u, 0 <= u -> 0 <= k -> 0 <= n -> 0 <= (fit_block blockSize l k n u).2).
  { induction l as [|x l IH]; intros k n u Hu Hk Hn; cbn; [done|]. case_match; [done|].
    pose proof (zlen_nonneg x). apply IH; unfold SizeDirent; lia. }
  specialize (G names 0 0 0 ltac:(lia) ltac:(lia) ltac:(lia)).
  destruct (fit_block blockSize names 0 0 0) as [k u]. cbn in *. case_match; cbn; [|done].
  unfold SizeDirent. pose proof (zlen_nonneg (default [] (head names))). lia.
Qed.

Lemma dirent_size_loop_ge w fuel names total :
  writer_ok w -> total <= dirent_size_loop fuel (w_blockSize w) names total.
Proof.
  intros Hw. revert names total. induction fuel as [|fuel IH]; intros names total;
    destruct names as [|n names]; cbn [dirent_size_loop]; try lia.
  pose proof (next_block_pos (w_blockSize w) (n :: names)) as Hp.
  destruct (next_block (w_blockSize w) (n :: names)) as [k u]. cbn [snd] in Hp.
  etransitivity; [|apply IH]. case_match; [|lia].
  destruct (round_up_block w u Hw) as [? _]. lia.
Qed.

Lemma direntDataSize_nonneg w st e :
  writer_ok w -> 0 <= e_direntSize e -> 0 <= direntDataSize w st e.
Proof.
  intros Hw He. unfold direntDataSize, calcDirentDataSize. repeat case_match; try done.
  by apply dirent_size_loop_ge.
Qed.

Lemma chunkCount_range w e : is_u64 (e_size e) -> 0 <= chunkCount w e <= maxChunkIndexEntries + 1.
Proof.
  intros He. unfold chunkCount. change maxChunkIndexEntries with 134217728.
  assert (0 <= u64 (entryChunkSize w e)) by (apply Z.mod_pos_bound; lia).
  assert (0 <= e_size e / u64 (entryChunkSize w e)) by (apply Z_div_nonneg_nonneg; [apply He|done]).
  repeat case_match; zbool; lia.
Qed.

(** A size that is stored beside its inode was checked against the block. *)
Definition inline_small (w : erofsWriter) (e : erofsEntry) : Prop :=
  e_type e = StatTypeReg -> e_layout e = LayoutFlatInline -> e_size e <= w_blockSize w.

Lemma calcTrailingSize_nonneg w st e :
  writer_ok w -> entry_ok e -> inline_small w e -> 0 <= calcTrailingSize w st e.
Proof.
  intros Hw [He Hm] Hi. unfold calcTrailingSize.
  pose proof (chunkCount_range w e He). pose proof (writer_ok_pos w Hw).
  repeat case_match; zbool; try (unfold SizeChunkIndex; lia);
    try (by apply direntDataSize_nonneg); try apply zlen_nonneg.
  rewrite i64_id; [apply He|]. specialize (Hi ltac:(assumption) ltac:(assumption)).
  destruct He. lia.
Qed.

Lemma choose_layout_ok w st e off h :
  writer_ok w -> 0 <= h -> entry_ok e ->
  let e' := choose_layout w st e off h in inline_small w e' /\ entry_ok e'.
Proof.
  intros Hw Hh [He Hm]. pose proof (writer_ok_pos w Hw). unfold choose_layout, inline_small. cbv zeta.
  pose proof (direntDataSize_nonneg w st e Hw Hm).
  assert (U : 0 <= w_blockSize w - h -> u64 (w_blockSize w - h) = w_blockSize w - h)
    by (intros; apply Z.mod_small; lia).
  repeat case_match; zbool; (split; [intros Ht Hl; try discriminate Hl; try exact (Hm)|by split]).
  all: try (exfalso; cbn in Ht; unfold e_type in *; cbn in *; congruence).
  cbn. rewrite U in * by lia. lia.
Qed.

Lemma e_xattrs_strip e e' : strip e = strip e' -> e_xattrs e = e_xattrs e'.
Proof. intros H. by apply (f_equal e_xattrs) in H. Qed.

(** The entry before the last fall-back: its sizes agree with its layout. *)
Lemma plan_pre_spec w st off e :
  writer_ok w -> entry_ok e ->
  let e1 := plan_pre w st off e in
  e_nid e1 = plan_off w off (inodeCoreSize e1) / 32 /\ entry_ok e1 /\ inline_small w e1 /\
  e_xattrSize e1 = calcXattrSize (e_xattrs e1) /\
  e_trailingSize e1 = calcTrailingSize w st e1 /\ e_chunkPad e1 = chunkIndexPad e1.
Proof.
  intros Hw He e1. subst e1. unfold plan_pre. set (c := plan_core w st off e).
  assert (Hc : entry_ok c) by (by destruct He; split).
  assert (Hx : e_xattrSize c = calcXattrSize (e_xattrs c)) by reflexivity.
  assert (Hx0 : 0 <= e_xattrSize c).
  { rewrite Hx. destruct (calcXattrSize_spec (e_xattrs c)) as [[-> _]|?]; lia. }
  clearbody c. set (h := inodeCoreSize c + e_xattrSize c).
  assert (Hh : 0 <= h) by (destruct (inodeCoreSize_cases c); lia).
  destruct (choose_layout_core w st c off h) as (L1 & L2 & L3).
  destruct (choose_layout_ok w st c off h Hw Hh Hc) as [I1 I2].
  assert (LX : e_xattrs (choose_layout w st c off h) = e_xattrs c)
    by (apply e_xattrs_strip; by autorewrite with strip).
  assert (K : inodeCoreSize (choose_layout w st c off h) = inodeCoreSize c)
    by (unfold inodeCoreSize; by rewrite L2).
  set (l := choose_layout w st c off h) in *. clearbody l. rewrite <- K. clear Hh. clearbody h.
  split; [reflexivity|]. split; [by destruct I2; split|]. split; [exact I1|].
  split; [|split; reflexivity].
  change (e_xattrSize l = calcXattrSize (e_xattrs l)). by rewrite L3, LX.
Qed.

(** An entry given its sizes: they are those of its layout. *)
Lemma set_trailing_spec w st e :
  let e' := set_trailing w st e in
  e_trailingSize e' = calcTrailingSize w st e /\
  e_trailingSize e' = calcTrailingSize w st e' /\ e_chunkPad e' = chunkIndexPad e' /\
  slot_start e' = slot_start e /\ inodeCoreSize e' = inodeCoreSize e /\
  e_xattrSize e' = e_xattrSize e /\ e_xattrs e' = e_xattrs e /\ e_layout e' = e_layout e.
Proof. repeat split. Qed.

Lemma slot_ok_flat w st e :
  writer_ok w -> entry_ok e -> 0 <= e_nid e -> e_xattrSize e = calcXattrSize (e_xattrs e) ->
  slot_start e mod w_blockSize w + inodeCoreSize e <= w_blockSize w ->
  slot_ok w st (set_trailing w st (set_layout LayoutFlatPlain e)).
Proof.
  intros Hw He Hn Hx Hc. set (l := set_layout LayoutFlatPlain e).
  assert (El : entry_ok l) by (by destruct He; split).
  assert (Il : inline_small w l) by (intros _ Hl; discriminate Hl).
  pose proof (calcTrailingSize_nonneg w st l Hw El Il).
  assert (Hn' : 0 <= e_nid l) by exact Hn.
  assert (Hx' : e_xattrSize l = calcXattrSize (e_xattrs l)) by exact Hx.
  assert (Hc' : slot_start l mod w_blockSize w + inodeCoreSize l <= w_blockSize w) by exact Hc.
  assert (Hl' : e_layout l = LayoutFlatPlain) by reflexivity.
  clearbody l. destruct (set_trailing_spec w st l) as (T0 & T1 & T2 & T3 & T4 & T5 & T6 & T7).
  assert (T8 : e_nid (set_trailing w st l) = e_nid l) by reflexivity.
  split; [by rewrite T8|by rewrite T3, T4| |by rewrite T5, T6|done|by rewrite T0|done].
  rewrite T7, Hl'. discriminate.
Qed.

(** One turn of the loop places the inode in a slot of its own after [off]. *)
Lemma plan_entry_spec w st off e e' off' :
  writer_ok w -> entry_ok e -> 0 <= off -> off mod 32 = 0 ->
  plan_entry w st off e = (e', off') ->
  slot_start e' = plan_off w off (inodeCoreSize e') /\ off <= slot_start e' /\
  off' = slot_end e' /\ off' mod 32 = 0 /\ slot_ok w st e' /\ entry_ok e'.
Proof.
  intros Hw He H0 H32. rewrite plan_entry_eq. cbv zeta.
  destruct (plan_pre_spec w st off e Hw He) as (P1 & P2 & P3 & P4 & P5 & P6).
  set (e1 := plan_pre w st off e) in *. clearbody e1. clear He.
  destruct (plan_off_spec w off e1 Hw H0 H32) as (O1 & O2 & O3).
  remember (plan_off w off (inodeCoreSize e1)) as o eqn:Ho.
  assert (S1 : slot_start e1 = o).
  { unfold slot_start. rewrite P1. pose proof (Z.div_mod o 32 ltac:(lia)). lia. }
  assert (N1 : 0 <= e_nid e1) by (rewrite P1; apply Z.div_pos; lia).
  assert (T1 : 0 <= e_trailingSize e1) by (rewrite P5; by apply calcTrailingSize_nonneg).
  intros [= <- <-].
  assert (A : forall e2, slot_start e2 = o -> inodeCoreSize e2 = inodeCoreSize e1 ->
    slot_ok w st e2 -> entry_ok e2 ->
    slot_start e2 = plan_off w off (inodeCoreSize e2) /\ off <= slot_start e2 /\ o + slot_size e2 = slot_end e2 /\ (o + slot_size e2) mod 32 = 0 /\
    slot_ok w st e2 /\ entry_ok e2).
  { intros e2 Hs Hc Hk Hok. rewrite Hs, Hc. unfold slot_end. rewrite Hs. split; [done|].
    split; [done|]. split; [done|]. split; [|done].
    unfold slot_size. rewrite Z.add_mod, O2 by lia.
    destruct (inodeSlotAlign_spec (inodeCoreSize e2 + e_xattrSize e2 + e_chunkPad e2 + e_trailingSize e2)) as [_ ->].
    done. }
  destruct ((e_layout e1 =? LayoutFlatInline) && _) eqn:C.
  - apply A; [exact S1|done| |by destruct P2; split]. apply slot_ok_flat; try done. by rewrite S1.
  - apply A; [exact S1|done| |done]. split; try done; rewrite S1; [done|].
    intros Hl. rewrite Hl in C. cbn in C. zbool. lia.
Qed.

(** ** The loop over the entries *)

(** The stores of one tree, planned differently. *)
Definition same_tree (st st' : store) : Prop := strip <$> st = strip <$> st'.

#[export] Instance same_tree_equiv : Equivalence same_tree.
Proof. split; [done|intros ??; apply eq_sym|intros ???; apply eq_trans]. Qed.

Lemma same_tree_lookup st st' p e :
  same_tree st st' -> st !! p = Some e -> exists e', st' !! p = Some e' /\ strip e' = strip e.
Proof.
  intros H Hp. assert (X : (strip <$> st) !! p = Some (strip e)) by (by rewrite list_lookup_fmap, Hp).
  rewrite H, list_lookup_fmap in X. destruct (st' !! p) as [e'|]; [|done]. apply (inj Some) in X. eauto.
Qed.

Lemma same_tree_insert st p e e' :
  st !! p = Some e -> strip e' = strip e -> same_tree st (<[p := e']> st).
Proof.
  intros Hp He. unfold same_tree. rewrite list_fmap_insert, He.
  symmetry. apply list_insert_id. by rewrite list_lookup_fmap, Hp.
Qed.

Lemma name_at_same st st' p : same_tree st st' -> name_at st p = name_at st' p.
Proof.
  intros H. unfold name_at.
  assert (X : e_name <$> (strip <$> st !! p) = e_name <$> (strip <$> st' !! p))
    by (rewrite <- !list_lookup_fmap; by rewrite H).
  rewrite <- !option_fmap_compose in X.
  change (e_name ∘ strip) with e_name in X. by rewrite X.
Qed.

Lemma child_names_same st st' e : same_tree st st' -> child_names st e = child_names st' e.
Proof. intros H. unfold child_names. apply list_fmap_ext. intros i c _. by apply (name_at_same st st' c). Qed.

Lemma direntDataSize_same w st st' e :
  same_tree st st' -> direntDataSize w st e = direntDataSize w st' e.
Proof.
  intros H. unfold direntDataSize, calcDirentDataSize, direntNames. by rewrite (child_names_same st st').
Qed.

Lemma calcTrailingSize_same w st st' e :
  same_tree st st' -> calcTrailingSize w st e = calcTrailingSize w st' e.
Proof. intros H. unfold calcTrailingSize. by rewrite (direntDataSize_same w st st'). Qed.

#[export] Instance slot_ok_same w : Proper (same_tree ==> eq ==> iff) (slot_ok w).
Proof.
  assert (G : forall st st' e, same_tree st st' -> slot_ok w st e -> slot_ok w st' e).
  { intros st st' e H [? ? ? ? Ht ? ?]. split; try done. by rewrite <- (calcTrailingSize_same w st st'). }
  intros st st' H e ? <-. split; apply G; done.
Qed.

(** The entries of [l], in order, each in a slot of its own from [off] on. *)
Fixpoint slots (w : erofsWriter) (st : store) (off : Z) (l : list ptr) : Prop :=
  match l with
  | [] => True
  | p :: l => exists e, st !! p = Some e /\ slot_start e = plan_off w off (inodeCoreSize e) /\
                        slot_ok w st e /\ slots w st (slot_end e) l
  end.

Lemma slots_agree w st st' off l :
  same_tree st st' -> (forall p, p ∈ l -> st' !! p = st !! p) -> slots w st off l -> slots w st' off l.
Proof.
  intros Hs. revert off. induction l as [|p l IH]; intros off Hl H; [done|].
  destruct H as (e & H1 & H2 & H3 & H4). exists e. split; [rewrite Hl; [done|left]|].
  split; [done|]. split; [by rewrite <- Hs|]. apply IH; [|done]. intros q Hq. apply Hl. by right.
Qed.

Lemma plan_loop_spec w st l off :
  writer_ok w -> NoDup l -> (forall p, p ∈ l -> exists e, st !! p = Some e /\ entry_ok e) ->
  0 <= off -> off mod 32 = 0 ->
  exists st', plan_loop w st l off = Ok st' /\ same_tree st st' /\
    (forall p, p ∉ l -> st' !! p = st !! p) /\ slots w st' off l.
Proof.
  intros Hw. revert st off. induction l as [|p l IH]; intros st off Hnd Hin H0 H32.
  { exists st. repeat split; done. }
  apply NoDup_cons in Hnd as [Hp Hnd]. destruct (Hin p ltac:(left)) as (e & He & Hok).
  cbn [plan_loop]. unfold deref. rewrite He.
  pose proof (plan_entry_strip w st off e) as Hs.
  destruct (plan_entry w st off e) as [e' off'] eqn:E. cbn in Hs.
  destruct (plan_entry_spec w st off e e' off' Hw Hok H0 H32 E) as (S0 & S1 & S2 & S3 & S4 & S5).
  pose proof (same_tree_insert st p e e' He Hs) as Hst.
  assert (Hoff : 0 <= off').
  { subst off'. unfold slot_end, slot_size. destruct S4.
    pose proof (inodeSlotAlign_spec (inodeCoreSize e' + e_xattrSize e' + e_chunkPad e' + e_trailingSize e')) as [? _].
    assert (0 <= e_xattrSize e').
    { rewrite so_xattr0. destruct (calcXattrSize_spec (e_xattrs e')) as [[-> _]|?]; lia. }
    assert (0 <= chunkIndexPad e').
    { unfold chunkIndexPad, SizeChunkIndex. repeat case_match; try done.
      pose proof (Z.mod_pos_bound (inodeCoreSize e' + e_xattrSize e') 8). lia. }
    destruct (inodeCoreSize_cases e'); lia. }
  destruct (IH (<[p := e']> st) off' Hnd) as (st' & P1 & P2 & P3 & P4); try done.
  { intros q Hq. rewrite list_lookup_insert_ne by (intros ->; done).
    apply Hin. by right. }
  exists st'. split; [done|]. split; [by transitivity (<[p:=e']> st)|]. split.
  - intros q Hq. rewrite P3 by (intros X; apply Hq; by right).
    apply list_lookup_insert_ne. intros ->. apply Hq. left.
  - exists e'. assert (Hp' : st' !! p = Some e').
    { rewrite P3 by done. apply list_lookup_insert_eq. by eapply lookup_lt_Some. }
    split; [done|]. split; [done|]. split; [|by rewrite <- S2].
    rewrite <- P2, <- Hst. done.
Qed.

(** ** The walk over the tree *)

(** The store of a tree as [buildErofsTree] allocates it: a child after its
    directory, and one directory to a child. *)
Record tree (st : store) : Prop := {
  tr_child p e c : st !! p = Some e -> c ∈ e_children e -> (p < c < length st)%nat;
  tr_nodup p e : st !! p = Some e -> NoDup (e_children e);
  tr_parent p e p' e' c : st !! p = Some e -> c ∈ e_children e ->
    st !! p' = Some e' -> c ∈ e_children e' -> p = p';
}.

(** [q] lies below [p]: the entries of a directory, not of an alias. *)
Inductive reach (st : store) : ptr -> ptr -> Prop :=
| reach_here p : reach st p p
| reach_child p e c q :
    st !! p = Some e -> e_aliasOf e = None -> e_type e = StatTypeDir ->
    c ∈ e_children e -> reach st c q -> reach st p q.

Lemma reach_snoc st p q :
  reach st p q -> q = p \/
  exists r e, reach st p r /\ st !! r = Some e /\ q ∈ e_children e.
Proof.
  induction 1 as [p|p e c q H1 H2 H3 H4 H5 IH]; [by left|right].
  destruct IH as [->|(r & er & IH1 & IH2 & IH3)].
  - exists p, e. repeat split; try done. constructor.
  - exists r, er. repeat split; try done. by eapply reach_child.
Qed.

Lemma reach_le st p q : tree st -> reach st p q -> (p <= q)%nat.
Proof.
  intros Ht. induction 1 as [p|p e c q H1 H2 H3 H4 H5 IH]; [done|].
  destruct (tr_child _ Ht _ _ _ H1 H4). lia.
Qed.

(** Two entries over the same one lie over each other. *)
Lemma reach_chain st a b q : tree st -> reach st a q -> reach st b q -> reach st a b \/ reach st b a.
Proof.
  intros Ht. induction (lt_wf q) as [q _ IH]. intros Ha Hb.
  destruct (reach_snoc _ _ _ Ha) as [->|(ra & ea & Ha1 & Ha2 & Ha3)]; [by right|].
  destruct (reach_snoc _ _ _ Hb) as [->|(rb & eb & Hb1 & Hb2 & Hb3)]; [by left|].
  assert (ra = rb) as <- by (by eapply tr_parent).
  apply (IH ra); try done. by destruct (tr_child _ Ht _ _ _ Ha2 Ha3).
Qed.

(** What lies below one child of a directory does not lie below another. *)
Lemma reach_disjoint st p e a b q :
  tree st -> st !! p = Some e -> a ∈ e_children e -> b ∈ e_children e -> a <> b ->
  reach st a q -> reach st b q -> False.
Proof.
  intros Ht Hp Ha Hb Hab.
  assert (G : forall a b, a ∈ e_children e -> b ∈ e_children e -> a <> b -> ~ reach st a b).
  { clear a b Ha Hb Hab. intros a b Ha Hb Hab H.
    destruct (reach_snoc _ _ _ H) as [->|(r & er & H1 & H2 & H3)]; [done|].
    assert (r = p) as -> by (by eapply tr_parent).
    apply reach_le in H1; [|done]. destruct (tr_child _ Ht _ _ _ Hp Ha). lia. }
  intros Hqa Hqb. destruct (reach_chain _ _ _ _ Ht Hqa Hqb) as [H|H]; eapply G; try apply H; done.
Qed.

(** The stores the walk passes through: the children of some directories put
    in order. *)
Definition perm_entry (e e' : erofsEntry) : Prop :=
  e' = set_children (e_children e') e /\ e_children e' ≡ₚ e_children e.

Definition perm_store (st st' : store) : Prop := Forall2 perm_entry st st'.

#[export] Instance perm_entry_preorder : PreOrder perm_entry.
Proof.
  split.
  - intros e. split; [by destruct e|done].
  - intros a b c [H1 H2] [H3 H4]. split; [by rewrite H3, H1|by rewrite H4, H2].
Qed.

#[export] Instance perm_store_preorder : PreOrder perm_store.
Proof. change (PreOrder (Forall2 perm_entry)). apply _. Qed.

Lemma perm_lookup st st' p e :
  perm_store st st' -> st !! p = Some e -> exists e', st' !! p = Some e' /\ perm_entry e e'.
Proof. intros H Hp. destruct (Forall2_lookup_l _ _ _ _ _ H Hp) as (e' & ? & ?). eauto. Qed.

Lemma perm_lookup_r st st' p e' :
  perm_store st st' -> st' !! p = Some e' -> exists e, st !! p = Some e /\ perm_entry e e'.
Proof. intros H Hp. destruct (Forall2_lookup_r _ _ _ _ _ H Hp) as (e & ? & ?). eauto. Qed.

Lemma perm_entry_fields e e' :
  perm_entry e e' ->
  e_aliasOf e' = e_aliasOf e /\ e_type e' = e_type e /\ e_name e' = e_name e /\
  (forall c, c ∈ e_children e' <-> c ∈ e_children e) /\ (entry_ok e -> entry_ok e').
Proof.
  intros [H1 H2]. split; [by rewrite H1|]. split; [by rewrite H1|]. split; [by rewrite H1|].
  split; [intros c; by rewrite H2|]. intros [Ha Hb]. rewrite H1. split; [exact Ha|exact Hb].
Qed.

Lemma perm_reach st st' p q : perm_store st st' -> reach st p q <-> reach st' p q.
Proof.
  intros H. split.
  - induction 1 as [p|p e c q H1 H2 H3 H4 H5 IH]; [constructor|].
    destruct (perm_lookup _ _ _ _ H H1) as (e' & E1 & E2).
    apply perm_entry_fields in E2 as (F1 & F2 & F3 & F4 & _).
    eapply reach_child; [done|by rewrite F1|by rewrite F2|by apply F4|done].
  - induction 1 as [p|p e c q H1 H2 H3 H4 H5 IH]; [constructor|].
    destruct (perm_lookup_r _ _ _ _ H H1) as (e' & E1 & E2).
    apply perm_entry_fields in E2 as (F1 & F2 & F3 & F4 & _).
    eapply reach_child; [done|by rewrite <- F1|by rewrite <- F2|by apply F4|done].
Qed.

Lemma perm_tree st st' : perm_store st st' -> tree st -> tree st'.
Proof.
  intros H [T1 T2 T3]. pose proof (Forall2_length _ _ _ H) as Hl. split.
  - intros p e c Hp Hc. destruct (perm_lookup_r _ _ _ _ H Hp) as (e0 & E1 & E2).
    apply perm_entry_fields in E2 as (_ & _ & _ & F4 & _). rewrite <- Hl. eapply T1; [done|by apply F4].
  - intros p e Hp. destruct (perm_lookup_r _ _ _ _ H Hp) as (e0 & E1 & [_ E2]).
    rewrite E2. by eapply T2.
  - intros p e p' e' c Hp Hc Hp' Hc'.
    destruct (perm_lookup_r _ _ _ _ H Hp) as (e0 & E1 & E2%perm_entry_fields).
    destruct (perm_lookup_r _ _ _ _ H Hp') as (e0' & E1' & E2'%perm_entry_fields).
    eapply T3; [exact E1|by apply E2|exact E1'|by apply E2'].
Qed.

Lemma perm_insert st p e l :
  st !! p = Some e -> l ≡ₚ e_children e -> perm_store st (<[p := set_children l e]> st).
Proof.
  intros Hp Hl. apply Forall2_same_length_lookup. rewrite length_insert. split; [done|].
  intros i x y Hx Hy. destruct (decide (i = p)) as [->|Hne].
  - rewrite list_lookup_insert_eq in Hy by (by eapply lookup_lt_Some).
    apply (inj Some) in Hy. rewrite Hp in Hx. apply (inj Some) in Hx. subst. by split.
  - rewrite list_lookup_insert_ne in Hy by done. rewrite Hx in Hy. apply (inj Some) in Hy. by subst.
Qed.

(** [q] is an entry below one of [l], an alias or not. *)
Definition visits (st : store) (l : list ptr) (plain : bool) (q : ptr) : Prop :=
  exists c e, c ∈ l /\ reach st c q /\ st !! q = Some e /\ is_none (e_aliasOf e) = plain.

(** The walk from each of [l] added [new] and [newa], in some order, each once. *)
Record walked (st : store) (l : list ptr) (st' : store) (new newa : list ptr) : Prop := {
  wd_perm : perm_store st st';
  wd_nodup : NoDup new;
  wd_nodup_alias : NoDup newa;
  wd_new q : q ∈ new <-> visits st l true q;
  wd_newa q : q ∈ newa <-> visits st l false q;
}.

Lemma perm_visits st st' l b q : perm_store st st' -> visits st l b q <-> visits st' l b q.
Proof.
  intros H. unfold visits. split.
  - intros (c & e & H1 & H2 & H3 & H4). destruct (perm_lookup _ _ _ _ H H3) as (e' & E1 & E2%perm_entry_fields).
    exists c, e'. split; [done|]. split; [by apply (perm_reach st st')|]. split; [done|].
    destruct E2 as [-> _]. done.
  - intros (c & e & H1 & H2 & H3 & H4). destruct (perm_lookup_r _ _ _ _ H H3) as (e' & E1 & E2%perm_entry_fields).
    exists c, e'. split; [done|]. split; [by apply (perm_reach st st')|]. split; [done|].
    destruct E2 as [<- _]. done.
Qed.

(** The walks of two lists of children of one directory, one after the other. *)
Lemma walked_app st p e l1 l2 st1 st2 n1 a1 n2 a2 :
  tree st -> st !! p = Some e -> (forall c, c ∈ l1 ++ l2 -> c ∈ e_children e) -> NoDup (l1 ++ l2) ->
  walked st l1 st1 n1 a1 -> walked st1 l2 st2 n2 a2 -> walked st (l1 ++ l2) st2 (n1 ++ n2) (a1 ++ a2).
Proof.
  intros Ht Hp Hl Hnd [A1 A2 A3 A4 A5] [B1 B2 B3 B4 B5].
  assert (D : forall b q, visits st l1 b q -> visits st l2 b q -> False).
  { intros b q (c & e1 & C1 & C2 & _) (c' & e2 & C1' & C2' & _).
    apply NoDup_app in Hnd as (_ & Hd & _).
    apply (reach_disjoint st p e c c' q); try done; try (apply Hl; rewrite elem_of_app; auto).
    intros ->. by apply (Hd c'). }
  assert (V : forall b q, visits st (l1 ++ l2) b q <-> visits st l1 b q \/ visits st l2 b q).
  { intros b q. unfold visits. split.
    - intros (c & e1 & [C1|C1]%elem_of_app & C2); [left|right]; eauto.
    - intros [(c & e1 & C1 & C2)|(c & e1 & C1 & C2)]; exists c, e1; rewrite elem_of_app; auto. }
  split.
  - by transitivity st1.
  - apply NoDup_app. split; [done|]. split; [|done]. intros q H1 H2.
    apply A4 in H1. apply B4, (perm_visits st st1) in H2; [|done]. by eapply D.
  - apply NoDup_app. split; [done|]. split; [|done]. intros q H1 H2.
    apply A5 in H1. apply B5, (perm_visits st st1) in H2; [|done]. by eapply D.
  - intros q. rewrite elem_of_app, A4, B4, V. by rewrite (perm_visits st st1 l2 true q).
  - intros q. rewrite elem_of_app, A5, B5, V. by rewrite (perm_visits st st1 l2 false q).
Qed.

Lemma walked_nil st : walked st [] st [] [].
Proof.
  split; [done|constructor..| |]; intros q; split; try (intros H; by apply elem_of_nil in H);
    intros (c & e & H & _); by apply elem_of_nil in H.
Qed.

(** [walk fuel] reaches all below a pointer of depth less than [fuel]. *)
Definition walks_below (fuel : nat) : Prop :=
  forall st ents als c, tree st -> (c < length st)%nat -> (length st - c <= fuel)%nat ->
    exists st' new newa, walk fuel (mkWalk st ents als) c = Ok (mkWalk st' (ents ++ new) (als ++ newa)) /\
      walked st [c] st' new newa /\
      (forall e, st !! c = Some e -> e_aliasOf e = None -> head new = Some c).

Lemma walk_children fuel st ents als p e l :
  walks_below fuel -> tree st -> st !! p = Some e -> (length st - p <= S fuel)%nat ->
  (forall c, c ∈ l -> c ∈ e_children e) -> NoDup l ->
  exists st' new newa,
    fold_res (walk fuel) (mkWalk st ents als) l = Ok (mkWalk st' (ents ++ new) (als ++ newa)) /\
    walked st l st' new newa.
Proof.
  intros IHf. revert st ents als e. induction l as [|c l IH]; intros st ents als e Ht Hp Hf Hl Hnd.
  { exists st, [], []. cbn. rewrite !app_nil_r. split; [done|apply walked_nil]. }
  destruct (tr_child _ Ht _ _ c Hp ltac:(apply Hl; left)) as [Hc1 Hc2].
  destruct (IHf st ents als c Ht Hc2 ltac:(lia)) as (st1 & n1 & a1 & W1 & W2 & _).
  destruct (perm_lookup _ _ _ _ (wd_perm _ _ _ _ _ W2) Hp) as (e1 & Hp1 & He1%perm_entry_fields).
  pose proof (Forall2_length _ _ _ (wd_perm _ _ _ _ _ W2)) as Hlen.
  pose proof (proj1 (NoDup_cons _ _) Hnd) as [Hcl Hnd'].
  destruct (IH st1 (ents ++ n1) (als ++ a1) e1) as (st2 & n2 & a2 & W3 & W4).
  - eapply perm_tree; [apply W2|done].
  - done.
  - by rewrite <- Hlen.
  - intros c' Hc'. apply He1, Hl. by right.
  - done.
  - exists st2, (n1 ++ n2), (a1 ++ a2). cbn [fold_res]. rewrite W1, W3, !app_assoc. split; [done|].
    apply (walked_app st p e [c] l st1 st2); try done.
Qed.

(** A directory's entries are itself and what is below its children. *)
Lemma visits_dir st p e l st' new newa :
  tree st -> st !! p = Some e -> e_aliasOf e = None -> e_type e = StatTypeDir -> l ≡ₚ e_children e ->
  walked (<[p := set_children l e]> st) l st' new newa -> walked st [p] st' (p :: new) newa.
Proof.
  intros Ht Hp Ha Hd Hl [W1 W2 W3 W4 W5]. pose proof (perm_insert st p e l Hp Hl) as HP.
  assert (V : forall b q, visits st [p] b q <-> (b = true /\ q = p) \/ visits st l b q).
  { intros b q. unfold visits. split.
    - intros (c & e' & ->%list_elem_of_singleton & H2 & H3 & H4).
      inversion H2 as [|? e0 c q' H5 H6 H7 H8 H9]; subst.
      + left. rewrite Hp in H3. apply (inj Some) in H3. subst. by rewrite Ha.
      + right. exists c, e'. rewrite Hp in H5. apply (inj Some) in H5. subst e0.
        by rewrite Hl.
    - intros [[-> ->]|(c & e' & H1 & H2 & H3)]; exists p.
      + exists e. rewrite list_elem_of_singleton, Ha. repeat split; try done. constructor.
      + exists e'. rewrite list_elem_of_singleton. split; [done|]. split; [|done].
        eapply reach_child; try done. by rewrite <- Hl. }
  assert (N : p ∉ new).
  { intros H%W4%(perm_visits st); [|done]. destruct H as (c & e' & H1 & H2 & _).
    apply reach_le in H2; [|done]. rewrite Hl in H1. destruct (tr_child _ Ht _ _ _ Hp H1). lia. }
  split.
  - by rewrite HP.
  - by constructor.
  - done.
  - intros q. rewrite elem_of_cons, W4, V. rewrite <- (perm_visits st) by done; clear; intuition congruence.
  - intros q. rewrite W5, V. rewrite <- (perm_visits st) by done; clear; intuition congruence.
Qed.

(** The walk ends, in a tree, having listed every entry below its start once. *)
Lemma walk_spec fuel : walks_below fuel.
Proof.
  induction fuel as [|fuel IH]; intros st ents als p Ht Hp Hf; [lia|].
  destruct (lookup_lt_is_Some_2 st p Hp) as [e He].
  cbn [walk]. unfold deref. cbn [wk_store wk_entries wk_aliases]. rewrite He.
  assert (Here : forall b, is_none (e_aliasOf e) = b ->
     (e_aliasOf e <> None \/ e_type e <> StatTypeDir) ->
     forall b' q, visits st [p] b' q <-> b' = b /\ q = p).
  { intros b Hb Hleaf b' q. unfold visits. split.
    - intros (c & e' & ->%list_elem_of_singleton & H2 & H3 & H4).
      inversion H2 as [|? e0 c q' H5 H6 H7]; subst; [|rewrite He in H5; apply (inj Some) in H5; subst; clear - Hleaf H6 H7; tauto].
      rewrite He in H3. apply (inj Some) in H3. by subst.
    - intros [-> ->]. exists p, e. rewrite list_elem_of_singleton. split; [done|]. split; [constructor|]. done. }
  destruct (is_none (e_aliasOf e)) eqn:Ea; cbn [negb].
  - destruct (e_type e =? StatTypeDir) eqn:Et; zbool.
    + set (l := sort_children st (e_children e)).
      assert (Hl : l ≡ₚ e_children e) by apply merge_sort_Permutation.
      destruct (walk_children fuel (<[p := set_children l e]> st) (ents ++ [p]) als p (set_children l e) l)
        as (st' & new & newa & W1 & W2); try done.
      * by eapply perm_tree, Ht; apply perm_insert.
      * by apply list_lookup_insert_eq.
      * by rewrite length_insert.
      * rewrite Hl. by eapply tr_nodup.
      * exists st', (p :: new), newa. rewrite W1, <- app_assoc. split; [done|].
        split; [|done]. eapply visits_dir; try done. by destruct (e_aliasOf e).
    + exists st, [p], []. rewrite app_nil_r. split; [done|]. split; [|done].
      assert (V := Here true eq_refl (or_intror Et)).
      split; [done|apply NoDup_singleton|constructor| |]; intros q; rewrite V.
      * rewrite list_elem_of_singleton. clear; tauto.
      * rewrite elem_of_nil. clear; intuition congruence.
  - exists st, [], [p]. rewrite app_nil_r. split; [done|].
    assert (Hn : e_aliasOf e <> None) by (by destruct (e_aliasOf e)).
    split; [|intros e' He' Ha'; apply (inj Some) in He' as <-; done].
    assert (V := Here false eq_refl (or_introl Hn)).
    split; [done|constructor|apply NoDup_singleton| |]; intros q; rewrite V.
    * rewrite elem_of_nil. clear; intuition congruence.
    * rewrite list_elem_of_singleton. clear; tauto.
Qed.

(** ** [planLayout] *)

(** The aliases take what the entries they name got; nothing else changes. *)
Lemma resolve_aliases_spec st l :
  (forall p, p ∈ l -> exists e t te, st !! p = Some e /\ e_aliasOf e = Some t /\
                                     st !! t = Some te /\ t ∉ l) ->
  NoDup l ->
  exists st', fold_res resolve_alias st l = Ok st' /\ same_tree st st' /\
    (forall p, p ∉ l -> st' !! p = st !! p) /\
    (forall p e t te, p ∈ l -> st !! p = Some e -> e_aliasOf e = Some t -> st !! t = Some te ->
       st' !! p = Some (set_erofsFileType (e_erofsFileType te) (set_nid (e_nid te) e))).
Proof.
  revert st. induction l as [|p l IH]; intros st Hl Hnd.
  { exists st. repeat split; try done. intros p ? ? ? Hp. by apply elem_of_nil in Hp. }
  apply NoDup_cons in Hnd as [Hp Hnd].
  destruct (Hl p ltac:(left)) as (e & t & te & H1 & H2 & H3 & H4).
  apply not_elem_of_cons in H4 as [H4 H4'].
  cbn [fold_res]. unfold resolve_alias at 1, deref. rewrite H1, H2, H3.
  set (e' := set_erofsFileType _ _). set (st1 := <[p := e']> st).
  assert (S1 : same_tree st st1) by (by apply (same_tree_insert st p e e')).
  assert (L1 : forall q, q <> p -> st1 !! q = st !! q) by (intros q Hq; by apply list_lookup_insert_ne).
  destruct (IH st1) as (st' & P1 & P2 & P3 & P4); [|done|].
  { intros q Hq. destruct (Hl q ltac:(by right)) as (eq & tq & teq & Q1 & Q2 & Q3 & Q4).
    apply not_elem_of_cons in Q4 as [Q4 Q4']. exists eq, tq, teq.
    rewrite !L1; try done. intros ->. done. }
  exists st'. split; [done|]. split; [by transitivity st1|]. split.
  - intros q [Hq1 Hq2]%not_elem_of_cons. by rewrite P3, L1.
  - intros q eq tq teq Hq Q1 Q2 Q3. apply elem_of_cons in Hq as [->|Hq].
    + rewrite P3 by done. rewrite H1 in Q1. apply (inj Some) in Q1 as <-.
      rewrite H2 in Q2. apply (inj Some) in Q2 as <-. rewrite H3 in Q3. apply (inj Some) in Q3 as <-.
      apply list_lookup_insert_eq. by eapply lookup_lt_Some.
    + assert (q <> p) by (intros ->; done).
      destruct (Hl q ltac:(by right)) as (eq' & tq' & teq' & Q1' & Q2' & Q3' & Q4').
      rewrite Q1 in Q1'. apply (inj Some) in Q1' as <-. rewrite Q2 in Q2'. apply (inj Some) in Q2' as <-.
      apply not_elem_of_cons in Q4' as [Q4' _]. apply P4 with tq; try done; by rewrite L1.
Qed.

(** The tree [buildErofsTree] hands over: aliases name entries of the tree that
    are no aliases themselves, and nothing is planned yet. *)
Record plannable (st : store) (root : ptr) : Prop := {
  pl_tree : tree st;
  pl_root : exists e, st !! root = Some e /\ e_aliasOf e = None;
  pl_entry p e : st !! p = Some e -> entry_ok e;
  pl_alias p e t : reach st root p -> st !! p = Some e -> e_aliasOf e = Some t ->
    exists te, st !! t = Some te /\ e_aliasOf te = None /\ reach st root t;
}.

Lemma plan_store_entries st st' root :
  plannable st root -> perm_store st st' ->
  forall p, (p < length st)%nat -> exists e, st' !! p = Some e /\ entry_ok e.
Proof.
  intros Hp HP p Hlt. destruct (lookup_lt_is_Some_2 st p Hlt) as [e He].
  destruct (perm_lookup _ _ _ _ HP He) as (e' & E1 & E2%perm_entry_fields).
  exists e'. split; [done|]. apply E2. by eapply pl_entry.
Qed.

Lemma slots_head w st l p e off :
  head l = Some p -> slots w st off l -> st !! p = Some e ->
  slot_start e = plan_off w off (inodeCoreSize e) /\ slot_ok w st e.
Proof.
  destruct l as [|q l]; [done|]. intros [= ->] (e' & H1 & H2 & H3 & _) He.
  rewrite He in H1. by apply (inj Some) in H1 as ->.
Qed.

(** What [planLayout] establishes: every entry of the tree has one slot, in the
    order of the walk; aliases have the nid of what they name. *)
Record planned (w : erofsWriter) (st : store) (root : ptr) (w' : erofsWriter) (st' : store) : Prop := {
  pd_settings : w' = with_plan w (w_entries w') (w_rootNid w');
  pd_length : length st' = length st;
  pd_nodup : NoDup (w_entries w');
  pd_entries p : p ∈ w_entries w' <->
    exists e, st !! p = Some e /\ e_aliasOf e = None /\ reach st root p;
  pd_head : head (w_entries w') = Some root;
  pd_slots : slots w st' 0 (w_entries w');
  pd_alias p e t : reach st root p -> st !! p = Some e -> e_aliasOf e = Some t ->
    exists e' te, st' !! p = Some e' /\ st' !! t = Some te /\ t ∈ w_entries w' /\ e_nid e' = e_nid te /\
                  e_erofsFileType e' = e_erofsFileType te;
  pd_root e : st' !! root = Some e -> w_rootNid w' = e_nid e;
  pd_same : exists st1, perm_store st st1 /\ same_tree st1 st';
}.

Lemma planLayout_facts w st root :
  writer_ok w -> plannable st root ->
  exists w' st', planLayout w st root = Ok (w', st') /\ planned w st root w' st'.
Proof.
  intros Hw Hp. destruct (pl_root _ _ Hp) as (re & Hre & Hra).
  pose proof (pl_tree _ _ Hp) as Ht. assert (Hrlt : (root < length st)%nat) by (by eapply lookup_lt_Some).
  unfold planLayout.
  destruct (walk_spec (S (length st)) st [] [] root Ht Hrlt ltac:(lia)) as (st1 & new & newa & W & [W1 W2 W3 W4 W5] & Whd).
  rewrite W. cbn [app wk_store wk_entries wk_aliases].
  pose proof (Forall2_length _ _ _ W1) as L1.
  assert (Hin : forall b q, visits st [root] b q -> (q < length st)%nat).
  { intros b q (c & e & _ & _ & H & _). by eapply lookup_lt_Some. }
  destruct (plan_loop_spec w st1 new 0 Hw W2) as (st2 & P1 & P2 & P3 & P4); [|done..|].
  { intros p Hpn. eapply plan_store_entries; try done. eapply Hin. by apply W4. }
  rewrite P1.
  assert (Al : forall p, p ∈ newa -> exists e t te e0, st2 !! p = Some e /\ e_aliasOf e = Some t /\
    st2 !! t = Some te /\ t ∈ new /\ st !! p = Some e0 /\ e_aliasOf e0 = Some t /\ reach st root p).
  { intros p Hpa. apply W5 in Hpa. destruct Hpa as (c & e & ->%list_elem_of_singleton & R & He & Hal).
    destruct (e_aliasOf e) as [t|] eqn:Et; [|done].
    destruct (pl_alias _ _ Hp p e t R He Et) as (te & T1 & T2 & T3).
    assert (Hnt : t ∈ new).
    { apply W4. exists root, te. rewrite list_elem_of_singleton, T2. auto. }
    destruct (perm_lookup _ _ _ _ W1 He) as (e1 & E1 & E2%perm_entry_fields).
    destruct (perm_lookup _ _ _ _ W1 T1) as (te1 & TE1 & _).
    assert (Hpn : p ∉ new).
    { intros H%W4. destruct H as (c & e' & _ & _ & H3 & H4). rewrite He in H3. apply (inj Some) in H3 as <-.
      by rewrite Et in H4. }
    destruct (same_tree_lookup _ _ _ _ P2 TE1) as (te2 & TE2 & _).
    exists e1, t, te2, e. rewrite P3 by done. destruct E2 as [E2 _]. rewrite E2, Et. auto 10. }
  destruct (resolve_aliases_spec st2 newa) as (st3 & Q1 & Q2 & Q3 & Q4); [|done|].
  { intros p Hpa. destruct (Al p Hpa) as (e & t & te & e0 & A1 & A2 & A3 & A4 & A5 & A6 & A7).
    exists e, t, te. repeat split; try done.
    intros Hta. apply W5 in Hta. apply W4 in A4.
    destruct Hta as (? & e1 & _ & _ & X1 & X2), A4 as (? & e2 & _ & _ & Y1 & Y2).
    rewrite X1 in Y1. apply (inj Some) in Y1 as <-. congruence. }
  rewrite Q1. unfold deref.
  assert (Hnew : forall p, p ∈ new -> st3 !! p = st2 !! p).
  { intros p Hpn. apply Q3. intros Hpa. apply W4 in Hpn. apply W5 in Hpa.
    destruct Hpn as (? & e1 & _ & _ & X1 & X2), Hpa as (? & e2 & _ & _ & Y1 & Y2).
    rewrite X1 in Y1. apply (inj Some) in Y1 as <-. congruence. }
  assert (S3 : slots w st3 0 new) by (by apply (slots_agree w st2 st3)).
  assert (Hhd : head new = Some root) by (by eapply Whd).
  assert (L3 : length st3 = length st).
  { rewrite L1. apply (f_equal length) in P2, Q2. rewrite !length_fmap in P2, Q2. congruence. }
  destruct (lookup_lt_is_Some_2 st3 root ltac:(by rewrite L3)) as [re3 Hre3]. rewrite Hre3.
  exists (with_plan w new (e_nid re3)), st3. split; [done|]. split; try done.
  - intros p. cbn. rewrite W4. unfold visits. split.
    + intros (c & e & ->%list_elem_of_singleton & H2 & H3 & H4). exists e. by destruct (e_aliasOf e).
    + intros (e & H1 & H2 & H3). exists root, e. by rewrite list_elem_of_singleton, H2.
  - intros p e t R He Et.
    assert (Hpa : p ∈ newa).
    { apply W5. exists root, e. rewrite list_elem_of_singleton, Et. auto. }
    destruct (Al p Hpa) as (e2 & t2 & te2 & e0 & A1 & A2 & A3 & A4 & A5 & A6 & A7).
    rewrite He in A5. apply (inj Some) in A5 as <-. rewrite Et in A6. apply (inj Some) in A6 as <-.
    rewrite (Q4 p e2 t te2) by done. eexists _, te2. split; [done|]. by rewrite Hnew.
  - intros e H. rewrite Hre3 in H. by apply (inj Some) in H as <-.
  - exists st1. split; [done|]. by transitivity st2.
Qed.

(** ** Slots of a planned image *)

Lemma slot_end_ge w st e : slot_ok w st e -> slot_start e + inodeCoreSize e <= slot_end e /\
  0 <= e_xattrSize e /\ 0 <= e_chunkPad e < SizeChunkIndex /\ slot_end e mod 32 = 0.
Proof.
  intros [? ? ? Hx ? ? Hp]. unfold slot_end, slot_size.
  destruct (inodeSlotAlign_spec (inodeCoreSize e + e_xattrSize e + e_chunkPad e + e_trailingSize e)) as [? Hm].
  assert (0 <= e_xattrSize e).
  { rewrite Hx. destruct (calcXattrSize_spec (e_xattrs e)) as [[-> _]|?]; lia. }
  assert (0 <= chunkIndexPad e < SizeChunkIndex).
  { unfold chunkIndexPad, SizeChunkIndex. repeat case_match; zbool; try lia.
    pose proof (Z.mod_pos_bound (inodeCoreSize e + e_xattrSize e) 8). lia. }
  rewrite <- Hp in *. split; [lia|]. split; [done|]. split; [done|].
  rewrite Z.add_mod, Hm by lia. unfold slot_start. rewrite Z.mul_comm, Z.mod_mul by lia. done.
Qed.

Lemma slots_lookup w st off l i p :
  writer_ok w -> 0 <= off -> off mod 32 = 0 -> slots w st off l -> l !! i = Some p ->
  exists e, st !! p = Some e /\ slot_ok w st e /\ off <= slot_start e.
Proof.
  intros Hw. revert off i. induction l as [|q l IH]; intros off i H0 H32 Hs Hi; [done|].
  destruct Hs as (e & H1 & H2 & H3 & H4).
  destruct (plan_off_spec w off e Hw H0 H32) as (O1 & _). rewrite <- H2 in O1.
  destruct i as [|i]; [injection Hi as ->; eauto|].
  destruct (slot_end_ge w st e H3) as (G1 & G2 & G3 & G4).
  assert (0 <= slot_end e) by (destruct (inodeCoreSize_cases e); lia).
  destruct (IH (slot_end e) i) as (e' & E1 & E2 & E3); try done.
  exists e'. split; [done|]. split; [done|]. destruct (inodeCoreSize_cases e); lia.
Qed.

Lemma slots_order w st off l i j p q ep eq :
  writer_ok w -> 0 <= off -> off mod 32 = 0 -> slots w st off l ->
  (i < j)%nat -> l !! i = Some p -> l !! j = Some q -> st !! p = Some ep -> st !! q = Some eq ->
  slot_end ep <= slot_start eq.
Proof.
  intros Hw. revert off i j. induction l as [|r l IH]; intros off i j H0 H32 Hs Hij Hi Hj Hp Hq; [done|].
  destruct Hs as (e & H1 & H2 & H3 & H4). destruct j as [|j]; [lia|].
  destruct (plan_off_spec w off e Hw H0 H32) as (O1 & _). rewrite <- H2 in O1.
  destruct (slot_end_ge w st e H3) as (G1 & G2 & G3 & G4).
  assert (0 <= slot_end e) by (destruct (inodeCoreSize_cases e); lia).
  destruct i as [|i]; [|by apply (IH (slot_end e) i j); try lia].
  injection Hi as ->. rewrite Hp in H1. apply (inj Some) in H1 as <-.
  destruct (slots_lookup w st (slot_end ep) l j q) as (e' & E1 & _ & E3); try done.
  rewrite Hq in E1. by apply (inj Some) in E1 as <-.
Qed.

Lemma planned_root_zero w st root w' st' :
  writer_ok w -> planned w st root w' st' -> w_rootNid w' = 0.
Proof.
  intros Hw [P1 P2 P3 P4 P5 P6 P7 P8 _].
  destruct (w_entries w') as [|p l] eqn:E; [done|]. injection P5 as ->.
  destruct P6 as (e & H1 & H2 & _). rewrite (P8 e H1).
  unfold plan_off in H2. pose proof (writer_ok_pos w Hw). rewrite Z.mod_0_l in H2 by lia.
  destruct (inodeCoreSize_cases e) as [X|X]; rewrite X in H2;
    rewrite (proj2 (Z.ltb_ge _ _)) in H2 by lia; unfold slot_start in H2; lia.
Qed.

(** C23: [planLayout] returns on every tree: each entry of the tree that is no
    hardlink alias is planned exactly once, the root at nid 0; the slots follow
    each other without overlap, an inode's core never crosses a block and
    inline data lies in the block of its inode, the sizes reserved being those
    of the entry's layout; an alias has the nid of the entry it names. *)
Theorem planLayout_places w st root :
  writer_ok w -> plannable st root ->
  exists w' st', planLayout w st root = Ok (w', st') /\
    NoDup (w_entries w') /\ w_rootNid w' = 0 /\
    (forall p, p ∈ w_entries w' <-> exists e, st !! p = Some e /\ e_aliasOf e = None /\ reach st root p) /\
    (forall i p, w_entries w' !! i = Some p -> exists e, st' !! p = Some e /\ slot_ok w st' e) /\
    (forall i j p q ep eq, (i < j)%nat -> w_entries w' !! i = Some p -> w_entries w' !! j = Some q ->
       st' !! p = Some ep -> st' !! q = Some eq -> slot_end ep <= slot_start eq) /\
    (forall p e t, reach st root p -> st !! p = Some e -> e_aliasOf e = Some t ->
       exists e' te, st' !! p = Some e' /\ st' !! t = Some te /\ t ∈ w_entries w' /\ e_nid e' = e_nid te).
Proof.
  intros Hw Hp. destruct (planLayout_facts w st root Hw Hp) as (w' & st' & H & P).
  exists w', st'. pose proof (planned_root_zero _ _ _ _ _ Hw P). destruct P as [P1 P2 P3 P4 P5 P6 P7 P8 _].
  repeat (split; [done|]). split; [|split].
  - intros i p Hi. destruct (slots_lookup w st' 0 _ i p Hw ltac:(lia) eq_refl P6 Hi) as (e & E1 & E2 & _). eauto.
  - intros. eapply (slots_order w st' 0); done.
  - intros p e t H1 H2 H3. destruct (P7 p e t H1 H2 H3) as (e' & te & ? & ? & ? & ? & _). eauto 10.
Qed.

(** A directory with a file, a hardlink of it and a symlink. *)
Definition example_entry (mode : Z) (name : string) : erofsEntry :=
  mkEntry mode 0 0 0 0 1 0 0 (bs name) (bs name) [] [] [] false 0 false [] 0 None ∅ None
    0 0 (modeToFileType mode) 0 false 0 0 0 0 0.

Definition example_file : erofsEntry :=
  mkEntry (Z.lor StatTypeReg 420) 0 0 0 0 2 5 0 (bs "a") (bs "/a") [] [] [] false 0 false [] 0
    (Some (bytes_source (bs "hello"))) {[ bs "user.k" := bs "v" ]} None
    0 0 FileTypeReg 0 false 0 0 0 0 0.

Definition example_link : erofsEntry :=
  mkEntry (Z.lor StatTypeReg 420) 0 0 0 0 0 0 0 (bs "c") (bs "/c") [] [] [] false 0 false [] 0 None ∅ (Some 1%nat)
    0 0 0 0 false 0 0 0 0 0.

Definition example_symlink : erofsEntry :=
  mkEntry (Z.lor StatTypeSymlink 511) 0 0 7 0 1 0 0 (bs "b") (bs "/b") [] (bs "a") [] false 0 false [] 0 None ∅ None
    0 0 FileTypeSymlink 0 false 0 0 0 0 0.

Definition example_store : store :=
  [set_children [1; 2; 3]%nat (example_entry (Z.lor StatTypeDir 493) "/"); example_file; example_link;
   example_symlink].

Definition example_writer : erofsWriter := mkWriter 512 false 0 0 0 [] [] 0 0 0.

Lemma example_writer_ok : writer_ok example_writer.
Proof. split; [exists 9; done|done]. Qed.

Lemma example_plannable : plannable example_store 0.
Proof.
  assert (C : forall p e, example_store !! p = Some e -> (p = 0%nat \/ e_children e = [])).
  { intros [|[|[|[|p]]]] e; cbn; intros H; try (apply (inj Some) in H as <-); auto. discriminate. }
  split.
  - split.
    + intros p e c Hp Hc. destruct (C p e Hp) as [->|E]; [|rewrite E in Hc; by apply elem_of_nil in Hc].
      cbn in Hp. apply (inj Some) in Hp as <-. cbn in *. set_unfold in Hc. lia.
    + intros p e Hp. destruct (C p e Hp) as [->|E]; [|rewrite E; constructor].
      cbn in Hp. apply (inj Some) in Hp as <-. cbn. apply (bool_decide_unpack _). vm_compute. done.
    + intros p e p' e' c Hp Hc Hp' Hc'.
      destruct (C p e Hp) as [->|E]; [|rewrite E in Hc; by apply elem_of_nil in Hc].
      destruct (C p' e' Hp') as [->|E]; [done|rewrite E in Hc'; by apply elem_of_nil in Hc'].
  - eexists. split; reflexivity.
  - intros [|[|[|[|p]]]] e; cbn; intros H; try (apply (inj Some) in H as <-; by repeat split). discriminate.
  - intros [|[|[|[|p]]]] e t _; cbn; intros H; try (apply (inj Some) in H as <-); try discriminate.
    intros [= <-]. eexists. repeat split.
    eapply (reach_child _ 0 _ 1); try reflexivity; [cbn; set_solver|constructor].
Qed.

(** Planned: the root, "a" and "b", with "c" sharing the nid of "a". *)
Lemma planLayout_places_witness :
  (exists w' st', planLayout example_writer example_store 0 = Ok (w', st') /\
     w_entries w' = [0; 1; 3]%nat /\ e_nid <$> st' = [0; 4; 4; 6] /\
     (forall i p, w_entries w' !! i = Some p -> exists e, st' !! p = Some e /\ slot_ok example_writer st' e)).
Proof.
  destruct (planLayout_places example_writer example_store 0 example_writer_ok example_plannable)
    as (w' & st' & H & _ & _ & _ & Hs & _).
  exists w', st'. split; [done|].
  assert (E : res_map (fun x => (w_entries x.1, e_nid <$> x.2)) (planLayout example_writer example_store 0) =
              Ok ([0; 1; 3]%nat, [0; 4; 4; 6])) by (vm_compute; reflexivity).
  rewrite H in E. apply Ok_inj in E. cbn [fst snd] in E.
  split; [exact (f_equal fst E)|]. split; [exact (f_equal snd E)|exact Hs].
Defined.
