(* ===== verification/Serialize.v ===== *)
(** * Serialization

    src/writer.go: the bytes of inodes, xattr areas, chunk indexes and
    directory blocks, the limits checked before anything is written, the block
    addresses handed to flat data, and the image put together: superblock
    area, data blocks, metadata.

    The output is a [Sink]: the [io.Writer] of the caller, of which the code
    relies on a successful [Write] having appended its bytes, and [SeekSink]
    for the one [Seek] back to the start.  The metadata buffer of the package
    is the sink of bytes that never fails. *)

From S2P Require Import Prelude Machine Disk Format Image Inode Open Layout.

(** ** Sinks *)

Class Sink (S : Type) := {
  Write : S -> bytes -> res S;
  (** The bytes up to the position. *)
  Written : S -> bytes;
}.

Class SinkLaws (S : Type) `{Sink S} : Prop := {
  Write_appends s p s' : Write s p = Ok s' -> Written s' = Written s ++ p;
  Write_no_panic s p : no_panic (Write s p);
}.

(** An [io.WriteSeeker]: its content, of which [Written] is the part before
    the position. *)
Class SeekSink (S : Type) `{Sink S} := {
  Content : S -> bytes;
  SeekStart : S -> res S;
}.

Class SeekSinkLaws (S : Type) `{SeekSink S} : Prop := {
  Content_written s : Written s = take (length (Written s)) (Content s);
  Content_write s p s' : Write s p = Ok s' ->
    Content s' = Written s ++ p ++ drop (length (Written s) + length p) (Content s);
  Content_seek s s' : SeekStart s = Ok s' -> Content s' = Content s /\ Written s' = [];
  Seek_no_panic s : no_panic (SeekStart s);
}.

(** A [bytes.Buffer]. *)
#[export] Instance buffer_sink : Sink bytes := {| Write s p := Ok (s ++ p); Written s := s |}.

#[export] Instance buffer_laws : SinkLaws bytes.
Proof. split; [by intros s p s' [= <-]|done]. Qed.

(** A file held in memory. *)
Record memfile := mkMemfile { mf_data : bytes; mf_pos : nat }.

#[export] Instance memfile_sink : Sink memfile := {|
  Write f p := Ok (mkMemfile (take (mf_pos f) (mf_data f) ++ p ++ drop (mf_pos f + length p) (mf_data f))
                             (length (take (mf_pos f) (mf_data f)) + length p));
  Written f := take (mf_pos f) (mf_data f) |}.

#[export] Instance memfile_seek : SeekSink memfile := {|
  Content := mf_data;
  SeekStart f := Ok (mkMemfile (mf_data f) 0) |}.

(** ** Inodes *)

Definition inode_data (w : erofsWriter) (e : erofsEntry) : Z :=
  let t := e_type e in
  if t =? StatTypeReg then
    if e_layout e =? LayoutChunkBased then Z.lor LayoutChunkFormatIndexes (entryChunkBits w e)
    else if (e_layout e =? LayoutFlatPlain) && (0 <? e_size e) then e_dataBlkAddr e
    else 0
  else if (t =? StatTypeDir) || (t =? StatTypeSymlink) then
    if e_layout e =? LayoutFlatPlain then e_dataBlkAddr e else 0
  else if (t =? StatTypeChrdev) || (t =? StatTypeBlkdev) || (t =? StatTypeFifo) || (t =? StatTypeSock) then
    e_rdev e
  else 0.

(** The scratch buffer [inodeBuf], cleared and filled. *)
Definition compact_bytes (w : erofsWriter) (st : store) (e : erofsEntry) : bytes :=
  put16 26 (u16 (e_gid e)) (put16 24 (u16 (e_uid e)) (put32 16 (inode_data w e)
    (put32 8 (u32 (inodeFileSize w st e)) (put16 6 (u16 (e_nlink e)) (put16 4 (e_mode e)
      (put16 2 (xattrCount (e_xattrSize e)) (put16 0 (inodeFormat (e_layout e) true) (zeros 64)))))))).

Definition extended_bytes (w : erofsWriter) (st : store) (e : erofsEntry) : bytes :=
  put32 44 (e_nlink e) (put32 40 (e_mtimeNs e) (put64 32 (e_mtime e) (put32 28 (e_gid e)
    (put32 24 (e_uid e) (put32 16 (inode_data w e) (put64 8 (inodeFileSize w st e) (put16 4 (e_mode e)
      (put16 2 (xattrCount (e_xattrSize e)) (put16 0 (inodeFormat (e_layout e) false) (zeros 64)))))))))).

Definition writeInode {S} `{Sink S} (w : erofsWriter) (st : store) (buf : S) (e : erofsEntry) : res S :=
  if e_compact e then Write buf (sub (compact_bytes w st e) 0 (Z.to_nat SizeInodeCompact))
  else Write buf (sub (extended_bytes w st e) 0 (Z.to_nat SizeInodeExtended)).

(** [w.zeroBuf[:n]] of a buffer one block long. *)
Definition zeroBuf (w : erofsWriter) (n : Z) : res bytes :=
  slice (zeros (Z.to_nat (w_blockSize w))) 0 n.

Definition Write_zeros {S} `{Sink S} (w : erofsWriter) (buf : S) (n : Z) : res S :=
  let! z := zeroBuf w n in Write buf z.

(** ** Xattr areas *)

Definition xattr_header : bytes := put32 0 MaxUint32 (zeros 12).

Definition xattr_entry (nameIndex : Z) (suffix value : bytes) : bytes :=
  put16 2 (u16 (zlen value)) (put8 1 nameIndex (put8 0 (u8 (zlen suffix)) (zeros 4))).

Definition writeXattr {S} `{Sink S} (w : erofsWriter) (xattrs : gmap bytes bytes) (buf : S) (name : bytes)
  : res S :=
  let value := default [] (xattrs !! name) in
  let '(nameIndex, suffix) := xattrSplit name in
  let! buf := Write buf (xattr_entry nameIndex suffix value) in
  let! buf := Write buf suffix in
  let! buf := Write buf value in
  let entryLen := SizeXattrEntry + zlen suffix + zlen value in
  if negb (entryLen mod 4 =? 0) then Write_zeros w buf (4 - entryLen mod 4) else Ok buf.

Definition writeXattrs {S} `{Sink S} (w : erofsWriter) (buf : S) (e : erofsEntry) : res S :=
  let! buf := Write buf xattr_header in
  fold_res (writeXattr w (e_xattrs e)) buf (sortedXattrKeys (e_xattrs e)).

(** ** Chunk indexes *)

Definition nullAddr : Z := 2 ^ 32 - 1.

Definition nullIdx : bytes := put32 4 nullAddr (put16 0 MaxUint16 (zeros 8)).

Definition chunk_index (deviceID phys : Z) : bytes := put32 4 (u32 phys) (put16 2 deviceID (zeros 8)).

(** The source chunk the next logical chunk starts in, and where in it. *)
Fixpoint next_chunk (chunks : list Chunk) (coff : Z) : list Chunk * Z :=
  match chunks with
  | [] => ([], coff)
  | c :: cs => if ch_Count c <=? coff then next_chunk cs (coff - ch_Count c) else (chunks, coff)
  end.

(** The loop over [n] logical chunks: [chunks] are the source chunks from [ci]
    on. *)
Fixpoint chunk_indexes {S} `{Sink S} (n : nat) (blocksPerChunk : Z) (buf : S) (chunks : list Chunk) (coff : Z)
  : res S :=
  match n with
  | O => Ok buf
  | S n =>
      match chunks with
      | [] => let! buf := Write buf nullIdx in chunk_indexes n blocksPerChunk buf chunks coff
      | c :: _ =>
          let! buf :=
            (if ch_PhysicalBlock c =? NullPhysicalBlock then Write buf nullIdx
             else Write buf (chunk_index (ch_DeviceID c) (u64 (ch_PhysicalBlock c + u64 coff)))) in
          let '(chunks, coff) := next_chunk chunks (coff + blocksPerChunk) in
          chunk_indexes n blocksPerChunk buf chunks coff
      end
  end.

(** Without source chunks every logical chunk is a hole. *)
Definition writeChunkIndexes {S} `{Sink S} (w : erofsWriter) (buf : S) (e : erofsEntry) : res S :=
  let cs := entryChunkSize w e in
  let blocksPerChunk := Z.quot cs (w_blockSize w) in
  let nchunks := chunkCount w e in
  chunk_indexes (Z.to_nat nchunks) blocksPerChunk buf (e_chunks e) 0.

(** ** Directory blocks *)

Record direntInfo := mkDirentInfo { di_name : bytes; di_nid : Z; di_fileType : Z }.

Definition di_le (a b : direntInfo) : Prop := name_le (di_name a) (di_name b).

#[export] Instance di_le_dec a b : Decision (di_le a b).
Proof. unfold di_le. apply _. Defined.

Definition child_info (st : store) (c : ptr) : res direntInfo :=
  let! ce := deref st c in
  Ok (mkDirentInfo (e_name ce) (e_nid ce) (e_erofsFileType ce)).

Fixpoint child_infos (st : store) (l : list ptr) : res (list direntInfo) :=
  match l with
  | [] => Ok []
  | c :: l => let! d := child_info st c in let! ds := child_infos st l in Ok (d :: ds)
  end.

(** The entries of a directory, "." and ".." among them, in name order. *)
Definition allEnts (st : store) (e : erofsEntry) : res (list direntInfo) :=
  let! kids := child_infos st (e_children e) in
  Ok (merge_sort di_le
    (mkDirentInfo (bs ".") (e_nid e) FileTypeDir ::
     mkDirentInfo (bs "..") (e_parentNid e) FileTypeDir :: kids)).

(** The loop filling one block: the header of entry [j], its name at
    [nameOff]. *)
Fixpoint fill_block (ents : list direntInfo) (j nameOff : Z) (blk : bytes) : res bytes :=
  match ents with
  | [] => Ok blk
  | de :: ents =>
      let off := j * SizeDirent in
      if (zlen blk <? off + SizeDirent) || (zlen blk <? nameOff) then Panic else
      let blk := put64 (Z.to_nat off) (di_nid de) blk in
      let blk := put16 (Z.to_nat off + 8) (u16 nameOff) blk in
      let blk := put8 (Z.to_nat off + 10) (di_fileType de) blk in
      let blk := put8 (Z.to_nat off + 11) 0 blk in
      let copied := take (Z.to_nat (zlen blk - nameOff)) (di_name de) in
      let blk := putb (Z.to_nat nameOff) copied blk in
      fill_block ents (j + 1) (nameOff + zlen copied) blk
  end.

(** One block after another; each but the last padded. *)
Fixpoint dirent_blocks {S} `{Sink S} (fuel : nat) (w : erofsWriter) (ents : list direntInfo)
  (buf : S) (totalWritten : Z) : res (S * Z) :=
  match ents, fuel with
  | [], _ => Ok (buf, totalWritten)
  | _, O => Panic
  | _, S fuel =>
      let '(k, blockUsed) := next_block (w_blockSize w) (di_name <$> ents) in
      let blockEnts := take (Z.to_nat k) ents in
      let rest := drop (Z.to_nat k) ents in
      let! blk := fill_block blockEnts 0 (zlen blockEnts * SizeDirent) (zeros (Z.to_nat blockUsed)) in
      let! buf := Write buf blk in
      let totalWritten := totalWritten + zlen blk in
      if negb (bool_decide (rest = [])) && negb (blockUsed mod w_blockSize w =? 0) then
        let padSize := w_blockSize w - blockUsed mod w_blockSize w in
        let! buf := Write_zeros w buf padSize in
        dirent_blocks fuel w rest buf (totalWritten + padSize)
      else dirent_blocks fuel w rest buf totalWritten
  end.

Definition writeDirents {S} `{Sink S} (w : erofsWriter) (st : store) (buf : S) (e : erofsEntry)
  : res (S * Z) :=
  let! ents := allEnts st e in
  dirent_blocks (length ents) w ents buf 0.

(** ** Sizes of the image's parts *)

Definition flatPlainDataSize (w : erofsWriter) (st : store) (e : erofsEntry) : Z :=
  if negb (e_layout e =? LayoutFlatPlain) then 0 else
  let t := e_type e in
  if t =? StatTypeReg then
    if (0 <? e_size e) && negb (is_none (e_data e)) then i64 (e_size e) else 0
  else if t =? StatTypeDir then direntDataSize w st e
  else if t =? StatTypeSymlink then zlen (e_symTarget e)
  else 0.

Definition sbAreaSize (w : erofsWriter) : Z :=
  let n := SuperBlockOffset + SizeSuperBlock in
  let n := if 0 <? zlen (w_devices w) then n + zlen (w_devices w) * SizeDeviceSlot else n in
  Z.quot (n + w_blockSize w - 1) (w_blockSize w) * w_blockSize w.

Definition sbAreaBlocks (w : erofsWriter) : Z := Z.quot (sbAreaSize w) (w_blockSize w).

Definition metadata_step (curOff : Z) (e : erofsEntry) : Z :=
  let expectedOff := e_nid e * 32 in
  let curOff := if curOff <? expectedOff then expectedOff else curOff in
  let sz := inodeCoreSize e + e_xattrSize e + e_chunkPad e + e_trailingSize e in
  let rem := Z.rem sz 32 in
  curOff + (if negb (rem =? 0) then sz + (32 - rem) else sz).

(** The entries [w.entries] points at. *)
Fixpoint derefs (st : store) (l : list ptr) : res (list erofsEntry) :=
  match l with
  | [] => Ok []
  | p :: l => let! e := deref st p in let! es := derefs st l in Ok (e :: es)
  end.

Definition metadataBytes (entries : list erofsEntry) : Z := foldl metadata_step 0 entries.

Definition data_blocks (w : erofsWriter) (st : store) (e : erofsEntry) : Z :=
  let ds := flatPlainDataSize w st e in
  (if 0 <? ds then Z.quot (ds + w_blockSize w - 1) (w_blockSize w) else 0) +
  (if 0 <? zlen (e_tail e) then 1 else 0).

(** ** Limits *)

Definition check_chunk (_ : unit) (c : Chunk) : res unit :=
  if ch_PhysicalBlock c =? NullPhysicalBlock then Ok tt else
  reject MaxUint32 <? u64 (ch_PhysicalBlock c + ch_Count c) with ErrNotImplemented ;; Ok tt.

Definition check_entry (w : erofsWriter) (_ : unit) (e : erofsEntry) : res unit :=
  reject (e_type e =? StatTypeSymlink) && beqb (e_symTarget e) [] with ErrInvalid ;;
  reject (e_layout e =? LayoutChunkBased) && (maxChunkIndexEntries <? chunkCount w e) with ErrInvalid ;;
  let! _ := fold_res check_chunk tt (e_chunks e) in
  let! _ := fold_res (fun _ '(name, value) => validateXattr name value) tt (map_to_list (e_xattrs e)) in
  reject (0 <? e_xattrSize e) && (maxXattrICount <? xattrICount (e_xattrSize e)) with ErrInvalid ;;
  Ok tt.

(** The block count, entry by entry. *)
Definition check_blocks (w : erofsWriter) (st : store) (blocks : Z) (e : erofsEntry) : res Z :=
  let ds := flatPlainDataSize w st e in
  let blocks := blocks + Z.quot ds (w_blockSize w) in
  let blocks := if negb (Z.rem ds (w_blockSize w) =? 0) then blocks + 1 else blocks in
  let blocks := if 0 <? zlen (e_tail e) then blocks + 1 else blocks in
  reject MaxUint32 <? blocks with ErrInvalid ;; Ok blocks.

Definition checkLimits (w : erofsWriter) (st : store) : res unit :=
  let! entries := derefs st (w_entries w) in
  let! _ := fold_res (check_entry w) tt entries in
  let blocks := sbAreaBlocks w + Z.quot (metadataBytes entries + w_blockSize w - 1) (w_blockSize w) in
  let! _ := fold_res (check_blocks w st) blocks entries in
  Ok tt.

(** ** Block addresses *)

(** One entry of [assignFlatPlainAddrs]. *)
Definition assign_addr (w : erofsWriter) (acc : store * Z) (p : ptr) : res (store * Z) :=
  let '(st, addr) := acc in
  let! e := deref st p in
  let ds := flatPlainDataSize w st e in
  let '(e, addr) :=
    if 0 <? ds then
      (set_dataBlkAddr addr e,
       u32 (addr + u32 (Z.quot (ds + w_blockSize w - 1) (w_blockSize w))))
    else (e, addr) in
  let '(e, addr) :=
    if 0 <? zlen (e_tail e) then
      (set_chunks (e_chunks e ++ [mkChunk addr 1 0]) (set_tailBlkAddr addr e), u32 (addr + 1))
    else (e, addr) in
  Ok (<[p := e]> st, addr).

Definition assignFlatPlainAddrs (w : erofsWriter) (st : store) (addr : Z) : res (store * Z) :=
  fold_res (assign_addr w) (st, addr) (w_entries w).

Definition assignDataBlocks (w : erofsWriter) (st : store) : res (erofsWriter * store) :=
  let sbBlks := sbAreaBlocks w in
  if w_metaBlkAddr w =? u32 sbBlks then
    let! entries := derefs st (w_entries w) in
    let totalMetaBytes := foldl (fun total e => Z.max total (slot_end e)) 0 entries in
    let metaBlocks := Z.quot (totalMetaBytes + w_blockSize w - 1) (w_blockSize w) in
    let! (st, _) := assignFlatPlainAddrs w st (u32 (sbAreaBlocks w + metaBlocks)) in
    Ok (w, st)
  else
    let! (st, addr) := assignFlatPlainAddrs w st (u32 (sbAreaBlocks w)) in
    Ok (with_metaBlkAddr w addr, st).

(** ** Data blocks *)

(** [io.CopyBuffer] of at most [n] bytes of the source: what it wrote. *)
Definition copy_data {S} `{Sink S} (buf : S) (src : source) (n : Z) : res (S * Z) :=
  let '(b, err) := copy_upto src n in
  let! buf := Write buf b in
  match err with Some e => Err e | None => Ok (buf, zlen b) end.

Definition writeTailBlock {S} `{Sink S} (w : erofsWriter) (out : S) (e : erofsEntry) : res S :=
  if zlen (e_tail e) =? 0 then Ok out else
  let! out := Write out (e_tail e) in
  let pad := w_blockSize w - Z.rem (zlen (e_tail e)) (w_blockSize w) in
  if pad <? w_blockSize w then Write_zeros w out pad else Ok out.

(** A regular file without a source is a nil dereference. *)
Definition write_data {S} `{Sink S} (w : erofsWriter) (st : store) (out : S) (e : erofsEntry) (ds : Z)
  : res (S * Z) :=
  let t := e_type e in
  if t =? StatTypeReg then
    match e_data e with
    | None => Panic
    | Some src =>
        let! (out, written) := copy_data out src ds in
        reject negb (written =? ds) with ErrUnexpectedEOF ;; Ok (out, written)
    end
  else if t =? StatTypeDir then writeDirents w st out e
  else if t =? StatTypeSymlink then
    let! out := Write out (e_symTarget e) in Ok (out, zlen (e_symTarget e))
  else Ok (out, 0).

Definition write_entry_data {S} `{Sink S} (w : erofsWriter) (st : store) (out : S) (e : erofsEntry) : res S :=
  let ds := flatPlainDataSize w st e in
  if ds =? 0 then writeTailBlock w out e else
  let! (out, n) := write_data w st out e ds in
  let! out :=
    (if negb (Z.rem n (w_blockSize w) =? 0)
     then Write_zeros w out (w_blockSize w - Z.rem n (w_blockSize w)) else Ok out) in
  writeTailBlock w out e.

Definition writeDataBlocks {S} `{Sink S} (w : erofsWriter) (st : store) (out : S) : res S :=
  let! entries := derefs st (w_entries w) in
  fold_res (write_entry_data w st) out entries.

(** ** Metadata *)

(** The bytes after the core and xattrs, and the offset after them. *)
Definition write_trailing {S} `{Sink S} (w : erofsWriter) (st : store) (buf : S) (e : erofsEntry) (metaStart : Z)
  : res (S * Z) :=
  let t := e_type e in
  if t =? StatTypeReg then
    if (e_layout e =? LayoutChunkBased) && ((0 <? e_size e) || (0 <? zlen (e_chunks e))) then
      let! (buf, metaStart) :=
        (if 0 <? e_chunkPad e then
           let! buf := Write_zeros w buf (e_chunkPad e) in Ok (buf, metaStart + e_chunkPad e)
         else Ok (buf, metaStart)) in
      let! buf := writeChunkIndexes w buf e in
      Ok (buf, metaStart + e_trailingSize e)
    else
      match e_data e with
      | Some src =>
          if (e_layout e =? LayoutFlatInline) && (0 <? e_size e) then
            let! (buf, n) := copy_data buf src (i64 (e_size e)) in
            reject negb (n =? i64 (e_size e)) with ErrUnexpectedEOF ;;
            Ok (buf, metaStart + n)
          else Ok (buf, metaStart)
      | None => Ok (buf, metaStart)
      end
  else if t =? StatTypeDir then
    if e_layout e =? LayoutFlatInline then
      let! (buf, n) := writeDirents w st buf e in Ok (buf, metaStart + n)
    else Ok (buf, metaStart)
  else if t =? StatTypeSymlink then
    if e_layout e =? LayoutFlatInline then
      let! buf := Write buf (e_symTarget e) in Ok (buf, metaStart + zlen (e_symTarget e))
    else Ok (buf, metaStart)
  else Ok (buf, metaStart).

(** One inode of [writeMetadataInodes], from offset [metaStart]. *)
Definition write_slot {S} `{Sink S} (w : erofsWriter) (st : store) (acc : S * Z) (e : erofsEntry) : res (S * Z) :=
  let '(buf, metaStart) := acc in
  let expectedOff := e_nid e * 32 in
  reject expectedOff <? metaStart with ErrMetaOverrun ;;
  let! (buf, metaStart) :=
    (if metaStart <? expectedOff then
       let! buf := Write_zeros w buf (expectedOff - metaStart) in Ok (buf, expectedOff)
     else Ok (buf, metaStart)) in
  let! buf := writeInode w st buf e in
  let metaStart := metaStart + (if e_compact e then SizeInodeCompact else SizeInodeExtended) in
  let! (buf, metaStart) :=
    (if 0 <? e_xattrSize e then
       let! buf := writeXattrs w buf e in Ok (buf, metaStart + e_xattrSize e)
     else Ok (buf, metaStart)) in
  let! (buf, metaStart) := write_trailing w st buf e metaStart in
  let inodeSize := if e_compact e then SizeInodeCompact else SizeInodeExtended in
  let totalWritten := inodeSize + e_xattrSize e + e_chunkPad e + e_trailingSize e in
  if negb (Z.rem totalWritten 32 =? 0) then
    let padSize := 32 - Z.rem totalWritten 32 in
    let! buf := Write_zeros w buf padSize in
    Ok (buf, metaStart + padSize)
  else Ok (buf, metaStart).

Definition writeMetadataInodes {S} `{Sink S} (w : erofsWriter) (st : store) (buf : S) : res S :=
  let! entries := derefs st (w_entries w) in
  let! (buf, metaStart) := fold_res (write_slot w st) (buf, 0) entries in
  if negb (Z.rem metaStart (w_blockSize w) =? 0)
  then Write_zeros w buf (w_blockSize w - Z.rem metaStart (w_blockSize w)) else Ok buf.

(** ** The superblock area *)

Definition superblock (w : erofsWriter) (st : store) (entries : list erofsEntry) : SuperBlock :=
  let metaBlocks := Z.quot (metadataBytes entries + w_blockSize w - 1) (w_blockSize w) in
  let dataBlocks := foldl (fun n e => n + data_blocks w st e) 0 entries in
  let totalBlocks := sbAreaBlocks w + metaBlocks + dataBlocks in
  let table := 0 <? zlen (w_devices w) in
  let incompat := if table then FeatureIncompatDeviceTable else 0 in
  let incompat :=
    if existsb (fun e => e_layout e =? LayoutChunkBased) entries
    then Z.lor incompat FeatureIncompatChunkedFile else incompat in
  {| sb_MagicNumber := MagicNumber; sb_Checksum := 0; sb_FeatureCompat := FeatureCompatSBChksum;
     sb_BlkSizeBits := blkBits (w_blockSize w); sb_ExtSlots := 0;
     sb_RootNid := u16 (w_rootNid w); sb_Inos := w_totalInodes w;
     sb_BuildTime := w_buildTime w; sb_BuildTimeNs := w_buildTimeNs w;
     sb_Blocks := u32 totalBlocks; sb_MetaBlkAddr := w_metaBlkAddr w; sb_XattrBlkAddr := 0;
     sb_UUID := zeros 16; sb_VolumeName := zeros 16;
     sb_FeatureIncompat := incompat; sb_ComprAlgs := 0;
     sb_ExtraDevices := if table then u16 (zlen (w_devices w)) else 0;
     sb_DevtSlotOff := if table then u16 (Z.quot (SuperBlockOffset + SizeSuperBlock) SizeDeviceSlot) else 0;
     sb_DirBlkBits := 0; sb_XattrPrefixCount := 0; sb_XattrPrefixStart := 0; sb_PackedNid := 0;
     sb_XattrFilterRes := 0; sb_IshareXattrPrefixID := 0; sb_Reserved := zeros 22 |}.

(** The device slots, from slot [i] on. *)
Fixpoint device_slots (sbArea : bytes) (i : Z) (devices : list Z) : res bytes :=
  match devices with
  | [] => Ok sbArea
  | blocks :: devices =>
      reject MaxUint32 <? blocks with ErrInvalid ;;
      let off := SuperBlockOffset + SizeSuperBlock + i * SizeDeviceSlot in
      let! tail := slice sbArea off (zlen sbArea) in
      let! tail := DeviceSlot_Marshal (mkDeviceSlot (zeros 64) (u32 blocks) 0 (zeros 56)) tail in
      device_slots (take (Z.to_nat off) sbArea ++ tail) (i + 1) devices
  end.

(** The bytes of [writeBlock0]: the superblock, the slots, then the checksum
    over them. *)
Definition block0 (w : erofsWriter) (st : store) (entries : list erofsEntry) : res bytes :=
  let sbArea := zeros (Z.to_nat (sbAreaSize w)) in
  let sb := superblock w st entries in
  let! tail := slice sbArea SuperBlockOffset (zlen sbArea) in
  let! tail := SuperBlock_Marshal sb tail in
  let! sbArea := device_slots (take (Z.to_nat SuperBlockOffset) sbArea ++ tail) 0 (w_devices w) in
  let start := SuperBlockOffset + checksumEnd in
  let! span := slice sbArea start (start + checksumSpan (sb_BlkSizeBits sb)) in
  Ok (put32 (Z.to_nat (SuperBlockOffset + 4)) (superblockChecksum span) sbArea).

Definition writeBlock0 {S} `{Sink S} (w : erofsWriter) (st : store) (buf : S) : res S :=
  let! entries := derefs st (w_entries w) in
  let! sbArea := block0 w st entries in
  Write buf sbArea.

(** ** The image *)

Definition writeSeekable {S} `{SeekSink S} (w : erofsWriter) (st : store) (out : S) : res S :=
  let w := with_metaBlkAddr w (2 ^ 32 - 1) in
  let! (w, st) := assignDataBlocks w st in
  let! out := Write out (zeros (Z.to_nat (sbAreaSize w))) in
  let! out := writeDataBlocks w st out in
  let! meta := writeMetadataInodes w st ([] : bytes) in
  let! out := Write out meta in
  let! out := SeekStart out in
  writeBlock0 w st out.

Definition write {S} `{SeekSink S} (w : erofsWriter) (st : store) (out : S) : res S :=
  let! _ := checkLimits w st in
  writeSeekable w st out.

(** ** What a writing function emits

    [emits buf r b]: the result [r] of writing to [buf] has appended [b], or
    failed because a write did, which a sink that never fails rules out. *)

Definition never_fails (S : Type) `{Sink S} : Prop := forall s p, is_ok (Write s p) = true.

Definition emits {S} `{Sink S} (buf : S) (r : res S) (b : bytes) : Prop :=
  match r with
  | Ok buf' => Written buf' = Written buf ++ b
  | Err _ => ~ never_fails S
  | Panic => False
  end.

(** The same for a function that also counts. *)
Definition emits_n {S} `{Sink S} (buf : S) (r : res (S * Z)) (b : bytes) (n : Z) : Prop :=
  match r with
  | Ok (buf', m) => Written buf' = Written buf ++ b /\ m = n
  | Err _ => ~ never_fails S
  | Panic => False
  end.

Lemma buffer_never_fails : never_fails bytes.
Proof. done. Qed.

(** A buffer always has it. *)
Lemma emits_buffer (buf : bytes) r b : emits buf r b -> r = Ok (buf ++ b).
Proof. destruct r as [b'|e|]; cbn; [intros <-; done|intros H; by destruct H|done]. Qed.

Section Emits.
Context {S : Type} `{SinkLaws S}.
Implicit Types buf : S.

Lemma emits_write buf p : emits buf (Write buf p) p.
Proof.
  destruct (Write buf p) as [b'|e|] eqn:E; cbn.
  - by apply Write_appends.
  - intros Hn. specialize (Hn buf p). by rewrite E in Hn.
  - by eapply Write_no_panic.
Qed.

Lemma emits_ret buf : emits buf (Ok buf) [].
Proof. cbn. by rewrite app_nil_r. Qed.

Lemma emits_bind buf (r : res S) b1 (k : S -> res S) b2 :
  emits buf r b1 -> (forall buf', Written buf' = Written buf ++ b1 -> emits buf' (k buf') b2) ->
  emits buf (let! x := r in k x) (b1 ++ b2).
Proof.
  intros H1 H2. destruct r as [b'|e|]; cbn in *; try done.
  specialize (H2 b' H1). destruct (k b') as [b''|e|]; cbn in *; try done.
  by rewrite H2, H1, app_assoc.
Qed.

Lemma emits_bind_n buf (r : res S) b1 (k : S -> res (S * Z)) b2 n :
  emits buf r b1 -> (forall buf', Written buf' = Written buf ++ b1 -> emits_n buf' (k buf') b2 n) ->
  emits_n buf (let! x := r in k x) (b1 ++ b2) n.
Proof.
  intros H1 H2. destruct r as [b'|e|]; cbn in *; try done.
  specialize (H2 b' H1). destruct (k b') as [[b'' m]|e|]; cbn in *; try done.
  destruct H2 as [H2 ->]. by rewrite H2, H1, app_assoc.
Qed.

Lemma emits_n_bind buf (r : res (S * Z)) b1 n (k : S -> Z -> res S) b2 :
  emits_n buf r b1 n -> (forall buf', Written buf' = Written buf ++ b1 -> emits buf' (k buf' n) b2) ->
  emits buf (let! (x, m) := r in k x m) (b1 ++ b2).
Proof.
  intros H1 H2. destruct r as [[b' m]|e|]; cbn in *; try done. destruct H1 as [H1 ->].
  specialize (H2 b' H1). destruct (k b' n) as [b''|e|]; cbn in *; try done.
  by rewrite H2, H1, app_assoc.
Qed.

Lemma emits_n_bind_n buf (r : res (S * Z)) b1 n (k : S -> Z -> res (S * Z)) b2 n2 :
  emits_n buf r b1 n -> (forall buf', Written buf' = Written buf ++ b1 -> emits_n buf' (k buf' n) b2 n2) ->
  emits_n buf (let! (x, m) := r in k x m) (b1 ++ b2) n2.
Proof.
  intros H1 H2. destruct r as [[b' m]|e|]; cbn in *; try done. destruct H1 as [H1 ->].
  specialize (H2 b' H1). destruct (k b' n) as [[b'' m2]|e|]; cbn in *; try done.
  destruct H2 as [H2 ->]. by rewrite H2, H1, app_assoc.
Qed.

Lemma emits_ret_n buf n : emits_n buf (Ok (buf, n)) [] n.
Proof. cbn. by rewrite app_nil_r. Qed.

(** A loop over a list emits what its turns emit. *)
Lemma emits_fold {A} (f : S -> A -> res S) (g : A -> bytes) l buf :
  (forall buf x, x ∈ l -> emits buf (f buf x) (g x)) -> emits buf (fold_res f buf l) (mjoin (g <$> l)).
Proof.
  revert buf. induction l as [|x l IH]; intros buf Hf; [apply emits_ret|].
  cbn [fold_res fmap list_fmap mjoin list_join]. apply emits_bind; [apply Hf; left|].
  intros buf' _. apply IH. intros. apply Hf. by right.
Qed.

Lemma emits_zeros w buf n :
  0 <= n <= w_blockSize w -> emits buf (Write_zeros w buf n) (zeros (Z.to_nat n)).
Proof.
  intros Hn. unfold Write_zeros, zeroBuf.
  rewrite slice_ok; [|lia|unfold zlen; rewrite length_zeros; lia].
  replace (sub _ _ _) with (zeros (Z.to_nat n)); [apply emits_write|].
  unfold sub, zeros. rewrite drop_0, take_replicate. f_equal. lia.
Qed.

End Emits.

(** ** The bytes of an xattr area *)

Definition xattr_record (name value : bytes) : bytes :=
  let '(nameIndex, suffix) := xattrSplit name in
  let entryLen := SizeXattrEntry + zlen suffix + zlen value in
  xattr_entry nameIndex suffix value ++ suffix ++ value ++
  zeros (Z.to_nat (if negb (entryLen mod 4 =? 0) then 4 - entryLen mod 4 else 0)).

Definition xattr_area (m : gmap bytes bytes) : bytes :=
  xattr_header ++ mjoin ((fun k => xattr_record k (default [] (m !! k))) <$> sortedXattrKeys m).

Lemma length_xattr_entry i s v : length (xattr_entry i s v) = 4%nat.
Proof. unfold xattr_entry, put16, put8. by rewrite !length_splice by (rewrite ?length_splice; vm_compute; lia). Qed.

Lemma xattr_record_len name value : zlen (xattr_record name value) = xattrEntrySize name value.
Proof.
  unfold xattr_record, xattrEntrySize. destruct (xattrSplit name) as [i s].
  rewrite !zlen_app. unfold zlen at 1 4. rewrite length_xattr_entry, length_zeros.
  change (Z.of_nat 4) with SizeXattrEntry. set (n := SizeXattrEntry + zlen s + zlen value).
  pose proof (Z.mod_pos_bound n 4 ltac:(lia)). rewrite Z2Nat.id by (case_match; lia).
  replace (SizeXattrEntry + (zlen s + (zlen value + _))) with
    (n + (if negb (n mod 4 =? 0) then 4 - n mod 4 else 0)) by (unfold n; lia).
  destruct (Z.eqb_spec (n mod 4) 0) as [E|E]; cbn [negb]; [lia|].
  change (Z.lnot 3) with (Z.lnot (2 ^ 2 - 1)). rewrite land_lnot_pow2 by lia. change (2 ^ 2) with 4.
  pose proof (Z.div_mod n 4 ltac:(lia)) as D.
  replace ((n + 3) mod 4) with (n mod 4 - 1); [lia|].
  apply (Z.mod_unique _ _ (n / 4 + 1)); lia.
Qed.

Lemma mjoin_len {A} (f : A -> bytes) l :
  zlen (mjoin (f <$> l)) = foldr (fun x n => zlen (f x) + n) 0 l.
Proof.
  induction l as [|x l IH]; [done|]. cbn [fmap list_fmap mjoin list_join foldr].
  rewrite zlen_app. f_equal. exact IH.
Qed.

Lemma sum_perm {A} (g : A -> Z) l l' :
  l ≡ₚ l' -> foldr (fun x n => g x + n) 0 l = foldr (fun x n => g x + n) 0 l'.
Proof. induction 1; cbn; lia. Qed.

(** The area takes what planning reserved for it. *)
Lemma xattr_area_len m : m <> ∅ -> zlen (xattr_area m) = calcXattrSize m.
Proof.
  intros Hm. unfold xattr_area, calcXattrSize. rewrite zlen_app.
  rewrite bool_decide_false by (by rewrite map_size_empty_iff).
  change (zlen xattr_header) with 12. unfold SizeXattrBodyHeader. f_equal.
  rewrite mjoin_len.
  set (f := fun k n => zlen (xattr_record k (default [] (m !! k))) + n).
  transitivity (foldr f 0 (fst <$> map_to_list m)).
  { apply (sum_perm (fun k => zlen (xattr_record k (default [] (m !! k))))), sortedXattrKeys_perm. }
  rewrite map_fold_foldr.
  assert (G : forall l, (forall k v, (k, v) ∈ l -> m !! k = Some v) ->
    foldr f 0 (fst <$> l) = foldr (uncurry (fun name value acc => acc + xattrEntrySize name value)) 0 l).
  { induction l as [|[k v] l IH]; intros Hl; [done|]. cbn. rewrite IH by (intros; apply Hl; by right).
    unfold f. rewrite (Hl k v) by left. cbn. rewrite xattr_record_len. lia. }
  apply G. intros k v Hkv. by apply elem_of_map_to_list.
Qed.

Lemma writeXattr_emits {S} `{SinkLaws S} w m (buf : S) name :
  writer_ok w -> emits buf (writeXattr w m buf name) (xattr_record name (default [] (m !! name))).
Proof.
  intros Hw. unfold writeXattr, xattr_record. destruct (xattrSplit name) as [i s].
  set (v := default [] (m !! name)). set (n := SizeXattrEntry + zlen s + zlen v).
  do 3 (apply emits_bind; [apply emits_write|intros ? _]).
  pose proof (Z.mod_pos_bound n 4 ltac:(lia)). pose proof (writer_ok_pos w Hw).
  case_match; [apply emits_zeros; lia|apply emits_ret].
Qed.

(** [writeXattrs] writes the area. *)
Lemma writeXattrs_emits {S} `{SinkLaws S} w (buf : S) e :
  writer_ok w -> emits buf (writeXattrs w buf e) (xattr_area (e_xattrs e)).
Proof.
  intros Hw. unfold writeXattrs, xattr_area. apply emits_bind; [apply emits_write|]. intros buf' _.
  apply emits_fold. intros. by apply writeXattr_emits.
Qed.
