(* ===== verification/Roundtrip.v ===== *)
(** * Reading back what was written

    The bytes the serializer of [Serialize] produces, decoded by the reader of
    [Inode], [Xattr], [Dir], [Data] and [Open]: inodes, xattr areas, directory
    blocks, chunk maps and the superblock come back as they were planned. *)

From S2P Require Import Prelude Machine Disk Format Image Inode Data Reading Dir Xattr Open Layout Serialize.

(** ** Inodes *)

Definition compact_fields (w : erofsWriter) (st : store) (e : erofsEntry) : list field :=
  [(2, Some (le_encode 2 (inodeFormat (e_layout e) true))); (2, Some (le_encode 2 (xattrCount (e_xattrSize e))));
   (2, Some (le_encode 2 (e_mode e))); (2, Some (le_encode 2 (u16 (e_nlink e))));
   (4, Some (le_encode 4 (u32 (inodeFileSize w st e)))); (4, None); (4, Some (le_encode 4 (inode_data w e)));
   (4, None); (2, Some (le_encode 2 (u16 (e_uid e)))); (2, Some (le_encode 2 (u16 (e_gid e)))); (4, None)]%nat.

Definition extended_fields (w : erofsWriter) (st : store) (e : erofsEntry) : list field :=
  [(2, Some (le_encode 2 (inodeFormat (e_layout e) false))); (2, Some (le_encode 2 (xattrCount (e_xattrSize e))));
   (2, Some (le_encode 2 (e_mode e))); (2, None); (8, Some (le_encode 8 (inodeFileSize w st e)));
   (4, Some (le_encode 4 (inode_data w e))); (4, None); (4, Some (le_encode 4 (e_uid e)));
   (4, Some (le_encode 4 (e_gid e))); (8, Some (le_encode 8 (e_mtime e))); (4, Some (le_encode 4 (e_mtimeNs e)));
   (4, Some (le_encode 4 (e_nlink e))); (16, None)]%nat.

Lemma compact_bytes_fields w st e :
  compact_bytes w st e = put_fields 0 (compact_fields w st e) (zeros 64).
Proof.
  unfold compact_bytes. set (z := zeros 64). clearbody z.
  cbv beta iota zeta delta [put_fields compact_fields put16 put32 Nat.add]. reflexivity.
Qed.

Lemma extended_bytes_fields w st e :
  extended_bytes w st e = put_fields 0 (extended_fields w st e) (zeros 64).
Proof.
  unfold extended_bytes. set (z := zeros 64). clearbody z.
  cbv beta iota zeta delta [put_fields extended_fields put16 put32 put64 Nat.add]. reflexivity.
Qed.

Lemma compact_fields_wf w st e : Forall field_wf (compact_fields w st e).
Proof. repeat constructor. Qed.

Lemma extended_fields_wf w st e : Forall field_wf (extended_fields w st e).
Proof. repeat constructor. Qed.

Lemma compact_fields_room w st e : (0 + fields_size (compact_fields w st e) <= length (zeros 64))%nat.
Proof. rewrite length_zeros. change (fields_size (compact_fields w st e)) with 32%nat. lia. Qed.

Lemma extended_fields_room w st e : (0 + fields_size (extended_fields w st e) <= length (zeros 64))%nat.
Proof. rewrite length_zeros. change (fields_size (extended_fields w st e)) with 64%nat. lia. Qed.

#[local] Hint Resolve compact_fields_wf extended_fields_wf compact_fields_room extended_fields_room : disk.

(** The bytes of an inode's core. *)
Definition core_bytes (w : erofsWriter) (st : store) (e : erofsEntry) : bytes :=
  if e_compact e then sub (compact_bytes w st e) 0 32 else sub (extended_bytes w st e) 0 64.

Lemma writeInode_core {S} `{Sink S} w st (buf : S) e :
  writeInode w st buf e = Write buf (core_bytes w st e).
Proof. unfold writeInode, core_bytes. by destruct (e_compact e). Qed.

Lemma length_core_bytes w st e : zlen (core_bytes w st e) = inodeCoreSize e.
Proof.
  unfold core_bytes, inodeCoreSize, zlen. destruct (e_compact e).
  - rewrite length_sub; [done|].
    rewrite compact_bytes_fields, length_put_fields by auto with disk. rewrite length_zeros. lia.
  - rewrite length_sub; [done|].
    rewrite extended_bytes_fields, length_put_fields by auto with disk. rewrite length_zeros. lia.
Qed.

(** The fields of an entry at the widths the inode stores them in, and the
    layouts [planLayout] chooses among. *)
Record inode_fits (w : erofsWriter) (st : store) (e : erofsEntry) : Prop := {
  nf_mode : is_u16 (e_mode e);
  nf_uid : is_u32 (e_uid e);
  nf_gid : is_u32 (e_gid e);
  nf_nlink : is_u32 (e_nlink e);
  nf_mtime : is_u64 (e_mtime e);
  nf_mtimeNs : is_u32 (e_mtimeNs e);
  nf_size : is_u64 (inodeFileSize w st e);
  nf_data : is_u32 (inode_data w e);
  nf_xattr : 0 <= xattrICount (e_xattrSize e) <= maxXattrICount;
  nf_layout : e_layout e = LayoutFlatPlain \/ e_layout e = LayoutFlatInline \/ e_layout e = LayoutChunkBased;
  nf_compact : e_compact e = true ->
    e_uid e <= 0xFFFF /\ e_gid e <= 0xFFFF /\ e_nlink e <= 0xFFFF /\ inodeFileSize w st e <= 0xFFFFFFFF /\
    e_mtime e = w_buildTime w /\ e_mtimeNs e = w_buildTimeNs w;
}.

(** The inode a reader decodes from the core of [e]. *)
Definition inode_of (w : erofsWriter) (st : store) (e : erofsEntry) (name : bytes) (nid : Z) : inode :=
  {| ino_name := name; ino_nid := nid; ino_icsize := inodeCoreSize e; ino_xsize := 0;
     ino_inodeLayout := e_layout e; ino_inodeData := inode_data w e;
     ino_startHi := 0; ino_addr48 := negb (e_compact e);
     ino_size := i64 (inodeFileSize w st e);
     ino_mode := EroFSModeToGoFileMode (e_mode e); ino_rawMode := e_mode e;
     ino_uid := e_uid e; ino_gid := e_gid e; ino_nlink := e_nlink e;
     ino_mtime := e_mtime e; ino_mtimeNs := e_mtimeNs e |}.

Definition inode_image_ok (w : erofsWriter) (img : image) : Prop :=
  sb_BuildTime (img_sb img) = w_buildTime w /\ sb_BuildTimeNs (img_sb img) = w_buildTimeNs w.

Lemma compact_gets w st e :
  segs 0 (fst <$> compact_fields w st e) (compact_bytes w st e) =
  field_values 0 (compact_fields w st e) (zeros 64).
Proof. rewrite compact_bytes_fields. apply segs_put_fields; auto with disk. Qed.

Lemma extended_gets w st e :
  segs 0 (fst <$> extended_fields w st e) (extended_bytes w st e) =
  field_values 0 (extended_fields w st e) (zeros 64).
Proof. rewrite extended_bytes_fields. apply segs_put_fields; auto with disk. Qed.

(** Split the list of a structure's fields into one equation per field. *)
Ltac split_fields H b fs :=
  unfold fs in H; set (bb := b) in *; clearbody bb;
  cbn [fmap list_fmap fst segs field_values Nat.add] in H; inject_all H.

Lemma core_format w st e :
  inode_fits w st e ->
  get16 (core_bytes w st e) 0 = inodeFormat (e_layout e) (e_compact e) /\
  checkInodeFormat (inodeFormat (e_layout e) (e_compact e)) = Ok tt /\
  u8 (Z.shiftr (Z.land (inodeFormat (e_layout e) (e_compact e)) InodeFormatLayoutMask) 1) = e_layout e /\
  (Z.land (inodeFormat (e_layout e) (e_compact e)) InodeFormatExtended =? 0) = e_compact e /\
  Z.land (inodeFormat (e_layout e) (e_compact e)) InodeFormatNlink1 = 0.
Proof.
  intros Hf. split.
  - unfold core_bytes, get16. destruct (e_compact e).
    + pose proof (compact_gets w st e) as H. rewrite sub_sub by lia.
      split_fields H (compact_bytes w st e) compact_fields. change (0 + 0)%nat with 0%nat. rewrite F.
      apply get_of_le16. destruct (nf_layout _ _ _ Hf) as [-> | [-> | ->]]; by vm_compute.
    + pose proof (extended_gets w st e) as H. rewrite sub_sub by lia.
      split_fields H (extended_bytes w st e) extended_fields. change (0 + 0)%nat with 0%nat. rewrite F.
      apply get_of_le16. destruct (nf_layout _ _ _ Hf) as [-> | [-> | ->]]; by vm_compute.
  - destruct (nf_layout _ _ _ Hf) as [-> | [-> | ->]]; destruct (e_compact e); repeat split; by vm_compute.
Qed.

Lemma le_zeros n : le (zeros n) = 0.
Proof. unfold zeros. induction n as [|n IH]; [done|]. cbn [replicate].
  change (Z_of_byte x00 + 256 * le (replicate n x00) = 0). by rewrite IH.
Qed.

(** Decoding the core written for [e], whatever follows it. *)
Lemma decode_core w st e img name nid rest :
  inode_fits w st e -> inode_image_ok w img ->
  decodeInode img name nid (core_bytes w st e ++ rest) (inodeFormat (e_layout e) (e_compact e)) =
  Ok (inode_of w st e name nid, xattrICount (e_xattrSize e)).
Proof.
  intros Hf [Hb1 Hb2]. destruct (core_format w st e Hf) as (F1 & F2 & F3 & F4 & F5).
  pose proof (length_core_bytes w st e) as HL.
  assert (HL' : length (core_bytes w st e) = Z.to_nat (inodeCoreSize e)) by (unfold zlen in HL; lia).
  unfold decodeInode. rewrite F3, F4, F5. clear F1 F2 F3 F4 F5.
  assert (X : xattrCount (e_xattrSize e) = xattrICount (e_xattrSize e)).
  { apply Z.mod_small. destruct (nf_xattr _ _ _ Hf). unfold maxXattrICount in *. lia. }
  destruct Hf as [N1 N2 N3 N4 N5 N6 N7 N8 N9 _ N10]. unfold inode_of, inodeCoreSize in *.
  unfold core_bytes in *. destruct (e_compact e).
  - destruct N10 as (C1 & C2 & C3 & C4 & C5 & C6); [done|].
    unfold InodeCompact_Unmarshal. rewrite zlen_app, HL.
    rewrite (proj2 (Z.ltb_ge _ _)) by (pose proof (zlen_nonneg rest); lia).
    unfold get16, get32. rewrite !sub_app_l by (rewrite HL'; vm_compute; lia). rewrite !sub_sub by lia.
    pose proof (compact_gets w st e) as H. split_fields H (compact_bytes w st e) compact_fields.
    cbn [ic_Mode ic_NB ic_InodeData ic_Size ic_UID ic_GID ic_Mtime ic_XattrCount Nat.add].
    repeat match goal with E : sub bb _ _ = _ |- _ => rewrite ?E; clear E end.
    rewrite X. unfold is_u16, is_u32, is_u64 in *. unfold maxXattrICount in *.
    unfold u16, u32. rewrite !(Z.mod_small (e_nlink e)), (Z.mod_small (e_uid e)), (Z.mod_small (e_gid e)),
      (Z.mod_small (inodeFileSize w st e)) by lia.
    rewrite !get_of_le16, !get_of_le32 by (unfold is_u16, is_u32; lia).
    change (0 =? 0) with true. rewrite !andb_false_r.
    change (le (sub (zeros 64) 12 4)) with 0. rewrite Z.add_0_r, Hb1, Hb2, <- C5, <- C6.
    unfold u64. rewrite Z.mod_small, i64_id by lia. done.
  - unfold SizeInodeExtended in *. rewrite zlen_app, HL.
    rewrite (proj2 (Z.ltb_ge _ _)) by (pose proof (zlen_nonneg rest); lia).
    unfold InodeExtended_Unmarshal, SizeInodeExtended. rewrite zlen_app, HL.
    rewrite (proj2 (Z.ltb_ge _ _)) by (pose proof (zlen_nonneg rest); lia).
    unfold get16, get32, get64. rewrite !sub_app_l by (rewrite HL'; vm_compute; lia). rewrite !sub_sub by lia.
    pose proof (extended_gets w st e) as H. split_fields H (extended_bytes w st e) extended_fields.
    cbn [ie_Mode ie_NB ie_InodeData ie_Size ie_UID ie_GID ie_Mtime ie_MtimeNs ie_Nlink ie_XattrCount Nat.add].
    repeat match goal with E : sub bb _ _ = _ |- _ => rewrite ?E; clear E end.
    rewrite X. unfold maxXattrICount in *.
    rewrite !get_of_le16, !get_of_le32, !get_of_le64 by (done || (unfold is_u16; lia)). done.
Qed.

Lemma xattrBodySize_icount n :
  16 <= n -> n mod 4 = 0 -> xattrICount n <= maxXattrICount ->
  0 < xattrICount n /\ xattrBodySize (xattrICount n) = Ok n.
Proof.
  intros Hn Hm Hx. unfold xattrICount, SizeXattrBodyHeader, SizeXattrEntry, maxXattrICount in *.
  rewrite (proj2 (Z.eqb_neq n 0)) in * by lia.
  assert (E : Z.quot (n - 12) 4 = n / 4 - 3).
  { rewrite Z.quot_div_nonneg by lia. replace (n - 12) with (n + (-3) * 4) by lia. rewrite Z.div_add; lia. }
  rewrite E in *. pose proof (Z.div_mod n 4 ltac:(lia)). split; [lia|].
  unfold xattrBodySize, SizeXattrEntry, SizeXattrBodyHeader.
  rewrite (proj2 (Z.eqb_neq _ _)) by lia. unfold u16. rewrite Z.mod_small by lia. f_equal. lia.
Qed.

(** The core written for an entry is one the reader accepts and decodes,
    whatever follows it, to an inode with the entry's mode, ids, link count,
    size, times, layout and data word, and to the xattr count from which the
    size of the entry's xattr area is computed back. *)
Theorem inode_roundtrip w st e img name nid rest :
  inode_fits w st e -> inode_image_ok w img ->
  e_xattrSize e = 0 \/ 16 <= e_xattrSize e /\ e_xattrSize e mod 4 = 0 ->
  get16 (core_bytes w st e) 0 = inodeFormat (e_layout e) (e_compact e) /\
  checkInodeFormat (inodeFormat (e_layout e) (e_compact e)) = Ok tt /\
  exists xcnt,
    decodeInode img name nid (core_bytes w st e ++ rest) (inodeFormat (e_layout e) (e_compact e)) =
      Ok (inode_of w st e name nid, xcnt) /\
    (e_xattrSize e = 0 -> xcnt = 0) /\
    (0 < e_xattrSize e -> 0 < xcnt /\ xattrBodySize xcnt = Ok (e_xattrSize e)).
Proof.
  intros Hf Hi Hx. destruct (core_format w st e Hf) as (F1 & F2 & _).
  split; [done|]. split; [done|]. exists (xattrICount (e_xattrSize e)).
  split; [by apply decode_core|]. split; [by intros ->|].
  intros H0. destruct Hx as [Hx|[H1 H2]]; [lia|]. apply xattrBodySize_icount; try done.
  by destruct (nf_xattr _ _ _ Hf).
Qed.

Lemma inode_roundtrip_witness :
  let e := (plan_entry example_writer example_store 128 example_file).1 in
  inode_fits example_writer example_store e /\
  exists xcnt, decodeInode example_img [] 4 (core_bytes example_writer example_store e)
                 (inodeFormat (e_layout e) (e_compact e)) =
               Ok (inode_of example_writer example_store e [] 4, xcnt) /\ xattrBodySize xcnt = Ok 20.
Proof.
  intros e.
  assert (Hf : inode_fits example_writer example_store e).
  { split; try (repeat split; vm_compute; congruence).
    right; left. vm_compute; congruence. }
  split; [done|].
  destruct (inode_roundtrip example_writer example_store e example_img [] 4 [] Hf) as (_ & _ & x & H1 & _ & H3).
  - split; vm_compute; congruence.
  - right. split; vm_compute; congruence.
  - exists x. rewrite app_nil_r in H1. split; [done|].
    assert (X : e_xattrSize e = 20) by (by vm_compute). rewrite <- X. apply H3. by rewrite X.
Defined.

(** ** Xattr areas *)

Lemma round_up_unique v r k :
  0 <= k -> v <= r < v + 2 ^ k -> r mod 2 ^ k = 0 -> round_up_pow2 v (2 ^ k) = r.
Proof.
  intros Hk Hr Hm. destruct (round_up_pow2_spec v k Hk) as [H1 H2].
  pose proof (Z.pow_pos_nonneg 2 k ltac:(lia) Hk).
  apply Z.div_exact in Hm; [|lia]. apply Z.div_exact in H2; [|lia].
  set (q := round_up_pow2 v (2 ^ k)) in *. rewrite Hm, H2.
  assert (q / 2 ^ k = r / 2 ^ k) as ->; [|done].
  generalize dependent (q / 2 ^ k). generalize dependent (r / 2 ^ k). intros; subst; nia.
Qed.

(** Reading within the middle of three pieces. *)
Lemma sub_mid {A} (a b c : list A) o n k :
  k = (length a + o)%nat -> (o + n <= length b)%nat -> sub (a ++ b ++ c) k n = sub b o n.
Proof.
  intros -> H. rewrite sub_app_r by lia. replace (length a + o - length a)%nat with o by lia.
  by apply sub_app_l.
Qed.

Lemma xattr_entry_gets i s v :
  is_u8 i -> is_u8 (zlen s) -> is_u16 (zlen v) ->
  let b := xattr_entry i s v in
  get8 b 0 = zlen s /\ get8 b 1 = i /\ get16 b 2 = zlen v.
Proof.
  intros Hi Hs Hv. unfold xattr_entry, get8, get16, put8, put16.
  assert (L : length (zeros 4) = 4%nat) by done.
  cbv zeta. split; [|split].
  - fields. unfold u8. rewrite Z.mod_small by apply Hs. by apply get_of_le8.
  - fields. by apply get_of_le8.
  - fields. unfold u16. rewrite Z.mod_small by apply Hv. by apply get_of_le16.
Qed.

(** A name and value the format can hold. *)
Definition xattr_fits (name value : bytes) : Prop :=
  is_u8 (zlen (xattrSplit name).2) /\ is_u16 (zlen value).

(** Decoding one entry in the middle of an area. *)
Lemma ref_inline_record fuel img pre post name value m :
  xattr_fits name value -> zlen pre mod 4 = 0 -> m !! name = None ->
  ref_inline (S fuel) img (pre ++ xattr_record name value ++ post) (zlen pre) m =
  ref_inline fuel img (pre ++ xattr_record name value ++ post)
    (zlen (pre ++ xattr_record name value)) (<[name := value]> m).
Proof.
  intros [Hs Hv] Hp Hm. set (area := pre ++ xattr_record name value ++ post).
  pose proof (xattr_record_len name value) as HL.
  pose proof (xattrEntrySize_spec name value) as [HE1 HE2]. cbn zeta in *.
  assert (HA : zlen area = zlen pre + xattrEntrySize name value + zlen post).
  { unfold area. rewrite !zlen_app. lia. }
  unfold xattr_record in *. pose proof (xattrSplit_parts name) as HP.
  destruct (xattrSplit name) as [idx s] eqn:ES. cbn [fst snd] in *. destruct HP as (Hi & Hpre & Hname).
  set (pad := zeros _) in *. pose proof (zlen_nonneg pre). pose proof (zlen_nonneg post).
  pose proof (zlen_nonneg s). pose proof (zlen_nonneg value).
  assert (Hi8 : is_u8 idx) by (unfold is_u8; lia).
  destruct (xattr_entry_gets idx s value Hi8 Hs Hv) as (G1 & G2 & G3).
  set (ent := xattr_entry idx s value) in *. assert (LE : length ent = 4%nat) by apply length_xattr_entry.
  assert (R : forall o n k, (o + n <= 4)%nat -> k = (length pre + o)%nat -> sub area k n = sub ent o n).
  { intros o n k Ho ->. unfold area. rewrite <- !(app_assoc ent). apply (sub_mid pre ent); [done|lia]. }
  assert (ZP : Z.to_nat (zlen pre) = length pre) by (unfold zlen; lia).
  cbn [ref_inline]. rewrite (proj2 (Z.leb_gt _ _)) by lia. rewrite (proj2 (Z.ltb_ge _ _)) by lia.
  assert (E0 : get8 area (Z.to_nat (zlen pre)) = zlen s).
  { rewrite <- G1. unfold get8. f_equal. apply R; lia. }
  assert (E1 : get8 area (Z.to_nat (zlen pre) + 1) = idx).
  { rewrite <- G2. unfold get8. f_equal. apply R; lia. }
  assert (E2 : get16 area (Z.to_nat (zlen pre) + 2) = zlen value).
  { rewrite <- G3. unfold get16. f_equal. apply R; lia. }
  rewrite E0, E1, E2. unfold entry_prefix.
  assert (HF : Z.land idx XattrLongPrefixFlag = 0).
  { clear - Hi. assert (idx = 0 \/ idx = 1 \/ idx = 2 \/ idx = 3 \/ idx = 4 \/ idx = 5 \/ idx = 6) as Hin by lia.
    destruct_or! Hin; subst; reflexivity. }
  rewrite HF. cbn [negb Z.eqb]. rewrite Hpre.
  rewrite (proj2 (Z.ltb_ge _ _)) by lia.
  assert (N : sub area (Z.to_nat (zlen pre + 4)) (Z.to_nat (zlen s)) = s).
  { unfold area. replace (pre ++ (ent ++ s ++ value ++ pad) ++ post)
      with ((pre ++ ent) ++ s ++ (value ++ pad ++ post)) by (by rewrite <- !app_assoc).
    rewrite (sub_mid _ s _ 0); [apply sub_all| |]; unfold zlen; rewrite ?length_app; lia. }
  assert (V : sub area (Z.to_nat (zlen pre + 4 + zlen s)) (Z.to_nat (zlen value)) = value).
  { unfold area. replace (pre ++ (ent ++ s ++ value ++ pad) ++ post)
      with ((pre ++ ent ++ s) ++ value ++ (pad ++ post)) by (by rewrite <- !app_assoc).
    rewrite (sub_mid _ value _ 0); [apply sub_all| |]; unfold zlen; rewrite ?length_app; lia. }
  rewrite N, V, Hname. unfold setXattr. rewrite Hm. f_equal.
  rewrite zlen_app, HL. apply (round_up_unique _ _ 2); [lia|change (2 ^ 2) with 4; lia|].
  change (2 ^ 2) with 4. rewrite Z.add_mod, Hp, HE2 by lia. done.
Qed.

(** The map of a list of keys taken from [m]. *)
Definition gather (m : gmap bytes bytes) (acc : gmap bytes bytes) (ks : list bytes) : gmap bytes bytes :=
  foldl (fun acc k => <[k := default [] (m !! k)]> acc) acc ks.

Lemma gather_lookup m acc ks k :
  gather m acc ks !! k = if bool_decide (k ∈ ks) then Some (default [] (m !! k)) else acc !! k.
Proof.
  revert acc. induction ks as [|k' ks IH]; intros acc; cbn; [done|]. unfold gather in IH. rewrite IH.
  destruct (decide (k ∈ ks)) as [H|H].
  - rewrite !bool_decide_true; try done. by right.
  - rewrite (bool_decide_false (k ∈ ks)) by done. destruct (decide (k = k')) as [->|Hne].
    + rewrite bool_decide_true by left. by rewrite lookup_insert_eq.
    + rewrite bool_decide_false by (intros [?|?]%elem_of_cons; done). by rewrite lookup_insert_ne.
Qed.

Lemma gather_all m : gather m ∅ (sortedXattrKeys m) = m.
Proof.
  apply map_eq. intros k. rewrite gather_lookup, lookup_empty. case_bool_decide as H.
  - apply elem_of_sortedXattrKeys in H as [v Hv]. by rewrite Hv.
  - destruct (m !! k) as [v|] eqn:E; [|done]. exfalso. apply H, elem_of_sortedXattrKeys. eauto.
Qed.

Lemma ref_inline_records (img : image) m fuel pre ks acc :
  (forall k, k ∈ ks -> xattr_fits k (default [] (m !! k)) /\ acc !! k = None) -> NoDup ks ->
  zlen pre mod 4 = 0 -> (length ks <= fuel)%nat ->
  ref_inline fuel img (pre ++ mjoin ((fun k => xattr_record k (default [] (m !! k))) <$> ks)) (zlen pre) acc =
  Ok (gather m acc ks).
Proof.
  revert fuel pre acc. induction ks as [|k ks IH]; intros fuel pre acc Hk Hnd Hp Hf.
  { change (mjoin _) with (@nil byte). rewrite app_nil_r.
    destruct fuel; cbn [ref_inline]; by rewrite (proj2 (Z.leb_le _ _)) by lia. }
  apply NoDup_cons in Hnd as [Hkn Hnd]. cbn [fmap list_fmap mjoin list_join] in *.
  destruct fuel as [|fuel]; [cbn in Hf; lia|]. destruct (Hk k ltac:(left)) as [Hfit Hacc].
  rewrite ref_inline_record by done. rewrite app_assoc. apply IH; try done.
  - intros k' Hk'. destruct (Hk k' ltac:(by right)) as [? ?]. split; [done|].
    rewrite lookup_insert_ne; [done|]. intros ->. done.
  - rewrite zlen_app, xattr_record_len.
    destruct (xattrEntrySize_spec k (default [] (m !! k))) as [_ HE]. rewrite Z.add_mod, Hp, HE by lia. done.
  - cbn in Hf. lia.
Qed.

Lemma length_mjoin_ge {A} (f : A -> bytes) l :
  (forall x, (1 <= length (f x))%nat) -> (length l <= length (mjoin (f <$> l)))%nat.
Proof.
  intros Hf. induction l as [|x l IH]; [done|]. cbn [fmap list_fmap mjoin list_join length].
  rewrite length_app. specialize (Hf x). apply (Nat.add_le_mono 1); [done|exact IH].
Qed.

(** The reference decoder reads the attributes back from the area. *)
Lemma ref_xattrs_area (img : image) (m : gmap bytes bytes) :
  m <> ∅ -> (forall k v, m !! k = Some v -> validateXattr k v = Ok tt) -> ref_xattrs img (xattr_area m) = Ok m.
Proof.
  intros Hm Hv.
  pose proof (xattr_area_len m Hm) as HL. destruct (calcXattrSize_spec m) as [[_ ?]|(_ & Hs & _)]; [done|].
  unfold ref_xattrs. assert (E : get8 (xattr_area m) 4 = 0).
  { unfold xattr_area, get8. rewrite sub_app_l by (vm_compute; lia). reflexivity. }
  rewrite E. change (12 + 0 * 4) with (zlen xattr_header).
  rewrite (proj2 (Z.ltb_ge _ _)) by (change (zlen xattr_header) with 12; lia).
  cbn [ref_shared Z.to_nat].
  transitivity (Ok (gather m ∅ (sortedXattrKeys m))); [|by rewrite gather_all].
  apply (ref_inline_records img m _ xattr_header); [|apply NoDup_sortedXattrKeys|done|].
  - intros k Hk. apply elem_of_sortedXattrKeys in Hk as [v Hk]. rewrite Hk. split; [|by rewrite lookup_empty].
    by apply validateXattr_fits, Hv.
  - unfold xattr_area. rewrite length_app. etransitivity; [|apply Nat.le_add_l].
    apply length_mjoin_ge. intros k. apply Nat2Z.inj_le. change (1 <= zlen (xattr_record k (default [] (m !! k)))).
    rewrite xattr_record_len. destruct (xattrEntrySize_spec k (default [] (m !! k))) as [HE _]. cbn zeta in HE.
    pose proof (zlen_nonneg (xattrSplit k).2). pose proof (zlen_nonneg (default [] (m !! k))). lia.
Qed.

(** C29: attributes written are the attributes read.  [writeXattrs] of a map of
    validated attributes fails only with the output, and appends the bytes
    planning reserved for the area; on any image that holds those bytes after an
    inode's core, the inode's xattr size being theirs, [loadXattrs] answers
    exactly the map. *)
Theorem xattr_roundtrip {S} `{SinkLaws S} w (buf : S) e :
  writer_ok w -> e_xattrs e <> ∅ -> (forall k v, e_xattrs e !! k = Some v -> validateXattr k v = Ok tt) ->
  match writeXattrs w buf e with
  | Ok buf' => exists area, Written buf' = Written buf ++ area /\ zlen area = calcXattrSize (e_xattrs e) /\
      forall img ino c, image_wf img -> inode_wf img ino -> is_u64 (ino_nid ino) -> Backed (img_meta img) c ->
        let addr := metaStartPos img + ino_nid ino * 32 + ino_icsize ino in
        ino_xsize ino = zlen area -> sub c (Z.to_nat addr) (length area) = area -> addr + zlen area <= MaxInt64 ->
        (0 < img_size img -> addr + zlen area <= img_size img) -> loadXattrs img ino = Ok (e_xattrs e)
  | Err _ => ~ never_fails S
  | Panic => False
  end.
Proof.
  intros Hw Hm Hv. pose proof (writeXattrs_emits w buf e Hw) as E. unfold emits in E.
  destruct (writeXattrs w buf e) as [buf'| |]; [|done..]. exists (xattr_area (e_xattrs e)).
  split; [done|]. split; [by apply xattr_area_len|].
  intros img ino c Hwf Hino Hnid Hback addr Hx Hsub Hmax Hs. set (area := xattr_area (e_xattrs e)) in *.
  assert (Hl : 0 < zlen area).
  { unfold area. rewrite xattr_area_len by done. destruct (calcXattrSize_spec (e_xattrs e)) as [[_ ?]|(_ & ? & _)]; [done|lia]. }
  assert (Hc : addr + zlen area <= zlen c).
  { apply (f_equal length) in Hsub. unfold sub in Hsub. rewrite length_take, length_drop in Hsub.
    pose proof (checkNid_offset img Hwf (ino_nid ino) Hnid (wf_nid _ _ Hino)) as [_ Hr].
    destruct (wf_icsize _ _ Hino); unfold zlen in *; lia. }
  rewrite (loadXattrs_ref img ino c); try done; rewrite ?Hx; try lia.
  fold addr. replace (Z.to_nat (zlen area)) with (length area) by (unfold zlen; lia). rewrite Hsub. by apply ref_xattrs_area.
Qed.

(** A file with two attributes, and an image with its area after inode 0. *)
Definition attributed_file : erofsEntry :=
  mkEntry (Z.lor StatTypeReg 420) 0 0 0 0 1 0 0 (bs "a") (bs "/a") [] [] [] false 0 false [] 0 None
    (<[bs "trusted.b" := bs "xyz"]> {[ bs "user.k" := bs "v" ]}) None 0 0 FileTypeReg 0 false 0 0 0 0 0.

Definition attributed_disk (area : bytes) : bytes :=
  zeros (Z.to_nat 4128) ++ area ++ zeros (Z.to_nat (16384 - 4128 - zlen area)).

Definition attributed_image (area : bytes) : image :=
  {| img_sb := example_sb; img_size := 16384; img_meta := bytes_reader (attributed_disk area);
     img_devices := []; img_deviceIDMask := 0; img_longPrefixes := [] |}.

Lemma attributed_image_wf area : image_wf (attributed_image area).
Proof. unfold attributed_image. generalize (bytes_reader (attributed_disk area)). intros r. constructor; cbn; try done. Qed.

Lemma attributed_inode_wf area : inode_wf (attributed_image area) (set_xsize 28 example_ino).
Proof.
  unfold attributed_image. generalize (bytes_reader (attributed_disk area)). intros r.
  constructor; cbn; auto; try done; try (by split); by (right; split; [lia|reflexivity]).
Qed.

Lemma attributed_area area : sub (attributed_disk area) (Z.to_nat 4128) (length area) = area.
Proof.
  unfold attributed_disk. generalize (Z.to_nat 4128). intros n. rewrite sub_app_r by (by rewrite length_zeros).
  rewrite length_zeros, Nat.sub_diag. rewrite sub_app_l by lia. apply sub_all. lia.
Qed.

Lemma xattr_roundtrip_witness :
  exists area, writeXattrs example_writer [] attributed_file = Ok area /\ zlen area = 28 /\
    loadXattrs (attributed_image area) (set_xsize 28 example_ino) = Ok (e_xattrs attributed_file).
Proof.
  assert (Hv : forall k v, e_xattrs attributed_file !! k = Some v -> validateXattr k v = Ok tt).
  { intros k v H. cbn in H. apply lookup_insert_Some in H as [[<- <-]|[_ H]]; [done|].
    apply lookup_singleton_Some in H as [<- <-]. done. }
  pose proof (xattr_roundtrip (S := bytes) example_writer [] attributed_file example_writer_ok (insert_non_empty _ _ _) Hv) as R.
  destruct (writeXattrs example_writer [] attributed_file) as [b| |] eqn:E; [|exfalso; vm_compute in E; discriminate E|destruct R].
  destruct R as (area & W & L & R). cbn in W. subst b. exists area. split; [reflexivity|].
  assert (L28 : zlen area = 28) by (rewrite L; vm_compute; reflexivity). split; [exact L28|].
  apply (R (attributed_image area) (set_xsize 28 example_ino) (attributed_disk area) (attributed_image_wf area)
    (attributed_inode_wf area) ltac:(by split) (bytes_reader_backed _)).
  - symmetry. exact L28.
  - apply attributed_area.
  - rewrite L28. by vm_compute.
  - intros _. rewrite L28. by vm_compute.
Defined.

(** ** Chunk maps *)

(** The source chunk that holds logical block [b], and where in it: the
    meaning of a file's chunk list. *)
Fixpoint chunk_at (chunks : list Chunk) (b : Z) : option (Chunk * Z) :=
  match chunks with
  | [] => None
  | c :: cs => if b <? ch_Count c then Some (c, b) else chunk_at cs (b - ch_Count c)
  end.

(** Chunks that hold something, whose blocks lie below the 2^63 an offset can
    reach, and which [checkLimits] admits. *)
Definition chunks_ok (chunks : list Chunk) : Prop :=
  Forall (fun c => 0 < ch_Count c /\ is_u16 (ch_Count c) /\ is_u16 (ch_DeviceID c) /\
    (ch_PhysicalBlock c = NullPhysicalBlock \/ 0 <= ch_PhysicalBlock c < 2 ^ 63) /\ check_chunk tt c = Ok tt) chunks.

(** The index entry of the chunk that starts at block [b]. *)
Definition index_at (chunks : list Chunk) (b : Z) : bytes :=
  match chunk_at chunks b with
  | None => nullIdx
  | Some (c, off) =>
      if ch_PhysicalBlock c =? NullPhysicalBlock then nullIdx
      else chunk_index (ch_DeviceID c) (u64 (ch_PhysicalBlock c + u64 off))
  end.

Lemma next_chunk_at chunks coff b :
  chunks_ok chunks -> 0 <= coff -> 0 <= b ->
  let '(chunks', coff') := next_chunk chunks coff in
  chunk_at chunks' (coff' + b) = chunk_at chunks (coff + b) /\ chunks_ok chunks' /\ 0 <= coff' /\
  (chunks' = [] \/ exists c cs, chunks' = c :: cs /\ coff' < ch_Count c).
Proof.
  revert coff. induction chunks as [|c cs IH]; intros coff Hok Hc Hb; cbn [next_chunk]; [auto|].
  pose proof (Forall_inv Hok) as [Hpos _].
  destruct (Z.leb_spec (ch_Count c) coff) as [H|H].
  - specialize (IH (coff - ch_Count c) (Forall_inv_tail Hok) ltac:(lia) Hb).
    destruct (next_chunk cs (coff - ch_Count c)) as [chunks' coff']. destruct IH as (-> & ? & ?).
    split; [|auto]. cbn [chunk_at]. rewrite (proj2 (Z.ltb_ge _ _)) by lia. f_equal. lia.
  - split; [done|]. split; [done|]. split; [done|]. right. eauto.
Qed.

(** The loop emits, for each logical chunk, the entry of its first block. *)
Lemma chunk_indexes_emits {S} `{SinkLaws S} n bpc (buf : S) chunks coff :
  chunks_ok chunks -> 0 <= bpc -> 0 <= coff ->
  (chunks = [] \/ exists c cs, chunks = c :: cs /\ coff < ch_Count c) ->
  emits buf (chunk_indexes n bpc buf chunks coff)
    (mjoin ((fun i => index_at chunks (coff + Z.of_nat i * bpc)) <$> seq 0 n)).
Proof.
  intros Hok Hb. revert buf chunks coff Hok. induction n as [|n IH]; intros buf chunks coff Hok Hc Hh; [apply emits_ret|].
  cbn [chunk_indexes seq fmap list_fmap mjoin list_join].
  assert (Sh : forall chunks' coff',
    (forall b, 0 <= b -> chunk_at chunks' (coff' + b) = chunk_at chunks (coff + bpc + b)) ->
    (fun i => index_at chunks' (coff' + Z.of_nat i * bpc)) <$> seq 0 n =
    (fun i => index_at chunks (coff + Z.of_nat i * bpc)) <$> seq 1 n).
  { intros chunks' coff' Hx. rewrite <- (fmap_S_seq 0 n), <- list_fmap_compose. apply list_fmap_ext.
    intros i x _. cbn [compose]. unfold index_at. rewrite Hx by lia.
    by replace (coff + bpc + Z.of_nat x * bpc) with (coff + Z.of_nat (Datatypes.S x) * bpc) by lia. }
  replace (coff + Z.of_nat 0 * bpc) with coff by lia.
  destruct Hh as [->|(c & cs & -> & Hlt)].
  - apply emits_bind; [apply emits_write|]. intros buf' _.
    rewrite <- (Sh [] coff) by done. apply IH; [done|done|by left].
  - apply emits_bind.
    { unfold index_at. cbn [chunk_at]. rewrite (proj2 (Z.ltb_lt _ _)) by done. case_match; apply emits_write. }
    intros buf' _.
    pose proof (fun b Hb' => next_chunk_at (c :: cs) (coff + bpc) b Hok ltac:(lia) Hb') as Hn.
    destruct (next_chunk (c :: cs) (coff + bpc)) as [chunks' coff'].
    rewrite <- (Sh chunks' coff') by (intros b Hb'; apply (Hn b Hb')).
    destruct (Hn 0 ltac:(lia)) as (_ & Hok' & H0' & Hr). by apply IH.
Qed.

Lemma length_chunk_index d p : length (chunk_index d p) = 8%nat.
Proof. unfold chunk_index, put32, put16. by rewrite !length_splice by (rewrite ?length_splice; vm_compute; lia). Qed.

Lemma length_index_at chunks b : length (index_at chunks b) = 8%nat.
Proof. unfold index_at. repeat case_match; try reflexivity; apply length_chunk_index. Qed.

Lemma chunk_index_gets d p :
  is_u16 d -> is_u32 p -> get16 (chunk_index d p) 2 = d /\ get32 (chunk_index d p) 4 = p.
Proof.
  intros Hd Hp. unfold chunk_index, get16, get32, put32, put16.
  assert (L : length (zeros 8) = 8%nat) by done. split.
  - fields. by apply get_of_le16.
  - fields. unfold u32. rewrite Z.mod_small by apply Hp. by apply get_of_le32.
Qed.

(** Entries of one width, joined, are found by index. *)
Lemma sub_mjoin {A} (f : A -> bytes) w l i x o n :
  (forall y, length (f y) = w) -> l !! i = Some x -> (o + n <= w)%nat ->
  sub (mjoin (f <$> l)) (i * w + o) n = sub (f x) o n.
Proof.
  intros Hw. revert i. induction l as [|y l IH]; intros i Hi Ho; [done|].
  cbn [fmap list_fmap mjoin list_join]. destruct i as [|i].
  - injection Hi as ->. rewrite sub_app_l by (rewrite Hw; lia). done.
  - rewrite sub_app_r by (rewrite Hw; lia). rewrite Hw.
    replace (S i * w + o - w)%nat with (i * w + o)%nat by lia. by apply IH.
Qed.

Lemma length_mjoin {A} (f : A -> bytes) w l :
  (forall y, length (f y) = w) -> length (mjoin (f <$> l)) = (length l * w)%nat.
Proof.
  intros Hw. induction l as [|y l IH]; [done|]. cbn [fmap list_fmap mjoin list_join length].
  rewrite length_app, Hw. rewrite <- Nat.add_1_l, Nat.mul_add_distr_r, Nat.mul_1_l. f_equal. exact IH.
Qed.

Lemma chunk_at_in chunks b c off : 0 <= b -> chunk_at chunks b = Some (c, off) -> c ∈ chunks /\ 0 <= off < ch_Count c.
Proof.
  revert b. induction chunks as [|c' cs IH]; intros b Hb H; [done|]. cbn in H.
  destruct (Z.ltb_spec b (ch_Count c')) as [Hlt|Hge].
  - injection H as <- <-. split; [left|lia].
  - destruct (IH (b - ch_Count c') ltac:(lia) H). split; [by right|done].
Qed.

(** The block a chunk-map entry names, and its device; a hole has none. *)
Definition map_entry (m : bytes) (i : nat) : option (Z * Z) :=
  let blk := get32 m (i * 8 + 4) in
  if blk =? nullAddr then None else Some (get16 m (i * 8 + 2), blk).

(** Where the chunk list puts logical block [b]. *)
Definition chunk_target (chunks : list Chunk) (b : Z) : option (Z * Z) :=
  match chunk_at chunks b with
  | Some (c, off) =>
      if ch_PhysicalBlock c =? NullPhysicalBlock then None
      else Some (ch_DeviceID c, ch_PhysicalBlock c + off)
  | None => None
  end.

Lemma index_at_target chunks b :
  chunks_ok chunks -> 0 <= b -> map_entry (index_at chunks b) 0 = chunk_target chunks b.
Proof.
  intros Hok Hb. unfold index_at, chunk_target.
  destruct (chunk_at chunks b) as [[c off]|] eqn:E; [|by vm_compute].
  destruct (chunk_at_in _ _ _ _ Hb E) as [Hin Hoff].
  destruct (Z.eqb_spec (ch_PhysicalBlock c) NullPhysicalBlock) as [|Hn]; [by vm_compute|].
  destruct (proj1 (Forall_forall _ _) Hok c Hin) as (Hpos & Hc & Hd & [?|Hp] & Hck); [done|].
  unfold check_chunk in Hck. rewrite (proj2 (Z.eqb_neq _ _)) in Hck by done.
  unfold is_u16 in *. assert (U : forall z, 0 <= z < 2 ^ 64 -> u64 z = z) by (intros; by apply Z.mod_small).
  rewrite U in Hck by lia. destruct (Z.ltb_spec MaxUint32 (ch_PhysicalBlock c + ch_Count c)); [done|].
  unfold MaxUint32 in *. rewrite (U off), U by lia.
  destruct (chunk_index_gets (ch_DeviceID c) (ch_PhysicalBlock c + off)) as [G1 G2];
    [done|unfold is_u32; lia|].
  unfold map_entry. cbn [Nat.mul Nat.add]. rewrite G1, G2. unfold nullAddr.
  rewrite (proj2 (Z.eqb_neq _ _)) by lia. done.
Qed.

(** The chunk map of an entry. *)
Definition index_bytes (w : erofsWriter) (e : erofsEntry) : bytes :=
  mjoin ((fun i => index_at (e_chunks e) (0 + Z.of_nat i * 2 ^ entryChunkBits w e)) <$>
         seq 0 (Z.to_nat (chunkCount w e))).

Lemma index_bytes_len w e : is_u64 (e_size e) -> zlen (index_bytes w e) = chunkCount w e * SizeChunkIndex.
Proof.
  intros Hz. unfold zlen, index_bytes. rewrite (length_mjoin _ 8) by (intros; apply length_index_at).
  rewrite length_seq. pose proof (chunkCount_range w e Hz). unfold SizeChunkIndex. lia.
Qed.

(** [writeChunkIndexes] writes the map. *)
Lemma writeChunkIndexes_emits {S} `{SinkLaws S} w (buf : S) e :
  writer_ok w -> is_u64 (e_size e) -> 0 <= entryChunkBits w e <= 31 -> chunks_ok (e_chunks e) ->
  emits buf (writeChunkIndexes w buf e) (index_bytes w e).
Proof.
  intros Hw Hz Hc Hok. pose proof (writer_ok_pos w Hw). unfold writeChunkIndexes.
  assert (E : Z.quot (entryChunkSize w e) (w_blockSize w) = 2 ^ entryChunkBits w e).
  { unfold entryChunkSize. rewrite Z.shiftl_mul_pow2 by lia.
    assert (2 ^ entryChunkBits w e <= 2 ^ 31) by (apply Z.pow_le_mono_r; lia).
    pose proof (Z.pow_pos_nonneg 2 (entryChunkBits w e) ltac:(lia) ltac:(lia)).
    rewrite i64_id by nia. rewrite Z.mul_comm, Z.quot_mul by lia. done. }
  rewrite E. unfold index_bytes. apply chunk_indexes_emits; try done.
  - apply Z.pow_nonneg. lia.
  - destruct (e_chunks e) as [|c cs] eqn:Ec; [by left|right]. exists c, cs. split; [done|].
    apply Forall_inv in Hok. cbv beta in Hok. lia.
Qed.

(** C28: the chunk map written for a file whose chunks the limits admit has one
    entry per logical chunk, and reading entry [i] gives the device and the
    block where the file's chunk list puts the chunk's first block, a hole
    where it puts none; no block address is cut and none reads as a hole. *)
Theorem chunk_map_roundtrip w e (buf : bytes) :
  writer_ok w -> is_u64 (e_size e) -> 0 <= entryChunkBits w e <= 31 -> chunks_ok (e_chunks e) ->
  exists m, writeChunkIndexes w buf e = Ok (buf ++ m) /\
    zlen m = chunkCount w e * SizeChunkIndex /\
    forall i, 0 <= i < chunkCount w e ->
      map_entry m (Z.to_nat i) = chunk_target (e_chunks e) (i * 2 ^ entryChunkBits w e).
Proof.
  intros Hw He Hb Hok. pose proof (writeChunkIndexes_emits w buf e Hw He Hb Hok) as HE.
  exists (index_bytes w e). split; [by apply emits_buffer|]. split; [by apply index_bytes_len|].
  set (bpc := 2 ^ entryChunkBits w e) in *.
  assert (Hbpc : 0 <= bpc) by (apply Z.pow_nonneg; lia).
  set (f := fun i : nat => index_at (e_chunks e) (0 + Z.of_nat i * bpc)).
  assert (LF : forall i, length (f i) = 8%nat) by (intros; apply length_index_at).
  intros i Hi. rewrite <- index_at_target by (done || nia). unfold map_entry, get32, get16.
  assert (HS : seq 0 (Z.to_nat (chunkCount w e)) !! Z.to_nat i = Some (Z.to_nat i)).
  { rewrite lookup_seq_lt by lia. done. }
  unfold index_bytes. rewrite !(sub_mjoin f 8 _ (Z.to_nat i) (Z.to_nat i)) by (done || lia).
  unfold f. rewrite Z2Nat.id by lia. done.
Qed.

(** Three blocks on device 1, a hole of two, at one block to a chunk. *)
Definition example_chunked : erofsEntry :=
  set_chunks [mkChunk 7 3 1; mkChunk NullPhysicalBlock 2 0]
    (mkEntry (Z.lor StatTypeReg 420) 0 0 0 0 1 3072 0 (bs "f") (bs "/f") [] [] [] false 0 true [] 0 None ∅ None
       0 0 FileTypeReg LayoutChunkBased false 0 0 48 0 0).

Lemma chunk_map_roundtrip_witness :
  exists m, writeChunkIndexes example_writer [] example_chunked = Ok m /\
    map_entry m 1 = Some (1, 8) /\ map_entry m 3 = None.
Proof.
  destruct (chunk_map_roundtrip example_writer example_chunked []) as (m & H1 & H2 & H3).
  - apply example_writer_ok.
  - by vm_compute.
  - by vm_compute.
  - unfold chunks_ok. repeat (apply Forall_cons; split); [| |apply Forall_nil; done];
      (split; [by vm_compute|]; split; [by vm_compute|]; split; [by vm_compute|]; split; [|by vm_compute]).
    + right. by vm_compute.
    + by left.
  - exists m. split; [done|].
    change 1%nat with (Z.to_nat 1) at 1. change 3%nat with (Z.to_nat 3).
    assert (C : chunkCount example_writer example_chunked = 6) by (vm_compute; reflexivity).
    rewrite C in H3. rewrite (H3 1), (H3 3) by lia.
    split; vm_compute; reflexivity.
Defined.
