(* ===== verification/DirWrite.v ===== *)
(** * Directories written and read back

    The blocks [writeDirents] packs are blocks the reader decodes to the same
    entries, they take the bytes planning reserved, and a directory whose
    blocks load as they were written is one [Dir]'s lookup and listing answer
    correctly. *)

From S2P Require Import Prelude Machine Disk Format Image Inode Data Reading Dir Layout Serialize Roundtrip.

(** ** One block *)

Definition dirent_bytes (nid nameOff fileType : Z) : bytes :=
  le_encode 8 nid ++ le_encode 2 (u16 nameOff) ++ le_encode 1 fileType ++ le_encode 1 0.

Fixpoint dirent_table (ents : list direntInfo) (nameOff : Z) : bytes :=
  match ents with
  | [] => []
  | d :: ents => dirent_bytes (di_nid d) nameOff (di_fileType d) ++ dirent_table ents (nameOff + zlen (di_name d))
  end.

Definition names_bytes (ents : list direntInfo) : bytes := mjoin (di_name <$> ents).

Definition block_bytes (ents : list direntInfo) : bytes :=
  dirent_table ents (SizeDirent * zlen ents) ++ names_bytes ents.

Lemma length_dirent_bytes n o f : length (dirent_bytes n o f) = 12%nat.
Proof. unfold dirent_bytes. by rewrite !length_app, !length_le_encode. Qed.

Lemma length_dirent_table ents off : length (dirent_table ents off) = (12 * length ents)%nat.
Proof.
  revert off. induction ents as [|d ents IH]; intros off; [done|]. cbn [dirent_table length].
  rewrite length_app, length_dirent_bytes, IH. lia.
Qed.

Lemma names_bytes_cons d ents : names_bytes (d :: ents) = di_name d ++ names_bytes ents.
Proof. reflexivity. Qed.

(** Overwriting within the middle of three pieces. *)
Lemma splice_mid {A} (a b c v : list A) o k :
  k = (length a + o)%nat -> (o + length v <= length b)%nat ->
  splice (a ++ b ++ c) k v = a ++ splice b o v ++ c.
Proof.
  intros -> H. unfold splice. rewrite take_app_ge by lia. rewrite drop_app_ge by lia.
  replace (length a + o - length a)%nat with o by lia.
  replace (length a + o + length v - length a)%nat with (o + length v)%nat by lia.
  rewrite take_app_le, drop_app_le by lia. by rewrite <- !app_assoc.
Qed.

Lemma put_dirent_zeros nid off ft :
  put8 11 0 (put8 10 ft (put16 8 (u16 off) (put64 0 nid (zeros 12)))) = dirent_bytes nid off ft.
Proof. reflexivity. Qed.

(** The four stores of one header, in a block with room for it. *)
Lemma put_dirent (T R : bytes) o nid off ft :
  o = length T ->
  put8 (o + 11) 0 (put8 (o + 10) ft (put16 (o + 8) (u16 off) (put64 o nid (T ++ zeros 12 ++ R)))) =
  T ++ dirent_bytes nid off ft ++ R.
Proof.
  intros ->. rewrite <- put_dirent_zeros. unfold put8, put16, put64.
  assert (L0 : length (zeros 12) = 12%nat) by done.
  assert (LS : forall (b : bytes) o n z, length b = 12%nat -> (o + n <= 12)%nat ->
    length (splice b o (le_encode n z)) = 12%nat).
  { intros. rewrite length_splice; [done|]. rewrite length_le_encode. lia. }
  rewrite (splice_mid T _ R _ 0) by (rewrite ?length_le_encode; lia).
  rewrite (splice_mid T _ R _ 8) by (rewrite ?length_le_encode, ?LS by lia; lia).
  rewrite (splice_mid T _ R _ 10) by (rewrite ?length_le_encode, ?LS by (rewrite ?LS by lia; lia); lia).
  rewrite (splice_mid T _ R _ 11) by
    (rewrite ?length_le_encode, ?LS by (rewrite ?LS by (rewrite ?LS by lia; lia); lia); lia).
  done.
Qed.

Lemma zeros_add n m : zeros (n + m) = zeros n ++ zeros m.
Proof. apply replicate_add. Qed.

(** The loop fills the header table from the front and the names behind it. *)
Lemma fill_block_spec ents j nameOff T N :
  zlen T = j * SizeDirent -> nameOff = zlen T + SizeDirent * zlen ents + zlen N ->
  fill_block ents j nameOff
    (T ++ zeros (12 * length ents) ++ N ++ zeros (length (names_bytes ents))) =
  Ok (T ++ dirent_table ents nameOff ++ N ++ names_bytes ents).
Proof.
  revert j nameOff T N. induction ents as [|d ents IH]; intros j nameOff T N HT HO.
  { cbn. by rewrite !app_nil_r. }
  unfold SizeDirent in *. rewrite zlen_cons in HO. rewrite names_bytes_cons, length_app. cbn [length].
  replace (12 * S (length ents))%nat with (12 + 12 * length ents)%nat by lia.
  rewrite !zeros_add, <- !app_assoc. cbn [fill_block].
  set (m := length (names_bytes ents)) in *.
  set (R := zeros (12 * length ents) ++ N ++ zeros (length (di_name d)) ++ zeros m).
  assert (LR : zlen R = 12 * zlen ents + zlen N + zlen (di_name d) + Z.of_nat m).
  { unfold R, zeros, zlen. rewrite !length_app, !length_replicate. lia. }
  unfold SizeDirent.
  assert (LB : zlen (T ++ zeros 12 ++ R) = zlen T + 12 + zlen R).
  { rewrite !zlen_app. change (zlen (zeros 12)) with 12. lia. }
  rewrite LB, LR. pose proof (zlen_nonneg ents). pose proof (zlen_nonneg N). pose proof (zlen_nonneg (di_name d)).
  rewrite !(proj2 (Z.ltb_ge _ _)) by lia. cbn [orb].
  assert (OT : Z.to_nat (j * 12) = length T) by (unfold zlen in *; lia).
  rewrite OT, put_dirent by done.
  set (D := dirent_bytes (di_nid d) nameOff (di_fileType d)).
  assert (LD : length D = 12%nat) by apply length_dirent_bytes.
  assert (LB2 : zlen (T ++ D ++ R) = zlen T + 12 + zlen R).
  { rewrite !zlen_app. unfold zlen at 2. rewrite LD. lia. }
  rewrite LB2, LR. rewrite take_ge by (unfold zlen in *; lia).
  set (P := T ++ D ++ zeros (12 * length ents) ++ N).
  assert (EP : T ++ D ++ R = P ++ zeros (length (di_name d)) ++ zeros m).
  { unfold P, R. by rewrite <- !app_assoc. }
  assert (LP : length P = Z.to_nat nameOff).
  { unfold P. rewrite !length_app, LD, length_zeros. unfold zlen in *. lia. }
  rewrite EP. unfold putb. rewrite (splice_mid P _ _ _ 0) by (rewrite ?length_zeros; lia).
  assert (ES : splice (zeros (length (di_name d))) 0 (di_name d) = di_name d).
  { unfold splice. rewrite take_0, drop_ge by (rewrite length_zeros; lia). by rewrite app_nil_r. }
  rewrite ES. unfold P. rewrite <- !app_assoc.
  specialize (IH (j + 1) (nameOff + zlen (di_name d)) (T ++ D) (N ++ di_name d)).
  rewrite <- !app_assoc in IH. fold m in IH. rewrite IH.
  - cbn [dirent_table]. fold D. by rewrite <- !app_assoc.
  - rewrite zlen_app. unfold zlen at 2. rewrite LD. lia.
  - rewrite !zlen_app. unfold zlen at 3. rewrite LD. lia.
Qed.

Lemma fill_block_bytes ents used :
  used = zlen (block_bytes ents) ->
  fill_block ents 0 (zlen ents * SizeDirent) (zeros (Z.to_nat used)) = Ok (block_bytes ents).
Proof.
  intros ->. pose proof (fill_block_spec ents 0 (zlen ents * SizeDirent) [] []) as H.
  cbn [app] in H. rewrite <- zeros_add in H. unfold block_bytes.
  replace (SizeDirent * zlen ents) with (zlen ents * SizeDirent) by lia.
  rewrite <- H by (rewrite ?zlen_nil; lia). f_equal. f_equal.
  unfold zlen at 1. rewrite length_app, length_dirent_table. lia.
Qed.

(** ** Decoding a block *)

Fixpoint table_view (ents : list direntInfo) (nameOff : Z) : list (Dirent * bytes) :=
  match ents with
  | [] => []
  | d :: ents => (mkDirent (di_nid d) nameOff (di_fileType d) 0, di_name d)
                 :: table_view ents (nameOff + zlen (di_name d))
  end.

(** What a block decodes to. *)
Definition view_of (ents : list direntInfo) : list (Dirent * bytes) :=
  table_view ents (SizeDirent * zlen ents).

Lemma length_table_view ents off : length (table_view ents off) = length ents.
Proof. revert off. induction ents; intros; cbn; auto. Qed.

(** The [i]-th entry's name starts after those before it. *)
Definition name_off (ents : list direntInfo) (off : Z) (i : nat) : Z := off + zlen (names_bytes (take i ents)).

Lemma names_bytes_app a b : names_bytes (a ++ b) = names_bytes a ++ names_bytes b.
Proof. unfold names_bytes. by rewrite fmap_app, join_app. Qed.

Lemma table_view_lookup ents off i d :
  ents !! i = Some d ->
  table_view ents off !! i = Some (mkDirent (di_nid d) (name_off ents off i) (di_fileType d) 0, di_name d).
Proof.
  revert off i. induction ents as [|d' ents IH]; intros off [|i] H; try done.
  - injection H as ->. unfold name_off. cbn. by rewrite Z.add_0_r.
  - cbn in H |- *. rewrite (IH _ _ H). unfold name_off. cbn [take]. rewrite names_bytes_cons, zlen_app.
    do 3 f_equal. lia.
Qed.

(** The table around entry [i]. *)
Lemma dirent_table_split ents off i d :
  ents !! i = Some d ->
  dirent_table ents off =
    dirent_table (take i ents) off ++ dirent_bytes (di_nid d) (name_off ents off i) (di_fileType d) ++
    dirent_table (drop (S i) ents) (name_off ents off (S i)).
Proof.
  revert off i. induction ents as [|d' ents IH]; intros off [|i] H; try done.
  - injection H as ->. unfold name_off. cbn [take dirent_table app drop]. rewrite drop_0, names_bytes_cons, zlen_app.
    change (names_bytes []) with (@nil byte). rewrite zlen_nil, !Z.add_0_r. done.
  - cbn in H. cbn [dirent_table take drop]. rewrite (IH _ _ H), <- app_assoc. unfold name_off.
    cbn [take]. rewrite !names_bytes_cons, !zlen_app, !Z.add_assoc. done.
Qed.

Lemma dirent_bytes_gets n o f rest :
  is_u64 n -> is_u16 o -> is_u8 f ->
  Dirent_Unmarshal (dirent_bytes n o f ++ rest) = Ok (mkDirent n o f 0).
Proof.
  intros Hn Ho Hf. unfold Dirent_Unmarshal, SizeDirent. rewrite zlen_app.
  unfold zlen at 1. rewrite length_dirent_bytes. pose proof (zlen_nonneg rest).
  rewrite (proj2 (Z.ltb_ge _ _)) by lia.
  unfold get64, get16, get8. rewrite !sub_app_l by (rewrite length_dirent_bytes; lia).
  assert (E : u16 o = o) by (apply Z.mod_small, Ho).
  change (sub (dirent_bytes n o f) 0 8) with (le_encode 8 n).
  change (sub (dirent_bytes n o f) 8 2) with (le_encode 2 (u16 o)).
  change (sub (dirent_bytes n o f) 10 1) with (le_encode 1 f).
  change (sub (dirent_bytes n o f) 11 1) with (le_encode 1 0).
  rewrite E, get_of_le64, get_of_le16, !get_of_le8 by done. done.
Qed.

(** Entries a directory block can hold. *)
Definition ent_ok (d : direntInfo) : Prop :=
  good_name (di_name d) /\ is_u64 (di_nid d) /\ is_u8 (di_fileType d).

Lemma names_bytes_split ents i d :
  ents !! i = Some d ->
  names_bytes ents = names_bytes (take i ents) ++ di_name d ++ names_bytes (drop (S i) ents).
Proof.
  intros H. rewrite <- (take_drop_middle ents i d H) at 1. by rewrite names_bytes_app, names_bytes_cons.
Qed.

Lemma block_bytes_len ents : zlen (block_bytes ents) = SizeDirent * zlen ents + zlen (names_bytes ents).
Proof. unfold block_bytes. rewrite zlen_app. unfold zlen at 1. rewrite length_dirent_table. unfold zlen, SizeDirent. lia. Qed.

Lemma name_off_range ents i d :
  Forall ent_ok ents -> ents !! i = Some d -> zlen (block_bytes ents) <= 65536 ->
  let o := name_off ents (SizeDirent * zlen ents) i in
  is_u16 o /\ o + zlen (di_name d) = name_off ents (SizeDirent * zlen ents) (S i) /\ 0 < zlen (di_name d) /\
  name_off ents (SizeDirent * zlen ents) (S i) <= zlen (block_bytes ents).
Proof.
  intros Hok Hi Hl o. subst o. rewrite block_bytes_len in *. unfold name_off, SizeDirent in *.
  pose proof (proj1 (Forall_lookup _ _) Hok i d Hi) as [Hne%good_name_nonempty _].
  pose proof (zlen_nonneg ents). pose proof (zlen_nonneg (names_bytes (take i ents))).
  rewrite (names_bytes_split ents i d Hi) in *. rewrite !zlen_app in *.
  pose proof (zlen_nonneg (names_bytes (drop (S i) ents))).
  rewrite (take_S_r _ _ _ Hi), names_bytes_app, zlen_app.
  change (names_bytes [d]) with (di_name d ++ []). rewrite app_nil_r. unfold is_u16. lia.
Qed.

(** Where the names lie in a written block. *)
Lemma names_written ents pad i d :
  ents !! i = Some d ->
  let buf := block_bytes ents ++ zeros pad in
  let o := name_off ents (SizeDirent * zlen ents) i in
  sub buf (Z.to_nat o) (Z.to_nat (zlen (di_name d))) = di_name d /\
  (Z.of_nat i = zlen ents - 1 -> sub buf (Z.to_nat o) (Z.to_nat (zlen buf - o)) = di_name d ++ zeros pad).
Proof.
  intros Hi buf o. set (tb := dirent_table ents (SizeDirent * zlen ents)).
  set (rest := names_bytes (drop (S i) ents) ++ zeros pad).
  assert (EB : buf = (tb ++ names_bytes (take i ents)) ++ di_name d ++ rest).
  { unfold buf, block_bytes, rest. fold tb. rewrite (names_bytes_split ents i d Hi). by rewrite <- !app_assoc. }
  assert (LT : length (tb ++ names_bytes (take i ents)) = Z.to_nat o).
  { rewrite length_app. unfold tb. rewrite length_dirent_table. unfold o, name_off, SizeDirent, zlen. lia. }
  split.
  - rewrite EB, (sub_mid _ (di_name d) _ 0) by (unfold zlen; lia). apply sub_all. unfold zlen. lia.
  - intros El. rewrite EB at 1. rewrite sub_app_r by lia. rewrite LT, Nat.sub_diag.
    unfold rest. rewrite drop_ge by (unfold zlen in El; lia). cbn [names_bytes fmap list_fmap mjoin list_join app].
    apply sub_all. apply (f_equal zlen) in EB. rewrite zlen_app in EB. unfold zlen in EB at 2. rewrite LT in EB.
    unfold rest in EB. rewrite drop_ge in EB by (unfold zlen in El; lia).
    change (names_bytes [] ++ zeros pad) with (zeros pad) in EB. unfold zlen in *. unfold o, name_off, SizeDirent, zlen in *. lia.
Qed.

(** Where the reader has the name of entry [i] end. *)
Lemma name_end_written ents pad i d :
  Forall ent_ok ents -> ents !! i = Some d -> zlen (block_bytes ents) <= 65536 ->
  dirent_name_end (block_bytes ents ++ zeros pad) (Z.of_nat i) (zlen ents) =
  Ok (if Z.of_nat i <? zlen ents - 1 then name_off ents (SizeDirent * zlen ents) (S i)
      else zlen (block_bytes ents ++ zeros pad)).
Proof.
  intros Hok Hi Hl. unfold dirent_name_end. destruct (Z.ltb_spec (Z.of_nat i) (zlen ents - 1)) as [H|H]; [|done].
  destruct (lookup_lt_is_Some_2 ents (S i)) as [d' Hd']; [unfold zlen in H; lia|].
  destruct (name_off_range ents (S i) d' Hok Hd' Hl) as (O1 & _).
  set (off0 := SizeDirent * zlen ents) in *. set (o := name_off ents off0 (S i)) in *.
  assert (LB : zlen (block_bytes ents) <= zlen (block_bytes ents ++ zeros pad)).
  { rewrite zlen_app. pose proof (zlen_nonneg (zeros pad)). lia. }
  rewrite block_bytes_len in LB. pose proof (zlen_nonneg (names_bytes ents)).
  rewrite (proj2 (Z.ltb_ge _ _)) by (unfold SizeDirent in *; lia). f_equal.
  unfold get16, block_bytes. fold off0. rewrite (dirent_table_split ents off0 (S i) d' Hd'). fold o.
  rewrite <- !app_assoc.
  rewrite (sub_mid _ (dirent_bytes (di_nid d') o (di_fileType d')) _ 8).
  - change (sub (dirent_bytes (di_nid d') o (di_fileType d')) 8 2) with (le_encode 2 (u16 o)).
    unfold u16. rewrite Z.mod_small by apply O1. by apply get_of_le16.
  - rewrite length_dirent_table, length_take. unfold SizeDirent, zlen in *. lia.
  - rewrite length_dirent_bytes. lia.
Qed.

(** Entry [i] of a written block decodes to what was written. *)
Lemma blockDirent_written ents pad i d :
  Forall ent_ok ents -> ents !! i = Some d -> zlen (block_bytes ents) <= 65536 ->
  blockDirent (block_bytes ents ++ zeros pad) (Z.of_nat i) (zlen ents) =
  Ok (mkDirent (di_nid d) (name_off ents (SizeDirent * zlen ents) i) (di_fileType d) 0, di_name d).
Proof.
  intros Hok Hi Hl. set (off0 := SizeDirent * zlen ents). set (buf := block_bytes ents ++ zeros pad).
  destruct (name_off_range ents i d Hok Hi Hl) as (O1 & O2 & O3 & O4). fold off0 in O1, O2, O4.
  pose proof (proj1 (Forall_lookup _ _) Hok i d Hi) as (Hg & Hn & Hf).
  pose proof (lookup_lt_Some _ _ _ Hi) as Hlt.
  assert (LB : zlen buf = zlen (block_bytes ents) + Z.of_nat pad).
  { unfold buf. rewrite zlen_app. unfold zlen at 2. by rewrite length_zeros. }
  assert (LN : SizeDirent * zlen ents <= zlen (block_bytes ents)).
  { rewrite block_bytes_len. pose proof (zlen_nonneg (names_bytes ents)). lia. }
  assert (ZL : zlen ents = Z.of_nat (length ents)) by done.
  unfold blockDirent. rewrite (proj2 (Z.ltb_ge _ _)) by (unfold SizeDirent in *; lia).
  rewrite slice_ok by (unfold SizeDirent in *; lia).
  set (tl := dirent_table (drop (S i) ents) (name_off ents off0 (S i)) ++ names_bytes ents ++ zeros pad).
  assert (EB : buf = dirent_table (take i ents) off0 ++
                     (dirent_bytes (di_nid d) (name_off ents off0 i) (di_fileType d) ++ tl)).
  { unfold buf, block_bytes, tl. fold off0. rewrite (dirent_table_split ents off0 i d Hi). by rewrite <- !app_assoc. }
  assert (LT : length (dirent_table (take i ents) off0) = (12 * i)%nat).
  { rewrite length_dirent_table, length_take. lia. }
  assert (ER : sub buf (Z.to_nat (SizeDirent * Z.of_nat i)) (Z.to_nat (zlen buf - SizeDirent * Z.of_nat i)) =
               dirent_bytes (di_nid d) (name_off ents off0 i) (di_fileType d) ++ tl).
  { rewrite EB at 1. rewrite sub_app_r by (unfold SizeDirent; lia). rewrite LT.
    replace (Z.to_nat (SizeDirent * Z.of_nat i) - 12 * i)%nat with 0%nat by (unfold SizeDirent; lia).
    apply sub_all. apply (f_equal length) in EB. rewrite length_app, LT in EB.
    unfold zlen, SizeDirent. lia. }
  rewrite ER, dirent_bytes_gets by done. cbn [de_NameOff].
  pose proof (name_end_written ents pad i d Hok Hi Hl) as NE. fold off0 buf in NE. rewrite NE.
  set (o := name_off ents off0 i) in *. destruct O1 as [O1 O1'].
  set (e := if Z.of_nat i <? zlen ents - 1 then name_off ents off0 (S i) else zlen buf).
  assert (He : o + zlen (di_name d) <= e /\ e <= zlen buf) by (unfold e; case_match; lia).
  rewrite !(proj2 (Z.ltb_ge _ _)) by lia. cbn [orb]. rewrite slice_ok by lia.
  destruct (names_written ents pad i d Hi) as [W1 W2]. fold off0 buf o in W1, W2.
  assert (EN : (if Z.of_nat i =? zlen ents - 1 then cut_nul (sub buf (Z.to_nat o) (Z.to_nat (e - o)))
                else Ok (sub buf (Z.to_nat o) (Z.to_nat (e - o)))) = Ok (di_name d)).
  { unfold e. destruct (Z.eqb_spec (Z.of_nat i) (zlen ents - 1)) as [E|E].
    - rewrite (proj2 (Z.ltb_ge (Z.of_nat i) _)) by lia. rewrite W2 by lia. rewrite cut_nul_until. f_equal.
      destruct Hg as (_ & _ & Hnul). destruct pad as [|pad].
      + by rewrite app_nil_r, until_nul_no_nul.
      + by apply until_nul_app_nul.
    - rewrite (proj2 (Z.ltb_lt (Z.of_nat i) _)) by lia. rewrite <- O2.
      replace (o + zlen (di_name d) - o) with (zlen (di_name d)) by lia. by rewrite W1. }
  rewrite EN. apply checkDirentName_spec in Hg. by rewrite Hg.
Qed.

Lemma block_view_written ents pad :
  ents <> [] -> Forall ent_ok ents -> zlen (block_bytes ents) <= 65536 ->
  block_view (block_bytes ents ++ zeros pad) (view_of ents).
Proof.
  intros Hne Hok Hl. assert (ZV : zlen (view_of ents) = zlen ents) by (unfold zlen, view_of; by rewrite length_table_view).
  split.
  - destruct ents as [|d ents]; [done|]. unfold view_of at 1. cbn [table_view]. eexists _, _, _. split; [done|].
    by rewrite ZV.
  - intros i de name Hi. rewrite ZV. unfold view_of in Hi.
    destruct (ents !! i) as [d|] eqn:E.
    + rewrite (table_view_lookup _ _ _ _ E) in Hi. injection Hi as <- <-. by apply blockDirent_written.
    + apply lookup_ge_None in E. rewrite lookup_ge_None_2 in Hi by (rewrite length_table_view; lia). done.
Qed.

(** ** Packing entries into blocks *)

(** The bytes of the first [n] entries of a block. *)
Definition used (ents : list direntInfo) : Z := zlen (block_bytes ents).

Lemma fit_block_spec blockSize ents pre k nameSize blockUsed :
  k = zlen pre -> nameSize = zlen (names_bytes pre) -> blockUsed = used pre \/ pre = [] /\ blockUsed = 0 ->
  0 <= blockUsed <= blockSize ->
  exists n, fit_block blockSize (di_name <$> ents) k nameSize blockUsed =
              (k + Z.of_nat n, if bool_decide (n = 0%nat) then blockUsed else used (pre ++ take n ents)) /\
            (n <= length ents)%nat /\ (n = 0%nat \/ used (pre ++ take n ents) <= blockSize) /\
            ((n < length ents)%nat -> exists d, ents !! n = Some d /\ blockSize < used (pre ++ take n ents ++ [d])).
Proof.
  revert pre k nameSize blockUsed. induction ents as [|d ents IH]; intros pre k nameSize blockUsed Hk Hns Hbu Hr.
  { exists 0%nat. cbn. rewrite Z.add_0_r. repeat split; [lia|by left|lia]. }
  cbn [fmap list_fmap fit_block].
  assert (HU : (k + 1) * SizeDirent + (nameSize + zlen (di_name d)) = used (pre ++ [d])).
  { unfold used. rewrite block_bytes_len, names_bytes_app, !zlen_app. subst.
    change (names_bytes [d]) with (di_name d ++ []). rewrite app_nil_r. change (zlen [d]) with 1. lia. }
  rewrite HU. destruct (Z.ltb_spec blockSize (used (pre ++ [d]))) as [H|H].
  - exists 0%nat. rewrite bool_decide_true by done. rewrite Z.add_0_r. split; [done|].
    split; [lia|]. split; [by left|]. intros _. exists d. by split.
  - destruct (IH (pre ++ [d]) (k + 1) (nameSize + zlen (di_name d)) (used (pre ++ [d]))) as (n & E & Hn1 & Hn2 & Hn3).
    + rewrite zlen_app. change (zlen [d]) with 1. lia.
    + rewrite names_bytes_app, zlen_app. change (names_bytes [d]) with (di_name d ++ []). rewrite app_nil_r. lia.
    + by left.
    + unfold used in *. pose proof (zlen_nonneg (block_bytes (pre ++ [d]))). lia.
    + exists (S n). rewrite E. rewrite (bool_decide_false (S n = 0%nat)) by lia.
      cbn [take length lookup list_lookup]. rewrite <- !app_assoc in *. cbn [app] in *.
      split; [|split; [lia|split]].
      * f_equal; [lia|]. case_bool_decide as X; [|done]. subst n. done.
      * right. destruct Hn2 as [->|Hn2]; [|done]. done.
      * intros Hlt. destruct Hn3 as (d0 & H1 & H2); [lia|]. exists d0. split; [done|].
        by rewrite <- app_assoc in H2.
Qed.

Definition small_names (w : erofsWriter) (ents : list direntInfo) : Prop :=
  Forall (fun d => SizeDirent + zlen (di_name d) <= w_blockSize w) ents.

(** The next block takes at least one entry and fits. *)
Lemma next_block_spec w ents :
  writer_ok w -> ents <> [] -> small_names w ents ->
  exists n, next_block (w_blockSize w) (di_name <$> ents) = (Z.of_nat n, used (take n ents)) /\
    (1 <= n <= length ents)%nat /\ used (take n ents) <= w_blockSize w.
Proof.
  intros Hw Hne Hs. pose proof (writer_ok_pos w Hw). unfold next_block.
  destruct (fit_block_spec (w_blockSize w) ents [] 0 0 0) as (n & E & Hn1 & Hn2 & Hn3);
    [done|done|by right|lia|].
  rewrite E. cbn [app] in *. destruct ents as [|d ents]; [done|].
  destruct n as [|n].
  - exfalso. destruct Hn3 as (d' & Hd & Hlt); [cbn; lia|]. injection Hd as <-.
    pose proof (Forall_inv Hs) as Hsd. cbv beta in Hsd. unfold used in Hlt. rewrite block_bytes_len in Hlt. cbn [take app] in Hlt.
    change (names_bytes [d]) with (di_name d ++ []) in Hlt. rewrite app_nil_r in Hlt. change (zlen [d]) with 1 in Hlt. lia.
  - exists (S n). rewrite bool_decide_false by lia. rewrite (proj2 (Z.eqb_neq _ _)) by lia.
    split; [f_equal; lia|]. split; [lia|]. destruct Hn2 as [?|?]; [lia|done].
Qed.

(** The entries block by block, as both loops cut them. *)
Fixpoint dir_blocks (fuel : nat) (blockSize : Z) (ents : list direntInfo) : list (list direntInfo) :=
  match ents, fuel with
  | [], _ | _, O => []
  | _, S fuel =>
      let n := Z.to_nat (next_block blockSize (di_name <$> ents)).1 in
      take n ents :: dir_blocks fuel blockSize (drop n ents)
  end.

(** Each block but the last padded to the block size. *)
Fixpoint dir_bytes (blockSize : Z) (blks : list (list direntInfo)) : bytes :=
  match blks with
  | [] => []
  | [b] => block_bytes b
  | b :: blks => (block_bytes b ++ zeros (Z.to_nat (blockSize - used b))) ++ dir_bytes blockSize blks
  end.

(** What the cut gives: all entries, in order, in blocks that fit. *)
Record packed (w : erofsWriter) (ents : list direntInfo) (blks : list (list direntInfo)) : Prop := {
  pk_all : mjoin blks = ents;
  pk_fit : Forall (fun b => b <> [] /\ used b <= w_blockSize w) blks;
}.

Lemma dir_blocks_packed w fuel ents :
  writer_ok w -> small_names w ents -> (length ents <= fuel)%nat ->
  packed w ents (dir_blocks fuel (w_blockSize w) ents).
Proof.
  intros Hw. revert ents. induction fuel as [|fuel IH]; intros ents Hs Hf; destruct ents as [|d ents];
    [split; [done|constructor]|cbn in Hf; lia|split; [done|constructor]|].
  destruct (next_block_spec w (d :: ents) Hw ltac:(done) Hs) as (n & E & Hn & Hu).
  cbn [dir_blocks]. rewrite E. cbn [fst]. rewrite Nat2Z.id.
  destruct (IH (drop n (d :: ents))) as [I1 I2].
  - by apply Forall_drop.
  - rewrite length_drop. cbn in *. lia.
  - split.
    + change (take n (d :: ents) ++ mjoin (dir_blocks fuel (w_blockSize w) (drop n (d :: ents))) = d :: ents).
      by rewrite I1, take_drop.
    + constructor; [|done]. split; [|done]. intros X. apply (f_equal length) in X.
      rewrite length_take in X. cbn in *. lia.
Qed.

Lemma used_nonneg b : 0 <= used b.
Proof. apply zlen_nonneg. Qed.

Lemma used_pos b : b <> [] -> 0 < used b.
Proof.
  intros Hb. unfold used. rewrite block_bytes_len. pose proof (zlen_nonneg (names_bytes b)).
  destruct b; [done|]. rewrite zlen_cons. pose proof (zlen_nonneg b). unfold SizeDirent. lia.
Qed.

(** The padding both loops add: up to the block size. *)
Lemma block_pad w b :
  writer_ok w -> b <> [] -> used b <= w_blockSize w ->
  (used b mod w_blockSize w = 0 /\ used b = w_blockSize w) \/
  (used b mod w_blockSize w = used b /\ 0 < used b < w_blockSize w).
Proof.
  intros Hw Hb Hu. pose proof (writer_ok_pos w Hw). pose proof (used_pos b Hb).
  destruct (Z.eq_dec (used b) (w_blockSize w)) as [->|Hne].
  - left. rewrite Z.mod_same by lia. done.
  - right. rewrite Z.mod_small by lia. lia.
Qed.

Lemma dir_bytes_cons blockSize b blks :
  blks <> [] ->
  dir_bytes blockSize (b :: blks) =
  (block_bytes b ++ zeros (Z.to_nat (blockSize - used b))) ++ dir_bytes blockSize blks.
Proof. by destruct blks. Qed.

(** [dirent_blocks] writes the blocks, and counts them. *)
Lemma dirent_blocks_emits {S} `{SinkLaws S} w fuel ents (buf : S) total :
  writer_ok w -> small_names w ents -> (length ents <= fuel)%nat ->
  emits_n buf (dirent_blocks fuel w ents buf total)
    (dir_bytes (w_blockSize w) (dir_blocks fuel (w_blockSize w) ents))
    (total + zlen (dir_bytes (w_blockSize w) (dir_blocks fuel (w_blockSize w) ents))).
Proof.
  intros Hw. pose proof (writer_ok_pos w Hw). revert ents buf total.
  induction fuel as [|fuel IH]; intros ents buf total Hs Hf;
    destruct ents as [|d ents]; [|cbn in Hf; lia| |];
    try (cbn [dirent_blocks dir_blocks dir_bytes]; rewrite zlen_nil, Z.add_0_r; apply emits_ret_n).
  destruct (next_block_spec w (d :: ents) Hw ltac:(done) Hs) as (n & E & Hn & Hu).
  cbn [dirent_blocks dir_blocks]. rewrite E. cbn [fst]. rewrite Nat2Z.id.
  set (b := take n (d :: ents)) in *. set (rest := drop n (d :: ents)) in *.
  assert (Hb : b <> []).
  { intros X. apply (f_equal length) in X. unfold b in X. rewrite length_take in X. cbn in *. lia. }
  rewrite fill_block_bytes by done.
  assert (Hr : small_names w rest) by (by apply Forall_drop).
  assert (Hfr : (length rest <= fuel)%nat) by (unfold rest; rewrite length_drop; cbn in *; lia).
  specialize (fun buf total => IH rest buf total Hr Hfr).
  destruct (dir_blocks_packed w fuel rest Hw Hr Hfr) as [PA _].
  set (blks := dir_blocks fuel (w_blockSize w) rest) in *.
  destruct (block_pad w b Hw Hb Hu) as [[M U]|[M U]]; rewrite M.
  - rewrite (proj2 (Z.eqb_eq 0 0)) by done. rewrite andb_false_r.
    assert (EB : dir_bytes (w_blockSize w) (b :: blks) = block_bytes b ++ dir_bytes (w_blockSize w) blks).
    { destruct blks as [|b' blks']; [by rewrite app_nil_r|]. rewrite dir_bytes_cons by done.
      rewrite U, Z.sub_diag, app_nil_r. done. }
    rewrite EB, zlen_app, Z.add_assoc. apply emits_bind_n; [apply emits_write|]. intros buf' _. apply IH.
  - rewrite (proj2 (Z.eqb_neq (used b) 0)) by lia. rewrite andb_true_r.
    destruct (decide (rest = [])) as [Er|Er].
    + rewrite bool_decide_true by done. cbn [negb].
      assert (Eb : blks = []) by (unfold blks; rewrite Er; by destruct fuel).
      rewrite Eb in *. cbn [dir_bytes] in *. rewrite <- (app_nil_r (block_bytes b)) at 2 3.
      rewrite zlen_app, Z.add_assoc. apply emits_bind_n; [apply emits_write|]. intros buf' _. apply IH.
    + rewrite bool_decide_false by done. cbn [negb].
      assert (Hbl : blks <> []) by (intros Eb; rewrite Eb in PA; by cbn in PA).
      rewrite dir_bytes_cons by done. rewrite <- app_assoc, !zlen_app.
      assert (ZZ : zlen (zeros (Z.to_nat (w_blockSize w - used b))) = w_blockSize w - used b).
      { unfold zlen. rewrite length_zeros. lia. }
      rewrite ZZ. replace (total + (zlen (block_bytes b) + (w_blockSize w - used b + zlen (dir_bytes (w_blockSize w) blks))))
        with (total + zlen (block_bytes b) + (w_blockSize w - used b) + zlen (dir_bytes (w_blockSize w) blks)) by lia.
      apply emits_bind_n; [apply emits_write|]. intros buf' _.
      apply emits_bind_n; [apply emits_zeros; lia|]. intros buf'' _. apply IH.
Qed.

(** ** The size planned is the size written *)

Lemma dir_bytes_len_cons w b blks :
  used b <= w_blockSize w -> blks <> [] ->
  zlen (dir_bytes (w_blockSize w) (b :: blks)) = w_blockSize w + zlen (dir_bytes (w_blockSize w) blks).
Proof.
  intros Hu Hb. rewrite dir_bytes_cons by done. rewrite !zlen_app. unfold zlen at 2. rewrite length_zeros.
  unfold used in *. lia.
Qed.

Lemma dirent_size_loop_bytes w fuel ents total :
  writer_ok w -> small_names w ents -> (length ents <= fuel)%nat ->
  dirent_size_loop fuel (w_blockSize w) (di_name <$> ents) total =
  total + zlen (dir_bytes (w_blockSize w) (dir_blocks fuel (w_blockSize w) ents)).
Proof.
  intros Hw. pose proof (writer_ok_pos w Hw). revert ents total.
  induction fuel as [|fuel IH]; intros ents total Hs Hf; destruct ents as [|d ents]; [|cbn in Hf; lia| |];
    try (cbn [dirent_size_loop dir_blocks dir_bytes fmap list_fmap]; rewrite zlen_nil; lia).
  destruct (next_block_spec w (d :: ents) Hw ltac:(done) Hs) as (n & E & Hn & Hu).
  cbn [dir_blocks]. change (di_name <$> d :: ents) with (di_name d :: (di_name <$> ents)) in *.
  cbn [dirent_size_loop]. rewrite E. cbn [fst]. rewrite Nat2Z.id.
  change (di_name d :: (di_name <$> ents)) with (di_name <$> d :: ents). rewrite <- fmap_drop.
  set (b := take n (d :: ents)) in *. set (rest := drop n (d :: ents)) in *.
  assert (Hb : b <> []).
  { intros X. apply (f_equal length) in X. unfold b in X. rewrite length_take in X. cbn in *. lia. }
  assert (Hr : small_names w rest) by (by apply Forall_drop).
  assert (Hfr : (length rest <= fuel)%nat) by (unfold rest; rewrite length_drop; cbn in *; lia).
  rewrite IH by done. destruct (dir_blocks_packed w fuel rest Hw Hr Hfr) as [PA _].
  set (blks := dir_blocks fuel (w_blockSize w) rest) in *.
  destruct (decide (rest = [])) as [Er|Er].
  - assert (Eb : blks = []) by (unfold blks; rewrite Er; by destruct fuel). rewrite Eb, Er.
    cbn [fmap list_fmap dir_bytes]. rewrite bool_decide_true by done. cbn [negb andb]. rewrite zlen_nil.
    unfold used. lia.
  - assert (Hbl : blks <> []) by (intros Eb; rewrite Eb in PA; by cbn in PA).
    rewrite bool_decide_false by (intros X%fmap_nil_inv; done). cbn [negb andb].
    rewrite dir_bytes_len_cons by done.
    destruct (block_pad w b Hw Hb Hu) as [[M U]|[M U]]; rewrite M.
    + rewrite (proj2 (Z.eqb_eq 0 0)) by done. cbn [negb]. lia.
    + rewrite (proj2 (Z.eqb_neq (used b) 0)) by lia. cbn [negb].
      destruct Hw as [(k & Hk & Ek) _]. rewrite Ek in *.
      rewrite (round_up_unique (used b) (2 ^ k) k) by (lia || apply Z.mod_same; lia). lia.
Qed.

(** ** A directory's entries *)

Definition dot_entries (e : erofsEntry) : list direntInfo :=
  [mkDirentInfo (bs ".") (e_nid e) FileTypeDir; mkDirentInfo (bs "..") (e_parentNid e) FileTypeDir].

Record dir_ok (w : erofsWriter) (st : store) (e : erofsEntry) : Prop := {
  do_nid : is_u64 (e_nid e) /\ is_u64 (e_parentNid e);
  do_children c : c ∈ e_children e -> exists ce, st !! c = Some ce /\ good_name (e_name ce) /\
    zlen (e_name ce) <= 255 /\ is_dot (e_name ce) = false /\ is_u64 (e_nid ce) /\ is_u8 (e_erofsFileType ce);
  do_names : NoDup (child_names st e);
}.

Lemma child_infos_ok w st e :
  dir_ok w st e -> exists kids, child_infos st (e_children e) = Ok kids /\ di_name <$> kids = child_names st e /\
    Forall (fun d => ent_ok d /\ zlen (di_name d) <= 255 /\ is_dot (di_name d) = false) kids /\
    length kids = length (e_children e) /\
    (forall i c ce, e_children e !! i = Some c -> st !! c = Some ce ->
       kids !! i = Some (mkDirentInfo (e_name ce) (e_nid ce) (e_erofsFileType ce))).
Proof.
  intros [_ Hc _]. unfold child_names. induction (e_children e) as [|c l IH].
  { exists []. by repeat split. }
  destruct IH as (kids & I1 & I2 & I3 & I4 & I5); [intros; apply Hc; by right|].
  destruct (Hc c ltac:(left)) as (ce & H1 & H2 & H3 & H4 & H5 & H6).
  eexists. cbn [child_infos]. unfold child_info, deref. rewrite H1, I1. split; [done|].
  split; [cbn; by rewrite H1, I2|]. split; [constructor; [|done]; by repeat split; try apply H2; try apply H5; try apply H6|].
  split; [cbn; by rewrite I4|].
  intros [|i] c' ce' Hi Hce; [|by apply (I5 i c' ce')]. injection Hi as <-.
  rewrite H1 in Hce. apply (inj Some) in Hce as <-. done.
Qed.

#[export] Instance name_le_anti : AntiSymm (=) name_le.
Proof. intros a b. apply name_le_antisym. Qed.

#[export] Instance di_le_total : Total di_le.
Proof. intros a b. apply name_le_total. Qed.

#[export] Instance di_le_trans : Transitive di_le.
Proof. intros a b c. apply name_le_trans. Qed.

(** Names in order, none twice, are strictly in order. *)
Lemma sorted_nodup_strict l : Sorted name_le l -> NoDup l -> StronglySorted name_lt l.
Proof.
  intros Hs%Sorted_StronglySorted Hnd; [|apply _]. induction Hs as [|x l Hs IH Hf]; [constructor|].
  apply NoDup_cons in Hnd as [Hx Hnd]. constructor; [by apply IH|].
  apply Forall_forall. intros y Hy. pose proof (proj1 (Forall_forall _ _) Hf y Hy) as H.
  apply name_le_lt_or_eq in H as [H| ->]; done.
Qed.

(** What [writeDirents] packs: "." and ".." and the children, each name once,
    in the order planning sized them in. *)
Record dir_entries (w : erofsWriter) (st : store) (e : erofsEntry) (ents : list direntInfo) : Prop := {
  de_all : allEnts st e = Ok ents;
  de_names : di_name <$> ents = direntNames st e;
  de_perm : exists kids, child_infos st (e_children e) = Ok kids /\ ents ≡ₚ dot_entries e ++ kids;
  de_ok : Forall ent_ok ents;
  de_small : small_names w ents;
  de_sorted : StronglySorted name_lt (di_name <$> ents);
}.

Lemma allEnts_entries w st e :
  writer_ok w -> dir_ok w st e -> exists ents, dir_entries w st e ents.
Proof.
  intros Hw Hd. pose proof (writer_ok_pos w Hw).
  destruct (child_infos_ok w st e Hd) as (kids & K1 & K2 & K3 & K4 & K5).
  set (all := dot_entries e ++ kids). set (ents := merge_sort di_le all).
  assert (HP : ents ≡ₚ all) by apply merge_sort_Permutation.
  assert (HN : di_name <$> all = bs "." :: bs ".." :: child_names st e).
  { unfold all. rewrite fmap_app, K2. done. }
  assert (HS : Sorted name_le (di_name <$> ents)).
  { apply (Sorted_fmap _ di_le); [done|]. apply Sorted_merge_sort, _. }
  assert (HD : Forall (fun d => ent_ok d /\ zlen (di_name d) <= 255) all).
  { unfold all, dot_entries. destruct (do_nid _ _ _ Hd) as [N1 N2].
    assert (G : forall b, b = bs "." \/ b = bs ".." -> good_name b).
    { intros b Hb. apply checkDirentName_spec. destruct Hb; subst; by vm_compute. }
    repeat (apply Forall_cons; split; [by repeat split; try apply G; auto; try apply N1; try apply N2|]).
    eapply Forall_impl; [exact K3|]. by intros d (? & ? & _). }
  exists ents. split.
  - unfold allEnts. rewrite K1. done.
  - unfold direntNames. apply (Sorted_unique name_le); [done|apply Sorted_merge_sort, _|].
    rewrite merge_sort_Permutation, <- HN. by rewrite HP.
  - exists kids. done.
  - rewrite HP. eapply Forall_impl; [exact HD|]. by intros d [? _].
  - unfold small_names. rewrite HP. eapply Forall_impl; [exact HD|].
    intros d [_ ?]. cbv beta. unfold SizeDirent. lia.
  - apply sorted_nodup_strict; [done|]. rewrite HP, HN.
    assert (Hdot : forall b, is_dot b = true -> b ∉ child_names st e).
    { intros b Hb Hin. rewrite <- K2 in Hin. apply list_elem_of_fmap in Hin as (d & -> & Hin).
      pose proof (proj1 (Forall_forall _ _) K3 d Hin) as (_ & _ & X). congruence. }
    apply NoDup_cons. split; [rewrite not_elem_of_cons; split; [by vm_compute|by apply Hdot]|].
    apply NoDup_cons. split; [by apply Hdot|by apply do_names in Hd].
Qed.

(** A directory's data: its blocks as the planner and the writer cut them. *)
Definition dir_data (w : erofsWriter) (ents : list direntInfo) : bytes :=
  dir_bytes (w_blockSize w) (dir_blocks (length ents) (w_blockSize w) ents).

Lemma calcDirentDataSize_data w st e ents :
  writer_ok w -> dir_entries w st e ents -> calcDirentDataSize w st e = zlen (dir_data w ents).
Proof.
  intros Hw [D1 D2 (kids & D3 & D3') D4 D5 D6]. unfold calcDirentDataSize.
  assert (G : dirent_size_loop (length (direntNames st e)) (w_blockSize w) (direntNames st e) 0 = zlen (dir_data w ents)).
  { rewrite <- D2, length_fmap, dirent_size_loop_bytes by done. done. }
  case_bool_decide as E; [|done]. rewrite <- G. unfold direntNames, child_names. rewrite E.
  cbn [fmap list_fmap]. change (merge_sort name_le [bs "."; bs ".."]) with [bs "."; bs ".."].
  pose proof (writer_ok_pos w Hw). cbn [length dirent_size_loop].
  unfold next_block, fit_block, SizeDirent. change (zlen (bs ".")) with 1. change (zlen (bs "..")) with 2.
  cbn [Z.add Z.mul Pos.add Pos.mul Pos.succ Pos.add_carry].
  rewrite !(proj2 (Z.ltb_ge (w_blockSize w) _)) by lia. done.
Qed.

(** [writeDirents] writes the directory's data and counts its bytes. *)
Lemma writeDirents_emits {S} `{SinkLaws S} w st (buf : S) e ents :
  writer_ok w -> dir_entries w st e ents ->
  emits_n buf (writeDirents w st buf e) (dir_data w ents) (zlen (dir_data w ents)).
Proof.
  intros Hw [D1 _ _ _ D5 _]. unfold writeDirents, dir_data. rewrite D1.
  apply (dirent_blocks_emits w (length ents) ents buf 0); done.
Qed.

(** Block [i] of a directory's data. *)
Lemma dir_bytes_block w ents blks i b :
  writer_ok w -> packed w ents blks -> blks !! i = Some b ->
  let data := dir_bytes (w_blockSize w) blks in
  exists pad, sub data (i * Z.to_nat (w_blockSize w))
                (Z.to_nat (Z.min (w_blockSize w) (zlen data - Z.of_nat i * w_blockSize w))) =
              block_bytes b ++ zeros pad /\
              Z.of_nat i * w_blockSize w < zlen data.
Proof.
  intros Hw [_ Hf] Hi. pose proof (writer_ok_pos w Hw). revert i Hi.
  induction blks as [|b0 blks IH]; intros i Hi; [done|].
  pose proof (Forall_inv Hf) as [Hne Hu]. specialize (IH (Forall_inv_tail Hf)).
  pose proof (used_pos b0 Hne). cbv zeta in *.
  destruct (decide (blks = [])) as [->|Hb].
  - destruct i as [|i]; [|done]. injection Hi as <-. exists 0%nat. cbn [dir_bytes zeros replicate]. rewrite app_nil_r.
    unfold used in *. split; [|lia]. apply sub_all. unfold zlen in *. lia.
  - rewrite dir_bytes_len_cons by done. rewrite dir_bytes_cons by done.
    set (d := dir_bytes (w_blockSize w) blks) in *. pose proof (zlen_nonneg d).
    set (p := Z.to_nat (w_blockSize w - used b0)).
    assert (LP : length (block_bytes b0 ++ zeros p) = Z.to_nat (w_blockSize w)).
    { rewrite length_app, length_zeros. unfold p, used, zlen in *. lia. }
    destruct i as [|i].
    + injection Hi as <-. exists p. split; [|lia]. rewrite sub_app_l by (rewrite LP; lia).
      apply sub_all. rewrite LP. lia.
    + destruct (IH i Hi) as (pad & E & Hlt). exists pad. split; [|lia].
      rewrite sub_app_r by (rewrite LP; lia). rewrite LP, <- E.
      f_equal; [f_equal|]; lia.
Qed.

(** ** What a reader finds *)

(** A directory, abstractly: what each name answers. *)
Definition dir_map (ents : list direntInfo) : gmap bytes (Z * Z) :=
  list_to_map ((fun d => (di_name d, (di_nid d, EroFSFtypeToFileMode (di_fileType d)))) <$> ents).

Definition info_ent (d : direntInfo) : direntry :=
  mkDirentry (di_name d) (di_nid d) (EroFSFtypeToFileMode (di_fileType d)).

(** The directory inode [fi] of [img] has [data]: its size, and every block. *)
Record holds (img : image) (fi : inode) (data : bytes) : Prop := {
  ho_size : ino_size fi = zlen data;
  ho_bound : zlen data <= MaxInt64 - 2 ^ 16;
  ho_blocks i : 0 <= i -> i * 2 ^ img_bits img < zlen data ->
    loadBlock img fi (i * 2 ^ img_bits img) =
      Ok (sub data (Z.to_nat (i * 2 ^ img_bits img)) (Z.to_nat (Z.min (2 ^ img_bits img) (zlen data - i * 2 ^ img_bits img))));
}.

Lemma strict_NoDup (l : list bytes) : StronglySorted name_lt l -> NoDup l.
Proof.
  induction 1 as [|x t Hs IH Hf]; constructor; [|done]. intros Hx. by apply (name_lt_irrefl x), (proj1 (Forall_forall _ _) Hf).
Qed.

Lemma view_infos ents off :
  (fun p : Dirent * bytes => mkDirentInfo p.2 (de_Nid p.1) (de_FileType p.1)) <$> table_view ents off = ents.
Proof. revert off. induction ents as [|[n i f] ents IH]; intros off; cbn; [done|]. by rewrite IH. Qed.

Lemma views_infos blks :
  (fun p : Dirent * bytes => mkDirentInfo p.2 (de_Nid p.1) (de_FileType p.1)) <$> entries_of (view_of <$> blks) =
  mjoin blks.
Proof.
  unfold entries_of. induction blks as [|b blks IH]; [done|].
  change (mjoin (view_of <$> b :: blks)) with (view_of b ++ mjoin (view_of <$> blks)).
  rewrite fmap_app, IH. unfold view_of. by rewrite view_infos.
Qed.

Lemma calculateBlocks_dir w ents blks k :
  writer_ok w -> w_blockSize w = 2 ^ k -> 0 <= k -> packed w ents blks ->
  calculateBlocks k (zlen (dir_bytes (w_blockSize w) blks)) = zlen blks.
Proof.
  intros Hw Hk Hk0 [_ Hf]. pose proof (writer_ok_pos w Hw).
  assert (B : zlen blks = 0 /\ zlen (dir_bytes (w_blockSize w) blks) = 0 \/
              (zlen blks - 1) * w_blockSize w < zlen (dir_bytes (w_blockSize w) blks) <= zlen blks * w_blockSize w).
  { induction blks as [|b blks IH]; [left; done|right].
    pose proof (Forall_inv Hf) as [Hne Hu]. pose proof (used_pos b Hne). specialize (IH (Forall_inv_tail Hf)).
    destruct (decide (blks = [])) as [->|Hb]; [cbn [dir_bytes]; unfold used in *; change (zlen [b]) with 1; lia|].
    rewrite dir_bytes_len_cons by done. rewrite zlen_cons. destruct IH as [[I1 _]|IH]; [|nia].
    destruct blks; [done|]. rewrite zlen_cons in I1. pose proof (zlen_nonneg blks). lia. }
  unfold calculateBlocks. set (n := zlen (dir_bytes (w_blockSize w) blks)) in *. rewrite Hk in *.
  rewrite Z.shiftr_div_pow2, Z.shiftl_mul_pow2 by lia.
  pose proof (Z.div_mod n (2 ^ k) ltac:(lia)). pose proof (Z.mod_pos_bound n (2 ^ k) ltac:(lia)).
  destruct B as [[-> ->]|B]; [by rewrite Z.div_0_l by lia|].
  destruct (Z.ltb_spec (n / 2 ^ k * 2 ^ k) n); nia.
Qed.

(** A directory whose blocks load as written is one the reader can view. *)
Lemma written_view w st e ents img fi :
  writer_ok w -> dir_entries w st e ents -> w_blockSize w = 2 ^ img_bits img -> 9 <= img_bits img <= 16 ->
  holds img fi (dir_data w ents) ->
  exists blks, dir_view img fi blks /\ StronglySorted name_lt (names_of (entries_of blks)) /\
    (fun p => mkDirentInfo p.2 (de_Nid p.1) (de_FileType p.1)) <$> entries_of blks = ents.
Proof.
  intros Hw [_ _ _ D4 D5 D6] Hbs Hbits [S1 S2 S3]. pose proof (writer_ok_pos w Hw).
  pose proof (dir_blocks_packed w (length ents) ents Hw D5 ltac:(lia)) as Hp.
  set (blks := dir_blocks (length ents) (w_blockSize w) ents) in *.
  assert (HI : (fun p : Dirent * bytes => mkDirentInfo p.2 (de_Nid p.1) (de_FileType p.1)) <$>
                 entries_of (view_of <$> blks) = ents).
  { rewrite views_infos. apply Hp. }
  exists (view_of <$> blks). split; [|split; [|done]].
  - split.
    + rewrite S1. pose proof (zlen_nonneg (dir_data w ents)). lia.
    + rewrite S1. unfold dir_data. fold blks. rewrite (calculateBlocks_dir w ents) by (done || lia).
      unfold zlen. by rewrite length_fmap.
    + intros i l Hi. rewrite list_lookup_fmap in Hi. destruct (blks !! i) as [b|] eqn:Eb; [|done].
      apply (inj Some) in Hi as <-.
      destruct (dir_bytes_block w ents blks i b Hw Hp Eb) as (pad & E & Hlt). cbv zeta in *.
      change (dir_bytes (w_blockSize w) blks) with (dir_data w ents) in *.
      pose proof (proj1 (Forall_lookup _ _) (pk_fit _ _ _ Hp) i b Eb) as [Hne Hu].
      eexists. split; [apply S3; [lia|by rewrite <- Hbs]|].
      rewrite <- Hbs. replace (Z.to_nat (Z.of_nat i * w_blockSize w)) with (i * Z.to_nat (w_blockSize w))%nat by lia.
      rewrite E. apply block_view_written; [done| |unfold used in Hu; lia].
      destruct Hp as [PA _]. rewrite <- PA in D4. apply Forall_forall. intros d Hd.
      apply (proj1 (Forall_forall _ _) D4). apply list_elem_of_join. exists b. split; [done|].
      by eapply list_elem_of_lookup_2.
  - assert (EN : names_of (entries_of (view_of <$> blks)) = di_name <$> ents).
    { rewrite <- HI, <- list_fmap_compose. done. }
    by rewrite EN.
Qed.

Lemma dir_map_answers ents l name :
  (fun p : Dirent * bytes => mkDirentInfo p.2 (de_Nid p.1) (de_FileType p.1)) <$> l = ents ->
  StronglySorted name_lt (names_of l) ->
  forall r, lookup_answers l name r ->
  r = match dir_map ents !! name with Some a => Ok a | None => Err ErrNotExist end.
Proof.
  intros HE Hs r H.
  set (f := fun d => (di_name d, (di_nid d, EroFSFtypeToFileMode (di_fileType d)))).
  assert (ND : NoDup (f <$> ents).*1).
  { rewrite <- HE, <- !list_fmap_compose. by apply (strict_NoDup (names_of l)). }
  destruct H as [(i & de & Hi & ->)|[Hn ->]].
  - unfold dir_map. rewrite (elem_of_list_to_map_1 _ name (entry_answer de)); [done|exact ND|].
    apply (list_elem_of_lookup_2 _ i). rewrite <- HE, <- list_fmap_compose, list_lookup_fmap, Hi. done.
  - unfold dir_map. rewrite not_elem_of_list_to_map_1; [done|].
    change ((fun d => (di_name d, (di_nid d, EroFSFtypeToFileMode (di_fileType d)))) <$> ents) with (f <$> ents).
    rewrite <- HE, <- !list_fmap_compose. exact Hn.
Qed.

Lemma visible_infos l :
  visible l = info_ent <$> filter (fun d => is_dot (di_name d) = false)
    ((fun p : Dirent * bytes => mkDirentInfo p.2 (de_Nid p.1) (de_FileType p.1)) <$> l).
Proof.
  induction l as [|p l IH]; [done|]. cbn [visible fmap list_fmap]. rewrite filter_cons. cbn [di_name].
  destruct (is_dot p.2) eqn:E.
  - rewrite decide_False by (cbn; congruence). exact IH.
  - rewrite decide_True by done. cbn [fmap list_fmap]. by rewrite IH.
Qed.

(** What a reader finds in a directory whose blocks load as written. *)
Lemma directory_facts w st e ents img f fi f' :
  writer_ok w -> dir_entries w st e ents -> image_wf img -> w_blockSize w = 2 ^ img_bits img ->
  readInfo img f = (Ok fi, f') -> holds img fi (dir_data w ents) ->
  (forall name, (lookup img f name).1 =
     match dir_map ents !! name with Some a => Ok a | None => Err ErrNotExist end) /\
  exists r, ReadDir img (mkDir f 0 0) (-1) = Ok r /\ rdd_err r = None /\
    rdd_ents r = info_ent <$> filter (fun d => is_dot (di_name d) = false) ents.
Proof.
  intros Hw De Hwf Hbs Hr Hh.
  destruct (written_view w st e ents img fi Hw De Hbs (wf_bits _ Hwf) Hh) as (blks & Hv & Hs & HE).
  split.
  - intros name. apply (dir_map_answers ents (entries_of blks)); [done|done|]. by eapply lookup_facts.
  - destruct (ReadDir_facts img (mkDir f 0 0) (-1) fi f' blks) as (r & R1 & R2 & R3 & R4 & R5 & R6); try done.
    { cbn. pose proof (zlen_nonneg blks). lia. }
    exists r. split; [done|]. destruct R6 as [(_ & ? & _)|(R6 & R7 & _)]; [lia|]. split; [exact R6|].
    rewrite R7, app_nil_r in R2. rewrite <- R2. unfold remaining. cbn [Z.to_nat d_bn d_consumed].
    rewrite drop_0. rewrite <- HE, <- visible_infos.
    destruct blks as [|b blks]; [done|]. unfold entries_of. cbn. rewrite drop_0.
    by rewrite <- visible_app.
Qed.

(** C3: a directory written is the directory read.  [writeDirents] writes
    exactly the bytes planning sized it at; a reader to whom the directory's
    blocks load as they were written answers every lookup as the map from the
    names of ".", ".." and the children to their nids and types does, and
    lists the children in name order. *)
Theorem directory_roundtrip w st e (buf : bytes) :
  writer_ok w -> dir_ok w st e ->
  exists ents data, allEnts st e = Ok ents /\
    writeDirents w st buf e = Ok (buf ++ data, zlen data) /\ zlen data = calcDirentDataSize w st e /\
    forall img f fi f', image_wf img -> w_blockSize w = 2 ^ img_bits img ->
      readInfo img f = (Ok fi, f') -> holds img fi data ->
      (forall name, (lookup img f name).1 =
         match dir_map ents !! name with Some a => Ok a | None => Err ErrNotExist end) /\
      exists r, ReadDir img (mkDir f 0 0) (-1) = Ok r /\ rdd_err r = None /\
        rdd_ents r = info_ent <$> filter (fun d => is_dot (di_name d) = false) ents.
Proof.
  intros Hw Hd. destruct (allEnts_entries w st e Hw Hd) as [ents De].
  exists ents, (dir_data w ents). split; [apply De|]. split.
  { pose proof (writeDirents_emits w st buf e ents Hw De) as H.
    destruct (writeDirents w st buf e) as [[b n]| |]; cbn in H; [|by destruct H|done]. by destruct H as [-> ->]. }
  split; [by rewrite (calcDirentDataSize_data w st e ents)|].
  intros img f fi f' Hwf Hbs Hr Hh. by eapply directory_facts.
Qed.

Lemma directory_roundtrip_witness :
  exists ents data, allEnts example_store (set_children [1; 2; 3]%nat (example_entry (Z.lor StatTypeDir 493) "/")) = Ok ents /\
    writeDirents example_writer example_store [] (set_children [1; 2; 3]%nat (example_entry (Z.lor StatTypeDir 493) "/")) =
      Ok (data, 66) /\ dir_map ents !! bs "b" = Some (0, ModeSymlink) /\ dir_map ents !! bs "d" = None.
Proof.
  destruct (directory_roundtrip example_writer example_store
    (set_children [1; 2; 3]%nat (example_entry (Z.lor StatTypeDir 493) "/")) []) as (ents & data & H1 & H2 & H3 & _).
  - apply example_writer_ok.
  - split.
    + by vm_compute.
    + intros c Hc. cbn in Hc. set_unfold in Hc.
      destruct Hc as [-> | [-> | [-> | []]]]; eexists; (split; [reflexivity|]);
        (split; [apply checkDirentName_spec; by vm_compute|]); by vm_compute.
    + apply (bool_decide_unpack _). vm_compute. done.
  - exists ents, data. split; [done|]. split.
    + rewrite H2. f_equal. f_equal. rewrite H3. vm_compute. reflexivity.
    + vm_compute in H1. apply Ok_inj in H1 as <-. split; vm_compute; reflexivity.
Defined.
