(* ===== verification/ImageWrite.v ===== *)
(** * The image written

    The metadata area and the superblock area of src/writer.go put together:
    every inode lands in its slot with its xattrs, chunk map or inline data
    behind it, the area has the size the superblock counts, and the superblock
    written is one [Open] accepts. *)

From S2P Require Import Prelude Machine Disk Format Image Inode Data Reading Dir Xattr Open Layout Serialize Roundtrip DirWrite.

(** ** The bytes of a slot *)

(** What follows the xattrs of an inode: chunk map or inline data. *)
Inductive trailing (w : erofsWriter) (st : store) (e : erofsEntry) : bytes -> Prop :=
| trailing_map :
    e_type e = StatTypeReg -> e_layout e = LayoutChunkBased ->
    0 < e_size e \/ e_chunks e <> [] -> chunks_ok (e_chunks e) -> 0 <= entryChunkBits w e <= 31 ->
    trailing w st e (index_bytes w e)
| trailing_file src b :
    e_type e = StatTypeReg -> e_layout e = LayoutFlatInline -> 0 < e_size e -> e_data e = Some src ->
    copy_upto src (e_size e) = (b, None) -> zlen b = e_size e -> trailing w st e b
| trailing_dir ents :
    e_type e = StatTypeDir -> e_layout e = LayoutFlatInline -> dir_entries w st e ents ->
    direntDataSize w st e = calcDirentDataSize w st e -> trailing w st e (dir_data w ents)
| trailing_link :
    e_type e = StatTypeSymlink -> e_layout e = LayoutFlatInline -> trailing w st e (e_symTarget e)
| trailing_none :
    e_layout e = LayoutFlatPlain \/
    (e_type e = StatTypeReg /\ e_size e = 0 /\ e_layout e = LayoutFlatInline) \/
    (e_type e = StatTypeReg /\ e_layout e = LayoutChunkBased /\ e_size e = 0 /\ e_chunks e = []) ->
    trailing w st e [].

(** An entry that can be written: its slot is planned and its content there. *)
Record writable (w : erofsWriter) (st : store) (e : erofsEntry) (t : bytes) : Prop := {
  wr_slot : slot_ok w st e;
  wr_size : 0 <= e_size e <= MaxInt64;
  wr_trailing : trailing w st e t;
}.

Definition xattr_bytes (e : erofsEntry) : bytes :=
  if 0 <? e_xattrSize e then xattr_area (e_xattrs e) else [].

Definition slot_bytes (w : erofsWriter) (st : store) (e : erofsEntry) (t : bytes) : bytes :=
  core_bytes w st e ++ xattr_bytes e ++ zeros (Z.to_nat (e_chunkPad e)) ++ t ++
  zeros (Z.to_nat (slot_size e - (inodeCoreSize e + e_xattrSize e + e_chunkPad e + e_trailingSize e))).

Lemma xattr_bytes_len w st e : slot_ok w st e -> zlen (xattr_bytes e) = e_xattrSize e.
Proof.
  intros [_ _ _ Hx _ _ _]. unfold xattr_bytes. rewrite Hx.
  destruct (calcXattrSize_spec (e_xattrs e)) as [[-> _]|(Hn & Hs & _)]; [done|].
  rewrite (proj2 (Z.ltb_lt _ _)) by lia. by apply xattr_area_len.
Qed.

(** The trailing data takes the bytes planning reserved. *)
Lemma trailing_len w st e t : writer_ok w -> writable w st e t -> zlen t = e_trailingSize e.
Proof.
  intros Hw [Hs Hz Ht]. rewrite (so_trailing _ _ _ Hs). unfold calcTrailingSize, MaxInt64 in *.
  destruct Ht as [T L N _ _|src b T L N D C Z|ents T L De M|T L|L].
  - rewrite T, L. cbn [Z.eqb StatTypeReg LayoutChunkBased Pos.eqb].
    assert (X : (e_size e =? 0) && (zlen (e_chunks e) =? 0) = false).
    { apply andb_false_iff. destruct N as [N|N]; [left; apply Z.eqb_neq; lia|right]. apply Z.eqb_neq.
      destruct (e_chunks e); [done|]. rewrite zlen_cons. pose proof (zlen_nonneg l). lia. }
    rewrite X. apply index_bytes_len. unfold is_u64. lia.
  - rewrite T, L. cbn. rewrite Z, i64_id; lia.
  - rewrite T, L. cbn [Z.eqb StatTypeReg StatTypeDir LayoutFlatInline Pos.eqb].
    rewrite M. by rewrite (calcDirentDataSize_data w st e ents).
  - rewrite T, L. done.
  - change (zlen (@nil byte)) with 0. destruct L as [->|[(-> & -> & ->)|(-> & -> & -> & ->)]]; [|done|done].
    cbn. by repeat case_match.
Qed.

(** Padding before a chunk map, and only there. *)
Lemma chunk_pad_map w st e t :
  writer_ok w -> writable w st e t -> e_chunkPad e <> 0 ->
  e_type e = StatTypeReg /\ e_layout e = LayoutChunkBased /\ (0 < e_size e \/ e_chunks e <> []).
Proof.
  intros Hw Hwr Hp. pose proof (trailing_len w st e t Hw Hwr) as HL. destruct Hwr as [Hs Hz Ht].
  rewrite (so_pad _ _ _ Hs) in Hp. unfold chunkIndexPad in Hp.
  destruct (Z.eqb_spec (e_layout e) LayoutChunkBased) as [L|]; [|done].
  destruct (Z.eqb_spec (e_trailingSize e) 0) as [|T]; [done|].
  inversion Ht as [R1 _ R2 _ _|? ? _ R _ _ _ _|? _ R _ _|_ R|R HT]; try (rewrite L in R; discriminate); [auto|].
  subst t. exfalso. apply T. rewrite <- HL. done.
Qed.

Lemma slot_bytes_len w st e t :
  writer_ok w -> writable w st e t -> zlen (slot_bytes w st e t) = slot_size e.
Proof.
  intros Hw Hwr. pose proof (trailing_len w st e t Hw Hwr) as HL.
  pose proof (xattr_bytes_len w st e (wr_slot _ _ _ _ Hwr)).
  destruct (slot_end_ge w st e (wr_slot _ _ _ _ Hwr)) as (_ & G2 & G3 & _).
  unfold slot_bytes. rewrite !zlen_app, length_core_bytes. unfold zlen at 2 4. rewrite !length_zeros.
  unfold slot_size. destruct (inodeSlotAlign_spec (inodeCoreSize e + e_xattrSize e + e_chunkPad e + e_trailingSize e)).
  lia.
Qed.

(** ** Writing a slot *)

Section Slots.
Context {S : Type} `{SinkLaws S}.
Implicit Types buf : S.

Lemma copy_data_emits buf src n b :
  copy_upto src n = (b, None) -> emits_n buf (copy_data buf src n) b (zlen b).
Proof.
  intros E. unfold copy_data. rewrite E. rewrite <- (app_nil_r b) at 2.
  apply emits_bind_n; [apply emits_write|]. intros. apply emits_ret_n.
Qed.

(** What follows the xattrs: the padding of a chunk map and the trailing
    data. *)
Lemma write_trailing_emits w st buf e t ms :
  writer_ok w -> writable w st e t ->
  emits_n buf (write_trailing w st buf e ms) (zeros (Z.to_nat (e_chunkPad e)) ++ t)
    (ms + e_chunkPad e + e_trailingSize e).
Proof.
  intros Hw Hwr. pose proof (trailing_len w st e t Hw Hwr) as HL.
  pose proof (chunk_pad_map w st e t Hw Hwr) as HP. pose proof (writer_ok_pos w Hw).
  destruct Hwr as [Hs Hz Ht]. destruct (slot_end_ge w st e Hs) as (_ & _ & G3 & _).
  unfold SizeChunkIndex, MaxInt64 in *. rewrite <- HL.
  assert (P0 : e_layout e <> LayoutChunkBased -> e_chunkPad e = 0).
  { intros Hn. destruct (Z.eq_dec (e_chunkPad e) 0) as [|N]; [done|]. by destruct (HP N) as (_ & ? & _). }
  unfold write_trailing. destruct Ht as [T L N C B|src b T L N D C ZL|ents T L De M|T L|L].
  - rewrite T, L. cbn [Z.eqb StatTypeReg LayoutChunkBased Pos.eqb andb].
    assert (E : (0 <? e_size e) || (0 <? zlen (e_chunks e)) = true).
    { apply orb_true_iff. destruct N as [N|N]; [left; by apply Z.ltb_lt|right]. apply Z.ltb_lt.
      destruct (e_chunks e); [done|]. rewrite zlen_cons. pose proof (zlen_nonneg l). lia. }
    rewrite E. apply emits_n_bind_n with (n := ms + e_chunkPad e).
    + case_match; zbool.
      * rewrite <- (app_nil_r (zeros _)). apply emits_bind_n; [apply emits_zeros; lia|]. intros. apply emits_ret_n.
      * replace (e_chunkPad e) with 0 by lia. rewrite Z.add_0_r. apply emits_ret_n.
    + intros buf' _. rewrite HL, <- (app_nil_r (index_bytes w e)). apply emits_bind_n.
      * apply writeChunkIndexes_emits; try done. unfold is_u64. lia.
      * intros. apply emits_ret_n.
  - rewrite P0 by (by rewrite L). change (zeros (Z.to_nat 0)) with (@nil byte). rewrite app_nil_l. rewrite T, D, L, Z.add_0_r. cbn [Z.eqb StatTypeReg LayoutFlatInline LayoutChunkBased Pos.eqb andb].
    rewrite (proj2 (Z.ltb_lt _ _)) by done. rewrite i64_id by lia.
    rewrite <- (app_nil_r b) at 1. eapply emits_n_bind_n; [by apply copy_data_emits|]. intros buf' _.
    rewrite ZL, Z.eqb_refl. apply emits_ret_n.
  - rewrite P0 by (by rewrite L). change (zeros (Z.to_nat 0)) with (@nil byte). rewrite app_nil_l. rewrite T, L, Z.add_0_r. cbn [Z.eqb StatTypeReg StatTypeDir LayoutFlatInline Pos.eqb].
    rewrite <- (app_nil_r (dir_data w ents)) at 1.
    eapply emits_n_bind_n; [by apply writeDirents_emits|]. intros. apply emits_ret_n.
  - rewrite P0 by (by rewrite L). change (zeros (Z.to_nat 0)) with (@nil byte). rewrite app_nil_l. rewrite T, L, Z.add_0_r.
    cbn [Z.eqb StatTypeReg StatTypeDir StatTypeSymlink LayoutFlatInline Pos.eqb].
    rewrite <- (app_nil_r (e_symTarget e)) at 2. apply emits_bind_n; [apply emits_write|]. intros. apply emits_ret_n.
  - assert (P : e_chunkPad e = 0).
    { destruct (Z.eq_dec (e_chunkPad e) 0) as [|X]; [done|]. destruct (HP X) as (? & X2 & X3).
      destruct L as [L|[(_ & _ & L)|(_ & _ & L & L')]]; [rewrite X2 in L; discriminate..|]. destruct X3; [lia|done]. }
    rewrite P. change (zlen (@nil byte)) with 0. rewrite !Z.add_0_r. change (zeros (Z.to_nat 0)) with (@nil byte). rewrite app_nil_l.
    destruct L as [L|[(T & L & L2)|(T & L2 & L & L')]].
    + rewrite L. cbn [Z.eqb LayoutFlatPlain LayoutChunkBased LayoutFlatInline andb].
      repeat case_match; apply emits_ret_n.
    + rewrite T, L, L2. cbn. case_match; apply emits_ret_n.
    + rewrite T, L, L2, L'. change (0 <? zlen (@nil Chunk)) with false. cbn. case_match; apply emits_ret_n.
Qed.

(** The padding to the next slot. *)
Lemma slot_pad w st e :
  slot_ok w st e ->
  let n := inodeCoreSize e + e_xattrSize e + e_chunkPad e + e_trailingSize e in
  slot_size e - n = (if negb (Z.rem n 32 =? 0) then 32 - Z.rem n 32 else 0).
Proof.
  intros Hs n. destruct (slot_end_ge w st e Hs) as (_ & G2 & G3 & _). pose proof (so_trailing_nonneg _ _ _ Hs).
  assert (0 <= n) by (destruct (inodeCoreSize_cases e); unfold n; lia).
  unfold slot_size. fold n. destruct (inodeSlotAlign_spec n) as [A1 A2].
  rewrite Z.rem_mod_nonneg by lia. pose proof (Z.div_mod n 32 ltac:(lia)).
  pose proof (Z.div_mod (inodeSlotAlign n) 32 ltac:(lia)). pose proof (Z.mod_pos_bound n 32 ltac:(lia)).
  destruct (Z.eqb_spec (n mod 32) 0); cbn [negb]; lia.
Qed.

(** One inode: the gap up to its slot, then the slot. *)
Lemma write_slot_emits w st buf e t ms :
  writer_ok w -> writable w st e t -> 0 <= slot_start e - ms <= w_blockSize w ->
  emits_n buf (write_slot w st (buf, ms) e)
    (zeros (Z.to_nat (slot_start e - ms)) ++ slot_bytes w st e t) (slot_end e).
Proof.
  intros Hw Hwr Hg. unfold write_slot, slot_bytes. fold (inodeCoreSize e).
  replace (e_nid e * 32) with (slot_start e) by (unfold slot_start; lia).
  rewrite (proj2 (Z.ltb_ge _ _)) by lia. pose proof (writer_ok_pos w Hw).
  apply emits_n_bind_n with (n := slot_start e).
  { case_match; zbool.
    - rewrite <- (app_nil_r (zeros _)). apply emits_bind_n; [apply emits_zeros; lia|]. intros. apply emits_ret_n.
    - replace ms with (slot_start e) by lia. rewrite Z.sub_diag. apply emits_ret_n. }
  intros buf1 _. rewrite writeInode_core. apply emits_bind_n; [apply emits_write|]. intros buf2 _.
  apply emits_n_bind_n with (n := slot_start e + inodeCoreSize e + e_xattrSize e).
  { unfold xattr_bytes. case_match eqn:E; zbool.
    - rewrite <- (app_nil_r (xattr_area _)). apply emits_bind_n; [by apply writeXattrs_emits|].
      intros. apply emits_ret_n.
    - destruct (slot_end_ge w st e (wr_slot _ _ _ _ Hwr)) as (_ & G2 & _).
      replace (e_xattrSize e) with 0 by lia. rewrite Z.add_0_r. apply emits_ret_n. }
  intros buf3 _. rewrite app_assoc. eapply emits_n_bind_n; [by apply write_trailing_emits|]. intros buf4 _.
  pose proof (slot_pad w st e (wr_slot _ _ _ _ Hwr)) as HP. cbn zeta in HP. rewrite HP. unfold slot_end.
  case_match; zbool.
  - rewrite <- (app_nil_r (zeros _)). apply emits_bind_n.
    + apply emits_zeros. rewrite <- HP. unfold slot_size.
      destruct (inodeSlotAlign_spec (inodeCoreSize e + e_xattrSize e + e_chunkPad e + e_trailingSize e)). lia.
    + intros. replace (slot_start e + slot_size e) with (slot_start e + inodeCoreSize e + e_xattrSize e + e_chunkPad e +
        e_trailingSize e + (32 - Z.rem (inodeCoreSize e + e_xattrSize e + e_chunkPad e + e_trailingSize e) 32)) by lia.
      apply emits_ret_n.
  - replace (slot_start e + slot_size e) with (slot_start e + inodeCoreSize e + e_xattrSize e + e_chunkPad e +
      e_trailingSize e) by lia. apply emits_ret_n.
Qed.

End Slots.

(** ** The metadata area *)

(** Entries with their trailing data, each in the slot planning gives it after
    offset [off]. *)
Fixpoint laid (w : erofsWriter) (st : store) (off : Z) (l : list (erofsEntry * bytes)) : Prop :=
  match l with
  | [] => True
  | (e, t) :: l => slot_start e = plan_off w off (inodeCoreSize e) /\ writable w st e t /\ laid w st (slot_end e) l
  end.

(** Their bytes, and where they end. *)
Fixpoint meta_bytes (w : erofsWriter) (st : store) (off : Z) (l : list (erofsEntry * bytes)) : bytes :=
  match l with
  | [] => []
  | (e, t) :: l =>
      zeros (Z.to_nat (slot_start e - off)) ++ slot_bytes w st e t ++ meta_bytes w st (slot_end e) l
  end.

Fixpoint meta_end (off : Z) (l : list (erofsEntry * bytes)) : Z :=
  match l with [] => off | (e, _) :: l => meta_end (slot_end e) l end.

Lemma plan_off_gap w off e :
  writer_ok w -> 0 <= off -> 0 <= plan_off w off (inodeCoreSize e) - off <= w_blockSize w.
Proof.
  intros Hw H0. pose proof (writer_ok_pos w Hw). unfold plan_off. case_match; [|lia].
  destruct (round_up_block w off Hw). lia.
Qed.

Lemma laid_cons w st off e t l :
  writer_ok w -> 0 <= off -> laid w st off ((e, t) :: l) ->
  0 <= slot_start e - off <= w_blockSize w /\ writable w st e t /\ 0 <= slot_end e /\
  slot_start e + slot_size e = slot_end e /\ 0 <= slot_size e /\ laid w st (slot_end e) l.
Proof.
  intros Hw H0 (H1 & H2 & H3). pose proof (plan_off_gap w off e Hw H0). rewrite <- H1 in *.
  destruct (slot_end_ge w st e (wr_slot _ _ _ _ H2)) as (G1 & _).
  assert (inodeCoreSize e = 32 \/ inodeCoreSize e = 64) by apply inodeCoreSize_cases.
  unfold slot_end in *. do 5 (split; [done || lia|]). done.
Qed.

Lemma meta_len w st off l :
  writer_ok w -> 0 <= off -> laid w st off l ->
  zlen (meta_bytes w st off l) = meta_end off l - off /\ off <= meta_end off l.
Proof.
  intros Hw. revert off. induction l as [|[e t] l IH]; intros off H0 Hl; [cbn; unfold zlen; cbn; lia|].
  destruct (laid_cons _ _ _ _ _ _ Hw H0 Hl) as (L1 & L2 & L3 & L4 & L5 & L6).
  destruct (IH (slot_end e) L3 L6) as [I1 I2]. cbn [meta_bytes meta_end].
  rewrite !zlen_app, I1, (slot_bytes_len w st e t) by done. unfold zlen. rewrite length_zeros. lia.
Qed.

(** The bytes at a slot are the inode's. *)
Lemma meta_slot w st off l i e t :
  writer_ok w -> 0 <= off -> laid w st off l -> l !! i = Some (e, t) ->
  off <= slot_start e /\ slot_end e <= meta_end off l /\
  sub (meta_bytes w st off l) (Z.to_nat (slot_start e - off)) (Z.to_nat (slot_size e)) = slot_bytes w st e t.
Proof.
  intros Hw. revert off i. induction l as [|[e' t'] l IH]; intros off i H0 Hl Hi; [done|].
  destruct (laid_cons _ _ _ _ _ _ Hw H0 Hl) as (L1 & L2 & L3 & L4 & L5 & L6). cbn [meta_bytes meta_end].
  pose proof (slot_bytes_len w st e' t' Hw L2) as HL.
  destruct i as [|i].
  - injection Hi as <- <-. destruct (meta_len w st (slot_end e') l Hw L3 L6) as [_ M].
    split; [lia|]. split; [done|]. rewrite (sub_mid _ _ _ 0).
    + apply sub_all. unfold zlen in HL. lia.
    + rewrite length_zeros. lia.
    + unfold zlen in HL. lia.
  - destruct (IH (slot_end e') i L3 L6 Hi) as (I1 & I2 & I3). split; [lia|]. split; [done|].
    rewrite app_assoc, sub_app_r.
    + rewrite length_app, length_zeros. unfold zlen in HL. rewrite <- I3. f_equal. lia.
    + rewrite length_app, length_zeros. unfold zlen in HL. lia.
Qed.

Lemma metadataBytes_end w st off l :
  writer_ok w -> 0 <= off -> laid w st off l -> foldl metadata_step off (fst <$> l) = meta_end off l.
Proof.
  intros Hw. revert off. induction l as [|[e t] l IH]; intros off H0 Hl; [done|].
  destruct (laid_cons _ _ _ _ _ _ Hw H0 Hl) as (L1 & L2 & L3 & L4 & L5 & L6). cbn [fmap list_fmap fst foldl meta_end].
  replace (metadata_step off e) with (slot_end e); [by apply IH|].
  unfold metadata_step. pose proof (slot_pad w st e (wr_slot _ _ _ _ L2)) as P. cbn zeta in P.
  unfold slot_start in *. case_match; zbool; case_match; zbool; lia.
Qed.

Lemma meta_emits {S} `{SinkLaws S} w st (buf : S) off l :
  writer_ok w -> 0 <= off -> laid w st off l ->
  emits_n buf (fold_res (write_slot w st) (buf, off) (fst <$> l)) (meta_bytes w st off l) (meta_end off l).
Proof.
  intros Hw. revert buf off. induction l as [|[e t] l IH]; intros buf off H1 Hl; [apply emits_ret_n|].
  destruct (laid_cons _ _ _ _ _ _ Hw H1 Hl) as (L1 & L2 & L3 & L4 & L5 & L6).
  cbn [fmap list_fmap fst fold_res meta_bytes meta_end]. rewrite app_assoc.
  pose proof (write_slot_emits w st buf e t off Hw L2 L1) as He.
  destruct (write_slot w st (buf, off) e) as [[buf' m]|err|]; cbn [emits_n] in He |- *; [|done|done].
  destruct He as [He ->]. specialize (IH buf' (slot_end e) L3 L6).
  destruct (fold_res _ _ _) as [[buf'' m]|err|]; cbn [emits_n] in IH |- *; [|done|done].
  destruct IH as [IH ->]. by rewrite IH, He, <- app_assoc.
Qed.

(** The bytes and blocks of the area, counted as [checkLimits] and the
    superblock count them. *)
Definition metaBlocks (w : erofsWriter) (entries : list erofsEntry) : Z :=
  Z.quot (metadataBytes entries + w_blockSize w - 1) (w_blockSize w).

Lemma round_blocks n b : 0 <= n -> 0 < b ->
  Z.quot (n + b - 1) b * b = n + (if negb (Z.rem n b =? 0) then b - Z.rem n b else 0).
Proof.
  intros Hn Hb. rewrite Z.rem_mod_nonneg, Z.quot_div_nonneg by lia.
  pose proof (Z.div_mod n b ltac:(lia)). pose proof (Z.mod_pos_bound n b Hb).
  destruct (Z.eqb_spec (n mod b) 0); cbn [negb].
  - replace ((n + b - 1) / b) with (n / b); [lia|]. apply (Z.div_unique _ _ _ (b - 1)); lia.
  - replace ((n + b - 1) / b) with (n / b + 1); [lia|]. apply (Z.div_unique _ _ _ (n mod b - 1)); lia.
Qed.

Lemma metadata_emits {S} `{SinkLaws S} w st (buf : S) l :
  writer_ok w -> derefs st (w_entries w) = Ok (fst <$> l) -> laid w st 0 l ->
  exists pad, emits buf (writeMetadataInodes w st buf) (meta_bytes w st 0 l ++ zeros pad) /\
    zlen (meta_bytes w st 0 l ++ zeros pad) = metaBlocks w (fst <$> l) * w_blockSize w.
Proof.
  intros Hw Hd Hl. destruct (meta_len w st 0 l Hw ltac:(lia) Hl) as [M1 M2].
  pose proof (writer_ok_pos w Hw). unfold writeMetadataInodes. rewrite Hd.
  pose proof (metadataBytes_end w st 0 l Hw ltac:(lia) Hl) as E. fold (metadataBytes (fst <$> l)) in E.
  unfold metaBlocks. rewrite round_blocks by (rewrite ?E; lia). rewrite E.
  exists (Z.to_nat (if negb (Z.rem (meta_end 0 l) (w_blockSize w) =? 0)
                    then w_blockSize w - Z.rem (meta_end 0 l) (w_blockSize w) else 0)).
  pose proof (Z.rem_bound_pos (meta_end 0 l) (w_blockSize w) ltac:(lia) ltac:(lia)).
  split.
  - eapply emits_n_bind; [by apply meta_emits|]. intros buf' _.
    case_match; [apply emits_zeros; lia|apply emits_ret].
  - rewrite zlen_app, M1. unfold zlen. rewrite length_zeros. case_match; lia.
Qed.

(** ** Reading the metadata back *)

(** The image [img] reads the content [c], which has the metadata area [m] of
    [w] where the superblock says it starts. *)
Record carries (w : erofsWriter) (img : image) (c m : bytes) : Prop := {
  ca_wf : image_wf img;
  ca_backed : Backed (img_meta img) c;
  ca_size : img_size img = 0 \/ img_size img = zlen c;
  ca_len : zlen c <= MaxInt64 - 64;
  ca_bits : w_blockSize w = 2 ^ img_bits img;
  ca_times : inode_image_ok w img;
  ca_meta : sub c (Z.to_nat (metaStartPos img)) (length m) = m;
  ca_fits : metaStartPos img + zlen m <= zlen c;
  ca_whole : zlen m mod w_blockSize w = 0;
}.

Lemma carries_sub w img c m o n :
  carries w img c m -> (o + n <= length m)%nat ->
  sub c (Z.to_nat (metaStartPos img) + o) n = sub m o n.
Proof.
  intros Hc H. rewrite <- (ca_meta _ _ _ _ Hc) at 1. symmetry. by apply sub_sub.
Qed.

(** Where an inode's window starts and what it holds: from the inode to the
    end of its block, all of it in the area. *)
Lemma carries_window w img c m off core :
  writer_ok w -> carries w img c m -> 0 <= off -> off + core <= zlen m -> 0 < core <= 64 ->
  off mod w_blockSize w + core <= w_blockSize w ->
  let addr := metaStartPos img + off in
  let rest := w_blockSize w - off mod w_blockSize w in
  core <= rest /\ off + rest <= zlen m /\ addr + rest <= zlen c /\
  readInfo_len img addr = Z.max 64 rest.
Proof.
  intros Hw Hc H0 Hm Hco Hb addr rest. pose proof (writer_ok_pos w Hw) as HB.
  pose proof (Z.mod_pos_bound off (w_blockSize w) ltac:(lia)) as HM.
  pose proof (Z.div_mod off (w_blockSize w) ltac:(lia)) as HD.
  pose proof (ca_whole _ _ _ _ Hc) as Hz. apply Z.div_exact in Hz; [|lia].
  assert (R : off + rest <= zlen m).
  { unfold rest. set (q := off / w_blockSize w) in *. set (k := zlen m / w_blockSize w) in *.
    assert (q < k) by nia. nia. }
  pose proof (ca_fits _ _ _ _ Hc). split; [unfold rest; lia|]. split; [done|]. split; [unfold addr; lia|].
  unfold readInfo_len. destruct (metaStartPos_eq img (ca_wf _ _ _ _ Hc)) as [E1 E2].
  pose proof (wf_bits _ (ca_wf _ _ _ _ Hc)) as Hbits. rewrite Z.shiftl_1_l, <- (ca_bits _ _ _ _ Hc).
  replace (Z.land addr (w_blockSize w - 1)) with (off mod w_blockSize w).
  - unfold SizeInodeExtended, rest. case_match; zbool; lia.
  - rewrite (ca_bits _ _ _ _ Hc). rewrite land_pow2_mask by lia. rewrite <- (ca_bits _ _ _ _ Hc).
    unfold addr. rewrite E1, <- (ca_bits _ _ _ _ Hc), Z.add_comm, Z.mod_add; lia.
Qed.

(** The content of a slot, from [off] in it on. *)
Lemma slot_part w st e t img c m o n :
  writer_ok w -> writable w st e t -> carries w img c m -> slot_end e <= zlen m ->
  sub m (Z.to_nat (slot_start e)) (Z.to_nat (slot_size e)) = slot_bytes w st e t ->
  0 <= o -> 0 <= n -> o + n <= slot_size e ->
  sub c (Z.to_nat (metaStartPos img + slot_start e + o)) (Z.to_nat n) = sub (slot_bytes w st e t) (Z.to_nat o) (Z.to_nat n).
Proof.
  intros Hw Hwr Hc Hm Hs Ho Hn Hon. destruct (metaStartPos_eq img (ca_wf _ _ _ _ Hc)) as [_ HP].
  pose proof (so_nid _ _ _ (wr_slot _ _ _ _ Hwr)) as Hnid. unfold slot_end in Hm.
  assert (0 <= slot_start e) by (unfold slot_start; lia).
  replace (Z.to_nat (metaStartPos img + slot_start e + o)) with
    (Z.to_nat (metaStartPos img) + (Z.to_nat (slot_start e) + Z.to_nat o))%nat by lia.
  rewrite (carries_sub w img c m) by (done || (unfold zlen in Hm; lia)).
  rewrite <- Hs. symmetry. apply sub_sub. lia.
Qed.

(** What [readInfo] adds to the decoded core. *)
Definition inode_read (w : erofsWriter) (st : store) (e : erofsEntry) (name : bytes) : inode :=
  set_xsize (e_xattrSize e) (inode_of w st e name (e_nid e)).

(** An entry within the format's limits: its fields fit, it has a size, its
    chunk size is one the map's format can say, and a symlink has a target
    without a NUL. *)
Record readable (w : erofsWriter) (st : store) (e : erofsEntry) : Prop := {
  rb_fits : inode_fits w st e;
  rb_size : inodeFileSize w st e <= MaxInt64 - 2 ^ 20;
  rb_type : valid_type (e_mode e) = true;
  rb_ftype : e_erofsFileType e = modeToFileType (e_mode e);
  rb_bits : 0 <= entryChunkBits w e <= 31;
  rb_target : e_type e = StatTypeSymlink -> e_symTarget e <> [] /\ x00 ∉ e_symTarget e;
}.

Lemma symlink_mode mode :
  is_u16 mode -> negb (Z.land (EroFSModeToGoFileMode mode) ModeSymlink =? 0) = (Z.land mode StatTypeMask =? StatTypeSymlink).
Proof.
  intros Hm.
  set (f m := Bool.eqb (negb (Z.land (EroFSModeToGoFileMode m) ModeSymlink =? 0)) (Z.land m StatTypeMask =? StatTypeSymlink)).
  assert (Hf : all_modes f = true) by (vm_compute; reflexivity).
  pose proof (all_modes_spec f Hf mode Hm) as H. clear Hf. by apply eqb_prop in H.
Qed.

Lemma chunk_format_ok w e :
  0 <= entryChunkBits w e <= 31 -> andnot (u16 (Z.lor LayoutChunkFormatIndexes (entryChunkBits w e))) LayoutChunkFormatAll = 0.
Proof.
  intros H. set (f n := negb (n <=? 31) || (andnot (u16 (Z.lor LayoutChunkFormatIndexes n)) LayoutChunkFormatAll =? 0)).
  assert (Hf : all_modes f = true) by (vm_compute; reflexivity).
  pose proof (all_modes_spec f Hf (entryChunkBits w e) ltac:(unfold is_u16; lia)) as Hx. clear Hf. unfold f in Hx.
  rewrite (proj2 (Z.leb_le _ _)) in Hx by lia. by apply Z.eqb_eq in Hx.
Qed.

Lemma xattrSize_bound w st e : inode_fits w st e -> slot_ok w st e -> 0 <= e_xattrSize e <= 262148.
Proof.
  intros Hf Hs. pose proof (nf_xattr _ _ _ Hf) as Hx. rewrite (so_xattr _ _ _ Hs) in *.
  destruct (calcXattrSize_spec (e_xattrs e)) as [[-> _]|(_ & H1 & H2)]; [lia|].
  destruct (xattrBodySize_icount (calcXattrSize (e_xattrs e))) as [X1 X2]; try lia.
  unfold maxXattrICount in Hx. apply xattrBodySize_range in X2; unfold is_u16; lia.
Qed.

Lemma finishInfo_written w st e t name buf :
  writer_ok w -> writable w st e t -> readable w st e ->
  (e_type e = StatTypeSymlink -> e_layout e = LayoutFlatInline ->
     sub buf (Z.to_nat (inodeCoreSize e + e_xattrSize e)) (length (e_symTarget e)) = e_symTarget e) ->
  finishInfo (inode_of w st e name (e_nid e)) buf (xattrICount (e_xattrSize e)) = Ok (inode_read w st e name).
Proof.
  intros Hw Hwr [Hf Hz Hv Hft Hb Ht] Hbuf. pose proof (nf_xattr _ _ _ Hf) as Hx.
  pose proof (so_xattr _ _ _ (wr_slot _ _ _ _ Hwr)) as Hxs.
  unfold finishInfo, assign_xsize.
  match goal with |- (let! _ := ?x in _) = _ => assert (E : x = Ok (inode_read w st e name)) end.
  { unfold inode_read. destruct (calcXattrSize_spec (e_xattrs e)) as [[E _]|(_ & H1 & H2)].
    - rewrite Hxs, E. done.
    - rewrite <- Hxs in *. destruct (xattrBodySize_icount (e_xattrSize e)) as [X1 X2]; try lia.
      rewrite (proj2 (Z.ltb_lt _ _)) by lia. by rewrite X2. }
  rewrite E. clear E.
  assert (E : checkChunkFormat (ino_inodeLayout (inode_read w st e name)) (ino_inodeData (inode_read w st e name)) = Ok tt).
  { unfold checkChunkFormat. cbn. destruct (Z.eqb_spec (e_layout e) LayoutChunkBased) as [L|]; [cbn|done].
    unfold inode_data. destruct (wr_trailing _ _ _ _ Hwr) as [T _ _ _ _|? ? _ L' _ _ _ _|? _ L' _ _|_ L'|[L'|[(_ & _ & L')|(T & _ & _)]]];
      try (rewrite L in L'; discriminate); rewrite T, L; cbn [Z.eqb StatTypeReg LayoutChunkBased Pos.eqb];
      rewrite chunk_format_ok by done; done. }
  rewrite E. clear E. change (ino_mode (inode_read w st e name)) with (EroFSModeToGoFileMode (e_mode e)).
  change (ino_inodeLayout (inode_read w st e name)) with (e_layout e).
  change (ino_size (inode_read w st e name)) with (i64 (inodeFileSize w st e)).
  pose proof (symlink_mode (e_mode e) (nf_mode _ _ _ Hf)) as Hs. fold (e_type e) in Hs.
  destruct (Z.eqb_spec (e_type e) StatTypeSymlink) as [T|T];
    [apply negb_true_iff in Hs|apply negb_false_iff in Hs]; rewrite Hs; cbn [orb]; [|done].
  destruct (Z.eqb_spec (e_layout e) LayoutFlatInline) as [L|L]; cbn [orb negb]; [|done].
  destruct (Ht T) as [Ht1 Ht2]. specialize (Hbuf T L).
  assert (ES : inodeFileSize w st e = zlen (e_symTarget e)) by (unfold inodeFileSize; by rewrite T).
  assert (HZ : 0 < zlen (e_symTarget e)).
  { destruct (e_symTarget e) as [|b l]; [done|]. rewrite zlen_cons. pose proof (zlen_nonneg l). lia. }
  rewrite ES in *. unfold MaxInt64 in *. rewrite (i64_id (zlen _)) by lia.
  rewrite (proj2 (Z.ltb_ge _ _)), (proj2 (Z.eqb_neq _ _)) by lia.
  change (ino_icsize (inode_read w st e name) + ino_xsize (inode_read w st e name)) with (inodeCoreSize e + e_xattrSize e).
  pose proof (xattrSize_bound w st e Hf (wr_slot _ _ _ _ Hwr)). destruct (inodeCoreSize_cases e) as [C|C]; rewrite i64_id by lia.
  all: case_match; zbool; [|done]; rewrite slice_ok by lia.
  all: replace (Z.to_nat (_ - _)) with (length (e_symTarget e)) by (unfold zlen; lia); rewrite Hbuf.
  all: destruct (IndexByte_spec (e_symTarget e) x00) as [[-> _]|(_ & Hi & _)]; [done|].
  all: exfalso; by apply Ht2, (list_elem_of_lookup_2 _ _ _ Hi).
Qed.

Lemma carries_addr w st e t img c m :
  writable w st e t -> carries w img c m -> slot_end e <= zlen m ->
  i64 (metaStartPos img + i64 (u64 (e_nid e * SizeInodeCompact))) = metaStartPos img + slot_start e /\
  checkNid img (e_nid e) = Ok tt /\ 0 <= metaStartPos img /\ 0 <= slot_start e.
Proof.
  intros Hwr Hc Hm. destruct (metaStartPos_eq img (ca_wf _ _ _ _ Hc)) as [_ HP].
  pose proof (wr_slot _ _ _ _ Hwr) as Hs. destruct (slot_end_ge w st e Hs) as (G1 & _).
  pose proof (so_nid _ _ _ Hs). pose proof (ca_len _ _ _ _ Hc). pose proof (ca_fits _ _ _ _ Hc).
  pose proof (zlen_nonneg m).
  assert (Hcore : 32 <= inodeCoreSize e <= 64) by (destruct (inodeCoreSize_cases e); lia).
  unfold checkNid, SizeInodeCompact, SizeInodeExtended, slot_start, MaxInt64 in *.
  unfold u64. rewrite Z.mod_small by lia. rewrite (i64_id (e_nid e)) by lia. rewrite (i64_id (e_nid e * 32)) by lia.
  rewrite (i64_id (_ + _)) by lia. rewrite (i64_id (_ + _ + 32)) by lia. split; [lia|]. split; [|lia].
  rewrite (proj2 (Z.ltb_ge _ _)) by (apply Z.div_le_lower_bound; lia).
  rewrite (proj2 (Z.ltb_ge _ 0)), (proj2 (Z.ltb_ge (2 ^ 63 - 1 - 64) _)) by lia. cbn [orb].
  destruct (ca_size _ _ _ _ Hc) as [->|E]; [done|]. rewrite E. rewrite (proj2 (Z.ltb_ge (zlen c) _)) by lia.
  by rewrite andb_false_r.
Qed.

Lemma core_of_slot w st e t : sub (slot_bytes w st e t) 0 (Z.to_nat (inodeCoreSize e)) = core_bytes w st e.
Proof.
  pose proof (length_core_bytes w st e) as LC. unfold zlen in LC. unfold slot_bytes.
  rewrite sub_app_l by lia. apply sub_all. lia.
Qed.

(** The window [readInfo] reads: the slot's bytes up to the end of its block. *)
Lemma slot_window w st e t img c m :
  writer_ok w -> writable w st e t -> carries w img c m -> slot_end e <= zlen m ->
  sub m (Z.to_nat (slot_start e)) (Z.to_nat (slot_size e)) = slot_bytes w st e t ->
  let addr := metaStartPos img + slot_start e in
  exists buf err, ReadAt (img_meta img) addr (readInfo_len img addr) = (buf, err) /\
    (err = None \/ err = Some EOF) /\ (exists tl, buf = core_bytes w st e ++ tl) /\
    forall o n, 0 <= o -> 0 <= n -> o + n <= slot_size e ->
      slot_start e mod w_blockSize w + o + n <= w_blockSize w ->
      sub buf (Z.to_nat o) (Z.to_nat n) = sub (slot_bytes w st e t) (Z.to_nat o) (Z.to_nat n).
Proof.
  intros Hw Hwr Hc Hm Hs addr. destruct (carries_addr w st e t img c m Hwr Hc Hm) as (_ & _ & A3 & A4).
  pose proof (wr_slot _ _ _ _ Hwr) as Hso. destruct (slot_end_ge w st e Hso) as (G1 & G2 & G3 & G4).
  assert (Hcore : 32 <= inodeCoreSize e <= 64) by (destruct (inodeCoreSize_cases e); lia).
  destruct (carries_window w img c m (slot_start e) (inodeCoreSize e) Hw Hc A4 ltac:(lia) ltac:(lia)
    (so_core _ _ _ Hso)) as (W1 & W2 & W3 & W4).
  set (rest := w_blockSize w - slot_start e mod w_blockSize w) in *. fold addr in W3, W4. rewrite W4.
  pose proof (backed_bytes (Backed := ca_backed _ _ _ _ Hc) addr (Z.max 64 rest) ltac:(lia) ltac:(lia)) as B1.
  pose proof (backed_err (Backed := ca_backed _ _ _ _ Hc) addr (Z.max 64 rest) ltac:(lia) ltac:(lia)) as B2.
  destruct (ReadAt (img_meta img) addr (Z.max 64 rest)) as [buf err]. cbn [fst snd] in B1, B2.
  assert (HP : forall o n, 0 <= o -> 0 <= n -> o + n <= slot_size e ->
      slot_start e mod w_blockSize w + o + n <= w_blockSize w ->
      sub buf (Z.to_nat o) (Z.to_nat n) = sub (slot_bytes w st e t) (Z.to_nat o) (Z.to_nat n)).
  { intros o n Ho Hn Hon Hb. rewrite <- (slot_part w st e t img c m o n) by done. subst buf.
    rewrite sub_sub by lia. f_equal. lia. }
  exists buf, err. split; [done|]. split; [done|]. split; [|done].
  specialize (HP 0 (inodeCoreSize e) ltac:(lia) ltac:(lia) ltac:(unfold slot_end in *; lia) ltac:(lia)).
  rewrite core_of_slot in HP. exists (drop (Z.to_nat (inodeCoreSize e)) buf).
  rewrite <- HP. unfold sub. by rewrite drop_0, take_drop.
Qed.

Lemma type_roundtrip mode :
  is_u16 mode -> valid_type mode = true ->
  FileMode_Type (EroFSModeToGoFileMode mode) = EroFSFtypeToFileMode (modeToFileType mode).
Proof.
  intros Hm Hv. set (f m := negb (valid_type m) ||
    (FileMode_Type (EroFSModeToGoFileMode m) =? EroFSFtypeToFileMode (modeToFileType m))).
  assert (Hf : all_modes f = true) by (vm_compute; reflexivity).
  pose proof (all_modes_spec f Hf mode Hm) as H. clear Hf. unfold f in H. rewrite Hv in H. by apply Z.eqb_eq in H.
Qed.

(** The target of a fast symlink in the inode's window. *)
Lemma slot_target w st e t :
  writer_ok w -> writable w st e t -> e_type e = StatTypeSymlink -> e_layout e = LayoutFlatInline ->
  let o := inodeCoreSize e + e_xattrSize e in
  t = e_symTarget e /\ o + zlen t <= slot_size e /\ slot_start e mod w_blockSize w + o + zlen t <= w_blockSize w.
Proof.
  intros Hw Hwr T L o. pose proof (trailing_len w st e t Hw Hwr) as HL.
  pose proof (chunk_pad_map w st e t Hw Hwr) as HP. destruct Hwr as [Hs Hz Ht].
  assert (P0 : e_chunkPad e = 0).
  { destruct (Z.eq_dec (e_chunkPad e) 0) as [|X]; [done|]. destruct (HP X) as (_ & X2 & _). by rewrite L in X2. }
  assert (t = e_symTarget e) as ->.
  { destruct Ht as [T' _ _ _ _|? ? T' _ _ _ _ _|? T' _ _ _|_ _|[L'|[(T' & _)|(T' & _)]]]; [..|done| | |];
      try (rewrite T in T'; discriminate). rewrite L in L'. discriminate. }
  pose proof (so_inline _ _ _ Hs L). split; [done|]. rewrite HL. split; [|unfold o; lia].
  unfold slot_size, o. rewrite P0.
  destruct (inodeSlotAlign_spec (inodeCoreSize e + e_xattrSize e + 0 + e_trailingSize e)). lia.
Qed.

Lemma slot_trailing_part w st e t :
  writer_ok w -> writable w st e t ->
  sub (slot_bytes w st e t) (Z.to_nat (inodeCoreSize e + e_xattrSize e + e_chunkPad e)) (length t) = t.
Proof.
  intros Hw Hwr. pose proof (wr_slot _ _ _ _ Hwr) as Hs. destruct (slot_end_ge w st e Hs) as (_ & G2 & G3 & _).
  pose proof (length_core_bytes w st e) as L1. pose proof (xattr_bytes_len w st e Hs) as L2. unfold zlen in *.
  assert (Hcore : 32 <= inodeCoreSize e <= 64) by (destruct (inodeCoreSize_cases e); lia).
  unfold slot_bytes. rewrite !app_assoc, <- (app_assoc _ t). rewrite (sub_mid _ _ _ 0); [by apply sub_all| |lia].
  rewrite !length_app, length_zeros. lia.
Qed.

(** The entry's inode, read from an image that carries it. *)
Lemma slot_readInfo w st e t img c m name :
  writer_ok w -> writable w st e t -> readable w st e -> carries w img c m -> slot_end e <= zlen m ->
  sub m (Z.to_nat (slot_start e)) (Z.to_nat (slot_size e)) = slot_bytes w st e t ->
  readInfo_fresh img name (e_nid e) (EroFSFtypeToFileMode (e_erofsFileType e)) = Ok (inode_read w st e name).
Proof.
  intros Hw Hwr Hr Hc Hm Hs. destruct (carries_addr w st e t img c m Hwr Hc Hm) as (A1 & A2 & A3 & A4).
  destruct (slot_window w st e t img c m Hw Hwr Hc Hm Hs) as (buf & err & W1 & W2 & (tl & W3) & W4).
  unfold readInfo_fresh, readInfo_addr. rewrite A2, A1. unfold readInfo_body, readInfo_decode. rewrite W1.
  assert (E : match err with Some e => if negb (errors_Is e EOF) then Err e else Ok tt | None => Ok tt end = Ok tt :> res unit)
    by (by destruct W2 as [-> | ->]).
  rewrite E. clear E. pose proof (length_core_bytes w st e) as LC. pose proof (rb_fits _ _ _ Hr) as Hf.
  assert (Hcore : 32 <= inodeCoreSize e <= 64) by (destruct (inodeCoreSize_cases e); lia).
  rewrite (proj2 (Z.ltb_ge _ _)) by (rewrite W3, zlen_app; pose proof (zlen_nonneg tl); unfold SizeInodeCompact; lia).
  destruct (core_format w st e Hf) as (F1 & F2 & _).
  assert (Hfmt : get16 buf 0 = inodeFormat (e_layout e) (e_compact e)).
  { rewrite <- F1, W3. unfold get16. f_equal. apply sub_app_l. unfold zlen in LC. lia. }
  rewrite Hfmt, F2, W3. rewrite decode_core by (done || apply Hc). rewrite <- W3.
  pose proof Hr as [_ R2 R3 R4 R5 R6]. pose proof (nf_size _ _ _ Hf) as HZ. unfold is_u64, MaxInt64 in *.
  change (ino_size (inode_of w st e name (e_nid e))) with (i64 (inodeFileSize w st e)). rewrite i64_id by lia.
  rewrite (proj2 (Z.ltb_ge _ _)) by lia. cbn [ino_mode inode_of].
  rewrite R4, type_roundtrip, Z.eqb_refl by (done || apply Hf). cbn [negb].
  rewrite (finishInfo_written w st e t name buf Hw Hwr Hr); [done|].
  intros T L. destruct (slot_target w st e t Hw Hwr T L) as (-> & T2 & T3).
  pose proof (slot_trailing_part w st e _ Hw Hwr) as P.
  pose proof (wr_slot _ _ _ _ Hwr) as Hso. destruct (slot_end_ge w st e Hso) as (_ & G2 & _).
  replace (e_chunkPad e) with 0 in P.
  - rewrite Z.add_0_r in P. rewrite <- P at 2. replace (length (e_symTarget e)) with (Z.to_nat (zlen (e_symTarget e))) by (unfold zlen; lia).
    apply W4; try lia. apply zlen_nonneg.
  - destruct (Z.eq_dec (e_chunkPad e) 0) as [|X]; [done|].
    destruct (chunk_pad_map w st e _ Hw Hwr X) as (_ & X2 & _). by rewrite L in X2.
Qed.

(** Inline data is as long as the inode says. *)
Lemma inline_size w st e t :
  writer_ok w -> writable w st e t -> readable w st e -> e_layout e = LayoutFlatInline -> 0 < zlen t ->
  i64 (inodeFileSize w st e) = zlen t /\ e_chunkPad e = 0.
Proof.
  intros Hw Hwr Hr L Ht. pose proof (trailing_len w st e t Hw Hwr) as HL.
  pose proof (rb_size _ _ _ Hr) as Hz. pose proof (nf_size _ _ _ (rb_fits _ _ _ Hr)) as HZ.
  unfold is_u64, MaxInt64 in *. rewrite i64_id by lia. split.
  - destruct (wr_trailing _ _ _ _ Hwr) as [_ L' _ _ _|src b T _ _ _ _ Z'|ents T _ De M|T _|L'].
    + rewrite L in L'. discriminate.
    + unfold inodeFileSize. rewrite T. cbn. done.
    + unfold inodeFileSize in *. rewrite T in *. cbn [Z.eqb StatTypeDir Pos.eqb] in *.
      rewrite M, (calcDirentDataSize_data w st e ents) in * by done.
      unfold u64 in *. destruct (Z.lt_ge_cases (zlen (dir_data w ents)) (2 ^ 64)) as [X|X]; [by rewrite Z.mod_small by lia|].
      exfalso. pose proof (so_inline _ _ _ (wr_slot _ _ _ _ Hwr) L). pose proof (writer_ok_pos w Hw).
      destruct (slot_end_ge w st e (wr_slot _ _ _ _ Hwr)) as (_ & ? & _).
      pose proof (Z.mod_pos_bound (slot_start e) (w_blockSize w) ltac:(lia)). destruct (inodeCoreSize_cases e); lia.
    + unfold inodeFileSize. rewrite T. done.
    + done.
  - destruct (Z.eq_dec (e_chunkPad e) 0) as [|X]; [done|].
    destruct (chunk_pad_map w st e _ Hw Hwr X) as (_ & X2 & _). by rewrite L in X2.
Qed.

Lemma read_exact_backed r c off n :
  Backed r c -> 0 <= off -> 0 <= n -> off + n <= zlen c -> read_exact r off n = Ok (sub c (Z.to_nat off) (Z.to_nat n)).
Proof.
  intros Hb Ho Hn Hc. pose proof (backed_bytes off n Ho Hn) as B. unfold read_exact.
  destruct (ReadAt r off n) as [b err]. cbn [fst] in B. subst b. rewrite zlen_sub by lia.
  by rewrite (proj2 (Z.eqb_eq _ _)) by lia.
Qed.

Lemma loadBlock_read_meta img c addr o e :
  9 <= img_bits img <= 16 -> Backed (img_meta img) c -> img_size img = 0 \/ img_size img = zlen c -> zlen c <= MaxInt64 - 64 ->
  0 <= o < e -> e <= 2 ^ img_bits img -> 0 <= addr -> addr + e <= zlen c ->
  loadBlock_read img addr o e false = Ok (sub c (Z.to_nat (addr + o)) (Z.to_nat (e - o))).
Proof.
  intros Hb Hc Hs Hl Ho He Ha Hfit. unfold loadBlock_read, bad_bounds, checkImageRange, MaxInt64 in *.
  rewrite Z.shiftl_1_l. rewrite (proj2 (Z.ltb_ge o 0)), (proj2 (Z.ltb_ge _ e)), (proj2 (Z.leb_gt e o)) by lia.
  cbn [orb]. rewrite !i64_id by lia. rewrite (proj2 (Z.ltb_ge (addr + o) 0)), (proj2 (Z.ltb_ge (e - o) 0)) by lia.
  rewrite (proj2 (Z.ltb_ge _ (addr + o))) by lia. cbn [orb].
  assert (E : (0 <? img_size img) && (img_size img <? addr + o + (e - o)) = false).
  { destruct Hs as [-> | ->]; [done|]. apply andb_false_iff. right. apply Z.ltb_ge. lia. }
  rewrite E. apply read_exact_backed; try done; lia.
Qed.

(** The trailing data of an entry in the image. *)
Lemma trailing_at w st e t img c m o n :
  writer_ok w -> writable w st e t -> carries w img c m -> slot_end e <= zlen m ->
  sub m (Z.to_nat (slot_start e)) (Z.to_nat (slot_size e)) = slot_bytes w st e t ->
  0 <= o -> 0 <= n -> o + n <= zlen t ->
  sub c (Z.to_nat (metaStartPos img + slot_start e + (inodeCoreSize e + e_xattrSize e + e_chunkPad e + o))) (Z.to_nat n) =
  sub t (Z.to_nat o) (Z.to_nat n).
Proof.
  intros Hw Hwr Hc Hm Hs Ho Hn Hon. pose proof (trailing_len w st e t Hw Hwr) as HL.
  destruct (slot_end_ge w st e (wr_slot _ _ _ _ Hwr)) as (_ & G2 & G3 & _).
  assert (Hcore : 32 <= inodeCoreSize e <= 64) by (destruct (inodeCoreSize_cases e); lia).
  rewrite (slot_part w st e t img c m) by
    (done || lia || (unfold slot_size; destruct (inodeSlotAlign_spec (inodeCoreSize e + e_xattrSize e + e_chunkPad e + e_trailingSize e)); lia)).
  rewrite <- (slot_trailing_part w st e t Hw Hwr) at 2. rewrite sub_sub by (unfold zlen in Hon; lia). f_equal. lia.
Qed.

(** Inline data loads as it was written, from any position. *)
Lemma inline_load w st e t img c m name pos :
  writer_ok w -> writable w st e t -> readable w st e -> carries w img c m -> slot_end e <= zlen m ->
  sub m (Z.to_nat (slot_start e)) (Z.to_nat (slot_size e)) = slot_bytes w st e t ->
  e_layout e = LayoutFlatInline -> 0 <= pos < zlen t ->
  loadBlock img (inode_read w st e name) pos = Ok (sub t (Z.to_nat pos) (Z.to_nat (zlen t - pos))).
Proof.
  intros Hw Hwr Hr Hc Hm Hs L Hpos. destruct (carries_addr w st e t img c m Hwr Hc Hm) as (A1 & A2 & A3 & A4).
  destruct (inline_size w st e t Hw Hwr Hr L ltac:(lia)) as [Hz P0].
  pose proof (trailing_len w st e t Hw Hwr) as HL. pose proof (wr_slot _ _ _ _ Hwr) as Hso.
  pose proof (so_inline _ _ _ Hso L) as HI. destruct (slot_end_ge w st e Hso) as (_ & G2 & _).
  pose proof (writer_ok_pos w Hw) as HB. pose proof (wf_bits _ (ca_wf _ _ _ _ Hc)) as Hbits.
  pose proof (Z.mod_pos_bound (slot_start e) (w_blockSize w) ltac:(lia)) as HM.
  assert (Hcore : 32 <= inodeCoreSize e <= 64) by (destruct (inodeCoreSize_cases e); lia).
  pose proof (ca_bits _ _ _ _ Hc) as Hbs. pose proof (ca_len _ _ _ _ Hc) as Hlen. pose proof (ca_fits _ _ _ _ Hc) as Hfit.
  unfold loadBlock. cbn [ino_size inode_read set_xsize inode_of ino_inodeLayout]. rewrite Hz, L.
  assert (NB : calculateBlocks (img_bits img) (zlen t) = 1).
  { unfold calculateBlocks. rewrite Z.shiftr_div_pow2, Z.shiftl_mul_pow2 by lia. rewrite <- Hbs.
    pose proof (Z.div_mod (zlen t) (w_blockSize w) ltac:(lia)). pose proof (Z.mod_pos_bound (zlen t) (w_blockSize w) ltac:(lia)).
    destruct (Z.ltb_spec (zlen t / w_blockSize w * w_blockSize w) (zlen t)); nia. }
  rewrite NB. rewrite Z.shiftr_div_pow2, <- Hbs, Z.div_small by lia.
  cbn [Z.leb Z.compare Z.eqb LayoutFlatPlain LayoutFlatInline Pos.eqb].
  unfold loadBlock_inline. change (0 =? 1 - 1) with true. cbv iota. rewrite Hbs in *.
  change (ino_nid (inode_read w st e name)) with (e_nid e). rewrite A1.
  change (flatDataOffset (inode_read w st e name)) with (inodeCoreSize e + e_xattrSize e).
  change (ino_size (inode_read w st e name)) with (i64 (inodeFileSize w st e)). rewrite Hz.
  pose proof (trailing_at w st e t img c m pos (zlen t - pos) Hw Hwr Hc Hm Hs ltac:(lia) ltac:(lia) ltac:(lia)) as TA.
  unfold slot_end, slot_size, MaxInt64 in *. rewrite P0 in *.
  destruct (inodeSlotAlign_spec (inodeCoreSize e + e_xattrSize e + 0 + e_trailingSize e)) as [I1 _].
  set (h := inodeCoreSize e + e_xattrSize e) in *. rewrite (i64_id (_ + h)) by lia.
  set (addr := metaStartPos img + slot_start e + h) in *. rewrite Z.shiftl_1_l, Z.shiftl_0_l.
  rewrite land_pow2_mask, land_lnot_pow2 by lia.
  destruct (metaStartPos_eq img (ca_wf _ _ _ _ Hc)) as [EM _].
  assert (EA : addr mod 2 ^ img_bits img = slot_start e mod 2 ^ img_bits img + h).
  { unfold addr. rewrite EM. replace (_ + _ + h) with (slot_start e + h + sb_MetaBlkAddr (img_sb img) * 2 ^ img_bits img) by lia.
    rewrite Z.mod_add by lia. symmetry. apply (Z.mod_unique _ _ (slot_start e / 2 ^ img_bits img)); [lia|].
    pose proof (Z.div_mod (slot_start e) (2 ^ img_bits img) ltac:(lia)). lia. }
  rewrite (proj2 (Z.ltb_ge _ _)) by lia.
  pose proof (Z.mod_le (slot_start e) (2 ^ img_bits img) A4 ltac:(lia)).
  rewrite (loadBlock_read_meta img c) by (done || lia || apply Hc). rewrite <- TA. do 2 f_equal; f_equal; lia.
Qed.

(** The xattr area of an entry in the image. *)
Lemma xattrs_at w st e t img c m :
  writer_ok w -> writable w st e t -> carries w img c m -> slot_end e <= zlen m ->
  sub m (Z.to_nat (slot_start e)) (Z.to_nat (slot_size e)) = slot_bytes w st e t ->
  sub c (Z.to_nat (metaStartPos img + slot_start e + inodeCoreSize e)) (Z.to_nat (e_xattrSize e)) = xattr_bytes e.
Proof.
  intros Hw Hwr Hc Hm Hs. pose proof (wr_slot _ _ _ _ Hwr) as Hso. destruct (slot_end_ge w st e Hso) as (_ & G2 & G3 & _).
  assert (Hcore : 32 <= inodeCoreSize e <= 64) by (destruct (inodeCoreSize_cases e); lia).
  pose proof (so_trailing_nonneg _ _ _ Hso).
  rewrite (slot_part w st e t img c m) by
    (done || lia || (unfold slot_size; destruct (inodeSlotAlign_spec (inodeCoreSize e + e_xattrSize e + e_chunkPad e + e_trailingSize e)); lia)).
  pose proof (xattr_bytes_len w st e Hso) as L2. pose proof (length_core_bytes w st e) as L1. unfold zlen in *.
  unfold slot_bytes. rewrite (sub_mid _ _ _ 0) by lia. apply sub_all. lia.
Qed.

Lemma align8_spec v : 0 <= v -> align8 v = v + (if negb (v mod 8 =? 0) then 8 - v mod 8 else 0).
Proof.
  intros Hv. unfold align8. rewrite Z.rem_mod_nonneg by lia. destruct (Z.eqb_spec (v mod 8) 0); cbn [negb]; [lia|].
  change (Z.lnot 7) with (Z.lnot (2 ^ 3 - 1)). rewrite land_lnot_pow2 by lia. change (2 ^ 3) with 8.
  pose proof (Z.div_mod v 8 ltac:(lia)). pose proof (Z.mod_pos_bound v 8 ltac:(lia)).
  replace ((v + 7) mod 8) with (v mod 8 - 1); [lia|]. apply (Z.mod_unique _ _ (v / 8 + 1)); lia.
Qed.

Lemma indexed_format w e :
  0 <= entryChunkBits w e <= 31 -> chunk_indexed (u16 (Z.lor LayoutChunkFormatIndexes (entryChunkBits w e))) = true.
Proof.
  intros H. set (f n := negb (n <=? 31) || chunk_indexed (u16 (Z.lor LayoutChunkFormatIndexes n))).
  assert (Hf : all_modes f = true) by (vm_compute; reflexivity).
  pose proof (all_modes_spec f Hf (entryChunkBits w e) ltac:(unfold is_u16; lia)) as Hx. clear Hf. unfold f in Hx.
  by rewrite (proj2 (Z.leb_le _ _)) in Hx by lia.
Qed.

(** A chunk map is where the reader looks for it. *)
Lemma chunk_base_slot w st e t img c m name :
  writer_ok w -> writable w st e t -> readable w st e -> carries w img c m -> slot_end e <= zlen m ->
  e_layout e = LayoutChunkBased -> 0 < zlen t ->
  chunk_base img (inode_read w st e name) (u16 (ino_inodeData (inode_read w st e name))) =
  metaStartPos img + slot_start e + (inodeCoreSize e + e_xattrSize e + e_chunkPad e).
Proof.
  intros Hw Hwr Hr Hc Hm L Ht. destruct (carries_addr w st e t img c m Hwr Hc Hm) as (A1 & A2 & A3 & A4).
  pose proof (trailing_len w st e t Hw Hwr) as HL. pose proof (wr_slot _ _ _ _ Hwr) as Hso.
  destruct (slot_end_ge w st e Hso) as (_ & G2 & G3 & _).
  assert (Hcore : 32 <= inodeCoreSize e <= 64) by (destruct (inodeCoreSize_cases e); lia).
  assert (T : e_type e = StatTypeReg).
  { destruct (wr_trailing _ _ _ _ Hwr) as [T _ _ _ _|? ? T _ _ _ _ _|? _ L' _ _|_ L'|[L'|[(T & _)|(T & _)]]]; try done;
      rewrite L in L'; discriminate. }
  cbn [ino_inodeData inode_read set_xsize inode_of]. unfold inode_data. rewrite T, L.
  cbn [Z.eqb StatTypeReg LayoutChunkBased Pos.eqb]. unfold chunk_base. rewrite indexed_format by apply Hr.
  change (ino_nid (inode_read w st e name)) with (e_nid e). rewrite A1.
  change (flatDataOffset (inode_read w st e name)) with (inodeCoreSize e + e_xattrSize e).
  pose proof (xattrSize_bound w st e (rb_fits _ _ _ Hr) Hso). pose proof (ca_len _ _ _ _ Hc). pose proof (ca_fits _ _ _ _ Hc).
  pose proof (so_trailing_nonneg _ _ _ Hso). unfold slot_end, slot_size, MaxInt64 in *.
  destruct (inodeSlotAlign_spec (inodeCoreSize e + e_xattrSize e + e_chunkPad e + e_trailingSize e)) as [I1 _].
  rewrite i64_id by lia. rewrite align8_spec by lia.
  rewrite (so_pad _ _ _ Hso). unfold chunkIndexPad. rewrite L, (proj2 (Z.eqb_neq (e_trailingSize e) 0)) by lia.
  cbn [Z.eqb LayoutChunkBased Pos.eqb negb orb]. unfold SizeChunkIndex.
  destruct (metaStartPos_eq img (ca_wf _ _ _ _ Hc)) as [EM _].
  replace ((metaStartPos img + slot_start e + (inodeCoreSize e + e_xattrSize e)) mod 8) with
    ((inodeCoreSize e + e_xattrSize e) mod 8); [lia|].
  pose proof (wf_bits _ (ca_wf _ _ _ _ Hc)). rewrite EM. unfold slot_start.
  replace (2 ^ img_bits img) with (2 ^ (img_bits img - 3) * 8) by (rewrite <- (Z.pow_add_r 2 _ 3) by lia; f_equal; lia).
  replace (_ + _ + (_ + _)) with (inodeCoreSize e + e_xattrSize e +
    (sb_MetaBlkAddr (img_sb img) * 2 ^ (img_bits img - 3) + 4 * e_nid e) * 8) by lia.
  by rewrite Z.mod_add by lia.
Qed.

(** The entries of planned slots, with their trailing data. *)
Definition content_ok (w : erofsWriter) (st : store) (tr : ptr -> bytes) : Prop :=
  forall p e, p ∈ w_entries w -> st !! p = Some e ->
    0 <= e_size e <= MaxInt64 /\ trailing w st e (tr p) /\ readable w st e.

Lemma slots_laid w st off ps (tr : ptr -> bytes) :
  slots w st off ps ->
  (forall p e, p ∈ ps -> st !! p = Some e -> 0 <= e_size e <= MaxInt64 /\ trailing w st e (tr p)) ->
  exists l, derefs st ps = Ok (fst <$> l) /\ laid w st off l /\
    forall i p e, ps !! i = Some p -> st !! p = Some e -> l !! i = Some (e, tr p).
Proof.
  revert off. induction ps as [|p ps IH]; intros off Hs Hc; [by exists []|].
  destruct Hs as (e & H1 & H2 & H3 & H4).
  destruct (IH (slot_end e) H4) as (l & L1 & L2 & L3); [intros; apply Hc; [by right|done]|].
  destruct (Hc p e ltac:(left) H1) as [Hz Ht].
  exists ((e, tr p) :: l). split; [|split].
  - cbn. unfold deref. by rewrite H1, L1.
  - cbn. split; [done|]. split; [by split|done].
  - intros [|i] q eq Hi Hq; [|by apply (L3 i)]. injection Hi as ->. rewrite H1 in Hq. by apply (inj Some) in Hq as ->.
Qed.

(** What the reader finds of an entry in a metadata area written for [l]. *)
Definition entry_reads (w : erofsWriter) (st : store) (img : image) (c : bytes) (e : erofsEntry) (t name : bytes) : Prop :=
  let ino := inode_read w st e name in
  let addr := metaStartPos img + e_nid e * 32 in
  readInfo_fresh img name (e_nid e) (EroFSFtypeToFileMode (e_erofsFileType e)) = Ok ino /\
  sub c (Z.to_nat (addr + ino_icsize ino)) (Z.to_nat (ino_xsize ino)) = xattr_bytes e /\
  (e_layout e = LayoutChunkBased -> 0 < zlen t ->
    sub c (Z.to_nat (chunk_base img ino (u16 (ino_inodeData ino)))) (length t) = t) /\
  (e_layout e = LayoutFlatInline -> forall pos, 0 <= pos < zlen t ->
    loadBlock img ino pos = Ok (sub t (Z.to_nat pos) (Z.to_nat (zlen t - pos)))).

Lemma metadata_facts w st (tr : ptr -> bytes) l pad img c p e name :
  writer_ok w -> slots w st 0 (w_entries w) -> content_ok w st tr -> laid w st 0 l ->
  (forall i p e, w_entries w !! i = Some p -> st !! p = Some e -> l !! i = Some (e, tr p)) ->
  carries w img c (meta_bytes w st 0 l ++ zeros pad) -> p ∈ w_entries w -> st !! p = Some e ->
  entry_reads w st img c e (tr p) name /\ slot_ok w st e /\ slot_end e <= meta_end 0 l.
Proof.
  intros Hw Hs Hc L2 L3 Hca Hp He. destruct (Hc p e Hp He) as (Hz & Ht & Hr).
  apply list_elem_of_lookup in Hp as [i Hi]. specialize (L3 i p e Hi He).
  destruct (meta_slot w st 0 l i e (tr p) Hw ltac:(lia) L2 L3) as (S1 & S2 & S3).
  destruct (meta_len w st 0 l Hw ltac:(lia) L2) as [S4 _].
  destruct (slots_lookup w st 0 _ i p Hw ltac:(lia) eq_refl Hs Hi) as (e' & E1 & E2 & _).
  rewrite He in E1. apply (inj Some) in E1 as <-. split; [|done].
  assert (Hwr : writable w st e (tr p)) by (by split).
  assert (Hm : slot_end e <= zlen (meta_bytes w st 0 l ++ zeros pad)).
  { rewrite zlen_app. pose proof (zlen_nonneg (zeros pad)). lia. }
  assert (Hsl : sub (meta_bytes w st 0 l ++ zeros pad) (Z.to_nat (slot_start e)) (Z.to_nat (slot_size e)) = slot_bytes w st e (tr p)).
  { rewrite Z.sub_0_r in S3. rewrite sub_app_l; [done|]. unfold slot_end, zlen in *.
    pose proof (slot_bytes_len w st e (tr p) Hw Hwr). pose proof (zlen_nonneg (slot_bytes w st e (tr p))). lia. }
  unfold entry_reads. cbv zeta. replace (e_nid e * 32) with (slot_start e) by (unfold slot_start; lia).
  split; [by eapply slot_readInfo|]. split; [by eapply xattrs_at|]. split.
  - intros Lc Hpos. rewrite (chunk_base_slot w st e (tr p) img c _ name Hw Hwr Hr Hca Hm Lc Hpos).
    pose proof (trailing_at w st e (tr p) img c _ 0 (zlen (tr p)) Hw Hwr Hca Hm Hsl ltac:(lia) ltac:(lia) ltac:(lia)) as P.
    rewrite Z.add_0_r in P. unfold zlen in P. rewrite Nat2Z.id in P. rewrite P. by apply sub_all.
  - intros Li pos Hpos. by eapply inline_load.
Qed.

(** C2: writing the metadata of a planned tree never overruns a slot and fills
    whole blocks, the number the superblock counts; from an image that has
    those blocks where its superblock says, [readInfo] of every entry's nid,
    with the type its dirent has, returns the entry's attributes, the entry's
    xattr area follows its core, its chunk map is where the reader looks for
    it, and its inline data loads from any position as it was. *)
Theorem metadata_roundtrip w st (tr : ptr -> bytes) :
  writer_ok w -> slots w st 0 (w_entries w) -> content_ok w st tr ->
  exists entries meta, derefs st (w_entries w) = Ok entries /\
    writeMetadataInodes w st ([] : bytes) = Ok meta /\ zlen meta = metaBlocks w entries * w_blockSize w /\
    forall img c, carries w img c meta -> forall p e name, p ∈ w_entries w -> st !! p = Some e ->
      let ino := inode_read w st e name in
      let addr := metaStartPos img + e_nid e * 32 in
      readInfo_fresh img name (e_nid e) (EroFSFtypeToFileMode (e_erofsFileType e)) = Ok ino /\
      sub c (Z.to_nat (addr + ino_icsize ino)) (Z.to_nat (ino_xsize ino)) = xattr_bytes e /\
      (e_layout e = LayoutChunkBased -> 0 < zlen (tr p) ->
        sub c (Z.to_nat (chunk_base img ino (u16 (ino_inodeData ino)))) (length (tr p)) = tr p) /\
      (e_layout e = LayoutFlatInline -> forall pos, 0 <= pos < zlen (tr p) ->
        loadBlock img ino pos = Ok (sub (tr p) (Z.to_nat pos) (Z.to_nat (zlen (tr p) - pos)))).
Proof.
  intros Hw Hs Hc. destruct (slots_laid w st 0 (w_entries w) tr Hs) as (l & L1 & L2 & L3).
  { intros p e Hp He. by destruct (Hc p e Hp He) as (? & ? & _). }
  destruct (metadata_emits w st [] l Hw L1 L2) as (pad & M1 & M2). apply emits_buffer in M1.
  exists (fst <$> l), (meta_bytes w st 0 l ++ zeros pad). split; [done|]. split; [by rewrite M1|]. split; [done|].
  intros img c Hca p e name Hp He. by apply (metadata_facts w st tr l pad img c p e name).
Qed.

(** A plan keeps the settings. *)
Lemma writer_ok_plan w l r : writer_ok w -> writer_ok (with_plan w l r).
Proof. intros [H1 H2]. by split. Qed.

Lemma slots_plan w st off ps l r : slots w st off ps -> slots (with_plan w l r) st off ps.
Proof.
  revert off. induction ps as [|p ps IH]; intros off H; [done|]. destruct H as (e & H1 & H2 & H3 & H4).
  exists e. split; [done|]. split; [done|]. split; [|by apply IH].
  destruct H3 as [A B C D E F G]. by split.
Qed.

(** The example tree, planned. *)
Definition planned_example : erofsWriter * store :=
  match planLayout example_writer example_store 0 with Ok x => x | _ => (example_writer, []) end.

Definition planned_image (meta : bytes) : image :=
  {| img_sb := {| sb_MagicNumber := MagicNumber; sb_Checksum := 0; sb_FeatureCompat := 0;
       sb_BlkSizeBits := 9; sb_ExtSlots := 0; sb_RootNid := 0; sb_Inos := 3;
       sb_BuildTime := 0; sb_BuildTimeNs := 0; sb_Blocks := 4;
       sb_MetaBlkAddr := 2; sb_XattrBlkAddr := 0; sb_UUID := zeros 16;
       sb_VolumeName := zeros 16; sb_FeatureIncompat := 0; sb_ComprAlgs := 0;
       sb_ExtraDevices := 0; sb_DevtSlotOff := 0; sb_DirBlkBits := 0;
       sb_XattrPrefixCount := 0; sb_XattrPrefixStart := 0; sb_PackedNid := 0;
       sb_XattrFilterRes := 0; sb_IshareXattrPrefixID := 0; sb_Reserved := zeros 22 |};
     img_size := zlen (zeros 1024 ++ meta); img_meta := bytes_reader (zeros 1024 ++ meta); img_devices := [];
     img_deviceIDMask := 0; img_longPrefixes := [] |}.

Lemma planned_example_slots :
  let '(w, st) := planned_example in writer_ok w /\ slots w st 0 (w_entries w).
Proof.
  unfold planned_example.
  destruct (planLayout_facts example_writer example_store 0 example_writer_ok example_plannable)
    as (w & st & -> & [P1 _ _ _ _ P6 _ _]).
  rewrite P1. split; [apply writer_ok_plan, example_writer_ok|]. by apply slots_plan.
Qed.

Definition planned_entry (p : ptr) : erofsEntry := default example_file (planned_example.2 !! p).

Lemma planned_example_entry p : (p < 4)%nat -> planned_example.2 !! p = Some (planned_entry p).
Proof.
  intros Hp. unfold planned_entry. destruct (lookup_lt_is_Some_2 planned_example.2 p) as [e He]; [|by rewrite He].
  replace (length planned_example.2) with 4%nat; [done|]. vm_compute. reflexivity.
Qed.

Lemma planned_example_dir :
  exists ents, dir_entries planned_example.1 planned_example.2 (planned_entry 0) ents.
Proof.
  apply allEnts_entries; [pose proof planned_example_slots as H; by destruct planned_example, H|]. split.
  - split; vm_compute; split; congruence.
  - assert (C : e_children (planned_entry 0) = [1; 3; 2]%nat) by (vm_compute; reflexivity). rewrite C.
    intros c Hc. exists (planned_entry c). rewrite planned_example_entry by (set_unfold in Hc; lia).
    split; [done|]. set_unfold in Hc.
    destruct Hc as [-> | [-> | [-> | []]]]; (split; [apply checkDirentName_spec; vm_compute; reflexivity|]); vm_compute; repeat split; congruence.
  - apply (bool_decide_unpack _). vm_compute. done.
Qed.

Lemma planned_readable p : p ∈ [0; 1; 3]%nat -> readable planned_example.1 planned_example.2 (planned_entry p).
Proof.
  intros Hp. set_unfold in Hp.
  destruct Hp as [-> | [-> | [-> | []]]]; (split; [split|..]);
    try (vm_compute; split; congruence); try (vm_compute; congruence).
  all: try (right; left; vm_compute; reflexivity); try (vm_compute; intros _; repeat split; congruence).
  all: intros H; first [vm_compute in H; discriminate|split; [vm_compute; congruence|apply (bool_decide_unpack _); vm_compute; exact I]].
Qed.

Lemma planned_carries meta :
  zlen meta = 512 -> carries planned_example.1 (planned_image meta) (zeros 1024 ++ meta) meta.
Proof.
  intros Hm.
  assert (HL : zlen (zeros 1024 ++ meta) = 1536).
  { rewrite zlen_app, Hm. unfold zlen. rewrite length_zeros. done. }
  assert (M : metaStartPos (planned_image meta) = 1024) by reflexivity.
  split.
  - split.
    + split; cbn; try (split; lia); try (vm_compute; split; congruence); vm_compute; reflexivity.
    + cbn. split; vm_compute; congruence.
    + cbn [img_size planned_image]. rewrite HL. split; vm_compute; congruence.
    + constructor.
    + vm_compute. congruence.
  - apply bytes_reader_backed.
  - by right.
  - rewrite HL. vm_compute. congruence.
  - vm_compute. reflexivity.
  - split; vm_compute; reflexivity.
  - rewrite M. change (Z.to_nat 1024) with 1024%nat. rewrite sub_app_r by (rewrite length_zeros; lia).
    rewrite length_zeros, Nat.sub_diag. by apply sub_all.
  - rewrite M, HL, Hm. lia.
  - rewrite Hm. vm_compute. reflexivity.
Qed.

Lemma metadata_roundtrip_witness :
  exists meta ino, writeMetadataInodes planned_example.1 planned_example.2 ([] : bytes) = Ok meta /\ zlen meta = 512 /\
    readInfo_fresh (planned_image meta) (bs "a") 4 (EroFSFtypeToFileMode FileTypeReg) = Ok ino /\ ino_size ino = 5 /\
    loadBlock (planned_image meta) ino 0 = Ok (bs "hello").
Proof.
  destruct planned_example_dir as [ents De].
  assert (Hs : writer_ok planned_example.1 /\ slots planned_example.1 planned_example.2 0 (w_entries planned_example.1)).
  { pose proof planned_example_slots as H. by destruct planned_example. }
  assert (Ee : w_entries planned_example.1 = [0; 1; 3]%nat) by (vm_compute; reflexivity).
  set (tr := fun p : ptr => match p with O => dir_data planned_example.1 ents | 1 => bs "hello" | _ => bs "a" end%nat).
  assert (Hc : content_ok planned_example.1 planned_example.2 tr).
  { intros p e Hp He. rewrite Ee in Hp. assert (p < 4)%nat by (set_unfold in Hp; lia).
    rewrite planned_example_entry in He by done. apply (inj Some) in He as <-.
    split; [|split; [|by apply planned_readable]]; set_unfold in Hp; destruct Hp as [-> | [-> | [-> | []]]].
    1-3: vm_compute; split; congruence.
    - apply trailing_dir; [vm_compute; reflexivity..|done|vm_compute; reflexivity].
    - apply (trailing_file _ _ _ (bytes_source (bs "hello"))); vm_compute; reflexivity.
    - replace (tr 3%nat) with (e_symTarget (planned_entry 3)) by (vm_compute; reflexivity).
      apply trailing_link; vm_compute; reflexivity. }
  destruct (metadata_roundtrip planned_example.1 planned_example.2 tr (proj1 Hs) (proj2 Hs) Hc) as (es & meta & H1 & H2 & H3 & H4).
  assert (Hm : zlen meta = 512).
  { rewrite H3. assert (X : res_map (metaBlocks planned_example.1) (derefs planned_example.2 (w_entries planned_example.1)) = Ok 1)
      by (vm_compute; reflexivity).
    rewrite H1 in X. apply Ok_inj in X. rewrite X. vm_compute. reflexivity. }
  destruct (H4 (planned_image meta) _ (planned_carries meta Hm) 1%nat (planned_entry 1) (bs "a")) as (R1 & _ & _ & R4).
  - rewrite Ee. right. left.
  - apply planned_example_entry. lia.
  - exists meta, (inode_read planned_example.1 planned_example.2 (planned_entry 1) (bs "a")). split; [exact H2|]. split; [exact Hm|].
    split; [|split; [vm_compute; reflexivity|]].
    + replace (e_nid (planned_entry 1)) with 4 in R1 by (vm_compute; reflexivity).
      replace (e_erofsFileType (planned_entry 1)) with FileTypeReg in R1 by (vm_compute; reflexivity). exact R1.
    + change (tr 1%nat) with (bs "hello") in R4. rewrite R4; [|vm_compute; reflexivity|split; vm_compute; congruence].
      f_equal.
Defined.
