(* ===== verification/SuperWrite.v ===== *)
(** * The superblock written

    [writeBlock0] of src/writer.go against [Open] of src/erofs.go: the area the
    writer puts first is one the reader accepts, checksum included, and its
    device slots read back as the devices' sizes. *)

From S2P Require Import Prelude Machine Disk Format Image Inode Data Reading Open Layout Serialize Roundtrip.

(** ** Decoding at an offset *)

Definition with_checksum (v : Z) (s : SuperBlock) : SuperBlock :=
  {| sb_MagicNumber := sb_MagicNumber s; sb_Checksum := v; sb_FeatureCompat := sb_FeatureCompat s;
     sb_BlkSizeBits := sb_BlkSizeBits s; sb_ExtSlots := sb_ExtSlots s; sb_RootNid := sb_RootNid s;
     sb_Inos := sb_Inos s; sb_BuildTime := sb_BuildTime s; sb_BuildTimeNs := sb_BuildTimeNs s;
     sb_Blocks := sb_Blocks s; sb_MetaBlkAddr := sb_MetaBlkAddr s; sb_XattrBlkAddr := sb_XattrBlkAddr s;
     sb_UUID := sb_UUID s; sb_VolumeName := sb_VolumeName s; sb_FeatureIncompat := sb_FeatureIncompat s;
     sb_ComprAlgs := sb_ComprAlgs s; sb_ExtraDevices := sb_ExtraDevices s; sb_DevtSlotOff := sb_DevtSlotOff s;
     sb_DirBlkBits := sb_DirBlkBits s; sb_XattrPrefixCount := sb_XattrPrefixCount s;
     sb_XattrPrefixStart := sb_XattrPrefixStart s; sb_PackedNid := sb_PackedNid s;
     sb_XattrFilterRes := sb_XattrFilterRes s; sb_IshareXattrPrefixID := sb_IshareXattrPrefixID s;
     sb_Reserved := sb_Reserved s |}.

(** A structure's decoding reads the first 128 bytes. *)
Lemma SuperBlock_Unmarshal_sub b :
  128 <= zlen b -> SuperBlock_Unmarshal (sub b 0 128) = SuperBlock_Unmarshal b.
Proof.
  intros H. unfold SuperBlock_Unmarshal, SizeSuperBlock. unfold zlen at 1. rewrite length_sub by (unfold zlen in H; lia).
  rewrite (proj2 (Z.ltb_ge (zlen b) _)) by lia. change (Z.of_nat 128 <? 128) with false. cbv iota.
  unfold get8, get16, get32, get64. rewrite !sub_sub by lia. done.
Qed.

Lemma DeviceSlot_Unmarshal_sub b :
  128 <= zlen b -> DeviceSlot_Unmarshal (sub b 0 128) = DeviceSlot_Unmarshal b.
Proof.
  intros H. unfold DeviceSlot_Unmarshal, SizeDeviceSlot. unfold zlen at 1. rewrite length_sub by (unfold zlen in H; lia).
  rewrite (proj2 (Z.ltb_ge (zlen b) _)) by lia. change (Z.of_nat 128 <? 128) with false. cbv iota.
  unfold get32. rewrite !sub_sub by lia. done.
Qed.

(** Patching the checksum changes that field and no other. *)
Lemma SuperBlock_Unmarshal_checksum b s v :
  SuperBlock_Unmarshal b = Ok s -> is_u32 v ->
  SuperBlock_Unmarshal (put32 4 v b) = Ok (with_checksum v s).
Proof.
  unfold SuperBlock_Unmarshal, SizeSuperBlock. intros H Hv. steps_in H. apply Ok_inj in H as <-.
  unfold zlen in *. assert (L : (128 <= length b)%nat) by lia. clear E.
  unfold put32 at 1. rewrite length_splice by (rewrite length_le_encode; lia).
  rewrite (proj2 (Z.ltb_ge _ _)) by lia. f_equal. unfold with_checksum. cbn.
  unfold put32, get8, get16, get32, get64.
  rewrite (sub_splice_eq b 4) by (rewrite length_le_encode; lia).
  rewrite !(sub_splice_before b) by lia. rewrite !(sub_splice_after b) by (rewrite length_le_encode; lia).
  by rewrite get_of_le32.
Qed.

(** ** The device slots *)

Definition slot_at (area : bytes) (i : Z) : bytes := sub area (Z.to_nat (1152 + i * 128)) 128.

Definition slot_of (blocks : Z) : DeviceSlot := mkDeviceSlot (zeros 64) blocks 0 (zeros 56).

Lemma sub_take_lt {A} (b : list A) o n k : (o + n <= k)%nat -> sub (take k b) o n = sub b o n.
Proof. intros H. unfold sub. rewrite skipn_firstn_comm, take_take. f_equal. lia. Qed.

Lemma device_slots_spec devices area i :
  Forall is_u32 devices -> 0 <= i -> 1152 + (i + zlen devices) * 128 <= zlen area ->
  exists area', device_slots area i devices = Ok area' /\ length area' = length area /\
    take (Z.to_nat (1152 + i * 128)) area' = take (Z.to_nat (1152 + i * 128)) area /\
    forall j blocks, devices !! j = Some blocks ->
      DeviceSlot_Unmarshal (slot_at area' (i + Z.of_nat j)) = Ok (slot_of blocks).
Proof.
  revert area i. induction devices as [|b devices IH]; intros area i Hd Hi Hroom; [by exists area|].
  rewrite zlen_cons in Hroom. pose proof (zlen_nonneg devices). apply Forall_cons in Hd as [Hb Hd].
  cbn [device_slots]. unfold is_u32 in Hb. rewrite (proj2 (Z.ltb_ge _ _)) by (unfold MaxUint32; lia).
  unfold SuperBlockOffset, SizeSuperBlock, SizeDeviceSlot. change (1024 + 128) with 1152.
  set (off := 1152 + i * 128) in *. rewrite slice_ok by lia. unfold u32. rewrite Z.mod_small by lia.
  fold (slot_of b). set (tail := sub area (Z.to_nat off) (Z.to_nat (zlen area - off))).
  assert (LT : zlen tail = zlen area - off) by (unfold tail; rewrite zlen_sub; lia).
  destruct (DeviceSlot_roundtrip (slot_of b) tail) as (tail' & T1 & T2 & T3); [by split|lia|].
  rewrite T1.
  assert (LT' : length tail' = length tail).
  { apply (f_equal length) in T3. rewrite !length_drop in T3. unfold zlen in *.
    unfold DeviceSlot_Unmarshal, SizeDeviceSlot, zlen in T2. steps_in T2. lia. }
  set (area1 := take (Z.to_nat off) area ++ tail').
  assert (L1 : length area1 = length area).
  { unfold area1. rewrite length_app, length_take. unfold zlen in *. lia. }
  destruct (IH area1 (i + 1) Hd ltac:(lia)) as (area' & A1 & A2 & A3 & A4); [unfold zlen in *; lia|].
  exists area'. split; [done|]. split; [congruence|]. split.
  - apply (f_equal (take (Z.to_nat off))) in A3. rewrite !take_take in A3.
    rewrite !Nat.min_l in A3 by lia. rewrite A3. unfold area1. rewrite take_app_le by (rewrite length_take; unfold zlen in *; lia).
    rewrite take_take. f_equal. lia.
  - intros [|j] blocks Hj; [|rewrite <- (A4 j blocks Hj); do 2 f_equal; lia].
    injection Hj as <-. rewrite Z.add_0_r. rewrite <- T2, <- (DeviceSlot_Unmarshal_sub tail') by (unfold zlen in *; lia).
    f_equal. unfold slot_at. fold off. rewrite <- (sub_take_lt area' _ _ (Z.to_nat (1152 + (i + 1) * 128))) by lia.
    rewrite A3, sub_take_lt by lia. unfold area1.
    rewrite sub_app_r by (rewrite length_take; lia). f_equal. rewrite length_take. unfold zlen in *. lia.
Qed.

(** ** The area *)

(** What the counts and settings have to fit. *)
Record sb_ok (w : erofsWriter) : Prop := {
  sk_writer : writer_ok w;
  sk_devices : Forall is_u32 (w_devices w);
  sk_count : zlen (w_devices w) <= MaxUint16;
  sk_inos : is_u64 (w_totalInodes w);
  sk_time : is_u64 (w_buildTime w);
  sk_timeNs : is_u32 (w_buildTimeNs w);
  sk_meta : is_u32 (w_metaBlkAddr w);
}.

Lemma blkBits_pow k : 9 <= k <= 16 -> blkBits (2 ^ k) = k.
Proof.
  intros H. assert (k = 9 \/ k = 10 \/ k = 11 \/ k = 12 \/ k = 13 \/ k = 14 \/ k = 15 \/ k = 16) as Hk by lia.
  destruct Hk as [-> | [-> | [-> | [-> | [-> | [-> | [-> | ->]]]]]]]; vm_compute; reflexivity.
Qed.

Lemma superblock_wf w st entries : sb_ok w -> SuperBlock_wf (superblock w st entries).
Proof.
  intros [Hw _ _ Hi Ht Hn Hm]. destruct (wo_block _ Hw) as (k & Hk & Hb).
  assert (HB : is_u8 (sb_BlkSizeBits (superblock w st entries))).
  { change (is_u8 (blkBits (w_blockSize w))). rewrite Hb, blkBits_pow by done. unfold is_u8. lia. }
  assert (HF : is_u32 (sb_FeatureIncompat (superblock w st entries))).
  { change (is_u32 (let i := if 0 <? zlen (w_devices w) then FeatureIncompatDeviceTable else 0 in
      if existsb (fun e => e_layout e =? LayoutChunkBased) entries then Z.lor i FeatureIncompatChunkedFile else i)).
    cbv zeta. destruct (existsb _ _), (0 <? zlen (w_devices w)); split; vm_compute; congruence. }
  assert (HE : is_u16 (sb_ExtraDevices (superblock w st entries))).
  { change (is_u16 (if 0 <? zlen (w_devices w) then u16 (zlen (w_devices w)) else 0)).
    case_match; [apply Z.mod_pos_bound; lia|split; lia]. }
  assert (HO : is_u16 (sb_DevtSlotOff (superblock w st entries))).
  { change (is_u16 (if 0 <? zlen (w_devices w) then u16 (Z.quot (SuperBlockOffset + SizeSuperBlock) SizeDeviceSlot) else 0)).
    case_match; split; vm_compute; congruence. }
  split; try assumption; cbn [superblock sb_MagicNumber sb_Checksum sb_FeatureCompat sb_ExtSlots sb_RootNid sb_Blocks sb_XattrBlkAddr
    sb_UUID sb_VolumeName sb_ComprAlgs sb_DirBlkBits sb_XattrPrefixCount sb_XattrPrefixStart sb_PackedNid
    sb_XattrFilterRes sb_IshareXattrPrefixID sb_Reserved]; try reflexivity;
    try (apply Z.mod_pos_bound; reflexivity); split; vm_compute; congruence.
Qed.

Lemma sbAreaSize_room w k :
  writer_ok w -> w_blockSize w = 2 ^ k -> 9 <= k <= 16 ->
  1152 + zlen (w_devices w) * 128 <= sbAreaSize w /\ 1032 + checksumSpan k <= sbAreaSize w /\ 0 <= checksumSpan k.
Proof.
  intros Hw Hk Hk9. pose proof (writer_ok_pos w Hw). pose proof (zlen_nonneg (w_devices w)).
  unfold sbAreaSize, SuperBlockOffset, SizeSuperBlock, SizeDeviceSlot. change (1024 + 128) with 1152.
  set (n := if 0 <? zlen (w_devices w) then 1152 + zlen (w_devices w) * 128 else 1152).
  assert (Hn : 1152 + zlen (w_devices w) * 128 <= n) by (unfold n; case_match; zbool; lia).
  rewrite Z.quot_div_nonneg by lia.
  pose proof (Z.div_mod (n + w_blockSize w - 1) (w_blockSize w) ltac:(lia)) as D.
  pose proof (Z.mod_pos_bound (n + w_blockSize w - 1) (w_blockSize w) ltac:(lia)).
  set (q := (n + w_blockSize w - 1) / w_blockSize w) in *.
  assert (Hq : n <= q * w_blockSize w) by lia. clearbody q n. clear D H1. split; [lia|].
  unfold checksumSpan, SuperBlockOffset, checksumEnd. rewrite Z.shiftl_1_l, <- Hk.
  assert (w_blockSize w = 512 \/ w_blockSize w = 1024 \/ 2048 <= w_blockSize w) as [E|[E|E]].
  { assert (k = 9 \/ k = 10 \/ 11 <= k) as [-> | [-> | K]] by lia; [left; by rewrite Hk|right; left; by rewrite Hk|].
    right; right. rewrite Hk. apply (Z.pow_le_mono_r 2 11 k); lia. }
  1-2: rewrite E in *; cbn [Z.ltb Z.compare Pos.compare Pos.compare_cont]; lia.
  rewrite (proj2 (Z.ltb_lt _ _)) by lia. assert (1 <= q); [|nia].
  destruct (Z.le_gt_cases 1 q) as [|Hlt]; [done|]. nia.
Qed.

(** What the bytes of the area hold. *)
Record area_holds (w : erofsWriter) (sb : SuperBlock) (area : bytes) : Prop := {
  ah_len : zlen area = sbAreaSize w;
  ah_super : SuperBlock_Unmarshal (sub area 1024 128) = Ok sb;
  ah_sum : superblockChecksum (sub area 1032 (Z.to_nat (checksumSpan (sb_BlkSizeBits sb)))) = sb_Checksum sb;
  ah_slots j blocks : w_devices w !! j = Some blocks ->
    DeviceSlot_Unmarshal (slot_at area (Z.of_nat j)) = Ok (slot_of blocks);
}.

Lemma sub_splice_in {A} (b : list A) off n k v :
  (k + length v <= n)%nat -> (off + n <= length b)%nat ->
  sub (splice b (off + k) v) off n = splice (sub b off n) k v.
Proof.
  intros H1 H2. unfold sub, splice.
  rewrite (drop_app_le (take (off + k) b)) by (rewrite length_take; lia).
  rewrite skipn_firstn_comm. replace (off + k - off)%nat with k by lia.
  rewrite take_app, length_take, length_drop. replace (min k (length b - off)) with k by lia.
  rewrite !take_take. replace (min n k) with k by lia. replace (min k n) with k by lia. f_equal.
  rewrite take_app. replace (n - k - length v)%nat with (n - (k + length v))%nat by lia.
  rewrite (take_ge v) by lia. f_equal. rewrite skipn_firstn_comm, drop_drop. do 2 f_equal. lia.
Qed.

Lemma superblockChecksum_u32 b : is_u32 (superblockChecksum b).
Proof. rewrite superblockChecksum_plain. apply crc_update_range. by vm_compute. Qed.

Lemma block0_holds w st entries :
  sb_ok w -> exists area sum, block0 w st entries = Ok area /\
    area_holds w (with_checksum sum (superblock w st entries)) area.
Proof.
  intros Hk. pose proof (superblock_wf w st entries Hk) as Hwf. destruct Hk as [Hw Hd Hc _ _ _ _].
  destruct (wo_block _ Hw) as (k & Hk9 & Hb).
  destruct (sbAreaSize_room w k Hw Hb Hk9) as (R1 & R2 & R3).
  set (sb := superblock w st entries) in *.
  assert (HB : sb_BlkSizeBits sb = k).
  { change (blkBits (w_blockSize w) = k). rewrite Hb. by apply blkBits_pow. }
  set (N := sbAreaSize w) in *. pose proof (zlen_nonneg (w_devices w)).
  unfold block0. fold sb N. change SuperBlockOffset with 1024. change checksumEnd with 8.
  assert (LN : zlen (zeros (Z.to_nat N)) = N) by (unfold zlen; rewrite length_zeros; lia).
  rewrite LN, slice_ok by lia. set (t0 := sub (zeros (Z.to_nat N)) (Z.to_nat 1024) (Z.to_nat (N - 1024))).
  assert (LT : zlen t0 = N - 1024) by (unfold t0; rewrite zlen_sub; lia).
  destruct (SuperBlock_Marshal_facts sb t0 Hwf ltac:(lia)) as (t1 & M1 & M2 & M3). rewrite M1.
  assert (L1 : length t1 = length t0).
  { apply (f_equal length) in M3. rewrite !length_drop in M3. unfold zlen in *.
    unfold SuperBlock_Unmarshal, SizeSuperBlock, zlen in M2. steps_in M2. lia. }
  set (pre := take (Z.to_nat 1024) (zeros (Z.to_nat N))).
  assert (LP : length pre = 1024%nat) by (unfold pre; rewrite length_take; unfold zlen in *; lia).
  destruct (device_slots_spec (w_devices w) (pre ++ t1) 0 Hd ltac:(lia)) as (a2 & A1 & A2 & A3 & A4).
  { rewrite zlen_app. unfold zlen in *. lia. }
  rewrite A1, HB. rewrite length_app, LP in A2.
  rewrite slice_ok by (unfold zlen in *; lia). replace (1024 + 8 + checksumSpan k - (1024 + 8)) with (checksumSpan k) by lia.
  change (1024 + 8) with 1032. change (1024 + 4) with 1028.
  set (sum := superblockChecksum _). pose proof (superblockChecksum_u32 (sub a2 (Z.to_nat 1032) (Z.to_nat (checksumSpan k)))) as HS.
  fold sum in HS. exists (put32 (Z.to_nat 1028) sum a2), sum. split; [done|].
  assert (LE : length (le_encode 4 sum) = 4%nat) by apply length_le_encode.
  split.
  - unfold zlen, put32. rewrite length_splice by (unfold zlen in *; lia). unfold zlen in *. lia.
  - unfold put32. change (Z.to_nat 1028) with (1024 + 4)%nat. rewrite sub_splice_in by (unfold zlen in *; lia).
    apply SuperBlock_Unmarshal_checksum; [|done]. rewrite <- M2, <- (SuperBlock_Unmarshal_sub t1) by (unfold zlen in *; lia).
    f_equal. rewrite <- (sub_take_lt a2 _ _ (Z.to_nat (1152 + 0 * 128))) by lia. rewrite A3, sub_take_lt by lia.
    rewrite sub_app_r by lia. rewrite LP. done.
  - cbn [with_checksum sb_BlkSizeBits sb_Checksum]. rewrite HB. unfold put32.
    rewrite sub_splice_after by (unfold zlen in *; lia). done.
  - intros j blocks Hj. rewrite <- (A4 j blocks Hj). rewrite Z.add_0_l. unfold slot_at, put32.
    rewrite sub_splice_after by (unfold zlen in *; lia). done.
Qed.

(** ** Opening it *)

(** A reader that reports no error with a full read. *)
Definition full_reads (r : ReaderAt) : Prop :=
  forall off n, 0 <= off -> 0 < n -> zlen (ReadAt r off n).1 = n -> (ReadAt r off n).2 = None.

(** A read inside the area. *)
Lemma area_read r c area off n :
  Backed r c -> full_reads r -> take (length area) c = area -> 0 <= off -> 0 < n -> off + n <= zlen area ->
  ReadAt r off n = (sub area (Z.to_nat off) (Z.to_nat n), None).
Proof.
  intros Hb Hf Hp Ho Hn Hfit. pose proof (backed_bytes off n ltac:(lia) ltac:(lia)) as B.
  assert (E : sub c (Z.to_nat off) (Z.to_nat n) = sub area (Z.to_nat off) (Z.to_nat n)).
  { rewrite <- Hp. symmetry. apply sub_take_lt. unfold zlen in Hfit. lia. }
  rewrite E in B. specialize (Hf off n Ho Hn). rewrite B, zlen_sub in Hf by lia.
  destruct (ReadAt r off n) as [b err]. cbn [fst snd] in *. rewrite B, Hf by lia. done.
Qed.

Lemma superblock_features w st entries :
  andnot (sb_FeatureIncompat (superblock w st entries)) FeatureIncompatAll = 0.
Proof.
  change (andnot (let i := if 0 <? zlen (w_devices w) then FeatureIncompatDeviceTable else 0 in
      if existsb (fun e => e_layout e =? LayoutChunkBased) entries then Z.lor i FeatureIncompatChunkedFile else i)
      FeatureIncompatAll = 0).
  cbv zeta. destruct (existsb _ _), (0 <? zlen (w_devices w)); vm_compute; reflexivity.
Qed.

Lemma open_written w st entries area sum r c :
  sb_ok w -> area_holds w (with_checksum sum (superblock w st entries)) area ->
  Backed r c -> full_reads r -> take (length area) c = area ->
  open_superblock r = Ok (with_checksum sum (superblock w st entries)).
Proof.
  intros [Hw _ _ _ _ _ _] [H1 H2 H3 _] Hb Hf Hp. destruct (wo_block _ Hw) as (k & Hk & Hbs).
  destruct (sbAreaSize_room w k Hw Hbs Hk) as (R1 & R2 & R3). pose proof (zlen_nonneg (w_devices w)).
  set (sb := superblock w st entries) in *.
  assert (HB : sb_BlkSizeBits sb = k).
  { change (blkBits (w_blockSize w) = k). rewrite Hbs. by apply blkBits_pow. }
  pose proof (superblock_features w st entries) as HF. fold sb in HF.
  unfold open_superblock. change SuperBlockOffset with 1024. change SizeSuperBlock with 128.
  rewrite (area_read r c area) by (done || lia). unfold zlen at 1. rewrite length_sub by (unfold zlen in *; lia).
  change (negb (Z.of_nat (Z.to_nat 128) =? 128)) with false. cbv iota.
  unfold decodeSuperBlock. change (Z.to_nat 1024) with 1024%nat. change (Z.to_nat 128) with 128%nat. rewrite H2.
  change (sb_MagicNumber (with_checksum sum sb)) with MagicNumber. rewrite Z.eqb_refl. cbn [negb].
  change (sb_BlkSizeBits (with_checksum sum sb)) with (sb_BlkSizeBits sb). rewrite HB.
  rewrite (proj2 (Z.ltb_ge k 9)), (proj2 (Z.ltb_ge 16 k)) by lia. cbn [orb].
  assert (HV : verifySuperblockChecksum r (with_checksum sum sb) = Ok tt).
  { unfold verifySuperblockChecksum. change (Z.land (sb_FeatureCompat (with_checksum sum sb)) FeatureCompatSBChksum =? 0) with false.
    cbv iota. cbn [sb_BlkSizeBits sb_Checksum with_checksum] in *. rewrite HB in *. change (SuperBlockOffset + checksumEnd) with 1032.
    assert (0 < checksumSpan k).
    { unfold checksumSpan, SuperBlockOffset, checksumEnd. rewrite Z.shiftl_1_l.
      assert (k = 9 \/ k = 10 \/ 11 <= k) as [-> | [-> | K]] by lia; [done..|].
      pose proof (Z.pow_le_mono_r 2 11 k ltac:(lia) K). case_match; lia. }
    rewrite (area_read r c area) by (done || lia). rewrite zlen_sub by lia.
    rewrite (proj2 (Z.eqb_eq (Z.max _ _) _)) by lia. cbn [negb]. change (Z.to_nat 1032) with 1032%nat.
    rewrite H3, Z.eqb_refl. done. }
  rewrite HV. change (sb_FeatureIncompat (with_checksum sum sb)) with (sb_FeatureIncompat sb). rewrite HF.
  change (sb_ExtSlots (with_checksum sum sb)) with 0. cbn [Z.eqb negb Z.mul Z.add].
  rewrite (proj2 (Z.ltb_ge _ _)) by (unfold MinPageSize; lia).
  change (negb (Z.land (sb_FeatureCompat (with_checksum sum sb)) FeatureCompatIshareXattrs =? 0)) with false. done.
Qed.

Lemma open_device_written w sb area r c size extra j blocks d :
  area_holds w sb area -> writer_ok w -> sb_DevtSlotOff sb = 9 ->
  Backed r c -> full_reads r -> take (length area) c = area ->
  w_devices w !! j = Some blocks -> extra !! j = Some d ->
  open_device r sb size extra false (Z.of_nat j) =
    Ok {| dev_device := d; dev_size := imageSize d; dev_mappedBlkAddr := 0; dev_blocks := blocks |}.
Proof.
  intros [H1 _ _ H4] Hw Ho Hb Hf Hp Hj He. destruct (wo_block _ Hw) as (k & Hk & Hbs).
  destruct (sbAreaSize_room w k Hw Hbs Hk) as (R1 & _).
  assert (Hlt : Z.of_nat j < zlen (w_devices w)) by (apply lookup_lt_Some in Hj; unfold zlen; lia).
  unfold open_device. rewrite Ho. change SizeDeviceSlot with 128.
  rewrite (area_read r c area) by (done || lia).
  replace (sub area (Z.to_nat (9 * 128 + Z.of_nat j * 128)) (Z.to_nat 128)) with (slot_at area (Z.of_nat j)) by done.
  assert (L : zlen (slot_at area (Z.of_nat j)) = 128).
  { unfold zlen, slot_at. rewrite length_sub; [done|]. unfold zlen in *. lia. }
  rewrite L. change (zeros (Z.to_nat (128 - 128))) with (@nil byte). rewrite app_nil_r, (H4 j blocks Hj).
  rewrite Nat2Z.id, He. done.
Qed.

(** C24: the first area of an image written is one [Open] accepts.  Within the
    limits [writeBlock0] does not fail; the area is as long as the first data
    block's address says, and a reader of an image that starts with it decodes
    the superblock it was written from, with a checksum that verifies, and
    opens each extra device with the block count its slot was given. *)
Theorem superblock_roundtrip w st entries :
  sb_ok w ->
  exists area sum, block0 w st entries = Ok area /\ zlen area = sbAreaBlocks w * w_blockSize w /\
    forall r c, Backed r c -> full_reads r -> take (length area) c = area ->
      let sb := with_checksum sum (superblock w st entries) in
      open_superblock r = Ok sb /\ sb_ExtraDevices sb = zlen (w_devices w) /\
      forall size extra j blocks d, w_devices w !! j = Some blocks -> extra !! j = Some d ->
        open_device r sb size extra false (Z.of_nat j) =
          Ok {| dev_device := d; dev_size := imageSize d; dev_mappedBlkAddr := 0; dev_blocks := blocks |}.
Proof.
  intros Hk. destruct (block0_holds w st entries Hk) as (area & sum & H & Ha). exists area, sum.
  split; [done|]. pose proof (writer_ok_pos w (sk_writer _ Hk)). split.
  { rewrite (ah_len _ _ _ Ha). unfold sbAreaBlocks, sbAreaSize. rewrite Z.quot_mul by lia. done. }
  intros r c Hb Hf Hp sb. split; [by eapply open_written|]. split.
  - change (sb_ExtraDevices sb) with (if 0 <? zlen (w_devices w) then u16 (zlen (w_devices w)) else 0).
    pose proof (sk_count _ Hk). pose proof (zlen_nonneg (w_devices w)). unfold MaxUint16 in *.
    case_match; zbool; [|lia]. apply Z.mod_small. lia.
  - intros size extra j blocks d Hj He. eapply open_device_written; try done; [apply Hk|].
    change (sb_DevtSlotOff sb) with (if 0 <? zlen (w_devices w) then u16 (Z.quot (SuperBlockOffset + SizeSuperBlock) SizeDeviceSlot) else 0).
    rewrite (proj2 (Z.ltb_lt _ _)); [done|]. apply lookup_lt_Some in Hj. unfold zlen. lia.
Qed.

Lemma superblock_roundtrip_witness :
  let w := mkWriter 4096 false 0 0 0 [7; 9] [] 0 1 0 in
  exists area sb, block0 w [] [] = Ok area /\ zlen area = 4096 /\ open_superblock (bytes_reader area) = Ok sb /\
    sb_ExtraDevices sb = 2 /\
    exists d, open_device (bytes_reader area) sb 4096 [bytes_reader []; bytes_reader []] false 1 = Ok d /\ dev_blocks d = 9.
Proof.
  intros w. destruct (superblock_roundtrip w [] []) as (area & sum & H1 & H2 & H3).
  { split.
    - split; [exists 12|]; (split; [split; vm_compute; congruence|vm_compute; reflexivity]) || (split; vm_compute; congruence).
    - apply Forall_cons. split; [split; vm_compute; congruence|].
      apply Forall_cons. split; [split; vm_compute; congruence|constructor].
    - vm_compute. congruence.
    - split; vm_compute; congruence.
    - split; vm_compute; congruence.
    - split; vm_compute; congruence.
    - split; vm_compute; congruence. }
  destruct (H3 (bytes_reader area) area (bytes_reader_backed _) (bytes_reader_full _) (firstn_all _)) as (O1 & O2 & O3).
  exists area, (with_checksum sum (superblock w [] [])). split; [exact H1|]. split; [rewrite H2; vm_compute; reflexivity|].
  split; [exact O1|]. split; [vm_compute; reflexivity|].
  eexists. split; [apply (O3 4096 [bytes_reader []; bytes_reader []] 1%nat 9 (bytes_reader [])); reflexivity|reflexivity].
Defined.
