(* ===== verification/FsTree.v ===== *)
(** * The writer's tree

    The entries a [Writer] of src/mkfs.go holds ([fsEntry]) and the operations
    on its tree: registering an entry, creating the parents it implies,
    removing a name or a subtree, hardlinks and the promotion of an alias when
    the name that carried the inode goes.

    Entries are shared objects (the tree, [byPath], hardlink aliases and the
    file being written point at them), so they live in a store inside the
    writer's state, and a pointer is an index into it; so do the [File]s handed
    out.  A method is a function of the state in the monad [M]: it answers a
    value, an error or a panic, and the state it leaves behind, which an error
    does not undo. *)

From S2P Require Import Prelude Machine Disk Format Image Inode Path Layout.

(** ** Package path *)

(** [path.Split]: up to the last slash, and what follows it. *)
Fixpoint Split (p : bytes) : bytes * bytes :=
  match p with
  | [] => ([], [])
  | c :: t =>
      let '(d, f) := Split t in
      match d with
      | [] => if bool_decide (c = slash) then ([c], f) else ([], c :: f)
      | _ => (c :: d, f)
      end
  end.

(** [path.Dir] *)
Definition Dir (p : bytes) : bytes := Clean (Split p).1.

Fixpoint trim_left (p : bytes) : bytes :=
  match p with
  | c :: t => if bool_decide (c = slash) then trim_left t else p
  | [] => []
  end.

Definition trim_right (p : bytes) : bytes := rev (trim_left (rev p)).

(** [path.Base] *)
Definition Base (p : bytes) : bytes :=
  if beqb p [] then bs "." else
  let p := (Split (trim_right p)).2 in
  if beqb p [] then [slash] else p.

(** [path.Join(dir, name)] *)
Definition Join (dir name : bytes) : bytes :=
  if beqb dir [] then (if beqb name [] then [] else Clean name) else
  if beqb name [] then Clean dir else Clean (dir ++ slash :: name).

Definition cleanPath (p : bytes) : bytes :=
  if beqb p [] || beqb p (bs ".") || beqb p [slash] then [slash] else
  let p := Clean p in
  if beqb p (bs ".") then [slash] else
  if negb (HasPrefix p [slash]) then slash :: p else p.

(** ** Data *)

#[projections(primitive)] Record fsEntry := mkNode {
  n_path : bytes; n_mode : Z; n_uid : Z; n_gid : Z; n_atime : Z; n_atimeNs : Z; n_mtime : Z; n_mtimeNs : Z;
  n_nlink : Z; n_nlinkSet : bool; n_size : Z; n_rdev : Z; n_xattrs : gmap bytes bytes; n_linkTarget : bytes;
  n_chunks : list Chunk; n_contiguous : bool; n_tail : bytes; n_linkTo : option ptr; n_extraLinks : Z;
  n_parent : option ptr; n_children : list ptr; n_spoolOff : Z; n_dataStartOff : Z; n_fileClosed : bool;
  n_directData : option source; n_removed : bool; n_metadataOnly : bool }.

Definition ns_path (v : bytes) (e : fsEntry) : fsEntry :=
  mkNode v (n_mode e) (n_uid e) (n_gid e) (n_atime e) (n_atimeNs e) (n_mtime e) (n_mtimeNs e) (n_nlink e)
    (n_nlinkSet e) (n_size e) (n_rdev e) (n_xattrs e) (n_linkTarget e) (n_chunks e) (n_contiguous e) (n_tail
    e) (n_linkTo e) (n_extraLinks e) (n_parent e) (n_children e) (n_spoolOff e) (n_dataStartOff e)
    (n_fileClosed e) (n_directData e) (n_removed e) (n_metadataOnly e).
Definition ns_mode (v : Z) (e : fsEntry) : fsEntry :=
  mkNode (n_path e) v (n_uid e) (n_gid e) (n_atime e) (n_atimeNs e) (n_mtime e) (n_mtimeNs e) (n_nlink e)
    (n_nlinkSet e) (n_size e) (n_rdev e) (n_xattrs e) (n_linkTarget e) (n_chunks e) (n_contiguous e) (n_tail
    e) (n_linkTo e) (n_extraLinks e) (n_parent e) (n_children e) (n_spoolOff e) (n_dataStartOff e)
    (n_fileClosed e) (n_directData e) (n_removed e) (n_metadataOnly e).
Definition ns_uid (v : Z) (e : fsEntry) : fsEntry :=
  mkNode (n_path e) (n_mode e) v (n_gid e) (n_atime e) (n_atimeNs e) (n_mtime e) (n_mtimeNs e) (n_nlink e)
    (n_nlinkSet e) (n_size e) (n_rdev e) (n_xattrs e) (n_linkTarget e) (n_chunks e) (n_contiguous e) (n_tail
    e) (n_linkTo e) (n_extraLinks e) (n_parent e) (n_children e) (n_spoolOff e) (n_dataStartOff e)
    (n_fileClosed e) (n_directData e) (n_removed e) (n_metadataOnly e).
Definition ns_gid (v : Z) (e : fsEntry) : fsEntry :=
  mkNode (n_path e) (n_mode e) (n_uid e) v (n_atime e) (n_atimeNs e) (n_mtime e) (n_mtimeNs e) (n_nlink e)
    (n_nlinkSet e) (n_size e) (n_rdev e) (n_xattrs e) (n_linkTarget e) (n_chunks e) (n_contiguous e) (n_tail
    e) (n_linkTo e) (n_extraLinks e) (n_parent e) (n_children e) (n_spoolOff e) (n_dataStartOff e)
    (n_fileClosed e) (n_directData e) (n_removed e) (n_metadataOnly e).
Definition ns_atime (v : Z) (e : fsEntry) : fsEntry :=
  mkNode (n_path e) (n_mode e) (n_uid e) (n_gid e) v (n_atimeNs e) (n_mtime e) (n_mtimeNs e) (n_nlink e)
    (n_nlinkSet e) (n_size e) (n_rdev e) (n_xattrs e) (n_linkTarget e) (n_chunks e) (n_contiguous e) (n_tail
    e) (n_linkTo e) (n_extraLinks e) (n_parent e) (n_children e) (n_spoolOff e) (n_dataStartOff e)
    (n_fileClosed e) (n_directData e) (n_removed e) (n_metadataOnly e).
Definition ns_atimeNs (v : Z) (e : fsEntry) : fsEntry :=
  mkNode (n_path e) (n_mode e) (n_uid e) (n_gid e) (n_atime e) v (n_mtime e) (n_mtimeNs e) (n_nlink e)
    (n_nlinkSet e) (n_size e) (n_rdev e) (n_xattrs e) (n_linkTarget e) (n_chunks e) (n_contiguous e) (n_tail
    e) (n_linkTo e) (n_extraLinks e) (n_parent e) (n_children e) (n_spoolOff e) (n_dataStartOff e)
    (n_fileClosed e) (n_directData e) (n_removed e) (n_metadataOnly e).
Definition ns_mtime (v : Z) (e : fsEntry) : fsEntry :=
  mkNode (n_path e) (n_mode e) (n_uid e) (n_gid e) (n_atime e) (n_atimeNs e) v (n_mtimeNs e) (n_nlink e)
    (n_nlinkSet e) (n_size e) (n_rdev e) (n_xattrs e) (n_linkTarget e) (n_chunks e) (n_contiguous e) (n_tail
    e) (n_linkTo e) (n_extraLinks e) (n_parent e) (n_children e) (n_spoolOff e) (n_dataStartOff e)
    (n_fileClosed e) (n_directData e) (n_removed e) (n_metadataOnly e).
Definition ns_mtimeNs (v : Z) (e : fsEntry) : fsEntry :=
  mkNode (n_path e) (n_mode e) (n_uid e) (n_gid e) (n_atime e) (n_atimeNs e) (n_mtime e) v (n_nlink e)
    (n_nlinkSet e) (n_size e) (n_rdev e) (n_xattrs e) (n_linkTarget e) (n_chunks e) (n_contiguous e) (n_tail
    e) (n_linkTo e) (n_extraLinks e) (n_parent e) (n_children e) (n_spoolOff e) (n_dataStartOff e)
    (n_fileClosed e) (n_directData e) (n_removed e) (n_metadataOnly e).
Definition ns_nlink (v : Z) (e : fsEntry) : fsEntry :=
  mkNode (n_path e) (n_mode e) (n_uid e) (n_gid e) (n_atime e) (n_atimeNs e) (n_mtime e) (n_mtimeNs e) v
    (n_nlinkSet e) (n_size e) (n_rdev e) (n_xattrs e) (n_linkTarget e) (n_chunks e) (n_contiguous e) (n_tail
    e) (n_linkTo e) (n_extraLinks e) (n_parent e) (n_children e) (n_spoolOff e) (n_dataStartOff e)
    (n_fileClosed e) (n_directData e) (n_removed e) (n_metadataOnly e).
Definition ns_nlinkSet (v : bool) (e : fsEntry) : fsEntry :=
  mkNode (n_path e) (n_mode e) (n_uid e) (n_gid e) (n_atime e) (n_atimeNs e) (n_mtime e) (n_mtimeNs e)
    (n_nlink e) v (n_size e) (n_rdev e) (n_xattrs e) (n_linkTarget e) (n_chunks e) (n_contiguous e) (n_tail
    e) (n_linkTo e) (n_extraLinks e) (n_parent e) (n_children e) (n_spoolOff e) (n_dataStartOff e)
    (n_fileClosed e) (n_directData e) (n_removed e) (n_metadataOnly e).
Definition ns_size (v : Z) (e : fsEntry) : fsEntry :=
  mkNode (n_path e) (n_mode e) (n_uid e) (n_gid e) (n_atime e) (n_atimeNs e) (n_mtime e) (n_mtimeNs e)
    (n_nlink e) (n_nlinkSet e) v (n_rdev e) (n_xattrs e) (n_linkTarget e) (n_chunks e) (n_contiguous e)
    (n_tail e) (n_linkTo e) (n_extraLinks e) (n_parent e) (n_children e) (n_spoolOff e) (n_dataStartOff e)
    (n_fileClosed e) (n_directData e) (n_removed e) (n_metadataOnly e).
Definition ns_xattrs (v : gmap bytes bytes) (e : fsEntry) : fsEntry :=
  mkNode (n_path e) (n_mode e) (n_uid e) (n_gid e) (n_atime e) (n_atimeNs e) (n_mtime e) (n_mtimeNs e)
    (n_nlink e) (n_nlinkSet e) (n_size e) (n_rdev e) v (n_linkTarget e) (n_chunks e) (n_contiguous e)
    (n_tail e) (n_linkTo e) (n_extraLinks e) (n_parent e) (n_children e) (n_spoolOff e) (n_dataStartOff e)
    (n_fileClosed e) (n_directData e) (n_removed e) (n_metadataOnly e).
Definition ns_chunks (v : list Chunk) (e : fsEntry) : fsEntry :=
  mkNode (n_path e) (n_mode e) (n_uid e) (n_gid e) (n_atime e) (n_atimeNs e) (n_mtime e) (n_mtimeNs e)
    (n_nlink e) (n_nlinkSet e) (n_size e) (n_rdev e) (n_xattrs e) (n_linkTarget e) v (n_contiguous e)
    (n_tail e) (n_linkTo e) (n_extraLinks e) (n_parent e) (n_children e) (n_spoolOff e) (n_dataStartOff e)
    (n_fileClosed e) (n_directData e) (n_removed e) (n_metadataOnly e).
Definition ns_contiguous (v : bool) (e : fsEntry) : fsEntry :=
  mkNode (n_path e) (n_mode e) (n_uid e) (n_gid e) (n_atime e) (n_atimeNs e) (n_mtime e) (n_mtimeNs e)
    (n_nlink e) (n_nlinkSet e) (n_size e) (n_rdev e) (n_xattrs e) (n_linkTarget e) (n_chunks e) v (n_tail e)
    (n_linkTo e) (n_extraLinks e) (n_parent e) (n_children e) (n_spoolOff e) (n_dataStartOff e)
    (n_fileClosed e) (n_directData e) (n_removed e) (n_metadataOnly e).
Definition ns_tail (v : bytes) (e : fsEntry) : fsEntry :=
  mkNode (n_path e) (n_mode e) (n_uid e) (n_gid e) (n_atime e) (n_atimeNs e) (n_mtime e) (n_mtimeNs e)
    (n_nlink e) (n_nlinkSet e) (n_size e) (n_rdev e) (n_xattrs e) (n_linkTarget e) (n_chunks e)
    (n_contiguous e) v (n_linkTo e) (n_extraLinks e) (n_parent e) (n_children e) (n_spoolOff e)
    (n_dataStartOff e) (n_fileClosed e) (n_directData e) (n_removed e) (n_metadataOnly e).
Definition ns_linkTo (v : option ptr) (e : fsEntry) : fsEntry :=
  mkNode (n_path e) (n_mode e) (n_uid e) (n_gid e) (n_atime e) (n_atimeNs e) (n_mtime e) (n_mtimeNs e)
    (n_nlink e) (n_nlinkSet e) (n_size e) (n_rdev e) (n_xattrs e) (n_linkTarget e) (n_chunks e)
    (n_contiguous e) (n_tail e) v (n_extraLinks e) (n_parent e) (n_children e) (n_spoolOff e)
    (n_dataStartOff e) (n_fileClosed e) (n_directData e) (n_removed e) (n_metadataOnly e).
Definition ns_extraLinks (v : Z) (e : fsEntry) : fsEntry :=
  mkNode (n_path e) (n_mode e) (n_uid e) (n_gid e) (n_atime e) (n_atimeNs e) (n_mtime e) (n_mtimeNs e)
    (n_nlink e) (n_nlinkSet e) (n_size e) (n_rdev e) (n_xattrs e) (n_linkTarget e) (n_chunks e)
    (n_contiguous e) (n_tail e) (n_linkTo e) v (n_parent e) (n_children e) (n_spoolOff e) (n_dataStartOff e)
    (n_fileClosed e) (n_directData e) (n_removed e) (n_metadataOnly e).
Definition ns_parent (v : option ptr) (e : fsEntry) : fsEntry :=
  mkNode (n_path e) (n_mode e) (n_uid e) (n_gid e) (n_atime e) (n_atimeNs e) (n_mtime e) (n_mtimeNs e)
    (n_nlink e) (n_nlinkSet e) (n_size e) (n_rdev e) (n_xattrs e) (n_linkTarget e) (n_chunks e)
    (n_contiguous e) (n_tail e) (n_linkTo e) (n_extraLinks e) v (n_children e) (n_spoolOff e)
    (n_dataStartOff e) (n_fileClosed e) (n_directData e) (n_removed e) (n_metadataOnly e).
Definition ns_children (v : list ptr) (e : fsEntry) : fsEntry :=
  mkNode (n_path e) (n_mode e) (n_uid e) (n_gid e) (n_atime e) (n_atimeNs e) (n_mtime e) (n_mtimeNs e)
    (n_nlink e) (n_nlinkSet e) (n_size e) (n_rdev e) (n_xattrs e) (n_linkTarget e) (n_chunks e)
    (n_contiguous e) (n_tail e) (n_linkTo e) (n_extraLinks e) (n_parent e) v (n_spoolOff e) (n_dataStartOff
    e) (n_fileClosed e) (n_directData e) (n_removed e) (n_metadataOnly e).
Definition ns_spoolOff (v : Z) (e : fsEntry) : fsEntry :=
  mkNode (n_path e) (n_mode e) (n_uid e) (n_gid e) (n_atime e) (n_atimeNs e) (n_mtime e) (n_mtimeNs e)
    (n_nlink e) (n_nlinkSet e) (n_size e) (n_rdev e) (n_xattrs e) (n_linkTarget e) (n_chunks e)
    (n_contiguous e) (n_tail e) (n_linkTo e) (n_extraLinks e) (n_parent e) (n_children e) v (n_dataStartOff
    e) (n_fileClosed e) (n_directData e) (n_removed e) (n_metadataOnly e).
Definition ns_dataStartOff (v : Z) (e : fsEntry) : fsEntry :=
  mkNode (n_path e) (n_mode e) (n_uid e) (n_gid e) (n_atime e) (n_atimeNs e) (n_mtime e) (n_mtimeNs e)
    (n_nlink e) (n_nlinkSet e) (n_size e) (n_rdev e) (n_xattrs e) (n_linkTarget e) (n_chunks e)
    (n_contiguous e) (n_tail e) (n_linkTo e) (n_extraLinks e) (n_parent e) (n_children e) (n_spoolOff e) v
    (n_fileClosed e) (n_directData e) (n_removed e) (n_metadataOnly e).
Definition ns_fileClosed (v : bool) (e : fsEntry) : fsEntry :=
  mkNode (n_path e) (n_mode e) (n_uid e) (n_gid e) (n_atime e) (n_atimeNs e) (n_mtime e) (n_mtimeNs e)
    (n_nlink e) (n_nlinkSet e) (n_size e) (n_rdev e) (n_xattrs e) (n_linkTarget e) (n_chunks e)
    (n_contiguous e) (n_tail e) (n_linkTo e) (n_extraLinks e) (n_parent e) (n_children e) (n_spoolOff e)
    (n_dataStartOff e) v (n_directData e) (n_removed e) (n_metadataOnly e).
Definition ns_directData (v : option source) (e : fsEntry) : fsEntry :=
  mkNode (n_path e) (n_mode e) (n_uid e) (n_gid e) (n_atime e) (n_atimeNs e) (n_mtime e) (n_mtimeNs e)
    (n_nlink e) (n_nlinkSet e) (n_size e) (n_rdev e) (n_xattrs e) (n_linkTarget e) (n_chunks e)
    (n_contiguous e) (n_tail e) (n_linkTo e) (n_extraLinks e) (n_parent e) (n_children e) (n_spoolOff e)
    (n_dataStartOff e) (n_fileClosed e) v (n_removed e) (n_metadataOnly e).
Definition ns_removed (v : bool) (e : fsEntry) : fsEntry :=
  mkNode (n_path e) (n_mode e) (n_uid e) (n_gid e) (n_atime e) (n_atimeNs e) (n_mtime e) (n_mtimeNs e)
    (n_nlink e) (n_nlinkSet e) (n_size e) (n_rdev e) (n_xattrs e) (n_linkTarget e) (n_chunks e)
    (n_contiguous e) (n_tail e) (n_linkTo e) (n_extraLinks e) (n_parent e) (n_children e) (n_spoolOff e)
    (n_dataStartOff e) (n_fileClosed e) (n_directData e) v (n_metadataOnly e).
Definition ns_metadataOnly (v : bool) (e : fsEntry) : fsEntry :=
  mkNode (n_path e) (n_mode e) (n_uid e) (n_gid e) (n_atime e) (n_atimeNs e) (n_mtime e) (n_mtimeNs e)
    (n_nlink e) (n_nlinkSet e) (n_size e) (n_rdev e) (n_xattrs e) (n_linkTarget e) (n_chunks e)
    (n_contiguous e) (n_tail e) (n_linkTo e) (n_extraLinks e) (n_parent e) (n_children e) (n_spoolOff e)
    (n_dataStartOff e) (n_fileClosed e) (n_directData e) (n_removed e) v.

Definition n_type (e : fsEntry) : Z := Z.land (n_mode e) StatTypeMask.

(** An entry with a path and a mode; the other fields are zero. *)
Definition new_node (path : bytes) (mode : Z) : fsEntry :=
  mkNode path mode 0 0 0 0 0 0 0 false 0 0 ∅ [] [] false [] None 0 None [] 0 0 false None false false.

(** A [File] handed out by [Create]. *)
Record File := mkFile' { fl_entry : ptr; fl_dataStartOff : Z; fl_written : Z; fl_closed : bool }.

(** The data file given by the caller, or the spool in a temporary file. *)
Class DataFile (D : Type) := {
  (** [Write(p)]: the count and the error. *)
  df_Write : D -> bytes -> D * Z * option goerr;
  (** [Seek(0, io.SeekEnd)] *)
  df_SeekEnd : D -> D * Z * option goerr;
  df_ReaderAt : D -> ReaderAt;
  (** [os.CreateTemp] *)
  df_CreateTemp : res D;
}.

(** What the writer relies on: a write without an error wrote all of its bytes
    after those there, and they are read back. *)
Class DataFileLaws (D : Type) `{DataFile D} := {
  df_content : D -> bytes;
  df_Write_ok d p d' n : df_Write d p = (d', n, None) -> n = zlen p /\ df_content d' = df_content d ++ p;
  df_Write_count d p : 0 <= (df_Write d p).1.2 <= zlen p;
  df_SeekEnd_ok d d' n : df_SeekEnd d = (d', n, None) -> n = zlen (df_content d) /\ df_content d' = df_content d;
  df_reads d : Backed (df_ReaderAt d) (df_content d);
  df_CreateTemp_ok d : df_CreateTemp = Ok d -> df_content d = [];
}.

(** A file in memory. *)
#[export] Instance memory_file : DataFile bytes := {|
  df_Write d p := (d ++ p, zlen p, None);
  df_SeekEnd d := (d, zlen d, None);
  df_ReaderAt := bytes_reader;
  df_CreateTemp := Ok [];
|}.

#[export] Instance memory_file_laws : DataFileLaws bytes.
Proof.
  refine {| df_content := fun d => d |}.
  - by intros d p d' n [= <- <-].
  - intros. cbn. pose proof (zlen_nonneg p). lia.
  - by intros d d' n [= <- <-].
  - by intros d [= <-].
Defined.

Section Writer.
Context {D : Type}.

#[projections(primitive)] Record Writer := mkFs {
  fw_closed : bool; fw_blockSize : Z; fw_noInlineData : bool; fw_buildTime : Z; fw_buildTimeNs : Z;
  fw_hasBuildTime : bool; fw_wErr : option goerr; fw_store : list fsEntry; fw_byPath : gmap bytes ptr;
  fw_devices : list Z; fw_copyMetadataOnly : bool; fw_copyMerge : bool; fw_copyDeviceID : Z;
  fw_copySourceIsImage : bool; fw_copyLinks : option (gmap (Z * Z) ptr); fw_files : list File; fw_openFile :
  option ptr; fw_dataFile : option D; fw_dataOff : Z; fw_spool : option D; fw_spoolOff : Z }.

Definition fs_closed (v : bool) (w : Writer) : Writer :=
  mkFs v (fw_blockSize w) (fw_noInlineData w) (fw_buildTime w) (fw_buildTimeNs w) (fw_hasBuildTime w)
    (fw_wErr w) (fw_store w) (fw_byPath w) (fw_devices w) (fw_copyMetadataOnly w) (fw_copyMerge w)
    (fw_copyDeviceID w) (fw_copySourceIsImage w) (fw_copyLinks w) (fw_files w) (fw_openFile w) (fw_dataFile
    w) (fw_dataOff w) (fw_spool w) (fw_spoolOff w).
Definition fs_blockSize (v : Z) (w : Writer) : Writer :=
  mkFs (fw_closed w) v (fw_noInlineData w) (fw_buildTime w) (fw_buildTimeNs w) (fw_hasBuildTime w) (fw_wErr
    w) (fw_store w) (fw_byPath w) (fw_devices w) (fw_copyMetadataOnly w) (fw_copyMerge w) (fw_copyDeviceID
    w) (fw_copySourceIsImage w) (fw_copyLinks w) (fw_files w) (fw_openFile w) (fw_dataFile w) (fw_dataOff w)
    (fw_spool w) (fw_spoolOff w).
Definition fs_buildTime (v : Z) (w : Writer) : Writer :=
  mkFs (fw_closed w) (fw_blockSize w) (fw_noInlineData w) v (fw_buildTimeNs w) (fw_hasBuildTime w) (fw_wErr
    w) (fw_store w) (fw_byPath w) (fw_devices w) (fw_copyMetadataOnly w) (fw_copyMerge w) (fw_copyDeviceID
    w) (fw_copySourceIsImage w) (fw_copyLinks w) (fw_files w) (fw_openFile w) (fw_dataFile w) (fw_dataOff w)
    (fw_spool w) (fw_spoolOff w).
Definition fs_buildTimeNs (v : Z) (w : Writer) : Writer :=
  mkFs (fw_closed w) (fw_blockSize w) (fw_noInlineData w) (fw_buildTime w) v (fw_hasBuildTime w) (fw_wErr w)
    (fw_store w) (fw_byPath w) (fw_devices w) (fw_copyMetadataOnly w) (fw_copyMerge w) (fw_copyDeviceID w)
    (fw_copySourceIsImage w) (fw_copyLinks w) (fw_files w) (fw_openFile w) (fw_dataFile w) (fw_dataOff w)
    (fw_spool w) (fw_spoolOff w).
Definition fs_hasBuildTime (v : bool) (w : Writer) : Writer :=
  mkFs (fw_closed w) (fw_blockSize w) (fw_noInlineData w) (fw_buildTime w) (fw_buildTimeNs w) v (fw_wErr w)
    (fw_store w) (fw_byPath w) (fw_devices w) (fw_copyMetadataOnly w) (fw_copyMerge w) (fw_copyDeviceID w)
    (fw_copySourceIsImage w) (fw_copyLinks w) (fw_files w) (fw_openFile w) (fw_dataFile w) (fw_dataOff w)
    (fw_spool w) (fw_spoolOff w).
Definition fs_wErr (v : option goerr) (w : Writer) : Writer :=
  mkFs (fw_closed w) (fw_blockSize w) (fw_noInlineData w) (fw_buildTime w) (fw_buildTimeNs w)
    (fw_hasBuildTime w) v (fw_store w) (fw_byPath w) (fw_devices w) (fw_copyMetadataOnly w) (fw_copyMerge w)
    (fw_copyDeviceID w) (fw_copySourceIsImage w) (fw_copyLinks w) (fw_files w) (fw_openFile w) (fw_dataFile
    w) (fw_dataOff w) (fw_spool w) (fw_spoolOff w).
Definition fs_store (v : list fsEntry) (w : Writer) : Writer :=
  mkFs (fw_closed w) (fw_blockSize w) (fw_noInlineData w) (fw_buildTime w) (fw_buildTimeNs w)
    (fw_hasBuildTime w) (fw_wErr w) v (fw_byPath w) (fw_devices w) (fw_copyMetadataOnly w) (fw_copyMerge w)
    (fw_copyDeviceID w) (fw_copySourceIsImage w) (fw_copyLinks w) (fw_files w) (fw_openFile w) (fw_dataFile
    w) (fw_dataOff w) (fw_spool w) (fw_spoolOff w).
Definition fs_byPath (v : gmap bytes ptr) (w : Writer) : Writer :=
  mkFs (fw_closed w) (fw_blockSize w) (fw_noInlineData w) (fw_buildTime w) (fw_buildTimeNs w)
    (fw_hasBuildTime w) (fw_wErr w) (fw_store w) v (fw_devices w) (fw_copyMetadataOnly w) (fw_copyMerge w)
    (fw_copyDeviceID w) (fw_copySourceIsImage w) (fw_copyLinks w) (fw_files w) (fw_openFile w) (fw_dataFile
    w) (fw_dataOff w) (fw_spool w) (fw_spoolOff w).
Definition fs_devices (v : list Z) (w : Writer) : Writer :=
  mkFs (fw_closed w) (fw_blockSize w) (fw_noInlineData w) (fw_buildTime w) (fw_buildTimeNs w)
    (fw_hasBuildTime w) (fw_wErr w) (fw_store w) (fw_byPath w) v (fw_copyMetadataOnly w) (fw_copyMerge w)
    (fw_copyDeviceID w) (fw_copySourceIsImage w) (fw_copyLinks w) (fw_files w) (fw_openFile w) (fw_dataFile
    w) (fw_dataOff w) (fw_spool w) (fw_spoolOff w).
Definition fs_copyMetadataOnly (v : bool) (w : Writer) : Writer :=
  mkFs (fw_closed w) (fw_blockSize w) (fw_noInlineData w) (fw_buildTime w) (fw_buildTimeNs w)
    (fw_hasBuildTime w) (fw_wErr w) (fw_store w) (fw_byPath w) (fw_devices w) v (fw_copyMerge w)
    (fw_copyDeviceID w) (fw_copySourceIsImage w) (fw_copyLinks w) (fw_files w) (fw_openFile w) (fw_dataFile
    w) (fw_dataOff w) (fw_spool w) (fw_spoolOff w).
Definition fs_copyMerge (v : bool) (w : Writer) : Writer :=
  mkFs (fw_closed w) (fw_blockSize w) (fw_noInlineData w) (fw_buildTime w) (fw_buildTimeNs w)
    (fw_hasBuildTime w) (fw_wErr w) (fw_store w) (fw_byPath w) (fw_devices w) (fw_copyMetadataOnly w) v
    (fw_copyDeviceID w) (fw_copySourceIsImage w) (fw_copyLinks w) (fw_files w) (fw_openFile w) (fw_dataFile
    w) (fw_dataOff w) (fw_spool w) (fw_spoolOff w).
Definition fs_copyDeviceID (v : Z) (w : Writer) : Writer :=
  mkFs (fw_closed w) (fw_blockSize w) (fw_noInlineData w) (fw_buildTime w) (fw_buildTimeNs w)
    (fw_hasBuildTime w) (fw_wErr w) (fw_store w) (fw_byPath w) (fw_devices w) (fw_copyMetadataOnly w)
    (fw_copyMerge w) v (fw_copySourceIsImage w) (fw_copyLinks w) (fw_files w) (fw_openFile w) (fw_dataFile
    w) (fw_dataOff w) (fw_spool w) (fw_spoolOff w).
Definition fs_copySourceIsImage (v : bool) (w : Writer) : Writer :=
  mkFs (fw_closed w) (fw_blockSize w) (fw_noInlineData w) (fw_buildTime w) (fw_buildTimeNs w)
    (fw_hasBuildTime w) (fw_wErr w) (fw_store w) (fw_byPath w) (fw_devices w) (fw_copyMetadataOnly w)
    (fw_copyMerge w) (fw_copyDeviceID w) v (fw_copyLinks w) (fw_files w) (fw_openFile w) (fw_dataFile w)
    (fw_dataOff w) (fw_spool w) (fw_spoolOff w).
Definition fs_copyLinks (v : option (gmap (Z * Z) ptr)) (w : Writer) : Writer :=
  mkFs (fw_closed w) (fw_blockSize w) (fw_noInlineData w) (fw_buildTime w) (fw_buildTimeNs w)
    (fw_hasBuildTime w) (fw_wErr w) (fw_store w) (fw_byPath w) (fw_devices w) (fw_copyMetadataOnly w)
    (fw_copyMerge w) (fw_copyDeviceID w) (fw_copySourceIsImage w) v (fw_files w) (fw_openFile w)
    (fw_dataFile w) (fw_dataOff w) (fw_spool w) (fw_spoolOff w).
Definition fs_files (v : list File) (w : Writer) : Writer :=
  mkFs (fw_closed w) (fw_blockSize w) (fw_noInlineData w) (fw_buildTime w) (fw_buildTimeNs w)
    (fw_hasBuildTime w) (fw_wErr w) (fw_store w) (fw_byPath w) (fw_devices w) (fw_copyMetadataOnly w)
    (fw_copyMerge w) (fw_copyDeviceID w) (fw_copySourceIsImage w) (fw_copyLinks w) v (fw_openFile w)
    (fw_dataFile w) (fw_dataOff w) (fw_spool w) (fw_spoolOff w).
Definition fs_openFile (v : option ptr) (w : Writer) : Writer :=
  mkFs (fw_closed w) (fw_blockSize w) (fw_noInlineData w) (fw_buildTime w) (fw_buildTimeNs w)
    (fw_hasBuildTime w) (fw_wErr w) (fw_store w) (fw_byPath w) (fw_devices w) (fw_copyMetadataOnly w)
    (fw_copyMerge w) (fw_copyDeviceID w) (fw_copySourceIsImage w) (fw_copyLinks w) (fw_files w) v
    (fw_dataFile w) (fw_dataOff w) (fw_spool w) (fw_spoolOff w).
Definition fs_dataFile (v : option D) (w : Writer) : Writer :=
  mkFs (fw_closed w) (fw_blockSize w) (fw_noInlineData w) (fw_buildTime w) (fw_buildTimeNs w)
    (fw_hasBuildTime w) (fw_wErr w) (fw_store w) (fw_byPath w) (fw_devices w) (fw_copyMetadataOnly w)
    (fw_copyMerge w) (fw_copyDeviceID w) (fw_copySourceIsImage w) (fw_copyLinks w) (fw_files w) (fw_openFile
    w) v (fw_dataOff w) (fw_spool w) (fw_spoolOff w).
Definition fs_dataOff (v : Z) (w : Writer) : Writer :=
  mkFs (fw_closed w) (fw_blockSize w) (fw_noInlineData w) (fw_buildTime w) (fw_buildTimeNs w)
    (fw_hasBuildTime w) (fw_wErr w) (fw_store w) (fw_byPath w) (fw_devices w) (fw_copyMetadataOnly w)
    (fw_copyMerge w) (fw_copyDeviceID w) (fw_copySourceIsImage w) (fw_copyLinks w) (fw_files w) (fw_openFile
    w) (fw_dataFile w) v (fw_spool w) (fw_spoolOff w).
Definition fs_spool (v : option D) (w : Writer) : Writer :=
  mkFs (fw_closed w) (fw_blockSize w) (fw_noInlineData w) (fw_buildTime w) (fw_buildTimeNs w)
    (fw_hasBuildTime w) (fw_wErr w) (fw_store w) (fw_byPath w) (fw_devices w) (fw_copyMetadataOnly w)
    (fw_copyMerge w) (fw_copyDeviceID w) (fw_copySourceIsImage w) (fw_copyLinks w) (fw_files w) (fw_openFile
    w) (fw_dataFile w) (fw_dataOff w) v (fw_spoolOff w).
Definition fs_spoolOff (v : Z) (w : Writer) : Writer :=
  mkFs (fw_closed w) (fw_blockSize w) (fw_noInlineData w) (fw_buildTime w) (fw_buildTimeNs w)
    (fw_hasBuildTime w) (fw_wErr w) (fw_store w) (fw_byPath w) (fw_devices w) (fw_copyMetadataOnly w)
    (fw_copyMerge w) (fw_copyDeviceID w) (fw_copySourceIsImage w) (fw_copyLinks w) (fw_files w) (fw_openFile
    w) (fw_dataFile w) (fw_dataOff w) (fw_spool w) v.

(** The root is the first entry of the store and stays it. *)
Definition root : ptr := 0%nat.

(** ** The monad of a method *)

Definition M (A : Type) : Type := Writer -> res A * Writer.

Definition ret {A} (a : A) : M A := fun w => (Ok a, w).
Definition fail {A} (e : goerr) : M A := fun w => (Err e, w).
Definition of_res {A} (r : res A) : M A := fun w => (r, w).
Definition gets {A} (f : Writer -> A) : M A := fun w => (Ok (f w), w).
Definition modify (f : Writer -> Writer) : M unit := fun w => (Ok tt, f w).

Definition bind {A B} (m : M A) (k : A -> M B) : M B := fun w =>
  match m w with
  | (Ok a, w) => k a w
  | (Err e, w) => (Err e, w)
  | (Panic, w) => (Panic, w)
  end.

End Writer.

Arguments Writer : clear implicits.
Arguments M : clear implicits.

Notation "'do!' x := m 'in' k" := (bind m (fun x => k))
  (at level 10, x pattern, m at level 100, k at level 200, right associativity) : go_scope.
Notation "'refuse' b 'with' e ;; k" := (if b then fail e else k)
  (at level 10, b at level 200, e at level 0, k at level 200) : go_scope.

(** A loop over a list. *)
Fixpoint for_each {D A} (f : A -> M D unit) (l : list A) : M D unit :=
  match l with
  | [] => ret tt
  | x :: l => do! _ := f x in for_each f l
  end.

Section Tree.
Context {D : Type}.

(** [*p] and [*p = e]. *)
Definition node_at (p : ptr) : M D fsEntry := fun w =>
  (match fw_store w !! p with Some e => Ok e | None => Panic end, w).
Definition set_node (p : ptr) (e : fsEntry) : M D unit :=
  modify (fun w => fs_store (<[p := e]> (fw_store w)) w).
(** [p.field = v], the field's setter applied. *)
Definition update (p : ptr) (f : fsEntry -> fsEntry) : M D unit :=
  do! e := node_at p in set_node p (f e).
(** [&fsEntry{...}] *)
Definition new_entry (e : fsEntry) : M D ptr := fun w =>
  (Ok (length (fw_store w)), fs_store (fw_store w ++ [e]) w).
(** [byPath[name]], with its [ok]. *)
Definition by_path (name : bytes) : M D (option ptr) := gets (fun w => fw_byPath w !! name).

(** ** Checks *)

Definition maxNameLen : Z := 255.
Definition maxSymlinkTarget : Z := 4095.

Definition checkPathLen (name : bytes) : res unit :=
  reject maxPathLen <? zlen name with ErrInvalid ;; Ok tt.

Definition checkNameLen (name : bytes) : res unit :=
  reject existsb (fun component => maxNameLen <? zlen component) (components (trim_right (trim_left name)))
    with ErrInvalid ;; Ok tt.

Definition checkSymlinkTarget (target : bytes) : res unit :=
  reject beqb target [] with ErrInvalid ;;
  reject 0 <=? IndexByte target x00 with ErrInvalid ;;
  reject maxSymlinkTarget <? zlen target with ErrInvalid ;; Ok tt.

Definition checkPath (name : bytes) : M D unit :=
  do! closed := gets fw_closed in
  refuse closed with ErrClosed ;;
  do! _ := of_res (checkPathLen name) in
  do! _ := of_res (checkNameLen name) in
  do! e := by_path name in
  refuse negb (is_none e) with ErrExist ;; ret tt.

(** ** Adding *)

Definition addChild (p : ptr) : M D unit :=
  do! e := node_at p in
  do! parent := by_path (Dir (n_path e)) in
  let parent := default root parent in
  do! _ := update p (ns_parent (Some parent)) in
  do! _ := update parent (fun pe => ns_children (n_children pe ++ [p]) pe) in
  modify (fun w => fs_byPath (<[n_path e := p]> (fw_byPath w)) w).

(** A new entry registered under its path. *)
Definition add_node (e : fsEntry) : M D ptr :=
  do! p := new_entry e in do! _ := addChild p in ret p.

(** The ancestors of [d] that are missing, nearest first; an existing one that
    is no directory is an error.  The path gets shorter with every turn. *)
Fixpoint missing_parents (fuel : nat) (d : bytes) (missing : list bytes) : M D (list bytes) :=
  match fuel with
  | O => of_res Panic
  | S fuel =>
      if beqb d [slash] then ret missing else
      do! e := by_path d in
      match e with
      | None => missing_parents fuel (Dir d) (missing ++ [d])
      | Some p =>
          do! e := node_at p in
          do! e := (match n_linkTo e with Some t => node_at t | None => ret e end) in
          refuse negb (n_type e =? StatTypeDir) with ErrNotDirectory ;; ret missing
      end
  end.

Definition dir_mode : Z := Z.lor StatTypeDir 0x1ED. (* 0o755 *)

Definition ensureParent (name : bytes) : M D unit :=
  let dir := Dir name in
  if beqb dir [slash] then ret tt else
  do! missing := missing_parents (S (length dir)) dir [] in
  for_each (fun d => do! _ := add_node (new_node d dir_mode) in ret tt) (rev missing).

(** ** Removing *)

(** The walk of [promoteAlias]: the live aliases of [target] below [d]; the loop
    over a directory's children, [rec] the walk of a subdirectory. *)
Fixpoint walk_children (rec : ptr -> list ptr -> M D (list ptr)) (target : ptr) (l aliases : list ptr)
  : M D (list ptr) :=
  match l with
  | [] => ret aliases
  | c :: l =>
      do! ce := node_at c in
      if n_removed ce then walk_children rec target l aliases else
      let aliases := if bool_decide (n_linkTo ce = Some target) then aliases ++ [c] else aliases in
      do! aliases := (if n_type ce =? StatTypeDir then rec c aliases else ret aliases) in
      walk_children rec target l aliases
  end.

Fixpoint find_aliases (fuel : nat) (target d : ptr) (aliases : list ptr) : M D (list ptr) :=
  match fuel with
  | O => of_res Panic
  | S fuel =>
      do! de := node_at d in walk_children (find_aliases fuel target) target (n_children de) aliases
  end.

Definition path_at (w : Writer D) (p : ptr) : bytes := default [] (n_path <$> fw_store w !! p).
Definition path_le (w : Writer D) (a b : ptr) : Prop := name_le (path_at w a) (path_at w b).

#[export] Instance path_le_dec w a b : Decision (path_le w a b).
Proof. unfold path_le. apply _. Defined.

(** [*heir = *target], the heir keeping its name and its place. *)
Definition inherit (target heir : fsEntry) (links : Z) : fsEntry :=
  ns_extraLinks links (ns_removed false (ns_linkTo None
    (ns_parent (n_parent heir) (ns_path (n_path heir) target)))).

Definition promoteAlias (target : ptr) : M D unit :=
  do! n := gets (fun w => length (fw_store w)) in
  do! aliases := find_aliases (S n) target root [] in
  do! aliases := gets (fun w => merge_sort (path_le w) aliases) in
  match aliases with
  | [] => update target (ns_extraLinks 0)
  | heir :: rest =>
      do! te := node_at target in
      do! _ := update heir (fun he => inherit te he (u32 (zlen aliases - 1))) in
      do! _ := for_each (fun a => update a (ns_linkTo (Some heir))) rest in
      do! _ := update target (fun te => ns_children [] (ns_extraLinks 0 te)) in
      modify (fun w => fs_copyLinks
        ((fun links : gmap (Z * Z) ptr => (fun v => if bool_decide (v = target) then heir else v) <$> links) <$> fw_copyLinks w) w)
  end.

Definition unlinkEntry (p : ptr) : M D unit :=
  do! _ := update p (ns_removed true) in
  do! e := node_at p in
  do! _ := modify (fun w => fs_byPath (delete (n_path e) (fw_byPath w)) w) in
  match n_linkTo e with
  | Some t => update t (fun te => ns_extraLinks (u32 (n_extraLinks te - 1)) te)
  | None => if 0 <? n_extraLinks e then promoteAlias p else ret tt
  end.

Fixpoint removeSubtree (fuel : nat) (p : ptr) : M D unit :=
  match fuel with
  | O => of_res Panic
  | S fuel =>
      do! e := node_at p in
      for_each (fun c =>
        do! ce := node_at c in
        if n_removed ce then ret tt else
        do! _ := unlinkEntry c in
        do! ce := node_at c in
        if n_type ce =? StatTypeDir then removeSubtree fuel c else ret tt) (n_children e)
  end.

(** The depth of the tree is below the number of its entries. *)
Definition remove_below (p : ptr) : M D unit :=
  do! n := gets (fun w => length (fw_store w)) in removeSubtree n p.

Definition removeTree (p : bytes) : M D unit :=
  do! e := by_path (cleanPath p) in
  match e with
  | None => ret tt
  | Some e =>
      do! _ := unlinkEntry e in
      do! ee := node_at e in
      if n_type ee =? StatTypeDir then remove_below e else ret tt
  end.

Definition removeChildren (dir : bytes) : M D unit :=
  do! e := by_path (cleanPath dir) in
  match e with None => ret tt | Some e => remove_below e end.

(** ** Hardlinks and replaced entries *)

Definition addAlias (p : bytes) (target : ptr) : M D unit :=
  do! te := node_at target in
  let target := default target (n_linkTo te) in
  do! existing := by_path p in
  do! skip :=
    (match existing with
     | None => ret false
     | Some x =>
         if bool_decide (x = target) then ret true else
         do! xe := node_at x in
         refuse n_type xe =? StatTypeDir with ErrIsDirectory ;;
         do! _ := unlinkEntry x in ret false
     end) in
  if skip : bool then ret tt else
  do! te := node_at target in
  do! _ := add_node (ns_linkTo (Some target) (new_node p (n_mode te))) in
  update target (fun te => ns_extraLinks (u32 (n_extraLinks te + 1)) te).

(** The entry that now lives at the path of [fe]. *)
Definition placeEntry (fe : fsEntry) : M D ptr :=
  do! existing := by_path (n_path fe) in
  match existing with
  | None => add_node fe
  | Some x =>
      do! xe := node_at x in
      if negb (is_none (n_linkTo xe)) || (0 <? n_extraLinks xe) then
        do! _ := unlinkEntry x in add_node fe
      else
        do! _ := set_node x (ns_children (n_children xe) (ns_parent (n_parent xe) fe)) in ret x
  end.

(** ** Finding *)

Definition lookup_entry (name : bytes) : M D ptr :=
  do! e := by_path (cleanPath name) in
  match e with
  | None => fail ErrNotExist
  | Some p => do! e := node_at p in ret (default p (n_linkTo e))
  end.

(** The loop of [inSubtreeOf], up the parents. *)
Fixpoint inSubtreeOf (fuel : nat) (p d : ptr) : M D bool :=
  match fuel with
  | O => of_res Panic
  | S fuel =>
      if bool_decide (p = d) then ret true else
      do! e := node_at p in
      match n_parent e with None => ret false | Some q => inSubtreeOf fuel q d end
  end.

(** The loop over a directory's live subdirectories. *)
Definition subdirs (children : list ptr) : M D Z :=
  (fix each (l : list ptr) (n : Z) : M D Z :=
     match l with
     | [] => ret n
     | c :: l =>
         do! ce := node_at c in
         each l (if negb (n_removed ce) && (n_type ce =? StatTypeDir) then u32 (n + 1) else n)
     end) children 0.

Definition linkCount (e : fsEntry) : M D Z :=
  if n_nlinkSet e then ret (n_nlink e)
  else if n_type e =? StatTypeDir then do! n := subdirs (n_children e) in ret (u32 (2 + n))
  else ret (u32 (1 + n_extraLinks e)).

End Tree.
