(* ===== verification/Mkfs.v ===== *)
(** * The Writer

    The methods of the [Writer] and of the [File]s it hands out (src/mkfs.go):
    creating, linking, removing and changing entries, and writing file data to
    the data file or the spool.  [Close] is in Build.v, [CopyFrom] in CopyFrom.v. *)

From S2P Require Import Prelude Machine Disk Format Image Inode Path Layout FsTree.

Section Methods.
Context {D : Type} `{DataFile D}.

(** ** Settings *)

Definition minBlockSize : Z := 512.
Definition maxBlockSize : Z := Z.shiftl 1 16.
Definition defaultBlockSize : Z := 4096.

(** [bits.OnesCount] *)
Fixpoint OnesCount (n : nat) (v : Z) : Z :=
  match n with
  | O => 0
  | S n => (if Z.testbit v 0 then 1 else 0) + OnesCount n (Z.shiftr v 1)
  end.

Definition setBlockSize (n : Z) : M D unit :=
  refuse (n <? minBlockSize) || (maxBlockSize <? n) with ErrInvalid ;;
  refuse negb (OnesCount 64 (u64 n) =? 1) with ErrInvalid ;;
  do! cur := gets fw_blockSize in
  if cur =? 0 then modify (fs_blockSize n) else
  refuse negb (cur =? n) with ErrInvalid ;; ret tt.

Definition resolveBlockSize : M D Z :=
  do! _ := modify (fun w => if fw_blockSize w =? 0 then fs_blockSize defaultBlockSize w else w) in
  gets fw_blockSize.

Record createOptions := mkOptions {
  o_buildTime : Z; o_buildTimeNs : Z; o_hasBuildTime : bool; o_blockSize : Z;
  o_dataFile : option D; o_noInlineData : bool }.

(** The constructor: the root, and the slot of the data file. *)
Definition NewWriter (o : createOptions) : Writer D :=
  let w := mkFs false 0 (o_noInlineData o) (o_buildTime o) (o_buildTimeNs o) (o_hasBuildTime o) None
    [new_node [slash] dir_mode] {[ [slash] := root ]} [] false false 0 false None [] None (o_dataFile o) 0 None 0 in
  let w :=
    if negb (o_blockSize o =? 0) then
      match setBlockSize (o_blockSize o) w with
      | (Err e, w) => fs_wErr (Some e) w
      | (_, w) => w
      end
    else w in
  match o_dataFile o with
  | None => w
  | Some d =>
      let '(d, off, err) := df_SeekEnd d in
      let w := fs_dataFile (Some d) (fs_devices (fw_devices w ++ [0]) w) in
      let w := match err with Some e => fs_wErr (Some e) w | None => w end in
      fs_dataOff off w
  end.

(** The sticky error every method starts with. *)
Definition sticky : M D unit :=
  do! e := gets fw_wErr in match e with Some e => fail e | None => ret tt end.

Definition checkNoOpenFile : M D unit :=
  do! f := gets fw_openFile in refuse negb (is_none f) with ErrFileOpen ;; ret tt.

(** ** Files *)

Definition file_at (f : ptr) : M D File := fun w =>
  (match fw_files w !! f with Some x => Ok x | None => Panic end, w).
Definition set_file (f : ptr) (x : File) : M D unit :=
  modify (fun w => fs_files (<[f := x]> (fw_files w)) w).
Definition new_file' (x : File) : M D ptr := fun w =>
  (Ok (length (fw_files w)), fs_files (fw_files w ++ [x]) w).

Definition checkNotOpen (e : ptr) : M D unit :=
  do! f := gets fw_openFile in
  match f with
  | None => ret tt
  | Some f => do! x := file_at f in refuse bool_decide (fl_entry x = e) with ErrFileOpen ;; ret tt
  end.

Definition ensureSpool : M D unit :=
  do! s := gets fw_spool in
  match s with
  | Some _ => ret tt
  | None => do! d := of_res df_CreateTemp in modify (fs_spool (Some d))
  end.

(** A write to the data file, which counts into [dataOff]. *)
Definition write_data_file (p : bytes) : M D (Z * option goerr) :=
  do! d := gets fw_dataFile in
  match d with
  | None => of_res Panic
  | Some d =>
      let '(d, n, err) := df_Write d p in
      do! _ := modify (fun w => fs_dataOff (i64 (fw_dataOff w + n)) (fs_dataFile (Some d) w)) in
      ret (n, err)
  end.

Definition write_spool (p : bytes) : M D (Z * option goerr) :=
  do! d := gets fw_spool in
  match d with
  | None => of_res Panic
  | Some d =>
      let '(d, n, err) := df_Write d p in
      do! _ := modify (fun w => fs_spoolOff (i64 (fw_spoolOff w + n)) (fs_spool (Some d) w)) in
      ret (n, err)
  end.

Definition has_dataFile (w : Writer D) : bool := negb (is_none (fw_dataFile w)).

(** [zeroPad()[:n]] written to the data file. *)
Definition pad_data_file (n : Z) : M D unit :=
  do! bs := resolveBlockSize in
  do! z := of_res (slice (zeros (Z.to_nat bs)) 0 n) in
  do! (_, err) := write_data_file z in
  match err with Some e => fail e | None => ret tt end.

Definition alignDataOff : M D unit :=
  do! df := gets has_dataFile in
  if negb df then ret tt else
  do! bs := resolveBlockSize in
  do! off := gets fw_dataOff in
  let rem := Z.rem off bs in
  if rem =? 0 then ret tt else pad_data_file (bs - rem).

(** [File.Write] *)
Definition File_Write (f : ptr) (p : bytes) : M D (Z * option goerr) :=
  do! x := file_at f in
  if fl_closed x then ret (0, Some ErrClosed) else
  do! df := gets has_dataFile in
  do! (n, err) := (if df : bool then write_data_file p else write_spool p) in
  do! x := file_at f in
  do! _ := set_file f (mkFile' (fl_entry x) (fl_dataStartOff x) (i64 (fl_written x + n)) (fl_closed x)) in
  ret (n, err).

(** An [io.Reader]: what its reads deliver up to the one that reports an
    error, and that error. *)
Record stream := mkStream { sm_reads : list bytes; sm_last : bytes; sm_err : goerr }.

(** [File.ReadFrom]: the loop over the reads. *)
Fixpoint read_from (f : ptr) (reads : list bytes) (last : bytes) (er : goerr) (written : Z)
  : M D (Z * option goerr) :=
  let write (b : bytes) (k : Z -> M D (Z * option goerr)) : M D (Z * option goerr) :=
    if zlen b =? 0 then k written else
    do! (nw, ew) := File_Write f b in
    match ew with Some e => ret (i64 (written + nw), Some e) | None => k (i64 (written + nw)) end in
  match reads with
  | b :: reads => write b (read_from f reads last er)
  | [] => write last (fun written => ret (written, if bool_decide (er = EOF) then None else Some er))
  end.

Definition ReadFrom (f : ptr) (r : stream) : M D (Z * option goerr) :=
  read_from f (sm_reads r) (sm_last r) (sm_err r) 0.

(** The loop that describes a run of blocks as chunks of at most 65535; a hole
    keeps its null address. *)
Fixpoint emit_chunks (fuel : nat) (startBlock totalBlocks deviceID : Z) (hole : bool) : list Chunk :=
  match fuel with
  | O => []
  | S fuel =>
      if totalBlocks <=? 0 then [] else
      let count := Z.min totalBlocks MaxUint16 in
      mkChunk (if hole then NullPhysicalBlock else startBlock) (u16 count) (if hole then 0 else deviceID) ::
      emit_chunks fuel (u64 (startBlock + count)) (totalBlocks - count) deviceID hole
  end.

Definition block_chunks (startBlock totalBlocks deviceID : Z) (hole : bool) : list Chunk :=
  emit_chunks (S (Z.to_nat (totalBlocks / MaxUint16))) startBlock totalBlocks deviceID hole.

Definition closeDataFile (f : ptr) : M D unit :=
  do! x := file_at f in
  if fl_written x =? 0 then ret tt else
  do! bs := resolveBlockSize in
  do! off := gets fw_dataOff in
  let rem := Z.rem off bs in
  do! _ := (if negb (rem =? 0) then pad_data_file (bs - rem) else ret tt) in
  let startBlock := u64 (fl_dataStartOff x) / u64 bs in
  let totalBlocks := u64 (u64 (fl_written x) + u64 bs - 1) / u64 bs in
  update (fl_entry x) (fun e => ns_chunks (n_chunks e ++ block_chunks startBlock totalBlocks 1 false) e).

(** [File.Close] *)
Definition File_Close (f : ptr) : M D unit :=
  do! x := file_at f in
  refuse fl_closed x with ErrClosed ;;
  do! _ := set_file f (mkFile' (fl_entry x) (fl_dataStartOff x) (fl_written x) true) in
  do! _ := update (fl_entry x) (fun e => ns_size (u64 (fl_written x)) (ns_fileClosed true e)) in
  do! o := gets fw_openFile in
  do! _ := (if bool_decide (o = Some f) then modify (fs_openFile None) else ret tt) in
  do! df := gets has_dataFile in
  if df : bool then closeDataFile f else ret tt.

(** ** Modes and owners *)

Definition perm_bits (mode : Z) : Z := andnot (goModeToUnixMode mode) StatTypeMask.

Definition set_perm (mode : Z) (e : fsEntry) : fsEntry := ns_mode (Z.lor (n_type e) (perm_bits mode)) e.

Definition checkOwner (uid gid : Z) : res (Z * Z) :=
  reject (uid <? 0) || (MaxUint32 <? uid) with ErrInvalid ;;
  reject (gid <? 0) || (MaxUint32 <? gid) with ErrInvalid ;;
  Ok (u32 uid, u32 gid).

Definition File_Chmod (f : ptr) (mode : Z) : M D unit :=
  do! x := file_at f in update (fl_entry x) (set_perm mode).

Definition File_Chown (f : ptr) (uid gid : Z) : M D unit :=
  do! x := file_at f in
  do! (u, g) := of_res (checkOwner uid gid) in
  update (fl_entry x) (fun e => ns_gid g (ns_uid u e)).

(** ** Entries *)

Definition reg_mode : Z := Z.lor StatTypeReg 0x1A4. (* 0o644 *)
Definition symlink_mode_bits : Z := Z.lor StatTypeSymlink 0x1FF. (* 0o777 *)

(** [Writer.Create] *)
Definition Create (name : bytes) : M D ptr :=
  do! _ := sticky in
  do! _ := checkNoOpenFile in
  let name := cleanPath name in
  refuse beqb name [slash] with ErrExist ;;
  do! _ := checkPath name in
  do! _ := ensureParent name in
  do! e := add_node (new_node name reg_mode) in
  do! df := gets has_dataFile in
  do! f :=
    (if df : bool then
       do! _ := alignDataOff in
       do! off := gets fw_dataOff in
       do! _ := update e (ns_dataStartOff off) in
       new_file' (mkFile' e off 0 false)
     else
       do! _ := ensureSpool in
       do! off := gets fw_spoolOff in
       do! _ := update e (fun x => ns_dataStartOff off (ns_spoolOff off x)) in
       new_file' (mkFile' e off 0 false)) in
  do! _ := modify (fs_openFile (Some f)) in ret f.

Definition Mkdir (name : bytes) (perm : Z) : M D unit :=
  do! _ := sticky in
  let dirMode := Z.lor StatTypeDir (perm_bits perm) in
  let name := cleanPath name in
  if beqb name [slash] then update root (ns_mode dirMode) else
  do! _ := checkPath name in
  do! _ := ensureParent name in
  do! _ := add_node (new_node name dirMode) in ret tt.

Definition ns_linkTarget (v : bytes) (e : fsEntry) : fsEntry :=
  mkNode (n_path e) (n_mode e) (n_uid e) (n_gid e) (n_atime e) (n_atimeNs e) (n_mtime e) (n_mtimeNs e)
    (n_nlink e) (n_nlinkSet e) (n_size e) (n_rdev e) (n_xattrs e) v (n_chunks e) (n_contiguous e) (n_tail e)
    (n_linkTo e) (n_extraLinks e) (n_parent e) (n_children e) (n_spoolOff e) (n_dataStartOff e) (n_fileClosed e)
    (n_directData e) (n_removed e) (n_metadataOnly e).
Definition ns_rdev (v : Z) (e : fsEntry) : fsEntry :=
  mkNode (n_path e) (n_mode e) (n_uid e) (n_gid e) (n_atime e) (n_atimeNs e) (n_mtime e) (n_mtimeNs e)
    (n_nlink e) (n_nlinkSet e) (n_size e) v (n_xattrs e) (n_linkTarget e) (n_chunks e) (n_contiguous e) (n_tail e)
    (n_linkTo e) (n_extraLinks e) (n_parent e) (n_children e) (n_spoolOff e) (n_dataStartOff e) (n_fileClosed e)
    (n_directData e) (n_removed e) (n_metadataOnly e).

Definition Symlink (oldname newname : bytes) : M D unit :=
  do! _ := sticky in
  let newname := cleanPath newname in
  refuse beqb newname [slash] with ErrExist ;;
  do! _ := of_res (checkSymlinkTarget oldname) in
  do! _ := checkPath newname in
  do! _ := ensureParent newname in
  do! _ := add_node (ns_linkTarget oldname (new_node newname symlink_mode_bits)) in ret tt.

Definition Link (oldname newname : bytes) : M D unit :=
  do! _ := sticky in
  let oldname := cleanPath oldname in
  let newname := cleanPath newname in
  refuse beqb newname [slash] with ErrExist ;;
  do! t := by_path oldname in
  match t with
  | None => fail ErrNotExist
  | Some t =>
      do! te := node_at t in
      let target := default t (n_linkTo te) in
      do! te := node_at target in
      refuse n_type te =? StatTypeDir with ErrIsDirectory ;;
      do! _ := checkPath newname in
      do! _ := ensureParent newname in
      do! te := node_at target in
      do! _ := add_node (ns_linkTo (Some target) (new_node newname (n_mode te))) in
      update target (fun te => ns_extraLinks (u32 (n_extraLinks te + 1)) te)
  end.

Definition Mknod (name : bytes) (mode rdev : Z) : M D unit :=
  do! _ := sticky in
  let name := cleanPath name in
  refuse beqb name [slash] with ErrExist ;;
  do! _ := checkPath name in
  let unixMode := goModeToUnixMode mode in
  let t := Z.land unixMode StatTypeMask in
  do! rdev :=
    (if (t =? StatTypeChrdev) || (t =? StatTypeBlkdev) then ret rdev
     else if (t =? StatTypeFifo) || (t =? StatTypeSock) then ret 0
     else fail ErrInvalid) in
  do! _ := ensureParent name in
  do! _ := add_node (ns_rdev rdev (new_node name unixMode)) in ret tt.

(** ** Metadata *)

Definition Chmod (name : bytes) (mode : Z) : M D unit :=
  do! _ := sticky in
  do! e := lookup_entry name in
  update e (set_perm mode).

Definition Chown (name : bytes) (uid gid : Z) : M D unit :=
  do! _ := sticky in
  do! e := lookup_entry name in
  do! (u, g) := of_res (checkOwner uid gid) in
  update e (fun x => ns_gid g (ns_uid u x)).

(** Times as seconds ([int64]) and nanoseconds. *)
Definition Chtimes (name : bytes) (atime mtime : Z * Z) : M D unit :=
  do! _ := sticky in
  do! e := lookup_entry name in
  update e (fun x => ns_mtimeNs (u32 mtime.2) (ns_mtime (u64 mtime.1)
    (ns_atimeNs (u32 atime.2) (ns_atime (u64 atime.1) x)))).

Definition Setxattr (name attr value : bytes) : M D unit :=
  do! _ := sticky in
  do! _ := of_res (validateXattr attr value) in
  do! e := lookup_entry name in
  update e (fun x => ns_xattrs (<[attr := value]> (n_xattrs x)) x).

Definition SetNlink (name : bytes) (nlink : Z) : M D unit :=
  do! _ := sticky in
  do! e := lookup_entry name in
  update e (fun x => ns_nlinkSet true (ns_nlink nlink x)).

(** ** Removing *)

(** Whether a directory still has a live child. *)
Fixpoint has_live (children : list ptr) : M D bool :=
  match children with
  | [] => ret false
  | c :: l => do! ce := node_at c in if negb (n_removed ce) then ret true else has_live l
  end.

Definition Remove (name : bytes) : M D unit :=
  do! _ := sticky in
  let name := cleanPath name in
  refuse beqb name [slash] with ErrInvalid ;;
  do! p := by_path name in
  match p with
  | None => fail ErrNotExist
  | Some p =>
      do! _ := checkNotOpen p in
      do! e := node_at p in
      do! live := (if n_type e =? StatTypeDir then has_live (n_children e) else ret false) in
      refuse live with ErrDirNotEmpty ;;
      unlinkEntry p
  end.

(** The nearest existing ancestor of a missing path is a directory. *)
Fixpoint check_ancestor (fuel : nat) (dir : bytes) : M D unit :=
  match fuel with
  | O => of_res Panic
  | S fuel =>
      if beqb dir [slash] then ret tt else
      do! anc := by_path dir in
      match anc with
      | Some a =>
          do! ae := node_at a in
          refuse negb (n_type ae =? StatTypeDir) with ErrNotDirectory ;; ret tt
      | None => check_ancestor fuel (Dir dir)
      end
  end.

Definition RemoveAll (name : bytes) : M D unit :=
  do! _ := sticky in
  let name := cleanPath name in
  refuse beqb name [slash] with ErrInvalid ;;
  do! p := by_path name in
  match p with
  | None => check_ancestor (S (length name)) (Dir name)
  | Some p =>
      do! f := gets fw_openFile in
      do! inside :=
        (match f with
         | None => ret false
         | Some f =>
             do! x := file_at f in
             do! n := gets (fun w => length (fw_store w)) in
             inSubtreeOf (S n) (fl_entry x) p
         end) in
      if inside : bool then fail ErrFileOpen else removeTree name
  end.

End Methods.
