(* ===== verification/Build.v ===== *)
(** * Closing the Writer

    [buildErofsTree] and [fsToErofs] of src/mkfs.go, which turn the writer's
    tree into the entries that are laid out; [Close], which plans and writes
    them; and reading an entry back before [Close] ([Stat], [Open]). *)

From S2P Require Import Prelude Machine Disk Format Image Inode Path Xattr Layout Serialize FsTree Mkfs.

(** A reader of its own as the content of a file: copying at most [n] bytes. *)
Definition reader_source (r : ReaderAt) : source :=
  mkSource (fun n =>
    let '(b, err) := ReadAt r 0 n in
    (b, match err with Some e => if bool_decide (e = EOF) then None else Some e | None => None end)).

(** ** The tree to lay out *)

Section Build.
Context {D : Type} `{DataFile D}.
Implicit Types w : Writer D.

Definition node w (p : ptr) : res fsEntry := (node_at p w).1.

(** Where a regular file's bytes come from. *)
Definition data_source w (e : fsEntry) : option source :=
  if is_none (fw_dataFile w) && (zlen (n_chunks e) =? 0) && negb (n_metadataOnly e) &&
     (n_type e =? StatTypeReg) && (0 <? n_size e) then
    match n_directData e with
    | Some d => Some d
    | None =>
        match fw_spool w with
        | Some s => Some (reader_source (NewSectionReader (df_ReaderAt s) (n_spoolOff e) (i64 (n_size e))))
        | None => None
        end
    end
  else None.

Definition fsToErofs w (e : fsEntry) : res erofsEntry :=
  let! nlink := (linkCount e w).1 in
  Ok (mkEntry (n_mode e) (n_uid e) (n_gid e) (n_mtime e) (n_mtimeNs e) nlink (n_size e) (n_rdev e)
        (Base (n_path e)) (n_path e) [] (n_linkTarget e) (n_chunks e) (n_contiguous e) 0 (n_metadataOnly e)
        (n_tail e) 0 (data_source w e) (n_xattrs e) None 0 0 (modeToFileType (n_mode e))
        0 false 0 0 0 0 0).

(** A hardlink's dirent, without an inode of its own. *)
Definition alias_entry (c : fsEntry) : erofsEntry :=
  mkEntry (n_mode c) 0 0 0 0 0 0 0 (Base (n_path c)) (n_path c) [] [] [] false 0 false [] 0 None ∅ None
    0 0 0 0 false 0 0 0 0 0.

Definition set_nlink (v : Z) (e : erofsEntry) : erofsEntry :=
  mkEntry (e_mode e) (e_uid e) (e_gid e) (e_mtime e) (e_mtimeNs e) v (e_size e) (e_rdev e)
    (e_name e) (e_path e) (e_children e) (e_symTarget e) (e_chunks e) (e_contiguous e) (e_chunkBits e)
    (e_metadataOnly e) (e_tail e) (e_tailBlkAddr e) (e_data e) (e_xattrs e) (e_aliasOf e) (e_nid e)
    (e_parentNid e) (e_erofsFileType e) (e_layout e) (e_compact e) (e_xattrSize e) (e_chunkPad e)
    (e_trailingSize e) (e_direntSize e) (e_dataBlkAddr e).

Definition set_aliasOf (v : option ptr) (e : erofsEntry) : erofsEntry :=
  mkEntry (e_mode e) (e_uid e) (e_gid e) (e_mtime e) (e_mtimeNs e) (e_nlink e) (e_size e) (e_rdev e)
    (e_name e) (e_path e) (e_children e) (e_symTarget e) (e_chunks e) (e_contiguous e) (e_chunkBits e)
    (e_metadataOnly e) (e_tail e) (e_tailBlkAddr e) (e_data e) (e_xattrs e) v (e_nid e)
    (e_parentNid e) (e_erofsFileType e) (e_layout e) (e_compact e) (e_xattrSize e) (e_chunkPad e)
    (e_trailingSize e) (e_direntSize e) (e_dataBlkAddr e).

(** The state of the breadth-first walk: the entries built, the queue, the
    aliases to wire and what the hardlinked entries became. *)
Record building := mkBuilding {
  bd_er : store; bd_queue : list (ptr * ptr); bd_aliases : list (ptr * ptr); bd_converted : gmap ptr ptr }.

(** One live child of the directory at hand. *)
Definition convert_child w (b : building) (kids : list ptr) (c : ptr) : res (building * list ptr) :=
  let! ce := node w c in
  if n_removed ce then Ok (b, kids) else
  let er := length (bd_er b) in
  match n_linkTo ce with
  | Some t =>
      Ok (mkBuilding (bd_er b ++ [alias_entry ce]) (bd_queue b) (bd_aliases b ++ [(t, er)]) (bd_converted b),
          kids ++ [er])
  | None =>
      let! ent := fsToErofs w ce in
      Ok (mkBuilding (bd_er b ++ [ent])
            (if n_type ce =? StatTypeDir then bd_queue b ++ [(c, er)] else bd_queue b) (bd_aliases b)
            (if 0 <? n_extraLinks ce then <[c := er]> (bd_converted b) else bd_converted b),
          kids ++ [er])
  end.

Fixpoint convert_children w (b : building) (kids : list ptr) (l : list ptr) : res (building * list ptr) :=
  match l with
  | [] => Ok (b, kids)
  | c :: l => let! (b, kids) := convert_child w b kids c in convert_children w b kids l
  end.

(** One turn of the loop: the directory [cur] and its place [er]. *)
Definition build_dir w (b : building) (cur er : ptr) : res building :=
  let! e := node w cur in
  let! childDirs := (subdirs (n_children e) w).1 in
  let! ent := deref (bd_er b) er in
  let ent := if negb (n_nlinkSet e) && (n_type e =? StatTypeDir) then set_nlink (u32 (2 + childDirs)) ent else ent in
  let! (b, kids) := convert_children w b [] (n_children e) in
  let ent := set_children (sort_children (bd_er b) kids) ent in
  Ok (mkBuilding (<[er := ent]> (bd_er b)) (bd_queue b) (bd_aliases b) (bd_converted b)).

(** The queue holds every directory once: [fuel] is the number of entries. *)
Fixpoint build_loop (fuel : nat) w (b : building) : res building :=
  match bd_queue b, fuel with
  | [], _ => Ok b
  | _, O => Panic
  | (cur, er) :: queue, S fuel =>
      let! b := build_dir w (mkBuilding (bd_er b) queue (bd_aliases b) (bd_converted b)) cur er in
      build_loop fuel w b
  end.

(** The wiring of the aliases: the entries, and the error of an alias whose
    target was not converted. *)
Fixpoint wire_aliases (st : store) (converted : gmap ptr ptr) (aliases : list (ptr * ptr)) (err : option goerr)
  : res (store * option goerr) :=
  match aliases with
  | [] => Ok (st, err)
  | (t, er) :: aliases =>
      match converted !! t with
      | None => wire_aliases st converted aliases (Some ErrNotExist)
      | Some target =>
          let! e := deref st er in
          wire_aliases (<[er := set_aliasOf (Some target) e]> st) converted aliases err
      end
  end.

(** The root is the first entry. *)
Definition buildErofsTree : M D store := fun w =>
  let r :=
    let! re := node w root in
    let! ent := fsToErofs w re in
    let! b := build_loop (length (fw_store w)) w (mkBuilding [ent] [(root, 0%nat)] [] ∅) in
    wire_aliases (bd_er b) (bd_converted b) (bd_aliases b) (fw_wErr w) in
  match r with
  | Ok (st, err) => (Ok st, fs_wErr err w)
  | Err e => (Err e, w)
  | Panic => (Panic, w)
  end.

(** ** [Close] *)

(** The table's first slot is the data file's. *)
Definition fill_device_slot : M D unit :=
  do! df := gets has_dataFile in
  if negb df then ret tt else
  do! bs := gets fw_blockSize in
  do! off := gets fw_dataOff in
  do! devices := gets fw_devices in
  match devices with
  | [] => of_res Panic
  | _ :: devices => modify (fs_devices (u64 (Z.quot (i64 (off + bs - 1)) bs) :: devices))
  end.

(** The image laid out: the writer of it and its entries. *)
Definition lay_out (ew : erofsWriter) (st : store) : res (erofsWriter * store) :=
  let! (ew, st) := planLayout ew st 0 in
  let! st := fixParentNids (S (length st)) st 0 0 in
  Ok (ew, st).

(** [now] is the clock. *)
Definition Close {S} `{SeekSink S} (now : Z) (out : S) : M D S :=
  do! _ := sticky in
  do! closed := gets fw_closed in
  refuse closed with ErrClosed ;;
  do! _ := checkNoOpenFile in
  do! _ := modify (fs_closed true) in
  do! bs := resolveBlockSize in
  do! _ := fill_device_slot in
  do! buildTime := gets (fun w => if fw_hasBuildTime w then fw_buildTime w else u64 now) in
  do! st := buildErofsTree in
  do! _ := sticky in
  do! w := gets (fun w => w) in
  let ew := mkWriter (fw_blockSize w) (fw_noInlineData w) 0 buildTime (fw_buildTimeNs w) (fw_devices w) [] 0 0 0 in
  of_res (let! (ew, st) := lay_out ew st in write ew st out).

(** ** Reading back before [Close] *)

(** [writerFileInfo] of an entry. *)
Definition writer_stat w (e : fsEntry) : res Stat :=
  let! n := (linkCount e w).1 in
  Ok {| st_Mode := EroFSModeToGoFileMode (n_mode e); st_Size := i64 (n_size e); st_Ino := 0; st_Rdev := n_rdev e;
        st_UID := n_uid e; st_GID := n_gid e; st_Nlink := n; st_Mtime := n_mtime e; st_MtimeNs := n_mtimeNs e;
        st_Xattrs := Some (n_xattrs e) |}.

Definition writer_Stat (name : bytes) : M D (bytes * Stat) :=
  do! p := lookup_entry name in
  do! e := node_at p in
  do! st := (fun w => (writer_stat w e, w)) in
  ret (Base (n_path e), st).

(** An [io.SectionReader]: the reader under it, its position and its end. *)
Record section := mkSection { sc_reader : ReaderAt; sc_off : Z; sc_limit : Z }.

(** A regular file's section, none for an empty file or another type. *)
Record readFile := mkReadFile { rf_entry : ptr; rf_reader : option section; rf_closed : bool }.

(** A directory; its children once collected. *)
Record readDir := mkReadDir {
  rdr_entry : ptr; rdr_children : option (list (bytes * ptr)); rdr_offset : Z; rdr_closed : bool }.

Definition section_of (r : ReaderAt) (off n : Z) : section :=
  mkSection r off (if off <=? MaxInt64 - n then off + n else MaxInt64).

Definition writer_Open (name : bytes) : M D (readDir + readFile) :=
  do! p := lookup_entry name in
  do! e := node_at p in
  let t := n_type e in
  if t =? StatTypeDir then ret (inl (mkReadDir p None 0 false))
  else if t =? StatTypeReg then
    refuse negb (n_fileClosed e) with ErrFileOpen ;;
    do! df := gets fw_dataFile in
    do! sp := gets fw_spool in
    let sr :=
      match df, sp with
      | Some d, _ => Some (section_of (df_ReaderAt d) (n_dataStartOff e) (i64 (n_size e)))
      | None, Some s =>
          if 0 <? n_size e then Some (section_of (df_ReaderAt s) (n_dataStartOff e) (i64 (n_size e))) else None
      | None, None => None
      end in
    ret (inr (mkReadFile p sr false))
  else ret (inr (mkReadFile p None false)).

(** [readFile.Read] of [n] bytes. *)
Definition readFile_Read (f : readFile) (n : Z) : bytes * option goerr * readFile :=
  if rf_closed f then ([], Some ErrClosed, f) else
  match rf_reader f with
  | None => ([], Some EOF, f)
  | Some s =>
      if sc_limit s <=? sc_off s then ([], Some EOF, f) else
      let '(b, err) := ReadAt (sc_reader s) (sc_off s) (Z.min n (sc_limit s - sc_off s)) in
      (b, err, mkReadFile (rf_entry f) (Some (mkSection (sc_reader s) (sc_off s + zlen b) (sc_limit s))) false)
  end.

Definition readFile_Close (f : readFile) : res readFile :=
  reject rf_closed f with ErrClosed ;; Ok (mkReadFile (rf_entry f) (rf_reader f) true).

(** The live children, by name. *)
Fixpoint live_children w (l : list ptr) : res (list (bytes * ptr)) :=
  match l with
  | [] => Ok []
  | c :: l =>
      let! ce := node w c in
      let! rest := live_children w l in
      Ok (if n_removed ce then rest else (Base (n_path ce), c) :: rest)
  end.

Definition pair_le (a b : bytes * ptr) : Prop := name_le a.1 b.1.

#[export] Instance pair_le_dec a b : Decision (pair_le a b).
Proof. unfold pair_le. apply _. Defined.

Definition collectChildren w (d : readDir) : res (list (bytes * ptr)) :=
  let! e := node w (rdr_entry d) in
  let! kids := live_children w (n_children e) in
  Ok (merge_sort pair_le kids).

(** [readDir.ReadDir]: the entries with the error, and the directory moved. *)
Definition readDir_ReadDir w (d : readDir) (n : Z) : res (list (bytes * ptr) * option goerr * readDir) :=
  reject rdr_closed d with ErrClosed ;;
  let! kids := (match rdr_children d with Some l => Ok l | None => collectChildren w d end) in
  let at_ off := mkReadDir (rdr_entry d) (Some kids) off false in
  let! remaining := slice kids (rdr_offset d) (zlen kids) in
  if n <=? 0 then Ok (remaining, None, at_ (zlen kids)) else
  if zlen remaining =? 0 then Ok ([], Some EOF, at_ (rdr_offset d)) else
  let n := if zlen remaining <? n then zlen remaining else n in
  let! entries := slice remaining 0 n in
  let off := rdr_offset d + n in
  Ok (entries, if zlen kids <=? off then Some EOF else None, at_ off).

Definition readDir_Close (d : readDir) : res readDir :=
  reject rdr_closed d with ErrClosed ;;
  Ok (mkReadDir (rdr_entry d) (rdr_children d) (rdr_offset d) true).

End Build.
