(* ===== verification/TreeInv.v ===== *)
(** * The invariant of the writer's tree

    What the operations of FsTree.v keep of the tree, the path map and the
    hardlinks: every live entry is registered under its path and hangs off a
    live directory with the parent's path, an alias names a live inode of its
    type, and an inode counts its live aliases.  While a subtree is removed its
    remaining entries are excused ([X]); the invariant proper excuses none. *)

From S2P Require Import Prelude Machine Disk Format Image Inode Path Layout FsTree.

(** ** Paths in normal form *)

(** The absolute path of a list of elements. *)
Definition abs (l : list bytes) : bytes := slash :: join l.

Definition good_elems (l : list bytes) : Prop := Forall (fun x => proper x = true /\ (slash ∉ x)) l.

(** A path the writer's cleaning takes to normal form; a relative path that
    climbs ("../x") is not one. *)
Definition rooted (name : bytes) : Prop := exists l, good_elems l /\ cleanPath name = abs l.

Lemma Split_no_slash x : slash ∉ x -> Split x = ([], x).
Proof.
  induction x as [|c x IH]; [done|]. intros [H1 H2]%not_elem_of_cons. cbn. rewrite IH by done.
  by rewrite bool_decide_false by congruence.
Qed.

Lemma Split_app a x : slash ∉ x -> Split (a ++ slash :: x) = (a ++ [slash], x).
Proof.
  intros Hx. induction a as [|c a IH].
  - cbn. by rewrite Split_no_slash.
  - cbn. rewrite IH. destruct a; done.
Qed.

Lemma join_snoc l x : l <> [] -> join (l ++ [x]) = join l ++ slash :: x.
Proof.
  induction l as [|a l IH]; [done|]. intros _. destruct l as [|b l]; [done|].
  change (join ((a :: b :: l) ++ [x])) with (a ++ slash :: join ((b :: l) ++ [x])). rewrite IH by done.
  change (join (a :: b :: l)) with (a ++ slash :: join (b :: l)). by rewrite <- app_assoc.
Qed.

Lemma abs_snoc l x : abs (l ++ [x]) = (if decide (l = []) then [] else abs l) ++ slash :: x.
Proof.
  unfold abs. case_decide as E; [by subst|]. by rewrite join_snoc.
Qed.

Lemma good_elems_app l l' : good_elems (l ++ l') <-> good_elems l /\ good_elems l'.
Proof. apply Forall_app. Qed.

(** Cleaning keeps a path in normal form. *)
Lemma clean_good l : good_elems l -> clean_elems true l = l.
Proof.
  intros Hl. unfold clean_elems.
  assert (G : forall out, foldl (clean_step true) out l = rev l ++ out).
  { induction Hl as [|x l [Hx _] Hl IH]; intros out; [done|]. cbn [foldl rev].
    assert (E : clean_step true out x = x :: out).
    { unfold clean_step, proper in *. rewrite negb_true_iff, !orb_false_iff in Hx. destruct Hx as [[-> ->] ->]. done. }
    rewrite E, IH, <- app_assoc. done. }
  rewrite G, app_nil_r. apply rev_involutive.
Qed.

Lemma components_slash t : components (slash :: t) = [] :: components t.
Proof. cbn. by rewrite bool_decide_eq_true_2. Qed.

Lemma clean_elems_nil_l rooted l : clean_elems rooted ([] :: l) = clean_elems rooted l.
Proof. done. Qed.

Lemma components_good l : l <> [] -> good_elems l -> components (join l) = l.
Proof. intros Hn Hl. apply components_join; [done|]. apply (Forall_impl _ _ _ Hl). tauto. Qed.

Lemma Clean_abs l : good_elems l -> Clean (abs l) = abs l.
Proof.
  intros Hl. unfold Clean, abs at 1. change (IsAbs (slash :: join l)) with true. cbv iota.
  unfold abs. rewrite components_slash, clean_elems_nil_l. f_equal. f_equal.
  destruct l as [|x l]; [done|]. rewrite components_good by done. by apply clean_good.
Qed.

Lemma foldl_clean_trailing out l : foldl (clean_step true) out (l ++ [[]]) = foldl (clean_step true) out l.
Proof. by rewrite foldl_app. Qed.

(** [path.Dir] of a path in normal form drops its last element. *)
Lemma Dir_abs l x : good_elems (l ++ [x]) -> Dir (abs (l ++ [x])) = abs l.
Proof.
  intros [Hl Hx]%good_elems_app. apply Forall_inv in Hx as [_ Hx]. unfold Dir. rewrite abs_snoc, Split_app by done. cbn [fst].
  case_decide as E; [by subst|].
  unfold Clean. assert (A : IsAbs (abs l ++ [slash]) = true) by done. rewrite A. clear A. unfold abs at 1.
  change ((slash :: join l) ++ [slash]) with (slash :: (join l ++ slash :: [])). rewrite components_slash, clean_elems_nil_l.
  unfold abs. f_equal. f_equal.
  assert (C : forall l, l <> [] -> good_elems l -> components (join l ++ slash :: []) = l ++ [[]]).
  { clear. induction l as [|a l IH]; [done|]. intros _ [[_ Ha] Hl]%Forall_cons. destruct l as [|b l].
    - cbn [join]. by rewrite components_app.
    - change (join (a :: b :: l)) with (a ++ slash :: join (b :: l)). rewrite <- app_assoc. cbn [app].
      rewrite components_app by done. rewrite IH by done. done. }
  rewrite C by done. unfold clean_elems. rewrite foldl_clean_trailing. by apply clean_good.
Qed.

Lemma abs_inj l l' : good_elems l -> good_elems l' -> abs l = abs l' -> l = l'.
Proof.
  intros Hl Hl' E. unfold abs in E. injection E as E.
  destruct l as [|x l], l' as [|y l']; [done|..].
  - apply Forall_inv in Hl' as [P _]. exfalso. destruct l'; cbn in E; [subst y; done|]. destruct y; done.
  - apply Forall_inv in Hl as [P _]. exfalso. destruct l; cbn in E; [subst x; done|]. destruct x; done.
  - rewrite <- (components_good (x :: l)), <- (components_good (y :: l')), E by done. done.
Qed.

Lemma trim_right_good a x : x <> [] -> slash ∉ x -> trim_right (a ++ x) = a ++ x.
Proof.
  intros Hn Hx. unfold trim_right. rewrite rev_app_distr. destruct (rev x) as [|c t] eqn:E.
  - exfalso. apply Hn. by rewrite <- (rev_involutive x), E.
  - cbn [trim_left app]. rewrite bool_decide_false.
    + change (c :: t ++ rev a) with ((c :: t) ++ rev a). rewrite <- E, <- rev_app_distr. apply rev_involutive.
    + intros ->. apply Hx. rewrite <- (rev_involutive x), E. cbn. apply elem_of_app. right. left.
Qed.

(** [path.Base] is the last element. *)
Lemma Base_abs l x : good_elems (l ++ [x]) -> Base (abs (l ++ [x])) = x.
Proof.
  intros [_ Hx]%good_elems_app. apply Forall_inv in Hx as [Hp Hx]. assert (Hn : x <> []) by (by intros ->).
  unfold Base. rewrite abs_snoc. set (d := if decide (l = []) then [] else abs l).
  assert (E : beqb (d ++ slash :: x) [] = false) by (destruct d; done). rewrite E.
  replace (d ++ slash :: x) with ((d ++ [slash]) ++ x) by (by rewrite <- app_assoc).
  rewrite trim_right_good by done. rewrite <- app_assoc. cbn [app]. rewrite Split_app by done. cbn [snd].
  destruct x; done.
Qed.

Lemma abs_root : abs [] = [slash].
Proof. done. Qed.

(** An absolute path always comes to normal form. *)
Lemma rooted_IsAbs p : IsAbs p = true -> rooted p.
Proof.
  intros Ha. unfold rooted, cleanPath.
  assert (R : exists l, good_elems l /\ [slash] = abs l) by (exists []; split; [constructor|done]).
  destruct (beqb p [] || beqb p (bs ".") || beqb p [slash]); [done|].
  unfold Clean. rewrite Ha. destruct (clean_elems_rooted p) as [H1 H2].
  exists (clean_elems true (components p)). split.
  - apply Forall_forall. intros x Hx. rewrite Forall_forall in H1, H2. by split; [apply H1|apply H2].
  - done.
Qed.

Lemma rooted_cleanPath l : good_elems l -> cleanPath (abs l) = abs l.
Proof.
  intros Hl. unfold cleanPath. destruct l as [|x l]; [done|].
  assert (E : forall y, beqb (abs (x :: l)) y = true -> y = abs (x :: l)) by (intros y H; symmetry; by apply beqb_eq).
  assert (E0 : beqb (abs (x :: l)) [] || beqb (abs (x :: l)) (bs ".") || beqb (abs (x :: l)) [slash] = false).
  { rewrite !orb_false_iff. split; [split; [done|]|].
    - destruct (beqb _ (bs ".")) eqn:B; [|done]. apply E in B. discriminate.
    - destruct (beqb _ [slash]) eqn:B; [|done]. apply E in B. rewrite <- abs_root in B.
      apply abs_inj in B; [done|constructor|done]. }
  rewrite E0, Clean_abs by done. done.
Qed.

(** ** The invariant *)

Definition live (e : fsEntry) : Prop := n_removed e = false.
Definition is_dir (e : fsEntry) : Prop := n_type e = StatTypeDir.

(** The live aliases of [t], counted. *)
Definition link_of (e : fsEntry) : bool * option ptr := (n_removed e, n_linkTo e).
Definition links (st : list fsEntry) : list (bool * option ptr) := link_of <$> st.
Definition count (l : list (bool * option ptr)) (t : ptr) : Z :=
  zlen (filter (fun x => x = (false, Some t)) l).

(** The place of a live entry: the directory whose path is its own less an
    element, which is live unless the entry is excused. *)
Definition seated (X : ptr -> Prop) (st : list fsEntry) (p : ptr) (e : fsEntry) : Prop :=
  (exists l x, good_elems (l ++ [x]) /\ n_path e = abs (l ++ [x])) /\
  exists q qe, n_parent e = Some q /\ (q < p)%nat /\ st !! q = Some qe /\ is_dir qe /\
    n_path qe = Dir (n_path e) /\ p ∈ n_children qe /\ (~ X p -> live qe /\ ~ X q).

Record shape (X : ptr -> Prop) (st : list fsEntry) (by_ : gmap bytes ptr) : Prop := {
  iv_root : exists e, st !! root = Some e /\ n_path e = [slash] /\ is_dir e /\ live e /\ n_parent e = None /\ ~ X root;
  iv_by k p : by_ !! k = Some p -> exists e, st !! p = Some e /\ n_path e = k /\ live e;
  iv_live p e : st !! p = Some e -> live e -> by_ !! n_path e = Some p;
  iv_seated p e : st !! p = Some e -> live e -> p <> root -> seated X st p e;
  iv_down q qe c : st !! q = Some qe -> c ∈ n_children qe ->
    exists ce, st !! c = Some ce /\ (live ce -> n_parent ce = Some q);
  iv_nodup q qe : st !! q = Some qe -> NoDup (n_children qe);
  iv_link p e t : st !! p = Some e -> live e -> n_linkTo e = Some t ->
    ~ is_dir e /\ exists te, st !! t = Some te /\ n_type te = n_type e /\ (live te -> n_linkTo te = None) /\
    (~ X p -> live te);
}.

(** An inode counts its live aliases. *)
Definition counted (st : list fsEntry) : Prop :=
  forall t te, st !! t = Some te -> live te -> n_linkTo te = None -> n_extraLinks te = count (links st) t.

Definition inv (X : ptr -> Prop) (st : list fsEntry) (by_ : gmap bytes ptr) : Prop :=
  shape X st by_ /\ counted st.

Abbreviation no_one := (fun _ : ptr => False).

(** The invariant of a writer. *)
Definition tree_ok {D} (w : Writer D) : Prop :=
  inv no_one (fw_store w) (fw_byPath w) /\ zlen (fw_store w) <= MaxUint32.

(** ** Counting *)

Lemma count_app l l' t : count (l ++ l') t = count l t + count l' t.
Proof. unfold count. rewrite filter_app, zlen_app. done. Qed.

Lemma count_cons x l t : count (x :: l) t = (if decide (x = (false, Some t)) then 1 else 0) + count l t.
Proof. unfold count. rewrite filter_cons. case_decide; [by rewrite zlen_cons|lia]. Qed.

Lemma count_insert l i x y t :
  l !! i = Some y ->
  count (<[i := x]> l) t = count l t - (if decide (y = (false, Some t)) then 1 else 0)
                                     + (if decide (x = (false, Some t)) then 1 else 0).
Proof.
  revert i. induction l as [|z l IH]; intros [|i] H; [done..| |].
  - injection H as ->. cbn [insert list_insert]. rewrite !count_cons. lia.
  - change (<[S i := x]> (z :: l)) with (z :: <[i := x]> l). rewrite !count_cons, (IH i H). lia.
Qed.

Lemma count_bounds l t : 0 <= count l t <= zlen l.
Proof.
  unfold count, zlen. pose proof (length_filter (fun x => x = (false, Some t)) l). lia.
Qed.

Lemma count_pos l t i : l !! i = Some (false, Some t) -> 0 < count l t.
Proof.
  intros H. unfold count. destruct (filter _ l) eqn:E; [|rewrite zlen_cons; pose proof (zlen_nonneg l0); lia].
  exfalso. assert (In : (false, Some t) ∈ filter (fun x => x = (false, Some t)) l).
  { apply list_elem_of_filter. split; [done|]. by eapply list_elem_of_lookup_2. }
  rewrite E in In. by apply elem_of_nil in In.
Qed.

Lemma links_insert st p e : links (<[p := e]> st) = <[p := link_of e]> (links st).
Proof. unfold links. apply list_fmap_insert. Qed.

Lemma links_lookup st p e : st !! p = Some e -> links st !! p = Some (link_of e).
Proof. intros H. unfold links. by rewrite list_lookup_fmap, H. Qed.

Lemma count_other t l i x y :
  l !! i = Some y -> y <> (false, Some t) -> x <> (false, Some t) -> count (<[i := x]> l) t = count l t.
Proof. intros. rewrite (count_insert _ _ _ y) by done. rewrite !decide_False by done. lia. Qed.

(** ** Stepping through the monad *)

Lemma bind_ok {D A B} (m : M D A) (k : A -> M D B) w a w1 : m w = (Ok a, w1) -> bind m k w = k a w1.
Proof. intros E. unfold bind. by rewrite E. Qed.

Lemma bind_err {D A B} (m : M D A) (k : A -> M D B) w e w1 : m w = (Err e, w1) -> bind m k w = (Err e, w1).
Proof. intros E. unfold bind. by rewrite E. Qed.

Lemma node_at_eq {D} (w : Writer D) p e : fw_store w !! p = Some e -> node_at p w = (Ok e, w).
Proof. intros H. unfold node_at. by rewrite H. Qed.

Lemma update_eq {D} (w : Writer D) p e f :
  fw_store w !! p = Some e -> update p f w = (Ok tt, fs_store (<[p := f e]> (fw_store w)) w).
Proof. intros H. unfold update. rewrite (bind_ok _ _ w e w) by (by apply node_at_eq). done. Qed.

(** The state with another store and path map. *)
Definition with_tree {D : Type} (st : list fsEntry) (by_ : gmap bytes ptr) (w : Writer D) : Writer D :=
  fs_byPath by_ (fs_store st w).

Lemma with_tree_id {D : Type} (w : Writer D) : with_tree (fw_store w) (fw_byPath w) w = w.
Proof. reflexivity. Qed.

(** ** What the invariant looks at *)

Definition skel (e : fsEntry) := (n_path e, n_type e, n_linkTo e, n_parent e, n_children e, n_removed e).

Lemma skel_fields e e' :
  skel e = skel e' ->
  n_path e = n_path e' /\ n_type e = n_type e' /\ n_linkTo e = n_linkTo e' /\
  n_parent e = n_parent e' /\ n_children e = n_children e' /\ n_removed e = n_removed e'.
Proof. unfold skel. intros H. by simplify_eq. Qed.

Lemma skel_lookup (st st' : list fsEntry) (p : ptr) e :
  skel <$> st = skel <$> st' -> st !! p = Some e -> exists e', st' !! p = Some e' /\ skel e = skel e'.
Proof.
  intros E H. apply (f_equal (.!! p)) in E. rewrite !list_lookup_fmap, H in E.
  destruct (st' !! p) as [e'|]; [|done]. exists e'. split; [done|]. cbn in E. congruence.
Qed.

Lemma skel_links st st' : skel <$> st = skel <$> st' -> links st = links st'.
Proof.
  intros E. unfold links. transitivity ((fun x : bytes * Z * option ptr * option ptr * list ptr * bool =>
    (x.2, x.1.1.1.2)) <$> (skel <$> st)); [by rewrite <- list_fmap_compose|].
  rewrite E. by rewrite <- list_fmap_compose.
Qed.

(** Updates of the other fields keep the shape. *)
Lemma shape_skel X st st' by_ : skel <$> st = skel <$> st' -> shape X st by_ -> shape X st' by_.
Proof.
  intros E [I1 I2 I3 I4 I5 I6 I7].
  pose proof (fun p e => skel_lookup st' st p e (eq_sym E)) as F. pose proof (fun p e => skel_lookup st st' p e E) as B.
  unfold live, is_dir in *. split; unfold live, is_dir in *.
  - destruct I1 as (e & H1 & H2 & H3 & H4 & H5 & H6). destruct (B _ _ H1) as (e' & B1 & B2%skel_fields).
    exists e'. intuition congruence.
  - intros k p H. destruct (I2 k p H) as (e & H1 & H2 & H3). destruct (B _ _ H1) as (e' & B1 & B2%skel_fields).
    exists e'. intuition congruence.
  - intros p e' H Hl. destruct (F _ _ H) as (e & F1 & F2%skel_fields).
    replace (n_path e') with (n_path e) by intuition congruence. apply I3; [done|]. intuition congruence.
  - intros p e' H Hl Hr. destruct (F _ _ H) as (e & F1 & F2%skel_fields).
    destruct (I4 p e F1 ltac:(intuition congruence) Hr) as [(l & x & G1 & G2) (q & qe & Q1 & Q2 & Q3 & Q4 & Q5 & Q6 & Q7)].
    destruct (B _ _ Q3) as (qe' & B1 & B2%skel_fields). split.
    + exists l, x. split; [done|]. intuition congruence.
    + exists q, qe'. destruct F2 as (F2 & _ & _ & F3 & _), B2 as (B2 & B3 & _ & _ & B4 & B5).
      unfold is_dir, live in *. rewrite F3, <- B3, <- B2, F2, <- B4, <- B5. done.
  - intros q qe' c Hq Hc. destruct (F _ _ Hq) as (qe & F1 & F2%skel_fields).
    destruct (I5 q qe c F1) as (ce & C1 & C2); [intuition congruence|].
    destruct (B _ _ C1) as (ce' & B1 & B2%skel_fields). exists ce'. split; [done|].
    destruct B2 as (_ & _ & _ & B2 & _ & B3). by rewrite <- B2, <- B3.
  - intros q qe' Hq. destruct (F _ _ Hq) as (qe & F1 & F2%skel_fields).
    replace (n_children qe') with (n_children qe) by intuition congruence. by eapply I6.
  - intros p e' t H Hl Ht. destruct (F _ _ H) as (e & F1 & F2%skel_fields).
    destruct (I7 p e t F1) as (N & te & T1 & T2 & T3 & T4); [intuition congruence..|].
    destruct (B _ _ T1) as (te' & B1 & B2%skel_fields).
    split; [intuition congruence|]. exists te'.
    destruct F2 as (_ & F2 & _), B2 as (_ & B2 & B3 & _ & _ & B4). by rewrite <- B4, <- B3, <- B2, F2.
Qed.

Lemma skel_insert (st : list fsEntry) (p : ptr) e e' :
  st !! p = Some e -> skel e' = skel e -> skel <$> st = skel <$> <[p := e']> st.
Proof.
  intros H E. rewrite list_fmap_insert, E. symmetry. apply list_insert_id. by rewrite list_lookup_fmap, H.
Qed.

Lemma shape_insert X st by_ p e e' :
  shape X st by_ -> st !! p = Some e -> skel e' = skel e -> shape X (<[p := e']> st) by_.
Proof. intros I H E. by apply (shape_skel X st); [apply (skel_insert _ _ e)|]. Qed.

(** An entry whose links and count stay. *)
Lemma inv_insert X st by_ p e e' :
  inv X st by_ -> st !! p = Some e -> skel e' = skel e -> n_extraLinks e' = n_extraLinks e ->
  inv X (<[p := e']> st) by_.
Proof.
  intros [I Hc] H E EL. split; [by eapply shape_insert|].
  intros t te Ht Hlv Hl. rewrite <- (skel_links st) by (by apply (skel_insert _ _ e)).
  destruct (decide (t = p)) as [->|Hn].
  - rewrite list_lookup_insert_eq in Ht by (by eapply lookup_lt_Some). apply (inj Some) in Ht as <-.
    apply skel_fields in E. rewrite EL. apply (Hc p e); [done|..]; unfold live in *; intuition congruence.
  - rewrite list_lookup_insert_ne in Ht by done. by apply Hc.
Qed.

(** ** Adding an entry *)

(** The store after [addChild] of a new entry under [q]. *)
Definition st_add (st : list fsEntry) (q : ptr) (qe e : fsEntry) : list fsEntry :=
  <[q := ns_children (n_children qe ++ [length st]) qe]> (st ++ [ns_parent (Some q) e]).

Lemma st_add_lookup st q qe e p :
  (q < length st)%nat ->
  st_add st q qe e !! p =
    if decide (p = q) then Some (ns_children (n_children qe ++ [length st]) qe)
    else if decide (p = length st) then Some (ns_parent (Some q) e) else st !! p.
Proof.
  intros Hq. unfold st_add. case_decide as E; [subst; by rewrite list_lookup_insert_eq by (rewrite length_app; cbn; lia)|].
  rewrite list_lookup_insert_ne by done. case_decide as E2.
  - subst. rewrite lookup_app_r by lia. by rewrite Nat.sub_diag.
  - destruct (decide (p < length st)%nat); [by rewrite lookup_app_l|].
    rewrite !lookup_ge_None_2; [done|lia|rewrite length_app; cbn; lia].
Qed.

Lemma add_node_eq {D : Type} (w : Writer D) e q qe :
  fw_byPath w !! Dir (n_path e) = Some q -> fw_store w !! q = Some qe ->
  add_node e w = (Ok (length (fw_store w)),
    with_tree (st_add (fw_store w) q qe e) (<[n_path e := length (fw_store w)]> (fw_byPath w)) w).
Proof.
  intros Hq Hqe. assert (Hlt : (q < length (fw_store w))%nat) by (by eapply lookup_lt_Some).
  unfold add_node, addChild. set (n := length (fw_store w)).
  set (w1 := fs_store (fw_store w ++ [e]) w).
  assert (L1 : fw_store w1 !! n = Some e) by (cbn; rewrite lookup_app_r by (unfold n; lia); unfold n; by rewrite Nat.sub_diag).
  rewrite (bind_ok _ _ w n w1) by reflexivity.
  set (w2 := fs_store (<[n := ns_parent (Some q) e]> (fw_store w1)) w1).
  set (w3 := fs_store (<[q := ns_children (n_children qe ++ [n]) qe]> (fw_store w2)) w2).
  assert (E : with_tree (st_add (fw_store w) q qe e) (<[n_path e := n]> (fw_byPath w)) w =
              fs_byPath (<[n_path e := n]> (fw_byPath w3)) w3).
  { unfold with_tree, st_add, w3, w2, w1. cbn [fw_store fs_store]. 
    replace (<[n := ns_parent (Some q) e]> (fw_store w ++ [e])) with (fw_store w ++ [ns_parent (Some q) e]); [done|].
    rewrite insert_app_r_alt by (unfold n; lia). unfold n. by rewrite Nat.sub_diag. }
  rewrite E. rewrite (bind_ok _ _ w1 tt (fs_byPath (<[n_path e := n]> (fw_byPath w3)) w3)); [done|].
  rewrite (bind_ok _ _ w1 e w1) by (by apply node_at_eq).
  rewrite (bind_ok _ _ w1 (Some q) w1) by (unfold by_path, gets; cbn; by rewrite Hq).
  cbn [default]. rewrite (bind_ok _ _ w1 tt w2) by (by apply update_eq).
  rewrite (bind_ok _ _ w2 tt w3); [done|]. apply (update_eq w2 q qe). cbn.
  rewrite list_lookup_insert_ne by (unfold n; lia). by rewrite lookup_app_l.
Qed.

Lemma links_add st q qe e :
  st !! q = Some qe -> links (st_add st q qe e) = links st ++ [link_of e].
Proof.
  intros Hq. unfold st_add. rewrite links_insert. unfold links. rewrite fmap_app. cbn.
  rewrite insert_app_l by (rewrite length_fmap; by eapply lookup_lt_Some).
  f_equal. apply list_insert_id. by rewrite list_lookup_fmap, Hq.
Qed.

Lemma shape_add X st by_ q qe e :
  shape X st by_ -> by_ !! Dir (n_path e) = Some q -> st !! q = Some qe -> is_dir qe -> by_ !! n_path e = None ->
  (exists l x, good_elems (l ++ [x]) /\ n_path e = abs (l ++ [x])) -> live e -> n_children e = [] ->
  ~ X q -> ~ X (length st) ->
  (forall t, n_linkTo e = Some t -> ~ is_dir e /\ exists te, st !! t = Some te /\ n_type te = n_type e /\
     live te /\ n_linkTo te = None) ->
  shape X (st_add st q qe e) (<[n_path e := length st]> by_).
Proof.
  intros [I1 I2 I3 I4 I5 I6 I7] Hq Hqe Hd Hf Hp He Hc HX HX' Hl.
  assert (Hlt : (q < length st)%nat) by (by eapply lookup_lt_Some).
  destruct (I2 _ _ Hq) as (qe' & Q1 & Q2 & Q3). rewrite Hqe in Q1. apply (inj Some) in Q1 as <-.
  pose proof (fun p => st_add_lookup st q qe e p Hlt) as LK.
  (* an old entry, seen in the new store *)
  assert (OLD : forall p x, st !! p = Some x -> exists x', st_add st q qe e !! p = Some x' /\
    n_path x' = n_path x /\ n_type x' = n_type x /\ n_linkTo x' = n_linkTo x /\ n_parent x' = n_parent x /\
    n_removed x' = n_removed x /\ (forall c, c ∈ n_children x -> c ∈ n_children x')).
  { intros p x H. rewrite LK. assert (p < length st)%nat by (by eapply lookup_lt_Some). case_decide as E.
    - subst. rewrite Hqe in H. apply (inj Some) in H as <-. eexists. split; [done|]. repeat split.
      intros c Hc'. cbn. apply elem_of_app. by left.
    - rewrite decide_False by lia. exists x. by repeat split. }
  assert (NEW : forall p x', st_add st q qe e !! p = Some x' -> p <> length st -> exists x, st !! p = Some x /\
    n_path x' = n_path x /\ n_type x' = n_type x /\ n_linkTo x' = n_linkTo x /\ n_parent x' = n_parent x /\
    n_removed x' = n_removed x /\ n_children x' = (if decide (p = q) then n_children x ++ [length st] else n_children x)).
  { intros p x' H Hn. rewrite LK in H. case_decide as E.
    - subst. apply (inj Some) in H as <-. exists qe. by repeat split.
    - rewrite decide_False in H by done. exists x'. by repeat split. }
  assert (LN : st_add st q qe e !! length st = Some (ns_parent (Some q) e)).
  { rewrite LK. rewrite decide_False by lia. by rewrite decide_True. }
  unfold live, is_dir in *. split.
  - destruct I1 as (r & R1 & R2 & R3 & R4 & R5 & R6). destruct (OLD _ _ R1) as (r' & O1 & O2 & O3 & O4 & O5 & O6 & O7).
    exists r'. unfold live, is_dir. by rewrite O2, O3, O5, O6.
  - intros k p H. destruct (decide (k = n_path e)) as [->|Hk].
    + rewrite lookup_insert_eq in H. apply (inj Some) in H as <-. eexists. by split.
    + rewrite lookup_insert_ne in H by done. destruct (I2 k p H) as (x & X1 & X2 & X3).
      destruct (OLD _ _ X1) as (x' & O1 & O2 & _ & _ & _ & O6 & _). exists x'. unfold live in *. by rewrite O2, O6.
  - intros p x' H Hlv. destruct (decide (p = length st)) as [->|Hn].
    + rewrite LN in H. apply (inj Some) in H as <-. cbn. apply lookup_insert_eq.
    + destruct (NEW _ _ H Hn) as (x & N1 & N2 & _ & _ & _ & N6 & _). rewrite N2. unfold live in *.
      pose proof (I3 p x N1 ltac:(congruence)) as B. rewrite lookup_insert_ne; [done|]. intros E. rewrite <- E, Hf in B. done.
  - intros p x' H Hlv Hr. destruct (decide (p = length st)) as [->|Hn].
    + rewrite LN in H. apply (inj Some) in H as <-. split; [exact Hp|].
      destruct (OLD _ _ Hqe) as (qe' & O1 & O2 & O3 & _ & _ & O6 & _). exists q, qe'. cbn.
      split; [done|]. split; [done|]. split; [done|]. unfold is_dir, live. rewrite O3, O2, O6. split; [done|]. split; [done|].
      split; [|done]. rewrite LK, decide_True in O1 by done. apply (inj Some) in O1 as <-. cbn. apply elem_of_app. right. left.
    + destruct (NEW _ _ H Hn) as (x & N1 & N2 & N3 & N4 & N5 & N6 & N7). unfold live in *.
      destruct (I4 p x N1 ltac:(congruence) Hr) as [G (p2 & pe & P1 & P2 & P3 & P4 & P5 & P6 & P7)].
      destruct (OLD _ _ P3) as (pe' & O1 & O2 & O3 & _ & _ & O6 & O7).
      split; [by rewrite N2|]. exists p2, pe'. unfold is_dir, live in *. rewrite N5, O3, O2, O6, N2. auto 10.
  - intros p x' c H Hin. destruct (decide (p = length st)) as [->|Hn].
    + rewrite LN in H. apply (inj Some) in H as <-. cbn in Hin. rewrite Hc in Hin. by apply elem_of_nil in Hin.
    + destruct (NEW _ _ H Hn) as (x & N1 & _ & _ & _ & _ & _ & N7). rewrite N7 in Hin.
      assert (Hcase : c ∈ n_children x \/ p = q /\ c = length st).
      { case_decide; [|by left]. apply elem_of_app in Hin as [Hin|Hin%list_elem_of_singleton]; auto. }
      destruct Hcase as [Hin'|[-> ->]].
      * destruct (I5 p x c N1 Hin') as (ce & C1 & C2). destruct (OLD _ _ C1) as (ce' & O1 & _ & _ & _ & O5 & O6 & _).
        exists ce'. split; [done|]. unfold live in *. by rewrite O5, O6.
      * eexists. split; [exact LN|]. done.
  - intros p x' H. destruct (decide (p = length st)) as [->|Hn].
    + rewrite LN in H. apply (inj Some) in H as <-. cbn. rewrite Hc. constructor.
    + destruct (NEW _ _ H Hn) as (x & N1 & _ & _ & _ & _ & _ & N7). rewrite N7. case_decide; [|by eapply I6].
      apply NoDup_app. split; [by eapply I6|]. split; [|apply NoDup_singleton].
      intros c Hin Hc'%list_elem_of_singleton. subst c. destruct (I5 p x _ N1 Hin) as (ce & C1 & _).
      apply lookup_lt_Some in C1. lia.
  - intros p x' t H Hlv Hlt'. destruct (decide (p = length st)) as [->|Hn].
    + rewrite LN in H. apply (inj Some) in H as <-. cbn in Hlt'. destruct (Hl t Hlt') as (L1 & te & L2 & L3 & L4 & L5).
      split; [exact L1|]. destruct (OLD _ _ L2) as (te' & O1 & _ & O3 & O4 & _ & O6 & _). exists te'. unfold live in *.
      rewrite O3, O4, O6. cbn. auto.
    + destruct (NEW _ _ H Hn) as (x & N1 & _ & N3 & N4 & _ & N6 & _). unfold live in *.
      destruct (I7 p x t N1 ltac:(congruence) ltac:(congruence)) as (L1 & te & L2 & L3 & L4 & L5).
      unfold is_dir in *. rewrite N3. split; [done|]. destruct (OLD _ _ L2) as (te' & O1 & _ & O3 & O4 & _ & O6 & _).
      exists te'. unfold live in *. rewrite O3, O4, O6. auto.
Qed.

Lemma count_fresh X st by_ : shape X st by_ -> count (links st) (length st) = 0.
Proof.
  intros I. unfold count. destruct (filter _ (links st)) as [|x l] eqn:E; [done|]. exfalso.
  assert (H : x ∈ filter (fun x => x = (false, Some (length st))) (links st)) by (rewrite E; left).
  apply list_elem_of_filter in H as [-> H]. apply list_elem_of_fmap in H as (e & H1 & H2).
  apply list_elem_of_lookup in H2 as [p Hp]. unfold link_of in H1. injection H1 as H1 H2.
  destruct (iv_link _ _ _ I p e (length st) Hp (eq_sym H1) (eq_sym H2)) as (_ & te & T & _).
  apply lookup_lt_Some in T. lia.
Qed.

Lemma counted_add X st by_ q qe e :
  shape X st by_ -> counted st -> st !! q = Some qe -> n_linkTo e = None -> n_extraLinks e = 0 ->
  counted (st_add st q qe e).
Proof.
  intros I Hc Hq Hl He t te H Hlv Ht. rewrite links_add, count_app, count_cons by done.
  rewrite decide_False by (unfold link_of; congruence). change (count [] t) with 0.
  rewrite st_add_lookup in H by (by eapply lookup_lt_Some). case_decide as E.
  - subst t. apply (inj Some) in H as <-. cbn in *. rewrite (Hc q qe) by done. lia.
  - case_decide as E2.
    + subst t. apply (inj Some) in H as <-. cbn. rewrite He, (count_fresh X st by_) by done. done.
    + rewrite (Hc t te) by done. lia.
Qed.

(** A new entry without links. *)
Lemma inv_add X st by_ q qe e :
  inv X st by_ -> by_ !! Dir (n_path e) = Some q -> st !! q = Some qe -> is_dir qe -> by_ !! n_path e = None ->
  (exists l x, good_elems (l ++ [x]) /\ n_path e = abs (l ++ [x])) -> live e -> n_children e = [] ->
  ~ X q -> ~ X (length st) -> n_linkTo e = None -> n_extraLinks e = 0 ->
  inv X (st_add st q qe e) (<[n_path e := length st]> by_).
Proof.
  intros [I1 I2]. intros. split; [|by eapply counted_add]. apply shape_add; try done. congruence.
Qed.


(** A new alias of [t], which counts it. *)
Lemma inv_add_alias X st by_ q qe e t te te' :
  inv X st by_ -> by_ !! Dir (n_path e) = Some q -> st !! q = Some qe -> is_dir qe -> by_ !! n_path e = None ->
  (exists l x, good_elems (l ++ [x]) /\ n_path e = abs (l ++ [x])) -> live e -> n_children e = [] ->
  ~ X q -> ~ X (length st) -> n_linkTo e = Some t -> ~ is_dir e ->
  st !! t = Some te -> n_type te = n_type e -> live te -> n_linkTo te = None -> zlen st < MaxUint32 ->
  te' = ns_extraLinks (u32 (n_extraLinks te + 1)) te ->
  inv X (<[t := te']> (st_add st q qe e)) (<[n_path e := length st]> by_).
Proof.
  intros [I Hc] Hq Hqe Hd Hf Hp He Hch HX HX' Hl Hnd Ht Hty Hlt Hln Hsm ->.
  assert (Hqt : t <> q) by (intros ->; rewrite Hqe in Ht; apply (inj Some) in Ht as ->; unfold is_dir in *; congruence).
  assert (Hts : (t < length st)%nat) by (by eapply lookup_lt_Some).
  assert (Ht' : st_add st q qe e !! t = Some te).
  { rewrite st_add_lookup by (by eapply lookup_lt_Some). rewrite decide_False by done. by rewrite decide_False by lia. }
  split.
  - apply (shape_insert _ _ _ _ te); [|done|done].
    apply shape_add; try done. intros t' Ht2. rewrite Hl in Ht2. apply (inj Some) in Ht2 as <-. split; [done|]. by exists te.
  - intros t2 te2 H2 Hlv2 Hln2. rewrite links_insert.
    rewrite (list_insert_id (links (st_add st q qe e))) by (by rewrite (links_lookup _ _ te)).
    rewrite links_add, count_app, count_cons by done. change (count [] t2) with 0.
    assert (CB : 0 <= count (links st) t <= zlen st).
    { replace (zlen st) with (zlen (links st)) by (unfold zlen, links; by rewrite length_fmap). apply count_bounds. }
    unfold MaxUint32 in *.
    destruct (decide (t2 = t)) as [->|Hn].
    + rewrite list_lookup_insert_eq in H2 by (by eapply lookup_lt_Some). apply (inj Some) in H2 as <-. cbn.
      rewrite decide_True by (unfold link_of, live in *; congruence). rewrite (Hc t te) by done.
      unfold u32. rewrite Z.mod_small by lia. lia.
    + rewrite list_lookup_insert_ne in H2 by done. rewrite decide_False by (unfold link_of; congruence).
      rewrite st_add_lookup in H2 by (by eapply lookup_lt_Some). case_decide as E.
      * subst t2. apply (inj Some) in H2 as <-. cbn in *. rewrite (Hc q qe) by done. lia.
      * case_decide as E2; [subst; apply (inj Some) in H2 as <-; cbn in Hln2; congruence|]. rewrite (Hc t2 te2) by done. lia.
Qed.

(** ** Walking the tree *)

(** The live entries below [p], reached through live ones. *)
Inductive under (st : list fsEntry) (p : ptr) : ptr -> Prop :=
| under_child c ce : st !! c = Some ce -> live ce -> n_parent ce = Some p -> under st p c
| under_step c ce q : st !! c = Some ce -> live ce -> n_parent ce = Some q -> under st p q -> under st p c.

(** What the walks need of the store, whoever is excused. *)
Record walkable (st : list fsEntry) : Prop := {
  wk_up c ce q : st !! c = Some ce -> live ce -> n_parent ce = Some q ->
    exists qe, st !! q = Some qe /\ is_dir qe /\ c ∈ n_children qe /\ (q < c)%nat;
  wk_down q qe c : st !! q = Some qe -> c ∈ n_children qe ->
    exists ce, st !! c = Some ce /\ (live ce -> n_parent ce = Some q);
  wk_nodup q qe : st !! q = Some qe -> NoDup (n_children qe);
}.

Lemma shape_walkable X st by_ : shape X st by_ -> walkable st.
Proof.
  intros I. split; [|apply (iv_down _ _ _ I)|apply (iv_nodup _ _ _ I)].
  intros c ce q H Hl Hq. destruct (decide (c = root)) as [->|Hn].
  - destruct (iv_root _ _ _ I) as (r & R1 & _ & _ & _ & R2 & _). rewrite H in R1. apply (inj Some) in R1 as ->. congruence.
  - destruct (iv_seated _ _ _ I c ce H Hl Hn) as [_ (q' & qe & Q1 & Q2 & Q3 & Q4 & _ & Q5 & _)].
    assert (q' = q) as -> by congruence. by exists qe.
Qed.

Lemma under_live st p c : under st p c -> exists ce, st !! c = Some ce /\ live ce.
Proof. intros []; eauto. Qed.

Lemma under_lt st p c : walkable st -> under st p c -> (p < c)%nat.
Proof.
  intros W U. induction U as [c ce H Hl Hp|c ce q H Hl Hp U IH].
  - by destruct (wk_up st W c ce p H Hl Hp) as (_ & _ & _ & _ & ?).
  - destruct (wk_up st W c ce q H Hl Hp) as (_ & _ & _ & _ & ?). lia.
Qed.

Lemma under_dir st p c : walkable st -> under st p c -> exists pe, st !! p = Some pe /\ is_dir pe.
Proof.
  intros W U. induction U as [c ce H Hl Hp|]; [|done].
  destruct (wk_up st W c ce p H Hl Hp) as (pe & ? & ? & _). by exists pe.
Qed.

(** Below [p] is below one of its children, or one of them. *)
Lemma under_children st p pe x :
  walkable st -> st !! p = Some pe ->
  under st p x <-> exists c ce, c ∈ n_children pe /\ st !! c = Some ce /\ live ce /\ (x = c \/ under st c x).
Proof.
  intros W Hp. split.
  - intros U. induction U as [c ce H Hl Hq|c ce q H Hl Hq U (k & ke & K1 & K2 & K3 & K4)].
    + destruct (wk_up st W c ce p H Hl Hq) as (pe' & P1 & _ & P2 & _). rewrite Hp in P1. apply (inj Some) in P1 as <-.
      exists c, ce. auto.
    + exists k, ke. split; [done|]. split; [done|]. split; [done|]. right.
      destruct K4 as [-> | K4]; [by eapply under_child|by eapply under_step].
  - intros (c & ce & C1 & C2 & C3 & C4). destruct (wk_down st W p pe c Hp C1) as (ce' & C5 & C6).
    rewrite C2 in C5. apply (inj Some) in C5 as <-.
    assert (B : under st p c) by (by eapply under_child; eauto).
    destruct C4 as [-> | U]; [done|]. induction U; eauto using under_step.
Qed.

(** The subtrees of two children are apart. *)
Lemma under_apart st d c c' ce ce' x :
  walkable st -> st !! c = Some ce -> live ce -> n_parent ce = Some d ->
  st !! c' = Some ce' -> live ce' -> n_parent ce' = Some d ->
  (x = c \/ under st c x) -> (x = c' \/ under st c' x) -> c = c'.
Proof.
  intros W H Hl Hp H' Hl' Hp' U U'. destruct (wk_up st W _ _ _ H Hl Hp) as (_ & _ & _ & _ & L).
  destruct (wk_up st W _ _ _ H' Hl' Hp') as (_ & _ & _ & _ & L').
  (* the parent of an entry below [k] is [k] or below it *)
  assert (UP : forall k y ye q, st !! y = Some ye -> n_parent ye = Some q -> under st k y -> q = k \/ under st k q).
  { intros k y ye q Hy Hq U0. inversion U0 as [z ze Z1 Z2 Z3|z ze q' Z1 Z2 Z3 Z4]; subst z; rewrite Hy in Z1; apply (inj Some) in Z1 as <-;
      rewrite Hq in Z3; apply (inj Some) in Z3 as ->; auto. }
  assert (NO : forall k, (d < k)%nat -> ~ (d = k \/ under st k d)).
  { intros k Hk [?|U2%under_lt]; [lia|lia|done]. }
  destruct U as [-> | U].
  { destruct U' as [?|U']; [done|]. destruct (NO c' L' (UP c' c ce d H Hp U')). }
  induction U as [y ye Y1 Y2 Y3|y ye q Y1 Y2 Y3 U IH].
  - destruct U' as [-> | U'].
    + rewrite H' in Y1. apply (inj Some) in Y1 as <-. assert (d = c) by congruence. lia.
    + destruct (UP c' y ye c Y1 Y3 U') as [?|U2]; [done|]. destruct (NO c' L' (UP c' c ce d H Hp U2)).
  - destruct U' as [-> | U'].
    + rewrite H' in Y1. apply (inj Some) in Y1 as <-. assert (d = q) as <- by congruence. destruct (NO c L (or_intror U)).
    + apply IH. exact (UP c' y ye q Y1 Y3 U').
Qed.

(** The walk finds the live aliases below [d], each once. *)
Definition aliases_below (st : list fsEntry) (t : ptr) (P : ptr -> Prop) (l : list ptr) : Prop :=
  NoDup l /\ forall x, x ∈ l <-> P x /\ exists xe, st !! x = Some xe /\ n_linkTo xe = Some t.

Lemma walk_children_ok {D : Type} (w : Writer D) t d de (rec : ptr -> list ptr -> M D (list ptr)) cs acc :
  let st := fw_store w in
  walkable st -> st !! d = Some de -> NoDup cs -> (forall c, c ∈ cs -> c ∈ n_children de) ->
  (forall c acc, c ∈ cs -> (exists ce, st !! c = Some ce /\ live ce) ->
     exists l, rec c acc w = (Ok (acc ++ l), w) /\ aliases_below st t (under st c) l) ->
  exists l, walk_children rec t cs acc w = (Ok (acc ++ l), w) /\
    aliases_below st t (fun x => exists c ce, c ∈ cs /\ st !! c = Some ce /\ live ce /\ (x = c \/ under st c x)) l.
Proof.
  intros st W Hd. revert acc. induction cs as [|c cs IH]; intros acc Hnd Hsub Hrec.
  { exists []. rewrite app_nil_r. split; [done|]. split; [constructor|]. intros x. split; [by intros ?%elem_of_nil|].
    intros [(c & ce & Hc & _) _]. by apply elem_of_nil in Hc. }
  apply NoDup_cons in Hnd as [Hc Hnd].
  destruct (wk_down st W d de c Hd) as (ce & C1 & C2); [apply Hsub; left|].
  assert (IHs : forall acc, exists l, walk_children rec t cs acc w = (Ok (acc ++ l), w) /\
    aliases_below st t (fun x => exists c ce, c ∈ cs /\ st !! c = Some ce /\ live ce /\ (x = c \/ under st c x)) l).
  { intros acc'. apply IH; [done|intros; apply Hsub; by right|]. intros c' acc'' Hc'. apply Hrec. by right. }
  cbn [walk_children]. rewrite (bind_ok _ _ w ce w) by (by apply node_at_eq).
  destruct (n_removed ce) eqn:Hr.
  { destruct (IHs acc) as (l & L1 & L2 & L3). exists l. split; [done|]. split; [done|]. intros x. rewrite L3.
    split; intros [(k & ke & K1 & K2 & K3 & K4) Hx]; (split; [|done]); exists k, ke; [auto using list_elem_of_further|].
    apply elem_of_cons in K1 as [-> | K1]; [|by auto]. rewrite C1 in K2. apply (inj Some) in K2 as <-.
    unfold live in K3. congruence. }
  specialize (C2 Hr). set (here := if bool_decide (n_linkTo ce = Some t) then [c] else []).
  assert (E1 : (if bool_decide (n_linkTo ce = Some t) then acc ++ [c] else acc) = acc ++ here).
  { unfold here. destruct (bool_decide _); [done|by rewrite app_nil_r]. }
  assert (R : exists l, (if n_type ce =? StatTypeDir then rec c (acc ++ here) else ret (acc ++ here)) w =
    (Ok ((acc ++ here) ++ l), w) /\ aliases_below st t (under st c) l).
  { destruct (Z.eqb_spec (n_type ce) StatTypeDir) as [Hd2|Hd2]; [apply Hrec; [left|by exists ce]|].
    exists []. rewrite app_nil_r. split; [done|]. split; [constructor|]. intros x. split; [by intros ?%elem_of_nil|].
    intros [U _]. apply under_dir in U as (pe & U1 & U2); [|done]. rewrite C1 in U1. by apply (inj Some) in U1 as <-. }
  destruct R as (l1 & R1 & R2 & R3). rewrite E1. rewrite (bind_ok _ _ w _ w R1).
  destruct (IHs ((acc ++ here) ++ l1)) as (l2 & L1 & L2 & L3). exists (here ++ l1 ++ l2).
  split; [by rewrite L1, !app_assoc|].
  assert (Hh : forall x, x ∈ here <-> x = c /\ n_linkTo ce = Some t).
  { intros x. unfold here. case_bool_decide; [rewrite list_elem_of_singleton; tauto|]. rewrite elem_of_nil. tauto. }
  split.
  - apply NoDup_app. split; [unfold here; case_bool_decide; [apply NoDup_singleton|constructor]|]. split.
    + intros x [-> _]%Hh [H1|H2]%elem_of_app.
      * apply R3 in H1 as [U%under_lt _]; [lia|done].
      * apply L3 in H2 as [(k & ke & K1 & K2 & K3 & K4) _]. apply Hc.
        destruct (wk_down st W d de k Hd) as (ke' & K5 & K6); [apply Hsub; by right|]. rewrite K2 in K5. apply (inj Some) in K5 as <-.
        by rewrite (under_apart st d c k ce ke c W C1 Hr C2 K2 K3 (K6 K3) (or_introl eq_refl) K4).
    + apply NoDup_app. split; [done|]. split; [|done]. intros x H1 H2.
      apply R3 in H1 as [U _]. apply L3 in H2 as [(k & ke & K1 & K2 & K3 & K4) _]. apply Hc.
      destruct (wk_down st W d de k Hd) as (ke' & K5 & K6); [apply Hsub; by right|]. rewrite K2 in K5. apply (inj Some) in K5 as <-.
      by rewrite (under_apart st d c k ce ke x W C1 Hr C2 K2 K3 (K6 K3) (or_intror U) K4).
  - intros x. rewrite !elem_of_app, Hh, R3, L3. split.
    + intros [[-> Ht]|[[U Hx]|[(k & ke & K1 & K2 & K3 & K4) Hx]]].
      * split; [|by exists ce]. exists c, ce. split; [left|auto].
      * split; [|done]. exists c, ce. split; [left|auto].
      * split; [|done]. exists k, ke. split; [by right|auto].
    + intros [(k & ke & K1 & K2 & K3 & K4) (xe & X1 & X2)]. apply elem_of_cons in K1 as [-> | K1].
      * destruct K4 as [-> | K4]; [left|right; left; eauto]. rewrite C1 in X1. by apply (inj Some) in X1 as ->.
      * right. right. split; [|by exists xe]. exists k, ke. auto.
Qed.

Lemma find_aliases_ok {D : Type} (w : Writer D) t :
  let st := fw_store w in
  walkable st -> forall fuel d acc, (d < length st)%nat -> (length st - d <= fuel)%nat ->
  exists l, find_aliases fuel t d acc w = (Ok (acc ++ l), w) /\ aliases_below st t (under st d) l.
Proof.
  intros st W. induction fuel as [|fuel IH]; intros d acc Hd Hf; [lia|].
  apply lookup_lt_is_Some in Hd as [de Hd]. cbn [find_aliases]. rewrite (bind_ok _ _ w de w) by (by apply node_at_eq).
  destruct (walk_children_ok w t d de (find_aliases fuel t) (n_children de) acc) as (l & L1 & L2 & L3); [done|done|by eapply wk_nodup|done|..].
  - intros c acc' Hc (ce & C1 & C2). fold st in C1. destruct (wk_down st W d de c Hd Hc) as (ce' & C3 & C4).
    rewrite C1 in C3. apply (inj Some) in C3 as <-. destruct (wk_up st W c ce d C1 C2 (C4 C2)) as (_ & _ & _ & _ & ?).
    pose proof (lookup_lt_Some _ _ _ C1). apply IH; lia.
  - exists l. split; [done|]. split; [done|]. intros x. rewrite L3, (under_children st d de x) by done. done.
Qed.
