(* ===== verification/TreeRemove.v ===== *)
(** * Removing names keeps the writer's tree

    [unlinkEntry], with the promotion of an alias when the removed name carried
    the inode, and the removal of a subtree: what they keep of the invariant of
    TreeInv.v, and exactly which entries they remove. *)

From S2P Require Import Prelude Machine Disk Format Image Inode Path Layout FsTree TreeInv.

(** ** What a removal changes *)

(** Names, types and places stay. *)
Definition same_place (e e' : fsEntry) : Prop :=
  n_path e' = n_path e /\ n_type e' = n_type e /\ n_parent e' = n_parent e /\
  (is_dir e -> n_children e' = n_children e).

(** From [st] to [st'] exactly the entries of [S] die. *)
Definition dies (S : ptr -> Prop) (st st' : list fsEntry) : Prop :=
  length st' = length st /\
  forall x e, st !! x = Some e -> exists e', st' !! x = Some e' /\ same_place e e' /\ (live e' <-> live e /\ ~ S x).

Lemma dies_back S st st' x e' :
  dies S st st' -> st' !! x = Some e' -> exists e, st !! x = Some e /\ same_place e e' /\ (live e' <-> live e /\ ~ S x).
Proof.
  intros [L F] H. pose proof (lookup_lt_Some _ _ _ H) as B. rewrite L in B. apply lookup_lt_is_Some in B as [e He].
  destruct (F x e He) as (e2 & E1 & E2 & E3). rewrite H in E1. apply (inj Some) in E1 as <-. by exists e.
Qed.

Lemma dies_trans S1 S2 st st1 st2 :
  dies S1 st st1 -> dies S2 st1 st2 -> dies (fun x => S1 x \/ S2 x) st st2.
Proof.
  intros [L1 F1] [L2 F2]. split; [congruence|]. intros x e H.
  destruct (F1 x e H) as (e1 & H1 & (A1 & A2 & A3 & A4) & A5). destruct (F2 x e1 H1) as (e2 & H2 & (B1 & B2 & B3 & B4) & B5).
  exists e2. split; [done|]. split; [|tauto]. unfold same_place, is_dir in *. split; [congruence|]. split; [congruence|].
  split; [congruence|]. intros Hd. rewrite B4, A4 by congruence. done.
Qed.

Lemma dies_ext S1 S2 st st' :
  (forall x e, st !! x = Some e -> live e -> ~ S1 x <-> ~ S2 x) -> dies S1 st st' -> dies S2 st st'.
Proof.
  intros E [L F]. split; [done|]. intros x e H. destruct (F x e H) as (e' & F1 & F2 & F3). exists e'.
  split; [done|]. split; [done|]. specialize (E x e H). tauto.
Qed.

(** The entries below [p] after a removal. *)
Lemma dies_under S st st' p x : dies S st st' -> under st' p x -> under st p x.
Proof.
  intros F U. induction U as [c ce H Hl Hp|c ce q H Hl Hp U IH];
    destruct (dies_back S st st' c ce F H) as (e & E1 & (_ & _ & E2 & _) & E3).
  - apply (under_child st p c e); [done|tauto|congruence].
  - apply (under_step st p c e q); [done|tauto|congruence|done].
Qed.

(** The invariant looks at the shape of what is left. *)
Lemma shape_unlink X st by_ p pe st' :
  shape X st by_ -> st !! p = Some pe -> live pe -> p <> root -> dies (eq p) st st' ->
  (forall c ce, st !! c = Some ce -> live ce -> n_parent ce = Some p -> X c) ->
  (forall x e, st' !! x = Some e -> ~ is_dir e ->
     NoDup (n_children e) /\ forall c, c ∈ n_children e -> exists ce, st' !! c = Some ce /\ ~ live ce) ->
  (forall x e t, st' !! x = Some e -> live e -> n_linkTo e = Some t ->
     ~ is_dir e /\ exists te, st' !! t = Some te /\ n_type te = n_type e /\ (live te -> n_linkTo te = None) /\
     (~ X x -> live te)) ->
  shape X st' (delete (n_path pe) by_).
Proof.
  intros I Hp Hlp Hr F HX Hch Hlk. pose proof F as [L FF].
  assert (Bp : by_ !! n_path pe = Some p) by (by apply (iv_live _ _ _ I)). split.
  - destruct (iv_root _ _ _ I) as (r & R1 & R2 & R3 & R4 & R5 & R6). destruct (FF _ _ R1) as (r' & F1 & (F2 & F3 & F4 & _) & F5).
    exists r'. unfold is_dir in *. rewrite F2, F3, F4. intuition congruence.
  - intros k x H. apply lookup_delete_Some in H as [Hk H]. destruct (iv_by _ _ _ I k x H) as (e & E1 & E2 & E3).
    destruct (FF _ _ E1) as (e' & F1 & (F2 & _) & F5). exists e'. rewrite F2. split; [done|]. split; [done|].
    apply F5. split; [done|]. intros <-. rewrite Hp in E1. apply (inj Some) in E1 as <-. congruence.
  - intros x e' H Hl. destruct (dies_back _ _ _ x e' F H) as (e & E1 & (E2 & _) & E3). apply E3 in Hl; destruct Hl as [Hl Hn].
    rewrite E2. pose proof (iv_live _ _ _ I x e E1 Hl) as B. rewrite lookup_delete_ne; [done|]. intros E. rewrite E in Bp. congruence.
  - intros x e' H Hl Hx. destruct (dies_back _ _ _ x e' F H) as (e & E1 & (E2 & _ & E4 & _) & E3). apply E3 in Hl; destruct Hl as [Hl Hn].
    destruct (iv_seated _ _ _ I x e E1 Hl Hx) as [G (q & qe & Q1 & Q2 & Q3 & Q4 & Q5 & Q6 & Q7)].
    destruct (FF _ _ Q3) as (qe' & F1 & (F2 & F3 & _ & F4) & F5). split; [by rewrite E2|]. exists q, qe'.
    unfold is_dir in *. rewrite E4, F3, F2, E2, (F4 Q4). split; [done|]. split; [done|]. split; [done|]. split; [done|].
    split; [done|]. split; [done|]. intros HnX. destruct (Q7 HnX) as [Q8 Q9]. split; [|done]. apply F5. split; [done|].
    intros <-. destruct HnX. by apply (HX x e).
  - intros q qe' c H Hc. destruct (dies_back _ _ _ q qe' F H) as (qe & E1 & (_ & E2 & _ & E4) & E3).
    destruct (decide (n_type qe = StatTypeDir)) as [Hd|Hd].
    + rewrite (E4 Hd) in Hc. destruct (iv_down _ _ _ I q qe c E1 Hc) as (ce & C1 & C2).
      destruct (FF _ _ C1) as (ce' & F1 & (_ & _ & F2 & _) & F5). exists ce'. split; [done|]. rewrite F2. intros Hl. apply C2. tauto.
    + destruct (Hch q qe' H) as [_ Hdead]; [unfold is_dir in *; congruence|]. destruct (Hdead c Hc) as (ce & C1 & C2).
      exists ce. by split.
  - intros q qe' H. destruct (dies_back _ _ _ q qe' F H) as (qe & E1 & (_ & E2 & _ & E4) & E3).
    destruct (decide (n_type qe = StatTypeDir)) as [Hd|Hd]; [rewrite (E4 Hd); by apply (iv_nodup _ _ _ I q)|].
    apply (Hch q qe' H). unfold is_dir. congruence.
  - exact Hlk.
Qed.

(** What is not a directory holds no live entry. *)
Lemma file_children X st by_ q qe c :
  shape X st by_ -> st !! q = Some qe -> ~ is_dir qe -> c ∈ n_children qe -> exists ce, st !! c = Some ce /\ ~ live ce.
Proof.
  intros I Hq Hd Hc. destruct (iv_down _ _ _ I q qe c Hq Hc) as (ce & C1 & C2). exists ce. split; [done|]. intros Hl.
  destruct (wk_up st (shape_walkable _ _ _ I) c ce q C1 Hl (C2 Hl)) as (qe' & Q1 & Q2 & _). rewrite Hq in Q1.
  by apply (inj Some) in Q1 as <-.
Qed.

(** Every entry that is not excused is reached from the root. *)
Lemma reached (X : ptr -> Prop) (st : list fsEntry) :
  (forall x e, st !! x = Some e -> live e -> ~ X x -> x <> root -> exists q qe, n_parent e = Some q /\ (q < x)%nat /\
     st !! q = Some qe /\ live qe /\ ~ X q) ->
  forall x e, st !! x = Some e -> live e -> ~ X x -> x <> root -> under st root x.
Proof.
  intros H x. induction (lt_wf x) as [x _ IH]. intros e He Hl HX Hr.
  destruct (H x e He Hl HX Hr) as (q & qe & Q1 & Q2 & Q3 & Q4 & Q5).
  destruct (decide (q = root)) as [->|Hq]; [by eapply under_child|].
  eapply under_step; [done|done|done|]. by apply (IH q Q2 qe).
Qed.

(** ** The store after the entry is marked *)

Section Mark.
Context (X : ptr -> Prop) (st : list fsEntry) (by_ : gmap bytes ptr) (p : ptr) (pe : fsEntry).
Context (I : shape X st by_) (Hp : st !! p = Some pe) (Hlp : live pe) (Hr : p <> root).
Context (HX : forall c ce, st !! c = Some ce -> live ce -> n_parent ce = Some p -> X c).

Let st1 := <[p := ns_removed true pe]> st.

Lemma marked_lookup x : st1 !! x = if decide (x = p) then Some (ns_removed true pe) else st !! x.
Proof.
  unfold st1. case_decide as E; [subst; apply list_lookup_insert_eq; by eapply lookup_lt_Some|].
  by apply list_lookup_insert_ne.
Qed.

Lemma marked_dies : dies (eq p) st st1.
Proof.
  split; [apply length_insert|]. intros x e H. rewrite marked_lookup. case_decide as E.
  - subst x. rewrite Hp in H. apply (inj Some) in H as <-. eexists. split; [done|]. split; [by repeat split|].
    unfold live. cbn. intuition congruence.
  - exists e. split; [done|]. split; [by repeat split|]. intuition congruence.
Qed.

Lemma marked_walkable : walkable st1.
Proof.
  pose proof (shape_walkable _ _ _ I) as W. pose proof marked_dies as F. split.
  - intros c ce q H Hl Hq. destruct (dies_back _ _ _ c ce F H) as (e & E1 & (_ & _ & E2 & _) & E3). apply E3 in Hl; destruct Hl as [Hl _].
    destruct (wk_up st W c e q E1 Hl) as (qe & Q1 & Q2 & Q3 & Q4); [congruence|].
    destruct (proj2 F q qe Q1) as (qe' & F1 & (_ & F3 & _ & F4) & _). exists qe'. unfold is_dir in *. rewrite F3, F4 by done. auto.
  - intros q qe c H Hc. rewrite marked_lookup in H. assert (G : exists qe0, st !! q = Some qe0 /\ c ∈ n_children qe0).
    { case_decide; [apply (inj Some) in H as <-; subst; by exists pe|by exists qe]. }
    destruct G as (qe0 & G1 & G2). destruct (wk_down st W q qe0 c G1 G2) as (ce & C1 & C2).
    destruct (proj2 F c ce C1) as (ce' & F1 & (_ & _ & F3 & _) & F4). exists ce'. split; [done|]. rewrite F3. tauto.
  - intros q qe H. rewrite marked_lookup in H. case_decide; [|by apply (wk_nodup st W q)].
    apply (inj Some) in H as <-. by apply (wk_nodup st W p pe).
Qed.

Lemma marked_reached x e : st1 !! x = Some e -> live e -> ~ X x -> x <> root -> under st1 root x.
Proof.
  apply reached. clear x e. intros x e H Hl HnX Hx.
  destruct (dies_back _ _ _ x e marked_dies H) as (e0 & E1 & (_ & _ & E2 & _) & E3). apply E3 in Hl; destruct Hl as [Hl Hn].
  destruct (iv_seated _ _ _ I x e0 E1 Hl Hx) as [_ (q & qe & Q1 & Q2 & Q3 & _ & _ & _ & Q7)].
  destruct (Q7 HnX) as [Q8 Q9]. exists q, qe. rewrite E2. split; [done|]. split; [done|]. split; [|done].
  rewrite marked_lookup, decide_False; [done|]. intros ->. destruct HnX. by apply (HX x e0).
Qed.

(** The children of what is not a directory stay dead. *)
Lemma marked_files (st' : list fsEntry) :
  dies (eq p) st st' ->
  (forall x e', st' !! x = Some e' -> ~ is_dir e' ->
     n_children e' = [] \/ exists y e, st !! y = Some e /\ ~ is_dir e /\ n_children e' = n_children e) ->
  forall x e', st' !! x = Some e' -> ~ is_dir e' ->
  NoDup (n_children e') /\ forall c, c ∈ n_children e' -> exists ce, st' !! c = Some ce /\ ~ live ce.
Proof.
  intros F H x e' He Hd. destruct (H x e' He Hd) as [-> | (y & e & E1 & E2 & E3)].
  { split; [constructor|]. by intros c ?%elem_of_nil. }
  rewrite E3. split; [by apply (iv_nodup _ _ _ I y)|]. intros c Hc.
  destruct (file_children X st by_ y e c I E1 E2 Hc) as (ce & C1 & C2).
  destruct (proj2 F c ce C1) as (ce' & F1 & _ & F2). exists ce'. split; [done|]. tauto.
Qed.

End Mark.

(** ** Giving up a name *)

(** Entries other than [p] whose links and places stay. *)
Lemma links_insert_same st t te te' :
  st !! t = Some te -> link_of te' = link_of te -> links (<[t := te']> st) = links st.
Proof. intros H E. rewrite links_insert, E. apply list_insert_id. by apply links_lookup. Qed.

Lemma count_zlen st t : 0 <= count (links st) t <= zlen st.
Proof.
  replace (zlen st) with (zlen (links st)) by (unfold zlen, links; by rewrite length_fmap). apply count_bounds.
Qed.

Lemma dies_insert S st st' t te te' :
  dies S st st' -> st' !! t = Some te -> same_place te te' -> n_removed te' = n_removed te -> dies S st (<[t := te']> st').
Proof.
  intros [L F] H (S1 & S2 & S3 & S4) Hr. split; [by rewrite length_insert|]. intros x e He. destruct (F x e He) as (e' & E1 & (P1 & P2 & P3 & P4) & E3).
  destruct (decide (x = t)) as [->|Hn].
  - rewrite list_lookup_insert_eq by (by eapply lookup_lt_Some). rewrite H in E1. apply (inj Some) in E1 as <-. exists te'.
    split; [done|]. unfold same_place, live, is_dir in *. rewrite S1, S2, S3, Hr. split; [|done]. split; [done|]. split; [done|].
    split; [done|]. intros Hd. rewrite S4, P4 by congruence. done.
  - rewrite list_lookup_insert_ne by done. by exists e'.
Qed.

(** The name of an alias goes: its inode has a link less. *)
Lemma unlink_alias X st by_ p pe t te :
  inv X st by_ -> zlen st <= MaxUint32 -> st !! p = Some pe -> live pe -> p <> root ->
  (forall c ce, st !! c = Some ce -> live ce -> n_parent ce = Some p -> X c) ->
  n_linkTo pe = Some t -> st !! t = Some te ->
  let st' := <[t := ns_extraLinks (u32 (n_extraLinks te - 1)) te]> (<[p := ns_removed true pe]> st) in
  dies (eq p) st st' /\ inv X st' (delete (n_path pe) by_).
Proof.
  intros [I Hc] Hsm Hp Hlp Hr HX Hl Ht st'.
  destruct (iv_link _ _ _ I p pe t Hp Hlp Hl) as (Hnd & te0 & T1 & T2 & T3 & T4). rewrite Ht in T1. apply (inj Some) in T1 as <-.
  assert (Htp : t <> p).
  { intros ->. rewrite Hp in Ht. apply (inj Some) in Ht as <-. rewrite (T3 Hlp) in Hl. done. }
  assert (M : <[p := ns_removed true pe]> st !! t = Some te) by (by rewrite list_lookup_insert_ne).
  assert (F : dies (eq p) st st').
  { apply (dies_insert _ _ _ _ te); [by apply marked_dies|done|by repeat split|done]. }
  (* an entry of the new store, in the old one *)
  assert (OLD : forall x e', st' !! x = Some e' -> exists e, st !! x = Some e /\ n_linkTo e' = n_linkTo e /\
    n_type e' = n_type e /\ n_children e' = n_children e).
  { intros x e'. unfold st'. destruct (decide (x = t)) as [->|Hn].
    - rewrite list_lookup_insert_eq by (by eapply lookup_lt_Some). intros <-%(inj Some). exists te. by repeat split.
    - rewrite list_lookup_insert_ne by done. destruct (decide (x = p)) as [->|Hn2].
      + rewrite list_lookup_insert_eq by (by eapply lookup_lt_Some). intros <-%(inj Some). exists pe. by repeat split.
      + rewrite list_lookup_insert_ne by done. intros H. exists e'. by repeat split. }
  split; [done|]. split.
  - apply (shape_unlink X st by_ p pe); try done.
    + apply (marked_files X st by_ p); try done. intros x e' H Hd. right. destruct (OLD x e' H) as (e & O1 & O2 & O3 & O4).
      exists x, e. unfold is_dir in *. split; [done|]. split; [congruence|done].
    + intros x e' t2 H Hlv Hl2. destruct (OLD x e' H) as (e & O1 & O2 & O3 & O4).
      destruct (dies_back _ _ _ x e' F H) as (e0 & E1 & _ & E3). rewrite O1 in E1. apply (inj Some) in E1 as <-.
      apply E3 in Hlv. destruct Hlv as [Hlv Hn].
      destruct (iv_link _ _ _ I x e t2 O1 Hlv ltac:(congruence)) as (L1 & te2 & L2 & L3 & L4 & L5). unfold is_dir in *.
      rewrite O3. split; [done|]. destruct (proj2 F t2 te2 L2) as (te2' & F1 & (_ & F2 & _ & _) & F3). exists te2'.
      split; [done|]. rewrite F2. split; [done|]. destruct (OLD t2 te2' F1) as (te3 & G1 & G2 & _).
      rewrite L2 in G1. apply (inj Some) in G1 as <-. rewrite G2. split; [tauto|]. intros HnX. apply F3. split; [by apply L5|].
      intros <-. rewrite Hp in L2. apply (inj Some) in L2 as <-. specialize (L4 Hlp). congruence.
  - intros t2 te2 H Hlv Hln. unfold st'. rewrite (links_insert_same _ _ te) by done. rewrite links_insert.
    rewrite (count_insert _ _ _ (link_of pe)) by (by apply links_lookup).
    rewrite (decide_False (P := link_of (ns_removed true pe) = _)) by done.
    pose proof (count_zlen st t) as CB. unfold MaxUint32 in *. unfold st' in H. destruct (decide (t2 = t)) as [->|Hn].
    + rewrite list_lookup_insert_eq in H by (by eapply lookup_lt_Some). apply (inj Some) in H as <-. cbn.
      assert (Hlt : live te) by exact Hlv.
      rewrite decide_True by (unfold link_of, live in *; congruence). pose proof (count_pos (links st) t p) as CP.
      rewrite (links_lookup _ _ _ Hp) in CP. specialize (CP ltac:(unfold link_of, live in *; congruence)).
      rewrite (Hc t te) by done. unfold u32. rewrite Z.mod_small by lia. lia.
    + rewrite list_lookup_insert_ne in H by done. rewrite decide_False by (unfold link_of; congruence).
      destruct (decide (t2 = p)) as [->|Hn2].
      * rewrite list_lookup_insert_eq in H by (by eapply lookup_lt_Some). by apply (inj Some) in H as <-.
      * rewrite list_lookup_insert_ne in H by done. rewrite (Hc t2 te2) by done. lia.
Qed.

(** The name of an inode without aliases that could carry it on goes. *)
Lemma unlink_last X st by_ p pe pe' :
  inv X st by_ -> st !! p = Some pe -> live pe -> p <> root ->
  (forall c ce, st !! c = Some ce -> live ce -> n_parent ce = Some p -> X c) ->
  n_linkTo pe = None -> (forall x e, st !! x = Some e -> live e -> n_linkTo e = Some p -> ~ ~ X x) ->
  same_place pe pe' -> n_removed pe' = true -> n_linkTo pe' = None -> n_children pe' = n_children pe ->
  let st' := <[p := pe']> st in
  dies (eq p) st st' /\ inv X st' (delete (n_path pe) by_).
Proof.
  intros [I Hc] Hp Hlp Hr HX Hl HA Hs Hr' Hl' Hc' st'.
  assert (LK : forall x, st' !! x = if decide (x = p) then Some pe' else st !! x).
  { intros x. unfold st'. case_decide as E; [subst; apply list_lookup_insert_eq; by eapply lookup_lt_Some|].
    by apply list_lookup_insert_ne. }
  assert (F : dies (eq p) st st').
  { split; [apply length_insert|]. intros x e H. rewrite LK. case_decide as E.
    - subst. rewrite Hp in H. apply (inj Some) in H as <-. exists pe'. split; [done|]. split; [done|].
      unfold live. rewrite Hr'. intuition congruence.
    - exists e. split; [done|]. split; [by repeat split|]. intuition congruence. }
  split; [done|]. split.
  - apply (shape_unlink X st by_ p pe); try done.
    + apply (marked_files X st by_ p); try done. intros x e' H Hd. right. rewrite LK in H. case_decide as E.
      * subst. apply (inj Some) in H as <-. exists p, pe. destruct Hs as (_ & Hs & _). unfold is_dir in *. rewrite <- Hs. done.
      * by exists x, e'.
    + intros x e t H Hlv Hlt. rewrite LK in H. case_decide as E; [apply (inj Some) in H as <-; congruence|].
      destruct (iv_link _ _ _ I x e t H Hlv Hlt) as (L1 & te & L2 & L3 & L4 & L5). split; [done|].
      rewrite LK. case_decide as E2; [|by exists te]. subst t. rewrite Hp in L2. apply (inj Some) in L2 as <-.
      exists pe'. destruct Hs as (_ & Hs & _). rewrite Hs, Hl'. split; [done|]. split; [done|]. split; [done|].
      intros HnX. by destruct (HA x e H Hlv Hlt).
  - intros t te H Hlv Hln. rewrite LK in H. case_decide as E; [apply (inj Some) in H as <-; unfold live in Hlv; congruence|].
    rewrite (Hc t te) by done. symmetry. unfold st'. rewrite links_insert. apply (count_other _ _ _ _ (link_of pe)).
    + by apply links_lookup.
    + unfold link_of. congruence.
    + unfold link_of. congruence.
Qed.

(** ** Handing the inode over *)

(** [a.linkTo = heir] for every [a] of a list. *)
Definition relink (heir : ptr) (l : list ptr) (st : list fsEntry) : list fsEntry :=
  foldl (fun st a => alter (ns_linkTo (Some heir)) a st) st l.

Lemma alter_insert (st : list fsEntry) p e f : st !! p = Some e -> alter f p st = <[p := f e]> st.
Proof.
  revert p. induction st as [|x st IH]; intros [|p] H; [done..| |].
  - by apply (inj Some) in H as ->.
  - change (alter f (S p) (x :: st)) with (x :: alter f p st). by rewrite (IH p).
Qed.

Lemma for_each_update {D : Type} (l : list ptr) f (w : Writer D) :
  (forall a, a ∈ l -> is_Some (fw_store w !! a)) ->
  for_each (fun a => update a f) l w = (Ok tt, fs_store (foldl (fun st a => alter f a st) (fw_store w) l) w).
Proof.
  revert w. induction l as [|a l IH]; intros w H; [done|]. cbn [for_each foldl].
  destruct (H a ltac:(left)) as [e He].
  rewrite (bind_ok _ _ w tt _ (update_eq w a e f He)), <- (alter_insert _ _ e) by done. rewrite IH; [done|].
  intros b Hb. cbn. destruct (decide (a = b)) as [->|Hn].
  - rewrite list_lookup_alter_eq, He. by eexists.
  - rewrite list_lookup_alter_ne by done. apply H. by right.
Qed.

Lemma relink_lookup heir l st x :
  NoDup l -> relink heir l st !! x = if decide (x ∈ l) then ns_linkTo (Some heir) <$> st !! x else st !! x.
Proof.
  revert st. induction l as [|a l IH]; intros st Hnd; [by rewrite decide_False by (by intros ?%elem_of_nil)|].
  apply NoDup_cons in Hnd as [Ha Hnd]. change (relink heir (a :: l) st) with (relink heir l (alter (ns_linkTo (Some heir)) a st)).
  rewrite IH by done. destruct (decide (x = a)) as [->|Hn].
  - rewrite decide_False by done. rewrite decide_True by left. apply list_lookup_alter_eq.
  - rewrite list_lookup_alter_ne by congruence. destruct (decide (x ∈ l)).
    + by rewrite decide_True by (by right).
    + rewrite decide_False; [done|]. rewrite elem_of_cons. tauto.
Qed.

Lemma relink_count heir l st p t :
  NoDup l -> (forall a, a ∈ l -> exists e, st !! a = Some e /\ live e /\ n_linkTo e = Some p) -> heir <> p -> t <> p ->
  count (links (relink heir l st)) t = count (links st) t + (if decide (t = heir) then zlen l else 0).
Proof.
  intros Hnd Ha Hhp Htp. revert st Ha. induction Hnd as [|a l Hal Hnd IH]; intros st Ha.
  { cbn [relink foldl]. case_decide; [change (zlen (@nil ptr)) with 0|]; lia. }
  destruct (Ha a ltac:(left)) as (e & E1 & E2 & E3).
  change (relink heir (a :: l) st) with (relink heir l (alter (ns_linkTo (Some heir)) a st)). rewrite IH.
  - rewrite (alter_insert _ _ e), links_insert by done. rewrite (count_insert _ _ _ (link_of e)) by (by apply links_lookup).
    rewrite (decide_False (P := link_of e = _)) by (unfold link_of; congruence). rewrite zlen_cons.
    unfold link_of, live in *. cbn. rewrite E2. destruct (decide (t = heir)) as [->|Hn].
    + rewrite decide_True by done. lia.
    + rewrite decide_False by congruence. lia.
  - intros b Hb. destruct (Ha b ltac:(by right)) as (be & B1 & B2 & B3). exists be. split; [|done].
    rewrite list_lookup_alter_ne; [done|]. by intros ->.
Qed.

(** The store after a promotion: [rest] follows the heir. *)
Definition promoted (st : list fsEntry) (p heir : ptr) (pe he : fsEntry) (rest : list ptr) : list fsEntry :=
  let te := ns_removed true pe in
  <[p := ns_children [] (ns_extraLinks 0 te)]>
    (relink heir rest (<[heir := inherit te he (u32 (zlen (heir :: rest) - 1))]> (<[p := te]> st))).

Section Promote.
Context (X : ptr -> Prop) (st : list fsEntry) (by_ : gmap bytes ptr) (p heir : ptr) (pe he : fsEntry) (rest : list ptr).
Context (I : inv X st by_) (Hsm : zlen st <= MaxUint32).
Context (Hp : st !! p = Some pe) (Hlp : live pe) (Hr : p <> root) (Hln : n_linkTo pe = None).
Context (HX : forall c ce, st !! c = Some ce -> live ce -> n_parent ce = Some p -> X c).
Context (Hnd : NoDup (heir :: rest)) (Hhe : st !! heir = Some he).
Context (Hal : forall a, a ∈ heir :: rest -> exists e, st !! a = Some e /\ live e /\ n_linkTo e = Some p).
Context (Hall : forall x e, st !! x = Some e -> live e -> n_linkTo e = Some p -> ~ X x -> x ∈ heir :: rest).

Let st' := promoted st p heir pe he rest.

Lemma heir_facts : live he /\ n_linkTo he = Some p /\ heir <> p /\ (heir ∉ rest) /\ NoDup rest /\ n_type pe = n_type he /\
  ~ is_dir he /\ ~ is_dir pe /\ (p ∉ rest).
Proof.
  destruct (Hal heir ltac:(left)) as (e & E1 & E2 & E3). rewrite Hhe in E1. apply (inj Some) in E1 as <-.
  apply NoDup_cons in Hnd as [N1 N2]. destruct (iv_link _ _ _ (proj1 I) heir he p Hhe E2 E3) as (L1 & te & L2 & L3 & _).
  rewrite Hp in L2. apply (inj Some) in L2 as <-. unfold is_dir in *. repeat split; try done; try congruence.
  intros Hin. destruct (Hal p ltac:(by right)) as (e & F1 & F2 & F3). rewrite Hp in F1. apply (inj Some) in F1 as <-. congruence.
Qed.

Lemma promoted_lookup x :
  st' !! x =
    if decide (x = p) then Some (ns_children [] (ns_extraLinks 0 (ns_removed true pe)))
    else if decide (x = heir) then Some (inherit (ns_removed true pe) he (u32 (zlen rest)))
    else if decide (x ∈ rest) then ns_linkTo (Some heir) <$> st !! x else st !! x.
Proof.
  destruct heir_facts as (H1 & H2 & H3 & H4 & H5 & _ & _ & _ & H9).
  assert (Bp : (p < length st)%nat) by (by eapply lookup_lt_Some). assert (Bh : (heir < length st)%nat) by (by eapply lookup_lt_Some).
  unfold st', promoted. rewrite zlen_cons. replace (1 + zlen rest - 1) with (zlen rest) by lia.
  set (s1 := <[heir := _]> _). assert (Ls : length s1 = length st) by (unfold s1; by rewrite !length_insert).
  case_decide as Ex.
  - subst x. apply list_lookup_insert_eq. assert (G : is_Some (relink heir rest s1 !! p)); [|by apply lookup_lt_is_Some in G].
    rewrite relink_lookup, decide_False by done. apply lookup_lt_is_Some. lia.
  - rewrite list_lookup_insert_ne by congruence. rewrite relink_lookup by done. destruct (decide (x = heir)) as [Eh|Eh].
    + subst x. rewrite decide_False by done. unfold s1. apply list_lookup_insert_eq. by rewrite length_insert.
    + unfold s1. rewrite !list_lookup_insert_ne by congruence. done.
Qed.

Lemma promoted_dies : dies (eq p) st st'.
Proof.
  destruct heir_facts as (H1 & H2 & H3 & H4 & H5 & H6 & H7 & H8 & H9). split.
  - unfold st', promoted, relink. rewrite length_insert. set (s1 := <[heir := _]> _).
    transitivity (length s1); [|unfold s1; by rewrite !length_insert]. generalize s1. clear. induction rest as [|a l IH]; [done|].
    intros s. cbn. rewrite IH. apply length_alter.
  - intros x e H. rewrite promoted_lookup. case_decide as Ep; [|case_decide as Eh].
    + subst x. rewrite Hp in H. apply (inj Some) in H as <-. eexists. split; [done|]. split; [|unfold live; cbn; intuition congruence].
      unfold is_dir in *. by repeat split.
    + subst x. rewrite Hhe in H. apply (inj Some) in H as <-. eexists. split; [done|]. split; [|unfold live in *; cbn; intuition congruence].
      split; [done|]. split; [exact H6|]. split; [done|]. intros Hd. by destruct H7.
    + case_decide as Er.
      * rewrite H. eexists. split; [done|]. split; [by repeat split|]. unfold live. cbn. intuition congruence.
      * exists e. split; [done|]. split; [by repeat split|]. intuition congruence.
Qed.

Lemma promoted_shape : shape X st' (delete (n_path pe) by_).
Proof.
  destruct heir_facts as (H1 & H2 & H3 & H4 & H5 & H6 & H7 & H8 & H9). pose proof (proj1 I) as I1.
  apply (shape_unlink X st by_ p pe); try done; [apply promoted_dies|..].
  - apply (marked_files X st by_ p); try done; [apply promoted_dies|]. intros x e' H Hd. rewrite promoted_lookup in H.
    case_decide as Ep; [left; by apply (inj Some) in H as <-|]. right. case_decide as Eh.
    + apply (inj Some) in H as <-. by exists p, pe.
    + case_decide as Er; [|by exists x, e'].
      destruct (Hal x ltac:(by right)) as (e & E1 & _). rewrite E1 in H. apply (inj Some) in H as <-. by exists x, e.
  - intros x e' t H Hlv Hlt. rewrite promoted_lookup in H. case_decide as Ep; [by apply (inj Some) in H as <-|].
    case_decide as Eh; [by apply (inj Some) in H as <-|]. case_decide as Er.
    + destruct (Hal x ltac:(by right)) as (e & E1 & E2 & E3). rewrite E1 in H. apply (inj Some) in H as <-. apply (inj Some) in Hlt as <-.
      destruct (iv_link _ _ _ I1 x e p E1 E2 E3) as (L1 & te & L2 & L3 & _). rewrite Hp in L2. apply (inj Some) in L2 as <-.
      split; [done|]. rewrite promoted_lookup, decide_False, decide_True by done. eexists. split; [done|]. split; [exact L3|]. done.
    + destruct (iv_link _ _ _ I1 x e' t H Hlv Hlt) as (L1 & te & L2 & L3 & L4 & L5). split; [done|]. rewrite promoted_lookup.
      destruct (decide (t = p)) as [->|Htp].
      * rewrite Hp in L2. apply (inj Some) in L2 as <-. eexists. split; [done|]. split; [exact L3|]. split; [done|].
        intros HnX. exfalso. pose proof (Hall x e' H Hlv Hlt HnX) as Hin. apply elem_of_cons in Hin. tauto.
      * destruct (decide (t = heir)) as [->|Hth].
        { rewrite Hhe in L2. apply (inj Some) in L2 as <-. specialize (L4 H1). congruence. }
        case_decide as Er2; [|by exists te]. destruct (Hal t ltac:(by right)) as (te2 & T1 & T2 & T3). rewrite L2 in T1.
        apply (inj Some) in T1 as <-. specialize (L4 T2). congruence.
Qed.

Lemma promoted_counted : counted st'.
Proof.
  destruct heir_facts as (H1 & H2 & H3 & H4 & H5 & H6 & H7 & H8 & H9). destruct I as [I1 Hc].
  set (te := ns_removed true pe). set (s1 := <[heir := inherit te he (u32 (zlen (heir :: rest) - 1))]> (<[p := te]> st)).
  assert (S1 : <[p := te]> st !! heir = Some he) by (by rewrite list_lookup_insert_ne by congruence).
  assert (C1 : forall t, t <> p -> count (links s1) t = count (links st) t).
  { intros t Ht. unfold s1. rewrite links_insert. rewrite (count_other _ _ _ _ (link_of he)).
    - rewrite links_insert. apply (count_other _ _ _ _ (link_of pe)); [by apply links_lookup|unfold link_of; congruence|done].
    - by apply links_lookup.
    - unfold link_of. congruence.
    - done. }
  assert (C2 : forall t, t <> p -> count (links st') t = count (links st) t + (if decide (t = heir) then zlen rest else 0)).
  { intros t Ht. unfold st', promoted. fold te. fold s1. rewrite links_insert.
    assert (L : relink heir rest s1 !! p = Some te).
    { rewrite relink_lookup, decide_False by done. unfold s1. rewrite list_lookup_insert_ne by congruence.
      apply list_lookup_insert_eq. by eapply lookup_lt_Some. }
    rewrite (count_other _ _ _ _ (link_of te)) by (done || by apply links_lookup).
    rewrite (relink_count heir rest s1 p t), C1; try done. intros a Ha. destruct (Hal a ltac:(by right)) as (e & E1 & E2 & E3).
    exists e. split; [|done]. unfold s1. rewrite !list_lookup_insert_ne; [done|intros ->; done|intros ->; done]. }
  assert (Ch : count (links st) heir = 0).
  { unfold count. destruct (filter _ (links st)) as [|y l] eqn:E; [done|]. exfalso.
    assert (H : y ∈ filter (fun x => x = (false, Some heir)) (links st)) by (rewrite E; left).
    apply list_elem_of_filter in H as [-> H]. apply list_elem_of_fmap in H as (e & G1 & G2).
    apply list_elem_of_lookup in G2 as [q Hq]. unfold link_of in G1. injection G1 as G1 G2.
    destruct (iv_link _ _ _ I1 q e heir Hq (eq_sym G1) (eq_sym G2)) as (_ & he' & T & _ & T2 & _).
    rewrite Hhe in T. apply (inj Some) in T as <-. specialize (T2 H1). congruence. }
  intros t te2 H Hlv Hl2. rewrite promoted_lookup in H. case_decide as Ep; [by apply (inj Some) in H as <-|]. rewrite C2 by done.
  case_decide as Eh.
  - subst t. apply (inj Some) in H as <-. cbn. rewrite Ch. unfold u32. rewrite Z.mod_small; [lia|].
    pose proof (zlen_nonneg rest). split; [done|].
    assert (B : zlen rest <= count (links (relink heir rest s1)) heir).
    { rewrite (relink_count heir rest s1 p heir); try done.
      - rewrite decide_True by done. pose proof (count_zlen s1 heir). lia.
      - intros a Ha. destruct (Hal a ltac:(by right)) as (e & E1 & E2 & E3).
        exists e. split; [|done]. unfold s1. rewrite !list_lookup_insert_ne; [done|intros ->; done|intros ->; done]. }
    pose proof (count_zlen (relink heir rest s1) heir) as B2. assert (B3 : zlen (relink heir rest s1) = zlen st).
    { unfold zlen. f_equal. pose proof (proj1 promoted_dies) as L. unfold st', promoted in L. rewrite length_insert in L. exact L. }
    unfold MaxUint32 in Hsm. lia.
  - case_decide as Er.
    + destruct (Hal t ltac:(by right)) as (e & E1 & _). rewrite E1 in H. by apply (inj Some) in H as <-.
    + rewrite (Hc t te2) by done. lia.
Qed.

End Promote.

(** ** What the names show *)

(** What an inode holds, apart from its names. *)
Definition payload (e : fsEntry) :=
  (n_mode e, n_uid e, n_gid e, (n_atime e, n_atimeNs e), (n_mtime e, n_mtimeNs e), (n_nlink e, n_nlinkSet e), n_size e, n_rdev e,
   n_xattrs e, n_linkTarget e, (n_chunks e, n_contiguous e, n_tail e), (n_spoolOff e, n_dataStartOff e, n_fileClosed e),
   n_directData e, n_metadataOnly e).

(** The inode a name resolves to. *)
Definition shown (st : list fsEntry) (x : ptr) :=
  match st !! x with
  | Some e => match n_linkTo e with None => Some (payload e) | Some t => payload <$> st !! t end
  | None => None
  end.

Definition shows_same (st st' : list fsEntry) : Prop :=
  forall x e', st' !! x = Some e' -> live e' -> shown st' x = shown st x.

Lemma shown_insert st p e e' x :
  st !! p = Some e -> payload e' = payload e -> n_linkTo e' = n_linkTo e -> shown (<[p := e']> st) x = shown st x.
Proof.
  intros H E1 E2. assert (Hp : (p < length st)%nat) by (by eapply lookup_lt_Some).
  assert (P : forall t, payload <$> <[p := e']> st !! t = payload <$> st !! t).
  { intros t. destruct (decide (t = p)) as [->|Hn]; [|by rewrite list_lookup_insert_ne by congruence].
    rewrite list_lookup_insert_eq, H by done. cbn. by rewrite E1. }
  unfold shown. destruct (decide (x = p)) as [->|Hn].
  - rewrite list_lookup_insert_eq, H, E2, E1 by done. by destruct (n_linkTo e).
  - rewrite list_lookup_insert_ne by congruence. destruct (st !! x) as [xe|]; [|done]. by destruct (n_linkTo xe).
Qed.

Lemma shows_same_trans S st st1 st2 :
  dies S st1 st2 -> shows_same st st1 -> shows_same st1 st2 -> shows_same st st2.
Proof.
  intros F A B x e' H Hl. destruct (dies_back _ _ _ x e' F H) as (e1 & E1 & _ & E3). rewrite (B x e') by done.
  apply (A x e1 E1). tauto.
Qed.

(** The aliases of a promoted inode show what they did. *)
Lemma promoted_shows X st by_ p heir pe he rest :
  inv X st by_ -> st !! p = Some pe -> p <> root -> n_linkTo pe = None -> NoDup (heir :: rest) -> st !! heir = Some he ->
  (forall a, a ∈ heir :: rest -> exists e, st !! a = Some e /\ live e /\ n_linkTo e = Some p) ->
  shows_same st (promoted st p heir pe he rest).
Proof.
  intros I Hp Hr Hln Hnd Hhe AL x e' H Hlx.
  destruct (heir_facts X st by_ p heir pe he rest) as (H1 & H2 & H3 & H4 & H5 & _ & _ & _ & H9); try done.
  pose proof (fun y => promoted_lookup X st by_ p heir pe he rest I Hp Hr Hln Hnd Hhe AL y) as LK.
  assert (P : forall t, t <> heir -> payload <$> promoted st p heir pe he rest !! t = payload <$> st !! t).
  { intros t Ht. rewrite LK. case_decide; [subst; by rewrite Hp|]. rewrite decide_False by done.
    case_decide; [|done]. by destruct (st !! t). }
  assert (Ph : payload <$> promoted st p heir pe he rest !! heir = Some (payload pe)).
  { rewrite LK, decide_False, decide_True by done. done. }
  unfold shown. rewrite H. rewrite LK in H. case_decide; [by apply (inj Some) in H as <-|]. case_decide as Eh.
  - subst x. apply (inj Some) in H as <-. rewrite Hhe, H2, Hp. done.
  - case_decide as Er.
    + destruct (AL x ltac:(by right)) as (e & E1 & E2 & E3). rewrite E1 in H. apply (inj Some) in H as <-. rewrite E1, E3, Hp.
      exact Ph.
    + rewrite H. destruct (n_linkTo e') as [t|] eqn:Et; [|done]. apply P. intros ->.
      destruct (iv_link _ _ _ (proj1 I) x e' heir H Hlx Et) as (_ & te & T1 & _ & T2 & _). rewrite Hhe in T1.
      apply (inj Some) in T1 as <-. specialize (T2 H1). congruence.
Qed.

(** ** The operations *)

(** Only the tree, the path map and the copied links change. *)
Definition only_tree {D : Type} (w w' : Writer D) : Prop :=
  exists st by_ c, w' = fs_copyLinks c (with_tree st by_ w).

Lemma only_tree_eta {D : Type} (w w' : Writer D) :
  w' = fs_copyLinks (fw_copyLinks w') (with_tree (fw_store w') (fw_byPath w') w) -> only_tree w w'.
Proof. intros E. by eexists _, _, _. Qed.

Lemma only_tree_refl {D : Type} (w : Writer D) : only_tree w w.
Proof. exists (fw_store w), (fw_byPath w), (fw_copyLinks w). reflexivity. Qed.

Lemma only_tree_trans {D : Type} (w1 w2 w3 : Writer D) : only_tree w1 w2 -> only_tree w2 w3 -> only_tree w1 w3.
Proof. intros (s1 & b1 & c1 & ->) (s2 & b2 & c2 & ->). exists s2, b2, c2. reflexivity. Qed.

(** What a removal of the entries of [S] does to the state. *)
Record removes {D : Type} (X S : ptr -> Prop) (w w' : Writer D) : Prop := {
  rm_dies : dies S (fw_store w) (fw_store w');
  rm_inv : inv X (fw_store w') (fw_byPath w');
  rm_shows : shows_same (fw_store w) (fw_store w');
  rm_rest : only_tree w w';
}.

Lemma promoteAlias_ok {D : Type} X (w w1 : Writer D) p pe :
  inv X (fw_store w) (fw_byPath w) -> zlen (fw_store w) <= MaxUint32 -> fw_store w !! p = Some pe -> live pe -> p <> root ->
  n_linkTo pe = None ->
  (forall c ce, fw_store w !! c = Some ce -> live ce -> n_parent ce = Some p -> X c) ->
  w1 = with_tree (<[p := ns_removed true pe]> (fw_store w)) (delete (n_path pe) (fw_byPath w)) w ->
  exists w', promoteAlias p w1 = (Ok tt, w') /\ removes X (eq p) w w'.
Proof.
  intros I Hsm Hp Hl Hr Hln HX ->. set (w1 := with_tree _ _ w). set (st := fw_store w) in *. pose proof (proj1 I) as I1.
  assert (Bp : (p < length st)%nat) by (by eapply lookup_lt_Some).
  assert (W1 : walkable (fw_store w1)) by (by eapply marked_walkable).
  assert (LK : forall x, fw_store w1 !! x = if decide (x = p) then Some (ns_removed true pe) else st !! x) by (intros x; by apply marked_lookup).
  assert (Len : length (fw_store w1) = length st) by apply length_insert.
  destruct (find_aliases_ok w1 p W1 (S (length (fw_store w1))) root []) as (l & L1 & L2 & L3); [rewrite Len; unfold root; lia|lia|].
  (* the aliases, in the old store *)
  assert (AL : forall x, x ∈ l -> exists e, st !! x = Some e /\ live e /\ n_linkTo e = Some p).
  { intros x Hx. apply L3 in Hx as [U (xe & X1 & X2)]. apply under_live in U as (xe' & U1 & U2). rewrite X1 in U1.
    apply (inj Some) in U1 as <-. rewrite LK in X1. case_decide; [|by exists xe]. by apply (inj Some) in X1 as <-. }
  assert (ALL : forall x e, st !! x = Some e -> live e -> n_linkTo e = Some p -> ~ X x -> x ∈ l).
  { intros x e Hx Hlx Hlk HnX. assert (x <> p) by (intros ->; rewrite Hp in Hx; apply (inj Some) in Hx as ->; congruence).
    assert (Hx1 : fw_store w1 !! x = Some e) by (by rewrite LK, decide_False).
    apply L3. split; [|by exists e]. eapply marked_reached; try done.
    intros ->. destruct (iv_root _ _ _ I1) as (r & R1 & _ & R2 & _). destruct (iv_link _ _ _ I1 root e p Hx Hlx Hlk) as [Hd _].
    fold st in R1. rewrite Hx in R1. by apply (inj Some) in R1 as ->. }
  unfold promoteAlias. rewrite (bind_ok _ _ w1 (length (fw_store w1)) w1) by done. rewrite (bind_ok _ _ w1 l w1) by done.
  rewrite (bind_ok _ _ w1 (merge_sort (path_le w1) l) w1) by done.
  pose proof (merge_sort_Permutation (path_le w1) l) as PM. destruct (merge_sort (path_le w1) l) as [|heir rest] eqn:Es.
  - apply Permutation_nil in PM. subst l.
    rewrite (update_eq w1 p (ns_removed true pe)) by (by rewrite LK, decide_True).
    eexists. split; [done|].
    destruct (unlink_last X st (fw_byPath w) p pe (ns_extraLinks 0 (ns_removed true pe))) as [F Iv]; try done.
    { intros x e Hx Hlx Hlk HnX. by apply (ALL x e Hx Hlx Hlk), elem_of_nil in HnX. }
    rewrite <- (list_insert_insert_eq st p _ (ns_removed true pe)) in F, Iv.
    split; [exact F|exact Iv| |by apply only_tree_eta].
    intros x e' _ _. transitivity (shown (<[p := ns_extraLinks 0 (ns_removed true pe)]> st) x); [|by apply (shown_insert _ _ pe)].
    by rewrite <- (list_insert_insert_eq st p _ (ns_removed true pe)).
  - assert (Hnd : NoDup (heir :: rest)) by (rewrite PM; done).
    assert (AL' : forall x, x ∈ heir :: rest -> exists e, st !! x = Some e /\ live e /\ n_linkTo e = Some p).
    { intros x Hx. apply AL. by rewrite <- PM. }
    assert (ALL' : forall x e, st !! x = Some e -> live e -> n_linkTo e = Some p -> ~ X x -> x ∈ heir :: rest).
    { intros x e ? ? ? ?. rewrite PM. by eapply ALL. }
    destruct (AL' heir ltac:(left)) as (he & Hhe & _ & Hhl).
    destruct (heir_facts X st (fw_byPath w) p heir pe he rest I Hp Hln Hnd Hhe AL') as (H1 & _ & H3 & H4 & H5 & _ & _ & _ & H9).
    set (te := ns_removed true pe). assert (Hte : fw_store w1 !! p = Some te) by (by rewrite LK, decide_True).
    rewrite (bind_ok _ _ w1 te w1) by (by apply node_at_eq).
    rewrite (bind_ok _ _ w1 tt _ (update_eq w1 heir he _ ltac:(by rewrite LK, decide_False by congruence))).
    set (w2 := fs_store _ w1).
    assert (LK2 : forall a, a ∈ rest -> is_Some (fw_store w2 !! a)).
    { intros a Ha. destruct (AL' a ltac:(by right)) as (ae & A1 & _). exists ae. cbn.
      rewrite list_lookup_insert_ne by (intros ->; done). rewrite list_lookup_insert_ne by (intros ->; done). done. }
    rewrite (bind_ok _ _ w2 tt _ (for_each_update rest _ w2 LK2)). fold (relink heir rest (fw_store w2)).
    set (w3 := fs_store (relink heir rest (fw_store w2)) w2).
    assert (Hp3 : fw_store w3 !! p = Some te).
    { cbn. rewrite relink_lookup, decide_False by done. rewrite list_lookup_insert_ne by congruence.
      by apply list_lookup_insert_eq. }
    rewrite (bind_ok _ _ w3 tt _ (update_eq w3 p te _ Hp3)). eexists. split; [done|]. split.
    + by apply (promoted_dies X st (fw_byPath w) p heir pe he rest).
    + split.
      * by apply (promoted_shape X st (fw_byPath w) p heir pe he rest).
      * by apply (promoted_counted X st (fw_byPath w) p heir pe he rest).
    + by apply (promoted_shows X st (fw_byPath w) p heir pe he rest).
    + by apply only_tree_eta.
Qed.

Lemma unlinkEntry_ok {D : Type} X (w : Writer D) p pe :
  inv X (fw_store w) (fw_byPath w) -> zlen (fw_store w) <= MaxUint32 -> fw_store w !! p = Some pe -> live pe -> p <> root ->
  (forall c ce, fw_store w !! c = Some ce -> live ce -> n_parent ce = Some p -> X c) ->
  exists w', unlinkEntry p w = (Ok tt, w') /\ removes X (eq p) w w'.
Proof.
  intros I Hsm Hp Hl Hr HX. unfold unlinkEntry. rewrite (bind_ok _ _ w tt _ (update_eq w p pe _ Hp)).
  set (w0 := fs_store _ w). set (pe1 := ns_removed true pe).
  assert (H0 : fw_store w0 !! p = Some pe1) by (apply list_lookup_insert_eq; by eapply lookup_lt_Some).
  rewrite (bind_ok _ _ w0 pe1 w0) by (by apply node_at_eq).
  set (w1 := with_tree (<[p := pe1]> (fw_store w)) (delete (n_path pe) (fw_byPath w)) w).
  rewrite (bind_ok _ _ w0 tt w1) by done. cbn [pe1 n_linkTo n_extraLinks ns_removed].
  destruct (n_linkTo pe) as [t|] eqn:Hlk.
  - destruct (iv_link _ _ _ (proj1 I) p pe t Hp Hl Hlk) as (Hnd & te & T1 & T2 & T3 & T4).
    assert (Htp : t <> p).
    { intros ->. rewrite Hp in T1. apply (inj Some) in T1 as <-. rewrite (T3 Hl) in Hlk. done. }
    rewrite (update_eq w1 t te) by (cbn; by rewrite list_lookup_insert_ne by congruence). eexists. split; [done|].
    destruct (unlink_alias X (fw_store w) (fw_byPath w) p pe t te) as [F Iv]; try done.
    split; [exact F|exact Iv| |by apply only_tree_eta]. intros x e' _ _. transitivity (shown (<[p := pe1]> (fw_store w)) x).
    + apply (shown_insert _ _ te); [|done|done]. exact (eq_trans (list_lookup_insert_ne _ _ _ _ (not_eq_sym Htp)) T1).
    + by apply (shown_insert _ _ pe).
  - destruct (Z.ltb_spec 0 (n_extraLinks pe)) as [He|He]; [by apply (promoteAlias_ok X w w1 p pe)|].
    eexists. split; [done|]. destruct (unlink_last X (fw_store w) (fw_byPath w) p pe pe1) as [F Iv]; try done.
    { intros x e Hx Hlx Hlt _. pose proof (proj2 I p pe Hp Hl Hlk) as C. pose proof (count_pos (links (fw_store w)) p x) as CP.
      rewrite (links_lookup _ _ _ Hx) in CP. specialize (CP ltac:(unfold link_of, live in *; congruence)). lia. }
    split; [exact F|exact Iv| |by apply only_tree_eta]. intros x e' _ _. by apply (shown_insert _ _ pe).
Qed.

(** ** Subtrees *)

(** What is left below an entry that stays, when whole subtrees die. *)
Lemma dies_keeps S st st' k x :
  dies S st st' -> (forall y ye z, st !! z = Some ye -> live ye -> n_parent ye = Some y -> S y -> S z) ->
  under st k x -> ~ S x -> under st' k x.
Proof.
  intros [_ F] Hdown U. induction U as [c ce H Hl Hp|c ce q H Hl Hp U IH]; intros Hn;
    destruct (F c ce H) as (ce' & F1 & (_ & _ & F2 & _) & F3).
  - apply (under_child st' k c ce'); [done|tauto|congruence].
  - apply (under_step st' k c ce' q); [done|tauto|congruence|]. apply IH. intros Hq. apply Hn. by apply (Hdown q ce c).
Qed.

Lemma removes_trans {D : Type} X S1 S2 (w w1 w2 : Writer D) :
  removes X S1 w w1 -> removes X S2 w1 w2 -> removes X (fun x => S1 x \/ S2 x) w w2.
Proof.
  intros [A1 A2 A3 A4] [B1 B2 B3 B4]. split; [by eapply dies_trans|done|by eapply shows_same_trans|by eapply only_tree_trans].
Qed.

Lemma removes_ext {D : Type} X S1 S2 (w w' : Writer D) :
  (forall x e, fw_store w !! x = Some e -> live e -> ~ S1 x <-> ~ S2 x) -> removes X S1 w w' -> removes X S2 w w'.
Proof. intros E [A1 A2 A3 A4]. split; [by eapply dies_ext|done..]. Qed.

(** The subtree at [c], itself included. *)
Definition at_or_under (st : list fsEntry) (c x : ptr) : Prop := x = c \/ under st c x.

Lemma at_or_under_down st c y ye z :
  st !! z = Some ye -> live ye -> n_parent ye = Some y -> at_or_under st c y -> at_or_under st c z.
Proof. intros H Hl Hp [-> | U]; right; [by eapply under_child|by eapply under_step]. Qed.

Lemma removes_zlen {D : Type} X S (w w' : Writer D) : removes X S w w' -> zlen (fw_store w') = zlen (fw_store w).
Proof. intros [[L _] _ _ _]. unfold zlen. by rewrite L. Qed.

(** The death of an entry leaves those below it in place. *)
Lemma under_unmark st st' c x : walkable st -> dies (eq c) st st' -> under st c x -> under st' c x.
Proof.
  intros W [_ F] U. induction U as [k ke K1 K2 K3|k ke q K1 K2 K3 U IH]; destruct (F k ke K1) as (ke' & G1 & (_ & _ & G2 & _) & G3).
  - pose proof (under_lt st c k W (under_child st c k ke K1 K2 K3)). apply (under_child st' c k ke'); [done| |congruence].
    apply G3. split; [done|lia].
  - pose proof (under_lt st c k W (under_step st c k ke q K1 K2 K3 U)). apply (under_step st' c k ke' q); [done| |congruence|done].
    apply G3. split; [done|lia].
Qed.

(** A live child goes with everything below it, given the walk of its subtree. *)
Lemma remove_child_ok {D : Type} X (w : Writer D) c ce (rec : ptr -> M D unit) :
  inv X (fw_store w) (fw_byPath w) -> zlen (fw_store w) <= MaxUint32 -> fw_store w !! c = Some ce -> live ce -> c <> root ->
  (forall x, under (fw_store w) c x -> X x) ->
  (forall w1 ce1, inv X (fw_store w1) (fw_byPath w1) -> length (fw_store w1) = length (fw_store w) ->
     fw_store w1 !! c = Some ce1 -> is_dir ce1 -> (forall x, under (fw_store w1) c x -> X x) ->
     exists w', rec c w1 = (Ok tt, w') /\ removes X (under (fw_store w1) c) w1 w') ->
  exists w', (do! _ := unlinkEntry c in do! ce := node_at c in
     if n_type ce =? StatTypeDir then rec c else ret tt) w = (Ok tt, w') /\
    removes X (at_or_under (fw_store w) c) w w'.
Proof.
  intros I Hsm Hc Hl Hr HX Hrec. pose proof (shape_walkable _ _ _ (proj1 I)) as W.
  destruct (unlinkEntry_ok X w c ce) as (w1 & E1 & R1); try done.
  { intros k ke H1 H2 H3. apply HX. by eapply under_child. }
  rewrite (bind_ok _ _ w tt w1 E1). pose proof (rm_dies _ _ _ _ R1) as F1.
  destruct (proj2 F1 c ce Hc) as (ce1 & C1 & (_ & C2 & _) & _). rewrite (bind_ok _ _ w1 ce1 w1) by (by apply node_at_eq).
  rewrite C2. destruct (Z.eqb_spec (n_type ce) StatTypeDir) as [Hd|Hd].
  - destruct (Hrec w1 ce1 (rm_inv _ _ _ _ R1) (proj1 F1) C1) as (w2 & E2 & R2).
    { unfold is_dir. congruence. }
    { intros x U. apply HX. by eapply dies_under. }
    exists w2. split; [done|]. apply (removes_ext X (fun x => c = x \/ under (fw_store w1) c x)); [|by eapply removes_trans].
    intros x e Hx Hlx. unfold at_or_under. split; intros Hn [? | U]; apply Hn; [by left|..].
    + right. by eapply under_unmark.
    + by left.
    + right. by eapply dies_under.
  - exists w1. split; [done|]. apply (removes_ext X (eq c)); [|done]. intros x e Hx Hlx. unfold at_or_under.
    split; [|intros Hn E; apply Hn; by left]. intros Hn [-> | U]; [done|]. apply under_dir in U as (pe & U1 & U2); [|done].
    rewrite Hc in U1. by apply (inj Some) in U1 as <-.
Qed.

(** The removal below an entry, with enough fuel. *)
Definition removes_below (D : Type) (X : ptr -> Prop) (fuel : nat) : Prop := forall (w : Writer D) p pe,
  inv X (fw_store w) (fw_byPath w) -> zlen (fw_store w) <= MaxUint32 -> fw_store w !! p = Some pe ->
  (length (fw_store w) - p <= fuel)%nat -> (forall x, under (fw_store w) p x -> X x) ->
  exists w', removeSubtree fuel p w = (Ok tt, w') /\ removes X (under (fw_store w) p) w w'.

(** The loop over the children of [p]. *)
Lemma remove_children_ok {D : Type} X fuel p cs : removes_below D X fuel -> forall (w : Writer D),
  inv X (fw_store w) (fw_byPath w) -> zlen (fw_store w) <= MaxUint32 -> (length (fw_store w) - p <= S fuel)%nat ->
  (forall c, c ∈ cs -> exists ce, fw_store w !! c = Some ce /\
     (live ce -> n_parent ce = Some p /\ forall x, at_or_under (fw_store w) c x -> X x)) ->
  exists w', for_each (fun c => do! ce := node_at c in if n_removed ce then ret tt else
      do! _ := unlinkEntry c in do! ce := node_at c in
      if n_type ce =? StatTypeDir then removeSubtree fuel c else ret tt) cs w = (Ok tt, w') /\
    removes X (fun x => exists c ce, c ∈ cs /\ fw_store w !! c = Some ce /\ live ce /\ at_or_under (fw_store w) c x) w w'.
Proof.
  intros IHf. induction cs as [|c cs IH]; intros w I Hsm Hf Hcs.
  { exists w. split; [done|]. split; [|done|done|apply only_tree_refl]. split; [done|]. intros x e H. exists e. split; [done|].
    split; [by repeat split|]. split; [|tauto]. intros ?. split; [done|]. intros (c & ce & Hc & _). by apply elem_of_nil in Hc. }
  pose proof (shape_walkable _ _ _ (proj1 I)) as W.
  destruct (Hcs c ltac:(left)) as (ce & C1 & C2). cbn [for_each].
  destruct (n_removed ce) eqn:Hrm.
  { rewrite (bind_ok _ _ w tt w) by (rewrite (bind_ok _ _ w ce w) by (by apply node_at_eq); by rewrite Hrm).
    destruct (IH w I Hsm Hf) as (w' & E' & R'); [intros c' Hc'; apply Hcs; by right|]. exists w'. split; [done|].
    eapply removes_ext; [|exact R']. intros x e Hx Hlx. split; intros Hn (k & ke & K1 & K2 & K3 & K4); apply Hn; exists k, ke.
    - apply elem_of_cons in K1 as [-> | K1]; [|done]. rewrite C1 in K2. apply (inj Some) in K2 as <-. unfold live in K3. congruence.
    - split; [by right|done]. }
  destruct (C2 Hrm) as [C3 C4].
  assert (Hcr : c <> root).
  { intros ->. destruct (iv_root _ _ _ (proj1 I)) as (r & R1 & _ & _ & _ & R2 & _). rewrite C1 in R1. apply (inj Some) in R1 as <-. congruence. }
  destruct (wk_up _ W c ce p C1 Hrm C3) as (_ & _ & _ & _ & Hlt). pose proof (lookup_lt_Some _ _ _ C1) as Hlen.
  destruct (remove_child_ok X w c ce (removeSubtree fuel)) as (w1 & E1 & R1); try done.
  { intros x U. apply C4. by right. }
  { intros w1 ce1 I1 L1 H1 _ HX1. apply (IHf w1 c ce1); try done; [unfold zlen; by rewrite L1|lia]. }
  rewrite (bind_ok _ _ w tt w1) by (rewrite (bind_ok _ _ w ce w) by (by apply node_at_eq); by rewrite Hrm).
  pose proof (rm_dies _ _ _ _ R1) as F1. pose proof (removes_zlen _ _ _ _ R1) as Z1.
  destruct (IH w1 (rm_inv _ _ _ _ R1)) as (w2 & E2 & R2); [lia|rewrite (proj1 F1); done|..].
  { intros k Hk. destruct (Hcs k ltac:(by right)) as (ke & K1 & K2). destruct (proj2 F1 k ke K1) as (ke' & G1 & (_ & _ & G2 & _) & G3).
    exists ke'. split; [done|]. rewrite G2. intros Hl. destruct (K2 ltac:(tauto)) as [K3 K4]. split; [done|].
    intros x [-> | U]; apply K4; [by left|]. right. by eapply dies_under. }
  exists w2. split; [done|]. eapply removes_ext; [|exact (removes_trans _ _ _ _ _ _ R1 R2)]. intros x e Hx Hlx. cbv beta. split.
  - intros Hn (k & ke & K1 & K2 & K3 & K4). apply elem_of_cons in K1 as [-> | K1]; [tauto|]. apply Hn. right.
    assert (NS : ~ at_or_under (fw_store w) c x) by tauto.
    assert (NK : ~ at_or_under (fw_store w) c k).
    { intros Hk. apply NS. destruct K4 as [-> | U]; [done|]. clear -Hk U. induction U; by eapply at_or_under_down. }
    destruct (proj2 F1 k ke K2) as (ke' & G1 & _ & G3). exists k, ke'. split; [done|]. split; [done|]. split; [tauto|].
    destruct K4 as [-> | U]; [by left|right]. eapply dies_keeps; [exact F1| |done|done].
    intros y ye z. apply at_or_under_down.
  - intros Hn [S1|(k & ke & K1 & K2 & K3 & K4)]; apply Hn.
    + exists c, ce. split; [left|done].
    + destruct (dies_back _ _ _ k ke F1 K2) as (ke0 & G1 & _ & G3). exists k, ke0. split; [by right|]. split; [done|].
      split; [tauto|]. destruct K4 as [-> | U]; [by left|right]. by eapply dies_under.
Qed.

Lemma removeSubtree_ok {D : Type} X fuel : removes_below D X fuel.
Proof.
  induction fuel as [|fuel IHf]; intros w p pe I Hsm Hp Hf HX; [apply lookup_lt_Some in Hp; lia|].
  cbn [removeSubtree]. rewrite (bind_ok _ _ w pe w) by (by apply node_at_eq).
  pose proof (shape_walkable _ _ _ (proj1 I)) as W.
  destruct (remove_children_ok X fuel p (n_children pe) IHf w I Hsm Hf) as (w' & E & R).
  - intros c Hc. destruct (wk_down _ W p pe c Hp Hc) as (ce & C1 & C2). exists ce. split; [done|]. intros Hl. split; [by apply C2|].
    intros x Hx. apply HX. apply (under_children _ p pe x W Hp). by exists c, ce.
  - exists w'. split; [exact E|]. eapply removes_ext; [|exact R]. intros x e Hx Hlx. by rewrite (under_children _ p pe x W Hp).
Qed.

(** ** Whole subtrees *)

(** The entries about to go are excused; once they are gone nobody is. *)
Lemma inv_excuse X st by_ :
  inv no_one st by_ -> ~ X root -> (forall y ye z, st !! z = Some ye -> live ye -> n_parent ye = Some y -> X y -> X z) ->
  inv X st by_.
Proof.
  intros [[I1 I2 I3 I4 I5 I6 I7] Hc] Hr Hd. split; [|done]. split; try done.
  - destruct I1 as (r & R1 & R2 & R3 & R4 & R5 & _). by exists r.
  - intros p e H Hl Hp. destruct (I4 p e H Hl Hp) as [G (q & qe & Q1 & Q2 & Q3 & Q4 & Q5 & Q6 & Q7)]. split; [done|].
    exists q, qe. do 6 (split; [done|]). intros HnX. split; [by apply Q7; intros []|]. intros Hq. apply HnX. by apply (Hd q e p).
  - intros p e t H Hl Ht. destruct (I7 p e t H Hl Ht) as (L1 & te & L2 & L3 & L4 & L5). split; [done|]. exists te.
    do 3 (split; [done|]). intros _. by apply L5; intros [].
Qed.

Lemma inv_settle X st by_ : inv X st by_ -> (forall x e, st !! x = Some e -> live e -> ~ X x) -> inv no_one st by_.
Proof.
  intros [[I1 I2 I3 I4 I5 I6 I7] Hc] Hn. split; [|done]. split; try done.
  - destruct I1 as (r & R1 & R2 & R3 & R4 & R5 & _). exists r. do 5 (split; [done|]). by intros [].
  - intros p e H Hl Hp. destruct (I4 p e H Hl Hp) as [G (q & qe & Q1 & Q2 & Q3 & Q4 & Q5 & Q6 & Q7)]. split; [done|].
    exists q, qe. do 6 (split; [done|]). intros _. split; [by apply Q7, (Hn p e)|by intros []].
  - intros p e t H Hl Ht. destruct (I7 p e t H Hl Ht) as (L1 & te & L2 & L3 & L4 & L5). split; [done|]. exists te.
    do 3 (split; [done|]). intros _. by apply L5, (Hn p e).
Qed.

Lemma under_down st p y ye z :
  st !! z = Some ye -> live ye -> n_parent ye = Some y -> under st p y -> under st p z.
Proof. intros. by eapply under_step. Qed.

Lemma removes_settle {D : Type} X S (w w' : Writer D) :
  removes X S w w' -> (forall x e, fw_store w !! x = Some e -> live e -> X x -> S x) -> removes no_one S w w'.
Proof.
  intros [F Iv Sh O] H. split; [done| |done|done]. apply (inv_settle X); [done|]. intros x e' Hx Hl HX.
  destruct (dies_back _ _ _ x e' F Hx) as (e & E1 & _ & E3). apply E3 in Hl. destruct Hl as [Hl Hn]. apply Hn. by apply (H x e).
Qed.

Lemma under_not_root X st by_ p : shape X st by_ -> ~ under st p root.
Proof.
  intros I U. destruct (iv_root _ _ _ I) as (r & R1 & _ & _ & _ & R2 & _).
  inversion U as [c ce H1 H2 H3|c ce q H1 H2 H3]; subst; rewrite R1 in H1; apply (inj Some) in H1 as <-; congruence.
Qed.

(** [removeTree] removes the entry of a path and all below it, and nothing else. *)
Lemma removeTree_ok {D : Type} (w : Writer D) name p :
  inv no_one (fw_store w) (fw_byPath w) -> zlen (fw_store w) <= MaxUint32 ->
  fw_byPath w !! cleanPath name = Some p -> p <> root ->
  exists w', removeTree name w = (Ok tt, w') /\ removes no_one (at_or_under (fw_store w) p) w w'.
Proof.
  intros I Hsm Hp Hr. unfold removeTree. rewrite (bind_ok _ _ w (Some p) w) by (unfold by_path, gets; by rewrite Hp).
  destruct (iv_by _ _ _ (proj1 I) _ _ Hp) as (pe & P1 & P2 & P3). set (X := under (fw_store w) p).
  assert (IX : inv X (fw_store w) (fw_byPath w)).
  { apply inv_excuse; [done|by eapply under_not_root, (proj1 I)|]. intros y ye z. apply under_down. }
  destruct (remove_child_ok X w p pe remove_below) as (w' & E & R); try done.
  - intros w1 pe1 I1 L1 H1 _ HX1. unfold remove_below. rewrite (bind_ok _ _ w1 (length (fw_store w1)) w1) by done.
    apply (removeSubtree_ok X _ w1 p pe1); try done; [unfold zlen in *; lia|lia].
  - exists w'. split; [exact E|]. apply (removes_settle X); [done|]. intros x e _ _ U. by right.
Qed.

(** [removeChildren] empties a directory. *)
Lemma removeChildren_ok {D : Type} (w : Writer D) dir p :
  inv no_one (fw_store w) (fw_byPath w) -> zlen (fw_store w) <= MaxUint32 -> fw_byPath w !! cleanPath dir = Some p ->
  exists w', removeChildren dir w = (Ok tt, w') /\ removes no_one (under (fw_store w) p) w w'.
Proof.
  intros I Hsm Hp. unfold removeChildren. rewrite (bind_ok _ _ w (Some p) w) by (unfold by_path, gets; by rewrite Hp).
  destruct (iv_by _ _ _ (proj1 I) _ _ Hp) as (pe & P1 & P2 & P3). set (X := under (fw_store w) p).
  assert (IX : inv X (fw_store w) (fw_byPath w)).
  { apply inv_excuse; [done|by eapply under_not_root, (proj1 I)|]. intros y ye z. apply under_down. }
  unfold remove_below. rewrite (bind_ok _ _ w (length (fw_store w)) w) by done.
  destruct (removeSubtree_ok X (length (fw_store w)) w p pe) as (w' & E & R); try done; [lia|].
  exists w'. split; [exact E|]. by apply (removes_settle X).
Qed.
