(* ===== verification/TreeOps.v ===== *)
(** * The methods keep the writer's tree

    Creating parents and entries, and every method of the [Writer] and its
    [File]s (Mkfs.v), against the invariant of TreeInv.v. *)

From S2P Require Import Prelude Machine Disk Format Image Inode Path Layout FsTree Mkfs TreeInv TreeRemove.

(** ** Growing the tree *)

(** Entries stay as they are but for children added; names stay. *)
Record grows {D : Type} (w w' : Writer D) : Prop := {
  gr_store p e : fw_store w !! p = Some e -> exists cs, fw_store w' !! p = Some (ns_children (n_children e ++ cs) e);
  gr_by k p : fw_byPath w !! k = Some p -> fw_byPath w' !! k = Some p;
  gr_rest : only_tree w w';
}.

Lemma grows_refl {D : Type} (w : Writer D) : grows w w.
Proof. split; [|done|apply only_tree_refl]. intros p e H. exists []. by rewrite app_nil_r. Qed.

Lemma grows_trans {D : Type} (w1 w2 w3 : Writer D) : grows w1 w2 -> grows w2 w3 -> grows w1 w3.
Proof.
  intros [A1 A2 A3] [B1 B2 B3]. split; [|auto|by eapply only_tree_trans]. intros p e H.
  destruct (A1 p e H) as (cs & H1). destruct (B1 _ _ H1) as (cs' & H2). exists (cs ++ cs'). rewrite H2, app_assoc. done.
Qed.

(** The invariant proper of a writer. *)
Definition good {D : Type} (w : Writer D) : Prop := inv no_one (fw_store w) (fw_byPath w).

Lemma good_elems_snoc l x : good_elems (l ++ [x]) -> good_elems l /\ good_elems [x].
Proof. apply good_elems_app. Qed.

Lemma abs_snoc_length l x : good_elems (l ++ [x]) -> (length (abs l) < length (abs (l ++ [x])))%nat.
Proof.
  intros [Hl Hx]%good_elems_app. apply Forall_inv in Hx as [Hx _]. rewrite abs_snoc. case_decide as E.
  - subst. cbn. destruct x; [done|]. cbn. lia.
  - rewrite length_app. cbn. lia.
Qed.

Lemma abs_snoc_root l x : good_elems (l ++ [x]) -> abs (l ++ [x]) <> [slash].
Proof. intros H E. apply abs_snoc_length in H. rewrite E in H. cbn in H. lia. Qed.

(** The parent of a registered path is registered, and a directory. *)
Lemma parent_registered {D : Type} (w : Writer D) l x p :
  good w -> good_elems (l ++ [x]) -> fw_byPath w !! abs (l ++ [x]) = Some p ->
  exists q qe, fw_byPath w !! abs l = Some q /\ fw_store w !! q = Some qe /\ is_dir qe.
Proof.
  intros [I _] Hg Hp. destruct (iv_by _ _ _ I _ _ Hp) as (e & E1 & E2 & E3).
  assert (Hr : p <> root).
  { intros ->. destruct (iv_root _ _ _ I) as (r & R1 & R2 & _). rewrite E1 in R1. apply (inj Some) in R1 as <-.
    apply (abs_snoc_root l x); [done|]. congruence. }
  destruct (iv_seated _ _ _ I p e E1 E3 Hr) as [_ (q & qe & _ & _ & Q3 & Q4 & Q5 & _ & Q7)].
  destruct Q7 as [Q7 _]; [by intros []|]. exists q, qe. rewrite E2, Dir_abs in Q5 by done. split; [|done]. rewrite <- Q5.
  by apply (iv_live _ _ _ I).
Qed.

Lemma root_registered {D : Type} (w : Writer D) :
  good w -> exists qe, fw_byPath w !! abs [] = Some root /\ fw_store w !! root = Some qe /\ is_dir qe.
Proof.
  intros [I _]. destruct (iv_root _ _ _ I) as (r & R1 & R2 & R3 & R4 & _). exists r. split; [|done].
  rewrite abs_root, <- R2. by apply (iv_live _ _ _ I).
Qed.

(** A fresh entry under a registered directory. *)
Lemma add_node_ok {D : Type} (w : Writer D) e l x q qe :
  good w -> good_elems (l ++ [x]) -> n_path e = abs (l ++ [x]) -> fw_byPath w !! n_path e = None ->
  fw_byPath w !! abs l = Some q -> fw_store w !! q = Some qe -> is_dir qe ->
  live e -> n_children e = [] -> n_linkTo e = None -> n_extraLinks e = 0 ->
  exists w', add_node e w = (Ok (length (fw_store w)), w') /\ good w' /\ grows w w' /\
    fw_byPath w' = <[n_path e := length (fw_store w)]> (fw_byPath w) /\
    fw_store w' = st_add (fw_store w) q qe e.
Proof.
  intros I Hg Hp Hn Hq Hqe Hd Hl Hc Hlk Hx. assert (Hdir : fw_byPath w !! Dir (n_path e) = Some q) by (by rewrite Hp, Dir_abs).
  eexists. split; [by eapply add_node_eq|]. split; [|split; [|done]].
  - apply inv_add; try done; [by exists l, x|by intros []..].
  - split.
    + intros p pe Hpe. cbn [fw_store with_tree fs_byPath fs_store]. rewrite st_add_lookup by (by eapply lookup_lt_Some).
      pose proof (lookup_lt_Some _ _ _ Hpe). case_decide as E.
      * subst p. rewrite Hqe in Hpe. apply (inj Some) in Hpe as <-. by eexists.
      * rewrite decide_False by lia. exists []. by rewrite app_nil_r.
    + intros k p Hk. cbn. destruct (decide (k = n_path e)) as [->|Hne]; [congruence|]. by rewrite lookup_insert_ne.
    + by apply only_tree_eta.
Qed.

(** ** The parents a path implies *)

(** The prefixes of [l0 ++ l1] past [l0]. *)
Fixpoint prefixes (l0 l1 : list bytes) : list bytes :=
  match l1 with
  | [] => []
  | x :: l1 => abs (l0 ++ [x]) :: prefixes (l0 ++ [x]) l1
  end.

Lemma prefixes_snoc l0 l1 x : prefixes l0 (l1 ++ [x]) = prefixes l0 l1 ++ [abs (l0 ++ l1 ++ [x])].
Proof.
  revert l0. induction l1 as [|y l1 IH]; intros l0; [done|]. cbn. rewrite IH. do 3 f_equal. by rewrite <- !app_assoc.
Qed.

(** The walk up stops at the nearest registered ancestor. *)
Lemma missing_parents_ok {D : Type} (w : Writer D) :
  good w -> forall fuel l acc, good_elems l -> (length l < fuel)%nat ->
  missing_parents fuel (abs l) acc w = (Err ErrNotDirectory, w) \/
  exists l0 l1, l = l0 ++ l1 /\ missing_parents fuel (abs l) acc w = (Ok (acc ++ rev (prefixes l0 l1)), w) /\
    (exists q qe, fw_byPath w !! abs l0 = Some q /\ fw_store w !! q = Some qe /\ is_dir qe) /\
    match l1 with [] => True | x :: _ => fw_byPath w !! abs (l0 ++ [x]) = None end.
Proof.
  intros G. induction fuel as [|fuel IH]; intros l acc Hl Hf; [lia|]. cbn [missing_parents].
  destruct (beqb (abs l) [slash]) eqn:B.
  { apply beqb_eq in B. rewrite <- abs_root in B. apply abs_inj in B; [|done|constructor]. subst l. right.
    exists [], []. split; [done|]. cbn. rewrite app_nil_r. split; [done|]. split; [|done].
    destruct (root_registered w G) as (qe & Q). by exists root, qe. }
  rewrite (bind_ok _ _ w (fw_byPath w !! abs l) w) by done.
  destruct (fw_byPath w !! abs l) as [p|] eqn:Hp.
  - destruct (iv_by _ _ _ (proj1 G) _ _ Hp) as (e & E1 & E2 & E3). rewrite (bind_ok _ _ w e w) by (by apply node_at_eq).
    assert (R : exists e', (match n_linkTo e with Some t => node_at t | None => ret e end) w = (Ok e', w) /\ n_type e' = n_type e).
    { destruct (n_linkTo e) as [t|] eqn:Et; [|by exists e].
      destruct (iv_link _ _ _ (proj1 G) p e t E1 E3 Et) as (_ & te & T1 & T2 & _). exists te. split; [by apply node_at_eq|done]. }
    destruct R as (e' & R1 & R2). rewrite (bind_ok _ _ w e' w) by done. rewrite R2.
    destruct (Z.eqb_spec (n_type e) StatTypeDir) as [Hd|Hd]; [right|by left]. exists l, []. cbn [prefixes rev]. rewrite !app_nil_r.
    split; [done|]. split; [done|]. split; [|done]. by exists p, e.
  - destruct l as [|x l _] using rev_ind; [done|]. rewrite Dir_abs by done. rewrite length_app in Hf. cbn in Hf.
    destruct (good_elems_snoc l x Hl) as [Hl0 Hx0].
    destruct (IH l (acc ++ [abs (l ++ [x])]) Hl0) as [E|(l0 & l1 & E1 & E2 & E3 & E4)]; [lia|by left|]. right.
    exists l0, (l1 ++ [x]). subst l. split; [by rewrite app_assoc|]. split; [|split; [done|]].
    + rewrite E2, prefixes_snoc, rev_app_distr. cbn. by rewrite <- !app_assoc.
    + destruct l1; [by rewrite app_nil_r in Hp|done].
Qed.

(** A path whose parent is missing is missing. *)
Lemma child_missing {D : Type} (w : Writer D) l x :
  good w -> good_elems (l ++ [x]) -> fw_byPath w !! abs l = None -> fw_byPath w !! abs (l ++ [x]) = None.
Proof.
  intros G Hg Hn. destruct (fw_byPath w !! abs (l ++ [x])) as [p|] eqn:E; [|done].
  destruct (parent_registered w l x p G Hg E) as (q & qe & Q & _). congruence.
Qed.

(** The missing directories, from the top. *)
Lemma make_parents_ok {D : Type} l1 : forall (w : Writer D) l0 q qe,
  good w -> good_elems (l0 ++ l1) -> fw_byPath w !! abs l0 = Some q -> fw_store w !! q = Some qe -> is_dir qe ->
  match l1 with [] => True | x :: _ => fw_byPath w !! abs (l0 ++ [x]) = None end ->
  exists w' q' qe', for_each (fun d => do! _ := add_node (new_node d dir_mode) in ret tt) (prefixes l0 l1) w = (Ok tt, w') /\
    good w' /\ grows w w' /\ fw_byPath w' !! abs (l0 ++ l1) = Some q' /\ fw_store w' !! q' = Some qe' /\ is_dir qe' /\
    forall k, (length (abs (l0 ++ l1)) < length k)%nat -> fw_byPath w' !! k = fw_byPath w !! k.
Proof.
  induction l1 as [|x l1 IH]; intros w l0 q qe G Hg Hq Hqe Hd Hm.
  { exists w, q, qe. rewrite app_nil_r. repeat (split; [done|]). split; [apply grows_refl|done]. }
  replace (l0 ++ x :: l1) with ((l0 ++ [x]) ++ l1) in * by (by rewrite <- app_assoc).
  assert (Hg1 : good_elems (l0 ++ [x])) by (by apply good_elems_app in Hg as [? _]).
  destruct (add_node_ok w (new_node (abs (l0 ++ [x])) dir_mode) l0 x q qe) as (w1 & A1 & A2 & A3 & A4 & A5); try done.
  cbn [prefixes for_each]. rewrite (bind_ok _ _ w tt w1) by (by rewrite (bind_ok _ _ w (length (fw_store w)) w1)).
  cbn [n_path new_node] in A4.
  assert (B1 : fw_byPath w1 !! abs (l0 ++ [x]) = Some (length (fw_store w))) by (rewrite A4; apply lookup_insert_eq).
  destruct (iv_by _ _ _ (proj1 A2) _ _ B1) as (e1 & E1 & E2 & E3).
  assert (Hd1 : is_dir e1).
  { rewrite A5, st_add_lookup in E1 by (by eapply lookup_lt_Some). apply lookup_lt_Some in Hqe.
    rewrite decide_False, decide_True in E1 by lia. by apply (inj Some) in E1 as <-. }
  destruct (IH w1 (l0 ++ [x]) (length (fw_store w)) e1) as (w2 & q2 & qe2 & B2 & B3 & B4 & B5 & B6 & B7 & B8); try done.
  { destruct l1 as [|y l1]; [done|]. assert (Hgy : good_elems ((l0 ++ [x]) ++ [y])).
    { rewrite cons_middle, app_assoc in Hg. by apply good_elems_app in Hg as [? _]. }
    rewrite A4, lookup_insert_ne; [by apply child_missing|]. intros E. apply abs_snoc_length in Hgy. rewrite E in Hgy. lia. }
  exists w2, q2, qe2. split; [done|]. split; [done|]. split; [by eapply grows_trans|]. do 3 (split; [done|]).
  intros k Hk. rewrite B8 by done. rewrite A4. apply lookup_insert_ne. intros <-.
  assert (Hle : (length (abs (l0 ++ [x])) <= length (abs ((l0 ++ [x]) ++ l1)))%nat); [|lia].
  clear -Hg. revert Hg. generalize (l0 ++ [x]). induction l1 as [|y l1 IH2]; intros l Hg; [by rewrite app_nil_r|].
  replace (l ++ y :: l1) with ((l ++ [y]) ++ l1) in * by (by rewrite <- app_assoc). specialize (IH2 _ Hg).
  apply good_elems_app in Hg as [Hg _]. apply abs_snoc_length in Hg. lia.
Qed.

Lemma abs_length l : good_elems l -> (length l < length (abs l))%nat.
Proof.
  induction l as [|x l IH] using rev_ind; intros H; [cbn; lia|]. rewrite length_app. cbn [length].
  pose proof (abs_snoc_length _ _ H). apply good_elems_snoc in H as [H _]. specialize (IH H). lia.
Qed.

(** [ensureParent] leaves a registered directory above the path, or refuses. *)
Lemma ensureParent_ok {D : Type} (w : Writer D) l x :
  good w -> good_elems (l ++ [x]) ->
  ensureParent (abs (l ++ [x])) w = (Err ErrNotDirectory, w) \/
  exists w' q qe, ensureParent (abs (l ++ [x])) w = (Ok tt, w') /\ good w' /\ grows w w' /\
    fw_byPath w' !! abs l = Some q /\ fw_store w' !! q = Some qe /\ is_dir qe /\
    fw_byPath w' !! abs (l ++ [x]) = fw_byPath w !! abs (l ++ [x]).
Proof.
  intros G Hg. destruct (good_elems_snoc l x Hg) as [Hl _]. unfold ensureParent. rewrite Dir_abs by done.
  destruct (beqb (abs l) [slash]) eqn:B.
  { right. apply beqb_eq in B. rewrite <- abs_root in B. apply abs_inj in B; [|done|constructor]. subst l.
    destruct (root_registered w G) as (qe & Q1 & Q2 & Q3). exists w, root, qe. split; [done|]. split; [done|].
    split; [apply grows_refl|done]. }
  destruct (missing_parents_ok w G (S (length (abs l))) l [] Hl) as [E|(l0 & l1 & -> & E2 & (q & qe & Q1 & Q2 & Q3) & E4)].
  { pose proof (abs_length l Hl). lia. }
  { left. unfold bind. by rewrite E. }
  right. rewrite (bind_ok _ _ w _ w E2). cbn [app]. rewrite rev_involutive.
  destruct (make_parents_ok l1 w l0 q qe) as (w' & q' & qe' & M1 & M2 & M3 & M4 & M5 & M6 & M7); try done.
  exists w', q', qe'. do 6 (split; [done|]). apply M7. by apply abs_snoc_length.
Qed.

(** A new entry with its parents. *)
Lemma new_entry_ok {D : Type} (w : Writer D) e l x :
  good w -> good_elems (l ++ [x]) -> n_path e = abs (l ++ [x]) -> fw_byPath w !! n_path e = None ->
  live e -> n_children e = [] -> n_linkTo e = None -> n_extraLinks e = 0 ->
  ensureParent (n_path e) w = (Err ErrNotDirectory, w) \/
  exists w1 w2 p q, ensureParent (n_path e) w = (Ok tt, w1) /\ good w1 /\ grows w w1 /\
    add_node e w1 = (Ok p, w2) /\ good w2 /\ grows w1 w2 /\
    fw_byPath w2 = <[n_path e := p]> (fw_byPath w1) /\ fw_store w2 !! p = Some (ns_parent (Some q) e).
Proof.
  intros G Hg Hp Hn Hl Hc Hlk Hx. rewrite Hp in *. destruct (ensureParent_ok w l x G Hg) as [E|(w1 & q & qe & E1 & E2 & E3 & E4 & E5 & E6 & E7)]; [by left|].
  right. destruct (add_node_ok w1 e l x q qe) as (w2 & A1 & A2 & A3 & A4 & A5); try done; [rewrite Hp; congruence|].
  exists w1, w2, (length (fw_store w1)), q. rewrite Hp in A4. do 7 (split; [done|]).
  rewrite A5, st_add_lookup by (by eapply lookup_lt_Some). apply lookup_lt_Some in E5. rewrite decide_False by lia. by rewrite decide_True.
Qed.

(** ** Properties of the state that steps keep *)

Section Keeps.
Context {D : Type} (P : Writer D -> Prop).

(** A step that keeps a property of the state, whatever it answers. *)
Definition keeps {A} (m : M D A) : Prop := forall w, P w -> P (m w).2.

Lemma keeps_ret {A} (a : A) : keeps (ret a).
Proof. by intros w. Qed.
Lemma keeps_fail {A} e : keeps (@fail D A e).
Proof. by intros w. Qed.
Lemma keeps_of_res {A} (r : res A) : keeps (of_res r).
Proof. by intros w. Qed.
Lemma keeps_gets {A} (f : Writer D -> A) : keeps (gets f).
Proof. by intros w. Qed.
Lemma keeps_node_at p : keeps (@node_at D p).
Proof. by intros w. Qed.
Lemma keeps_file_at f : keeps (@file_at D f).
Proof. by intros w. Qed.
Lemma keeps_by_path name : keeps (@by_path D name).
Proof. by intros w. Qed.
Lemma keeps_modify f : (forall w : Writer D, P w -> P (f w)) -> keeps (modify f).
Proof. intros E w G. by apply E. Qed.
Lemma keeps_bind {A B} (m : M D A) (k : A -> M D B) : keeps m -> (forall a, keeps (k a)) -> keeps (bind m k).
Proof.
  intros Hm Hk w G. unfold bind. specialize (Hm w G). destruct (m w) as [[a|e|] w']; [by apply Hk|done|done].
Qed.
Lemma keeps_if {A} (b : bool) (m m' : M D A) : keeps m -> keeps m' -> keeps (if b then m else m').
Proof. by destruct b. Qed.
Lemma keeps_for_each {A} (f : A -> M D unit) l : (forall a, keeps (f a)) -> keeps (for_each f l).
Proof. intros Hf. induction l as [|a l IH]; [apply keeps_ret|]. apply keeps_bind; auto. Qed.

End Keeps.

(** A change of an entry's other fields. *)
Lemma keeps_update {D : Type} p f :
  (forall e, skel (f e) = skel e /\ n_extraLinks (f e) = n_extraLinks e) -> keeps good (@update D p f).
Proof.
  intros E w G. destruct (fw_store w !! p) as [e|] eqn:Hp.
  - rewrite (update_eq w p e f Hp). cbn. destruct (E e). by apply (inv_insert _ _ _ _ e).
  - unfold update, bind, node_at. by rewrite Hp.
Qed.

Create HintDb tree.
#[export] Hint Resolve keeps_ret keeps_fail keeps_of_res keeps_gets keeps_node_at keeps_file_at keeps_by_path keeps_if : tree.

(** Steps through a method whose changes are outside the tree. *)
Ltac keep :=
  repeat (intros; match goal with
  | |- keeps _ (bind _ _) => apply keeps_bind
  | |- keeps _ (if _ then _ else _) => apply keeps_if
  | |- keeps _ (match ?x with _ => _ end) => destruct x
  | |- keeps _ (modify _) => apply keeps_modify; try (intros ? Hkeep; exact Hkeep)
  | |- keeps good (update _ _) => apply keeps_update; try (intros ?; split; reflexivity)
  | |- keeps _ _ => solve [eauto with tree]
  end).

Section Methods.
Context {D : Type} `{DataFile D}.

Lemma keeps_resolveBlockSize : keeps good (@resolveBlockSize D).
Proof.
  unfold resolveBlockSize. keep. intros w G. by destruct (fw_blockSize w =? 0).
Qed.
Hint Resolve keeps_resolveBlockSize : tree.

Lemma keeps_write_data_file p : keeps good (write_data_file p).
Proof. unfold write_data_file. keep. Qed.
Lemma keeps_write_spool p : keeps good (write_spool p).
Proof. unfold write_spool. keep. Qed.
Hint Resolve keeps_write_data_file keeps_write_spool : tree.

Lemma keeps_pad n : keeps good (pad_data_file n).
Proof. unfold pad_data_file. keep. Qed.
Hint Resolve keeps_pad : tree.

Lemma keeps_alignDataOff : keeps good alignDataOff.
Proof. unfold alignDataOff. keep. Qed.
Lemma keeps_ensureSpool : keeps good ensureSpool.
Proof. unfold ensureSpool. keep. Qed.
Lemma keeps_set_file f x : keeps good (@set_file D f x).
Proof. unfold set_file. keep. Qed.
Lemma keeps_new_file x : keeps good (@new_file' D x).
Proof. by intros w. Qed.
Hint Resolve keeps_alignDataOff keeps_ensureSpool keeps_set_file keeps_new_file : tree.

Lemma keeps_File_Write f p : keeps good (File_Write f p).
Proof. unfold File_Write. keep. Qed.
Hint Resolve keeps_File_Write : tree.

Lemma keeps_ReadFrom f r : keeps good (ReadFrom f r).
Proof.
  unfold ReadFrom. generalize (sm_last r) (sm_err r) 0. induction (sm_reads r) as [|b l IH]; intros last er n; cbn [read_from]; keep.
Qed.

Lemma keeps_closeDataFile f : keeps good (closeDataFile f).
Proof. unfold closeDataFile. keep. Qed.
Hint Resolve keeps_closeDataFile : tree.

Lemma keeps_File_Close f : keeps good (File_Close f).
Proof. unfold File_Close. keep. Qed.

(** Permission bits leave the type alone. *)
Lemma set_perm_type mode e : n_type (set_perm mode e) = n_type e.
Proof.
  unfold set_perm, n_type, perm_bits, andnot. cbn [n_mode ns_mode]. apply Z.bits_inj'. intros i Hi.
  rewrite !Z.land_spec, !Z.lor_spec, !Z.land_spec, Z.lnot_spec by done.
  destruct (Z.testbit StatTypeMask i), (Z.testbit (n_mode e) i), (Z.testbit (goModeToUnixMode mode) i); done.
Qed.

Lemma set_perm_skel mode e : skel (set_perm mode e) = skel e /\ n_extraLinks (set_perm mode e) = n_extraLinks e.
Proof. split; [|done]. unfold skel. by rewrite set_perm_type. Qed.
Hint Resolve set_perm_skel : tree.

Lemma keeps_File_Chmod f mode : keeps good (@File_Chmod D f mode).
Proof. unfold File_Chmod. keep. apply set_perm_skel. Qed.
Lemma keeps_File_Chown f uid gid : keeps good (@File_Chown D f uid gid).
Proof. unfold File_Chown. keep. Qed.

Lemma keeps_lookup_entry name : keeps good (@lookup_entry D name).
Proof. unfold lookup_entry, by_path. keep. Qed.
Lemma keeps_sticky : keeps good (@sticky D).
Proof. unfold sticky. keep. Qed.
Hint Resolve keeps_lookup_entry keeps_sticky : tree.

Lemma keeps_Chmod name mode : keeps good (@Chmod D name mode).
Proof. unfold Chmod. keep. apply set_perm_skel. Qed.
Lemma keeps_Chown name uid gid : keeps good (@Chown D name uid gid).
Proof. unfold Chown. keep. Qed.
Lemma keeps_Chtimes name a m : keeps good (@Chtimes D name a m).
Proof. unfold Chtimes. keep. Qed.
Lemma keeps_Setxattr name a v : keeps good (@Setxattr D name a v).
Proof. unfold Setxattr. keep. Qed.
Lemma keeps_SetNlink name n : keeps good (@SetNlink D name n).
Proof. unfold SetNlink. keep. Qed.

(** ** Methods that create *)

Lemma checkPath_cases (w : Writer D) name :
  (exists e, checkPath name w = (Err e, w)) \/ (checkPath name w = (Ok tt, w) /\ fw_byPath w !! name = None).
Proof.
  unfold checkPath. rewrite (bind_ok _ _ w (fw_closed w) w) by done. destruct (fw_closed w); [left; by eexists|].
  destruct (checkPathLen name) as [[]|e|] eqn:E1; [|left; by eexists|unfold checkPathLen in E1; by destruct (_ <? _)].
  rewrite (bind_ok _ _ w tt w) by done.
  destruct (checkNameLen name) as [[]|e|] eqn:E2; [|left; by eexists|unfold checkNameLen in E2; by destruct (existsb _ _)].
  rewrite (bind_ok _ _ w tt w), (bind_ok _ _ w (fw_byPath w !! name) w) by done.
  destruct (fw_byPath w !! name); [left; by eexists|by right].
Qed.

(** The end of a creating method. *)
Lemma keeps_new (w : Writer D) e l x {A} (k : ptr -> M D A) :
  good w -> good_elems (l ++ [x]) -> n_path e = abs (l ++ [x]) -> fw_byPath w !! n_path e = None ->
  live e -> n_children e = [] -> n_linkTo e = None -> n_extraLinks e = 0 -> (forall p, keeps good (k p)) ->
  good ((do! _ := ensureParent (n_path e) in do! p := add_node e in k p) w).2.
Proof.
  intros G Hg Hp Hn Hl Hc Hlk Hx Hk.
  destruct (new_entry_ok w e l x) as [E|(w1 & w2 & p & q & E1 & E2 & E3 & E4 & E5 & _)]; try done.
  - unfold bind at 1. by rewrite E.
  - rewrite (bind_ok _ _ w tt w1), (bind_ok _ _ w1 p w2) by done. by apply Hk.
Qed.

(** A rooted name that is not the root. *)
Lemma rooted_snoc name : rooted name -> beqb (cleanPath name) [slash] = false ->
  exists l x, good_elems (l ++ [x]) /\ cleanPath name = abs (l ++ [x]).
Proof.
  intros (l & Hl & ->) Hb. destruct l as [|x l _] using rev_ind; [done|]. by exists l, x.
Qed.

(** Up to the new entry. *)
Lemma keeps_create name {A} (k : M D A) :
  rooted name ->
  (forall w l x, good w -> beqb (cleanPath name) [slash] = false -> good_elems (l ++ [x]) -> cleanPath name = abs (l ++ [x]) ->
     fw_byPath w !! cleanPath name = None -> good (k w).2) ->
  beqb (cleanPath name) [slash] = false -> keeps good (do! _ := checkPath (cleanPath name) in k).
Proof.
  intros Hr Hk Hb w G. destruct (rooted_snoc name Hr Hb) as (l & x & Hg & E).
  destruct (checkPath_cases w (cleanPath name)) as [[e C]|[C Hn]]; [unfold bind; by rewrite C|].
  rewrite (bind_ok _ _ w tt w C). by apply (Hk w l x).
Qed.

Lemma keeps_Create name : rooted name -> keeps good (Create name).
Proof.
  intros Hr. unfold Create. apply keeps_bind; [apply keeps_sticky|]. intros _. apply keeps_bind; [unfold checkNoOpenFile; keep|].
  intros _. destruct (beqb (cleanPath name) [slash]) eqn:Hb; [keep|].
  apply keeps_create; [done| |done]. intros w l x G _ Hg Hp Hn. apply (keeps_new w (new_node (cleanPath name) reg_mode) l x); try done.
  keep.
Qed.

Lemma keeps_Mkdir name perm : rooted name -> keeps good (@Mkdir D name perm).
Proof.
  intros Hr. unfold Mkdir. apply keeps_bind; [apply keeps_sticky|]. intros _.
  destruct (beqb (cleanPath name) [slash]) eqn:Hb.
  - intros w G. pose proof G as [I _]. destruct (iv_root _ _ _ I) as (r & R1 & _ & R3 & _).
    rewrite (update_eq w root r) by done. cbn. apply (inv_insert _ _ _ _ r); [done|done| |done].
    unfold skel. replace (n_type (ns_mode (Z.lor StatTypeDir (perm_bits perm)) r)) with (n_type r); [done|].
    rewrite R3. symmetry. transitivity (n_type (set_perm perm r)); [|by rewrite set_perm_type].
    unfold set_perm. by rewrite R3.
  - apply keeps_create; [done| |done]. intros w l x G _ Hg Hp Hn. apply (keeps_new w (new_node (cleanPath name) _) l x); try done. keep.
Qed.

Lemma keeps_Symlink oldname newname : rooted newname -> keeps good (@Symlink D oldname newname).
Proof.
  intros Hr. unfold Symlink. apply keeps_bind; [apply keeps_sticky|]. intros _.
  destruct (beqb (cleanPath newname) [slash]) eqn:Hb; [keep|]. apply keeps_bind; [apply keeps_of_res|]. intros _.
  apply keeps_create; [done| |done]. intros w l x G _ Hg Hp Hn.
  apply (keeps_new w (ns_linkTarget oldname (new_node (cleanPath newname) symlink_mode_bits)) l x); try done. keep.
Qed.

Lemma keeps_Mknod name mode rdev : rooted name -> keeps good (@Mknod D name mode rdev).
Proof.
  intros Hr. unfold Mknod. apply keeps_bind; [apply keeps_sticky|]. intros _.
  destruct (beqb (cleanPath name) [slash]) eqn:Hb; [keep|].
  apply keeps_create; [done| |done]. intros w l x G _ Hg Hp Hn. unfold bind at 1.
  assert (R : forall r : Z, good ((do! _ := ensureParent (cleanPath name) in
    do! _ := add_node (ns_rdev r (new_node (cleanPath name) (goModeToUnixMode mode))) in ret tt) w).2).
  { intros r. apply (keeps_new w (ns_rdev r (new_node (cleanPath name) (goModeToUnixMode mode))) l x); try done. keep. }
  destruct (_ || _); [apply R|]. destruct (_ || _); [apply R|done].
Qed.

Lemma sticky_bind {A} (k : M D A) (w : Writer D) :
  (do! _ := sticky in k) w = match fw_wErr w with Some e => (Err e, w) | None => k w end.
Proof.
  assert (S : @sticky D w = (match fw_wErr w with Some e => Err e | None => Ok tt end, w)).
  { unfold sticky. rewrite (bind_ok (gets fw_wErr) _ w (fw_wErr w) w) by done. by destruct (fw_wErr w). }
  unfold bind. rewrite S. by destruct (fw_wErr w).
Qed.

(** A hardlink: the new name and the link it adds to the inode. *)
Definition link_tail (t : ptr) (name : bytes) : M D unit :=
  do! _ := ensureParent name in
  do! te := node_at t in
  do! _ := add_node (ns_linkTo (Some t) (new_node name (n_mode te))) in
  update t (fun te => ns_extraLinks (u32 (n_extraLinks te + 1)) te).

Lemma link_tail_ok (w : Writer D) t te l x :
  let name := abs (l ++ [x]) in
  good w -> good_elems (l ++ [x]) -> fw_byPath w !! name = None ->
  fw_store w !! t = Some te -> live te -> n_linkTo te = None -> ~ is_dir te ->
  zlen (fw_store (link_tail t name w).2) <= MaxUint32 ->
  link_tail t name w = (Err ErrNotDirectory, w) \/
  exists w', link_tail t name w = (Ok tt, w') /\ good w' /\ exists p e, fw_byPath w' !! name = Some p /\
    fw_store w' !! p = Some e /\ n_linkTo e = Some t.
Proof.
  intros name G Hg Hn Ht Hl Hlk Hd Hsz.
  destruct (ensureParent_ok w l x G Hg) as [E|(w1 & q & qe & E1 & E2 & E3 & E4 & E5 & E6 & E7)].
  { left. unfold link_tail, bind at 1. unfold name. by rewrite E. }
  right. destruct (gr_store _ _ E3 t te Ht) as (cs & Ht1). set (te1 := ns_children _ te) in Ht1.
  set (e := ns_linkTo (Some t) (new_node name (n_mode te1))). set (w2 := with_tree (st_add (fw_store w1) q qe e)
    (<[n_path e := length (fw_store w1)]> (fw_byPath w1)) w1).
  assert (Hq : (q < length (fw_store w1))%nat) by (by eapply lookup_lt_Some).
  assert (Htl : (t < length (fw_store w1))%nat) by (by eapply lookup_lt_Some).
  assert (Hqt : t <> q).
  { intros ->. rewrite E5 in Ht1. apply (inj Some) in Ht1 as ->. by apply Hd. }
  assert (A : add_node e w1 = (Ok (length (fw_store w1)), w2)).
  { apply (add_node_eq w1 e q qe); [|done]. cbn. unfold name. by rewrite Dir_abs. }
  assert (Ht2 : fw_store w2 !! t = Some te1).
  { cbn. rewrite st_add_lookup by done. rewrite decide_False by done. by rewrite decide_False by lia. }
  assert (RUN : link_tail t name w = (Ok tt,
    fs_store (<[t := ns_extraLinks (u32 (n_extraLinks te1 + 1)) te1]> (fw_store w2)) w2)).
  { unfold link_tail. rewrite (bind_ok _ _ w tt w1), (bind_ok _ _ w1 te1 w1) by (done || by apply node_at_eq).
    fold e. rewrite (bind_ok _ _ w1 _ w2 A). by rewrite (update_eq w2 t te1). }
  rewrite RUN in Hsz |- *. eexists. split; [done|]. cbn [snd fw_store fs_store w2 with_tree fs_byPath] in Hsz.
  assert (Hsz1 : zlen (fw_store w1) < MaxUint32).
  { unfold zlen in *. unfold st_add in Hsz. rewrite !length_insert, length_app in Hsz. cbn [length] in Hsz. lia. }
  split.
  - apply (inv_add_alias no_one (fw_store w1) (fw_byPath w1) q qe e t te1); try done; try (by intros []).
    + unfold e. cbn [n_path new_node ns_linkTo]. unfold name. by rewrite Dir_abs.
    + exact (eq_trans E7 Hn).
    + by exists l, x.
  - exists (length (fw_store w1)), (ns_parent (Some q) e). cbn. split; [apply lookup_insert_eq|].
    rewrite list_lookup_insert_ne by lia. rewrite st_add_lookup by done. rewrite decide_False by lia. by rewrite decide_True.
Qed.

(** Where a name leads: its own entry, or the inode it is an alias of. *)
Lemma resolved (w : Writer D) k p :
  good w -> fw_byPath w !! k = Some p -> exists e te, fw_store w !! p = Some e /\ n_path e = k /\ live e /\
    fw_store w !! default p (n_linkTo e) = Some te /\ live te /\ n_linkTo te = None.
Proof.
  intros [I _] Hp. destruct (iv_by _ _ _ I k p Hp) as (e & E1 & E2 & E3). exists e.
  destruct (n_linkTo e) as [t|] eqn:Et; [|by exists e].
  destruct (iv_link _ _ _ I p e t E1 E3 Et) as (_ & te & T1 & T2 & T3 & T4). exists te.
  assert (live te) by (apply T4; by intros []). auto 10.
Qed.

Lemma Link_keeps oldname newname (w : Writer D) :
  rooted newname -> good w -> zlen (fw_store (Link oldname newname w).2) <= MaxUint32 -> good (Link oldname newname w).2.
Proof.
  intros Hr G. unfold Link. rewrite sticky_bind. destruct (fw_wErr w); [done|].
  destruct (beqb (cleanPath newname) [slash]) eqn:Hb; [done|].
  rewrite (bind_ok _ _ w (fw_byPath w !! cleanPath oldname) w) by done.
  destruct (fw_byPath w !! cleanPath oldname) as [t|] eqn:Ho; [|done].
  destruct (resolved w _ t G Ho) as (e & te & E1 & E2 & E3 & E4 & E5 & E6).
  rewrite (bind_ok _ _ w e w), (bind_ok _ _ w te w) by (by apply node_at_eq).
  destruct (Z.eqb_spec (n_type te) StatTypeDir) as [Hd|Hd]; [done|].
  destruct (rooted_snoc newname Hr Hb) as (l & x & Hg & Hp). rewrite Hp.
  destruct (checkPath_cases w (abs (l ++ [x]))) as [[err C]|[C Hn]]; [by rewrite (bind_err _ _ w err w C)|].
  rewrite (bind_ok _ _ w tt w C). intros Hsz. fold (link_tail (default t (n_linkTo e)) (abs (l ++ [x]))) in *.
  by destruct (link_tail_ok w _ te l x G Hg Hn E4 E5 E6 Hd Hsz) as [-> | (w' & -> & G' & _)].
Qed.
End Methods.
