(* ===== verification/TreeCalls.v ===== *)
(** * Calls on a writer

    Sequences of calls of the [Writer]'s methods: the tree keeps its invariant
    in every state they reach, [Remove] and [RemoveAll] take away exactly the
    names they are asked to, and what a removed name shared with hardlinks
    stays with those. *)

From S2P Require Import Prelude Machine Disk Format Image Inode Dir Path Layout FsTree Mkfs TreeInv TreeRemove TreeOps.

(** ** Paths below a path *)

(** [k] is [name] or lies below it. *)
Definition within (name k : bytes) : bool := beqb k name || HasPrefix k (name ++ [slash]).

Lemma components_below l r : l <> [] -> good_elems l -> components (join l ++ slash :: r) = l ++ components r.
Proof.
  induction l as [|a l IH]; [done|]. intros _ [[_ Ha] Hl]%Forall_cons. destruct l as [|b l].
  - cbn [join]. by rewrite components_app.
  - change (join (a :: b :: l)) with (a ++ slash :: join (b :: l)). rewrite <- app_assoc. cbn [app].
    rewrite components_app by done. by rewrite IH.
Qed.

Lemma HasPrefix_app s p : HasPrefix s p = true <-> exists r, s = p ++ r.
Proof.
  rewrite HasPrefix_spec. split; [intros E; by eexists|]. intros [r ->]. by rewrite drop_app_length.
Qed.

Lemma within_abs l m :
  l <> [] -> good_elems l -> good_elems m -> within (abs l) (abs m) = true <-> exists l', m = l ++ l'.
Proof.
  intros Hn Hl Hm. unfold within. rewrite orb_true_iff, beqb_eq, HasPrefix_app. split.
  - intros [E|[r E]].
    + exists []. rewrite app_nil_r. by apply abs_inj.
    + unfold abs in E. rewrite <- app_assoc in E. cbn in E. injection E as E.
      exists (components r). rewrite <- (components_below l r), <- E by done. symmetry. apply components_good; [|done].
      intros ->. symmetry in E. cbn in E. by apply app_eq_nil in E as [_ ?].
  - intros [l' ->]. destruct l' as [|x l']; [left; by rewrite app_nil_r|right].
    assert (J : forall l, l <> [] -> join (l ++ x :: l') = join l ++ slash :: join (x :: l')).
    { clear. induction l as [|a l IH]; [done|]. intros _. destruct l as [|b l]; [done|].
      change (join ((a :: b :: l) ++ x :: l')) with (a ++ slash :: join ((b :: l) ++ x :: l')). rewrite IH by done.
      change (join (a :: b :: l)) with (a ++ slash :: join (b :: l)). by rewrite <- app_assoc. }
    exists (join (x :: l')). unfold abs. rewrite J by done. cbn. by rewrite <- app_assoc.
Qed.

(** The entries below a directory are those whose paths lie below its path. *)
Lemma under_within {D : Type} (w : Writer D) p l x xe :
  good w -> good_elems l -> fw_byPath w !! abs l = Some p -> fw_store w !! x = Some xe -> live xe ->
  at_or_under (fw_store w) p x <-> exists l', good_elems (l ++ l') /\ n_path xe = abs (l ++ l').
Proof.
  intros G Hl Hp Hx Hlx. destruct (iv_by _ _ _ (proj1 G) _ _ Hp) as (pe & P1 & P2 & P3).
  (* the place of a live entry *)
  assert (SEAT : forall y ye, fw_store w !! y = Some ye -> live ye -> y <> root -> exists m z q qe, good_elems (m ++ [z]) /\
    n_path ye = abs (m ++ [z]) /\ n_parent ye = Some q /\ fw_store w !! q = Some qe /\ n_path qe = abs m /\ live qe /\ (q < y)%nat).
  { intros y ye Hy Hly Hr. destruct (iv_seated _ _ _ (proj1 G) y ye Hy Hly Hr) as [(m & z & M1 & M2) (q & qe & Q1 & Q2 & Q3 & _ & Q5 & _ & Q7)].
    exists m, z, q, qe. rewrite M2, Dir_abs in Q5 by done. destruct Q7 as [Q7 _]; [by intros []|]. auto 10. }
  split.
  - intros [-> | U].
    { exists []. rewrite app_nil_r. rewrite P1 in Hx. apply (inj Some) in Hx as <-. done. }
    revert xe Hx Hlx. induction U as [c ce C1 C2 C3|c ce q C1 C2 C3 U IH]; intros xe Hx Hlx; rewrite C1 in Hx; apply (inj Some) in Hx as <-.
    + destruct (decide (c = root)) as [->|Hr]; [by destruct (under_not_root _ _ _ p (proj1 G)); eapply under_child|].
      destruct (SEAT c ce C1 C2 Hr) as (m & z & q & qe & S1 & S2 & S3 & S4 & S5 & _).
      assert (q = p) as -> by congruence. rewrite P1 in S4. apply (inj Some) in S4 as <-. rewrite P2 in S5.
      apply abs_inj in S5; [|done|by apply good_elems_snoc in S1 as [? _]]. subst m. by exists [z].
    + destruct (decide (c = root)) as [->|Hr]; [by destruct (under_not_root _ _ _ p (proj1 G)); eapply under_step|].
      destruct (SEAT c ce C1 C2 Hr) as (m & z & q' & qe & S1 & S2 & S3 & S4 & S5 & S6 & _).
      assert (q' = q) as -> by congruence. destruct (IH qe S4 S6) as (l' & L1 & L2). rewrite L2 in S5.
      apply abs_inj in S5; [|done|by apply good_elems_snoc in S1 as [? _]]. subst m. exists (l' ++ [z]). by rewrite app_assoc.
  - intros (l' & L1 & L2). revert x xe Hx Hlx L1 L2. induction l' as [|z l' IH] using rev_ind; intros x xe Hx Hlx L1 L2.
    + left. rewrite app_nil_r in L2. pose proof (iv_live _ _ _ (proj1 G) x xe Hx Hlx) as B. rewrite L2, Hp in B. congruence.
    + right. rewrite app_assoc in L1, L2.
      assert (Hr : x <> root).
      { intros ->. destruct (iv_root _ _ _ (proj1 G)) as (r & R1 & R2 & _). rewrite Hx in R1. apply (inj Some) in R1 as <-.
        by apply (abs_snoc_root _ _ L1); congruence. }
      destruct (SEAT x xe Hx Hlx Hr) as (m & z' & q & qe & S1 & S2 & S3 & S4 & S5 & S6 & _). rewrite L2 in S2.
      apply abs_inj in S2; [|done|done]. apply app_inj_tail in S2 as [<- <-].
      assert (U : at_or_under (fw_store w) p q) by (apply (IH q qe); try done; by apply good_elems_snoc in L1 as [? _]).
      destruct U as [-> | U]; [by eapply under_child|by eapply under_step].
Qed.

(** The names after a removal. *)
Lemma removes_names {D : Type} S (w w' : Writer D) k :
  good w -> removes no_one S w w' ->
  (forall p, fw_byPath w !! k = Some p -> S p -> fw_byPath w' !! k = None) /\
  (forall p, fw_byPath w !! k = Some p -> ~ S p -> fw_byPath w' !! k = Some p) /\
  (fw_byPath w !! k = None -> fw_byPath w' !! k = None).
Proof.
  intros G [F I' _ _]. assert (B : forall p, fw_byPath w' !! k = Some p -> fw_byPath w !! k = Some p /\ ~ S p).
  { intros p Hp. destruct (iv_by _ _ _ (proj1 I') k p Hp) as (e' & E1 & E2 & E3).
    destruct (dies_back _ _ _ p e' F E1) as (e & G1 & (G2 & _) & G3). apply G3 in E3. destruct E3 as [E3 E4].
    split; [|done]. rewrite <- E2, G2. by apply (iv_live _ _ _ (proj1 G)). }
  split; [|split].
  - intros p Hp HS. destruct (fw_byPath w' !! k) as [p'|] eqn:E; [|done]. destruct (B p' eq_refl) as [B1 B2]. congruence.
  - intros p Hp HS. destruct (iv_by _ _ _ (proj1 G) k p Hp) as (e & E1 & E2 & E3).
    destruct (proj2 F p e E1) as (e' & G1 & (G2 & _) & G3). rewrite <- E2, <- G2. apply (iv_live _ _ _ (proj1 I')); tauto.
  - intros Hn. destruct (fw_byPath w' !! k) as [p'|] eqn:E; [|done]. destruct (B p' eq_refl). congruence.
Qed.

(** ** Remove and RemoveAll *)

Section Removing.
Context {D : Type} `{DataFile D}.

Lemma has_live_ok (w : Writer D) l :
  (forall c, c ∈ l -> is_Some (fw_store w !! c)) ->
  exists b, has_live l w = (Ok b, w) /\
    (b = true <-> exists c ce, c ∈ l /\ fw_store w !! c = Some ce /\ live ce).
Proof.
  induction l as [|c l IH]; intros Hl.
  { exists false. split; [done|]. split; [done|]. intros (c & ce & Hc & _). by apply elem_of_nil in Hc. }
  destruct (Hl c ltac:(left)) as [ce Hc]. cbn [has_live]. rewrite (bind_ok _ _ w ce w) by (by apply node_at_eq).
  destruct (n_removed ce) eqn:Er; cbn [negb].
  - destruct IH as (b & B1 & B2); [intros c' Hc'; apply Hl; by right|]. exists b. split; [done|]. rewrite B2.
    split; intros (k & ke & K1 & K2 & K3); exists k, ke; [split; [by right|done]|].
    apply elem_of_cons in K1 as [-> | K1]; [|done]. rewrite Hc in K2. apply (inj Some) in K2 as <-. unfold live in K3. congruence.
  - exists true. split; [done|]. split; [|done]. intros _. exists c, ce. split; [left|done].
Qed.

(** What [Remove] refuses: the state stays. *)
Definition refused {A} (m : M D A) (w : Writer D) : Prop := exists r, m w = (r, w) /\ forall a, r <> Ok a.

Lemma registered_root (w : Writer D) k p :
  good w -> fw_byPath w !! k = Some p -> k <> [slash] -> p <> root.
Proof.
  intros [I _] Hp Hk ->. destruct (iv_by _ _ _ I _ _ Hp) as (e & E1 & E2 & _).
  destruct (iv_root _ _ _ I) as (r & R1 & R2 & _). rewrite E1 in R1. apply (inj Some) in R1 as <-. congruence.
Qed.

(** A registered path is in normal form. *)
Lemma registered_path (w : Writer D) k p :
  good w -> fw_byPath w !! k = Some p -> p <> root -> exists l, good_elems l /\ k = abs l.
Proof.
  intros [I _] Hp Hr. destruct (iv_by _ _ _ I _ _ Hp) as (e & E1 & E2 & E3).
  destruct (iv_seated _ _ _ I p e E1 E3 Hr) as [(l & x & L1 & L2) _]. exists (l ++ [x]). split; [done|]. congruence.
Qed.

Lemma Remove_cases (w : Writer D) name :
  good w -> zlen (fw_store w) <= MaxUint32 ->
  refused (Remove name) w \/
  exists p w', fw_byPath w !! cleanPath name = Some p /\ Remove name w = (Ok tt, w') /\ removes no_one (eq p) w w' /\
    forall x, ~ under (fw_store w) p x.
Proof.
  intros G Hsm. unfold refused, Remove. rewrite sticky_bind. destruct (fw_wErr w) as [e|]; [left; by eexists|].
  destruct (beqb (cleanPath name) [slash]) eqn:Hb; [left; by eexists|].
  rewrite (bind_ok _ _ w (fw_byPath w !! cleanPath name) w) by done.
  destruct (fw_byPath w !! cleanPath name) as [p|] eqn:Hp; [|left; by eexists].
  assert (Hr : p <> root).
  { apply (registered_root w _ p G Hp). intros E. rewrite E in Hb. done. }
  destruct (iv_by _ _ _ (proj1 G) _ _ Hp) as (e & E1 & E2 & E3).
  assert (C : exists r, checkNotOpen p w = (r, w)).
  { unfold checkNotOpen. rewrite (bind_ok _ _ w (fw_openFile w) w) by done. destruct (fw_openFile w) as [f|]; [|by eexists].
    unfold bind, file_at. destruct (fw_files w !! f) as [x|]; [|by eexists]. destruct (bool_decide _); by eexists. }
  destruct C as ([[]|err|] & C); [|left; unfold bind; rewrite C; by eexists..].
  rewrite (bind_ok _ _ w tt w C), (bind_ok _ _ w e w) by (by apply node_at_eq).
  pose proof (shape_walkable _ _ _ (proj1 G)) as W.
  destruct (has_live_ok w (n_children e)) as (b & B1 & B2).
  { intros c Hc. destruct (wk_down _ W p e c E1 Hc) as (ce & C1 & _). by eexists. }
  assert (NU : forall b', (if n_type e =? StatTypeDir then has_live (n_children e) else ret false) w = (Ok b', w) ->
    b' = false -> forall x, ~ under (fw_store w) p x).
  { intros b' Hb' -> x U. destruct (under_dir _ _ _ W U) as (pe & U1 & U2). rewrite E1 in U1. apply (inj Some) in U1 as <-.
    rewrite (proj2 (Z.eqb_eq _ _) U2), B1 in Hb'. injection Hb' as ->.
    apply (under_children _ p e x W E1) in U as (c & ce & K1 & K2 & K3 & _). enough (false = true) by done. apply B2. by exists c, ce. }
  assert (L : exists b', (if n_type e =? StatTypeDir then has_live (n_children e) else ret false) w = (Ok b', w)).
  { destruct (n_type e =? StatTypeDir); by eexists. }
  destruct L as ([] & L); rewrite (bind_ok _ _ w _ w L); [left; by eexists|]. right.
  specialize (NU false L eq_refl). destruct (unlinkEntry_ok no_one w p e) as (w' & U1 & U2); try done.
  { intros c ce K1 K2 K3. destruct (NU c). by eapply under_child. }
  by exists p, w'.
Qed.

Lemma inSubtreeOf_state fuel a b (w : Writer D) : (inSubtreeOf fuel a b w).2 = w.
Proof.
  revert a. induction fuel as [|fuel IH]; intros a; [done|]. cbn [inSubtreeOf]. destruct (bool_decide _); [done|].
  unfold bind, node_at. destruct (fw_store w !! a) as [e|]; [|done]. destruct (n_parent e); [apply IH|done].
Qed.

Lemma check_ancestor_state fuel d (w : Writer D) : (check_ancestor fuel d w).2 = w.
Proof.
  revert d. induction fuel as [|fuel IH]; intros d; [done|]. cbn [check_ancestor]. destruct (beqb d [slash]); [done|].
  rewrite (bind_ok _ _ w (fw_byPath w !! d) w) by done. destruct (fw_byPath w !! d) as [p|]; [|apply IH].
  unfold bind, node_at. destruct (fw_store w !! p) as [e|]; [|done]. by destruct (negb _).
Qed.

Lemma RemoveAll_cases (w : Writer D) name :
  good w -> zlen (fw_store w) <= MaxUint32 ->
  (RemoveAll name w).2 = w /\ ((RemoveAll name w).1 = Ok tt -> fw_byPath w !! cleanPath name = None) \/
  exists p w', fw_byPath w !! cleanPath name = Some p /\ p <> root /\ RemoveAll name w = (Ok tt, w') /\
    removes no_one (at_or_under (fw_store w) p) w w'.
Proof.
  intros G Hsm. unfold RemoveAll. rewrite sticky_bind. destruct (fw_wErr w) as [e|]; [by left|].
  destruct (beqb (cleanPath name) [slash]) eqn:Hb; [by left|].
  rewrite (bind_ok _ _ w (fw_byPath w !! cleanPath name) w) by done.
  destruct (fw_byPath w !! cleanPath name) as [p|] eqn:Hp; [|left; split; [apply check_ancestor_state|done]].
  assert (Hr : p <> root).
  { apply (registered_root w _ p G Hp). intros E. rewrite E in Hb. done. }
  rewrite (bind_ok _ _ w (fw_openFile w) w) by done.
  set (inside := match fw_openFile w with None => ret false | Some f => _ end).
  assert (S : exists r, inside w = (r, w)).
  { unfold inside. destruct (fw_openFile w) as [f|]; [|by eexists]. unfold bind, file_at, gets. destruct (fw_files w !! f) as [x|]; [|by eexists].
    pose proof (inSubtreeOf_state (S (length (fw_store w))) (fl_entry x) p w) as E. destruct (inSubtreeOf _ _ _ w) as [r w1] eqn:E1.
    cbn in E. subst w1. by exists r. }
  destruct S as ([[]|err|] & S); [by left; unfold bind; rewrite S| |by left; unfold bind; rewrite S..].
  rewrite (bind_ok _ _ w false w S). right.
  destruct (removeTree_ok w (cleanPath name) p) as (w' & R1 & R2); try done.
  { destruct (registered_path w _ p G Hp Hr) as (l & Hl & Hn). rewrite Hn, rooted_cleanPath by done. by rewrite <- Hn. }
  by exists p, w'.
Qed.

(** ** Calls *)

(** A call of a method, with its arguments. *)
Inductive call :=
| CCreate (name : bytes)
| CMkdir (name : bytes) (perm : Z)
| CSymlink (oldname newname : bytes)
| CLink (oldname newname : bytes)
| CMknod (name : bytes) (mode rdev : Z)
| CChmod (name : bytes) (mode : Z)
| CChown (name : bytes) (uid gid : Z)
| CChtimes (name : bytes) (atime mtime : Z * Z)
| CSetxattr (name attr value : bytes)
| CSetNlink (name : bytes) (nlink : Z)
| CRemove (name : bytes)
| CRemoveAll (name : bytes)
| CWrite (f : ptr) (p : bytes)
| CReadFrom (f : ptr) (r : stream)
| CCloseFile (f : ptr)
| CFileChmod (f : ptr) (mode : Z)
| CFileChown (f : ptr) (uid gid : Z).

(** The state a call leaves, whatever it answers. *)
Definition run (c : call) (w : Writer D) : Writer D :=
  match c with
  | CCreate name => (Create name w).2
  | CMkdir name perm => (Mkdir name perm w).2
  | CSymlink oldname newname => (Symlink oldname newname w).2
  | CLink oldname newname => (Link oldname newname w).2
  | CMknod name mode rdev => (Mknod name mode rdev w).2
  | CChmod name mode => (Chmod name mode w).2
  | CChown name uid gid => (Chown name uid gid w).2
  | CChtimes name a m => (Chtimes name a m w).2
  | CSetxattr name attr value => (Setxattr name attr value w).2
  | CSetNlink name nlink => (SetNlink name nlink w).2
  | CRemove name => (Remove name w).2
  | CRemoveAll name => (RemoveAll name w).2
  | CWrite f p => (File_Write f p w).2
  | CReadFrom f r => (ReadFrom f r w).2
  | CCloseFile f => (File_Close f w).2
  | CFileChmod f mode => (File_Chmod f mode w).2
  | CFileChown f uid gid => (File_Chown f uid gid w).2
  end.

(** The name a call would add, if any, does not climb out of the root. *)
Definition call_rooted (c : call) : Prop :=
  match c with
  | CCreate name | CMkdir name _ | CSymlink _ name | CLink _ name | CMknod name _ _ => rooted name
  | _ => True
  end.

(** The states that calls lead to, with at most as many entries as an image
    numbers inodes. *)
Inductive reachable (o : createOptions) : Writer D -> Prop :=
| reachable_new : reachable o (NewWriter o)
| reachable_call w c : reachable o w -> call_rooted c -> zlen (fw_store (run c w)) <= MaxUint32 -> reachable o (run c w).

Lemma NewWriter_tree (o : createOptions) :
  fw_store (NewWriter o) = [new_node [slash] dir_mode] /\ fw_byPath (NewWriter o) = {[ [slash] := root ]}.
Proof.
  unfold NewWriter. set (w0 := mkFs _ _ _ _ _ _ _ _ _ _ _ _ _ _ _ _ _ _ _ _ _).
  set (w1 := if negb _ then _ else w0).
  assert (E : fw_store w1 = fw_store w0 /\ fw_byPath w1 = fw_byPath w0).
  { unfold w1. destruct (negb _); [|done]. unfold setBlockSize. destruct (_ || _); [done|]. destruct (negb _); [done|].
    rewrite (bind_ok _ _ w0 (fw_blockSize w0) w0) by done. by destruct (fw_blockSize w0 =? 0); [|destruct (negb _)]. }
  destruct (o_dataFile o) as [d|]; [|exact E]. destruct (df_SeekEnd d) as [[d' off] err]. by destruct err.
Qed.

Lemma new_good (w : Writer D) :
  fw_store w = [new_node [slash] dir_mode] -> fw_byPath w = {[ [slash] := root ]} -> good w.
Proof.
  intros Es Eb. unfold good. rewrite Es, Eb. clear.
  assert (ONE : forall p e, [new_node [slash] dir_mode] !! p = Some e -> p = root /\ e = new_node [slash] dir_mode).
  { intros [|[|p]] e H; [by apply (inj Some) in H as <-|done|done]. }
  split; [split|].
  - eexists. split; [done|]. repeat (split; [done|]). by intros [].
  - intros k p [<- <-]%lookup_singleton_Some. eexists. by split.
  - intros p e [-> ->]%ONE _. apply lookup_singleton_eq.
  - intros p e [-> ->]%ONE _ Hr. done.
  - intros q qe c [-> ->]%ONE Hc. by apply elem_of_nil in Hc.
  - intros q qe [-> ->]%ONE. constructor.
  - intros p e t [-> ->]%ONE _ Ht. done.
  - intros t te [-> ->]%ONE _ _. done.
Qed.

Lemma run_keeps c (w : Writer D) :
  good w -> zlen (fw_store w) <= MaxUint32 -> call_rooted c -> zlen (fw_store (run c w)) <= MaxUint32 -> good (run c w).
Proof.
  intros G Hsm Hc Hsz. destruct c; cbn [run call_rooted] in *.
  - by apply keeps_Create.
  - by apply keeps_Mkdir.
  - by apply keeps_Symlink.
  - by apply Link_keeps.
  - by apply keeps_Mknod.
  - by apply keeps_Chmod.
  - by apply keeps_Chown.
  - by apply keeps_Chtimes.
  - by apply keeps_Setxattr.
  - by apply keeps_SetNlink.
  - destruct (Remove_cases w name G Hsm) as [(r & -> & _)|(p & w' & _ & -> & R & _)]; [done|by apply (rm_inv _ _ _ _ R)].
  - destruct (RemoveAll_cases w name G Hsm) as [[-> _]|(p & w' & _ & _ & -> & R)]; [done|by apply (rm_inv _ _ _ _ R)].
  - by apply keeps_File_Write.
  - by apply keeps_ReadFrom.
  - by apply keeps_File_Close.
  - by apply keeps_File_Chmod.
  - by apply keeps_File_Chown.
Qed.

Lemma reachable_facts o (w : Writer D) : reachable o w -> good w /\ zlen (fw_store w) <= MaxUint32.
Proof.
  induction 1 as [|w c R [G Hsm] Hc Hsz].
  - destruct (NewWriter_tree o) as [Es Eb]. split; [by apply new_good|]. rewrite Es. done.
  - split; [by apply run_keeps|done].
Qed.

End Removing.

Arguments call_rooted c /.

(** ** What the methods promise *)

Section Promises.
Context {D : Type} `{DataFile D}.

(** C8: Every state that the Writer's calls other than [CopyFrom] reach from a new
    Writer, failed calls included, has a well-formed tree, as long as the names
    given to the calls that create entries do not climb above the root and there
    are at most as many entries as an image numbers inodes: each registered path
    names the one live entry of that path, which hangs off the live directory of
    its parent path; every alias leads to a live inode of its own type; and an
    inode's link counter is the number of live aliases.  [CopyFrom] and a name
    such as "../x" are left out because they break it: see
    [CopyFrom.file_over_directory_keeps_children] and [climbing_name_twice]. *)
Theorem reachable_tree o (w : Writer D) : reachable o w -> inv no_one (fw_store w) (fw_byPath w).
Proof. intros R. exact (proj1 (reachable_facts o w R)). Qed.

(** C10: In a state the calls of [reachable] lead to (no [CopyFrom], no created
    name that climbs above the root), a [RemoveAll] that succeeds of a name that
    does not climb either takes away the name, every name below it and no other;
    the names that stay, hardlinks to removed files included, lead to the same
    inodes' contents, and the tree stays well-formed. *)
Theorem RemoveAll_exact o (w w' : Writer D) name :
  reachable o w -> rooted name -> RemoveAll name w = (Ok tt, w') ->
  (forall k, fw_byPath w' !! k = if within (cleanPath name) k then None else fw_byPath w !! k) /\
  (forall k p, fw_byPath w' !! k = Some p -> shown (fw_store w') p = shown (fw_store w) p) /\
  good w'.
Proof.
  intros R (l & Hl & Hn) E. destruct (reachable_facts o w R) as [G Hsm].
  assert (Hln : l <> []).
  { intros ->. assert (B : beqb (cleanPath name) [slash] = true) by (by rewrite Hn).
    unfold RemoveAll in E. rewrite sticky_bind in E. destruct (fw_wErr w); [done|]. by rewrite B in E. }
  assert (WI : forall k p, fw_byPath w !! k = Some p -> exists m, good_elems m /\ k = abs m).
  { intros k p Hk. destruct (decide (p = root)) as [->|Hr]; [|by apply (registered_path w k p)].
    exists []. split; [constructor|]. destruct (iv_by _ _ _ (proj1 G) _ _ Hk) as (e & E1 & E2 & _).
    destruct (iv_root _ _ _ (proj1 G)) as (r & R1 & R2 & _). rewrite E1 in R1. apply (inj Some) in R1 as <-. by rewrite <- E2, R2. }
  destruct (RemoveAll_cases w name G Hsm) as [[E2 E3]|(p & w2 & Hp & Hr & E2 & RM)].
  - rewrite E in E2, E3. cbn in E2, E3. subst w'. specialize (E3 eq_refl). split; [|done].
    intros k. destruct (within (cleanPath name) k) eqn:Wk; [|done]. destruct (fw_byPath w !! k) as [q|] eqn:Hk; [|done]. exfalso.
    destruct (WI k q Hk) as (m & Hm & ->). rewrite Hn in Wk. apply within_abs in Wk as [l' ->]; try done.
    clear -G Hm Hk E3 Hn. rewrite Hn in E3. revert q Hk. induction l' as [|z l' IH] using rev_ind; intros q Hk; [rewrite app_nil_r in Hk; congruence|].
    rewrite app_assoc in Hm, Hk. destruct (parent_registered w (l ++ l') z q G Hm Hk) as (q' & qe & Q1 & _).
    apply (IH ltac:(by apply good_elems_snoc in Hm as [? _]) q' Q1).
  - rewrite E in E2. injection E2 as <-. split; [|split; [|exact (rm_inv _ _ _ _ RM)]].
    + intros k. destruct (removes_names _ w w' k G RM) as (N1 & N2 & N3).
      destruct (fw_byPath w !! k) as [q|] eqn:Hk; [|rewrite N3 by done; by destruct (within _ _)].
      destruct (WI k q Hk) as (m & Hm & ->). destruct (iv_by _ _ _ (proj1 G) _ _ Hk) as (qe & Q1 & Q2 & Q3).
      rewrite Hn in Hp. pose proof (under_within w p l q qe G Hl Hp Q1 Q3) as U. rewrite Hn.
      destruct (within (abs l) (abs m)) eqn:Wk.
      * apply within_abs in Wk as [l' ->]; try done. apply (N1 q eq_refl). apply U. by exists l'.
      * apply (N2 q eq_refl). intros HS. apply U in HS as (l' & L1 & L2). rewrite Q2 in L2. apply abs_inj in L2; [|done..].
        enough (within (abs l) (abs m) = true) by congruence. apply within_abs; try done. by exists l'.
    + intros k q Hk. destruct (iv_by _ _ _ (proj1 (rm_inv _ _ _ _ RM)) _ _ Hk) as (qe & Q1 & _ & Q3).
      exact (rm_shows _ _ _ _ RM q qe Q1 Q3).
Qed.

(** C19: Progress of removal: in every state the calls of [reachable] lead to (no
    [CopyFrom], no created name that climbs above the root) without a recorded
    error and without an open file, [RemoveAll] of a registered name other than
    the root succeeds and the name is gone. *)
Theorem RemoveAll_progress o (w : Writer D) name p :
  reachable o w -> fw_wErr w = None -> fw_openFile w = None ->
  fw_byPath w !! cleanPath name = Some p -> cleanPath name <> [slash] ->
  exists w', RemoveAll name w = (Ok tt, w') /\ fw_byPath w' !! cleanPath name = None.
Proof.
  intros R He Ho Hp Hn. destruct (reachable_facts o w R) as [G Hsm].
  destruct (RemoveAll_cases w name G Hsm) as [[_ E3]|(p' & w2 & Hp' & Hr & E2 & RM)].
  - exfalso. assert (Hr : p <> root) by (by apply (registered_root w _ p G Hp)).
    destruct (removeTree_ok w (cleanPath name) p G Hsm) as (w' & R1 & _); [|done|].
    { destruct (registered_path w _ p G Hp Hr) as (l & Hl & Hn'). rewrite Hn', rooted_cleanPath by done. by rewrite <- Hn'. }
    enough ((RemoveAll name w).1 = Ok tt) as E by (rewrite (E3 E) in Hp; done).
    unfold RemoveAll. rewrite sticky_bind, He. destruct (beqb (cleanPath name) [slash]) eqn:B; [by apply beqb_eq in B|].
    rewrite (bind_ok _ _ w (fw_byPath w !! cleanPath name) w) by done. rewrite Hp.
    rewrite (bind_ok _ _ w (fw_openFile w) w) by done. rewrite Ho. rewrite (bind_ok _ _ w false w) by done. by rewrite R1.
  - exists w2. split; [done|]. destruct (removes_names _ w w2 (cleanPath name) G RM) as (N1 & _).
    apply (N1 p' Hp'). by left.
Qed.

(** C9: In a state the calls of [reachable] lead to (no [CopyFrom], no created
    name that climbs above the root), a [Remove] that succeeds takes away that
    one name, which was not a directory with live entries; every other name
    stays and leads to the same content: when the removed name carried the inode
    of hardlinks, one of them takes the inode over.  This is what the code does;
    the doc comment of [Link] calls the last case unsupported and an error at
    [Close], and is reported as diverging. *)
Theorem Remove_exact o (w w' : Writer D) name :
  reachable o w -> Remove name w = (Ok tt, w') ->
  fw_byPath w' = delete (cleanPath name) (fw_byPath w) /\
  (forall k p, fw_byPath w' !! k = Some p -> shown (fw_store w') p = shown (fw_store w) p) /\
  (forall p x, fw_byPath w !! cleanPath name = Some p -> ~ under (fw_store w) p x) /\
  good w'.
Proof.
  intros R E. destruct (reachable_facts o w R) as [G Hsm].
  destruct (Remove_cases w name G Hsm) as [(r & E2 & E3)|(p & w2 & Hp & E2 & RM & NU)].
  { rewrite E in E2. injection E2 as <- _. by destruct (E3 tt). }
  rewrite E in E2. injection E2 as <-. split; [|split; [|split; [|exact (rm_inv _ _ _ _ RM)]]].
  - apply map_eq. intros k. destruct (removes_names _ w w' k G RM) as (N1 & N2 & N3).
    destruct (decide (k = cleanPath name)) as [->|Hk].
    + rewrite lookup_delete_eq. by apply (N1 p).
    + rewrite lookup_delete_ne by done. destruct (fw_byPath w !! k) as [q|] eqn:Hq; [|by apply N3].
      apply (N2 q eq_refl). intros ->. destruct (iv_by _ _ _ (proj1 G) _ _ Hq) as (e & E1 & E4 & _).
      destruct (iv_by _ _ _ (proj1 G) _ _ Hp) as (e' & E5 & E6 & _). rewrite E1 in E5. apply (inj Some) in E5 as <-. congruence.
  - intros k q Hk. destruct (iv_by _ _ _ (proj1 (rm_inv _ _ _ _ RM)) _ _ Hk) as (qe & Q1 & _ & Q3).
    exact (rm_shows _ _ _ _ RM q qe Q1 Q3).
  - intros p' x Hp'. assert (p' = p) as -> by congruence. apply NU.
Qed.

End Promises.

(** ** A concrete writer *)

Definition demo_options : createOptions (D := bytes) := mkOptions 0 0 false 0 None false.

Definition demo_calls : list call :=
  [CMkdir (bs "/a") 0; CCreate (bs "/a/f"); CWrite 0 (bs "hi"); CCloseFile 0; CLink (bs "/a/f") (bs "/g")].

Definition demo : Writer bytes := foldl (fun w c => run c w) (NewWriter demo_options) demo_calls.

Lemma demo_reachable : reachable demo_options demo.
Proof.
  assert (STEP : forall (w : Writer bytes) c, reachable demo_options w -> call_rooted c ->
    (zlen (fw_store (run c w)) <=? MaxUint32) = true -> reachable demo_options (run c w)).
  { intros w c Hw Hc Hs. apply reachable_call; [done|done|]. by apply Z.leb_le. }
  unfold demo, demo_calls. cbn [foldl].
  repeat (apply STEP; [|by (exact I || (apply rooted_IsAbs; reflexivity))|vm_compute; reflexivity]). apply reachable_new.
Qed.

Lemma reachable_tree_witness : reachable demo_options demo /\ inv no_one (fw_store demo) (fw_byPath demo).
Proof. split; [apply demo_reachable|exact (reachable_tree demo_options demo demo_reachable)]. Defined.

(** Without the directory the link remains, with the file's two bytes. *)
Lemma RemoveAll_exact_witness :
  exists w', RemoveAll (bs "/a") demo = (Ok tt, w') /\ fw_byPath w' !! bs "/a/f" = None /\ fw_byPath w' !! bs "/g" = Some 3%nat /\
    shown (fw_store w') 3 = shown (fw_store demo) 3.
Proof.
  assert (E : exists w', RemoveAll (bs "/a") demo = (Ok tt, w')) by (eexists; vm_compute; reflexivity).
  destruct E as [w' E]. exists w'.
  destruct (RemoveAll_exact demo_options demo w' (bs "/a") demo_reachable ltac:(by apply rooted_IsAbs) E) as (H1 & H2 & _).
  assert (G : fw_byPath w' !! bs "/g" = Some 3%nat) by (rewrite H1; vm_compute; reflexivity).
  split; [exact E|]. split; [rewrite H1; vm_compute; reflexivity|]. split; [exact G|]. exact (H2 (bs "/g") 3%nat G).
Defined.

Lemma RemoveAll_progress_witness :
  exists w', RemoveAll (bs "a/") demo = (Ok tt, w') /\ fw_byPath w' !! bs "/a" = None.
Proof.
  apply (RemoveAll_progress demo_options demo (bs "a/") 1); [apply demo_reachable|vm_compute; reflexivity..|vm_compute; discriminate].
Defined.

(** The name that carried the inode goes; the link shows what it did. *)
Lemma Remove_exact_witness :
  exists w', Remove (bs "/a/f") demo = (Ok tt, w') /\ fw_byPath w' = delete (bs "/a/f") (fw_byPath demo) /\
    shown (fw_store w') 3 = shown (fw_store demo) 3.
Proof.
  assert (E : exists w', Remove (bs "/a/f") demo = (Ok tt, w')) by (eexists; vm_compute; reflexivity).
  destruct E as [w' E]. exists w'. destruct (Remove_exact demo_options demo w' (bs "/a/f") demo_reachable E) as (H1 & H2 & _).
  split; [exact E|]. split; [exact H1|]. apply (H2 (bs "/g") 3%nat). rewrite H1. vm_compute. reflexivity.
Defined.

(** ** Names that climb *)

(** A relative name that climbs above the root is registered beside it: the
    files made as "../x" and "x" are two entries of the root with one name. *)
Theorem climbing_name_twice :
  let w := foldl (fun w c => run c w) (NewWriter demo_options) [CCreate (bs "../x"); CCloseFile 0; CCreate (bs "x"); CCloseFile 1] in
  (fun p => (n_parent <$> fw_store w !! p, (fun e => Base (n_path e)) <$> fw_store w !! p)) <$> [1; 2]%nat =
    [(Some (Some root), Some (bs "x")); (Some (Some root), Some (bs "x"))] /\
  n_children <$> fw_store w !! root = Some [1; 2]%nat.
Proof. vm_compute. split; reflexivity. Qed.

(** A name with a NUL byte is taken, and the reader refuses it as corrupt. *)
Theorem nul_name_created :
  let name : bytes := [x61; x00; x62] in
  (Create (slash :: name) (NewWriter demo_options)).1 = Ok 0%nat /\ checkDirentName name = Err ErrCorrupt.
Proof. vm_compute. split; reflexivity. Qed.
