(* ===== verification/TreeSane.v ===== *)
(** * Sizes, the block size and the data file's slot

    What every call on a writer keeps beside its tree: the size an entry
    records fits its 64-bit field, the block size is unset or one the format
    knows, and a writer with a data file has a device slot for it. *)

From S2P Require Import Prelude Machine Disk Format Image Inode Path Layout FsTree Mkfs TreeInv TreeRemove TreeOps TreeCalls.

Definition sized_entry (e : fsEntry) : Prop := is_u64 (n_size e).

Definition block_ok (n : Z) : Prop := exists k, 9 <= k <= 16 /\ n = 2 ^ k.

Record sane {D : Type} (w : Writer D) : Prop := {
  sn_sized : Forall sized_entry (fw_store w);
  sn_block : fw_blockSize w = 0 \/ block_ok (fw_blockSize w);
  sn_slot : fw_dataFile w <> None -> fw_devices w <> [];
}.

Section Sane.
Context {D : Type} `{DataFile D}.

(** A node read is a sized one. *)
Lemma sane_node {A} p (k : fsEntry -> M D A) :
  (forall e, sized_entry e -> keeps sane (k e)) -> keeps sane (do! e := node_at p in k e).
Proof.
  intros Hk w S. unfold bind, node_at. destruct (fw_store w !! p) as [e|] eqn:E; [|done].
  apply Hk; [|done]. by apply (Forall_lookup_1 _ _ _ _ (sn_sized w S) E).
Qed.

Lemma sane_set p e : sized_entry e -> keeps sane (@set_node D p e).
Proof. intros He w [S1 S2 S3]. split; [by apply Forall_insert|exact S2|exact S3]. Qed.

Lemma sane_update p f : (forall e, sized_entry e -> sized_entry (f e)) -> keeps sane (@update D p f).
Proof. intros Hf. apply sane_node. intros e He. apply sane_set. by apply Hf. Qed.

Lemma sane_new e : sized_entry e -> keeps sane (@new_entry D e).
Proof.
  intros He w [S1 S2 S3]. split; [|exact S2|exact S3]. cbn. apply Forall_app. by split; [|constructor].
Qed.

Lemma sane_node_new path mode : sized_entry (new_node path mode).
Proof. done. Qed.

End Sane.

#[export] Hint Resolve sane_node_new sane_set sane_update sane_new : tree.

(** [keep], with what the entries read are known to be. *)
Ltac keep_size :=
  repeat (intros; match goal with
  | |- keeps sane (bind (node_at _) _) => apply sane_node
  | |- keeps sane (bind _ _) => apply keeps_bind
  | |- keeps sane (if _ then _ else _) => apply keeps_if
  | |- keeps sane (match ?x with _ => _ end) => destruct x
  | |- keeps sane (modify _) => apply keeps_modify; try (intros ? [Hkeep1 Hkeep2 Hkeep3]; split; [exact Hkeep1|exact Hkeep2|exact Hkeep3])
  | |- keeps sane (update _ _) => apply sane_update; try (intros ? Hkeep; exact Hkeep)
  | |- keeps sane (set_node _ _) => apply sane_set; try assumption
  | |- keeps sane (for_each _ _) => apply keeps_for_each
  | |- keeps _ _ => solve [eauto with tree]
  end).

Section Sizes.
Context {D : Type} `{DataFile D}.

(** ** The tree *)

Lemma sane_addChild p : keeps sane (@addChild D p).
Proof. unfold addChild. keep_size. Qed.
Hint Resolve sane_addChild : tree.

Lemma sane_add_node e : sized_entry e -> keeps sane (@add_node D e).
Proof. unfold add_node. keep_size. Qed.
Hint Resolve sane_add_node : tree.

Lemma sane_missing_parents fuel d missing : keeps sane (@missing_parents D fuel d missing).
Proof. revert d missing. induction fuel as [|fuel IH]; intros d missing; cbn [missing_parents]; keep_size. Qed.
Hint Resolve sane_missing_parents : tree.

Lemma sane_ensureParent name : keeps sane (@ensureParent D name).
Proof. unfold ensureParent. keep_size. Qed.
Hint Resolve sane_ensureParent : tree.

Lemma sane_walk rec t l aliases : (forall c a, keeps sane (rec c a)) -> keeps sane (@walk_children D rec t l aliases).
Proof. intros Hr. revert aliases. induction l as [|c l IH]; intros aliases; cbn [walk_children]; keep_size. Qed.

Lemma sane_find_aliases fuel t d aliases : keeps sane (@find_aliases D fuel t d aliases).
Proof.
  revert d aliases. induction fuel as [|fuel IH]; intros d aliases; cbn [find_aliases]; [keep_size|].
  apply sane_node. intros e He. by apply sane_walk.
Qed.
Hint Resolve sane_find_aliases : tree.

Lemma sane_promoteAlias t : keeps sane (@promoteAlias D t).
Proof. unfold promoteAlias. keep_size. intros he _. assumption. Qed.
Hint Resolve sane_promoteAlias : tree.

Lemma sane_unlinkEntry p : keeps sane (@unlinkEntry D p).
Proof. unfold unlinkEntry. keep_size. Qed.
Hint Resolve sane_unlinkEntry : tree.

Lemma sane_removeSubtree fuel p : keeps sane (@removeSubtree D fuel p).
Proof. revert p. induction fuel as [|fuel IH]; intros p; cbn [removeSubtree]; keep_size. Qed.
Hint Resolve sane_removeSubtree : tree.

Lemma sane_removeTree name : keeps sane (@removeTree D name).
Proof. unfold removeTree, remove_below. keep_size. Qed.
Hint Resolve sane_removeTree : tree.

(** ** The methods *)

Lemma sane_resolveBlockSize : keeps sane (@resolveBlockSize D).
Proof. 
  unfold resolveBlockSize. keep_size. intros w [S1 S2 S3]. destruct (fw_blockSize w =? 0); [|by split].
  split; [exact S1| |exact S3]. right. exists 12. done.
Qed.
Hint Resolve sane_resolveBlockSize : tree.

Lemma sane_write_data_file p : keeps sane (write_data_file p).
Proof.
  intros w S. unfold write_data_file. rewrite (bind_ok _ _ w (fw_dataFile w) w) by done.
  destruct (fw_dataFile w) as [d|] eqn:Ed; [|done]. destruct (df_Write d p) as [[d' n] err]. destruct S as [S1 S2 S3].
  split; [exact S1|exact S2|]. intros _. apply S3. congruence.
Qed.
Lemma sane_write_spool p : keeps sane (write_spool p).
Proof. unfold write_spool. keep_size. Qed.
Hint Resolve sane_write_data_file sane_write_spool : tree.

Lemma sane_pad n : keeps sane (pad_data_file n).
Proof. unfold pad_data_file. keep_size. Qed.
Hint Resolve sane_pad : tree.

Lemma sane_new_file x : keeps sane (@new_file' D x).
Proof. intros w [S1 S2 S3]. by split. Qed.
Hint Resolve sane_new_file : tree.

Lemma sane_File_Write f p : keeps sane (File_Write f p).
Proof. unfold File_Write, set_file. keep_size. Qed.
Hint Resolve sane_File_Write : tree.

Lemma sane_ReadFrom f r : keeps sane (ReadFrom f r).
Proof.
  unfold ReadFrom. generalize (sm_last r) (sm_err r) 0. induction (sm_reads r) as [|b l IH]; intros last er n; cbn [read_from]; keep_size.
Qed.

Lemma sane_File_Close f : keeps sane (File_Close f).
Proof.
  unfold File_Close, closeDataFile, set_file. keep_size. intros e _. unfold sized_entry, is_u64, u64. cbn.
  apply Z.mod_pos_bound. done.
Qed.

Lemma sane_lookup_entry name : keeps sane (@lookup_entry D name).
Proof. unfold lookup_entry. keep_size. Qed.
Lemma sane_sticky : keeps sane (@sticky D).
Proof. unfold sticky. keep_size. Qed.
Lemma sane_checkPath name : keeps sane (@checkPath D name).
Proof. unfold checkPath. keep_size. Qed.
Hint Resolve sane_lookup_entry sane_sticky sane_checkPath : tree.

Lemma sane_has_live l : keeps sane (@has_live D l).
Proof. induction l as [|c l IH]; cbn [has_live]; keep_size. Qed.
Lemma sane_inSubtreeOf fuel a b : keeps sane (@inSubtreeOf D fuel a b).
Proof. intros w S. by rewrite inSubtreeOf_state. Qed.
Lemma sane_check_ancestor fuel d : keeps sane (@check_ancestor D fuel d).
Proof. intros w S. by rewrite check_ancestor_state. Qed.
Hint Resolve sane_has_live sane_inSubtreeOf sane_check_ancestor : tree.

Lemma sane_run c (w : Writer D) : sane w -> sane (run c w).
Proof.
  revert w. destruct c; cbn [run]; intros w.
  - refine (_ w). change (keeps sane (Create name)). unfold Create, checkNoOpenFile, alignDataOff, ensureSpool. keep_size.
  - refine (_ w). change (keeps sane (@Mkdir D name perm)). unfold Mkdir. keep_size.
  - refine (_ w). change (keeps sane (@Symlink D oldname newname)). unfold Symlink. keep_size.
  - refine (_ w). change (keeps sane (@Link D oldname newname)). unfold Link. keep_size.
  - refine (_ w). change (keeps sane (@Mknod D name mode rdev)). unfold Mknod. keep_size.
  - refine (_ w). change (keeps sane (@Chmod D name mode)). unfold Chmod. keep_size.
  - refine (_ w). change (keeps sane (@Chown D name uid gid)). unfold Chown. keep_size.
  - refine (_ w). change (keeps sane (@Chtimes D name atime mtime)). unfold Chtimes. keep_size.
  - refine (_ w). change (keeps sane (@Setxattr D name attr value)). unfold Setxattr. keep_size.
  - refine (_ w). change (keeps sane (@SetNlink D name nlink)). unfold SetNlink. keep_size.
  - refine (_ w). change (keeps sane (@Remove D name)). unfold Remove, checkNotOpen. keep_size.
  - refine (_ w). change (keeps sane (@RemoveAll D name)). unfold RemoveAll. keep_size.
  - apply sane_File_Write.
  - apply sane_ReadFrom.
  - apply sane_File_Close.
  - refine (_ w). change (keeps sane (@File_Chmod D f mode)). unfold File_Chmod. keep_size.
  - refine (_ w). change (keeps sane (@File_Chown D f uid gid)). unfold File_Chown. keep_size.
Qed.

(** A number with one bit set is a power of two. *)
Lemma OnesCount_one n v : 0 <= v < 2 ^ Z.of_nat n -> OnesCount n v = 0 /\ v = 0 \/ 1 <= OnesCount n v /\
  (OnesCount n v = 1 -> exists k, 0 <= k < Z.of_nat n /\ v = 2 ^ k).
Proof.
  revert v. induction n as [|n IH]; intros v Hv; [left; cbn; split; [done|]; change (2 ^ Z.of_nat 0) with 1 in Hv; lia|].
  rewrite Nat2Z.inj_succ, Z.pow_succ_r in Hv by lia. cbn [OnesCount]. rewrite Z.bit0_odd, Z.shiftr_div_pow2 by lia. change (2 ^ 1) with 2.
  pose proof (Zdiv2_odd_eqn v) as Ev. rewrite Z.div2_div in Ev.
  destruct (IH (v / 2)) as [[-> E0]|[L1 L2]]; [split; [apply Z.div_pos; lia|apply Z.div_lt_upper_bound; lia]| |].
  - rewrite E0 in Ev. destruct (Z.odd v); [right|left; lia]. split; [lia|]. intros _. exists 0. rewrite Nat2Z.inj_succ. split; [lia|]. change (2 ^ 0) with 1. lia.
  - right. destruct (Z.odd v); [lia|]. split; [lia|]. intros E. destruct (L2 ltac:(lia)) as (k & K1 & K2). exists (k + 1).
    rewrite Nat2Z.inj_succ, Z.pow_add_r by lia. change (2 ^ 1) with 2. lia.
Qed.

Lemma setBlockSize_ok n (w : Writer D) r w' : setBlockSize n w = (r, w') ->
  fw_blockSize w = 0 -> w' = w \/ r = Ok tt /\ w' = fs_blockSize n w /\ block_ok n.
Proof.
  unfold setBlockSize. intros E H0.
  destruct ((n <? minBlockSize) || (maxBlockSize <? n)) eqn:E1; [left; by injection E as _ <-|].
  destruct (OnesCount 64 (u64 n) =? 1) eqn:E2; [|left; by injection E as _ <-]. cbn [negb] in E.
  rewrite (bind_ok _ _ w (fw_blockSize w) w) in E by done. rewrite H0 in E. injection E as <- <-. right. split; [done|]. split; [done|].
  rewrite orb_false_iff, !Z.ltb_ge in E1. change minBlockSize with 512 in E1. change maxBlockSize with 65536 in E1.
  apply Z.eqb_eq in E2. unfold u64 in E2. rewrite Z.mod_small in E2 by lia.
  destruct (OnesCount_one 64 n ltac:(change (2 ^ Z.of_nat 64) with (2 ^ 64); lia)) as [[C _]|[_ C]]; [lia|].
  destruct (C E2) as (k & K1 & K2). exists k. split; [|done].
  change 512 with (2 ^ 9) in E1. change 65536 with (2 ^ 16) in E1. rewrite K2 in E1.
  split; [apply (Z.pow_le_mono_r_iff 2)|apply (Z.pow_le_mono_r_iff 2)]; lia.
Qed.

Lemma sane_NewWriter o : sane (@NewWriter D _ o).
Proof.
  destruct (NewWriter_tree o) as [Es _].
  assert (B : (fw_blockSize (NewWriter o) = 0 \/ block_ok (fw_blockSize (NewWriter o))) /\
              (fw_dataFile (NewWriter o) <> None -> fw_devices (NewWriter o) <> [])).
  { unfold NewWriter. set (w0 := mkFs _ _ _ _ _ _ _ _ _ _ _ _ _ _ _ _ _ _ _ _ _). set (w1 := if negb _ then _ else w0).
    assert (C : (fw_blockSize w1 = 0 \/ block_ok (fw_blockSize w1)) /\ fw_dataFile w1 = o_dataFile o).
    { unfold w1. destruct (negb _); [|by split; [left|]]. destruct (setBlockSize (o_blockSize o) w0) as [r w2] eqn:E.
      destruct (setBlockSize_ok _ w0 r w2 E eq_refl) as [-> |(-> & -> & Hb)]; [|by split; [right|]].
      by destruct r; (split; [left|]). }
    destruct C as [C1 C2]. destruct (o_dataFile o) as [d|].
    - destruct (df_SeekEnd d) as [[d' off] err]. destruct err; (split; [exact C1|]); intros _; cbn; by destruct (fw_devices w1).
    - split; [exact C1|]. intros Hn. by rewrite C2 in Hn. }
  destruct B as [B1 B2]. split; [rewrite Es; by constructor|exact B1|exact B2].
Qed.

Lemma reachable_sane o (w : Writer D) : reachable o w -> sane w.
Proof. induction 1 as [|w c R IH _ _]; [apply sane_NewWriter|by apply sane_run]. Qed.

End Sizes.
