(* ===== verification/BuildTree.v ===== *)
(** * The tree that [Close] lays out

    [buildErofsTree] walks the writer's tree breadth first and makes one entry
    of every live one.  It ends, it finds the inode of every hardlink, and what
    it builds is the tree [planLayout] (Layout.v) places. *)

From S2P Require Import Prelude Machine Disk Format Image Inode Path Xattr Layout Serialize FsTree Mkfs.
From S2P Require Import TreeInv TreeRemove TreeOps TreeCalls TreeSane Build.

Section Build.
Context {D : Type} `{DataFile D} (w : Writer D) (G : good w).

Let st := fw_store w.

(** ** One entry *)

Lemma subdirs_ok l : (forall c, c ∈ l -> is_Some (st !! c)) -> exists n, subdirs l w = (Ok n, w).
Proof.
  unfold subdirs. generalize 0. induction l as [|c l IH]; intros n Hl; [by eexists|].
  destruct (Hl c ltac:(left)) as [ce Hc]. rewrite (bind_ok _ _ w ce w) by (by apply node_at_eq).
  apply IH. intros c' Hc'. apply Hl. by right.
Qed.

Lemma children_there x e c : st !! x = Some e -> c ∈ n_children e -> is_Some (st !! c).
Proof. intros Hx Hc. destruct (iv_down _ _ _ (proj1 G) x e c Hx Hc) as (ce & C1 & _). by exists ce. Qed.

Lemma linkCount_ok x e : st !! x = Some e -> exists n, linkCount e w = (Ok n, w).
Proof.
  intros Hx. unfold linkCount. destruct (n_nlinkSet e); [by eexists|]. destruct (n_type e =? StatTypeDir); [|by eexists].
  destruct (subdirs_ok (n_children e)) as [n Hn]; [intros c Hc; by eapply children_there|].
  rewrite (bind_ok _ _ w n w Hn). by eexists.
Qed.

(** What an entry becomes, before its children and its link are filled in. *)
Definition entry_image (e : fsEntry) : erofsEntry :=
  match n_linkTo e with
  | Some _ => alias_entry e
  | None => match fsToErofs w e with Ok ent => ent | _ => alias_entry e end
  end.

Lemma fsToErofs_image x e : st !! x = Some e -> n_linkTo e = None -> fsToErofs w e = Ok (entry_image e).
Proof.
  intros Hx Hl. unfold entry_image. rewrite Hl. unfold fsToErofs. destruct (linkCount_ok x e Hx) as [n Hn]. by rewrite Hn.
Qed.

Lemma image_fields x e :
  st !! x = Some e -> e_mode (entry_image e) = n_mode e /\ e_path (entry_image e) = n_path e /\ e_name (entry_image e) = Base (n_path e) /\
    e_children (entry_image e) = [] /\ e_aliasOf (entry_image e) = None /\ e_direntSize (entry_image e) = 0 /\
    (sized_entry e -> is_u64 (e_size (entry_image e))).
Proof.
  intros Hx. unfold entry_image, fsToErofs. destruct (n_linkTo e); [done|]. destruct (linkCount_ok x e Hx) as [n Hn]. by rewrite Hn.
Qed.

Lemma set_children_image e : e_children (entry_image e) = [] -> set_children [] (entry_image e) = entry_image e.
Proof. intros E. unfold set_children. rewrite <- E. reflexivity. Qed.

(** ** The books of the walk *)

(** The live entries, in the order their images are stored: the image of the
    entry at place [i] of [P] is the [i]-th. *)
Record books (b : building) (P : list ptr) : Prop := {
  bk_len : length (bd_er b) = length P;
  bk_entry i x : P !! i = Some x -> exists e kids, st !! x = Some e /\ live e /\
    bd_er b !! i = Some (set_children kids (entry_image e));
  bk_queue x i : (x, i) ∈ bd_queue b -> P !! i = Some x;
  bk_alias t i : (t, i) ∈ bd_aliases b <-> exists x e, P !! i = Some x /\ st !! x = Some e /\ n_linkTo e = Some t;
  bk_conv x i : bd_converted b !! x = Some i <->
    P !! i = Some x /\ exists e, st !! x = Some e /\ n_linkTo e = None /\ 0 < n_extraLinks e;
}.

Definition is_live (c : ptr) : bool := match st !! c with Some e => negb (n_removed e) | None => false end.
Definition is_dir_at (c : ptr) : bool := match st !! c with Some e => n_type e =? StatTypeDir | None => false end.

Definition live_of (l : list ptr) : list ptr := filter (fun c => is_live c = true) l.
Definition dirs_of (l : list ptr) : list ptr := filter (fun c => is_dir_at c = true) l.

(** A directory is no alias. *)
Lemma dir_no_alias x e t : st !! x = Some e -> live e -> n_linkTo e = Some t -> (n_type e =? StatTypeDir) = false.
Proof.
  intros Hx Hl Ht. apply Z.eqb_neq. destruct (iv_link _ _ _ (proj1 G) x e t Hx Hl Ht) as [Hd _]. exact Hd.
Qed.

(** The next live child takes the next place. *)
Lemma convert_child_ok b kids P c ce :
  books b P -> st !! c = Some ce -> live ce -> c ∉ P ->
  exists b', convert_child w b kids c = Ok (b', kids ++ [length P]) /\ books b' (P ++ [c]) /\
    bd_er b' = bd_er b ++ [entry_image ce] /\
    (bd_queue b').*1 = (bd_queue b).*1 ++ (if n_type ce =? StatTypeDir then [c] else []).
Proof.
  intros B Hc Hl Hn. pose proof (bk_len _ _ B) as Len. destruct (image_fields c ce Hc) as (_ & _ & _ & Hk & _).
  assert (OLD : forall i x, P !! i = Some x -> (P ++ [c]) !! i = Some x) by (intros; by apply lookup_app_l_Some).
  assert (NEW : forall i x, (P ++ [c]) !! i = Some x <-> P !! i = Some x \/ i = length P /\ x = c).
  { intros i x. rewrite lookup_app_Some, list_lookup_singleton_Some. split; [intros [?|[? [? ?]]]; [by left|right; split; [lia|done]]|].
    intros [?|[-> ->]]; [by left|right]. split; [lia|]. by rewrite Nat.sub_diag. }
  assert (ENT : forall i x, (P ++ [c]) !! i = Some x -> exists e kids, st !! x = Some e /\ live e /\
    (bd_er b ++ [entry_image ce]) !! i = Some (set_children kids (entry_image e))).
  { intros i x [Hi|[-> ->]]%NEW.
    - destruct (bk_entry _ _ B i x Hi) as (e & ks & E1 & E2 & E3). exists e, ks. split; [done|]. split; [done|]. by apply lookup_app_l_Some.
    - exists ce, []. rewrite set_children_image by done. split; [done|]. split; [done|]. rewrite lookup_app_r by lia.
      by rewrite Len, Nat.sub_diag. }
  assert (NC : bd_converted b !! c = None).
  { destruct (bd_converted b !! c) as [i|] eqn:E; [|done]. apply (bk_conv _ _ B) in E as [E _]. destruct Hn. by eapply list_elem_of_lookup_2. }
  unfold convert_child, node. rewrite (node_at_eq w c ce Hc). cbn [fst]. cbv beta iota. unfold live in Hl. rewrite Hl.
  destruct (n_linkTo ce) as [t|] eqn:Et.
  - assert (Im : entry_image ce = alias_entry ce) by (unfold entry_image; by rewrite Et). rewrite <- Im, Len. eexists. split; [done|].
    split; [|split; [done|]]; [split; cbn|].
    + rewrite !length_app, Len. done.
    + exact ENT.
    + intros x i Hq. apply OLD. by apply (bk_queue _ _ B).
    + intros t' i. rewrite elem_of_app, list_elem_of_singleton, (bk_alias _ _ B). split.
      * intros [(x & e & A1 & A2 & A3)|[= -> ->]]; [exists x, e; auto|]. exists c, ce. split; [apply NEW; by right|done].
      * intros (x & e & [A1|[-> ->]]%NEW & A2 & A3); [left; by exists x, e|right]. rewrite Hc in A2.
        apply (inj Some) in A2 as <-. congruence.
    + intros x i. rewrite (bk_conv _ _ B), NEW. split; [tauto|]. intros [[A1|[-> ->]] (e & A2 & A3 & A4)]; [eauto 10|].
      rewrite Hc in A2. apply (inj Some) in A2 as <-. congruence.
    + cbn. rewrite (dir_no_alias c ce t) by done. by rewrite app_nil_r.
  - rewrite (fsToErofs_image c ce) by done. rewrite Len. eexists. split; [done|].
    split; [|split; [done|]]; [split; cbn|].
    + rewrite !length_app, Len. done.
    + exact ENT.
    + intros x i Hq. destruct (n_type ce =? StatTypeDir); [apply elem_of_app in Hq as [Hq|Hq%list_elem_of_singleton]|].
      * apply OLD. by apply (bk_queue _ _ B).
      * injection Hq as -> ->. apply NEW. by right.
      * apply OLD. by apply (bk_queue _ _ B).
    + intros t' i. rewrite (bk_alias _ _ B). split; [intros (x & e & A1 & A2); exists x, e; auto|].
      intros (x & e & [A1|[-> ->]]%NEW & A2 & A3); [by exists x, e|]. rewrite Hc in A2. apply (inj Some) in A2 as <-. congruence.
    + intros x i. rewrite NEW. destruct (Z.ltb_spec 0 (n_extraLinks ce)) as [He|He].
      * destruct (decide (x = c)) as [->|Hx].
        -- rewrite lookup_insert_eq. split; [intros [= <-]; split; [by right|by exists ce]|].
           intros [[A1|[-> _]] _]; [|done]. destruct Hn. by eapply list_elem_of_lookup_2.
        -- rewrite lookup_insert_ne, (bk_conv _ _ B) by done. intuition congruence.
      * rewrite (bk_conv _ _ B). split; [tauto|]. intros [[A1|[-> ->]] (e & A2 & A3 & A4)]; [eauto 10|].
        rewrite Hc in A2. apply (inj Some) in A2 as <-. lia.
    + cbn. destruct (n_type ce =? StatTypeDir); [by rewrite fmap_app|by rewrite app_nil_r].
Qed.

(** The loop over a directory's children. *)
Lemma convert_children_ok l : forall b kids P,
  books b P -> NoDup l -> (forall c, c ∈ l -> is_Some (st !! c) /\ (c ∉ P)) ->
  exists b', convert_children w b kids l = Ok (b', kids ++ seq (length P) (length (live_of l))) /\
    books b' (P ++ live_of l) /\
    (forall i, (i < length P)%nat -> bd_er b' !! i = bd_er b !! i) /\
    (forall i x e, (length P <= i)%nat -> (P ++ live_of l) !! i = Some x -> st !! x = Some e -> bd_er b' !! i = Some (entry_image e)) /\
    (bd_queue b').*1 = (bd_queue b).*1 ++ dirs_of (live_of l).
Proof.
  induction l as [|c l IH]; intros b kids P B Hnd Hl.
  { exists b. cbn. rewrite !app_nil_r. split; [done|]. split; [done|]. split; [done|]. split; [|done].
    intros i x e Hi Hx. apply lookup_lt_Some in Hx. lia. }
  apply NoDup_cons in Hnd as [Hc Hnd]. destruct (Hl c ltac:(left)) as [[ce Hce] Hcp].
  assert (Hl' : forall c', c' ∈ l -> is_Some (st !! c') /\ (c' ∉ P)) by (intros c' ?; apply Hl; by right).
  cbn [convert_children]. unfold live_of in *. rewrite filter_cons.
  assert (Lc : is_live c = negb (n_removed ce)) by (unfold is_live; by rewrite Hce).
  destruct (n_removed ce) eqn:Er.
  - rewrite decide_False by (by rewrite Lc). destruct (IH b kids P B Hnd Hl') as (b' & R). exists b'.
    unfold convert_child, node. rewrite (node_at_eq w c ce Hce). cbn [fst]. cbv beta iota. by rewrite Er.
  - rewrite decide_True by (by rewrite Lc). destruct (convert_child_ok b kids P c ce B Hce Er Hcp) as (b1 & E1 & B1 & R1 & Q1). rewrite E1. 
    destruct (IH b1 (kids ++ [length P]) (P ++ [c]) B1 Hnd) as (b' & E2 & B2 & R2 & N2 & Q2).
    { intros c' Hc'. destruct (Hl' c' Hc') as [? ?]. split; [done|]. rewrite elem_of_app, list_elem_of_singleton. intros [?| ->]; done. }
    exists b'. rewrite E2, length_app. cbn [length seq]. rewrite <- !app_assoc. replace (length P + 1)%nat with (S (length P)) by lia.
    split; [done|]. split; [by rewrite <- app_assoc in B2|]. rewrite length_app in R2. cbn [length] in R2. split; [|split].
    + intros i Hi. rewrite R2, R1 by lia. apply lookup_app_l. rewrite (bk_len _ _ B). done.
    + intros i x e Hi Hx He. rewrite <- app_assoc in N2. destruct (decide (i = length P)) as [->|Hne].
      * rewrite R2, R1 by lia. rewrite lookup_app_r in Hx by lia. rewrite Nat.sub_diag in Hx. injection Hx as <-.
        rewrite Hce in He. apply (inj Some) in He as <-. rewrite lookup_app_r by (rewrite (bk_len _ _ B); lia).
        by rewrite (bk_len _ _ B), Nat.sub_diag.
      * apply (N2 i x e); [rewrite length_app; cbn; lia|done|done].
    + rewrite Q2, Q1, <- app_assoc. f_equal. unfold dirs_of. rewrite filter_cons.
      assert (Dc : is_dir_at c = (n_type ce =? StatTypeDir)) by (unfold is_dir_at; by rewrite Hce).
      destruct (n_type ce =? StatTypeDir); [by rewrite decide_True by done|by rewrite decide_False by (by rewrite Dc)].
Qed.

(** ** The walk *)

(** Where the walk stands: the directories in [seen] have been visited, their
    children are placed after them; the queue holds the other directories. *)
Record bfs (b : building) (P seen : list ptr) : Prop := {
  bf_books : books b P;
  bf_nodup : NoDup P;
  bf_root : P !! 0%nat = Some root;
  bf_once : NoDup (seen ++ (bd_queue b).*1);
  bf_dirs x : x ∈ seen ++ (bd_queue b).*1 <-> x ∈ P /\ is_dir_at x = true;
  bf_kids i x e : P !! i = Some x -> st !! x = Some e -> exists kids,
    bd_er b !! i = Some (set_children kids (entry_image e)) /\ NoDup kids /\ ((x ∉ seen) -> kids = []) /\
    (x ∈ seen -> (forall j, j ∈ kids <-> exists c ce, P !! j = Some c /\ st !! c = Some ce /\ n_parent ce = Some x) /\
       forall c ce, st !! c = Some ce -> live ce -> n_parent ce = Some x -> c ∈ P);
  bf_order j c ce q : P !! j = Some c -> st !! c = Some ce -> n_parent ce = Some q ->
    q ∈ seen /\ exists i, P !! i = Some q /\ (i < j)%nat;
}.

Lemma W : walkable st.
Proof. exact (shape_walkable _ _ _ (proj1 G)). Qed.

(** The live children of a directory, as the walk takes them. *)
Lemma live_of_children x e c : st !! x = Some e ->
  c ∈ live_of (n_children e) <-> exists ce, st !! c = Some ce /\ live ce /\ n_parent ce = Some x.
Proof.
  intros Hx. unfold live_of. rewrite list_elem_of_filter. unfold is_live. split.
  - intros [Hl Hc]. destruct (wk_down st W x e c Hx Hc) as (ce & C1 & C2). rewrite C1 in Hl. apply negb_true_iff in Hl. eauto.
  - intros (ce & C1 & C2 & C3). destruct (wk_up st W c ce x C1 C2 C3) as (qe & Q1 & _ & Q2 & _). rewrite Hx in Q1.
    apply (inj Some) in Q1 as <-. rewrite C1. split; [by apply negb_true_iff|done].
Qed.

(** The count of [build_dir] is the one of the image. *)
Lemma build_dir_nlink x e n :
  st !! x = Some e -> n_linkTo e = None -> subdirs (n_children e) w = (Ok n, w) ->
  (if negb (n_nlinkSet e) && (n_type e =? StatTypeDir) then set_nlink (u32 (2 + n)) (entry_image e) else entry_image e) = entry_image e.
Proof.
  intros Hx Hl Hn. destruct (n_nlinkSet e) eqn:E1; [done|]. destruct (n_type e =? StatTypeDir) eqn:E2; [|done]. cbn [negb andb].
  unfold entry_image. rewrite Hl. unfold fsToErofs, linkCount. rewrite E1, E2, (bind_ok _ _ w n w Hn). done.
Qed.

(** No child of a directory not yet visited is placed. *)
Lemma bfs_fresh b P seen x c ce : bfs b P seen -> (x ∉ seen) -> st !! c = Some ce -> n_parent ce = Some x -> c ∉ P.
Proof. intros F Hx C1 C2 [j Hj]%list_elem_of_lookup. by destruct (bf_order _ _ _ F j c ce x Hj C1 C2). Qed.

(** The head of the queue has not been visited. *)
Lemma bfs_head b P seen x i queue : bfs b P seen -> bd_queue b = (x, i) :: queue ->
  (x ∉ seen) /\ NoDup (seen ++ queue.*1) /\ (x ∉ queue.*1) /\ P !! i = Some x /\ is_dir_at x = true.
Proof.
  intros F Hq. assert (Hi : P !! i = Some x) by (apply (bk_queue _ _ (bf_books _ _ _ F)); rewrite Hq; left).
  pose proof (bf_once _ _ _ F) as N. rewrite Hq in N. cbn in N. rewrite <- Permutation_middle in N. apply NoDup_cons in N as [N1 N2].
  rewrite not_elem_of_app in N1. split; [tauto|]. split; [done|]. split; [tauto|]. split; [done|].
  apply (bf_dirs _ _ _ F x). rewrite Hq. apply elem_of_app. right. left.
Qed.

(** The children of the entries, after the live children [L] of [x] took the
    next places and [x] got them as its own. *)
Lemma bfs_grow_kids b b' P seen x i e kids' : let L := live_of (n_children e) in
  bfs b P seen -> P !! i = Some x -> st !! x = Some e -> (x ∉ seen) ->
  kids' ≡ₚ seq (length P) (length L) -> bd_er b' !! i = Some (set_children kids' (entry_image e)) ->
  (forall j, j <> i -> (j < length P)%nat -> bd_er b' !! j = bd_er b !! j) ->
  (forall j y ye, (length P <= j)%nat -> (P ++ L) !! j = Some y -> st !! y = Some ye -> bd_er b' !! j = Some (entry_image ye)) ->
  forall j y ye, (P ++ L) !! j = Some y -> st !! y = Some ye -> exists kids,
    bd_er b' !! j = Some (set_children kids (entry_image ye)) /\ NoDup kids /\ ((y ∉ x :: seen) -> kids = []) /\
    (y ∈ x :: seen -> (forall k, k ∈ kids <-> exists c ce, (P ++ L) !! k = Some c /\ st !! c = Some ce /\ n_parent ce = Some y) /\
       forall c ce, st !! c = Some ce -> live ce -> n_parent ce = Some y -> c ∈ P ++ L).
Proof.
  intros L F Hi He Hxs Hks ERi ER N1.
  assert (HL : forall c, c ∈ L <-> exists ce, st !! c = Some ce /\ live ce /\ n_parent ce = Some x) by (intros c; by apply live_of_children).
  assert (SPLIT : forall j y, (P ++ L) !! j = Some y <-> P !! j = Some y \/ (length P <= j)%nat /\ L !! (j - length P)%nat = Some y)
    by (intros j y; apply lookup_app_Some).
  intros j y ye Hjy Hy. pose proof Hjy as Hj. apply SPLIT in Hj as [Hj|[Hj1 Hj2]].
  - destruct (bf_kids _ _ _ F j y ye Hj Hy) as (ks & S1 & S2 & S3 & S4). destruct (decide (y = x)) as [->|Hyx].
    + assert (j = i) as -> by (eapply NoDup_lookup; [apply (bf_nodup _ _ _ F)|done|done]).
      rewrite He in Hy. apply (inj Some) in Hy as <-. exists kids'. split; [done|].
      split; [rewrite Hks; apply NoDup_seq|]. split; [intros Hno; destruct Hno; left|]. intros _. split.
      * intros k. rewrite Hks, elem_of_seq. split.
        -- intros Hk. destruct (lookup_lt_is_Some_2 L (k - length P)) as [c Hc]; [lia|].
           assert (c ∈ L) as (ce & C1 & C2 & C3)%HL by (by eapply list_elem_of_lookup_2).
           exists c, ce. split; [apply SPLIT; right; split; [lia|done]|done].
        -- intros (c & ce & [C1|[C1 C1']]%SPLIT & C2 & C3); [|apply lookup_lt_Some in C1'; lia].
           destruct (bfs_fresh b P seen x c ce F Hxs C2 C3). by eapply list_elem_of_lookup_2.
      * intros c ce C1 C2 C3. apply elem_of_app. right. apply HL. by exists ce.
    + assert (j <> i) by (intros ->; congruence). rewrite ER by (done || by eapply lookup_lt_Some). exists ks. split; [done|].
      split; [done|]. split; [intros Hno; apply S3; intros Hs; apply Hno; by right|].
      intros [?|Hs]%elem_of_cons; [done|]. destruct (S4 Hs) as [T1 T2]. split.
      * intros k. rewrite T1. split; intros (c & ce & C1 & C2 & C3); exists c, ce; (split; [|done]).
        -- apply SPLIT. by left.
        -- apply SPLIT in C1 as [?|[_ C1]]; [done|]. apply list_elem_of_lookup_2 in C1. apply HL in C1 as (ce' & D1 & _ & D2).
           rewrite C2 in D1. apply (inj Some) in D1 as <-. congruence.
      * intros c ce C1 C2 C3. apply elem_of_app. left. by apply (T2 c ce).
  - assert (Hy2 : y ∈ L) by (by eapply list_elem_of_lookup_2). exists []. rewrite (N1 j y ye Hj1 Hjy Hy).
    destruct (image_fields y ye Hy) as (_ & _ & _ & Hc' & _). rewrite set_children_image by done. split; [done|]. split; [constructor|].
    split; [done|]. apply HL in Hy2 as (ye' & Y1 & _ & Y2). pose proof (bfs_fresh b P seen x y ye' F Hxs Y1 Y2) as Hn.
    intros [-> | Hs]%elem_of_cons; destruct Hn; [by eapply list_elem_of_lookup_2|].
    apply (bf_dirs _ _ _ F y). apply elem_of_app. by left.
Qed.

(** The walk goes on after a directory. *)
Lemma bfs_grow b b' P seen x i e queue kids' : let L := live_of (n_children e) in
  bfs b P seen -> bd_queue b = (x, i) :: queue -> st !! x = Some e ->
  books b' (P ++ L) -> (bd_queue b').*1 = queue.*1 ++ dirs_of L ->
  kids' ≡ₚ seq (length P) (length L) -> bd_er b' !! i = Some (set_children kids' (entry_image e)) ->
  (forall j, j <> i -> (j < length P)%nat -> bd_er b' !! j = bd_er b !! j) ->
  (forall j y ye, (length P <= j)%nat -> (P ++ L) !! j = Some y -> st !! y = Some ye -> bd_er b' !! j = Some (entry_image ye)) ->
  bfs b' (P ++ L) (x :: seen).
Proof.
  intros L F Hq He B' Q1 Hks ERi ER N1. destruct (bfs_head _ _ _ _ _ _ F Hq) as (Hxs & Hnd0 & Hxq & Hi & _).
  assert (HL : forall c, c ∈ L <-> exists ce, st !! c = Some ce /\ live ce /\ n_parent ce = Some x) by (intros c; by apply live_of_children).
  assert (HLP : forall c, c ∈ L -> c ∉ P) by (intros c (ce & C1 & _ & C2)%HL; by apply (bfs_fresh b P seen x c ce)).
  assert (HLN : NoDup L) by (apply NoDup_filter; by apply (wk_nodup st W x)).
  split; [done|..].
  - apply NoDup_app. split; [apply (bf_nodup _ _ _ F)|]. split; [intros c Hp Hc; by apply (HLP c)|done].
  - by apply lookup_app_l_Some, (bf_root _ _ _ F).
  - rewrite Q1. cbn [app]. rewrite app_assoc. change (x :: (seen ++ queue.*1) ++ dirs_of L) with ((x :: seen ++ queue.*1) ++ dirs_of L).
    apply NoDup_app. split; [apply NoDup_cons; split; [rewrite elem_of_app; tauto|done]|]. split; [|by apply NoDup_filter].
    intros y Hy Hd. apply list_elem_of_filter in Hd as [_ Hd]. apply (HLP y Hd).
    apply (bf_dirs _ _ _ F y). rewrite Hq. cbn. rewrite elem_of_app in *. rewrite elem_of_cons in *. rewrite elem_of_app in Hy. tauto.
  - intros y. rewrite Q1. pose proof (bf_dirs _ _ _ F y) as Fd. rewrite Hq in Fd. cbn in Fd. cbn [app].
    rewrite !elem_of_cons, !elem_of_app in *. unfold dirs_of. rewrite list_elem_of_filter. rewrite elem_of_cons in Fd. tauto.
  - by apply (bfs_grow_kids b b' P seen x i e kids').
  - intros j c ce q Hj Hc Hp. apply lookup_app_Some in Hj as [Hj|[Hj1 Hj2]].
    + destruct (bf_order _ _ _ F j c ce q Hj Hc Hp) as (O1 & k & O2 & O3). split; [by right|]. exists k. split; [|done].
      by apply lookup_app_l_Some.
    + apply list_elem_of_lookup_2 in Hj2. apply HL in Hj2 as (ce' & C1 & _ & C2). rewrite Hc in C1. apply (inj Some) in C1 as <-.
      assert (q = x) as -> by congruence. split; [left|]. exists i. apply lookup_lt_Some in Hi as Hil. split; [by apply lookup_app_l_Some|lia].
Qed.

Lemma build_dir_ok b P seen x i queue :
  bfs b P seen -> bd_queue b = (x, i) :: queue ->
  exists b' P', build_dir w (mkBuilding (bd_er b) queue (bd_aliases b) (bd_converted b)) x i = Ok b' /\ bfs b' P' (x :: seen).
Proof.
  intros F Hq. pose proof (bf_books _ _ _ F) as B. set (b0 := mkBuilding _ queue _ _).
  destruct (bfs_head _ _ _ _ _ _ F Hq) as (Hxs & _ & _ & Hi & Hxd).
  destruct (bk_entry _ _ B i x Hi) as (e & _ & He & Hle & _).
  destruct (bf_kids _ _ _ F i x e Hi He) as (ks & K1 & _ & K2 & _). rewrite (K2 Hxs) in K1. clear ks K2.
  destruct (image_fields x e He) as (_ & _ & _ & Hic & _). rewrite set_children_image in K1 by done.
  assert (Hnl : n_linkTo e = None).
  { unfold is_dir_at in Hxd. rewrite He in Hxd. destruct (n_linkTo e) as [t|] eqn:Et; [|done].
    rewrite (dir_no_alias x e t) in Hxd by done. done. }
  assert (B0 : books b0 P).
  { destruct B as [B1 B2 B3 B4 B5]. split; try done. intros y j Hy. apply B3. rewrite Hq. by right. }
  assert (Hch : forall c, c ∈ n_children e -> is_Some (st !! c)) by (intros c Hc; by eapply children_there).
  destruct (subdirs_ok (n_children e) Hch) as [n Hn].
  destruct (convert_children_ok (n_children e) b0 [] P B0) as (b1 & E1 & B1 & R1 & N1 & Q1).
  { by apply (wk_nodup st W x). }
  { intros c Hc. split; [by apply Hch|]. intros Hin. destruct (wk_down st W x e c He Hc) as (ce & C1 & C2).
    pose proof Hin as [j Hj]%list_elem_of_lookup. destruct (bk_entry _ _ B j c Hj) as (ce' & _ & J1 & J2 & _).
    rewrite C1 in J1. apply (inj Some) in J1 as <-. by apply (bfs_fresh b P seen x c ce F Hxs C1), Hin; apply C2. }
  cbn [app] in E1. set (L := live_of (n_children e)) in *. set (kids := seq (length P) (length L)) in E1.
  set (kids' := sort_children (bd_er b1) kids). assert (Hks : kids' ≡ₚ kids) by apply merge_sort_Permutation.
  set (b' := mkBuilding (<[i := set_children kids' (entry_image e)]> (bd_er b1)) (bd_queue b1) (bd_aliases b1) (bd_converted b1)).
  assert (Hil : (i < length P)%nat) by (by eapply lookup_lt_Some).
  assert (ER : forall j, j <> i -> bd_er b' !! j = bd_er b1 !! j) by (intros j Hj; apply list_lookup_insert_ne; congruence).
  assert (ERi : bd_er b' !! i = Some (set_children kids' (entry_image e))).
  { apply list_lookup_insert_eq. rewrite (bk_len _ _ B1), length_app. lia. }
  exists b', (P ++ L). split.
  { unfold build_dir, node. rewrite (node_at_eq w x e He). cbn [fst]. cbv beta iota. rewrite Hn. cbn [fst]. cbv beta iota.
    unfold deref. cbn [bd_er b0]. rewrite K1. cbv beta iota zeta. fold b0. rewrite E1. cbv beta iota zeta.
    rewrite (build_dir_nlink x e n He Hnl Hn). done. }
  apply (bfs_grow b b' P seen x i e queue kids'); try done.
  - destruct B1 as [A1 A2 A3 A4 A5]. split; try done; [by cbn; rewrite length_insert|].
    intros j y Hj. destruct (decide (j = i)) as [->|Hne]; [|rewrite ER by done; by apply A2].
    apply lookup_app_Some in Hj as [Hj|[? _]]; [|lia]. assert (y = x) as -> by congruence. by exists e, kids'.
  - intros j Hj Hl. rewrite ER by done. by apply R1.
  - intros j y ye Hj Hy Hye. rewrite ER by lia. by apply (N1 j y ye).
Qed.

Lemma NoDup_below (l : list nat) n : NoDup l -> (forall x, x ∈ l -> (x < n)%nat) -> (length l <= n)%nat.
Proof.
  intros Hnd Hl. transitivity (length (seq 0 n)); [|by rewrite length_seq]. apply submseteq_length, NoDup_submseteq; [done|]. intros x Hx.
  apply elem_of_seq. specialize (Hl x Hx). lia.
Qed.

Lemma bfs_there b P seen x : bfs b P seen -> x ∈ P -> exists e, st !! x = Some e /\ live e.
Proof.
  intros F [i Hi]%list_elem_of_lookup. destruct (bk_entry _ _ (bf_books _ _ _ F) i x Hi) as (e & _ & E1 & E2 & _). by exists e.
Qed.

(** Every directory is visited once: the fuel is enough. *)
Lemma build_loop_ok fuel : forall b P seen,
  bfs b P seen -> (length st <= fuel + length seen)%nat ->
  exists b' P' seen', build_loop fuel w b = Ok b' /\ bfs b' P' seen' /\ bd_queue b' = [].
Proof.
  induction fuel as [|fuel IH]; intros b P seen F Hf.
  all: destruct (bd_queue b) as [|[x i] queue] eqn:Hq; [exists b, P, seen; cbn; by rewrite Hq|].
  all: assert (Hlen : (length (seen ++ (bd_queue b).*1) <= length st)%nat)
    by (apply NoDup_below; [apply (bf_once _ _ _ F)|]; intros y Hy; apply (bf_dirs _ _ _ F y) in Hy as [Hy _];
        destruct (bfs_there _ _ _ y F Hy) as (e & E & _); by eapply lookup_lt_Some).
  all: rewrite Hq, length_app in Hlen; cbn [fmap list_fmap length] in Hlen.
  - exfalso. lia.
  - destruct (build_dir_ok b P seen x i queue F Hq) as (b1 & P1 & E1 & F1). cbn [build_loop]. rewrite Hq, E1.
    apply (IH b1 P1 (x :: seen) F1). cbn. lia.
Qed.

(** All live entries are placed when the queue is empty. *)
Lemma bfs_complete b P seen x e : bfs b P seen -> bd_queue b = [] -> st !! x = Some e -> live e -> x ∈ P.
Proof.
  intros F Hq. revert e. induction (lt_wf x) as [x _ IH]. intros e Hx Hl.
  destruct (decide (x = root)) as [->|Hr]; [apply list_elem_of_lookup; exists 0%nat; apply (bf_root _ _ _ F)|].
  destruct (iv_seated _ _ _ (proj1 G) x e Hx Hl Hr) as [_ (q & qe & Q1 & Q2 & Q3 & Q4 & _ & _ & Q7)].
  destruct Q7 as [Q7 _]; [by intros []|]. assert (Hqp : q ∈ P) by (by apply (IH q Q2 qe)).
  assert (Hs : q ∈ seen).
  { pose proof (bf_dirs _ _ _ F q) as Fd. rewrite Hq in Fd. cbn in Fd. rewrite app_nil_r in Fd. apply Fd. split; [done|].
    unfold is_dir_at. fold st in Q3. rewrite Q3. by apply Z.eqb_eq. }
  apply list_elem_of_lookup in Hqp as [i Hi]. destruct (bf_kids _ _ _ F i q qe Hi Q3) as (ks & _ & _ & _ & K).
  by apply (proj2 (K Hs) x e).
Qed.

(** ** Hardlinks *)

(** The inode of an alias is live, counts the alias, and is converted. *)
Lemma alias_target b P seen x e t :
  bfs b P seen -> bd_queue b = [] -> st !! x = Some e -> live e -> n_linkTo e = Some t ->
  exists j te, bd_converted b !! t = Some j /\ P !! j = Some t /\ st !! t = Some te /\ n_linkTo te = None.
Proof.
  intros F Hq Hx Hl Ht. destruct (iv_link _ _ _ (proj1 G) x e t Hx Hl Ht) as (_ & te & T1 & _ & T2 & T3).
  assert (Hlt : live te) by (apply T3; by intros []). specialize (T2 Hlt).
  assert (Ht0 : t ∈ P) by (by apply (bfs_complete b P seen t te)). apply list_elem_of_lookup in Ht0 as [j Hj].
  exists j, te. split; [|done]. apply (bk_conv _ _ (bf_books _ _ _ F)). split; [done|]. exists te. split; [done|]. split; [done|].
  fold st in T1. rewrite (proj2 G t te T1 Hlt T2). pose proof (count_pos (links st) t x) as CP. rewrite (links_lookup _ _ _ Hx) in CP.
  apply CP. unfold link_of, live in *. congruence.
Qed.

Lemma wire_aliases_ok (conv : gmap ptr ptr) err als : forall er : store,
  (forall t i, (t, i) ∈ als -> is_Some (er !! i) /\ is_Some (conv !! t)) ->
  (forall t t' i, (t, i) ∈ als -> (t', i) ∈ als -> t = t') ->
  exists er', wire_aliases er conv als err = Ok (er', err) /\ length er' = length er /\
    (forall i e, er !! i = Some e -> (forall t, ~ (t, i) ∈ als) -> er' !! i = Some e) /\
    (forall t i e j, (t, i) ∈ als -> er !! i = Some e -> conv !! t = Some j -> er' !! i = Some (set_aliasOf (Some j) e)).
Proof.
  induction als as [|[t i] als IH]; intros er Hok Hfun.
  { exists er. repeat (split; [done|]). intros t i e j Hin. by apply elem_of_nil in Hin. }
  destruct (Hok t i ltac:(left)) as [[e He] [j Hj]]. cbn [wire_aliases]. rewrite Hj. unfold deref. rewrite He.
  destruct (IH (<[i := set_aliasOf (Some j) e]> er)) as (er' & W1 & W2 & W3 & W4).
  { intros t' i' Hin. destruct (Hok t' i' ltac:(by right)) as [[e' He'] ?]. split; [|done]. apply lookup_lt_is_Some. rewrite length_insert.
    by eapply lookup_lt_Some. }
  { intros t1 t2 k H1 H2. apply (Hfun t1 t2 k); by right. }
  assert (Hil : (i < length er)%nat) by (by eapply lookup_lt_Some).
  exists er'. split; [done|]. split; [by rewrite W2, length_insert|]. split.
  - intros k ke Hk Hno. apply W3; [|intros t' Hin; apply (Hno t'); by right]. rewrite list_lookup_insert_ne; [done|].
    intros <-. apply (Hno t). left.
  - intros t' k ke jj Hin Hk Hc. destruct (decide (k = i)) as [->|Hki].
    + rewrite He in Hk. apply (inj Some) in Hk as <-. assert (t' = t) as -> by (apply (Hfun t' t i); [done|left]).
      assert (jj = j) as -> by congruence. destruct (decide ((t, i) ∈ als)) as [Hd|Hd].
      * rewrite (W4 t i (set_aliasOf (Some j) e) j); [done|done| |done]. by apply list_lookup_insert_eq.
      * apply W3; [by apply list_lookup_insert_eq|]. intros t' Ht'. apply Hd.
        by rewrite (Hfun t t' i ltac:(left) ltac:(by right)).
    + apply elem_of_cons in Hin as [[= -> ->]|Hin]; [done|]. apply (W4 t' k ke jj); [done| |done]. by rewrite list_lookup_insert_ne by congruence.
Qed.

(** ** What is built *)

(** The entries [er] are the image of the writer's live tree: [P] lists the live
    entries, each once, the root first and a directory before its children; the
    entry at the same place has what the source has, a directory holds the
    places of its live children, and a hardlink names the place of its inode. *)
Record built (P : list ptr) (er : store) : Prop := {
  bl_len : length er = length P;
  bl_nodup : NoDup P;
  bl_root : P !! 0%nat = Some root;
  bl_live x : x ∈ P <-> exists e, st !! x = Some e /\ live e;
  bl_inode i x e : P !! i = Some x -> st !! x = Some e -> n_linkTo e = None ->
    exists kids ent, fsToErofs w e = Ok ent /\ er !! i = Some (set_children kids ent) /\ NoDup kids /\
    forall j, j ∈ kids <-> exists c ce, P !! j = Some c /\ st !! c = Some ce /\ n_parent ce = Some x;
  bl_alias i x e t : P !! i = Some x -> st !! x = Some e -> n_linkTo e = Some t ->
    exists j, P !! j = Some t /\ er !! i = Some (set_aliasOf (Some j) (alias_entry e));
  bl_order j c ce q : P !! j = Some c -> st !! c = Some ce -> n_parent ce = Some q -> exists i, P !! i = Some q /\ (i < j)%nat;
}.

(** The walk starts at the root, which is no hardlink. *)
Lemma bfs_start re : st !! root = Some re -> live re -> is_dir re -> n_linkTo re = None -> n_parent re = None -> n_extraLinks re = 0 ->
  bfs (mkBuilding [entry_image re] [(root, 0%nat)] [] ∅) [root] [].
Proof.
  intros Hr Hl Hd Hln Hp Hx. destruct (image_fields root re Hr) as (_ & _ & _ & Hc & _).
  assert (ONE : forall i x, [root] !! i = Some x -> i = 0%nat /\ x = root) by (intros [|i] x Hi; by inversion Hi).
  split; cbn.
  - split; cbn.
    + done.
    + intros i x [-> ->]%ONE. exists re, []. by rewrite set_children_image.
    + intros x i [= -> ->]%list_elem_of_singleton. done.
    + intros t i. split; [by intros ?%elem_of_nil|]. intros (x & e & [-> ->]%ONE & E1 & E2). congruence.
    + intros x i. rewrite lookup_empty. split; [done|]. intros [[-> ->]%ONE (e & E1 & _ & E2)]. rewrite Hr in E1.
      apply (inj Some) in E1 as <-. lia.
  - apply NoDup_singleton.
  - done.
  - apply NoDup_singleton.
  - intros x. rewrite !list_elem_of_singleton. split; [|tauto]. intros ->. split; [done|]. unfold is_dir_at. rewrite Hr. by apply Z.eqb_eq.
  - intros i x e [-> ->]%ONE He. rewrite Hr in He. apply (inj Some) in He as <-. exists []. rewrite set_children_image by done.
    split; [done|]. split; [constructor|]. split; [done|]. by intros ?%elem_of_nil.
  - intros j c ce q [-> ->]%ONE Hce Hq. congruence.
Qed.

(** A live directory has no hardlinks. *)
Lemma dir_no_links x e : st !! x = Some e -> live e -> is_dir e -> n_linkTo e = None /\ n_extraLinks e = 0.
Proof.
  intros Hx Hl Hd. assert (Hn : n_linkTo e = None).
  { destruct (n_linkTo e) as [t|] eqn:Et; [|done]. destruct (iv_link _ _ _ (proj1 G) x e t Hx Hl Et) as [N _]. by destruct N. }
  split; [done|]. rewrite (proj2 G x e Hx Hl Hn). unfold count. fold st. destruct (filter _ (links st)) as [|y l] eqn:E; [done|]. exfalso.
  assert (Hy : y ∈ filter (fun y => y = (false, Some x)) (links st)) by (rewrite E; left).
  apply list_elem_of_filter in Hy as [-> Hy]. apply list_elem_of_fmap in Hy as (ye & Y1 & Y2).
  apply list_elem_of_lookup in Y2 as [q Hq]. unfold link_of in Y1. injection Y1 as Y1 Y2.
  destruct (iv_link _ _ _ (proj1 G) q ye x Hq (eq_sym Y1) (eq_sym Y2)) as (N & te & T1 & T2 & _). fold st in T1. rewrite Hx in T1.
  apply (inj Some) in T1 as <-. apply N. unfold is_dir in *. congruence.
Qed.

Lemma buildErofsTree_facts :
  exists P er, buildErofsTree w = (Ok er, fs_wErr (fw_wErr w) w) /\ built P er.
Proof.
  destruct (iv_root _ _ _ (proj1 G)) as (re & R1 & _ & R3 & R4 & R5 & _). fold st in R1.
  destruct (dir_no_links root re R1 R4 R3) as [Hln Hxl].
  destruct (build_loop_ok (length st) _ [root] [] (bfs_start re R1 R4 R3 Hln R5 Hxl)) as (b & P & seen & E1 & F & Hq); [cbn; lia|].
  pose proof (bf_books _ _ _ F) as B.
  destruct (wire_aliases_ok (bd_converted b) (fw_wErr w) (bd_aliases b) (bd_er b)) as (er & W1 & W2 & W3 & W4).
  { intros t i (x & e & A1 & A2 & A3)%(bk_alias _ _ B). destruct (bk_entry _ _ B i x A1) as (e' & ks & C1 & C2 & C3).
    rewrite A2 in C1. apply (inj Some) in C1 as <-. split; [by eexists|].
    destruct (alias_target b P seen x e t F Hq A2 C2 A3) as (j & te & T & _). by eexists. }
  { intros t t' i (x & e & A1 & A2 & A3)%(bk_alias _ _ B) (x' & e' & A1' & A2' & A3')%(bk_alias _ _ B).
    assert (x' = x) as -> by congruence. rewrite A2 in A2'. apply (inj Some) in A2' as <-. congruence. }
  exists P, er. split.
  { unfold buildErofsTree, node. rewrite (node_at_eq w root re R1). cbn [fst]. cbv beta iota.
    rewrite (fsToErofs_image root re R1 Hln). fold st. rewrite E1. cbv beta iota. by rewrite W1. }
  split.
  - rewrite W2. apply (bk_len _ _ B).
  - apply (bf_nodup _ _ _ F).
  - apply (bf_root _ _ _ F).
  - intros x. split; [by apply (bfs_there b P seen)|]. intros (e & E2 & E3). by apply (bfs_complete b P seen x e).
  - intros i x e Hi Hx Hl. destruct (bf_kids _ _ _ F i x e Hi Hx) as (ks & K1 & K2 & K3 & K4).
    exists ks, (entry_image e). split; [by apply (fsToErofs_image x)|]. split.
    { apply W3; [done|]. intros t (x' & e' & A1 & A2 & A3)%(bk_alias _ _ B). assert (x' = x) as -> by congruence.
      rewrite Hx in A2. apply (inj Some) in A2 as <-. congruence. }
    split; [done|]. destruct (decide (x ∈ seen)) as [Hs|Hs]; [by apply K4|]. rewrite (K3 Hs). intros j.
    split; [by intros ?%elem_of_nil|]. intros (c & ce & C1 & C2 & C3). by destruct (bf_order _ _ _ F j c ce x C1 C2 C3).
  - intros i x e t Hi Hx Ht. destruct (bfs_there b P seen x F) as (e' & X1 & X2); [by eapply list_elem_of_lookup_2|].
    rewrite Hx in X1. apply (inj Some) in X1 as <-.
    destruct (alias_target b P seen x e t F Hq Hx X2 Ht) as (j & te & T1 & T2 & _). exists j. split; [done|].
    destruct (bf_kids _ _ _ F i x e Hi Hx) as (ks & K1 & _ & K3 & _).
    assert (Hs : x ∉ seen).
    { intros Hs. pose proof (proj1 (bf_dirs _ _ _ F x) ltac:(apply elem_of_app; by left)) as [_ Hd]. unfold is_dir_at in Hd.
      rewrite Hx in Hd. rewrite (dir_no_alias x e t) in Hd by done. done. }
    rewrite (K3 Hs) in K1. destruct (image_fields x e Hx) as (_ & _ & _ & Hc & _). rewrite set_children_image in K1 by done.
    assert (Im : entry_image e = alias_entry e) by (unfold entry_image; by rewrite Ht). rewrite Im in K1.
    apply (W4 t i (alias_entry e) j); [|done|done]. apply (bk_alias _ _ B). by exists x, e.
  - intros j c ce q Hj Hc Hp. by destruct (bf_order _ _ _ F j c ce q Hj Hc Hp) as (_ & ?).
Qed.

(** ** The built tree can be placed *)

Lemma reach_snoc_child (er : store) p r re c :
  reach er p r -> er !! r = Some re -> e_aliasOf re = None -> e_type re = StatTypeDir -> c ∈ e_children re -> reach er p c.
Proof.
  intros R Hr Ha Ht Hc. induction R as [r|p e k r H1 H2 H3 H4 R IH].
  - eapply reach_child; [done..|]. constructor.
  - eapply reach_child; [done..|]. by apply IH.
Qed.

Lemma fsToErofs_fields e ent : fsToErofs w e = Ok ent ->
  e_mode ent = n_mode e /\ e_aliasOf ent = None /\ e_children ent = [] /\ e_direntSize ent = 0 /\ e_size ent = n_size e.
Proof. unfold fsToErofs. destruct (linkCount e w) as [[n|err|] w']; cbn; [|done|done]. intros Hent. apply Ok_inj in Hent as <-. done. Qed.

(** The entry at a place, whichever it is. *)
Lemma built_at P er i ent : built P er -> er !! i = Some ent -> exists x e, P !! i = Some x /\ st !! x = Some e /\ live e.
Proof.
  intros B Hi. pose proof (lookup_lt_Some _ _ _ Hi) as L. rewrite (bl_len _ _ B) in L. apply lookup_lt_is_Some in L as [x Hx].
  destruct (proj1 (bl_live _ _ B x)) as (e & E1 & E2); [by eapply list_elem_of_lookup_2|]. by exists x, e.
Qed.

Lemma built_kids P er i ent c : built P er -> er !! i = Some ent -> c ∈ e_children ent ->
  exists x e y ye, P !! i = Some x /\ st !! x = Some e /\ n_linkTo e = None /\ P !! c = Some y /\ st !! y = Some ye /\ n_parent ye = Some x.
Proof.
  intros B Hi Hc. destruct (built_at P er i ent B Hi) as (x & e & X1 & X2 & X3). destruct (n_linkTo e) as [t|] eqn:Et.
  - destruct (bl_alias _ _ B i x e t X1 X2 Et) as (j & _ & A). rewrite Hi in A. apply (inj Some) in A as ->. by apply elem_of_nil in Hc.
  - destruct (bl_inode _ _ B i x e X1 X2 Et) as (ks & ent0 & _ & A & _ & K). rewrite Hi in A. apply (inj Some) in A as ->.
    cbn in Hc. apply K in Hc as (y & ye & Y). exists x, e, y, ye. tauto.
Qed.

Lemma built_tree P er : built P er -> tree er.
Proof.
  intros B. split.
  - intros i ent c Hi Hc. destruct (built_kids P er i ent c B Hi Hc) as (x & e & y & ye & X1 & _ & _ & Y1 & Y2 & Y3).
    destruct (bl_order _ _ B c y ye x Y1 Y2 Y3) as (i' & I1 & I2).
    assert (i' = i) as -> by (eapply NoDup_lookup; [apply (bl_nodup _ _ B)|done|done]).
    split; [done|]. rewrite (bl_len _ _ B). by eapply lookup_lt_Some.
  - intros i ent Hi. destruct (built_at P er i ent B Hi) as (x & e & X1 & X2 & X3). destruct (n_linkTo e) as [t|] eqn:Et.
    + destruct (bl_alias _ _ B i x e t X1 X2 Et) as (j & _ & A). rewrite Hi in A. apply (inj Some) in A as ->. constructor.
    + destruct (bl_inode _ _ B i x e X1 X2 Et) as (ks & ent0 & _ & A & N & _). rewrite Hi in A. by apply (inj Some) in A as ->.
  - intros i ent i' ent' c Hi Hc Hi' Hc'. destruct (built_kids P er i ent c B Hi Hc) as (x & e & y & ye & X1 & _ & _ & Y1 & Y2 & Y3).
    destruct (built_kids P er i' ent' c B Hi' Hc') as (x' & e' & y' & ye' & X1' & _ & _ & Y1' & Y2' & Y3').
    assert (y' = y) as -> by congruence. rewrite Y2 in Y2'. apply (inj Some) in Y2' as <-. assert (x' = x) as -> by congruence.
    eapply NoDup_lookup; [apply (bl_nodup _ _ B)|done|done].
Qed.

(** Every live entry's place is reached from the root's. *)
Lemma built_reach P er : built P er -> forall x e i, st !! x = Some e -> live e -> P !! i = Some x -> reach er 0 i.
Proof.
  intros B x. induction (lt_wf x) as [x _ IH]. intros e i Hx Hl Hi. destruct (decide (x = root)) as [->|Hr].
  { assert (i = 0%nat) as -> by (eapply NoDup_lookup; [apply (bl_nodup _ _ B)|done|apply (bl_root _ _ B)]). constructor. }
  destruct (iv_seated _ _ _ (proj1 G) x e Hx Hl Hr) as [_ (q & qe & Q1 & Q2 & Q3 & Q4 & _ & _ & Q7)].
  destruct Q7 as [Q7 _]; [by intros []|]. destruct (bl_order _ _ B i x e q Hi Hx Q1) as (k & K1 & _). fold st in Q3.
  destruct (dir_no_links q qe Q3 Q7 Q4) as [Hln _].
  destruct (bl_inode _ _ B k q qe K1 Q3 Hln) as (ks & ent & E1 & E2 & _ & E3). apply fsToErofs_fields in E1 as (F1 & F2 & _).
  apply (reach_snoc_child er 0 k (set_children ks ent)); [by apply (IH q Q2 qe)|done|done| |apply E3; by exists x, e].
  unfold e_type. cbn. rewrite F1. exact Q4.
Qed.

Lemma built_plannable P er : Forall sized_entry (fw_store w) -> built P er -> plannable er 0.
Proof.
  intros S B. split.
  - by apply (built_tree P).
  - destruct (iv_root _ _ _ (proj1 G)) as (re & R1 & _ & R3 & R4 & _). fold st in R1. destruct (dir_no_links root re R1 R4 R3) as [Hln _].
    destruct (bl_inode _ _ B 0%nat root re (bl_root _ _ B) R1 Hln) as (ks & ent & E1 & E2 & _). apply fsToErofs_fields in E1 as (_ & F2 & _).
    by exists (set_children ks ent).
  - intros i ent Hi. destruct (built_at P er i ent B Hi) as (x & e & X1 & X2 & X3). destruct (n_linkTo e) as [t|] eqn:Et.
    + destruct (bl_alias _ _ B i x e t X1 X2 Et) as (j & _ & A). rewrite Hi in A. apply (inj Some) in A as ->. done.
    + destruct (bl_inode _ _ B i x e X1 X2 Et) as (ks & ent0 & E1 & A & _ & _). rewrite Hi in A. apply (inj Some) in A as ->.
      apply fsToErofs_fields in E1 as (_ & _ & _ & F4 & F5). split; cbn; [rewrite F5; by apply (Forall_lookup_1 _ _ _ _ S X2)|by rewrite F4].
  - intros i ent t _ Hi Ht. destruct (built_at P er i ent B Hi) as (x & e & X1 & X2 & X3). destruct (n_linkTo e) as [tx|] eqn:Et.
    + destruct (bl_alias _ _ B i x e tx X1 X2 Et) as (j & J1 & A). rewrite Hi in A. apply (inj Some) in A as ->. cbn in Ht.
      apply (inj Some) in Ht as <-. destruct (iv_link _ _ _ (proj1 G) x e tx X2 X3 Et) as (_ & te & T1 & _ & T2 & T3). fold st in T1.
      assert (Hlt : live te) by (apply T3; by intros []). specialize (T2 Hlt).
      destruct (bl_inode _ _ B j tx te J1 T1 T2) as (ks & ent0 & E1 & E2 & _). apply fsToErofs_fields in E1 as (_ & F2 & _).
      exists (set_children ks ent0). split; [done|]. split; [done|]. by apply (built_reach P er B tx te).
    + destruct (bl_inode _ _ B i x e X1 X2 Et) as (ks & ent0 & E1 & A & _ & _). rewrite Hi in A. apply (inj Some) in A as ->.
      apply fsToErofs_fields in E1 as (_ & F2 & _). cbn in Ht. congruence.
Qed.

End Build.
