(* ===== verification/CloseTree.v ===== *)
(** * Closing a reachable writer

    The composition of the writer's tree (TreeCalls.v), [buildErofsTree]
    (BuildTree.v) and the layout (Layout.v): from every reachable state [Close]
    gets a placed image, with the parents' nids filled in. *)

From S2P Require Import Prelude Machine Disk Format Image Inode Path Xattr Layout Serialize FsTree Mkfs.
From S2P Require Import TreeInv TreeRemove TreeOps TreeCalls TreeSane Build BuildTree.

(** ** The parents' nids *)

(** The entries but for the parents' nids. *)
Definition no_parent (e : erofsEntry) : erofsEntry := set_parentNid 0 e.
Definition same_placed (st st' : store) : Prop := no_parent <$> st = no_parent <$> st'.

Lemma same_placed_lookup st st' p e :
  same_placed st st' -> st !! p = Some e -> exists e', st' !! p = Some e' /\ no_parent e' = no_parent e.
Proof.
  intros E Hp. apply (f_equal (.!! p)) in E. rewrite !list_lookup_fmap, Hp in E. destruct (st' !! p) as [e'|]; [|done].
  exists e'. split; [done|]. cbn in E. congruence.
Qed.

Lemma no_parent_fields e e' : no_parent e' = no_parent e ->
  e_nid e' = e_nid e /\ e_children e' = e_children e /\ e_type e' = e_type e /\ e_aliasOf e' = e_aliasOf e.
Proof.
  intros E. split; [by apply (f_equal e_nid) in E|]. split; [by apply (f_equal e_children) in E|].
  split; [by apply (f_equal e_type) in E|by apply (f_equal e_aliasOf) in E].
Qed.

(** The entries [fixParentNids] visits. *)
Inductive visited (st : store) (p : ptr) : ptr -> Prop :=
| visited_here : visited st p p
| visited_child d de c ce : visited st p d -> st !! d = Some de -> c ∈ e_children de ->
    st !! c = Some ce -> e_type ce = StatTypeDir -> visited st p c.

Lemma visited_inv st p pe c :
  st !! p = Some pe -> visited st p c ->
  c = p \/ exists k ke, k ∈ e_children pe /\ st !! k = Some ke /\ e_type ke = StatTypeDir /\ visited st k c.
Proof.
  intros Hp V. induction V as [|d de c ce V IH H1 H2 H3 H4]; [by left|right]. destruct IH as [-> | (k & ke & K1 & K2 & K3 & K4)].
  - rewrite Hp in H1. apply (inj Some) in H1 as <-. exists c, ce. repeat (split; [done|]). constructor.
  - exists k, ke. repeat (split; [done|]). by eapply visited_child.
Qed.

Section Fix.
Context (st0 : store) (T : tree st0) (top up : ptr) (ue : erofsEntry) (Hup : st0 !! up = Some ue).

(** The value a parent nid ought to have: the nid of the directory above, that
    of [up] for the top. *)
Definition right (c : ptr) (v : Z) : Prop :=
  (c = top /\ v = e_nid ue) \/ exists d de, st0 !! d = Some de /\ c ∈ e_children de /\ v = e_nid de.

(** What a part of the pass leaves: only parents' nids change, to right values,
    and the entries of [V] have theirs. *)
Record fixed (V : ptr -> Prop) (st st' : store) : Prop := {
  fx_same : same_placed st st';
  fx_right c e e' : st !! c = Some e -> st' !! c = Some e' -> e_parentNid e' = e_parentNid e \/ right c (e_parentNid e');
  fx_all c e' : V c -> st' !! c = Some e' -> right c (e_parentNid e');
}.

Lemma fixed_trans V1 V2 s s1 s2 : fixed V1 s s1 -> fixed V2 s1 s2 -> fixed (fun c => V1 c \/ V2 c) s s2.
Proof.
  intros [A1 A2 A3] [B1 B2 B3]. split; [unfold same_placed in *; congruence|..].
  - intros c e e2 H H2. destruct (same_placed_lookup _ _ _ _ A1 H) as (e1 & H1 & _).
    destruct (B2 c e1 e2 H1 H2) as [E|R]; [|by right]. rewrite E. by apply (A2 c e e1).
  - intros c e2 [V|V] H2; [|by apply (B3 c e2)].
    destruct (same_placed_lookup _ _ c e2 (eq_sym B1) H2) as (e1 & H1 & _).
    destruct (B2 c e1 e2 H1 H2) as [E|R]; [|done]. rewrite E. by apply (A3 c e1).
Qed.

Lemma fixed_weaken V V' s s' : (forall c, V' c -> V c) -> fixed V s s' -> fixed V' s s'.
Proof. intros HV [A1 A2 A3]. split; [done|done|]. intros c e' Hc. by apply A3, HV. Qed.

Lemma placed_at st p e0 : same_placed st0 st -> st0 !! p = Some e0 ->
  exists e, st !! p = Some e /\ e_nid e = e_nid e0 /\ e_children e = e_children e0 /\ e_type e = e_type e0.
Proof.
  intros E Hp. destruct (same_placed_lookup _ _ _ _ E Hp) as (e & H1 & H2%no_parent_fields). exists e. tauto.
Qed.

Lemma fixParentNids_ok fuel : forall st p parent,
  same_placed st0 st -> (p < length st0)%nat -> (length st0 - p <= fuel)%nat ->
  (exists pe, st0 !! parent = Some pe /\ right p (e_nid pe)) ->
  exists st', fixParentNids fuel st p parent = Ok st' /\ fixed (visited st0 p) st st'.
Proof.
  induction fuel as [|fuel IH]; intros st p parent E Hp Hf (pe0 & Hpe & Hr); [lia|].
  apply lookup_lt_is_Some in Hp as [e0 He0]. destruct (placed_at st p e0 E He0) as (e & He & N1 & C1 & T1).
  destruct (placed_at st parent pe0 E Hpe) as (pe & Hpe' & N2 & _). cbn [fixParentNids]. unfold deref. rewrite He, Hpe'.
  set (s := <[p := set_parentNid (e_nid pe) e]> st).
  assert (S1 : fixed (fun c => c = p) st s).
  { assert (L : s !! p = Some (set_parentNid (e_nid pe) e)) by (apply list_lookup_insert_eq; by eapply lookup_lt_Some). split.
    - unfold same_placed, s. rewrite list_fmap_insert. symmetry. apply list_insert_id. by rewrite list_lookup_fmap, He.
    - intros c ce ce' Hc Hc'. destruct (decide (c = p)) as [->|Hn].
      + rewrite L in Hc'. apply (inj Some) in Hc' as <-. right. cbn. by rewrite N2.
      + unfold s in Hc'. rewrite list_lookup_insert_ne, Hc in Hc' by congruence. apply (inj Some) in Hc' as <-. by left.
    - intros c ce' -> Hc'. rewrite L in Hc'. apply (inj Some) in Hc' as <-. cbn. by rewrite N2. }
  assert (LOOP : forall l s, same_placed st0 s -> (forall c, c ∈ l -> c ∈ e_children e0) ->
    exists s', fold_res (fun st c => let! ce := deref st c in
        if e_type ce =? StatTypeDir then fixParentNids fuel st c p else Ok st) s l = Ok s' /\
      fixed (fun c => exists k ke, k ∈ l /\ st0 !! k = Some ke /\ e_type ke = StatTypeDir /\ visited st0 k c) s s').
  { clear s S1. induction l as [|k l IHl]; intros s Es Hl.
    { exists s. split; [done|]. split; [done| |]; [intros c a b Ha Hb; left; congruence|].
      intros c e' (k & ke & Hk & _). by apply elem_of_nil in Hk. }
    assert (Hk : k ∈ e_children e0) by (apply Hl; left). destruct (tr_child _ T p e0 k He0 Hk) as [K1 K2].
    destruct (lookup_lt_is_Some_2 st0 k K2) as [ke0 Hke0]. destruct (placed_at s k ke0 Es Hke0) as (ke & Hke & _ & _ & Tk).
    cbn [fold_res]. unfold deref at 1. rewrite Hke, Tk.
    assert (STEP : exists s1, (if e_type ke0 =? StatTypeDir then fixParentNids fuel s k p else Ok s) = Ok s1 /\
      fixed (fun c => e_type ke0 = StatTypeDir /\ visited st0 k c) s s1).
    { destruct (Z.eqb_spec (e_type ke0) StatTypeDir) as [Hd|Hd].
      - destruct (IH s k p Es K2) as (s1 & F1 & F2); [lia|exists e0; split; [done|]; right; by exists p, e0|].
        exists s1. split; [done|]. eapply fixed_weaken; [|exact F2]. tauto.
      - exists s. split; [done|]. split; [done| |tauto]. intros c a b Ha Hb. left. congruence. }
    destruct STEP as (s1 & F1 & F2). rewrite F1.
    assert (Es1 : same_placed st0 s1) by (pose proof (fx_same _ _ _ F2); unfold same_placed in *; congruence).
    destruct (IHl s1 Es1) as (s2 & F3 & F4); [intros c Hc; apply Hl; by right|].
    exists s2. split; [done|]. eapply fixed_weaken; [|exact (fixed_trans _ _ _ _ _ F2 F4)].
    intros c (k' & ke' & [-> | Hk']%elem_of_cons & A2 & A3 & A4); [left|right; by exists k', ke']. rewrite Hke0 in A2.
    by apply (inj Some) in A2 as <-. }
  destruct (LOOP (e_children e) s) as (s' & L1 & L2).
  { pose proof (fx_same _ _ _ S1). unfold same_placed in *. congruence. }
  { intros c Hc. by rewrite <- C1. }
  exists s'. split; [exact L1|]. eapply fixed_weaken; [|exact (fixed_trans _ _ _ _ _ S1 L2)].
  intros c V. destruct (visited_inv st0 p e0 c He0 V) as [?|(k & ke & K)]; [by left|right]. exists k, ke. by rewrite C1.
Qed.

End Fix.

(** ** The layout of a built tree *)

Lemma planned_at w st root w' st' p e :
  planned w st root w' st' -> st !! p = Some e ->
  exists e', st' !! p = Some e' /\ e_children e' ≡ₚ e_children e /\ e_type e' = e_type e /\ e_aliasOf e' = e_aliasOf e.
Proof.
  intros Pl Hp. destruct (pd_same _ _ _ _ _ Pl) as (st1 & S1 & S2).
  destruct (perm_lookup _ _ _ _ S1 Hp) as (e1 & H1 & H2 & H3). destruct (same_tree_lookup _ _ _ _ S2 H1) as (e2 & H4 & H5).
  exists e2. split; [done|]. apply (f_equal e_children) in H5 as H6. apply (f_equal e_type) in H5 as H7. apply (f_equal e_aliasOf) in H5 as H8.
  change (e_children e2 = e_children e1) in H6. change (e_type e2 = e_type e1) in H7. change (e_aliasOf e2 = e_aliasOf e1) in H8.
  rewrite H6, H7, H8, H2. done.
Qed.

Lemma planned_tree w st root w' st' : tree st -> planned w st root w' st' -> tree st'.
Proof.
  intros T Pl. destruct (pd_same _ _ _ _ _ Pl) as (st1 & S1 & S2). pose proof (perm_tree _ _ S1 T) as [A1 A2 A3].
  assert (L : forall p e, st' !! p = Some e -> exists e1, st1 !! p = Some e1 /\ e_children e = e_children e1).
  { intros p e Hp. destruct (same_tree_lookup _ _ p e (symmetry S2) Hp) as (e1 & H1 & H2). exists e1. split; [done|].
    apply (f_equal e_children) in H2. change (e_children e1 = e_children e) in H2. done. }
  assert (Len : length st' = length st1).
  { unfold same_tree in S2. apply (f_equal length) in S2. rewrite !length_fmap in S2. done. }
  split.
  - intros p e c Hp Hc. destruct (L p e Hp) as (e1 & H1 & H2). rewrite H2 in Hc. rewrite Len. by apply (A1 p e1).
  - intros p e Hp. destruct (L p e Hp) as (e1 & H1 & ->). by apply (A2 p).
  - intros p e p' e' c Hp Hc Hp' Hc'. destruct (L p e Hp) as (e1 & H1 & H2), (L p' e' Hp') as (e1' & H1' & H2').
    rewrite H2 in Hc. rewrite H2' in Hc'. by apply (A3 p e1 p' e1' c).
Qed.

(** ** Closing *)

Section Close.
Context {D : Type} `{DataFile D}.

(** The place of a live entry lies on the way of the pass. *)
Lemma built_visited (w : Writer D) P er ew ew' er1 :
  good w -> built w P er -> planned ew er 0 ew' er1 ->
  forall x e i, fw_store w !! x = Some e -> live e -> is_dir e -> P !! i = Some x -> visited er1 0 i.
Proof.
  intros G B Pl x. induction (lt_wf x) as [x _ IH]. intros e i Hx Hl Hd Hi. destruct (decide (x = root)) as [->|Hr].
  { assert (i = 0%nat) as -> by (eapply NoDup_lookup; [apply (bl_nodup _ _ _ B)|done|apply (bl_root _ _ _ B)]). constructor. }
  destruct (iv_seated _ _ _ (proj1 G) x e Hx Hl Hr) as [_ (q & qe & Q1 & Q2 & Q3 & Q4 & _ & _ & Q7)].
  destruct Q7 as [Q7 _]; [by intros []|]. destruct (bl_order _ _ _ B i x e q Hi Hx Q1) as (k & K1 & _).
  destruct (dir_no_links w G q qe Q3 Q7 Q4) as [Hln _]. destruct (dir_no_links w G x e Hx Hl Hd) as [Hlx _].
  destruct (bl_inode _ _ _ B k q qe K1 Q3 Hln) as (ks & ent & _ & E2 & _ & E3).
  destruct (bl_inode _ _ _ B i x e Hi Hx Hlx) as (ks' & ent' & F1 & F2 & _). apply fsToErofs_fields in F1 as (F3 & _).
  destruct (planned_at _ _ _ _ _ _ _ Pl E2) as (qe1 & A1 & A2 & _). destruct (planned_at _ _ _ _ _ _ _ Pl F2) as (xe1 & B1 & _ & B2 & _).
  apply (visited_child er1 0 k qe1 i xe1); [by apply (IH q Q2 qe)|done| |done|].
  - rewrite A2. cbn. apply E3. by exists x, e.
  - rewrite B2. unfold e_type. cbn. rewrite F3. exact Hd.
Qed.

Lemma lay_out_facts (w : Writer D) P er ew :
  good w -> Forall sized_entry (fw_store w) -> built w P er -> writer_ok ew ->
  exists ew' er1 er', planLayout ew er 0 = Ok (ew', er1) /\ planned ew er 0 ew' er1 /\
    lay_out ew er = Ok (ew', er') /\ same_placed er1 er' /\
    (forall i x e j q, P !! i = Some x -> fw_store w !! x = Some e -> is_dir e ->
       q = default root (n_parent e) -> P !! j = Some q ->
       exists ie je, er' !! i = Some ie /\ er' !! j = Some je /\ e_parentNid ie = e_nid je).
Proof.
  intros G Hsz B Hew. destruct (planLayout_facts ew er 0 Hew (built_plannable w G P er Hsz B)) as (ew' & er1 & E1 & Pl).
  pose proof (planned_tree _ _ _ _ _ (built_tree w P er B) Pl) as T.
  assert (H0 : (0 < length er1)%nat).
  { rewrite (pd_length _ _ _ _ _ Pl), (bl_len _ _ _ B). apply (lookup_lt_Some _ _ _ (bl_root _ _ _ B)). }
  destruct (lookup_lt_is_Some_2 er1 0 H0) as [re Hre].
  destruct (fixParentNids_ok er1 T 0 re (S (length er1)) er1 0 0) as (er' & F1 & [F2 F3 F4]); [done|done|lia|exists re; split; [done|by left]|].
  exists ew', er1, er'. split; [done|]. split; [done|]. split; [unfold lay_out; by rewrite E1, F1|]. split; [done|].
  intros i x e j q Hi Hx Hd Hq Hj.
  assert (Hl : live e).
  { destruct (proj1 (bl_live _ _ _ B x)) as (e2 & X1 & X2); [by eapply list_elem_of_lookup_2|]. rewrite Hx in X1. by apply (inj Some) in X1 as ->. }
  pose proof (built_visited w P er ew ew' er1 G B Pl x e i Hx Hl Hd Hi) as V.
  assert (AT : forall k y, P !! k = Some y -> exists ke ke', er1 !! k = Some ke /\ er' !! k = Some ke' /\ e_nid ke' = e_nid ke).
  { intros k y Hk. destruct (lookup_lt_is_Some_2 er1 k) as [ke Hke].
    { rewrite (pd_length _ _ _ _ _ Pl), (bl_len _ _ _ B). by eapply lookup_lt_Some. }
    destruct (same_placed_lookup _ _ _ _ F2 Hke) as (ke' & K1 & K2%no_parent_fields). exists ke, ke'. tauto. }
  destruct (AT i x Hi) as (ie & ie' & I1 & I2 & _). destruct (AT j q Hj) as (je & je' & J1 & J2 & J3).
  exists ie', je'. split; [done|]. split; [done|]. rewrite J3.
  (* the entries above a place *)
  assert (UP : forall d de, er1 !! d = Some de -> i ∈ e_children de -> n_parent e = P !! d).
  { intros d de Hd1 Hc. assert (Hdl : (d < length er)%nat) by (rewrite <- (pd_length _ _ _ _ _ Pl); by eapply lookup_lt_Some).
    apply lookup_lt_is_Some in Hdl as [de0 Hd0]. destruct (planned_at _ _ _ _ _ _ _ Pl Hd0) as (de1 & D1 & D2 & _).
    rewrite Hd1 in D1. apply (inj Some) in D1 as <-. rewrite D2 in Hc.
    destruct (built_kids w P er d de0 i B Hd0 Hc) as (y & ye & z & ze & Y1 & _ & _ & Z1 & Z2 & Z3).
    assert (z = x) as -> by congruence. rewrite Hx in Z2. apply (inj Some) in Z2 as <-. congruence. }
  destruct (F4 i ie' V I2) as [[-> ->]|(d & de & D1 & D2 & ->)].
  - assert (x = root) as -> by (pose proof (bl_root _ _ _ B); congruence).
    destruct (iv_root _ _ _ (proj1 G)) as (r & R1 & _ & _ & _ & R2 & _). rewrite Hx in R1. apply (inj Some) in R1 as <-.
    rewrite R2 in Hq. cbn in Hq. subst q. assert (j = 0%nat) as -> by (eapply NoDup_lookup; [apply (bl_nodup _ _ _ B)|done|apply (bl_root _ _ _ B)]).
    rewrite Hre in J1. by apply (inj Some) in J1 as ->.
  - rewrite (UP d de D1 D2) in Hq. destruct (P !! d) as [y|] eqn:Hy.
    + cbn in Hq. subst q. assert (j = d) as -> by (eapply NoDup_lookup; [apply (bl_nodup _ _ _ B)|done|done]). rewrite D1 in J1.
      by apply (inj Some) in J1 as ->.
    + exfalso. apply lookup_lt_Some in D1. rewrite (pd_length _ _ _ _ _ Pl), (bl_len _ _ _ B) in D1. apply lookup_ge_None in Hy. lia.
Qed.

(** The state in which the tree is built: closed, the block size chosen, the
    data file's slot filled; the tree is that of [w]. *)
Definition closing (w w1 : Writer D) : Prop :=
  fw_store w1 = fw_store w /\ fw_byPath w1 = fw_byPath w /\ fw_wErr w1 = fw_wErr w /\
  fw_dataFile w1 = fw_dataFile w /\ fw_spool w1 = fw_spool w /\ block_ok (fw_blockSize w1).

(** [Close] up to the layout. *)
Lemma Close_steps {S} `{SeekSink S} now (out : S) (w : Writer D) :
  sane w -> good w -> fw_wErr w = None -> fw_closed w = false -> fw_openFile w = None ->
  exists w1 ew er, closing w w1 /\ writer_ok ew /\ w_blockSize ew = fw_blockSize w1 /\ buildErofsTree w1 = (Ok er, w1) /\
    Close now out w = ((let! (ew, st) := lay_out ew er in write ew st out), w1).
Proof.
  intros [S1 S2 S3] G He Hc Ho. unfold Close. rewrite sticky_bind, He. rewrite (bind_ok _ _ w (fw_closed w) w) by done. rewrite Hc.
  rewrite (bind_ok _ _ w tt w) by (unfold checkNoOpenFile; rewrite (bind_ok _ _ w (fw_openFile w) w) by done; by rewrite Ho).
  rewrite (bind_ok _ _ w tt (fs_closed true w)) by done. set (wa := fs_closed true w).
  set (wb := if fw_blockSize wa =? 0 then fs_blockSize defaultBlockSize wa else wa).
  assert (Bb : block_ok (fw_blockSize wb)).
  { unfold wb. destruct (Z.eqb_spec (fw_blockSize wa) 0) as [E|E]; [by exists 12|]. by destruct S2. }
  assert (Tb : fw_store wb = fw_store w /\ fw_byPath wb = fw_byPath w /\ fw_wErr wb = fw_wErr w /\ fw_dataFile wb = fw_dataFile w /\
               fw_spool wb = fw_spool w /\ fw_devices wb = fw_devices w).
  { unfold wb. by destruct (fw_blockSize wa =? 0). }
  rewrite (bind_ok _ _ wa (fw_blockSize wb) wb) by done.
  assert (F : exists w1, fill_device_slot wb = (Ok tt, w1) /\ fw_store w1 = fw_store wb /\ fw_byPath w1 = fw_byPath wb /\
    fw_wErr w1 = fw_wErr wb /\ fw_dataFile w1 = fw_dataFile wb /\ fw_spool w1 = fw_spool wb /\ fw_blockSize w1 = fw_blockSize wb).
  { unfold fill_device_slot. rewrite (bind_ok _ _ wb (has_dataFile wb) wb) by done.
    destruct (has_dataFile wb) eqn:Ed; [|by exists wb]. cbn [negb].
    rewrite (bind_ok _ _ wb (fw_blockSize wb) wb), (bind_ok _ _ wb (fw_dataOff wb) wb), (bind_ok _ _ wb (fw_devices wb) wb) by done.
    destruct (fw_devices wb) as [|d l] eqn:El; [|by eexists]. exfalso. destruct Tb as (_ & _ & _ & T4 & _ & T6).
    apply S3; [|congruence]. intros En. unfold has_dataFile in Ed. rewrite T4, En in Ed. done. }
  destruct F as (w1 & F1 & F2 & F3 & F4 & F5 & F6 & F7). rewrite (bind_ok _ _ wb tt w1 F1). destruct Tb as (T1 & T2 & T3 & T4 & T5 & _).
  assert (G1 : good w1) by (unfold good; by rewrite F2, F3, T1, T2).
  destruct (buildErofsTree_facts w1 G1) as (P & er & E & _).
  assert (E' : buildErofsTree w1 = (Ok er, w1)) by exact E.
  exists w1, (mkWriter (fw_blockSize w1) (fw_noInlineData w1) 0 (if fw_hasBuildTime w1 then fw_buildTime w1 else u64 now)
    (fw_buildTimeNs w1) (fw_devices w1) [] 0 0 0), er.
  split; [unfold closing; rewrite F2, F3, F4, F5, F6, F7; done|].
  split; [split; [cbn; rewrite F7; exact Bb|cbn; lia]|]. split; [done|]. split; [done|].
  rewrite (bind_ok _ _ w1 (if fw_hasBuildTime w1 then fw_buildTime w1 else u64 now) w1) by done.
  rewrite (bind_ok _ _ w1 er w1 E'). rewrite sticky_bind, F4, T3, He. rewrite (bind_ok _ _ w1 w1 w1) by done. done.
Qed.

(** C7: From every state the calls of [reachable] lead to (no [CopyFrom], no
    created name that climbs above the root) that is not closed and has no
    recorded error and no open file, [Close] lays out an image of exactly the
    live tree and answers what writing that image answers: each live entry has
    one place, the inodes that get a slot are the live entries that are no
    hardlinks, every hardlink has the nid of the inode it shares, and every
    directory's parent nid is that of the directory above it (the root's its
    own).  Neither the walk nor the layout fails or runs out of fuel, and no
    hardlink is left without its target, also when the name it was linked to has
    been removed (where [Link]'s doc comment announces an error). *)
Theorem Close_places {S} `{SeekSink S} o (w : Writer D) now (out : S) :
  reachable o w -> fw_wErr w = None -> fw_closed w = false -> fw_openFile w = None ->
  exists w1 P er ew ew' er', closing w w1 /\ built w1 P er /\ w_blockSize ew = fw_blockSize w1 /\ lay_out ew er = Ok (ew', er') /\
    Close now out w = (write ew' er' out, w1) /\
    NoDup (w_entries ew') /\ w_rootNid ew' = 0 /\
    (forall i, i ∈ w_entries ew' <-> exists x e, P !! i = Some x /\ fw_store w !! x = Some e /\ n_linkTo e = None) /\
    (forall i x e t j, P !! i = Some x -> fw_store w !! x = Some e -> n_linkTo e = Some t -> P !! j = Some t ->
       exists ie je, er' !! i = Some ie /\ er' !! j = Some je /\ e_nid ie = e_nid je) /\
    (forall i x e j q, P !! i = Some x -> fw_store w !! x = Some e -> is_dir e ->
       q = default root (n_parent e) -> P !! j = Some q ->
       exists ie je, er' !! i = Some ie /\ er' !! j = Some je /\ e_parentNid ie = e_nid je).
Proof.
  intros R He Hc Ho. destruct (reachable_facts o w R) as [G0 _]. pose proof (reachable_sane o w R) as Sn0.
  destruct (Close_steps now out w Sn0 G0 He Hc Ho) as (w1 & ew & er & Cl & Hew & Hbs & Hbt & HC).
  pose proof Cl as (C1 & C2 & C3 & C4 & C5 & C6).
  assert (G : good w1) by (unfold good; by rewrite C1, C2).
  assert (Hsz : Forall sized_entry (fw_store w1)) by (rewrite C1; apply (sn_sized w Sn0)).
  destruct (buildErofsTree_facts w1 G) as (P & er0 & E & B). assert (er0 = er) as -> by (rewrite E in Hbt; by injection Hbt).
  destruct (lay_out_facts w1 P er ew G Hsz B Hew) as (ew' & er1 & er' & E1 & Pl & E2 & F & DD).
  exists w1, P, er, ew, ew', er'. split; [done|]. split; [done|]. split; [done|]. split; [done|]. split; [by rewrite HC, E2|].
  rewrite <- C1. split; [apply (pd_nodup _ _ _ _ _ Pl)|].
  split; [by apply (planned_root_zero ew er 0 ew' er1)|]. split; [|split; [|exact DD]].
  - intros i. rewrite (pd_entries _ _ _ _ _ Pl). split.
    + intros (ent & N1 & N2 & _). destruct (built_at w1 P er i ent B N1) as (x & e & X1 & X2 & X3). exists x, e. split; [done|]. split; [done|].
      destruct (n_linkTo e) as [t|] eqn:Et; [|done]. destruct (bl_alias _ _ _ B i x e t X1 X2 Et) as (j & _ & A).
      rewrite N1 in A. apply (inj Some) in A as ->. done.
    + intros (x & e & X1 & X2 & X3). destruct (bl_inode _ _ _ B i x e X1 X2 X3) as (ks & ent & E3 & E4 & _).
      apply fsToErofs_fields in E3 as (_ & F2 & _). exists (set_children ks ent). split; [done|]. split; [done|].
      destruct (proj1 (bl_live _ _ _ B x)) as (e2 & Y1 & Y2); [by eapply list_elem_of_lookup_2|]. by apply (built_reach w1 G P er B x e2).
  - intros i x e t j Hi Hx Ht Hj. destruct (bl_alias _ _ _ B i x e t Hi Hx Ht) as (j' & J1 & J2).
    assert (j' = j) as -> by (eapply NoDup_lookup; [apply (bl_nodup _ _ _ B)|done|done]).
    destruct (proj1 (bl_live _ _ _ B x)) as (e2 & Y1 & Y2); [by eapply list_elem_of_lookup_2|].
    destruct (pd_alias _ _ _ _ _ Pl i (set_aliasOf (Some j) (alias_entry e)) j) as (ie & je & I1 & I2 & _ & I3 & _); [|done|done|].
    { by apply (built_reach w1 G P er B x e2). }
    destruct (same_placed_lookup _ _ _ _ F I1) as (ie' & K1 & K2%no_parent_fields).
    destruct (same_placed_lookup _ _ _ _ F I2) as (je' & L1 & L2%no_parent_fields).
    exists ie', je'. split; [done|]. split; [done|]. destruct K2 as [-> _], L2 as [-> _]. done.
Qed.

End Close.

(** The demonstration writer closes into a memory file. *)
Lemma Close_places_witness :
  exists w1 ew er ew' er', lay_out ew er = Ok (ew', er') /\ Close 0 (mkMemfile [] 0) demo = (write ew' er' (mkMemfile [] 0), w1) /\
    w_blockSize ew = 4096 /\ w_rootNid ew' = 0.
Proof.
  destruct (Close_places (S := memfile) demo_options demo 0 (mkMemfile [] 0) demo_reachable) as
    (w1 & P & er & ew & ew' & er' & _ & _ & Hb & H3 & H4 & _ & H5 & _); [vm_compute; reflexivity..|].
  exists w1, ew, er, ew', er'. split; [exact H3|]. split; [exact H4|]. split; [|exact H5]. rewrite Hb.
  assert (E : fw_blockSize (Close 0 (mkMemfile [] 0) demo).2 = 4096) by (vm_compute; reflexivity). by rewrite H4 in E.
Defined.
