(* ===== verification/Copy.v ===== *)
(** * Copying entries in

    What [CopyFrom] of src/mkfs.go does with one entry of its source: [add],
    [addRegular], the chunks made of a file's data ranges, and the renumbering
    of chunk devices; with [statEntry] and [entryFromSys] of src/mkfs_stat.go
    and src/mkfs_stat_mtim.go, and [builder.Entry].

    A source is the interfaces the code asks for and the calls [fs.WalkDir]
    makes for it; every call hands over an [Entry] of its own. *)

From S2P Require Import Prelude Machine Disk Format Image Inode Data Path Xattr Layout FsTree Mkfs.

(** ** Metadata of a source's entry *)

(** [builder.Entry] *)
Record Entry := mkBE {
  be_UID : Z; be_GID : Z; be_Mtime : Z; be_MtimeNs : Z; be_Nlink : Z; be_Rdev : Z; be_Dev : Z; be_Ino : Z;
  be_Xattrs : gmap bytes bytes; be_LinkTarget : bytes; be_Data : option stream; be_Chunks : list Chunk;
  be_Contiguous : bool }.

Definition zero_Entry : Entry := mkBE 0 0 0 0 0 0 0 0 ∅ [] None [] false.

Definition be_set_mtime (sec nsec : Z) (b : Entry) : Entry :=
  mkBE (be_UID b) (be_GID b) sec nsec (be_Nlink b) (be_Rdev b) (be_Dev b) (be_Ino b) (be_Xattrs b) (be_LinkTarget b)
    (be_Data b) (be_Chunks b) (be_Contiguous b).
Definition be_set_LinkTarget (v : bytes) (b : Entry) : Entry :=
  mkBE (be_UID b) (be_GID b) (be_Mtime b) (be_MtimeNs b) (be_Nlink b) (be_Rdev b) (be_Dev b) (be_Ino b) (be_Xattrs b) v
    (be_Data b) (be_Chunks b) (be_Contiguous b).
Definition be_set_Data (v : option stream) (b : Entry) : Entry :=
  mkBE (be_UID b) (be_GID b) (be_Mtime b) (be_MtimeNs b) (be_Nlink b) (be_Rdev b) (be_Dev b) (be_Ino b) (be_Xattrs b)
    (be_LinkTarget b) v (be_Chunks b) (be_Contiguous b).
Definition be_set_Chunks (v : list Chunk) (contiguous : bool) (b : Entry) : Entry :=
  mkBE (be_UID b) (be_GID b) (be_Mtime b) (be_MtimeNs b) (be_Nlink b) (be_Rdev b) (be_Dev b) (be_Ino b) (be_Xattrs b)
    (be_LinkTarget b) (be_Data b) v contiguous.

(** The fields of [syscall.Stat_t] the package reads. *)
Record Stat_t := mkStat_t {
  sys_Uid : Z; sys_Gid : Z; sys_Dev : Z; sys_Ino : Z; sys_Nlink : Z; sys_Rdev : Z; sys_Sec : Z; sys_Nsec : Z }.

(** [statEntry]; [R] is the conversion to the type of the platform's rdev. *)
Definition statEntry (R : Z -> Z) (uid gid dev ino nlink rdev sec nsec : Z) : res Entry :=
  reject negb (R (u32 rdev) =? rdev) with ErrInvalid ;;
  Ok (mkBE uid gid (u64 sec) (u32 nsec) (u32 nlink) (u32 rdev) (u64 dev) (u64 ino) ∅ [] None [] false).

(** [info.Sys()] *)
Inductive sys :=
| SysEntry (be : Entry)
| SysStat (st : Stat)
| SysHost (st : Stat_t)
| SysNone.

(** [fs.FileInfo], with the [dataRanger] it may be.  The time is that of a
    [time.Time] that is not zero, as Unix seconds and nanoseconds. *)
Record FileInfo := mkInfo {
  fi_Mode : Z; fi_Size : Z; fi_ModTime : option (Z * Z); fi_Sys : sys; fi_DataRange : option (list DataRange) }.

(** [entryFromSys] with the 64-bit rdev of Linux. *)
Definition entryFromSys (info : FileInfo) : res (option Entry) :=
  match fi_Sys info with
  | SysEntry be => Ok (Some be)
  | SysHost s =>
      let! be := statEntry u64 (sys_Uid s) (sys_Gid s) (sys_Dev s) (sys_Ino s) (sys_Nlink s) (sys_Rdev s) (sys_Sec s) (sys_Nsec s) in
      Ok (Some be)
  | _ => Ok None
  end.

(** [entryFileInfo]: the source's information with the metadata at hand. *)
Definition entryFileInfo (info : FileInfo) (be : Entry) : FileInfo :=
  mkInfo (fi_Mode info) (fi_Size info) (fi_ModTime info) (SysEntry be) None.

(** An [io.Reader] read to its end or to [n] bytes. *)
Definition stream_source (s : stream) : source :=
  mkSource (fun n =>
    let content := concat (sm_reads s) ++ sm_last s in
    (take (Z.to_nat n) content,
     if (n <=? zlen content) || bool_decide (sm_err s = EOF) then None else Some (sm_err s))).

Section Copy.
Context {D : Type} `{DataFile D}.

(** ** Chunks *)

Definition checkDeviceCount (adding : Z) : M D unit :=
  do! devices := gets fw_devices in
  refuse MaxUint16 <? zlen devices + adding with ErrInvalid ;; ret tt.

(** The loop of [remapChunkDevices]: the chunks as it leaves them, and its
    error; the chunks after a refused one are left alone. *)
Fixpoint remap_chunks (offset : Z) (isImage : bool) (ndevices : Z) (chunks : list Chunk) : list Chunk * option goerr :=
  match chunks with
  | [] => ([], None)
  | c :: rest =>
      if ch_PhysicalBlock c =? NullPhysicalBlock then
        let '(rest, err) := remap_chunks offset isImage ndevices rest in (c :: rest, err)
      else if (ch_DeviceID c =? 0) && negb isImage then (c :: rest, Some ErrInvalid)
      else
        let id := u64 (ch_DeviceID c + offset) in
        if ndevices <? id then (c :: rest, Some ErrInvalid)
        else
          let '(rest, err) := remap_chunks offset isImage ndevices rest in
          (mkChunk (ch_PhysicalBlock c) (ch_Count c) (u16 id) :: rest, err)
  end.

Definition remapChunkDevices (chunks : list Chunk) : M D (list Chunk * option goerr) :=
  do! id := gets fw_copyDeviceID in
  do! isImage := gets fw_copySourceIsImage in
  do! devices := gets fw_devices in
  if id =? 0 then ret (chunks, None) else
  let offset := if isImage : bool then id else u16 (id - 1) in
  ret (remap_chunks offset isImage (zlen devices) chunks).

(** The total of the ranges, an [int64]. *)
Definition ranges_total (ranges : list DataRange) : Z := foldl (fun t r => i64 (t + dr_Size r)) 0 ranges.

(** The loop of [chunksFromRanges]. *)
Fixpoint ranges_chunks (blockSize : Z) (ranges : list DataRange) : res (list Chunk) :=
  match ranges with
  | [] => Ok []
  | r :: rest =>
      reject dr_Size r <=? 0 with ErrInvalid ;;
      let last := match rest with [] => true | _ => false end in
      reject negb last && negb (u64 (dr_Size r) mod blockSize =? 0) with ErrInvalid ;;
      let totalBlocks := u64 (u64 (dr_Size r) + blockSize - 1) / blockSize in
      if dr_Offset r =? holeOffset then
        let! chunks := ranges_chunks blockSize rest in
        Ok (block_chunks 0 totalBlocks 0 true ++ chunks)
      else
        reject dr_Offset r <? 0 with ErrInvalid ;;
        reject negb (u64 (dr_Offset r) mod blockSize =? 0) with ErrInvalid ;;
        reject negb (dr_Device r =? 0) with ErrInvalid ;;
        let startBlock := u64 (dr_Offset r) / blockSize in
        let! chunks := ranges_chunks blockSize rest in
        Ok (block_chunks startBlock totalBlocks (u16 (dr_Device r + 1)) false ++ chunks)
  end.

Definition chunksFromRanges (ranges : list DataRange) (fileSize : Z) : M D (list Chunk) :=
  do! bs := resolveBlockSize in
  refuse negb (ranges_total ranges =? fileSize) with ErrInvalid ;;
  of_res (ranges_chunks (u64 bs) ranges).

(** ** One entry *)

(** The checks over [be.Xattrs]; every refusal is [ErrInvalid]. *)
Definition check_xattrs (xattrs : gmap bytes bytes) : res unit :=
  fold_res (fun _ '(name, value) => validateXattr name value) tt (map_to_list xattrs).

(** The modification time of the information when the metadata has none. *)
Definition default_mtime (info : FileInfo) (be : Entry) : Entry :=
  if (be_Mtime be =? 0) && (be_MtimeNs be =? 0) then
    match fi_ModTime info with
    | Some (sec, nsec) => if 0 <=? sec then be_set_mtime (u64 sec) (u32 nsec) be else be
    | None => be
    end
  else be.

Definition add_root (mode : Z) (be : Entry) : M D unit :=
  update root (fun r => ns_xattrs (be_Xattrs be) (ns_mtimeNs (be_MtimeNs be) (ns_mtime (be_Mtime be)
    (ns_gid (be_GID be) (ns_uid (be_UID be) (ns_mode mode r)))))).

Definition entry_node (p : bytes) (mode size : Z) (be : Entry) : fsEntry :=
  ns_contiguous (be_Contiguous be) (ns_chunks (be_Chunks be) (ns_linkTarget (be_LinkTarget be) (ns_xattrs (be_Xattrs be)
    (ns_rdev (be_Rdev be) (ns_size size (ns_mtimeNs (be_MtimeNs be) (ns_mtime (be_Mtime be)
    (ns_gid (be_GID be) (ns_uid (be_UID be) (new_node p mode)))))))))).

(** The earlier name of a source inode, when it is still there. *)
Definition prior_link (typ : Z) (be : Entry) : M D (option ptr) :=
  do! links := gets fw_copyLinks in
  match links with
  | Some links =>
      if negb (typ =? StatTypeDir) && negb (be_Ino be =? 0) && (1 <? be_Nlink be) then
        match links !! (be_Dev be, be_Ino be) with
        | Some p => do! pe := node_at p in ret (if n_removed pe then None else Some p)
        | None => ret None
        end
      else ret None
  | None => ret None
  end.

Definition remember_link (typ : Z) (be : Entry) (fe : ptr) : M D unit :=
  if negb (typ =? StatTypeDir) && negb (be_Ino be =? 0) && (1 <? be_Nlink be) then
    modify (fun w => fs_copyLinks (insert (be_Dev be, be_Ino be) fe <$> fw_copyLinks w) w)
  else ret tt.

(** Where the data of a regular file goes. *)
Definition add_data (fe : ptr) (data : stream) : M D unit :=
  do! _ := update fe (fun e => ns_contiguous false (ns_chunks [] e)) in
  do! df := gets has_dataFile in
  if df : bool then
    do! _ := alignDataOff in
    do! off := gets fw_dataOff in
    do! f := new_file' (mkFile' fe off 0 false) in
    do! _ := update fe (ns_dataStartOff off) in
    do! (_, err) := ReadFrom f data in
    match err with Some e => fail e | None => File_Close f end
  else update fe (fun e => ns_fileClosed true (ns_directData (Some (stream_source data)) e)).

Definition add (p : bytes) (info : FileInfo) : M D unit :=
  let p := cleanPath p in
  do! _ := of_res (checkPathLen p) in
  do! _ := of_res (checkNameLen p) in
  let mode := goModeToUnixMode (fi_Mode info) in
  refuse fi_Size info <? 0 with ErrInvalid ;;
  let size := u64 (fi_Size info) in
  let typ := Z.land mode StatTypeMask in
  do! be := of_res (entryFromSys info) in
  let be := default zero_Entry be in
  do! _ := of_res (if typ =? StatTypeSymlink then checkSymlinkTarget (be_LinkTarget be) else Ok tt) in
  do! _ := of_res (check_xattrs (be_Xattrs be)) in
  let be := default_mtime info be in
  if beqb p [slash] then add_root mode be else
  do! _ := ensureParent p in
  do! prior := prior_link typ be in
  match prior with
  | Some prior => addAlias p prior
  | None =>
      do! fe := placeEntry (entry_node p mode size be) in
      do! _ := remember_link typ be fe in
      do! metadataOnly := gets fw_copyMetadataOnly in
      do! _ :=
        (if metadataOnly : bool then
           do! _ := update fe (ns_metadataOnly true) in
           do! e := node_at fe in
           do! (chunks, err) := remapChunkDevices (n_chunks e) in
           do! _ := update fe (ns_chunks chunks) in
           match err with Some e => fail e | None => ret tt end
         else ret tt) in
      match be_Data be with
      | Some data =>
          if (typ =? StatTypeReg) && (0 <? size) && negb metadataOnly then add_data fe data
          else update fe (ns_fileClosed true)
      | None => update fe (ns_fileClosed true)
      end
  end.

(** ** Sources *)

Record Source := mkSrc {
  src_image : option image;
  src_BlockSize : option Z;
  src_DeviceBlocks : option Z;
  src_BuildTime : option Z;
  src_ReadLink : option (bytes -> res bytes);
  src_Open : bytes -> res stream;
  (** What [fs.WalkDir] calls with: the path, and the information or the error
      of the walk or of [Info]. *)
  src_walk : list (bytes * res FileInfo) }.

(** The metadata at hand, or the platform's, or none. *)
Definition entry_or_sys (info : FileInfo) (be : option Entry) : res Entry :=
  match be with
  | Some be => Ok be
  | None => let! be := entryFromSys info in Ok (default zero_Entry be)
  end.

(** The bytes a direct reader of an image holds, as one read. *)
Definition direct_stream (r : ReaderAt) (n : Z) : stream :=
  let '(b, err) := ReadAt r 0 n in mkStream [] b (default EOF err).

(** The direct reader of a file of an image source, when it has one. *)
Definition direct_data (src : Source) (info : FileInfo) : option stream :=
  match src_image src, fi_Sys info with
  | Some img, SysStat st =>
      match readInfo_fresh img [] (st_Ino st) 0 with
      | Ok ino =>
          match openDirect img ino with
          | Ok (Some r) => Some (direct_stream r (ino_size ino))
          | _ => None
          end
      | _ => None
      end
  | _, _ => None
  end.

Definition addRegular (src : Source) (fpath p : bytes) (info : FileInfo) (be : option Entry) : M D unit :=
  do! metadataOnly := gets fw_copyMetadataOnly in
  if metadataOnly : bool then
    do! be := of_res (entry_or_sys info be) in
    do! be :=
      (match be_Chunks be, fi_DataRange info with
       | [], Some (r :: rs) =>
           do! chunks := chunksFromRanges (r :: rs) (fi_Size info) in
           ret (be_set_Chunks chunks (bool_decide (rs = []) && negb (dr_Offset r =? holeOffset)) be)
       | _, _ => ret be
       end) in
    add p (entryFileInfo info be)
  else
    match direct_data src info with
    | Some data => add p (entryFileInfo info (be_set_Data (Some data) (default zero_Entry be)))
    | None =>
        do! be := of_res (entry_or_sys info be) in
        do! f := of_res (src_Open src fpath) in
        add p (entryFileInfo info (be_set_Data (Some f) be))
    end.

End Copy.
