(* ===== verification/CopyImage.v ===== *)
(** * Copying an image

    [copyFromImage] of src/mkfs_image.go, which [CopyFrom] takes for a
    metadata-only copy of an opened image: the metadata region is read at once
    and walked breadth first, every inode decoded from the buffer and placed in
    the tree, its data left on the source as chunks.

    The accessor's block cache is left out: a [ReaderAt] answers the same for
    the same range. *)

From S2P Require Import Prelude Machine Disk Format Image Inode Data Dir Path Xattr Layout FsTree Mkfs Copy.

(** ** Reading the metadata *)

Definition maxEagerMetaBytes : Z := Z.shiftl 1 30.

(** A read that fills its buffer with no error. *)
Definition full_read (r : ReaderAt) (off n : Z) : option bytes :=
  let '(b, err) := ReadAt r off n in
  match err with
  | Some _ => None
  | None => if zlen b =? n then Some b else None
  end.

(** The accessor: what it holds from an offset on, nothing when it has none. *)
Definition newMetaReader (r : ReaderAt) (metaStart totalBytes blockSize : Z) : Z -> bytes :=
  let metaSize := totalBytes - metaStart in
  if metaSize <=? 0 then fun _ => [] else
  match full_read r metaStart metaSize with
  | None => fun _ => []
  | Some metaBuf => fun off =>
      if metaStart <=? off then
        let o := off - metaStart in
        if zlen metaBuf <=? o then [] else drop (Z.to_nat o) metaBuf
      else if (off <? 0) || (totalBytes <=? off) then [] else
        let blkAddr := off - Z.rem off blockSize in
        let sz := if totalBytes <? blkAddr + blockSize then totalBytes - blkAddr else blockSize in
        match full_read r blkAddr sz with
        | None => []
        | Some buf => drop (Z.to_nat (off - blkAddr)) buf
        end
  end.

(** [ReadAt] into a fresh buffer of [n] bytes, any error refusing it. *)
Definition read_buf (r : ReaderAt) (off n : Z) : res bytes :=
  let '(b, err) := ReadAt r off n in
  match err with
  | Some e => Err e
  | None => Ok (take (Z.to_nat n) (b ++ zeros (Z.to_nat n)))
  end.

(** ** Directories *)

Record imgQEntry := mkQ { q_nid : Z; q_path : bytes; q_ftype : Z }.

Definition child_path (parentPath name : bytes) : bytes :=
  if beqb parentPath [slash] then slash :: name else parentPath ++ slash :: name.

(** Dirent [i] of a block: the child to visit, none for the dot entries. *)
Definition parse_dirent (blk parentPath : bytes) (firstNameOff nEntries i : Z) : res (option imgQEntry) :=
  let off := i * SizeDirent in
  let nid := get64 blk (Z.to_nat off) in
  let nameOff := get16 blk (Z.to_nat (off + 8)) in
  let nameEnd :=
    if i <? nEntries - 1 then get16 blk (Z.to_nat ((i + 1) * SizeDirent + 8)) else zlen blk in
  reject (nameOff <? firstNameOff) || (nameEnd <? nameOff) || (zlen blk <? nameEnd) with ErrCorrupt ;;
  let! nameBytes := slice blk nameOff nameEnd in
  let! nameBytes := (if i =? nEntries - 1 then cut_nul nameBytes else Ok nameBytes) in
  let! _ := checkDirentName nameBytes in
  if is_dot nameBytes then Ok None else
  let childPath := child_path parentPath nameBytes in
  let! _ := checkPathLen childPath in
  Ok (Some (mkQ nid childPath (get8 blk (Z.to_nat (off + 10))))).

Fixpoint parse_dirents (n : nat) (blk parentPath : bytes) (firstNameOff nEntries i : Z) : res (list imgQEntry) :=
  match n with
  | O => Ok []
  | S n =>
      let! e := parse_dirent blk parentPath firstNameOff nEntries i in
      let! rest := parse_dirents n blk parentPath firstNameOff nEntries (i + 1) in
      Ok (option_list e ++ rest)
  end.

(** One block of [parseDirBlock]. *)
Definition parse_block (blk parentPath : bytes) : res (list imgQEntry) :=
  reject zlen blk <? SizeDirent with ErrCorrupt ;;
  let firstNameOff := get16 blk 8 in
  let nEntries := firstNameOff / SizeDirent in
  reject (nEntries =? 0) || (zlen blk <? firstNameOff) || negb (firstNameOff mod SizeDirent =? 0) with ErrCorrupt ;;
  parse_dirents (Z.to_nat nEntries) blk parentPath firstNameOff nEntries 0.

(** The loop over the blocks from [pos]; a turn moves it by at least a byte. *)
Fixpoint parse_dir (fuel : nat) (data parentPath : bytes) (dirSize blockSize pos : Z) : res (list imgQEntry) :=
  if dirSize <=? pos then Ok [] else
  match fuel with
  | O => Panic
  | S fuel =>
      let blockEnd := Z.min (pos + blockSize) dirSize in
      let! blk := slice data pos blockEnd in
      let! es := parse_block blk parentPath in
      let! rest := parse_dir fuel data parentPath dirSize blockSize blockEnd in
      Ok (es ++ rest)
  end.

(** [parseDirBlock]: the entries it appends to the queue. *)
Definition parseDirBlock (data : bytes) (dirSize blockSize : Z) (parentPath : bytes) : res (list imgQEntry) :=
  parse_dir (Z.to_nat dirSize) data parentPath dirSize blockSize 0.

(** ** Chunk maps *)

Definition chunkMapBytes (chunkFmt fileSize blkBits unit_ : Z) : res Z :=
  let chunkBits := u8 (blkBits + u8 (Z.land chunkFmt LayoutChunkFormatBits)) in
  reject 64 <=? chunkBits with ErrCorrupt ;;
  let cs := u64 (Z.shiftl 1 chunkBits) in
  let nchunks := fileSize / cs in
  let nchunks := if negb (fileSize mod cs =? 0) then nchunks + 1 else nchunks in
  reject maxChunkIndexBytes / unit_ <? nchunks with ErrInvalid ;;
  Ok (nchunks * unit_).

(** The loop of [deviceChunks]: runs of at most 65535 blocks. *)
Fixpoint device_chunks (fuel : nat) (start blocks device : Z) : list Chunk :=
  match fuel with
  | O => []
  | S fuel =>
      if blocks <=? 0 then [] else
      let count := Z.min blocks MaxUint16 in
      mkChunk start (u16 count) device ::
      device_chunks fuel (if negb (start =? NullPhysicalBlock) then u64 (start + count) else start) (blocks - count) device
  end.

Definition deviceChunks (start blocks device : Z) : list Chunk :=
  device_chunks (S (Z.to_nat (blocks / MaxUint16))) start blocks device.

(** [chunkPlacer] *)
Definition chunkPlacer : Type := Z -> Z -> Z -> res (Z * Z).

Definition chunkBytes (i chunkBits fileSize : Z) : Z :=
  let size := u64 (Z.shiftl 1 chunkBits) in
  let start := u64 (Z.shiftl i chunkBits) in
  i64 (Z.min size (u64 (fileSize - start))).

(** A chunk after [chunks]: the last run grown, or a run of its own. *)
Definition add_hole (chunks : list Chunk) (n : Z) : list Chunk :=
  match last chunks with
  | Some prev =>
      if (ch_PhysicalBlock prev =? NullPhysicalBlock) && (ch_Count prev + n <=? MaxUint16)
      then removelast chunks ++ [mkChunk NullPhysicalBlock (u16 (ch_Count prev + u16 n)) (ch_DeviceID prev)]
      else chunks ++ [mkChunk NullPhysicalBlock (u16 n) 0]
  | None => chunks ++ [mkChunk NullPhysicalBlock (u16 n) 0]
  end.

Definition add_extent (chunks : list Chunk) (n deviceID physBlock : Z) : list Chunk :=
  match last chunks with
  | Some prev =>
      if negb (ch_PhysicalBlock prev =? NullPhysicalBlock) && (ch_DeviceID prev =? deviceID) &&
         (u64 (ch_PhysicalBlock prev + ch_Count prev) =? physBlock) && (ch_Count prev + n <=? MaxUint16)
      then removelast chunks ++ [mkChunk (ch_PhysicalBlock prev) (u16 (ch_Count prev + u16 n)) (ch_DeviceID prev)]
      else chunks ++ [mkChunk physBlock (u16 n) deviceID]
  | None => chunks ++ [mkChunk physBlock (u16 n) deviceID]
  end.

(** Entry [i] of an indexed map. *)
Definition parse_chunk (data : bytes) (deviceIDMask fileSize chunkBits blocksPerChunk : Z) (place : chunkPlacer)
  (i : Z) (chunks : list Chunk) : res (list Chunk) :=
  let off := i * SizeChunkIndex in
  let startBlkLo := get32 data (Z.to_nat (off + 4)) in
  if startBlkLo =? MaxUint32 then Ok (add_hole chunks blocksPerChunk) else
  let deviceID := Z.land (get16 data (Z.to_nat (off + 2))) deviceIDMask in
  let! (deviceID, physBlock) := place deviceID startBlkLo (chunkBytes i chunkBits fileSize) in
  Ok (add_extent chunks blocksPerChunk deviceID physBlock).

Fixpoint parse_chunks (n : nat) (data : bytes) (deviceIDMask fileSize chunkBits blocksPerChunk : Z)
  (place : chunkPlacer) (i : Z) (chunks : list Chunk) : res (list Chunk) :=
  match n with
  | O => Ok chunks
  | S n =>
      let! chunks := parse_chunk data deviceIDMask fileSize chunkBits blocksPerChunk place i chunks in
      parse_chunks n data deviceIDMask fileSize chunkBits blocksPerChunk place (i + 1) chunks
  end.

Definition parseChunks (data : bytes) (chunkFmt fileSize blkBits deviceIDMask : Z) (place : chunkPlacer)
  : res (list Chunk) :=
  reject negb (andnot chunkFmt (Z.lor LayoutChunkFormatBits LayoutChunkFormatIndexes) =? 0) with ErrNotImplemented ;;
  let chunkBits := u8 (blkBits + u8 (Z.land chunkFmt LayoutChunkFormatBits)) in
  let nchunks := Z.shiftr (u64 (fileSize - 1)) chunkBits + 1 in
  let blocksPerChunk := Z.shiftl 1 (chunkBits - blkBits) in
  reject MaxUint16 <? blocksPerChunk with ErrInvalid ;;
  let needed := nchunks * SizeChunkIndex in
  reject maxChunkIndexBytes <? needed with ErrInvalid ;;
  reject zlen data <? needed with ErrCorrupt ;;
  parse_chunks (Z.to_nat nchunks) data deviceIDMask fileSize chunkBits blocksPerChunk place 0 [].

(** Entry [i] of a block map. *)
Definition parse_block_addr (data : bytes) (fileSize chunkBits blocksPerChunk : Z) (place : chunkPlacer) (i : Z)
  : res (list Chunk) :=
  let addr := get32 data (Z.to_nat (i * 4)) in
  if addr =? NullAddr then Ok (deviceChunks NullPhysicalBlock blocksPerChunk 0) else
  let! (dev, start) := place 0 addr (chunkBytes i chunkBits fileSize) in
  Ok (deviceChunks start blocksPerChunk dev).

Fixpoint parse_block_map (n : nat) (data : bytes) (fileSize chunkBits blocksPerChunk : Z) (place : chunkPlacer) (i : Z)
  : res (list Chunk) :=
  match n with
  | O => Ok []
  | S n =>
      let! cs := parse_block_addr data fileSize chunkBits blocksPerChunk place i in
      let! rest := parse_block_map n data fileSize chunkBits blocksPerChunk place (i + 1) in
      Ok (cs ++ rest)
  end.

Definition parseBlockMap (data : bytes) (chunkFmt fileSize blkBits : Z) (place : chunkPlacer) : res (list Chunk) :=
  reject negb (andnot chunkFmt LayoutChunkFormatBits =? 0) with ErrNotImplemented ;;
  let chunkBits := u8 (blkBits + u8 (Z.land chunkFmt LayoutChunkFormatBits)) in
  let nchunks := Z.shiftr (u64 (fileSize - 1)) chunkBits + 1 in
  let blocksPerChunk := u64 (Z.shiftl 1 (chunkBits - blkBits)) in
  reject zlen data <? nchunks * 4 with ErrCorrupt ;;
  parse_block_map (Z.to_nat nchunks) data fileSize chunkBits blocksPerChunk place 0.

(** ** Flat data *)

(** The loop of [flatRun] over the devices, [i] counted from zero. *)
Fixpoint flat_run (devs : list deviceInfo) (i start blocks next : Z) : Z * Z * Z :=
  match devs with
  | [] => (next, 0, start)
  | dev :: devs =>
      if dev_mappedBlkAddr dev =? 0 then flat_run devs (i + 1) start blocks next else
      let lo := dev_mappedBlkAddr dev in
      let hi := u64 (dev_mappedBlkAddr dev + dev_blocks dev) in
      if (lo <=? start) && (start <? hi) then (Z.min blocks (hi - start), u16 (i + 1), start - lo) else
      flat_run devs (i + 1) start blocks (if start <? lo then Z.min next (lo - start) else next)
  end.

Definition flatRun (img : image) (start blocks : Z) : Z * Z * Z :=
  flat_run (img_devices img) 0 start blocks blocks.

(** The loop of [flatChunks]: a run ends with the blocks or at a bound of a
    device's range, each passed once. *)
Fixpoint flat_chunks (fuel : nat) (img : image) (start blocks : Z) : res (list Chunk) :=
  if blocks <=? 0 then Ok [] else
  match fuel with
  | O => Panic
  | S fuel =>
      let '(run, dev, phys) := flatRun img start blocks in
      let! rest := flat_chunks fuel img (u64 (start + run)) (blocks - run) in
      Ok (deviceChunks phys run dev ++ rest)
  end.

Definition flatChunks (img : image) (start blocks : Z) : res (list Chunk) :=
  flat_chunks (2 * length (img_devices img) + 1) img start blocks.

Definition locateChunk (img : image) (deviceID block n : Z) : res (Z * Z) :=
  reject Z.shiftr MaxInt64 (img_bits img) <? block with ErrCorrupt ;;
  let! (dev, off) := locate img deviceID (i64 (Z.shiftl block (img_bits img))) in
  let! _ := boundOnDevice img dev off n in
  Ok (dev, Z.shiftr (u64 off) (img_bits img)).

Definition readFlat (img : image) (pa n : Z) : res bytes :=
  let! (dev, off) := locateRange img pa n in
  let! r := deviceReader img dev in
  read_buf r off n.

(** ** Extended attributes *)

Definition xattrName (xe : XattrEntry) (rawName : bytes) (longPrefix : option (Z -> res bytes)) : res bytes :=
  let! prefix :=
    (if negb (Z.land (xe_NameIndex xe) XattrLongPrefixFlag =? 0) then
       let index := Z.land (xe_NameIndex xe) XattrLongPrefixMask in
       match longPrefix with None => Err ErrCorrupt | Some longPrefix => longPrefix index end
     else xattrIndex_prefix (xe_NameIndex xe)) in
  Ok (prefix ++ rawName).

Section Xattrs.
Context (span : Z -> Z -> res bytes) (sharedOff : Z) (longPrefix : option (Z -> res bytes)).

(** The shared entry a reference names. *)
Definition span_shared (idx : Z) : res (bytes * bytes) :=
  let sharedAddr := sharedOff + idx * 4 in
  let! head := span sharedAddr SizeXattrEntry in
  let! xe := XattrEntry_Unmarshal head in
  let! body := span (sharedAddr + SizeXattrEntry) (xe_NameLen xe + xe_ValueLen xe) in
  let! raw := slice body 0 (xe_NameLen xe) in
  let! name := xattrName xe raw longPrefix in
  let! value := slice body (xe_NameLen xe) (zlen body) in
  Ok (name, value).

Fixpoint span_shared_loop (n : nat) (buf : bytes) (pos : Z) (m : gmap bytes bytes) : res (Z * gmap bytes bytes) :=
  match n with
  | O => Ok (pos, m)
  | S n =>
      reject zlen buf <? pos + 4 with ErrCorrupt ;;
      let! (name, value) := span_shared (get32 buf (Z.to_nat pos)) in
      let! m := setXattr m name value in
      span_shared_loop n buf (pos + 4) m
  end.

(** An inline entry at [pos]: its name and value, and where it ends. *)
Definition buf_entry (buf : bytes) (pos : Z) : res (bytes * bytes * Z) :=
  reject zlen buf <? pos + SizeXattrEntry with ErrCorrupt ;;
  let! rest := slice buf pos (zlen buf) in
  let! xe := XattrEntry_Unmarshal rest in
  let pos := pos + SizeXattrEntry in
  reject zlen buf <? pos + (xe_NameLen xe + xe_ValueLen xe) with ErrCorrupt ;;
  let! raw := slice buf pos (pos + xe_NameLen xe) in
  let! name := xattrName xe raw longPrefix in
  let pos := pos + xe_NameLen xe in
  let! value := slice buf pos (pos + xe_ValueLen xe) in
  Ok (name, value, pos + xe_ValueLen xe).

(** An entry moves the cursor by four bytes at least. *)
Fixpoint buf_inline (fuel : nat) (buf : bytes) (pos : Z) (m : gmap bytes bytes) : res (gmap bytes bytes) :=
  if zlen buf <=? pos then Ok m else
  match fuel with
  | O => Panic
  | S fuel =>
      let! (name, value, pos) := buf_entry buf pos in
      let! m := setXattr m name value in
      let rem := Z.rem pos 4 in
      buf_inline fuel buf (if rem =? 0 then pos else pos + (4 - rem)) m
  end.

Definition parseXattrsFromBuf (buf : bytes) : res (gmap bytes bytes) :=
  reject zlen buf <? SizeXattrBodyHeader with ErrCorrupt ;;
  let! xh := XattrHeader_Unmarshal buf in
  let! (pos, m) := span_shared_loop (Z.to_nat (xh_SharedCount xh)) buf SizeXattrBodyHeader ∅ in
  buf_inline (length buf) buf pos m.

End Xattrs.

(** ** Inodes *)

(** What the walk decodes of an inode core. *)
Record imgInode := mkII {
  ii_mode : Z; ii_uid : Z; ii_gid : Z; ii_nlink : Z; ii_size : Z; ii_idata : Z; ii_startHi : Z; ii_addr48 : bool;
  ii_mtime : Z; ii_mtimeNs : Z; ii_xcnt : Z; ii_icSize : Z }.

Definition image_inode (img : image) (buf : bytes) (format : Z) : res imgInode :=
  if Z.land format InodeFormatExtended =? 0 then
    let! ino := InodeCompact_Unmarshal buf in
    let nlink1 := negb (Z.land (ic_Mode ino) StatTypeMask =? StatTypeDir) &&
                  negb (Z.land format InodeFormatNlink1 =? 0) in
    Ok (mkII (ic_Mode ino) (ic_UID ino) (ic_GID ino) (if nlink1 then 1 else ic_NB ino) (ic_Size ino) (ic_InodeData ino)
          (if nlink1 then ic_NB ino else 0) nlink1 (u64 (sb_BuildTime (img_sb img) + ic_Mtime ino))
          (sb_BuildTimeNs (img_sb img)) (ic_XattrCount ino) SizeInodeCompact)
  else
    let! ino := InodeExtended_Unmarshal buf in
    Ok (mkII (ie_Mode ino) (ie_UID ino) (ie_GID ino) (ie_Nlink ino) (ie_Size ino) (ie_InodeData ino) (ie_NB ino) true
          (ie_Mtime ino) (ie_MtimeNs ino) (ie_XattrCount ino) SizeInodeExtended).

(** The layout of an inode format. *)
Definition format_layout (format : Z) : Z := u8 (Z.shiftr (Z.land format InodeFormatLayoutMask) 1).

(** The start block as the kernel composes it. *)
Definition ii_startBlk (ii : imgInode) : Z :=
  Z.lor (ii_idata ii) (u64 (Z.shiftl (ii_startHi ii) startBlockBits32)).

Definition ii_typ (ii : imgInode) : Z := Z.land (ii_mode ii) StatTypeMask.

Definition ii_xattrSize (ii : imgInode) : Z :=
  if 0 <? ii_xcnt ii then u16 (ii_xcnt ii - 1) * SizeXattrEntry + SizeXattrBodyHeader else 0.

Section Image.
Context (img : image).

Let metaStart := metaStartPos img.
Let totalBytes := i64 (Z.shiftl (sb_Blocks (img_sb img)) (img_bits img)).
Let blockSize_ := Z.shiftl 1 (img_bits img).
Let at_ := newMetaReader (img_meta img) metaStart totalBytes blockSize_.

(** Exactly [n] bytes at [off], or an error. *)
Definition span (off n : Z) : res bytes :=
  reject (off <? 0) || (n <? 0) || (totalBytes <? n) || (totalBytes - n <? off) with ErrCorrupt ;;
  let b := at_ off in
  if n <=? zlen b then slice b 0 n else read_buf (img_meta img) off n.

Definition sharedXattrOff : Z :=
  if 0 <? sb_XattrBlkAddr (img_sb img) then i64 (Z.shiftl (sb_XattrBlkAddr (img_sb img)) (img_bits img)) else 0.

Definition inode_addr (nid : Z) : Z := metaStart + i64 (u64 (nid * SizeInodeCompact)).

(** The checks on a decoded core, in the reader's order and classes. *)
Definition check_inode (cur : imgQEntry) (format : Z) (ii : imgInode) : res unit :=
  let! _ := checkInodeFormat format in
  let! _ := checkChunkFormat (format_layout format) (ii_idata ii) in
  let! _ := (if 0 <? ii_xcnt ii then let! _ := xattrBodySize (ii_xcnt ii) in Ok tt else Ok tt) in
  let root := beqb (q_path cur) [slash] in
  reject modeToFileType (ii_mode ii) =? 0 with ErrCorrupt ;;
  reject root && negb (modeToFileType (ii_mode ii) =? FileTypeDir) with ErrCorrupt ;;
  reject negb root && negb (q_ftype cur =? modeToFileType (ii_mode ii)) with ErrCorrupt ;;
  reject MaxInt64 <? ii_size ii with ErrCorrupt ;;
  Ok tt.

(** From the queue entry to its inode: the layout, the core, the attributes. *)
Definition load_inode (cur : imgQEntry) : res (Z * imgInode * gmap bytes bytes) :=
  reject u64 (totalBytes - metaStart) / SizeInodeCompact <? q_nid cur with ErrCorrupt ;;
  let buf := at_ (inode_addr (q_nid cur)) in
  reject zlen buf <? SizeInodeCompact with ErrCorrupt ;;
  let format := get16 buf 0 in
  reject negb (Z.land format InodeFormatExtended =? 0) && (zlen buf <? SizeInodeExtended) with ErrCorrupt ;;
  let! ii := image_inode img buf format in
  let! _ := check_inode cur format ii in
  let! xattrs :=
    (if 0 <? ii_xattrSize ii then
       let! xb := span (inode_addr (q_nid cur) + ii_icSize ii) (ii_xattrSize ii) in
       parseXattrsFromBuf span sharedXattrOff (Some (getLongPrefix img)) xb
     else Ok ∅) in
  Ok (format_layout format, ii, xattrs).

(** Where an inode's inline data or chunk map starts. *)
Definition trailing_addr (nid : Z) (ii : imgInode) : Z := inode_addr nid + ii_icSize ii + ii_xattrSize ii.

(** The bytes of a flat-inline file's last block, which lies with the inode. *)
Definition inline_tail (layout size : Z) : Z :=
  if (layout =? LayoutFlatInline) && (0 <? size)
  then size - Z.quot (size - 1) blockSize_ * blockSize_ else 0.

(** The checks before any data is looked at. *)
Definition check_sizes (nid layout : Z) (ii : imgInode) : res unit :=
  reject negb (ii_typ ii =? StatTypeReg) && (totalBytes <? ii_size ii) with ErrCorrupt ;;
  reject blockSize_ <? Z.rem (trailing_addr nid ii) blockSize_ + inline_tail layout (ii_size ii) with ErrCorrupt ;;
  Ok tt.

(** [inlineData]: the flat data of a directory or a symlink. *)
Definition inlineData (nid layout : Z) (ii : imgInode) (size : Z) : res bytes :=
  let tail := inline_tail layout (ii_size ii) in
  if layout =? LayoutFlatPlain then
    let! pa := blockAddr img (ii_startBlk ii) in readFlat img pa size
  else if size =? tail then span (trailing_addr nid ii) tail
  else
    let! pa := blockAddr img (ii_startBlk ii) in
    let! blocks := readFlat img pa (size - tail) in
    let! last := span (trailing_addr nid ii) tail in
    Ok (blocks ++ last).

(** The target of a symlink. *)
Definition image_symlink (nid layout : Z) (ii : imgInode) : res bytes :=
  reject (layout =? LayoutFlatInline) && (ii_size ii =? 0) with ErrCorrupt ;;
  if 0 <? ii_size ii then
    let! linkData := inlineData nid layout ii (ii_size ii) in
    reject 0 <=? IndexByte linkData x00 with ErrCorrupt ;;
    Ok linkData
  else Ok [].

(** The whole blocks of a flat file: their chunks before the remap and whether
    they are one run; [None] when there is nothing to remap. *)
Definition flat_data (layout : Z) (ii : imgInode) : res (list Chunk * option bool) :=
  let tail := inline_tail layout (ii_size ii) in
  let whole := u64 (Z.shiftr (i64 (ii_size ii - tail + blockSize_ - 1)) (img_bits img)) in
  if whole =? 0 then Ok ([], None)
  else if (layout =? LayoutFlatPlain) && nullStartBlock (ii_startBlk ii) (ii_addr48 ii) then
    Ok (deviceChunks NullPhysicalBlock whole 0, None)
  else
    let! pa := blockAddr img (ii_startBlk ii) in
    let! _ := locateRange img pa (ii_size ii - tail) in
    let! chunks := flatChunks img (ii_startBlk ii) whole in
    Ok (chunks, Some ((tail =? 0) && (zlen chunks =? 1))).

(** The chunks of a chunk-based file, before the remap. *)
Definition chunk_data (nid : Z) (ii : imgInode) : res (list Chunk) :=
  let chunkFmt := u16 (ii_idata ii) in
  let indexed := negb (Z.land chunkFmt LayoutChunkFormatIndexes =? 0) in
  let trailingAddr := trailing_addr nid ii in
  let unit_ := if indexed then SizeChunkIndex else 4 in
  let chunkAddr :=
    if indexed && negb (Z.rem trailingAddr 8 =? 0) then Z.land (trailingAddr + 7) (Z.lnot 7) else trailingAddr in
  let! need := chunkMapBytes chunkFmt (ii_size ii) (img_bits img) unit_ in
  reject zlen (at_ chunkAddr) <? need with ErrCorrupt ;;
  if indexed : bool
  then parseChunks (at_ chunkAddr) chunkFmt (ii_size ii) (img_bits img) (img_deviceIDMask img) (locateChunk img)
  else parseBlockMap (at_ chunkAddr) chunkFmt (ii_size ii) (img_bits img) (locateChunk img).

Section Walk.
Context {D : Type} `{DataFile D}.

(** [remapChunkDevices], the chunks replaced. *)
Definition remapped (chunks : list Chunk) : M D (list Chunk) :=
  do! (chunks, err) := remapChunkDevices chunks in
  match err with Some e => fail e | None => ret chunks end.

(** The data of a regular file, set on its entry. *)
Definition image_regular (nid layout : Z) (ii : imgInode) (fe : fsEntry) : M D fsEntry :=
  if ii_size ii <=? 0 then ret fe else
  if layout =? LayoutChunkBased then
    do! chunks := of_res (chunk_data nid ii) in
    do! chunks := remapped chunks in
    let contiguous :=
      match chunks with [c] => negb (ch_PhysicalBlock c =? NullPhysicalBlock) | _ => false end in
    ret (ns_contiguous contiguous (ns_chunks chunks fe))
  else
    do! (chunks, contiguous) := of_res (flat_data layout ii) in
    do! chunks := (match contiguous with Some _ => remapped chunks | None => ret chunks end) in
    let fe := ns_contiguous (default false contiguous) (ns_chunks chunks fe) in
    let tail := inline_tail layout (ii_size ii) in
    if 0 <? tail then
      do! last := of_res (span (trailing_addr nid ii) tail) in
      ret (ns_tail last fe)
    else ret fe.

(** The entry of an inode that has no name in the copy yet, what it adds to
    the queue and the directories expanded so far. *)
Definition image_entry (cur : imgQEntry) (layout : Z) (ii : imgInode) (xattrs : gmap bytes bytes) (expanded : gset Z)
  : M D (fsEntry * list imgQEntry * gset Z) :=
  let nid := q_nid cur in
  do! metadataOnly := gets fw_copyMetadataOnly in
  let fe := ns_metadataOnly metadataOnly (ns_fileClosed true (ns_xattrs xattrs (ns_size (ii_size ii)
    (ns_mtimeNs (ii_mtimeNs ii) (ns_mtime (ii_mtime ii) (ns_gid (ii_gid ii) (ns_uid (ii_uid ii)
    (new_node (q_path cur) (ii_mode ii))))))))) in
  do! _ := of_res (check_sizes nid layout ii) in
  let typ := ii_typ ii in
  if typ =? StatTypeDir then
    refuse bool_decide (inode_addr nid ∈ expanded) with ErrCorrupt ;;
    let expanded := {[inode_addr nid]} ∪ expanded in
    do! children := of_res
      (if 0 <? ii_size ii then
         let! dirData := inlineData nid layout ii (ii_size ii) in
         parseDirBlock dirData (ii_size ii) blockSize_ (q_path cur)
       else Ok []) in
    ret (fe, children, expanded)
  else if typ =? StatTypeSymlink then
    do! target := of_res (image_symlink nid layout ii) in
    ret (ns_linkTarget target fe, [], expanded)
  else if typ =? StatTypeReg then
    do! fe := image_regular nid layout ii fe in ret (fe, [], expanded)
  else if (typ =? StatTypeChrdev) || (typ =? StatTypeBlkdev) then
    ret (ns_rdev (RdevFromMode (ii_mode ii) (ii_idata ii)) fe, [], expanded)
  else ret (fe, [], expanded).

(** Registering an entry: the root keeps its node. *)
Definition register (cur : imgQEntry) (ii : imgInode) (fe : fsEntry) : M D unit :=
  if beqb (q_path cur) [slash] then
    update root (fun r => ns_xattrs (n_xattrs fe) (ns_mtimeNs (n_mtimeNs fe) (ns_mtime (n_mtime fe)
      (ns_gid (n_gid fe) (ns_uid (n_uid fe) (ns_mode (n_mode fe) r))))))
  else
    do! p := placeEntry fe in
    if negb (ii_typ ii =? StatTypeDir) && (1 <? ii_nlink ii)
    then modify (fun w => fs_copyLinks (insert (0, q_nid cur) p <$> fw_copyLinks w) w)
    else ret tt.

(** The live earlier name of a nid in this copy. *)
Definition image_prior (nid : Z) (ii : imgInode) : M D (option ptr) :=
  if negb (ii_typ ii =? StatTypeDir) && (1 <? ii_nlink ii) then
    do! links := gets fw_copyLinks in
    match (default ∅ links : gmap (Z * Z) ptr) !! (0, nid) with
    | Some p => do! pe := node_at p in ret (if n_removed pe then None else Some p)
    | None => ret None
    end
  else ret None.

(** One turn of the walk after the whiteouts. *)
Definition copy_inode (cur : imgQEntry) (expanded : gset Z) : M D (list imgQEntry * gset Z) :=
  do! (layout, ii, xattrs) := of_res (load_inode cur) in
  do! prior := image_prior (q_nid cur) ii in
  match prior with
  | Some prior => do! _ := addAlias (q_path cur) prior in ret ([], expanded)
  | None =>
      do! (fe, children, expanded) := image_entry cur layout ii xattrs expanded in
      do! _ := register cur ii fe in
      ret (children, expanded)
  end.

Definition whiteoutPrefix : bytes := bs ".wh.".
Definition opaqueWhiteout : bytes := bs ".wh..wh..opq".

(** The whiteouts of a merge: whether the entry is one, its work done. *)
Definition image_whiteout (p : bytes) : M D bool :=
  do! merge := gets fw_copyMerge in
  if negb (merge && negb (beqb p [slash])) then ret false else
  let base := Base p in
  if (zlen whiteoutPrefix <? zlen base) && beqb (take (length whiteoutPrefix) base) whiteoutPrefix then
    do! _ :=
      (if beqb base opaqueWhiteout then removeChildren (Dir p) else
       let name := drop (length whiteoutPrefix) base in
       removeTree (if beqb (Dir p) [slash] then slash :: name else Dir p ++ slash :: name)) in
    ret true
  else ret false.

Fixpoint copy_walk (fuel : nat) (queue : list imgQEntry) (expanded : gset Z) : M D unit :=
  match queue with
  | [] => ret tt
  | cur :: queue =>
      match fuel with
      | O => of_res Panic
      | S fuel =>
          do! white := image_whiteout (q_path cur) in
          if white : bool then copy_walk fuel queue expanded else
          do! (children, expanded) := copy_inode cur expanded in
          copy_walk fuel (queue ++ children) expanded
      end
  end.

(** A directory is expanded once, at one of the addresses of the metadata
    region, and has at most an entry per dirent of its size. *)
Definition walk_fuel : nat :=
  S (S (Z.to_nat ((totalBytes - metaStart) / SizeInodeCompact)) * Z.to_nat (totalBytes / SizeDirent)).

Definition copyFromImage : M D unit :=
  if totalBytes <=? 0 then ret tt else
  refuse match reader_size (img_meta img) with Some actual => actual <? totalBytes | None => false end with ErrCorrupt ;;
  refuse (metaStart <? 0) || (totalBytes <=? metaStart) with ErrCorrupt ;;
  refuse maxEagerMetaBytes <? totalBytes - metaStart with ErrInvalid ;;
  copy_walk walk_fuel [mkQ (sb_RootNid (img_sb img)) [slash] 0] ∅.

End Walk.
End Image.
