(* ===== verification/CopyFrom.v ===== *)
(** * CopyFrom

    [Writer.CopyFrom] of src/mkfs.go: the state it resets, an image source's
    fast path or the walk over an [fs.FS] with its whiteouts, and what each kind
    of entry is added with (Copy.v). *)

From S2P Require Import Prelude Machine Disk Format Image Inode Data Dir Path Xattr Layout FsTree Mkfs Build Copy CopyImage.

(** The options: [MetadataOnly] and [Merge]. *)
Inductive CopyOpt := MetadataOnly | Merge.

Section CopyFrom.
Context {D : Type} `{DataFile D}.

Definition apply_opt (opt : CopyOpt) : M D unit :=
  match opt with
  | MetadataOnly => modify (fs_copyMetadataOnly true)
  | Merge => modify (fs_copyMerge true)
  end.

(** The state of one call, and the options over it. *)
Definition reset_copy (opts : list CopyOpt) : M D unit :=
  do! _ := modify (fun w => fs_copyLinks (Some ∅) (fs_copySourceIsImage false (fs_copyDeviceID 0
    (fs_copyMerge false (fs_copyMetadataOnly false w))))) in
  for_each apply_opt opts.

Definition copy_buildTime (t : Z) : M D unit :=
  modify (fun w => if fw_hasBuildTime w then w else fs_hasBuildTime true (fs_buildTime t w)).

(** The devices of a metadata-only copy of an image: the image, then its own. *)
Definition image_devices (img : image) : M D unit :=
  let devBlocks := deviceBlocks img in
  do! _ := checkDeviceCount (1 + zlen devBlocks) in
  do! _ := modify (fun w => fs_devices (fw_devices w ++ [blocks img]) w) in
  do! _ := modify (fun w => fs_copySourceIsImage true (fs_copyDeviceID (u16 (zlen (fw_devices w))) w)) in
  modify (fun w => fs_devices (fw_devices w ++ devBlocks) w).

(** The whiteouts of the walk: whether the entry is one, its work done. *)
Definition walk_whiteout (p : bytes) : M D bool :=
  do! merge := gets fw_copyMerge in
  if negb (merge && negb (beqb p [slash])) then ret false else
  let base := Base p in
  if HasPrefix base whiteoutPrefix then
    do! _ :=
      (if beqb base opaqueWhiteout then removeChildren (Dir p)
       else removeTree (Join (Dir p) (drop (length whiteoutPrefix) base))) in
    ret true
  else ret false.

(** The metadata [info.Sys] hands over. *)
Definition sys_entry (info : FileInfo) : res (option Entry) :=
  match fi_Sys info with
  | SysEntry be => Ok (Some be)
  | SysStat st =>
      reject MaxUint32 <? st_Rdev st with ErrInvalid ;;
      Ok (Some (mkBE (st_UID st) (st_GID st) (st_Mtime st) (st_MtimeNs st) (u32 (Z.min (st_Nlink st) MaxUint32))
        (u32 (st_Rdev st)) 0 (st_Ino st) (default ∅ (st_Xattrs st)) [] None [] false))
  | _ => Ok None
  end.

Definition no_data (be : option Entry) : bool :=
  match be with Some be => is_none (be_Data be) | None => true end.
Definition no_target (be : option Entry) : bool :=
  match be with Some be => beqb (be_LinkTarget be) [] | None => true end.

(** What the callback adds an entry as, after the whiteouts. *)
Definition copy_kind (src : Source) (fpath p : bytes) (info : FileInfo) : M D unit :=
  do! be := of_res (sys_entry info) in
  if FileMode_IsRegular (fi_Mode info) && (0 <? fi_Size info) && no_data be then addRegular src fpath p info be else
  let general : M D unit :=
    if FileMode_IsDir (fi_Mode info) then
      do! be := of_res (entry_or_sys info be) in add p (entryFileInfo info be)
    else match be with
         | Some be => add p (entryFileInfo info be)
         | None => add p info
         end in
  if negb (Z.land (fi_Mode info) ModeSymlink =? 0) && no_target be then
    match src_ReadLink src with
    | Some rl =>
        do! target := of_res (rl fpath) in
        do! be := of_res (entry_or_sys info be) in
        add p (entryFileInfo info (be_set_LinkTarget target be))
    | None => general
    end
  else general.

(** The callback of [fs.WalkDir]. *)
Definition copy_visit (src : Source) (visit : bytes * res FileInfo) : M D unit :=
  let '(fpath, info) := visit in
  do! info := of_res info in
  let p := if beqb fpath (bs ".") then [slash] else slash :: fpath in
  do! white := walk_whiteout p in
  if white : bool then ret tt else copy_kind src fpath p info.

(** What an [fs.FS] declares of itself. *)
Definition declared (src : Source) : M D unit :=
  do! _ := (match src_BlockSize src with Some n => setBlockSize n | None => ret tt end) in
  do! metadataOnly := gets fw_copyMetadataOnly in
  do! _ :=
    (match src_DeviceBlocks src with
     | Some n =>
         if metadataOnly : bool then
           do! _ := checkDeviceCount 1 in
           do! _ := modify (fun w => fs_devices (fw_devices w ++ [n]) w) in
           modify (fun w => fs_copyDeviceID (u16 (zlen (fw_devices w))) w)
         else ret tt
     | None => ret tt
     end) in
  match src_BuildTime src with Some t => copy_buildTime t | None => ret tt end.

(** The walk of a source that is no image, or one whose data is read. *)
Definition copy_tree (src : Source) : M D unit :=
  do! _ := declared src in for_each (copy_visit src) (src_walk src).

Definition CopyFrom (src : Source) (opts : list CopyOpt) : M D unit :=
  do! _ := sticky in
  do! _ := checkNoOpenFile in
  do! _ := reset_copy opts in
  match src_image src with
  | Some img =>
      do! _ := setBlockSize (blockSize img) in
      do! _ := copy_buildTime (buildTime img) in
      do! metadataOnly := gets fw_copyMetadataOnly in
      if metadataOnly : bool then
        do! _ := image_devices img in copyFromImage img
      else copy_tree src
  | None => copy_tree src
  end.

End CopyFrom.

(** ** What the model shows of the copy *)

Section Examples.

(** A tree with the file [/a/f] holding "hello", written to the spool. *)
Definition sample_options : createOptions (D := bytes) := mkOptions 0 0 false 0 None false.

Definition sample : Writer bytes :=
  let w := (Create (bs "/a/f") (NewWriter sample_options)).2 in
  let w := (File_Write 0 (bs "hello") w).2 in
  (File_Close 0 w).2.

Definition plain_info (mode size : Z) : FileInfo := mkInfo mode size None SysNone None.

(** A source holding its root and one regular file. *)
Definition one_file (name content : bytes) : Source :=
  mkSrc None None None None None (fun _ => Ok (mkStream [] content EOF))
    [(bs ".", Ok (plain_info (ModeDir + 0x1ED) 0)); (name, Ok (plain_info 0x1A4 (zlen content)))].

(** A merged layer holding a file named ".wh.." or ".wh." removes the root
    itself, and with it every entry of the layers before. *)
Theorem whiteout_of_dot_wipes_tree :
  (fun name =>
     let '(r, w) := CopyFrom (one_file name []) [Merge] sample in (r, size (fw_byPath w))) <$>
       [bs ".wh.."; bs ".wh..."; bs ".wh."; bs ".wh.a"] =
  [(Ok tt, 0%nat); (Ok tt, 0%nat); (Ok tt, 0%nat); (Ok tt, 1%nat)] /\ size (fw_byPath sample) = 3%nat.
Proof. vm_compute. split; reflexivity. Qed.

(** A file merged over a directory takes the directory's place and leaves its
    children under it. *)
Theorem file_over_directory_keeps_children :
  let '(r, w) := CopyFrom (one_file (bs "a") []) [Merge] sample in
  r = Ok tt /\ (n_type <$> (fw_store w !! 1%nat)) = Some StatTypeReg /\
  (n_path <$> (fw_store w !! 1%nat)) = Some (bs "/a") /\
  (res_map fst (writer_Stat (bs "/a/f") w).1 = Ok (bs "f")).
Proof. vm_compute. repeat split; reflexivity. Qed.

(** A file copied in without a data file reads, before [Close], as the bytes
    another file put first in the spool. *)
Theorem copied_file_reads_spool :
  let '(r, w) := CopyFrom (one_file (bs "g") (bs "xyz")) [] sample in
  r = Ok tt /\
  match (writer_Open (bs "/g") w).1 with
  | Ok (inr f) => (readFile_Read f 3).1.1 = bs "hel"
  | _ => False
  end.
Proof. vm_compute. split; reflexivity. Qed.

(** An image of four 512-byte blocks whose root is a directory in chunks of
    eight blocks, at block 2; block 3 holds another directory. *)
Definition chunked_root : image :=
  let root_core := put32 16 3 (put32 8 38 (put16 4 0x41ED (put16 0 (Z.shiftl LayoutChunkBased 1) (zeros 32)))) in
  let file_core := put16 6 1 (put16 4 0x81A4 (zeros 32)) in
  let block b := b ++ zeros (512 - length b) in
  let dirents name := example_dirent 0 24 2 ++ example_dirent 2 25 1 ++ bs "." ++ name ++ zeros 12 in
  {| img_sb :=
       {| sb_MagicNumber := MagicNumber; sb_Checksum := 0; sb_FeatureCompat := 0; sb_BlkSizeBits := 9;
          sb_ExtSlots := 0; sb_RootNid := 0; sb_Inos := 2; sb_BuildTime := 0; sb_BuildTimeNs := 0; sb_Blocks := 4;
          sb_MetaBlkAddr := 1; sb_XattrBlkAddr := 0; sb_UUID := zeros 16; sb_VolumeName := zeros 16;
          sb_FeatureIncompat := 4; sb_ComprAlgs := 0; sb_ExtraDevices := 0; sb_DevtSlotOff := 9; sb_DirBlkBits := 0;
          sb_XattrPrefixCount := 0; sb_XattrPrefixStart := 0; sb_PackedNid := 0; sb_XattrFilterRes := 0;
          sb_IshareXattrPrefixID := 0; sb_Reserved := zeros 22 |};
     img_size := 2048;
     img_meta := bytes_reader (zeros 512 ++ block (root_core ++ le_encode 4 2 ++ zeros 28 ++ file_core) ++
       block (dirents (bs "a")) ++ block (dirents (bs "b")));
     img_devices := []; img_deviceIDMask := 0; img_longPrefixes := [] |}.

(** The copy of a directory that is chunk-based takes the chunk format for its
    block address: the reader lists "a", the copy has "/b". *)
Theorem chunked_directory_miscopied :
  let src := mkSrc (Some chunked_root) None None None None (fun _ => Err ErrNotExist) [] in
  let '(r, w) := CopyFrom src [MetadataOnly] (NewWriter sample_options) in
  res_map (map ent_name) (image_ReadDir chunked_root (bs ".")) = Ok [bs "a"] /\
  r = Ok tt /\ is_Some (fw_byPath w !! bs "/b") /\ fw_byPath w !! bs "/a" = None.
Proof. vm_compute. repeat split; eauto. Qed.

End Examples.
