(* ===== verification/CopyWalk.v ===== *)
(** * The walk over a source image ends

    [copyFromImage] (CopyImage.v) follows the directories of an image whose
    dirents it does not trust.  A directory is expanded once per inode address
    and lists at most one child per dirent its size has room for, so the walk
    takes a bounded number of turns whatever the image holds. *)

From S2P Require Import Prelude Machine Disk Format Image Inode Data Dir Path Xattr Layout FsTree Mkfs Copy CopyImage.

(** ** The children of a directory *)

Definition q_ok (q : imgQEntry) : Prop := 0 <= q_nid q.

Lemma parse_dirent_ok blk parent f n i e :
  parse_dirent blk parent f n i = Ok (Some e) -> q_ok e.
Proof.
  unfold parse_dirent. intros E. steps_in E; try done.
  injection E as <-. unfold q_ok. cbn. pose proof (get64_range blk (Z.to_nat (i * SizeDirent))) as R. unfold is_u64 in R. lia.
Qed.

Lemma parse_dirents_few n : forall blk parent f m i es,
  parse_dirents n blk parent f m i = Ok es -> (length es <= n)%nat /\ Forall q_ok es.
Proof.
  induction n as [|n IH]; cbn [parse_dirents]; intros blk parent f m i es E.
  - apply Ok_inj in E as <-. by split.
  - destruct (parse_dirent blk parent f m i) as [[e|]| |] eqn:Ee; [| |done..];
      destruct (parse_dirents n blk parent f m (i + 1)) as [rest| |] eqn:Er; try done;
      apply Ok_inj in E as <-; apply IH in Er as [L F]; cbn; split; try lia; auto.
    constructor; [by eapply parse_dirent_ok|done].
Qed.

Lemma parse_block_few blk parent es :
  parse_block blk parent = Ok es -> zlen es <= zlen blk / SizeDirent /\ Forall q_ok es.
Proof.
  unfold parse_block. intros E. step_in E. step_in E. apply orb_false_iff in E1 as [E1 _]. apply orb_false_iff in E1 as [_ E1]. zbool.
  apply parse_dirents_few in E as [L F]. split; [|done].
  pose proof (get16_range blk 8) as R. unfold is_u16 in R. unfold zlen at 1. unfold SizeDirent in *.
  pose proof (Z.div_le_mono (get16 blk 8) (zlen blk) 12 ltac:(lia) ltac:(lia)).
  assert (0 <= get16 blk 8 / 12) by (apply Z.div_pos; lia). lia.
Qed.

Lemma parse_dir_few fuel : forall data parent dirSize blockSize pos es,
  0 < blockSize -> 0 <= pos -> parse_dir fuel data parent dirSize blockSize pos = Ok es ->
  zlen es <= Z.max 0 (dirSize - pos) / SizeDirent /\ Forall q_ok es.
Proof.
  induction fuel as [|fuel IH]; cbn [parse_dir]; intros data parent dirSize blockSize pos es Hb Hp E;
    destruct (Z.leb_spec dirSize pos).
  1,3: apply Ok_inj in E as <-; split; [|done]; rewrite zlen_nil; apply Z.div_pos; [lia|done].
  - done.
  - destruct (slice data pos _) as [blk| |] eqn:Es; try done.
    destruct (parse_block blk parent) as [es1| |] eqn:Eb; try done.
    destruct (parse_dir fuel data parent dirSize blockSize _) as [rest| |] eqn:Er; try done.
    apply Ok_inj in E as <-. apply slice_length in Es. apply parse_block_few in Eb as [L1 F1].
    apply IH in Er as [L2 F2]; [|lia..]. split; [|by apply Forall_app].
    rewrite zlen_app. unfold SizeDirent in *. set (e := Z.min (pos + blockSize) dirSize) in *.
    rewrite Es in L1. rewrite !Z.max_r in * by lia.
    pose proof (Z.div_mod (e - pos) 12 ltac:(lia)). pose proof (Z.mod_pos_bound (e - pos) 12 ltac:(lia)).
    pose proof (Z.div_mod (dirSize - e) 12 ltac:(lia)). pose proof (Z.mod_pos_bound (dirSize - e) 12 ltac:(lia)).
    apply Z.div_le_lower_bound; lia.
Qed.

(** ** Turns of the walk *)

Lemma bind_inv {D A B} (m : M D A) (k : A -> M D B) w b w' :
  bind m k w = (Ok b, w') -> exists a w1, m w = (Ok a, w1) /\ k a w1 = (Ok b, w').
Proof. unfold bind. destruct (m w) as [[a| |] w1]; [eauto|done..]. Qed.

Lemma of_res_inv {D A} (r : res A) (w : Writer D) a w' : of_res r w = (Ok a, w') -> r = Ok a /\ w' = w.
Proof. unfold of_res. intros [= -> ->]. done. Qed.

Lemma gets_inv {D A} (f : Writer D -> A) (w : Writer D) a w' : gets f w = (Ok a, w') -> a = f w /\ w' = w.
Proof. unfold gets. intros [= <- <-]. done. Qed.

(** Taking a computation apart that answered. *)
Ltac run_in E :=
  match type of E with
  | bind (of_res ?r) _ _ = _ =>
      let a := fresh "a" in let w := fresh "w" in let R := fresh "R" in
      apply bind_inv in E as (a & w & R & E); apply of_res_inv in R as [R ->]; cbv beta in E
  | bind (gets ?f) _ _ = _ =>
      let a := fresh "a" in let w := fresh "w" in let R := fresh "R" in
      apply bind_inv in E as (a & w & R & E); apply gets_inv in R as [R ->]; cbv beta in E
  | bind _ _ _ = _ =>
      let a := fresh "a" in let w := fresh "w" in let R := fresh "R" in
      apply bind_inv in E as (a & w & R & E); cbv beta in E
  | ret _ _ = _ => unfold ret in E
  | (if ?b then fail _ else _) _ = _ => let B := fresh "B" in destruct b eqn:B; [discriminate E|]
  end.

Lemma size_list_to_set_le (l : list Z) : (size (list_to_set l : gset Z) <= length l)%nat.
Proof.
  induction l as [|x l IH]; [done|]. cbn [list_to_set length]. rewrite size_union_alt, size_singleton.
  assert (size (list_to_set l ∖ {[x]} : gset Z) <= size (list_to_set l : gset Z))%nat by (apply subseteq_size; set_solver).
  lia.
Qed.

Section Walk.
Context (img : image) (Hwf : image_wf img).
Context {D : Type} `{DataFile D}.
Implicit Types w : Writer D.

Let metaStart := metaStartPos img.
Let totalBytes := i64 (Z.shiftl (sb_Blocks (img_sb img)) (img_bits img)).
Context (Hmeta : metaStart < totalBytes).

(** The inode addresses of the metadata region, and the most children a
    directory has. *)
Let nslots := S (Z.to_nat ((totalBytes - metaStart) / SizeInodeCompact)).
Let most := Z.to_nat (totalBytes / SizeDirent).
Let slots : gset Z := list_to_set (inode_addr img ∘ Z.of_nat <$> seq 0 nslots).

Lemma slots_size : (size slots <= nslots)%nat.
Proof.
  unfold slots. etrans; [apply size_list_to_set_le|]. by rewrite length_fmap, length_seq.
Qed.

Lemma load_inode_slot cur layout ii xattrs :
  q_ok cur -> load_inode img cur = Ok (layout, ii, xattrs) -> inode_addr img (q_nid cur) ∈ slots.
Proof.
  unfold q_ok, load_inode. intros Hq E. step_in E. clear E. fold metaStart totalBytes in E0. zbool.
  unfold totalBytes in *. destruct (shiftl_u32_bits (sb_Blocks (img_sb img)) (img_bits img)) as [Ht Hr];
    [apply (wf_sb _ Hwf)|apply (wf_bits _ Hwf)|]. rewrite Ht in *. destruct (metaStartPos_eq img Hwf) as [_ Hm].
  fold metaStart in Hm. rewrite u64_id in E0 by (unfold is_u64; lia).
  unfold slots. rewrite elem_of_list_to_set, list_elem_of_fmap. exists (Z.to_nat (q_nid cur)).
  split; [cbn; by rewrite Z2Nat.id by lia|]. apply elem_of_seq. unfold nslots. rewrite Ht. lia.
Qed.

Lemma block_pos : 0 < Z.shiftl 1 (img_bits img).
Proof. pose proof (wf_bits _ Hwf). rewrite shiftl1 by lia. by apply Z.pow_pos_nonneg; lia. Qed.

(** A turn's new entries are paid for by the directory it expands. *)
Definition left_over (expanded : gset Z) : nat := ((nslots - size expanded) * most)%nat.

Lemma image_entry_pays cur layout ii xattrs expanded w fe children expanded' w' :
  inode_addr img (q_nid cur) ∈ slots -> expanded ⊆ slots ->
  image_entry img cur layout ii xattrs expanded w = (Ok (fe, children, expanded'), w') ->
  Forall q_ok children /\ expanded' ⊆ slots /\ (length children + left_over expanded' <= left_over expanded)%nat.
Proof.
  intros Hin Hsub E. unfold image_entry in E. run_in E. cbv zeta in E. run_in E.
  unfold check_sizes in R0. step_in R0. clear R0. apply andb_false_iff in E0.
  set (fe0 := ns_metadataOnly _ _) in E. clearbody fe0.
  destruct (Z.eqb_spec (ii_typ ii) StatTypeDir) as [Hd|Hd].
  - run_in E. apply bool_decide_eq_false in B. run_in E. run_in E. injection E as _ <- <- _.
    destruct E0 as [E0|E0]; [by rewrite Hd in E0|]. rename R0 into R1, a1 into kids. fold totalBytes in E0. zbool.
    assert (F : zlen kids <= totalBytes / SizeDirent /\ Forall q_ok kids).
    { destruct (Z.ltb_spec 0 (ii_size ii)).
      - destruct (inlineData img _ _ _ _) as [dd| |]; try done. apply parse_dir_few in R1 as [L F]; [|apply block_pos|lia].
        split; [|done]. etrans; [exact L|]. apply Z.div_le_mono; unfold SizeDirent; lia.
      - apply Ok_inj in R1 as <-. split; [|done]. rewrite zlen_nil. apply Z.div_pos; [destruct (metaStartPos_eq img Hwf); lia|done]. }
    destruct F as [L F]. split; [done|]. split; [set_solver|].
    unfold left_over. rewrite size_union, size_singleton by set_solver.
    assert (size ({[inode_addr img (q_nid cur)]} ∪ expanded) <= size slots)%nat as LE by (apply subseteq_size; set_solver).
    rewrite size_union, size_singleton in LE by set_solver. pose proof slots_size.
    assert (length kids <= most)%nat by (unfold most, zlen in *; lia).
    replace (nslots - size expanded)%nat with (S (nslots - (1 + size expanded))) by lia. cbn [Nat.mul]. lia.
  - assert (children = [] /\ expanded' = expanded) as [-> ->]; [|by split_and!].
    repeat match type of E with (if ?b then _ else _) _ = _ => destruct b end;
      repeat run_in E; by injection E as _ <- <- _.
Qed.

Lemma copy_inode_pays cur expanded w children expanded' w' :
  q_ok cur -> expanded ⊆ slots -> copy_inode img cur expanded w = (Ok (children, expanded'), w') ->
  Forall q_ok children /\ expanded' ⊆ slots /\ (length children + left_over expanded' <= left_over expanded)%nat.
Proof.
  intros Hq Hsub E. unfold copy_inode in E. run_in E. destruct a as [[layout ii] xattrs].
  apply (load_inode_slot _ _ _ _ Hq) in R. run_in E. destruct a as [prior|].
  - run_in E. run_in E. injection E as <- <- <-. cbn. by split_and!.
  - run_in E. destruct a as [[fe kids] exp']. run_in E. run_in E. injection E as <- <- <-. by eapply image_entry_pays.
Qed.

(** The loop without a bound on its turns: what it answers, once it ends. *)
Inductive image_walk : list imgQEntry -> gset Z -> Writer D -> res unit * Writer D -> Prop :=
| walk_done expanded w : image_walk [] expanded w (Ok tt, w)
| walk_whiteout_stops cur queue expanded w r w1 :
    image_whiteout (q_path cur) w = (r, w1) -> is_ok r = false ->
    image_walk (cur :: queue) expanded w (res_map (fun _ => tt) r, w1)
| walk_whiteout_done cur queue expanded w w1 r :
    image_whiteout (q_path cur) w = (Ok true, w1) -> image_walk queue expanded w1 r ->
    image_walk (cur :: queue) expanded w r
| walk_inode_stops cur queue expanded w w1 r w2 :
    image_whiteout (q_path cur) w = (Ok false, w1) -> copy_inode img cur expanded w1 = (r, w2) -> is_ok r = false ->
    image_walk (cur :: queue) expanded w (res_map (fun _ => tt) r, w2)
| walk_inode_done cur queue expanded w w1 children expanded' w2 r :
    image_whiteout (q_path cur) w = (Ok false, w1) -> copy_inode img cur expanded w1 = (Ok (children, expanded'), w2) ->
    image_walk (queue ++ children) expanded' w2 r -> image_walk (cur :: queue) expanded w r.

(** Fuel for what is queued and left to expand is fuel enough. *)
Lemma copy_walk_ends fuel : forall queue expanded w,
  Forall q_ok queue -> expanded ⊆ slots -> (length queue + left_over expanded <= fuel)%nat ->
  image_walk queue expanded w (copy_walk img fuel queue expanded w).
Proof.
  induction fuel as [|fuel IH]; intros queue expanded w Hq Hsub Hl.
  { destruct queue; [constructor|cbn [length] in Hl; clear -Hl; lia]. }
  destruct queue as [|cur queue]; [constructor|]. apply Forall_cons in Hq as [Hc Hq]. cbn [copy_walk length] in *.
  unfold bind at 1. destruct (image_whiteout (q_path cur) w) as [[[]| |] w1] eqn:Ew.
  - eapply walk_whiteout_done; [done|]. apply IH; auto; lia.
  - unfold bind. destruct (copy_inode img cur expanded w1) as [[[kids exp']| |] w2] eqn:E.
    + eapply walk_inode_done; [done..|]. apply copy_inode_pays in E as (F & S' & L); [|done..].
      apply IH; [by apply Forall_app|done|]. rewrite length_app. lia.
    + by eapply (walk_inode_stops _ _ _ _ _ (Err _)).
    + by eapply (walk_inode_stops _ _ _ _ _ Panic).
  - by eapply (walk_whiteout_stops _ _ _ _ (Err _)).
  - by eapply (walk_whiteout_stops _ _ _ _ Panic).
Qed.

Lemma root_walk_ends w :
  image_walk [mkQ (sb_RootNid (img_sb img)) [slash] 0] ∅ w
    (copy_walk img (walk_fuel img) [mkQ (sb_RootNid (img_sb img)) [slash] 0] ∅ w).
Proof.
  apply copy_walk_ends; [|set_solver|].
  - repeat constructor. unfold q_ok. cbn. destruct (wf_sb _ Hwf). unfold is_u16 in *. lia.
  - unfold left_over. rewrite size_empty, Nat.sub_0_r. cbn [length]. unfold walk_fuel. fold metaStart totalBytes nslots most. lia.
Qed.

End Walk.

(** C18: on any image [Open] can yield, whatever its dirents say, the walk of
    [copyFromImage] ends: an image without blocks is left alone, a size the
    copy cannot take is refused with the writer untouched, and any other copy
    answers what the loop without a bound on its turns answers. *)
Theorem copyFromImage_ends {D : Type} `{DataFile D} img (w : Writer D) :
  image_wf img ->
  (sb_Blocks (img_sb img) = 0 /\ copyFromImage img w = (Ok tt, w)) \/
  (exists e, copyFromImage img w = (Err e, w)) \/
  image_walk img [mkQ (sb_RootNid (img_sb img)) [slash] 0] ∅ w (copyFromImage img w).
Proof.
  intros Hwf. unfold copyFromImage.
  destruct (shiftl_u32_bits (sb_Blocks (img_sb img)) (img_bits img)) as [Ht Hr];
    [apply (wf_sb _ Hwf)|apply (wf_bits _ Hwf)|].
  destruct (Z.leb_spec (i64 (Z.shiftl (sb_Blocks (img_sb img)) (img_bits img))) 0) as [B|B].
  { left. split; [|done]. rewrite Ht in B. pose proof (pow2_bits _ (wf_bits _ Hwf)). nia. }
  clear B. repeat match goal with |- context [if ?b then _ else _] => let B := fresh "B" in destruct b eqn:B; [by eauto|] end.
  right. right. apply root_walk_ends; [done|]. apply orb_false_iff in B0 as [_ B0]. zbool. done.
Qed.

(** The image of two directories, each the other's child. *)
Definition cyclic_root : image :=
  let dir_core blk := put32 16 blk (put32 8 26 (put16 4 0x41ED (zeros 32))) in
  let block b := b ++ zeros (512 - length b) in
  let dirents nid name := example_dirent nid 24 2 ++ example_dirent (1 - nid) 25 2 ++ bs "." ++ name in
  {| img_sb :=
       {| sb_MagicNumber := MagicNumber; sb_Checksum := 0; sb_FeatureCompat := 0; sb_BlkSizeBits := 9;
          sb_ExtSlots := 0; sb_RootNid := 0; sb_Inos := 2; sb_BuildTime := 0; sb_BuildTimeNs := 0; sb_Blocks := 4;
          sb_MetaBlkAddr := 1; sb_XattrBlkAddr := 0; sb_UUID := zeros 16; sb_VolumeName := zeros 16;
          sb_FeatureIncompat := 0; sb_ComprAlgs := 0; sb_ExtraDevices := 0; sb_DevtSlotOff := 9; sb_DirBlkBits := 0;
          sb_XattrPrefixCount := 0; sb_XattrPrefixStart := 0; sb_PackedNid := 0; sb_XattrFilterRes := 0;
          sb_IshareXattrPrefixID := 0; sb_Reserved := zeros 22 |};
     img_size := 2048;
     img_meta := bytes_reader (zeros 512 ++ block (dir_core 2 ++ dir_core 3) ++
       block (dirents 0 (bs "a")) ++ block (dirents 1 (bs "b")));
     img_devices := []; img_deviceIDMask := 0; img_longPrefixes := [] |}.

Lemma cyclic_root_wf : image_wf cyclic_root.
Proof. constructor; cbn; done. Qed.

(** The cycle is met and refused. *)
Lemma copyFromImage_ends_witness :
  (copyFromImage cyclic_root (NewWriter (D := bytes) (mkOptions 0 0 false 0 None false))).1 = Err ErrCorrupt /\
  let w := NewWriter (D := bytes) (mkOptions 0 0 false 0 None false) in
  ((sb_Blocks (img_sb cyclic_root) = 0 /\ copyFromImage cyclic_root w = (Ok tt, w)) \/ (exists e, copyFromImage cyclic_root w = (Err e, w)) \/
   image_walk cyclic_root [mkQ (sb_RootNid (img_sb cyclic_root)) [slash] 0] ∅ w (copyFromImage cyclic_root w)).
Proof. split; [vm_compute; reflexivity|]. apply copyFromImage_ends. apply cyclic_root_wf. Defined.
