(* ===== verification/CopyChunks.v ===== *)
(** * The chunks a copy names

    What the chunk lists of [parseChunks], [parseBlockMap], [deviceChunks] and
    [flatChunks] (CopyImage.v) stand for: the device and block of every logical
    block of the file, runs joined or not. *)

From S2P Require Import Prelude Machine Disk Format Image Inode Data Dir Path Xattr Layout.
From S2P Require Import Serialize Roundtrip FsTree Mkfs Copy CopyImage.

(** ** Lists of runs *)

(** The blocks of a list, and the ranges its fields keep to. *)
Definition run_total (chunks : list Chunk) : Z := foldr (fun c t => ch_Count c + t) 0 chunks.

Definition run_ok (c : Chunk) : Prop :=
  0 <= ch_Count c <= MaxUint16 /\ is_u16 (ch_DeviceID c) /\ (ch_PhysicalBlock c = NullPhysicalBlock \/ 0 <= ch_PhysicalBlock c < 2 ^ 60).

(** [chunks] describe [n] blocks, each where [f] puts it. *)
Record maps (chunks : list Chunk) (n : Z) (f : Z -> option (Z * Z)) : Prop := {
  maps_ok : Forall run_ok chunks;
  maps_total : run_total chunks = n;
  maps_target : forall b, 0 <= b < n -> chunk_target chunks b = f b }.

Lemma run_total_app l1 l2 : run_total (l1 ++ l2) = run_total l1 + run_total l2.
Proof. unfold run_total. induction l1 as [|c l1 IH]; [done|]. cbn [app foldr]. rewrite IH. lia. Qed.

Lemma run_total_nonneg l : Forall run_ok l -> 0 <= run_total l.
Proof. unfold run_total. induction 1 as [|c l [[? ?] _] _ IH]; cbn [foldr]; [done|]. lia. Qed.

Lemma chunk_at_app l1 l2 b :
  Forall run_ok l1 -> 0 <= b ->
  chunk_at (l1 ++ l2) b = if b <? run_total l1 then chunk_at l1 b else chunk_at l2 (b - run_total l1).
Proof.
  intros F. revert b. induction F as [|c l1 [[? ?] _] F IH]; intros b Hb; cbn [app chunk_at run_total foldr].
  - rewrite (proj2 (Z.ltb_ge _ _)) by done. f_equal. lia.
  - fold (run_total l1). pose proof (run_total_nonneg l1 F). destruct (Z.ltb_spec b (ch_Count c)).
    + by rewrite (proj2 (Z.ltb_lt _ _)) by lia.
    + rewrite IH by lia. destruct (Z.ltb_spec (b - ch_Count c) (run_total l1)).
      * by rewrite (proj2 (Z.ltb_lt _ _)) by lia.
      * rewrite (proj2 (Z.ltb_ge _ _)) by lia. f_equal. lia.
Qed.

Lemma chunk_target_app l1 l2 b :
  Forall run_ok l1 -> 0 <= b ->
  chunk_target (l1 ++ l2) b = if b <? run_total l1 then chunk_target l1 b else chunk_target l2 (b - run_total l1).
Proof. intros F Hb. unfold chunk_target. rewrite chunk_at_app by done. by destruct (b <? run_total l1). Qed.

Lemma maps_app l1 l2 n1 n2 f1 f2 :
  maps l1 n1 f1 -> maps l2 n2 f2 ->
  maps (l1 ++ l2) (n1 + n2) (fun b => if b <? n1 then f1 b else f2 (b - n1)).
Proof.
  intros [O1 T1 M1] [O2 T2 M2]. split; [by apply Forall_app|by rewrite run_total_app, T1, T2|].
  intros b Hb. rewrite chunk_target_app, T1 by (done || lia).
  destruct (Z.ltb_spec b n1); [apply M1; lia|]. rewrite M2 by lia. done.
Qed.

Lemma maps_ext l n f g : maps l n f -> (forall b, 0 <= b < n -> f b = g b) -> maps l n g.
Proof. intros [O T M] H. split; [done..|]. intros b Hb. rewrite M by done. by apply H. Qed.

Lemma maps_nil f : maps [] 0 f.
Proof. split; [done..|lia]. Qed.

(** A run on a device, and a hole. *)
Definition extent (dev start : Z) (b : Z) : option (Z * Z) := Some (dev, start + b).
Definition hole (b : Z) : option (Z * Z) := None.

Lemma maps_extent start n dev :
  0 <= n <= MaxUint16 -> is_u16 dev -> 0 <= start < 2 ^ 60 -> maps [mkChunk start n dev] n (extent dev start).
Proof.
  intros Hn Hd Hs. split; [apply Forall_singleton; split; cbn; auto|cbn; lia|]. intros b Hb. unfold chunk_target. cbn [chunk_at ch_Count ch_PhysicalBlock ch_DeviceID].
  rewrite (proj2 (Z.ltb_lt _ _)) by lia. cbn [ch_PhysicalBlock ch_DeviceID]. unfold NullPhysicalBlock.
  rewrite (proj2 (Z.eqb_neq _ _)) by lia. done.
Qed.

Lemma maps_hole n dev : 0 <= n <= MaxUint16 -> is_u16 dev -> maps [mkChunk NullPhysicalBlock n dev] n hole.
Proof.
  intros Hn Hd. split; [apply Forall_singleton; split; cbn; auto|cbn; lia|]. intros b Hb. unfold chunk_target. cbn [chunk_at ch_Count ch_PhysicalBlock ch_DeviceID].
  rewrite (proj2 (Z.ltb_lt _ _)) by lia. cbn [ch_PhysicalBlock]. by rewrite Z.eqb_refl.
Qed.

(** ** [deviceChunks] *)

Lemma device_chunks_extent fuel : forall start n dev,
  n <= MaxUint16 * Z.of_nat fuel -> is_u16 dev -> 0 <= n -> 0 <= start -> start + n < 2 ^ 60 ->
  maps (device_chunks fuel start n dev) n (extent dev start).
Proof.
  induction fuel as [|fuel IH]; intros start n dev Hf Hd Hn Hs Hl; cbn [device_chunks].
  { assert (n = 0) as -> by lia. apply maps_nil. }
  destruct (Z.leb_spec n 0); [assert (n = 0) as -> by lia; apply maps_nil|]. unfold MaxUint16 in *.
  set (k := Z.min n (2 ^ 16 - 1)). rewrite u16_id by (unfold is_u16; lia).
  unfold NullPhysicalBlock. rewrite (proj2 (Z.eqb_neq _ _)) by lia. cbn [negb]. rewrite u64_id by (unfold is_u64; lia).
  apply (maps_ext _ _ (fun b => if b <? k then extent dev start b else extent dev (start + k) (b - k))).
  - replace n with (k + (n - k)) at 2 by lia. apply (maps_app [_]).
    + apply maps_extent; [unfold MaxUint16; lia|done|lia].
    + apply IH; (done || lia).
  - intros b Hb. unfold extent. destruct (b <? k); [done|]. do 2 f_equal. lia.
Qed.

Lemma device_chunks_hole fuel : forall n dev,
  n <= MaxUint16 * Z.of_nat fuel -> is_u16 dev -> 0 <= n -> maps (device_chunks fuel NullPhysicalBlock n dev) n hole.
Proof.
  induction fuel as [|fuel IH]; intros n dev Hf Hd Hn; cbn [device_chunks].
  { assert (n = 0) as -> by lia. apply maps_nil. }
  destruct (Z.leb_spec n 0); [assert (n = 0) as -> by lia; apply maps_nil|]. unfold MaxUint16 in *.
  set (k := Z.min n (2 ^ 16 - 1)). rewrite u16_id by (unfold is_u16; lia). rewrite Z.eqb_refl. cbn [negb].
  apply (maps_ext _ _ (fun b => if b <? k then hole b else hole (b - k))); [|intros; by case_match].
  replace n with (k + (n - k)) at 2 by lia. apply (maps_app [_]); [apply maps_hole; [unfold MaxUint16; lia|done]|apply IH; (done || lia)].
Qed.

Lemma device_fuel n : 0 <= n -> n <= MaxUint16 * Z.of_nat (S (Z.to_nat (n / MaxUint16))).
Proof.
  intros Hn. unfold MaxUint16. pose proof (Z.div_mod n (2 ^ 16 - 1) ltac:(lia)). pose proof (Z.mod_pos_bound n (2 ^ 16 - 1) ltac:(lia)).
  assert (0 <= n / (2 ^ 16 - 1)) by (apply Z.div_pos; lia). lia.
Qed.

Lemma deviceChunks_extent start n dev :
  is_u16 dev -> 0 <= n -> 0 <= start -> start + n < 2 ^ 60 -> maps (deviceChunks start n dev) n (extent dev start).
Proof. intros. apply device_chunks_extent; auto using device_fuel. Qed.

Lemma deviceChunks_hole n dev : is_u16 dev -> 0 <= n -> maps (deviceChunks NullPhysicalBlock n dev) n hole.
Proof. intros. apply device_chunks_hole; auto using device_fuel. Qed.

(** ** Runs joined as they are read *)

Lemma maps_split l c n f :
  maps (l ++ [c]) n f ->
  run_ok c /\ maps l (n - ch_Count c) f /\
  forall b, n - ch_Count c <= b < n -> f b = chunk_target [c] (b - (n - ch_Count c)).
Proof.
  intros [O T M]. apply Forall_app in O as [O1 O2]. assert (O3 : run_ok c) by by inv O2.
  rewrite run_total_app in T. cbn in T. pose proof (run_total_nonneg l O1). pose proof (proj1 O3).
  assert (Tl : run_total l = n - ch_Count c) by lia. split; [done|]. split; [split; [done..|]|].
  - intros b Hb. rewrite <- M by lia. rewrite chunk_target_app by (done || lia). by rewrite (proj2 (Z.ltb_lt _ _)) by lia.
  - intros b Hb. rewrite <- M, chunk_target_app by (done || lia). rewrite (proj2 (Z.ltb_ge _ _)) by lia. by rewrite Tl.
Qed.

(** The list grown by a run. *)
Definition then_run (f g : Z -> option (Z * Z)) (n b : Z) : option (Z * Z) := if b <? n then f b else g (b - n).

Lemma maps_grow l c c' n k f g :
  maps (l ++ [c]) n f -> maps [c'] (ch_Count c + k) (then_run (chunk_target [c]) g (ch_Count c)) -> 0 <= k ->
  maps (l ++ [c']) (n + k) (then_run f g n).
Proof.
  intros M M' Hk. apply maps_split in M as ([Hc _] & M & F). set (m := n - ch_Count c) in *.
  replace (n + k) with (m + (ch_Count c + k)) by lia. eapply maps_ext; [exact (maps_app _ _ _ _ _ _ M M')|].
  intros b Hb. unfold then_run. destruct (Z.ltb_spec b m), (Z.ltb_spec b n); try lia; [done|..].
  - rewrite (proj2 (Z.ltb_lt _ _)) by lia. symmetry. apply F. lia.
  - rewrite (proj2 (Z.ltb_ge _ _)) by lia. f_equal. lia.
Qed.

Lemma add_extent_maps chunks n f k dev phys :
  maps chunks n f -> 0 < k <= MaxUint16 -> is_u16 dev -> 0 <= phys < 2 ^ 60 ->
  maps (add_extent chunks k dev phys) (n + k) (then_run f (extent dev phys) n).
Proof.
  intros M Hk Hd Hp. unfold add_extent. rewrite (u16_id k) by (unfold is_u16, MaxUint16 in *; lia).
  assert (NEW : maps (chunks ++ [mkChunk phys k dev]) (n + k) (then_run f (extent dev phys) n)).
  { apply maps_app; [done|]. apply maps_extent; (done || lia). }
  destruct (last chunks) as [prev|] eqn:El; [|done]. destruct (_ && _) eqn:B; [|done]. clear NEW.
  apply last_Some in El as [l ->]. rewrite removelast_last.
  destruct (maps_split _ _ _ _ M) as ((Hc & Hv & Hn) & _). unfold NullPhysicalBlock, MaxUint16 in *.
  rewrite !andb_true_iff in B. destruct B as [[[B1 B2] B3] B4]. zbool. destruct Hn as [Hn|Hn]; [by rewrite Hn in B1|].
  rewrite u64_id in B3 by (unfold is_u64; lia). rewrite u16_id by (unfold is_u16; lia).
  eapply maps_grow; [done| |lia]. eapply maps_ext; [apply maps_extent; [unfold MaxUint16; lia|done|lia]|].
  intros b Hb. unfold then_run, extent. destruct (Z.ltb_spec b (ch_Count prev)).
  - destruct prev as [p c d]. cbn [ch_Count ch_PhysicalBlock ch_DeviceID] in *.
    by rewrite (maps_target _ _ _ (maps_extent p c d ltac:(unfold MaxUint16; lia) Hv Hn)) by lia.
  - rewrite B2, <- B3. do 2 f_equal. lia.
Qed.

Lemma add_hole_maps chunks n f k :
  maps chunks n f -> 0 < k <= MaxUint16 -> maps (add_hole chunks k) (n + k) (then_run f hole n).
Proof.
  intros M Hk. unfold add_hole. rewrite (u16_id k) by (unfold is_u16, MaxUint16 in *; lia).
  assert (NEW : maps (chunks ++ [mkChunk NullPhysicalBlock k 0]) (n + k) (then_run f hole n)).
  { apply maps_app; [done|]. apply maps_hole; (done || lia). }
  destruct (last chunks) as [prev|] eqn:El; [|done]. destruct (_ && _) eqn:B; [|done]. clear NEW.
  apply last_Some in El as [l ->]. rewrite removelast_last.
  destruct (maps_split _ _ _ _ M) as ((Hc & Hv & _) & _). apply andb_true_iff in B as [B1 B2]. zbool. unfold MaxUint16 in *.
  rewrite u16_id by (unfold is_u16; lia). eapply maps_grow; [done| |lia].
  eapply maps_ext; [apply maps_hole; [unfold MaxUint16; lia|done]|]. intros b Hb. unfold then_run. destruct (Z.ltb_spec b (ch_Count prev)); [|done].
  destruct prev as [p c d]. cbn in B1. subst p. cbn [ch_Count ch_DeviceID] in *.
  by rewrite (maps_target _ _ _ (maps_hole c d ltac:(unfold MaxUint16; lia) Hv)) by lia.
Qed.

(** ** Chunk maps read *)

(** Entry [i] of a map, indexed or of bare block addresses: its device and
    block, none for a hole. *)
Definition entry_of (indexed : bool) (mask : Z) (data : bytes) (i : Z) : option (Z * Z) :=
  if indexed then
    let blk := get32 data (Z.to_nat (i * SizeChunkIndex + 4)) in
    if blk =? MaxUint32 then None else Some (Z.land (get16 data (Z.to_nat (i * SizeChunkIndex + 2))) mask, blk)
  else
    let blk := get32 data (Z.to_nat (i * 4)) in
    if blk =? NullAddr then None else Some (0, blk).

Section Maps.
Context (place : chunkPlacer) (indexed : bool) (mask fileSize chunkBits bpc : Z) (data : bytes).
Context (Hbpc : 0 < bpc <= 2 ^ 31).
Context (Hplace : forall d b n d' p, 0 <= d -> is_u32 b -> place d b n = Ok (d', p) -> is_u16 d' /\ 0 <= p < 2 ^ 54).

(** Block [j] of chunk [i]. *)
Definition entry_target (i j : Z) : option (Z * Z) :=
  match entry_of indexed mask data i with
  | None => None
  | Some (d, b) =>
      match place d b (chunkBytes i chunkBits fileSize) with Ok (d', p) => Some (d', p + j) | _ => None end
  end.

(** Block [b] of the file. *)
Definition file_target (b : Z) : option (Z * Z) := entry_target (b / bpc) (b mod bpc).

(** Entry [i] is a hole or was placed. *)
Definition entry_placed (i : Z) : Prop :=
  match entry_of indexed mask data i with
  | None => True
  | Some (d, b) => is_ok (place d b (chunkBytes i chunkBits fileSize)) = true
  end.

Lemma then_chunk i g b :
  0 <= i -> 0 <= b < i * bpc + bpc -> (forall j, 0 <= j < bpc -> g j = entry_target i j) ->
  then_run file_target g (i * bpc) b = file_target b.
Proof using Hbpc.
  intros Hi Hb Hg. unfold then_run. destruct (Z.ltb_spec b (i * bpc)); [done|].
  rewrite Hg by lia. unfold file_target. f_equal.
  - apply (Z.div_unique b bpc i (b - i * bpc)); lia.
  - apply (Z.mod_unique b bpc i (b - i * bpc)); lia.
Qed.

Lemma index_dev_nonneg i : 0 <= Z.land (get16 data (Z.to_nat (i * SizeChunkIndex + 2))) mask.
Proof using Type. apply Z.land_nonneg. left. apply get16_range. Qed.

Lemma parse_chunk_maps i chunks chunks' :
  indexed = true -> bpc <= MaxUint16 -> 0 <= i -> maps chunks (i * bpc) file_target ->
  parse_chunk data mask fileSize chunkBits bpc place i chunks = Ok chunks' ->
  maps chunks' ((i + 1) * bpc) file_target /\ entry_placed i.
Proof using Hbpc Hplace.
  intros Hx Hle Hi M E. unfold parse_chunk in E. unfold entry_placed, entry_of.
  replace ((i + 1) * bpc) with (i * bpc + bpc) by lia. rewrite Hx.
  destruct (Z.eqb_spec (get32 data (Z.to_nat (i * SizeChunkIndex + 4))) MaxUint32) as [Eb|Eb].
  - apply Ok_inj in E as <-. split; [|done]. eapply maps_ext; [apply add_hole_maps; [done|lia]|].
    intros b Hb. apply then_chunk; [done|lia|]. intros j Hj. unfold entry_target, entry_of. rewrite Hx, Eb. done.
  - destruct (place _ _ _) as [[d p]| |] eqn:Ep; try done. apply Ok_inj in E as <-. split; [|done].
    destruct (Hplace _ _ _ _ _ (index_dev_nonneg i) (get32_range _ _) Ep) as [Hd Hp]. eapply maps_ext; [apply add_extent_maps; [done|lia|done|lia]|].
    intros b Hb. apply then_chunk; [done|lia|]. intros j Hj. unfold entry_target, entry_of.
    rewrite Hx, (proj2 (Z.eqb_neq _ _)) by done. by rewrite Ep.
Qed.

Lemma parse_chunks_maps n : forall i chunks chunks',
  indexed = true -> bpc <= MaxUint16 -> 0 <= i -> maps chunks (i * bpc) file_target ->
  parse_chunks n data mask fileSize chunkBits bpc place i chunks = Ok chunks' ->
  maps chunks' ((i + Z.of_nat n) * bpc) file_target /\ forall k, i <= k < i + Z.of_nat n -> entry_placed k.
Proof using Hbpc Hplace.
  induction n as [|n IH]; intros i chunks chunks' Hx Hle Hi M E; cbn [parse_chunks] in E.
  - apply Ok_inj in E as <-. rewrite Z.add_0_r. split; [done|lia].
  - destruct (parse_chunk _ _ _ _ _ _ _ _) as [cs| |] eqn:Ec; try done.
    apply (parse_chunk_maps i) in Ec as [M1 P1]; auto. apply IH in E as [M2 P2]; auto; [|lia].
    replace (i + Z.of_nat (S n)) with (i + 1 + Z.of_nat n) by lia. split; [done|].
    intros k Hk. destruct (Z.eq_dec k i) as [->|]; [done|]. apply P2. lia.
Qed.

Lemma parse_block_map_maps n : forall i pre chunks,
  indexed = false -> 0 <= i -> maps pre (i * bpc) file_target ->
  parse_block_map n data fileSize chunkBits bpc place i = Ok chunks ->
  maps (pre ++ chunks) ((i + Z.of_nat n) * bpc) file_target /\ forall k, i <= k < i + Z.of_nat n -> entry_placed k.
Proof using Hbpc Hplace.
  induction n as [|n IH]; intros i pre chunks Hx Hi M E; cbn [parse_block_map] in E.
  - apply Ok_inj in E as <-. rewrite Z.add_0_r, app_nil_r. split; [done|lia].
  - destruct (parse_block_addr _ _ _ _ _ _) as [cs| |] eqn:Ec; try done.
    destruct (parse_block_map n _ _ _ _ _ _) as [rest| |] eqn:Er; try done. apply Ok_inj in E as <-.
    assert (S1 : maps (pre ++ cs) ((i + 1) * bpc) file_target /\ entry_placed i).
    { unfold parse_block_addr in Ec. unfold entry_placed, entry_of. rewrite Hx.
      replace ((i + 1) * bpc) with (i * bpc + bpc) by lia.
      destruct (Z.eqb_spec (get32 data (Z.to_nat (i * 4))) NullAddr) as [Eb|Eb].
      - apply Ok_inj in Ec as <-. split; [|done].
        eapply maps_ext; [apply maps_app; [done|apply deviceChunks_hole; [done|lia]]|].
        intros b Hb. apply then_chunk; [done|lia|]. intros j Hj. unfold entry_target, entry_of. by rewrite Hx, Eb.
      - destruct (place _ _ _) as [[d p]| |] eqn:Ep; try done. apply Ok_inj in Ec as <-. split; [|done].
        destruct (Hplace _ _ _ _ _ (Z.le_refl 0) (get32_range _ _) Ep) as [Hd Hp]. eapply maps_ext; [apply maps_app; [done|apply (deviceChunks_extent p bpc d); (done || lia)]|].
        intros b Hb. apply then_chunk; [done|lia|]. intros j Hj. unfold entry_target, entry_of.
        rewrite Hx, (proj2 (Z.eqb_neq _ _)) by done. by rewrite Ep. }
    destruct S1 as [M1 P1]. rewrite app_assoc. apply (IH (i + 1)) with (pre := pre ++ cs) in Er as [M2 P2]; auto; [|lia].
    replace (i + Z.of_nat (S n)) with (i + 1 + Z.of_nat n) by lia. split; [done|].
    intros k Hk. destruct (Z.eq_dec k i) as [->|]; [done|]. apply P2. lia.
Qed.
End Maps.

(** ** Devices renumbered *)

(** The ids of an image source move up by the source's own id. *)
Lemma remap_chunks_maps offset ndevices : forall chunks chunks' n f,
  0 <= offset <= MaxUint16 -> ndevices <= MaxUint16 -> maps chunks n f ->
  remap_chunks offset true ndevices chunks = (chunks', None) ->
  maps chunks' n (fun b => '(d, p) ← f b; Some (d + offset, p)).
Proof.
  intros chunks chunks' n f Ho Hn [O T M] E.
  assert (Forall run_ok chunks' /\ run_total chunks' = run_total chunks /\
    forall b, 0 <= b -> chunk_target chunks' b = ('(d, p) ← chunk_target chunks b; Some (d + offset, p))) as (O' & T' & M').
  2:{ split; [done|lia|]. intros b Hb. rewrite M' by lia. by rewrite M. }
  clear T M n f. revert chunks' E. induction O as [|c cs Hc O IH]; intros chunks' E; cbn [remap_chunks] in E.
  { injection E as <-. done. }
  unfold MaxUint16 in *. destruct Hc as (C1 & C2 & C3). unfold is_u16 in C2.
  destruct (Z.eqb_spec (ch_PhysicalBlock c) NullPhysicalBlock) as [Ep|Ep].
  - destruct (remap_chunks _ _ _ cs) as [rest err]. injection E as <- ->. destruct (IH rest eq_refl) as (I1 & I2 & I3).
    split; [constructor; [unfold run_ok, is_u16; split_and!; (done || lia)|done]|]. split; [unfold run_total in *; cbn; lia|].
    intros b Hb. unfold chunk_target in *. cbn [chunk_at]. destruct (Z.ltb_spec b (ch_Count c)); [by rewrite Ep, Z.eqb_refl|].
    apply I3. lia.
  - rewrite andb_false_r in E. rewrite u64_id in E by (unfold is_u64; lia).
    destruct (Z.ltb_spec ndevices (ch_DeviceID c + offset)); [done|].
    destruct (remap_chunks _ _ _ cs) as [rest err]. injection E as <- ->. destruct (IH rest eq_refl) as (I1 & I2 & I3).
    rewrite u16_id by (unfold is_u16; lia).
    split; [constructor; [unfold run_ok, is_u16; cbn; split_and!; (done || lia)|done]|].
    split; [unfold run_total in *; cbn; lia|].
    intros b Hb. unfold chunk_target in *. cbn [chunk_at ch_Count]. destruct (Z.ltb_spec b (ch_Count c)); [|apply I3; lia].
    cbn [ch_PhysicalBlock ch_DeviceID]. by rewrite (proj2 (Z.eqb_neq _ _)) by done.
Qed.

(** ** Placement on the source *)

(** A run that [locateRange] puts on one device is one run of [flatRun]. *)
Lemma flat_run_hit devs i start n next k d :
  Forall dev_wf devs -> 0 <= i -> i + zlen devs <= 65535 -> devs !! k = Some d ->
  dev_mappedBlkAddr d <> 0 -> dev_mappedBlkAddr d <= start < dev_mappedBlkAddr d + dev_blocks d ->
  (forall j d', (j < k)%nat -> devs !! j = Some d' -> dev_mappedBlkAddr d' <> 0 ->
     ~ (dev_mappedBlkAddr d' <= start < dev_mappedBlkAddr d' + dev_blocks d')) ->
  flat_run devs i start n next =
    (Z.min n (dev_mappedBlkAddr d + dev_blocks d - start), i + Z.of_nat k + 1, start - dev_mappedBlkAddr d).
Proof.
  revert i next k. induction devs as [|d0 devs IH]; intros i next k F Hi Hl Hk Hm Hc Hn; [done|].
  apply Forall_cons in F as [F0 F]. rewrite zlen_cons in Hl. pose proof (zlen_nonneg devs). cbn [flat_run].
  destruct F0 as [_ Um Ub]. unfold is_u32 in *.
  destruct k as [|k].
  - injection Hk as ->. rewrite (proj2 (Z.eqb_neq _ _)) by done. rewrite u64_id by (unfold is_u64; lia).
    rewrite (proj2 (andb_true_iff _ _)) by (rewrite Z.leb_le, Z.ltb_lt; lia). rewrite u16_id by (unfold is_u16; lia).
    do 2 f_equal. lia.
  - assert (R : forall next, flat_run devs (i + 1) start n next =
      (Z.min n (dev_mappedBlkAddr d + dev_blocks d - start), i + Z.of_nat (S k) + 1, start - dev_mappedBlkAddr d)).
    { intros nx. rewrite (IH (i + 1) nx k); auto; try lia; [do 2 f_equal; lia|]. intros j d' Hj Hd'. apply (Hn (S j)); [lia|done]. }
    destruct (Z.eqb_spec (dev_mappedBlkAddr d0) 0); [apply R|]. rewrite u64_id by (unfold is_u64; lia).
    destruct (_ && _) eqn:B; [|apply R]. exfalso. apply (Hn 0%nat d0); [lia|done|done|]. zbool. lia.
Qed.

Lemma flat_run_miss devs : forall i start n next,
  Forall dev_wf devs -> next <= n ->
  (forall d, d ∈ devs -> dev_mappedBlkAddr d <> 0 -> start + next <= dev_mappedBlkAddr d) -> 0 < next ->
  flat_run devs i start n next = (next, 0, start).
Proof.
  induction devs as [|d0 devs IH]; intros i start n next F Hle Hn Hp; [done|].
  apply Forall_cons in F as [F0 F]. cbn [flat_run]. destruct F0 as [_ Um Ub]. unfold is_u32 in *.
  assert (Hn' : forall d, d ∈ devs -> dev_mappedBlkAddr d <> 0 -> start + next <= dev_mappedBlkAddr d)
    by (intros d Hd; apply Hn; by right).
  destruct (Z.eqb_spec (dev_mappedBlkAddr d0) 0); [by apply IH|]. specialize (Hn d0 ltac:(by left) ltac:(done)).
  rewrite (proj2 (andb_false_iff _ _)) by (rewrite Z.leb_gt; lia). rewrite (proj2 (Z.ltb_lt _ _)) by lia.
  rewrite Z.min_l by lia. by apply IH.
Qed.

Section Placement.
Context (img : image) (Hwf : image_wf img).
Let bits := img_bits img.
Let bs := 2 ^ bits.

Lemma bs_range : 9 <= bits <= 16 /\ 512 <= bs <= 65536.
Proof using Hwf. pose proof (wf_bits _ Hwf). split; [done|]. by apply pow2_bits. Qed.

(** Where [locateChunk] puts a chunk the reader's [locate] puts it, in whole
    blocks. *)
Lemma locateChunk_inv did blk n dev p :
  0 <= did -> is_u32 blk -> locateChunk img did blk n = Ok (dev, p) ->
  is_u16 dev /\ 0 <= p < 2 ^ 54 /\ locate img did (blk * bs) = Ok (dev, p * bs) /\ boundOnDevice img dev (p * bs) n = Ok tt.
Proof using Hwf.
  intros Hd Hb E. destruct bs_range as [Hbits Hbs]. unfold locateChunk in E. step_in E. clear E0.
  unfold is_u32 in Hb. rewrite Z.shiftl_mul_pow2 in E by lia. fold bits bs in E. rewrite i64_id in E by nia.
  destruct (locate img did (blk * bs)) as [[dev' off]| |] eqn:El; try done.
  destruct (boundOnDevice img dev' off n) as [[]| |] eqn:Eb; try done. apply Ok_inj in E. injection E as <- <-.
  pose proof (boundOnDevice_range img dev' off n Eb) as Hr. unfold MaxInt64 in Hr.
  assert (Hdev : is_u16 dev' /\ exists q, off = q * bs).
  { pose proof (wf_ndevs _ Hwf) as Hn. unfold is_u16, MaxUint16 in *. destruct (Z.eq_dec did 0) as [->|Hd0].
    - destruct (locate_primary_sound img _ _ _ Hwf El) as [[[-> ->]|(d & P1 & P2 & P3 & P4 & P5)] _]; [split; [lia|by eexists]|].
      pose proof (lookup_lt_Some _ _ _ P2). unfold zlen in *. split; [lia|]. exists (blk - dev_mappedBlkAddr d).
      destruct (dev_start_eq img Hwf d) as [Hs _]; [by apply (Forall_lookup_1 _ _ _ _ (wf_devs _ Hwf) P2)|].
      rewrite Hs in P4. fold bits bs in P4. lia.
    - unfold locate in El. rewrite (proj2 (Z.ltb_lt _ _)) in El by lia. step_in El. zbool. apply Ok_inj in El.
      injection El as <- <-. split; [lia|by eexists]. }
  destruct Hdev as [Hu [q Eq]]. rewrite u64_id by (unfold is_u64; lia). rewrite Z.shiftr_div_pow2 by lia. fold bits bs.
  rewrite Eq, Z.div_mul by lia. rewrite <- Eq. split; [done|]. split; [nia|done].
Qed.

(** A flat file [locateRange] accepts, on an image whose mapping is sound. *)
Lemma flatChunks_maps start n dev off :
  mapping_ok img -> 0 <= start -> 0 < n -> locateRange img (start * bs) n = Ok (dev, off) ->
  exists p chunks, off = p * bs /\ 0 <= p <= start /\ flatChunks img start ((n + bs - 1) / bs) = Ok chunks /\
    maps chunks ((n + bs - 1) / bs) (extent dev p) /\ is_u16 dev.
Proof using Hwf.
  intros Hmap Hs Hn E. destruct bs_range as [Hbits Hbs]. set (whole := (n + bs - 1) / bs).
  assert (Hw : 0 < whole /\ (whole - 1) * bs < n <= whole * bs).
  { unfold whole. pose proof (Z.div_mod (n + bs - 1) bs ltac:(lia)). pose proof (Z.mod_pos_bound (n + bs - 1) bs ltac:(lia)). nia. }
  assert (Hmax : start * bs + n <= MaxInt64) by (unfold locateRange in E; steps_in E; lia).
  destruct (locateRange_facts img _ n dev off Hwf Hn E) as (L1 & L2 & L3 & L4).
  pose proof (wf_devs _ Hwf) as Fd. pose proof (wf_ndevs _ Hwf) as Nd. unfold MaxUint16, MaxInt64 in *.
  assert (RUN : exists p, off = p * bs /\ 0 <= p <= start /\ is_u16 dev /\ flatRun img start whole = (whole, dev, p)).
  { unfold flatRun. destruct L2 as [[-> ->]|(d & P1 & P2 & P3 & P4 & P5)].
    - exists start. split_and!; try done; try lia. apply flat_run_miss; [done|lia| |lia]. intros d Hd Hm.
      pose proof (map_above _ Hmap d Hd Hm) as Ha. specialize (L3 eq_refl (map_size _ Hmap)).
      apply list_elem_of_lookup_1 in Hd as [k Hk]. destruct (dev_start_eq img Hwf d) as [Hds _]; [by apply (Forall_lookup_1 _ _ _ _ Fd Hk)|].
      rewrite Hds in Ha. fold bits bs in Ha. nia.
    - pose proof (lookup_lt_Some _ _ _ P2) as Hlt. unfold zlen in Nd. pose proof (Forall_lookup_1 _ _ _ _ Fd P2) as Wd.
      destruct (dev_start_eq img Hwf d Wd) as [Hds _]. destruct (dev_length_eq img Hwf d Wd) as [Hdl _].
      specialize (L4 d P1 P2). rewrite Hds in P4. rewrite Hdl in P5, L4. fold bits bs in P4, P5, L4.
      destruct (wf_dev_mapped _ Wd) as [? _]. destruct (wf_dev_blocks _ Wd) as [? _].
      assert (Eoff : off = (start - dev_mappedBlkAddr d) * bs) by lia.
      exists (start - dev_mappedBlkAddr d). split; [done|]. split; [nia|]. split; [unfold is_u16; lia|].
      rewrite (flat_run_hit _ 0 start whole whole (Z.to_nat (dev - 1)) d); [|done|lia|unfold zlen; lia|done|done|nia|].
      + f_equal. f_equal; [nia|lia].
      + intros j d' Hj Hd' Hm' Hc'. pose proof (Forall_lookup_1 _ _ _ _ Fd Hd') as Wd'.
        destruct (dev_start_eq img Hwf d' Wd') as [Hds' _]. destruct (dev_length_eq img Hwf d' Wd') as [Hdl' _].
        destruct (map_disjoint _ Hmap j (Z.to_nat (dev - 1)) d' d) as [Hx|Hx]; auto; [lia|..];
          rewrite Hds, Hds', ?Hdl, ?Hdl' in Hx; fold bits bs in Hx; nia. }
  destruct RUN as (p & -> & Hp & Hu & Er). exists p, (deviceChunks p whole dev). split_and!; try done; try lia.
  - unfold flatChunks. rewrite Nat.add_1_r. cbn [flat_chunks]. rewrite (proj2 (Z.leb_gt _ _)) by lia. rewrite Er, Z.sub_diag.
    destruct (2 * _)%nat; cbn [flat_chunks Z.leb Z.compare]; by rewrite app_nil_r.
  - apply deviceChunks_extent; try done; try lia. nia.
Qed.

(** What [locateChunk] places keeps to the ranges of a run. *)
Lemma locateChunk_place d b n d' p : 0 <= d -> is_u32 b -> locateChunk img d b n = Ok (d', p) -> is_u16 d' /\ 0 <= p < 2 ^ 54.
Proof using Hwf. intros Hd Hb E. destruct (locateChunk_inv d b n d' p Hd Hb E) as (? & ? & _). done. Qed.

End Placement.
