(* ===== verification/CopyData.v ===== *)
(** * A copied file holds what the reader serves

    An entry that [copyFromImage] makes of a regular file (CopyImage.v) names
    its blocks on the source by chunks and carries its inline tail.  Block for
    block it stands for the bytes [loadBlock] of the reader answers (Data.v),
    and what the copy takes the reader accepts. *)

From S2P Require Import Prelude Machine Disk Format Image Inode Data Dir Path Xattr Layout Serialize Roundtrip FsTree.
From S2P Require Import Mkfs Copy CopyImage CopyWalk CopyChunks.

(** An inode core is read from its own bytes, however long the window. *)
Lemma compact_window (c : bytes) a n1 n2 :
  (32 <= n1)%nat -> (32 <= n2)%nat -> (a + 32 <= length c)%nat ->
  InodeCompact_Unmarshal (sub c a n1) = InodeCompact_Unmarshal (sub c a n2).
Proof.
  intros H1 H2 Hc. unfold InodeCompact_Unmarshal, SizeInodeCompact, get16, get32, zlen.
  rewrite !sub_sub by lia. rewrite !(proj2 (Z.ltb_ge _ _)); [done|unfold sub; rewrite length_take, length_drop; lia..].
Qed.

Lemma extended_window (c : bytes) a n1 n2 :
  (64 <= n1)%nat -> (64 <= n2)%nat -> (a + 64 <= length c)%nat ->
  InodeExtended_Unmarshal (sub c a n1) = InodeExtended_Unmarshal (sub c a n2).
Proof.
  intros H1 H2 Hc. unfold InodeExtended_Unmarshal, SizeInodeExtended, get16, get32, get64, zlen.
  rewrite !sub_sub by lia. rewrite !(proj2 (Z.ltb_ge _ _)); [done|unfold sub; rewrite length_take, length_drop; lia..].
Qed.

(** ** The source's bytes *)

Section Source.
Context (img : image) (c : bytes) (Hwf : image_wf img) (Hback : Backed (img_meta img) c).

Let ms := metaStartPos img.
Let total := i64 (Z.shiftl (sb_Blocks (img_sb img)) (img_bits img)).
Let bs := 2 ^ img_bits img.
Let at_ := newMetaReader (img_meta img) ms total (Z.shiftl 1 (img_bits img)).

(** A read without an error is the content at the offset. *)
Lemma clean_read off n b :
  0 <= off -> 0 <= n -> ReadAt (img_meta img) off n = (b, None) ->
  zlen b = n /\ b = sub c (Z.to_nat off) (Z.to_nat n) /\ (0 < n -> off + n <= zlen c).
Proof using Hback.
  intros Ho Hn E. pose proof (backed_bytes off n Ho Hn) as B. pose proof (backed_short off n Ho Hn) as Sh.
  rewrite E in B, Sh. cbn in B, Sh. assert (L : zlen b = n).
  { destruct (Z.lt_ge_cases (zlen b) n) as [Hlt|Hge]; [by specialize (Sh Hlt)|].
    subst b. pose proof (zlen_sub_le c (Z.to_nat off) n Hn). lia. }
  split; [done|]. split; [done|]. intros Hp. subst b. rewrite zlen_sub in L by done. lia.
Qed.

Lemma full_read_backed off n b :
  0 <= off -> 0 <= n -> full_read (img_meta img) off n = Some b ->
  zlen b = n /\ b = sub c (Z.to_nat off) (Z.to_nat n) /\ (0 < n -> off + n <= zlen c).
Proof using Hback.
  intros Ho Hn E. unfold full_read in E. destruct (ReadAt _ _ _) as [b' [e|]] eqn:R; [done|].
  destruct (_ =? _); [|done]. injection E as ->. by apply clean_read.
Qed.

(** In the metadata region the accessor holds the rest of the image, or nothing. *)
Lemma at_backed off :
  ms <= off -> at_ off = [] \/
  (off < total /\ total <= zlen c /\ at_ off = sub c (Z.to_nat off) (Z.to_nat (total - off))).
Proof using Hwf Hback.
  intros Ho. destruct (metaStartPos_eq img Hwf) as [_ Hm]. fold ms in Hm. unfold at_, newMetaReader.
  destruct (Z.leb_spec (total - ms) 0); [by left|].
  destruct (full_read _ _ _) as [b|] eqn:E; [|by left]. apply full_read_backed in E as (L & -> & Hl); [|lia..].
  rewrite (proj2 (Z.leb_le _ _)) by done. rewrite L. destruct (Z.leb_spec (total - ms) (off - ms)); [by left|].
  right. split; [lia|]. split; [lia|]. rewrite (proj2 (sub_take_drop c (Z.to_nat ms) (Z.to_nat (total - ms)) (Z.to_nat (off - ms)) ltac:(lia))). f_equal; lia.
Qed.

Lemma span_backed off n b :
  ms <= off -> 0 < n -> span img off n = Ok b ->
  b = sub c (Z.to_nat off) (Z.to_nat n) /\ off + n <= total /\ off + n <= zlen c.
Proof using Hwf Hback.
  intros Ho Hn E. destruct (metaStartPos_eq img Hwf) as [_ Hm]. fold ms in Hm.
  unfold span in E. fold total ms in E. step_in E. rewrite !orb_false_iff in E0. zbool.
  fold at_ in E. destruct (at_backed off Ho) as [A|(A1 & A2 & A)]; rewrite A in E.
  - rewrite zlen_nil, (proj2 (Z.leb_gt _ _)) in E by lia. unfold read_buf in E.
    destruct (ReadAt _ _ _) as [b' [e|]] eqn:R; [done|]. apply Ok_inj in E as <-.
    apply clean_read in R as (L & -> & Hl); [|lia..]. split; [|lia].
    rewrite take_app_le by (unfold zlen in L; lia). apply take_ge. unfold zlen in L; lia.
  - rewrite zlen_sub, Z.max_r, Z.min_l in E by lia. rewrite (proj2 (Z.leb_le _ _)) in E by lia.
    apply slice_inv in E as (_ & _ & ->). split; [|lia]. rewrite sub_sub by lia. f_equal; lia.
Qed.

(** ** The inode, read by both *)

(** The reader's inode and the copy's, of the same core. *)
Record same_core (nid layout : Z) (ii : imgInode) (ino : inode) : Prop := {
  sc_nid : ino_nid ino = nid; sc_icsize : ino_icsize ino = ii_icSize ii; sc_xsize : ino_xsize ino = ii_xattrSize ii;
  sc_layout : ino_inodeLayout ino = layout; sc_data : ino_inodeData ino = ii_idata ii;
  sc_startHi : ino_startHi ino = ii_startHi ii; sc_addr48 : ino_addr48 ino = ii_addr48 ii;
  sc_size : ino_size ino = ii_size ii; sc_mode : ino_rawMode ino = ii_mode ii; sc_uid : ino_uid ino = ii_uid ii;
  sc_gid : ino_gid ino = ii_gid ii; sc_nlink : ino_nlink ino = ii_nlink ii; sc_mtime : ino_mtime ino = ii_mtime ii;
  sc_mtimeNs : ino_mtimeNs ino = ii_mtimeNs ii }.

(** The copy's decoding is the reader's. *)
Lemma decode_agrees name nid b1 b2 format ii :
  InodeCompact_Unmarshal b1 = InodeCompact_Unmarshal b2 ->
  (Z.land format InodeFormatExtended <> 0 -> InodeExtended_Unmarshal b1 = InodeExtended_Unmarshal b2 /\ 64 <= zlen b2) ->
  image_inode img b1 format = Ok ii -> ii_size ii <= MaxInt64 ->
  exists ino, decodeInode img name nid b2 format = Ok (ino, ii_xcnt ii) /\ ino_xsize ino = 0 /\
    same_core nid (format_layout format) (mkII (ii_mode ii) (ii_uid ii) (ii_gid ii) (ii_nlink ii) (ii_size ii) (ii_idata ii)
      (ii_startHi ii) (ii_addr48 ii) (ii_mtime ii) (ii_mtimeNs ii) 0 (ii_icSize ii)) ino /\
    ino_mode ino = EroFSModeToGoFileMode (ii_mode ii).
Proof using Type.
  intros Ec Ee E Hs. unfold image_inode in E. unfold decodeInode. fold (format_layout format).
  destruct (Z.eqb_spec (Z.land format InodeFormatExtended) 0) as [Hf|Hf].
  - rewrite <- Ec. destruct (InodeCompact_Unmarshal b1) as [di| |]; try done. apply Ok_inj in E as <-. cbn in *.
    eexists. split; [reflexivity|]. split; [done|]. split; [by constructor|done].
  - destruct (Ee Hf) as [Ee' Hl]. rewrite (proj2 (Z.ltb_ge _ _)) by (unfold SizeInodeExtended; lia). rewrite <- Ee'.
    destruct (InodeExtended_Unmarshal b1) as [di| |] eqn:Ed; try done. apply Ok_inj in E as <-. cbn in *.
    apply InodeExtended_Unmarshal_ranges in Ed. eexists. split; [reflexivity|]. split; [done|].
    split; [|done]. constructor; try done. cbn. apply i64_id. unfold MaxInt64 in Hs. unfold is_u64 in *. lia.
Qed.

Lemma readInfo_len_64 a : 64 <= readInfo_len img a.
Proof using Type. unfold readInfo_len, SizeInodeExtended. case_match; zbool; lia. Qed.

Context (Hmeta : ms < total) (Hsize : total <= img_size img).

Lemma total_range : 0 <= ms /\ total < 2 ^ 48.
Proof using Hwf.
  destruct (metaStartPos_eq img Hwf) as [_ Hm]. split; [by apply Hm|]. unfold total.
  destruct (shiftl_u32_bits (sb_Blocks (img_sb img)) (img_bits img)) as [-> ?]; [apply (wf_sb _ Hwf)|apply (wf_bits _ Hwf)|lia].
Qed.

Lemma inode_addr_in nid :
  is_u64 nid -> nid <= u64 (total - ms) / SizeInodeCompact -> inode_addr img nid = ms + nid * 32 /\ nid * 32 <= total - ms.
Proof using Hwf Hmeta.
  unfold is_u64, SizeInodeCompact. intros Hn Hle. destruct total_range as [T1 T2]. rewrite u64_id in Hle by (unfold is_u64; lia).
  pose proof (Z.mul_div_le (total - ms) 32 ltac:(lia)). unfold inode_addr, SizeInodeCompact. fold ms.
  rewrite u64_id by (unfold is_u64; lia). rewrite i64_id by lia. lia.
Qed.

Lemma checkNid_in nid : 0 <= nid -> ms + nid * 32 + 32 <= total -> checkNid img nid = Ok tt.
Proof using Hwf Hsize.
  intros Hn Hle. destruct total_range as [T1 T2]. unfold checkNid, SizeInodeCompact, SizeInodeExtended, MaxInt64. fold ms.
  rewrite (i64_id nid) by lia. rewrite (i64_id (nid * 32)) by lia. rewrite (i64_id (ms + _)) by lia. rewrite i64_id by lia.
  rewrite (proj2 (Z.ltb_ge _ _)) by (apply Z.div_le_lower_bound; lia).
  rewrite (proj2 (orb_false_iff _ _)) by (rewrite !Z.ltb_ge; lia).
  rewrite (proj2 (andb_false_iff _ _)) by (right; apply Z.ltb_ge; lia). done.
Qed.

(** The type of a regular file's mode as the reader sees it. *)
Lemma reg_mode_type m :
  is_u16 m -> Z.land m StatTypeMask = StatTypeReg ->
  FileMode_Type (EroFSModeToGoFileMode m) = 0 /\ Z.land (EroFSModeToGoFileMode m) ModeSymlink = 0.
Proof using Type.
  clear. intros Hm Ht.
  set (f m := negb (Z.land m StatTypeMask =? StatTypeReg) ||
    ((FileMode_Type (EroFSModeToGoFileMode m) =? 0) && (Z.land (EroFSModeToGoFileMode m) ModeSymlink =? 0))).
  assert (Hf : all_modes f = true) by (vm_compute; reflexivity).
  pose proof (all_modes_spec f Hf m Hm) as H. clear Hf. unfold f in H. rewrite Ht, Z.eqb_refl in H. cbn [negb orb] in H.
  apply andb_true_iff in H as [H1%Z.eqb_eq H2%Z.eqb_eq]. done.
Qed.

Lemma image_inode_ranges b format ii :
  image_inode img b format = Ok ii -> is_u16 (ii_mode ii) /\ 0 <= ii_size ii /\ is_u16 (ii_xcnt ii).
Proof using Type.
  unfold image_inode. intros E. destruct (_ =? 0).
  - destruct (InodeCompact_Unmarshal b) as [di| |] eqn:Ed; try done. apply Ok_inj in E as <-. cbn.
    apply InodeCompact_Unmarshal_ranges in Ed. unfold is_u32 in *. split_and!; (tauto || lia).
  - destruct (InodeExtended_Unmarshal b) as [di| |] eqn:Ed; try done. apply Ok_inj in E as <-. cbn.
    apply InodeExtended_Unmarshal_ranges in Ed. unfold is_u64 in *. split_and!; (tauto || lia).
Qed.

(** What the copy accepts of a regular file's inode, the reader accepts. *)
Lemma load_inode_readInfo cur name layout ii xattrs :
  is_u64 (q_nid cur) -> ii_typ ii = StatTypeReg -> load_inode img cur = Ok (layout, ii, xattrs) ->
  inode_addr img (q_nid cur) = ms + q_nid cur * 32 /\ total <= zlen c /\
  exists ino, readInfo_fresh img name (q_nid cur) 0 = Ok ino /\ same_core (q_nid cur) layout ii ino /\ inode_wf img ino /\
    ino_mode ino = EroFSModeToGoFileMode (ii_mode ii).
Proof using Hwf Hback Hmeta Hsize.
  intros Hn Ht E. set (nid := q_nid cur) in *. unfold load_inode in E. fold ms total at_ nid in E. step_in E. zbool.
  destruct (inode_addr_in nid Hn E0) as [Ha Hb]. rewrite Ha in E. set (a := ms + nid * 32) in *.
  destruct total_range as [T1 T2]. unfold is_u64 in Hn. step_in E. zbool. unfold SizeInodeCompact in E1.
  destruct (at_backed a ltac:(lia)) as [A|(A1 & A2 & A)]; rewrite A in E, E1; [by rewrite zlen_nil in E1|].
  rewrite zlen_sub, Z.max_r, Z.min_l in E1 by lia. step_in E. step_in E. destruct (check_inode _ _ _) as [[]| |] eqn:Ec; try done.
  destruct (if 0 <? ii_xattrSize _ then _ else _) as [xa| |]; try done. apply Ok_inj in E. injection E as <- <- <-.
  set (buf := sub c (Z.to_nat a) (Z.to_nat (total - a))) in *. set (format := get16 buf 0) in *.
  split; [done|]. split; [done|].
  assert (CN : checkNid img nid = Ok tt) by (apply checkNid_in; lia).
  unfold readInfo_fresh, readInfo_addr. rewrite CN. fold ms. rewrite u64_id by (unfold is_u64, SizeInodeCompact; lia).
  rewrite (i64_id (nid * _)) by (unfold SizeInodeCompact; lia). rewrite i64_id by (unfold SizeInodeCompact; lia).
  change (ms + nid * SizeInodeCompact) with a.
  assert (BODY : exists ino, readInfo_body img name nid 0 a = Ok ino /\ same_core nid (format_layout format) a0 ino /\
    ino_mode ino = EroFSModeToGoFileMode (ii_mode a0)).
  2:{ destruct BODY as (ino & B & Sc & Hm). exists ino. rewrite B. split; [done|]. split; [done|].
      split; [by apply (readInfo_body_wf img name nid 0 a ino CN B)|done]. }
  unfold readInfo_body, readInfo_decode. pose proof (readInfo_len_64 a) as L64. set (len := readInfo_len img a) in *.
  pose proof (backed_bytes a len ltac:(lia) ltac:(lia)) as B. pose proof (backed_err a len ltac:(lia) ltac:(lia)) as Er.
  destruct (ReadAt (img_meta img) a len) as [b err]. cbn in B, Er. subst b.
  replace (match err with Some e => _ | None => _ end) with (Ok tt : res unit) by (destruct Er as [-> | ->]; done).
  assert (Lb : zlen (sub c (Z.to_nat a) (Z.to_nat len)) = Z.min len (zlen c - a)) by (rewrite zlen_sub by lia; lia).
  rewrite (proj2 (Z.ltb_ge _ SizeInodeCompact)) by (unfold SizeInodeCompact; lia).
  replace (get16 (sub c _ (Z.to_nat len)) 0) with format by (unfold format, buf, get16; rewrite !sub_sub by lia; done).
  unfold check_inode in Ec. destruct (checkInodeFormat format) as [[]| |]; try done.
  destruct (checkChunkFormat _ _) as [[]| |] eqn:Ecf; try done.
  destruct (if 0 <? ii_xcnt a0 then _ else _) as [[]| |] eqn:Ex; try done.
  step_in Ec. step_in Ec. step_in Ec. step_in Ec. zbool. clear Ec.
  destruct (decode_agrees name nid buf (sub c (Z.to_nat a) (Z.to_nat len)) format a0) as (ino & D & X & Sc & Hm); [..|done|lia|].
  { apply compact_window; unfold zlen in *; lia. }
  { intros Hf. rewrite (proj2 (Z.eqb_neq _ _)) in E2 by done. cbn [negb andb] in E2. zbool. unfold SizeInodeExtended in E2.
    unfold buf in E2. rewrite zlen_sub in E2 by lia. split; [|rewrite Lb; lia]. apply extended_window; unfold zlen in *; lia. }
  rewrite D. destruct (image_inode_ranges _ _ _ E3) as (R1 & R2 & R3). rewrite (sc_size _ _ _ _ Sc). cbn [ii_size].
  rewrite (proj2 (Z.ltb_ge _ _)) by lia. destruct (reg_mode_type _ R1 Ht) as [Ty Sy]. rewrite Hm, Ty. cbn [negb Z.eqb].
  unfold finishInfo, assign_xsize.
  assert (FIN : (if 0 <? ii_xcnt a0 then let! xsize := xattrBodySize (ii_xcnt a0) in Ok (set_xsize xsize ino) else Ok ino) =
    Ok (set_xsize (ii_xattrSize a0) ino)).
  { unfold ii_xattrSize, xattrBodySize in *. destruct (0 <? ii_xcnt a0).
    - by destruct (ii_xcnt a0 =? 1).
    - f_equal. destruct ino. cbn in X. by subst. }
  rewrite FIN. cbn [ino_inodeLayout ino_inodeData ino_mode set_xsize]. rewrite (sc_layout _ _ _ _ Sc), (sc_data _ _ _ _ Sc), Hm, Sy.
  cbn [ii_idata]. rewrite Ecf. cbn [Z.eqb orb]. eexists. split; [reflexivity|]. split; [|done]. destruct Sc. cbn in *. by constructor.
Qed.

End Source.

(** ** Blocks, as the reader loads them *)

Section Blocks.
Context (img : image) (ino : inode).
Context (Hwf : image_wf img) (Hmap : mapping_ok img) (Hino : inode_wf img ino).
Let bs := 2 ^ img_bits img.
Context (b : Z) (Hb0 : 0 <= b) (Hb : b * bs < ino_size ino).

(** The bytes of the file in its block [b]. *)
Definition block_len (size : Z) : Z := Z.min bs (size - b * bs).

Lemma block_facts :
  512 <= bs <= 65536 /\ (b * bs) / bs = b /\ (b * bs) mod bs = 0 /\
  b < calculateBlocks (img_bits img) (ino_size ino) /\
  (if b =? calculateBlocks (img_bits img) (ino_size ino) - 1 then ino_size ino - b * bs else bs) = block_len (ino_size ino) /\
  0 < block_len (ino_size ino) <= bs.
Proof using Hwf Hb0 Hb.
  pose proof (pow2_bits _ (wf_bits _ Hwf)) as R. fold bs in R. assert (P : 0 <= b * bs) by nia.
  destruct (span_facts img ino Hwf (b * bs) ltac:(lia)) as (F1 & F2 & F3 & F4 & F5 & F6 & F7 & F8).
  fold bs in F1, F2, F3, F4, F5, F6, F7, F8. unfold block_span in F5. fold bs in F5.
  rewrite Z.div_mul in * by lia. rewrite Z.mod_mul in * by lia. unfold block_len. rewrite !Z.sub_0_r in *.
  split; [done|]. split; [done|]. split; [done|]. split; [lia|]. split; [exact F5|]. lia.
Qed.

(** A block of a flat run that [locateRange] placed. *)
Lemma loadBlock_run n pa dev off :
  0 < n -> b * bs < n -> block_len n = block_len (ino_size ino) -> blockAddr img (startBlock ino) = Ok pa -> locateRange img pa n = Ok (dev, off) ->
  (let! pa := blockAddr img (u64 (startBlock ino + b)) in loadBlock_read img pa 0 (block_len (ino_size ino)) true) =
  (let! r := deviceReader img dev in read_exact r (off + b * bs) (block_len (ino_size ino))).
Proof using Hwf Hmap Hino Hb0 Hb.
  intros Hn Hbn El Ea E. destruct block_facts as (F1 & _ & _ & _ & _ & F6).
  pose proof (startBlock_range img ino Hino) as Hsb.
  destruct (blockAddr_eq img (startBlock ino) pa Hwf ltac:(lia) Ea) as [Epa Hpa]. fold bs in Epa, Hpa.
  assert (Hmax : pa + n <= MaxInt64) by (unfold locateRange in E; steps_in E; lia).
  pose proof (locateRange_shift img pa n dev off (b * bs) (block_len n) Hwf Hmap Hn E ltac:(nia)
    ltac:(rewrite El; lia) ltac:(unfold block_len; lia)) as Hs. rewrite El in Hs.
  assert (block_len (ino_size ino) <= n - b * bs) by (rewrite <- El; unfold block_len; lia). unfold MaxInt64 in *.
  rewrite u64_id by (unfold is_u64; nia). rewrite blockAddr_ok; [|done|lia|unfold MaxInt64; fold bs; nia]. fold bs.
  unfold loadBlock_read. rewrite shiftl1 by (pose proof (wf_bits _ Hwf); lia). fold bs.
  replace (bad_bounds _ _ _) with false by (unfold bad_bounds; symmetry; rewrite !orb_false_iff, !Z.ltb_ge, Z.leb_gt; lia).
  rewrite Z.add_0_r, Z.sub_0_r. rewrite i64_id by nia. replace ((startBlock ino + b) * bs) with (pa + b * bs) by lia. by rewrite Hs.
Qed.

Lemma loadBlock_plain_reads pa dev off :
  ino_inodeLayout ino = LayoutFlatPlain -> nullAddress ino = false ->
  blockAddr img (startBlock ino) = Ok pa -> locateRange img pa (ino_size ino) = Ok (dev, off) ->
  loadBlock img ino (b * bs) = (let! r := deviceReader img dev in read_exact r (off + b * bs) (block_len (ino_size ino))).
Proof using Hwf Hmap Hino Hb0 Hb.
  intros Hl Hnull Ea E. destruct block_facts as (F1 & F2 & F3 & F4 & F5 & F6). unfold loadBlock.
  rewrite Z.shiftr_div_pow2 by (pose proof (wf_bits _ Hwf); lia). fold bs. rewrite F2, Hl.
  rewrite (proj2 (Z.leb_gt _ _)) by lia. cbn [Z.eqb LayoutFlatPlain]. unfold loadBlock_plain. rewrite Hnull.
  rewrite shiftl1 by (pose proof (wf_bits _ Hwf); lia). fold bs. rewrite Z.rem_mod_nonneg, F3, F5 by nia.
  apply (loadBlock_run (ino_size ino) pa); auto; nia.
Qed.

Lemma loadBlock_null_reads :
  ino_inodeLayout ino = LayoutFlatPlain -> nullAddress ino = true ->
  loadBlock img ino (b * bs) = Ok (zeros (Z.to_nat (block_len (ino_size ino)))).
Proof using Hwf Hb0 Hb.
  intros Hl Hnull. destruct block_facts as (F1 & F2 & F3 & F4 & F5 & F6). unfold loadBlock.
  rewrite Z.shiftr_div_pow2 by (pose proof (wf_bits _ Hwf); lia). fold bs. rewrite F2, Hl.
  rewrite (proj2 (Z.leb_gt _ _)) by lia. cbn [Z.eqb LayoutFlatPlain]. unfold loadBlock_plain. rewrite Hnull.
  rewrite shiftl1 by (pose proof (wf_bits _ Hwf); lia). fold bs. rewrite Z.rem_mod_nonneg, F3, F5 by nia.
  replace (bad_bounds _ _ _) with false by (unfold bad_bounds; symmetry; rewrite !orb_false_iff, !Z.ltb_ge, Z.leb_gt; lia).
  unfold holeBlock. by rewrite Z.sub_0_r.
Qed.

Lemma loadBlock_inline_whole n pa dev off :
  ino_inodeLayout ino = LayoutFlatInline -> n = (ino_size ino - 1) / bs * bs -> b * bs < n ->
  blockAddr img (startBlock ino) = Ok pa -> locateRange img pa n = Ok (dev, off) ->
  loadBlock img ino (b * bs) = (let! r := deviceReader img dev in read_exact r (off + b * bs) (block_len (ino_size ino))).
Proof using Hwf Hmap Hino Hb0 Hb.
  intros Hl Hn Hbn Ea E. destruct block_facts as (F1 & F2 & F3 & F4 & F5 & F6). unfold loadBlock.
  rewrite Z.shiftr_div_pow2 by (pose proof (wf_bits _ Hwf); lia). fold bs. rewrite F2, Hl.
  rewrite (proj2 (Z.leb_gt _ _)) by lia. cbn [Z.eqb LayoutFlatPlain LayoutFlatInline Pos.eqb]. unfold loadBlock_inline.
  rewrite shiftl1 by (pose proof (wf_bits _ Hwf); lia). fold bs. rewrite Z.rem_mod_nonneg, F3 by nia.
  pose proof (Z.mul_div_le (ino_size ino - 1) bs ltac:(lia)) as Hd.
  set (q := (ino_size ino - 1) / bs) in *. assert (Hq : b < q) by nia. assert (Hq' : b * bs + bs <= n) by nia.
  assert (L1 : block_len (ino_size ino) = bs) by (unfold block_len; lia). assert (L2 : block_len n = bs) by (unfold block_len; lia).
  destruct (Z.eqb_spec b (calculateBlocks (img_bits img) (ino_size ino) - 1)) as [Eb|_].
  { exfalso. rewrite L1 in F5. lia. }
  pose proof (loadBlock_run n pa dev off ltac:(nia) Hbn ltac:(congruence) Ea E) as R. by rewrite L1 in *.
Qed.

(** The metadata is served from fixed bytes, a full read without an error. *)
Context (c : bytes) (Hback : Backed (img_meta img) c).
Context (Hfull : forall off n, 0 <= off -> 0 < n ->
  zlen (ReadAt (img_meta img) off n).1 = n -> (ReadAt (img_meta img) off n).2 = None).

Lemma read_inside off n :
  0 <= off -> 0 < n -> off + n <= zlen c ->
  ReadAt (img_meta img) off n = (sub c (Z.to_nat off) (Z.to_nat n), None) /\ zlen (sub c (Z.to_nat off) (Z.to_nat n)) = n.
Proof using Hback Hfull.
  clear Hb Hb0. intros Ho Hn Hl. pose proof (backed_bytes off n Ho ltac:(lia)) as B. pose proof (Hfull off n Ho Hn) as F.
  assert (L : zlen (sub c (Z.to_nat off) (Z.to_nat n)) = n) by (rewrite zlen_sub by lia; lia).
  destruct (ReadAt (img_meta img) off n) as [x e]. cbn in B, F. subst x. by rewrite (F L).
Qed.

Lemma loadBlock_inline_tail T :
  ino_inodeLayout ino = LayoutFlatInline -> ino_size ino <= b * bs + bs ->
  T = i64 (i64 (metaStartPos img + i64 (u64 (ino_nid ino * SizeInodeCompact))) + flatDataOffset ino) ->
  0 <= T -> T mod bs + (ino_size ino - b * bs) <= bs -> T + (ino_size ino - b * bs) <= img_size img ->
  T + (ino_size ino - b * bs) <= zlen c ->
  loadBlock img ino (b * bs) = Ok (sub c (Z.to_nat T) (Z.to_nat (ino_size ino - b * bs))).
Proof using Hwf Hb0 Hb Hback Hfull.
  intros Hl Hlast ET HT Hfit Himg Hc. destruct block_facts as (F1 & F2 & F3 & F4 & F5 & F6).
  pose proof (wf_bits _ Hwf) as Hbits. set (n := ino_size ino - b * bs) in *.
  assert (Eb : b = calculateBlocks (img_bits img) (ino_size ino) - 1).
  { destruct (calculateBlocks_ceil (img_bits img) (ino_size ino)) as [Hx|Hx]; [lia|nia| |nia]. fold bs in Hx. nia. }
  unfold loadBlock. rewrite Z.shiftr_div_pow2 by lia. fold bs. rewrite F2, Hl.
  rewrite (proj2 (Z.leb_gt _ _)) by lia. cbn [Z.eqb LayoutFlatPlain LayoutFlatInline Pos.eqb]. unfold loadBlock_inline.
  rewrite <- Eb, Z.eqb_refl. rewrite shiftl1 by lia. fold bs. rewrite <- ET. fold n.
  pose proof (land_pow2_mask T (img_bits img) ltac:(lia)) as L1. pose proof (land_lnot_pow2 T (img_bits img) ltac:(lia)) as L2.
  fold bs in L1, L2. rewrite L1, L2. pose proof (Z.mod_pos_bound T bs ltac:(lia)). pose proof (Z.mod_le T bs ltac:(lia) ltac:(lia)).
  rewrite (proj2 (Z.ltb_ge bs _)) by lia. rewrite Z.shiftl_mul_pow2 by lia. fold bs. rewrite Z.sub_diag, Z.add_0_r.
  unfold loadBlock_read. rewrite shiftl1 by lia. fold bs.
  replace (bad_bounds _ _ _) with false by (unfold bad_bounds; symmetry; rewrite !orb_false_iff, !Z.ltb_ge, Z.leb_gt; unfold n; lia).
  replace (T - T mod bs + T mod bs) with T by lia. replace (n + T mod bs - T mod bs) with n by lia.
  pose proof (wf_size _ Hwf). unfold MaxInt64 in *. rewrite i64_id by (unfold n in *; lia).
  rewrite (proj2 (checkImageRange_spec img T n Hwf)) by (unfold MaxInt64, n in *; lia).
  unfold read_exact. destruct (read_inside T n) as [-> ->]; [lia|unfold n; lia|lia|]. by rewrite Z.eqb_refl.
Qed.

(** What a target stands for: zeros, or the block on the device. *)
Definition read_target (t : option (Z * Z)) (n : Z) : res bytes :=
  match t with
  | None => Ok (zeros (Z.to_nat n))
  | Some (dev, blk) => let! r := deviceReader img dev in read_exact r (blk * bs) n
  end.

Section Chunked.
Context (fmt base m : Z) (Hlayout : ino_inodeLayout ino = LayoutChunkBased).
Context (Hfmt : fmt = u16 (ino_inodeData ino)).
Context (Hand : andnot fmt (Z.lor LayoutChunkFormatBits LayoutChunkFormatIndexes) = 0).
Context (Hbase : base = chunk_base img ino fmt) (Hbase0 : 0 <= base).

Let unit_ := if chunk_indexed fmt then 8 else 4.
Let cb := chunk_bits img fmt.
Let bpc := 2 ^ (cb - img_bits img).
Let nchunks := Z.shiftr (ino_size ino - 1) cb + 1.
Let data := sub c (Z.to_nat base) (Z.to_nat m).
Context (Hm : nchunks * unit_ <= m) (Hc : base + nchunks * unit_ <= zlen c) (Hmax : base + nchunks * unit_ <= MaxInt64).

Lemma chunk_facts : exists k, 0 <= k <= 31 /\ cb = img_bits img + k /\ bpc = 2 ^ k /\ 0 < bpc <= 2 ^ 31 /\ 2 ^ cb = bpc * bs /\
  nchunks = (ino_size ino - 1) / (bpc * bs) + 1 /\ (b * bs) / (bpc * bs) = b / bpc /\ 0 <= b / bpc < nchunks.
Proof using Hwf Hb0 Hb Hfmt.
  clear Hm Hc Hmax Hand Hbase Hbase0. pose proof (wf_bits _ Hwf) as Hbits. destruct block_facts as (F1 & _).
  destruct (chunk_bits_eq img fmt Hwf ltac:(rewrite Hfmt; apply Z.mod_pos_bound; lia)) as (k & Hk & Ecb). fold cb in Ecb.
  exists k. assert (Eb : bpc = 2 ^ k) by (unfold bpc; f_equal; lia).
  assert (R : 0 < bpc <= 2 ^ 31) by (rewrite Eb; split; [lia|apply Z.pow_le_mono_r; lia]).
  assert (Ep : 2 ^ cb = bpc * bs) by (rewrite Ecb, Eb, Z.pow_add_r by lia; unfold bs; lia).
  assert (En : nchunks = (ino_size ino - 1) / (bpc * bs) + 1) by (unfold nchunks; rewrite Z.shiftr_div_pow2 by lia; by rewrite Ep).
  assert (Ed : (b * bs) / (bpc * bs) = b / bpc) by (apply Z.div_mul_cancel_r; lia).
  split_and!; try done; try lia; [apply Z.div_pos; lia|]. rewrite En, <- Ed.
  pose proof (Z.div_le_mono (b * bs) (ino_size ino - 1) (bpc * bs) ltac:(nia) ltac:(lia)). lia.
Qed.

(** The entry of the block's chunk, as the reader reads it. *)
Lemma chunk_entry_read :
  exists entry, ReadAt (img_meta img) (base + b / bpc * unit_) unit_ = (entry, None) /\ zlen entry = unit_ /\
    chunk_entry img unit_ entry =
      match entry_of (chunk_indexed fmt) (img_deviceIDMask img) data (b / bpc) with
      | None => Ok (-1, 0)
      | Some (d, blk) => Ok (blk * bs, d)
      end.
Proof using Hwf Hb0 Hb Hback Hfull Hfmt Hbase0 Hm Hc.
  clear Hmax Hand Hbase.
  destruct chunk_facts as (k & _ & _ & _ & _ & _ & _ & _ & Hcn). set (cn := b / bpc) in *.
  assert (Hu : unit_ = 8 \/ unit_ = 4) by (unfold unit_; destruct (chunk_indexed fmt); auto).
  assert (Hin : cn * unit_ + unit_ <= nchunks * unit_) by nia.
  destruct (read_inside (base + cn * unit_) unit_) as [R L]; [nia|lia|lia|]. eexists. split; [exact R|]. split; [exact L|].
  assert (W : forall o k, (o + k <= Z.to_nat unit_)%nat ->
    sub (sub c (Z.to_nat (base + cn * unit_)) (Z.to_nat unit_)) o k = sub data (Z.to_nat (cn * unit_) + o) k).
  { intros o k' Ho. unfold data. rewrite !sub_sub by lia. f_equal. nia. }
  unfold chunk_entry, entry_of, unit_ in *. destruct (chunk_indexed fmt); cbn [Z.eqb Pos.eqb].
  - unfold get32, get16, SizeChunkIndex. rewrite !W by lia.
    replace (Z.to_nat (cn * 8 + 4)) with (Z.to_nat (cn * 8) + 4)%nat by lia.
    replace (Z.to_nat (cn * 8 + 2)) with (Z.to_nat (cn * 8) + 2)%nat by lia.
    fold (get32 data (Z.to_nat (cn * 8) + 4)). unfold MaxUint32. destruct (_ =? _); [done|].
    by rewrite chunkAddr_u32 by (done || apply get32_range).
  - unfold get32. rewrite !W by lia. rewrite Nat.add_0_r. fold (get32 data (Z.to_nat (cn * 4))).
    change NullAddr with (2 ^ 32 - 1). destruct (_ =? _); [done|]. by rewrite chunkAddr_u32 by (done || apply get32_range).
Qed.

Lemma loadBlock_chunk_reads :
  entry_placed (locateChunk img) (chunk_indexed fmt) (img_deviceIDMask img) (ino_size ino) cb data (b / bpc) ->
  loadBlock img ino (b * bs) =
  read_target (file_target (locateChunk img) (chunk_indexed fmt) (img_deviceIDMask img) (ino_size ino) cb bpc data b)
    (block_len (ino_size ino)).
Proof using Hwf Hmap Hino Hb0 Hb Hback Hfull Hlayout Hfmt Hand Hbase Hbase0 Hm Hc Hmax.
  intros HP. destruct chunk_facts as (k & Hk & Ecb & Ebpc & Rb & Ecs & En & Ed & Hcn).
  destruct chunk_entry_read as (entry & R & L & CE). set (cn := b / bpc) in *.
  destruct block_facts as (F1 & F2 & F3 & F4 & F5 & F6). pose proof (wf_bits _ Hwf) as Hbits.
  assert (Hu : unit_ = 8 \/ unit_ = 4) by (unfold unit_; destruct (chunk_indexed fmt); auto).
  unfold loadBlock. rewrite Z.shiftr_div_pow2 by lia. fold bs. rewrite F2, Hlayout.
  rewrite (proj2 (Z.leb_gt _ b)) by lia. cbn [Z.eqb LayoutFlatPlain LayoutFlatInline LayoutChunkBased Pos.eqb].
  unfold loadBlock_chunk. rewrite <- Hfmt, (chunk_format_48 fmt), Hand by (done || (rewrite Hfmt; apply Z.mod_pos_bound; lia)).
  cbn [negb Z.eqb]. fold cb nchunks. rewrite Z.shiftr_div_pow2, Ecs, Ed by lia. fold cn.
  rewrite (proj2 (Z.leb_gt nchunks cn)) by lia. fold unit_. rewrite <- Hbase.
  unfold MaxInt64 in Hmax. rewrite (i64_id (base + _)) by nia. rewrite R, L, Z.eqb_refl, CE. cbn [negb].
  rewrite shiftl1 by lia. fold bs. rewrite Z.rem_mod_nonneg, F3, F5 by nia.
  assert (BB : bad_bounds bs 0 (block_len (ino_size ino)) = false)
    by (unfold bad_bounds; rewrite !orb_false_iff, !Z.ltb_ge, Z.leb_gt; lia).
  rewrite BB. unfold file_target, entry_target, entry_placed in *. fold cn in HP |- *.
  destruct (entry_of _ _ _ cn) as [[d blk]|] eqn:Ee; cbn [read_target].
  2:{ cbn [Z.eqb]. unfold holeBlock. by rewrite Z.sub_0_r. }
  destruct (locateChunk img d blk _) as [[dev p]| |] eqn:El; try done. clear HP.
  assert (Hd : 0 <= d /\ is_u32 blk).
  { unfold entry_of in Ee. destruct (chunk_indexed fmt); (destruct (_ =? _); [done|]); injection Ee as <- <-;
      split; try apply get32_range; [apply Z.land_nonneg; left; apply get16_range|lia]. }
  destruct (locateChunk_inv img Hwf d blk _ dev p (proj1 Hd) (proj2 Hd) El) as (Hu16 & Hp & Hloc & Hbd). fold bs in Hloc, Hbd.
  destruct Hd as [Hd Hblk]. unfold is_u32, is_u16 in *. cbn [read_target].
  pose proof (Z.div_mod b bpc ltac:(lia)) as Dm. pose proof (Z.mod_pos_bound b bpc ltac:(lia)) as Mb. fold cn in Dm.
  set (j := b mod bpc) in *. pose proof (wf_isize _ _ Hino) as Hsz. unfold MaxInt64 in Hsz.
  set (cs := bpc * bs) in *. assert (Rcs : bs <= cs <= 2 ^ 47) by (unfold cs; clear -F1 Rb; nia).
  assert (Eb : b * bs = cn * cs + j * bs) by (unfold cs; rewrite Dm at 1; ring).
  assert (Hj : 0 <= j * bs <= cs - bs) by (unfold cs; clear -F1 Rb Mb; nia).
  assert (Hcs : 0 <= cn * cs) by (clear -Hcn Rcs F1; nia). assert (Hblk' : 0 <= blk * bs < 2 ^ 48) by (clear -Hblk F1; nia).
  assert (CB : chunkBytes cn cb (ino_size ino) = Z.min cs (ino_size ino - cn * cs)).
  { unfold chunkBytes. rewrite !Z.shiftl_mul_pow2, Ecs by lia. rewrite Z.mul_1_l.
    rewrite (u64_id cs) by (unfold is_u64; lia). rewrite (u64_id (cn * _)) by (unfold is_u64; lia).
    rewrite (u64_id (_ - _)) by (unfold is_u64; lia). apply i64_id. lia. }
  rewrite (proj2 (Z.eqb_neq (blk * bs) (-1))) by lia. rewrite !Z.shiftl_mul_pow2, Ecs by lia. fold bs.
  replace (if 0 <? b * bs then _ else _) with (blk * bs + j * bs).
  2:{ destruct (Z.ltb_spec 0 (b * bs)); [rewrite i64_id by lia; lia|]. lia. }
  assert (Hk2 : j * bs + block_len (ino_size ino) <= chunkBytes cn cb (ino_size ino)) by (rewrite CB; unfold block_len; lia).
  rewrite (locate_within img d (blk * bs) dev (p * bs) (chunkBytes cn cb (ino_size ino)) (j * bs)); auto; [|lia].
  pose proof (boundOnDevice_range _ _ _ _ Hbd) as Hbr. unfold MaxInt64 in Hbr. rewrite Z.add_0_r, Z.sub_0_r, i64_id by lia.
  rewrite (boundOnDevice_sub img dev (p * bs) (chunkBytes cn cb (ino_size ino)) (j * bs)) by (done || lia).
  destruct (deviceReader img dev); try done. f_equal. lia.
Qed.

End Chunked.
End Blocks.

(** ** The copy's chunks and tail *)

Section Copied.
Context (img : image) (c : bytes) (nid layout : Z) (ii : imgInode) (ino : inode).
Context (Hwf : image_wf img) (Hmap : mapping_ok img) (Hback : Backed (img_meta img) c).
Context (Hfull : forall off n, 0 <= off -> 0 < n ->
  zlen (ReadAt (img_meta img) off n).1 = n -> (ReadAt (img_meta img) off n).2 = None).

Let ms := metaStartPos img.
Let total := i64 (Z.shiftl (sb_Blocks (img_sb img)) (img_bits img)).
Let bs := 2 ^ img_bits img.

Context (Hmeta : ms < total) (Hsize : total <= img_size img) (Hc : total <= zlen c).
Context (Hnid : is_u64 nid) (Haddr : inode_addr img nid = ms + nid * 32) (Hroom : nid * 32 <= total - ms).
Context (Hcore : same_core nid layout ii ino) (Hino : inode_wf img ino).

(** Where both look for what follows the inode and its attributes. *)
Lemma trailing_agrees :
  trailing_addr img nid ii = i64 (i64 (metaStartPos img + i64 (u64 (ino_nid ino * SizeInodeCompact))) + flatDataOffset ino) /\
  ms <= trailing_addr img nid ii < 2 ^ 50.
Proof using Hwf Hmeta Hnid Haddr Hroom Hcore Hino.
  destruct (total_range img Hwf) as [T1 T2]. fold ms total in T1, T2. unfold is_u64 in Hnid.
  unfold trailing_addr, flatDataOffset. rewrite Haddr, (sc_nid _ _ _ _ Hcore), (sc_icsize _ _ _ _ Hcore), (sc_xsize _ _ _ _ Hcore).
  pose proof (wf_icsize _ _ Hino) as I1. pose proof (wf_xsize _ _ Hino) as I2.
  rewrite (sc_icsize _ _ _ _ Hcore) in I1. rewrite (sc_xsize _ _ _ _ Hcore) in I2. unfold SizeInodeCompact. fold ms.
  rewrite u64_id by (unfold is_u64; lia). rewrite (i64_id (nid * 32)) by lia. rewrite (i64_id (ms + _)) by lia.
  rewrite i64_id by lia. lia.
Qed.

Lemma align8_range v : 0 <= v -> v <= align8 v < v + 8.
Proof using Type.
  clear. intros Hv. unfold align8. rewrite Z.rem_mod_nonneg by lia. destruct (Z.eqb_spec (v mod 8) 0); cbn [negb]; [lia|].
  pose proof (land_lnot_pow2 (v + 7) 3 ltac:(lia)) as L. change (2 ^ 3 - 1) with 7 in L. change (2 ^ 3) with 8 in L. rewrite L.
  pose proof (Z.mod_pos_bound (v + 7) 8 ltac:(lia)). lia.
Qed.

Lemma block_map_format fmt :
  is_u16 fmt -> andnot fmt LayoutChunkFormatBits = 0 ->
  andnot fmt (Z.lor LayoutChunkFormatBits LayoutChunkFormatIndexes) = 0.
Proof using Type.
  clear. intros Hf H.
  set (g f := negb (andnot f LayoutChunkFormatBits =? 0) ||
    (andnot f (Z.lor LayoutChunkFormatBits LayoutChunkFormatIndexes) =? 0)).
  assert (Hg : all_modes g = true) by (vm_compute; reflexivity).
  pose proof (all_modes_spec g Hg fmt Hf) as Hx. clear Hg. unfold g in Hx. rewrite H in Hx. by apply Z.eqb_eq.
Qed.

(** The size of the map a file needs. *)
Lemma chunkMapBytes_need fmt size unit_ need :
  is_u16 fmt -> 0 < size <= MaxInt64 -> 0 < unit_ ->
  chunkMapBytes fmt size (img_bits img) unit_ = Ok need ->
  need = (Z.shiftr (size - 1) (chunk_bits img fmt) + 1) * unit_ /\ 0 < need <= 2 ^ 26.
Proof using Hwf.
  clear Hsize Hc Hroom. intros Hf Hs Hu E. unfold chunkMapBytes in E. fold (chunk_bits img fmt) in E.
  destruct (chunk_bits_eq img fmt Hwf Hf) as (k & Hk & Ecb). pose proof (wf_bits _ Hwf) as Hb. rewrite Ecb in *. step_in E. clear E0.
  rewrite shiftl1 in E by lia. set (cs := 2 ^ (img_bits img + k)) in *.
  assert (Rcs : 2 ^ 9 <= cs <= 2 ^ 47) by (unfold cs; split; apply Z.pow_le_mono_r; lia).
  rewrite u64_id in E by (unfold is_u64; lia). rewrite Z.shiftr_div_pow2 by lia. fold cs.
  pose proof (Z.div_mod size cs ltac:(lia)) as D1. pose proof (Z.mod_pos_bound size cs ltac:(lia)) as M1.
  pose proof (Z.div_mod (size - 1) cs ltac:(lia)) as D2. pose proof (Z.mod_pos_bound (size - 1) cs ltac:(lia)) as M2.
  set (n := if negb (size mod cs =? 0) then size / cs + 1 else size / cs) in *.
  assert (En : n = (size - 1) / cs + 1).
  { unfold n. destruct (Z.eqb_spec (size mod cs) 0) as [E0|E0]; cbn [negb]; nia. }
  step_in E. zbool. apply Ok_inj in E as <-. rewrite En in *. split; [done|].
  assert (0 <= (size - 1) / cs) by (apply Z.div_pos; lia). change maxChunkIndexBytes with (2 ^ 26) in *.
  pose proof (Z.mul_div_le (2 ^ 26) unit_ Hu). nia.
Qed.

(** The blocks of [ino] below [n] are where [chunks] put them. *)
Definition chunks_read (chunks : list Chunk) (n : Z) : Prop :=
  exists N f, maps chunks N f /\ forall b, 0 <= b -> b * bs < n ->
    b < N /\ loadBlock img ino (b * bs) = read_target img (f b) (block_len img b (ino_size ino)).

(** The map of a chunk-based file, indexed or not: a run per entry, each
    placed by [locateChunk]. *)
Lemma map_parsed fmt data size chunks :
  is_u16 fmt -> 0 < size <= MaxInt64 ->
  (if chunk_indexed fmt : bool then parseChunks data fmt size (img_bits img) (img_deviceIDMask img) (locateChunk img)
   else parseBlockMap data fmt size (img_bits img) (locateChunk img)) = Ok chunks ->
  let cb := chunk_bits img fmt in
  let bpc := 2 ^ (cb - img_bits img) in
  let nch := Z.shiftr (size - 1) cb + 1 in
  andnot fmt (Z.lor LayoutChunkFormatBits LayoutChunkFormatIndexes) = 0 /\
  maps chunks (nch * bpc) (file_target (locateChunk img) (chunk_indexed fmt) (img_deviceIDMask img) size cb bpc data) /\
  forall i, 0 <= i < nch -> entry_placed (locateChunk img) (chunk_indexed fmt) (img_deviceIDMask img) size cb data i.
Proof using Hwf.
  clear Hmeta Hsize Hc Hroom. intros Hf Hsz E. destruct (chunk_bits_eq img fmt Hwf Hf) as (k & Hk & Ecb). pose proof (wf_bits _ Hwf) as Hb. cbv zeta.
  set (cb := chunk_bits img fmt) in *. set (bpc := 2 ^ (cb - img_bits img)).
  assert (Rb : 0 < bpc <= 2 ^ 31) by (unfold bpc; rewrite Ecb; split; [apply Z.pow_pos_nonneg; lia|apply Z.pow_le_mono_r; lia]).
  set (nch := Z.shiftr (size - 1) cb + 1) in *.
  assert (Hn0 : 0 <= nch) by (unfold nch; pose proof (Z.shiftr_nonneg (size - 1) cb); lia).
  pose proof (locateChunk_place img Hwf) as PL.
  destruct (chunk_indexed fmt) eqn:Hx.
  - unfold parseChunks in E. fold (chunk_bits img fmt) cb in E. rewrite u64_id in E by (unfold is_u64, MaxInt64 in *; lia). fold nch in E.
    rewrite shiftl1 in E by lia. fold bpc in E. repeat step_in E. zbool. split; [done|].
    pose proof (parse_chunks_maps (locateChunk img) true (img_deviceIDMask img) size cb bpc data Rb PL _ 0 [] chunks
      eq_refl ltac:(lia) ltac:(lia) (maps_nil _) E) as [M P].
    rewrite Z.add_0_l, Z2Nat.id in * by lia. split; [done|]. intros i Hi. apply P. lia.
  - unfold parseBlockMap in E. fold (chunk_bits img fmt) cb in E. rewrite u64_id in E by (unfold is_u64, MaxInt64 in *; lia). fold nch in E.
    rewrite shiftl1 in E by lia. rewrite (u64_id (2 ^ _)) in E by (fold bpc; unfold is_u64; lia). fold bpc in E.
    repeat step_in E. zbool. split; [by apply block_map_format|].
    pose proof (parse_block_map_maps (locateChunk img) false (img_deviceIDMask img) size cb bpc data Rb PL _ 0 [] chunks
      eq_refl ltac:(lia) (maps_nil _) E) as [M P].
    rewrite Z.add_0_l, Z2Nat.id in * by lia. split; [done|]. intros i Hi. apply P. lia.
Qed.

Lemma chunk_data_reads chunks :
  layout = LayoutChunkBased -> 0 < ii_size ii -> chunk_data img nid ii = Ok chunks -> chunks_read chunks (ino_size ino).
Proof using Hwf Hmap Hback Hfull Hmeta Hsize Hc Hnid Haddr Hroom Hcore Hino.
  intros Hl Hpos E. destruct (total_range img Hwf) as [T1 T2]. fold ms total in T1, T2.
  destruct trailing_agrees as [TA [TB TC]]. unfold chunk_data in E. fold ms total in E. rewrite <- (sc_size _ _ _ _ Hcore) in E, Hpos.
  set (fmt := u16 (ii_idata ii)) in *. fold (chunk_indexed fmt) in E. set (ta := trailing_addr img nid ii) in *.
  assert (Hf : is_u16 fmt) by (apply Z.mod_pos_bound; lia).
  pose proof (wf_isize _ _ Hino) as Hsz.
  set (unit_ := if chunk_indexed fmt then SizeChunkIndex else 4) in E.
  assert (Hu : unit_ = (if chunk_indexed fmt then 8 else 4)) by done. assert (Hu' : 4 <= unit_ <= 8) by (rewrite Hu; by destruct (chunk_indexed fmt)).
  set (ca := if chunk_indexed fmt && _ then _ else ta) in E.
  assert (Hca : ca = chunk_base img ino fmt /\ ta <= ca < ta + 8).
  { unfold chunk_base. rewrite <- TA. fold ta. pose proof (align8_range ta ltac:(lia)) as Al. unfold ca, align8 in *.
    destruct (chunk_indexed fmt); cbn [andb]; [done|lia]. }
  destruct Hca as [Ebase Hca].
  destruct (chunkMapBytes fmt _ _ unit_) as [need| |] eqn:En; try done.
  apply chunkMapBytes_need in En as [En Hneed]; [|done|lia|lia].
  step_in E. zbool. destruct (at_backed img c Hwf Hback ca ltac:(fold ms; lia)) as [A|(A1 & A2 & A)]; fold ms total in A; rewrite A in E, E0;
    [rewrite zlen_nil in E0; lia|]. fold total in A1. rewrite zlen_sub, Z.max_r, Z.min_l in E0 by lia.
  set (data := sub c (Z.to_nat ca) (Z.to_nat (total - ca))) in *.
  destruct (chunk_bits_eq img fmt Hwf Hf) as (k & Hk & Ecb). pose proof (wf_bits _ Hwf) as Hb.
  set (cb := chunk_bits img fmt) in *. set (bpc := 2 ^ (cb - img_bits img)).
  assert (Rb : 0 < bpc <= 2 ^ 31) by (unfold bpc; rewrite Ecb; split; [apply Z.pow_pos_nonneg; lia|apply Z.pow_le_mono_r; lia]).
  set (nch := Z.shiftr (ino_size ino - 1) cb + 1) in *.
  assert (Hn0 : 0 <= nch) by (unfold nch; pose proof (Z.shiftr_nonneg (ino_size ino - 1) cb); lia).
  pose proof (map_parsed fmt data (ino_size ino) chunks Hf ltac:(lia) E) as PARSED. cbv zeta in PARSED. fold cb bpc nch in PARSED.
  destruct PARSED as (Hand & M & P). eexists _, _. split; [exact M|]. intros b Hb0 Hbs.
  assert (Hf' : fmt = u16 (ino_inodeData ino)) by exact (f_equal u16 (eq_sym (sc_data _ _ _ _ Hcore))).
  destruct (chunk_facts img ino Hwf b Hb0 Hbs fmt Hf') as (k' & _ & _ & _ & _ & _ & _ & _ & Hcn). fold cb in Hcn. fold bpc in Hcn. fold nch in Hcn.
  split.
  { clear -Hcn Rb. pose proof (Z.div_mod b bpc ltac:(lia)). pose proof (Z.mod_pos_bound b bpc ltac:(lia)). nia. }
  assert (HL : ino_inodeLayout ino = LayoutChunkBased) by exact (eq_trans (sc_layout _ _ _ _ Hcore) Hl).
  rewrite Hu in En. subst need.
  assert (H1 : nch * (if chunk_indexed fmt then 8 else 4) <= total - ca) by lia.
  assert (H2 : ca + nch * (if chunk_indexed fmt then 8 else 4) <= zlen c) by lia.
  assert (H3 : ca + nch * (if chunk_indexed fmt then 8 else 4) <= MaxInt64) by (unfold MaxInt64; lia).
  assert (H4 : 0 <= ca) by lia.
  exact (loadBlock_chunk_reads img ino Hwf Hmap Hino b Hb0 Hbs c Hback Hfull fmt ca (total - ca) HL Hf' Hand Ebase H4 H1 H2 H3 (P _ Hcn)).
Qed.

(** The last block of a flat-inline file. *)
Lemma inline_tail_eq : 0 < ino_size ino ->
  inline_tail img layout (ii_size ii) = if layout =? LayoutFlatInline then ino_size ino - (ino_size ino - 1) / bs * bs else 0.
Proof using Hwf Hcore.
  intros Hs. unfold inline_tail. rewrite <- (sc_size _ _ _ _ Hcore). rewrite (proj2 (Z.ltb_lt _ _) Hs), andb_true_r.
  pose proof (pow2_bits _ (wf_bits _ Hwf)). rewrite shiftl1 by (pose proof (wf_bits _ Hwf); lia). fold bs.
  rewrite Z.quot_div_nonneg by (unfold bs; lia). done.
Qed.

(** The blocks of a file of [n] bytes, as the copy counts them. *)
Lemma whole_blocks n : 0 <= n <= MaxInt64 ->
  let whole := u64 (Z.shiftr (i64 (n + bs - 1)) (img_bits img)) in
  (forall b, b * bs < n -> b < whole) /\ 0 <= whole /\ (n + bs - 1 <= MaxInt64 -> whole = (n + bs - 1) / bs).
Proof using Hwf.
  clear Hmeta Hsize Hc Hroom. intros Hn. pose proof (wf_bits _ Hwf) as Hb. pose proof (pow2_bits _ Hb) as Rb. fold bs in Rb. cbv zeta.
  rewrite Z.shiftr_div_pow2 by lia. fold bs. unfold MaxInt64 in *. set (v := i64 (n + bs - 1)).
  pose proof (Z.div_mod v bs ltac:(lia)) as D. pose proof (Z.mod_pos_bound v bs ltac:(lia)) as M.
  destruct (Z.lt_ge_cases (n + bs - 1) (2 ^ 63)) as [Hs|Hs].
  - assert (Ev : v = n + bs - 1) by (apply i64_id; lia). assert (0 <= v / bs) by (apply Z.div_pos; lia).
    assert (v / bs <= v) by (apply Z.div_le_upper_bound; nia). rewrite u64_id by (unfold is_u64; lia).
    split; [intros b Hlt; nia|]. split; [lia|]. intros _. by rewrite Ev.
  - assert (Ev : v = n + bs - 1 - 2 ^ 64).
    { unfold v, i64. rewrite (Z.mod_eq _ (2 ^ 64)) by lia. replace ((n + bs - 1 + 2 ^ 63) / 2 ^ 64) with 1; [lia|].
      apply (Z.div_unique _ _ _ (n + bs - 1 + 2 ^ 63 - 2 ^ 64)); lia. }
    assert (- 2 ^ 54 <= v / bs < 0) by (split; [apply Z.div_le_lower_bound; nia|apply Z.div_lt_upper_bound; lia]).
    assert (Eu : u64 (v / bs) = v / bs + 2 ^ 64).
    { unfold u64. symmetry. apply (Z.mod_unique _ _ (-1)); lia. }
    rewrite Eu. split; [intros b Hlt; nia|]. split; [lia|]. intros. lia.
Qed.

(** The whole blocks of a flat file. *)
Lemma flat_data_reads chunks contiguous :
  img_size img < 2 ^ 62 -> layout <> LayoutChunkBased -> 0 < ii_size ii ->
  flat_data img layout ii = Ok (chunks, contiguous) ->
  chunks_read chunks (ino_size ino - inline_tail img layout (ii_size ii)) /\
  (contiguous = None -> exists N, maps chunks N hole).
Proof using Hwf Hmap Hcore Hino.
  clear Hmeta Hsize Hc Hroom. intros Hlim Hl Hpos E. unfold flat_data in E. pose proof (wf_bits _ Hwf) as Hb. pose proof (pow2_bits _ Hb) as Rb. fold bs in Rb.
  assert (Hs0 : 0 < ino_size ino) by (by rewrite (sc_size _ _ _ _ Hcore)).
  pose proof (inline_tail_eq Hs0) as Et. set (tail := inline_tail img layout (ii_size ii)) in *.
  rewrite <- (sc_size _ _ _ _ Hcore), shiftl1 in E by lia. fold bs in E. set (n := ino_size ino - tail) in *.
  pose proof (wf_isize _ _ Hino) as Hsz.
  assert (Hn : 0 <= n <= ino_size ino).
  { unfold n. rewrite Et. pose proof (Z.mul_div_le (ino_size ino - 1) bs ltac:(lia)).
    assert (0 <= (ino_size ino - 1) / bs) by (apply Z.div_pos; lia). destruct (layout =? LayoutFlatInline); nia. }
  destruct (whole_blocks n ltac:(lia)) as (W1 & W2 & W3). set (whole := u64 _) in *.
  assert (Esb : startBlock ino = ii_startBlk ii) by (unfold startBlock, ii_startBlk; by rewrite (sc_data _ _ _ _ Hcore), (sc_startHi _ _ _ _ Hcore)).
  destruct (Z.eqb_spec whole 0) as [E0|E0].
  { apply Ok_inj in E. injection E as <- <-. split; [|exists 0; apply maps_nil]. exists 0, hole. split; [apply maps_nil|].
    intros b Hb0 Hlt. specialize (W1 b Hlt). lia. }
  destruct ((layout =? LayoutFlatPlain) && nullStartBlock (ii_startBlk ii) (ii_addr48 ii)) eqn:Hnull.
  { apply Ok_inj in E. injection E as <- <-. apply andb_true_iff in Hnull as [Hp%Z.eqb_eq Hnull].
    pose proof (deviceChunks_hole whole 0 ltac:(unfold is_u16; lia) W2) as M.
    split; [|by exists whole].
    exists whole, hole. split; [done|]. intros b Hb0 Hlt. split; [by apply W1|].
    assert (Hlay : ino_inodeLayout ino = LayoutFlatPlain) by (by rewrite (sc_layout _ _ _ _ Hcore)).
    apply loadBlock_null_reads; auto; [unfold n in *; lia|].
    unfold nullAddress. by rewrite Hlay, Esb, (sc_addr48 _ _ _ _ Hcore), Hnull. }
  destruct (blockAddr img _) as [pa| |] eqn:Ea; try done. destruct (locateRange img pa n) as [[dev off]| |] eqn:El; try done.
  rewrite <- Esb in Ea, E, Hnull. destruct (blockAddr_eq img _ _ Hwf (proj1 (startBlock_range img ino Hino)) Ea) as [Epa Rpa].
  assert (Hn0 : 0 < n) by (destruct (Z.eq_dec n 0); [|lia]; exfalso; apply E0; rewrite W3 by (unfold MaxInt64; lia); apply Z.div_small; lia).
  assert (Hn62 : n < 2 ^ 62).
  { destruct (locateRange_facts img _ n dev off Hwf Hn0 El) as (_ & PL & L3 & L4).
    destruct PL as [[-> ->]|(d & P1 & P2 & P3 & P4 & P5)]; [specialize (L3 eq_refl (map_size _ Hmap)); lia|].
    specialize (L4 d P1 P2). destruct (dev_length_eq img Hwf d) as [_ Hlen]; [by apply (Forall_lookup_1 _ _ _ _ (wf_devs _ Hwf) P2)|].
    lia. }
  rewrite W3 in * by (unfold MaxInt64; lia).
  rewrite Epa in El. fold bs in El.
  destruct (flatChunks_maps img Hwf (startBlock ino) n dev off Hmap (proj1 (startBlock_range img ino Hino)) Hn0 El) as (p & ch & Eo & Hp & Ef & M & Hdev).
  fold bs in Ef, M, Eo. rewrite Ef in E. apply Ok_inj in E. injection E as <- <-. split; [|done].
  exists ((n + bs - 1) / bs), (extent dev p). split; [done|]. intros b Hb0 Hlt. split; [by apply W1|].
  unfold read_target, extent. fold bs. rewrite Z.mul_add_distr_r, <- Eo.
  destruct (wf_layout _ _ Hino) as [HL|[HL|HL]]; rewrite (sc_layout _ _ _ _ Hcore) in HL.
  - rewrite HL in Hnull, Et. cbn [Z.eqb LayoutFlatPlain LayoutFlatInline andb] in Hnull, Et.
    assert (En : n = ino_size ino) by (unfold n; lia).
    apply (loadBlock_plain_reads img ino Hwf Hmap Hino b Hb0 ltac:(fold bs; lia) (startBlock ino * bs)); [..|by rewrite <- En].
    + by rewrite (sc_layout _ _ _ _ Hcore).
    + unfold nullAddress. by rewrite (sc_addr48 _ _ _ _ Hcore), Hnull, andb_false_r.
    + rewrite Ea. by f_equal.
  - rewrite HL in Et. cbn [Z.eqb LayoutFlatInline Pos.eqb] in Et.
    apply (loadBlock_inline_whole img ino Hwf Hmap Hino b Hb0 ltac:(fold bs; lia) n (startBlock ino * bs)); [..|done].
    + by rewrite (sc_layout _ _ _ _ Hcore).
    + fold bs. unfold n. lia.
    + done.
    + rewrite Ea. by f_equal.
  - done.
Qed.

End Copied.

(** ** The entry *)

(** A source the reader serves: opened, its devices mapped, its metadata backed
    by bytes that reach past the metadata region. *)
Record source_ok (img : image) (c : bytes) : Prop := {
  so_wf : image_wf img;
  so_map : mapping_ok img;
  so_back : Backed (img_meta img) c;
  so_full : forall off n, 0 <= off -> 0 < n ->
    zlen (ReadAt (img_meta img) off n).1 = n -> (ReadAt (img_meta img) off n).2 = None;
  so_meta : metaStartPos img < i64 (Z.shiftl (sb_Blocks (img_sb img)) (img_bits img));
  so_size : i64 (Z.shiftl (sb_Blocks (img_sb img)) (img_bits img)) <= img_size img < 2 ^ 62 }.

(** What block [b] of a copied entry stands for, the source being device [id]
    of the copy: the tail, a hole, or a block of one of the source's devices. *)
Definition entry_block (img : image) (id : Z) (fe : fsEntry) (b : Z) : res bytes :=
  let bs := 2 ^ img_bits img in
  if n_size fe - zlen (n_tail fe) <=? b * bs then Ok (n_tail fe)
  else read_target img ('(d, p) ← chunk_target (n_chunks fe) b; Some (d - id, p)) (block_len img b (n_size fe)).

Section Entry.
Context {D : Type} `{DataFile D}.

(** The chunks of an image's file are renumbered by the image's own id. *)
Lemma remapped_image chunks (w w' : Writer D) chunks' :
  fw_copySourceIsImage w = true -> 0 < fw_copyDeviceID w ->
  remapped chunks w = (Ok chunks', w') ->
  w' = w /\ remap_chunks (fw_copyDeviceID w) true (zlen (fw_devices w)) chunks = (chunks', None).
Proof.
  intros Hi Hid E. unfold remapped in E. apply bind_inv in E as ([ch err] & w1 & R & E).
  unfold remapChunkDevices in R. do 3 run_in R. assert (a0 = true) as -> by exact (eq_trans R1 Hi). subst a a1. rewrite (proj2 (Z.eqb_neq _ 0)) in R by lia.
  unfold ret in R. cbv zeta in R. apply pair_equal_spec in R as [R <-]. apply Ok_inj in R.
  destruct err; [done|]. injection E as <- <-. split; [done|exact R].
Qed.

Lemma no_tail fe : n_tail fe = [] -> ns_tail [] fe = fe.
Proof. destruct fe. cbn. by intros ->. Qed.

(** The chunks of an entry, of a list that stands for the file's blocks below [n]. *)
Lemma chunks_entry img ino id chunks chunks' n ndev b :
  0 <= id <= MaxUint16 -> ndev <= MaxUint16 -> chunks_read img ino chunks n ->
  remap_chunks id true ndev chunks = (chunks', None) -> 0 <= b -> b * 2 ^ img_bits img < n ->
  read_target img ('(d, p) ← chunk_target chunks' b; Some (d - id, p)) (block_len img b (ino_size ino)) =
  loadBlock img ino (b * 2 ^ img_bits img).
Proof.
  intros Hid Hnd (N & f & M & R) E Hb Hn. destruct (R b Hb Hn) as [HN ->].
  pose proof (remap_chunks_maps id ndev chunks chunks' N f Hid Hnd M E) as M'.
  rewrite (maps_target _ _ _ M') by lia. destruct (f b) as [[d p]|]; [|done]. cbn. by replace (d + id - id) with d by lia.
Qed.

Lemma chunks_holes img ino id chunks n b :
  (exists N, maps chunks N hole) -> chunks_read img ino chunks n -> 0 <= b -> b * 2 ^ img_bits img < n ->
  read_target img ('(d, p) ← chunk_target chunks b; Some (d - id, p)) (block_len img b (ino_size ino)) =
  loadBlock img ino (b * 2 ^ img_bits img).
Proof.
  intros (N' & M') (N & f & M & R) Hb Hn. destruct (R b Hb Hn) as [HN ->].
  assert (N' = N) as -> by (by rewrite <- (maps_total _ _ _ M), <- (maps_total _ _ _ M')).
  rewrite <- (maps_target _ _ _ M), (maps_target _ _ _ M') by lia. done.
Qed.

Context (img : image) (c : bytes) (Hok : source_ok img c).
Let bs := 2 ^ img_bits img.
Let total := i64 (Z.shiftl (sb_Blocks (img_sb img)) (img_bits img)).

(** The inline tail, taken from beside the inode. *)
Lemma tail_serves nid layout ii ino last :
  is_u64 nid -> inode_addr img nid = metaStartPos img + nid * 32 -> nid * 32 <= total - metaStartPos img ->
  same_core nid layout ii ino -> inode_wf img ino -> check_sizes img nid layout ii = Ok tt ->
  0 < inline_tail img layout (ii_size ii) -> span img (trailing_addr img nid ii) (inline_tail img layout (ii_size ii)) = Ok last ->
  zlen last = inline_tail img layout (ii_size ii) /\
  forall b, 0 <= b -> b * bs < ino_size ino -> ino_size ino - inline_tail img layout (ii_size ii) <= b * bs ->
    loadBlock img ino (b * bs) = Ok last.
Proof using Hok.
  intros Hn Ha Hroom Hcore Hino Hchk Htl R. destruct Hok as [Hwf Hmap Hback Hfull Hmeta [Hsize Hlim]].
  destruct (trailing_agrees img nid layout ii ino Hwf Hmeta Hn Ha Hroom Hcore Hino) as [TA TB].
  apply (span_backed img c Hwf Hback) in R as (-> & S1 & S2); [|lia..]. pose proof (total_range img Hwf) as [T1 T2].
  split; [rewrite zlen_sub by lia; lia|]. intros b Hb Hlt Hin.
  pose proof (pow2_bits _ (wf_bits _ Hwf)) as Rb. fold bs in Rb.
  assert (Hs0 : 0 < ino_size ino) by nia. pose proof (inline_tail_eq img nid layout ii ino Hwf Hcore Hs0) as Et. fold bs in Et.
  destruct (Z.eqb_spec layout LayoutFlatInline) as [HL|HL]; [|lia].
  pose proof (Z.div_mod (ino_size ino - 1) bs ltac:(lia)) as Dm. pose proof (Z.mod_pos_bound (ino_size ino - 1) bs ltac:(lia)).
  assert (Eb : b = (ino_size ino - 1) / bs) by (apply Z.div_unique with (r := ino_size ino - 1 - b * bs); lia).
  rewrite <- Eb in Et. unfold check_sizes in Hchk. step_in Hchk. step_in Hchk. zbool.
  rewrite shiftl1, Z.rem_mod_nonneg in E0 by (pose proof (wf_bits _ Hwf); fold bs; lia). fold bs in E0. rewrite Et in *.
  apply (loadBlock_inline_tail img ino Hwf b Hb Hlt c Hback Hfull); [by rewrite (sc_layout _ _ _ _ Hcore)|..]; fold bs; (exact TA || lia).
Qed.

(** The data of a regular file, set on an entry that has none. *)
Lemma image_regular_serves nid layout ii ino fe0 (w w' : Writer D) fe :
  is_u64 nid -> inode_addr img nid = metaStartPos img + nid * 32 -> nid * 32 <= total - metaStartPos img -> total <= zlen c ->
  same_core nid layout ii ino -> inode_wf img ino -> check_sizes img nid layout ii = Ok tt ->
  fw_copySourceIsImage w = true -> 0 < fw_copyDeviceID w <= MaxUint16 -> zlen (fw_devices w) <= MaxUint16 ->
  n_size fe0 = ii_size ii -> n_tail fe0 = [] ->
  image_regular img nid layout ii fe0 w = (Ok fe, w') ->
  w' = w /\ (exists chunks contiguous tail, fe = ns_tail tail (ns_contiguous contiguous (ns_chunks chunks fe0))) /\
  forall b, 0 <= b -> b * bs < ino_size ino ->
    entry_block img (fw_copyDeviceID w) fe b = loadBlock img ino (b * bs).
Proof using Hok.
  intros Hn Ha Hroom Hc Hcore Hino Hchk Hi Hid Hnd Hs Ht E. destruct Hok as [Hwf Hmap Hback Hfull Hmeta [Hsize Hlim]].
  assert (Hid' : 0 <= fw_copyDeviceID w <= MaxUint16) by lia.
  unfold image_regular in E. destruct (Z.leb_spec (ii_size ii) 0) as [Hz|Hz].
  { injection E as <- <-. split; [done|]. split; [exists (n_chunks fe0), (n_contiguous fe0), (n_tail fe0); by destruct fe0|].
    intros b Hb Hlt. rewrite (sc_size _ _ _ _ Hcore) in Hlt. pose proof (pow2_bits _ (wf_bits _ Hwf)). fold bs in H0. nia. }
  destruct (Z.eqb_spec layout LayoutChunkBased) as [Hl|Hl].
  - run_in E. run_in E. apply remapped_image in R0 as [-> R0]; [|done|lia]. unfold ret in E. injection E as <- <-.
    pose proof (chunk_data_reads img c nid layout ii ino Hwf Hmap Hback Hfull Hmeta Hsize Hc Hn Ha Hroom Hcore Hino a Hl Hz R) as CR.
    split; [done|]. split; [eexists _, _, []; symmetry; by apply no_tail|]. intros b Hb Hlt. unfold entry_block. cbn [n_size n_tail n_chunks ns_contiguous ns_chunks].
    rewrite Ht, Hs, zlen_nil, <- (sc_size _ _ _ _ Hcore). fold bs. rewrite (proj2 (Z.leb_gt _ _)) by lia.
    apply (chunks_entry img ino _ a _ _ _ b Hid' Hnd CR R0 Hb Hlt).
  - run_in E. destruct a as [chunks contiguous]. apply bind_inv in E as (chunks' & w1 & R0 & E).
    destruct (flat_data_reads img nid layout ii ino Hwf Hmap Hcore Hino chunks contiguous Hlim Hl Hz R) as [CR CH].
    assert (CE : w1 = w /\ forall b, 0 <= b -> b * bs < ino_size ino - inline_tail img layout (ii_size ii) ->
      read_target img ('(d, p) ← chunk_target chunks' b; Some (d - fw_copyDeviceID w, p)) (block_len img b (ino_size ino)) =
      loadBlock img ino (b * bs)).
    { destruct contiguous as [q|].
      - apply remapped_image in R0 as [-> R0]; [|done|lia]. split; [done|]. intros b Hb Hlt.
        apply (chunks_entry img ino _ chunks _ _ _ b Hid' Hnd CR R0 Hb Hlt).
      - injection R0 as <- <-. split; [done|]. intros b Hb Hlt. apply (chunks_holes img ino _ chunks _ b (CH eq_refl) CR Hb Hlt). }
    destruct CE as [-> CE].
    assert (Hs0 : 0 < ino_size ino) by (by rewrite (sc_size _ _ _ _ Hcore)).
    pose proof (inline_tail_eq img nid layout ii ino Hwf Hcore Hs0) as Et. fold bs in Et.
    set (tail := inline_tail img layout (ii_size ii)) in *.
    destruct (Z.ltb_spec 0 tail) as [Htl|Htl].
    + run_in E. unfold ret in E. injection E as <- <-. split; [done|]. split; [by eexists _, _, _|]. intros b Hb Hlt.
      destruct (tail_serves nid layout ii ino a Hn Ha Hroom Hcore Hino Hchk Htl R1) as [Lt TS]. fold tail in Lt, TS.
      unfold entry_block. cbn [n_size n_tail n_chunks ns_tail ns_contiguous ns_chunks].
      rewrite Lt, Hs, <- (sc_size _ _ _ _ Hcore). fold bs. destruct (Z.leb_spec (ino_size ino - tail) (b * bs)) as [Hin|Hin]; [|by apply CE].
      symmetry. by apply TS.
    + unfold ret in E. injection E as <- <-. split; [done|]. split; [eexists _, _, []; symmetry; by apply no_tail|]. intros b Hb Hlt.
      unfold entry_block. cbn [n_size n_tail n_chunks ns_contiguous ns_chunks].
      rewrite Ht, Hs, zlen_nil, <- (sc_size _ _ _ _ Hcore). fold bs. rewrite (proj2 (Z.leb_gt _ _)) by lia. apply CE; lia.
Qed.

Lemma load_inode_room cur layout ii xattrs :
  is_u64 (q_nid cur) -> load_inode img cur = Ok (layout, ii, xattrs) -> q_nid cur * 32 <= total - metaStartPos img.
Proof using Hok.
  intros Hn E. destruct Hok. unfold load_inode in E. step_in E. zbool. by destruct (inode_addr_in img so_wf0 so_meta0 (q_nid cur) Hn E0).
Qed.

(** C11: a regular file taken from an image by a metadata-only copy is the file the
    reader serves from it, on a source that is sound ([source_ok]: the opened
    image's invariant, mapped device ranges past the image, apart from each
    other and no shorter than their devices, a known size below 2^62 of at least
    the blocks the superblock counts, the metadata among them, and a reader over
    the image's bytes that reports no error with a full read):
    the reader accepts its inode, the entry has the inode's mode, owner, times
    and size, and every block of the entry - its inline tail, its holes and the
    blocks its renumbered chunks name on the source's devices - is the block
    [loadBlock] answers, errors included. *)
Theorem copied_file_serves cur name layout ii xattrs expanded (w w' : Writer D) fe kids expanded' :
  is_u64 (q_nid cur) -> load_inode img cur = Ok (layout, ii, xattrs) -> ii_typ ii = StatTypeReg ->
  fw_copySourceIsImage w = true -> 0 < fw_copyDeviceID w <= MaxUint16 -> zlen (fw_devices w) <= MaxUint16 ->
  image_entry img cur layout ii xattrs expanded w = (Ok (fe, kids, expanded'), w') ->
  kids = [] /\ expanded' = expanded /\ w' = w /\
  exists ino, readInfo_fresh img name (q_nid cur) 0 = Ok ino /\
    n_mode fe = ino_rawMode ino /\ n_uid fe = ino_uid ino /\ n_gid fe = ino_gid ino /\
    n_mtime fe = ino_mtime ino /\ n_mtimeNs fe = ino_mtimeNs ino /\ n_size fe = ino_size ino /\
    forall b, 0 <= b -> b * bs < ino_size ino ->
      entry_block img (fw_copyDeviceID w) fe b = loadBlock img ino (b * bs).
Proof using Hok.
  intros Hn El Ht Hi Hid Hnd E. pose proof (load_inode_room cur layout ii xattrs Hn El) as Hroom.
  destruct (load_inode_readInfo img c (so_wf _ _ Hok) (so_back _ _ Hok) (so_meta _ _ Hok) (proj1 (so_size _ _ Hok)) cur name layout ii xattrs Hn Ht El)
    as (Ha & Hc & ino & Hr & Hcore & Hino & _).
  unfold image_entry in E. run_in E. run_in E. destruct a0. rewrite Ht in E. cbn [Z.eqb StatTypeReg StatTypeDir StatTypeSymlink Pos.eqb] in E.
  apply bind_inv in E as (fe' & w1 & R1 & E). unfold ret in E. injection E as <- <- <- <-.
  pose proof R1 as R2. apply (image_regular_serves _ _ _ ino) in R2 as (-> & (ch & co & ta & ->) & Sv); try done.
  split; [done|]. split; [done|]. split; [done|]. exists ino. split; [done|]. destruct Hcore. cbn. split_and!; done.
Qed.

End Entry.

(** A flat-inline file of one block and five bytes. *)
Definition split_file_bytes : bytes :=
  let block b := b ++ zeros (512 - length b) in
  zeros 512 ++ block (put32 16 2 (put32 8 517 (put16 4 0x81A4 (put16 0 4 (zeros 32)))) ++ bs "tail!") ++
  block (bs "head") ++ zeros 512.

Definition split_file : image :=
  {| img_sb := img_sb cyclic_root; img_size := 2048; img_meta := bytes_reader split_file_bytes;
     img_devices := []; img_deviceIDMask := 0; img_longPrefixes := [] |}.

Definition image_copy : Writer bytes :=
  let w := NewWriter (D := bytes) (mkOptions 0 0 false 0 None false) in
  fs_copySourceIsImage true (fs_copyDeviceID 1 (fs_devices [4] w)).

Lemma split_file_ok : source_ok split_file split_file_bytes.
Proof.
  split; [constructor; cbn; done| |apply bytes_reader_backed|apply bytes_reader_full|done|done].
  constructor; cbn; try done; by intros d ?%elem_of_nil.
Qed.

Definition split_core : imgInode := mkII 0x81A4 0 0 0 517 2 0 false 0 0 0 32.

Lemma copied_file_serves_witness :
  exists fe ino, image_entry split_file (mkQ 0 (bs "/f") 1) LayoutFlatInline split_core ∅ ∅ image_copy = (Ok (fe, [], ∅), image_copy) /\
    n_chunks fe = [mkChunk 2 1 1] /\ n_tail fe = bs "tail!" /\
    readInfo_fresh split_file [] 0 0 = Ok ino /\
    entry_block split_file 1 fe 0 = loadBlock split_file ino 0 /\ entry_block split_file 1 fe 1 = loadBlock split_file ino 512.
Proof.
  destruct (image_entry split_file (mkQ 0 (bs "/f") 1) LayoutFlatInline split_core ∅ ∅ image_copy) as [r w'] eqn:E.
  destruct r as [[[fe kids] ex]|e|]; [|exfalso; vm_compute in E; discriminate E..].
  assert (F : n_chunks fe = [mkChunk 2 1 1] /\ n_tail fe = bs "tail!").
  { assert (X : (let! r := (image_entry split_file (mkQ 0 (bs "/f") 1) LayoutFlatInline split_core ∅ ∅ image_copy).1 in
      Ok (n_chunks r.1.1, n_tail r.1.1)) = Ok ([mkChunk 2 1 1], bs "tail!")) by (vm_compute; reflexivity).
    rewrite E in X. cbn in X. injection X as X1 X2. split; [exact X1|exact X2]. }
  destruct (copied_file_serves split_file split_file_bytes split_file_ok (mkQ 0 (bs "/f") 1) [] LayoutFlatInline split_core ∅ ∅
    image_copy w' fe kids ex) as (-> & -> & -> & ino & R & _ & _ & _ & _ & _ & Hs & B);
    [split; reflexivity || lia|vm_compute; reflexivity|reflexivity|reflexivity|split; reflexivity || (vm_compute; discriminate)|vm_compute; discriminate|exact E|].
  exists fe, ino. split; [reflexivity|]. split; [exact (proj1 F)|]. split; [exact (proj2 F)|]. split; [exact R|].
  assert (Hi : ino_size ino = 517).
  { assert (X : (let! i := readInfo_fresh split_file [] 0 0 in Ok (ino_size i)) = Ok 517) by (vm_compute; reflexivity).
    cbn [q_nid] in R. rewrite R in X. injection X as X. exact X. }
  split; [apply (B 0)|apply (B 1)]; [lia|rewrite Hi; reflexivity|lia|rewrite Hi; reflexivity].
Defined.

(** A run holds at most [MaxUint16] blocks, so a hole takes a run for each. *)
Lemma run_total_le chunks : Forall run_ok chunks -> run_total chunks <= zlen chunks * MaxUint16.
Proof.
  induction 1 as [|c l [[_ Hc] _] _ IH]; [done|]. unfold run_total in *. cbn [foldr]. rewrite zlen_cons. lia.
Qed.

(** Nothing bounds the size a flat-plain file at the null address declares: an
    image of a few blocks makes the copy list more than [2 ^ 33] runs, where a
    chunk-based file of that size is refused for want of its map. *)
Lemma declared_hole_unbounded :
  exists chunks, flat_data split_file LayoutFlatPlain (mkII 0x81A4 0 0 0 (2 ^ 60) (2 ^ 32 - 1) 0 false 0 0 0 32) = Ok (chunks, None) /\
    2 ^ 33 < zlen chunks.
Proof.
  exists (deviceChunks NullPhysicalBlock (2 ^ 51) 0). split; [reflexivity|].
  pose proof (deviceChunks_hole (2 ^ 51) 0 ltac:(done) ltac:(done)) as M. pose proof (run_total_le _ (maps_ok _ _ _ M)) as L.
  rewrite (maps_total _ _ _ M) in L. unfold MaxUint16 in L. lia.
Qed.
