(* ===== verification/WriteImage.v ===== *)
(** * The image written is the image read

    [write] ([writer.go]) of a planned tree: where each entry's data goes, what
    the output holds from end to end, and that [Open] opens it and the reader
    reads back every inode with its content. *)

From S2P Require Import Prelude Machine Disk Format Image Inode Data Dir Path Xattr Open Layout Serialize Contents Roundtrip DirWrite ImageWrite SuperWrite CopyData.

(** ** What handing out addresses changes *)

Definition touched (e e' : erofsEntry) : Prop := exists a b c, e' = set_dataBlkAddr a (set_chunks b (set_tailBlkAddr c e)).

Lemma touched_refl e : touched e e.
Proof. by exists (e_dataBlkAddr e), (e_chunks e), (e_tailBlkAddr e). Qed.

Lemma touched_trans e1 e2 e3 : touched e1 e2 -> touched e2 e3 -> touched e1 e3.
Proof. intros (a & b & c & ->) (a' & b' & c' & ->). by exists a', b', c'. Qed.

Record assigned_store (st st' : store) : Prop := {
  as_len : length st' = length st;
  as_entry : forall q e, st !! q = Some e -> exists e', st' !! q = Some e' /\ touched e e' }.

Lemma assigned_refl (st : store) : assigned_store st st.
Proof. split; [done|]. intros q e Hq. exists e. split; [done|apply touched_refl]. Qed.

Lemma assigned_trans (s1 s2 s3 : store) : assigned_store s1 s2 -> assigned_store s2 s3 -> assigned_store s1 s3.
Proof.
  intros [L1 E1] [L2 E2]. split; [congruence|]. intros q e Hq. destruct (E1 q e Hq) as (e2 & Q2 & T2).
  destruct (E2 q e2 Q2) as (e3 & Q3 & T3). exists e3. split; [done|]. by eapply touched_trans.
Qed.

Lemma assigned_insert (st : store) p e e' : st !! p = Some e -> touched e e' -> assigned_store st (<[p := e']> st).
Proof.
  intros Hp Ht. split; [by rewrite length_insert|]. intros q x Hq. destruct (decide (q = p)) as [->|Hn].
  - rewrite Hp in Hq. injection Hq as <-. exists e'. split; [|done]. apply list_lookup_insert_eq. by apply lookup_lt_Some in Hp.
  - exists x. split; [by rewrite list_lookup_insert_ne by done|apply touched_refl].
Qed.

Section Sizes.
Context (w : erofsWriter) (st st' : store) (Ha : assigned_store st st').

Lemma names_assigned e e' : touched e e' -> child_names st' e' = child_names st e.
Proof using Ha.
  intros (a & b & c & ->). unfold child_names. change (e_children (set_dataBlkAddr _ _)) with (e_children e).
  apply list_fmap_ext. intros i q Hq. destruct (st !! q) as [x|] eqn:Ex.
  - destruct (as_entry _ _ Ha q x Ex) as (x' & -> & (a' & b' & c' & ->)). done.
  - assert (E' : st' !! q = None) by (apply lookup_ge_None; rewrite (as_len _ _ Ha); by apply lookup_ge_None). by rewrite E'.
Qed.

Lemma dirents_assigned e e' : touched e e' -> direntDataSize w st' e' = direntDataSize w st e.
Proof using Ha.
  intros T. pose proof (names_assigned e e' T) as N. destruct T as (a & b & c & ->). unfold direntDataSize, calcDirentDataSize, direntNames. rewrite N. done.
Qed.

Lemma data_size_assigned e e' : touched e e' -> flatPlainDataSize w st' e' = flatPlainDataSize w st e.
Proof using Ha.
  intros T. pose proof (dirents_assigned e e' T) as N. destruct T as (a & b & c & ->). unfold flatPlainDataSize. rewrite N. done.
Qed.

Lemma data_blocks_assigned e e' : touched e e' -> data_blocks w st' e' = data_blocks w st e.
Proof using Ha. intros T. unfold data_blocks. rewrite (data_size_assigned e e' T). by destruct T as (a & b & c & ->). Qed.

Lemma metadata_assigned off e e' : touched e e' -> metadata_step off e' = metadata_step off e.
Proof using Type. by intros (a & b & c & ->). Qed.

End Sizes.

(** ** Addresses *)

(** The blocks of a list of entries. *)
Definition blocks_of (w : erofsWriter) (st : store) (es : list erofsEntry) : Z := foldr (fun e n => data_blocks w st e + n) 0 es.

Lemma data_blocks_nonneg w st e : writer_ok w -> 0 <= data_blocks w st e.
Proof.
  intros Hw. pose proof (writer_ok_pos w Hw). unfold data_blocks. cbv zeta. destruct (Z.ltb_spec 0 (flatPlainDataSize w st e)).
  - rewrite Z.quot_div_nonneg by lia. pose proof (Z.div_pos (flatPlainDataSize w st e + w_blockSize w - 1) (w_blockSize w) ltac:(lia) ltac:(lia)). case_match; lia.
  - case_match; lia.
Qed.

Lemma blocks_of_nonneg w st es : writer_ok w -> 0 <= blocks_of w st es.
Proof. intros Hw. induction es as [|e es IH]; cbn; [lia|]. pose proof (data_blocks_nonneg w st e Hw). fold (blocks_of w st es). lia. Qed.

Lemma blocks_of_foldl w st es n : foldl (fun n e => n + data_blocks w st e) n es = n + blocks_of w st es.
Proof. revert n. induction es as [|e es IH]; intros n; cbn; [lia|]. rewrite IH. fold (blocks_of w st es). lia. Qed.

Lemma blocks_of_app w st es fs : blocks_of w st (es ++ fs) = blocks_of w st es + blocks_of w st fs.
Proof. induction es as [|e es IH]; cbn; [done|]. fold (blocks_of w st (es ++ fs)) (blocks_of w st es). lia. Qed.

(** The entry with its addresses from block [addr] on. *)
Definition addressed (w : erofsWriter) (st : store) (addr : Z) (e : erofsEntry) : erofsEntry :=
  let ds := flatPlainDataSize w st e in
  let e := if 0 <? ds then set_dataBlkAddr addr e else e in
  let addr := if 0 <? ds then addr + Z.quot (ds + w_blockSize w - 1) (w_blockSize w) else addr in
  if 0 <? zlen (e_tail e) then set_chunks (e_chunks e ++ [mkChunk addr 1 0]) (set_tailBlkAddr addr e) else e.

Lemma addressed_touched w st addr e : touched e (addressed w st addr e).
Proof.
  exists (e_dataBlkAddr (addressed w st addr e)), (e_chunks (addressed w st addr e)), (e_tailBlkAddr (addressed w st addr e)).
  unfold addressed. cbv zeta. by repeat case_match.
Qed.

Lemma assign_addr_step w st addr p e :
  writer_ok w -> st !! p = Some e -> 0 <= addr -> addr + data_blocks w st e <= MaxUint32 ->
  assign_addr w (st, addr) p = Ok (<[p := addressed w st addr e]> st, addr + data_blocks w st e).
Proof.
  intros Hw Hp H0 Hb. pose proof (writer_ok_pos w Hw) as Hbs. unfold assign_addr, deref. rewrite Hp. unfold addressed, data_blocks in *. cbv zeta in *.
  unfold MaxUint32 in *. set (ds := flatPlainDataSize w st e) in *. destruct (Z.ltb_spec 0 ds) as [Hd|Hd].
  - rewrite Z.quot_div_nonneg in * by lia. pose proof (Z.div_pos (ds + w_blockSize w - 1) (w_blockSize w) ltac:(lia) ltac:(lia)) as Q.
    set (q := (ds + w_blockSize w - 1) / w_blockSize w) in *. change (e_tail (set_dataBlkAddr addr e)) with (e_tail e).
    rewrite (u32_id q) by (unfold is_u32; destruct (0 <? zlen (e_tail e)); lia).
    rewrite (u32_id (addr + q)) by (unfold is_u32; destruct (0 <? zlen (e_tail e)); lia).
    destruct (0 <? zlen (e_tail e)); [|by rewrite Z.add_0_r].
    rewrite u32_id by (unfold is_u32; lia). do 2 f_equal. lia.
  - destruct (0 <? zlen (e_tail e)); [|by rewrite !Z.add_0_r]. rewrite u32_id by (unfold is_u32; lia). do 2 f_equal.
Qed.

(** Every entry gets the blocks after those of the entries before it. *)
Lemma assign_fold w ps : writer_ok w -> forall st addr es, NoDup ps -> derefs st ps = Ok es ->
  0 <= addr -> addr + blocks_of w st es <= MaxUint32 ->
  exists st1, fold_res (assign_addr w) (st, addr) ps = Ok (st1, addr + blocks_of w st es) /\ assigned_store st st1 /\
    (forall q, q ∉ ps -> st1 !! q = st !! q) /\
    forall i p e, ps !! i = Some p -> st !! p = Some e ->
      exists st0, assigned_store st st0 /\ st1 !! p = Some (addressed w st0 (addr + blocks_of w st (take i es)) e).
Proof.
  intros Hw. induction ps as [|p ps IH]; intros st addr es Hn Hd H0 Hb; cbn [derefs fold_res] in *.
  { injection Hd as <-. exists st. cbn. rewrite Z.add_0_r. split; [done|]. split; [apply assigned_refl|]. split; done. }
  unfold deref in Hd. destruct (st !! p) as [e|] eqn:Hp; [|done]. destruct (derefs st ps) as [es'| |] eqn:Hds; try done. injection Hd as <-.
  cbn [blocks_of foldr] in *. fold (blocks_of w st es') in *. apply NoDup_cons in Hn as [Hnp Hn].
  pose proof (data_blocks_nonneg w st e Hw) as N1. pose proof (blocks_of_nonneg w st es' Hw) as N2.
  rewrite (assign_addr_step w st addr p e) by (done || lia). set (st2 := <[p := _]> st). set (a2 := addr + data_blocks w st e).
  assert (A2 : assigned_store st st2) by (eapply assigned_insert; [done|apply addressed_touched]).
  assert (D2 : derefs st2 ps = Ok es').
  { rewrite <- Hds. clear -Hnp. unfold st2. induction ps as [|q ps IH]; [done|]. apply not_elem_of_cons in Hnp as [Hq Hnp].
    cbn [derefs]. unfold deref. rewrite list_lookup_insert_ne by done. by rewrite IH. }
  assert (B2 : forall l, blocks_of w st2 l = blocks_of w st l).
  { induction l as [|x l IHl]; cbn; [done|]. fold (blocks_of w st2 l) (blocks_of w st l). rewrite IHl.
    by rewrite (data_blocks_assigned w st st2 A2 x x (touched_refl x)). }
  destruct (IH st2 a2 es' Hn D2 ltac:(lia) ltac:(rewrite B2; lia)) as (st1 & F & A1 & U & G). rewrite B2 in F. exists st1.
  split; [rewrite F; do 2 f_equal; unfold a2; lia|]. split; [by eapply assigned_trans|]. split.
  - intros q [Hq1 Hq2]%not_elem_of_cons. rewrite (U q Hq2). unfold st2. by rewrite list_lookup_insert_ne.
  - intros [|i] q x Hi Hq; cbn [lookup list_lookup] in Hi.
    + injection Hi as <-. rewrite Hp in Hq. injection Hq as <-. exists st. split; [apply assigned_refl|].
      cbn [take blocks_of foldr]. rewrite Z.add_0_r. rewrite (U p Hnp). apply list_lookup_insert_eq. by apply lookup_lt_Some in Hp.
    + assert (Hqp : q <> p) by (intros ->; apply Hnp; by eapply list_elem_of_lookup_2).
      destruct (G i q x Hi) as (st0 & A0 & E0); [unfold st2; by rewrite list_lookup_insert_ne by done|].
      exists st0. split; [by eapply assigned_trans|]. rewrite E0. do 2 f_equal. rewrite B2. cbn [take blocks_of foldr].
      fold (blocks_of w st (take i es')). unfold a2. lia.
Qed.

(** ** The data blocks *)

(** The content of an entry that has data blocks of its own, if any. *)
Inductive plain (w : erofsWriter) (st : store) (e : erofsEntry) : bytes -> Prop :=
| plain_file src b :
    e_type e = StatTypeReg -> e_layout e = LayoutFlatPlain -> 0 < e_size e <= MaxInt64 -> e_data e = Some src ->
    copy_upto src (e_size e) = (b, None) -> zlen b = e_size e -> plain w st e b
| plain_dir ents :
    e_type e = StatTypeDir -> e_layout e = LayoutFlatPlain -> dir_entries w st e ents ->
    direntDataSize w st e = calcDirentDataSize w st e -> plain w st e (dir_data w ents)
| plain_link :
    e_type e = StatTypeSymlink -> e_layout e = LayoutFlatPlain -> plain w st e (e_symTarget e)
| plain_none : flatPlainDataSize w st e = 0 -> plain w st e [].

Definition block_pad (w : erofsWriter) (n : Z) : Z := if negb (Z.rem n (w_blockSize w) =? 0) then w_blockSize w - Z.rem n (w_blockSize w) else 0.

(** What the entry puts in the data area. *)
Definition data_bytes (w : erofsWriter) (e : erofsEntry) (d : bytes) : bytes :=
  d ++ zeros (Z.to_nat (block_pad w (zlen d))) ++ e_tail e ++ zeros (Z.to_nat (block_pad w (zlen (e_tail e)))).

Lemma plain_size w st e d : writer_ok w -> plain w st e d -> flatPlainDataSize w st e = zlen d.
Proof.
  intros Hw [src b T L Hz D C Lb|ents T L De M|T L|H0]; [| | |done]; unfold flatPlainDataSize; rewrite T, L; cbn [Z.eqb negb LayoutFlatPlain StatTypeReg StatTypeDir StatTypeSymlink Pos.eqb].
  - rewrite D, (proj2 (Z.ltb_lt _ _)) by lia. cbn [is_none negb andb]. unfold MaxInt64 in *. rewrite i64_id by lia. done.
  - rewrite M. by apply calcDirentDataSize_data.
  - done.
Qed.

Lemma block_pad_range w n : writer_ok w -> 0 <= n -> 0 <= block_pad w n < w_blockSize w /\ (n + block_pad w n) mod w_blockSize w = 0.
Proof.
  intros Hw Hn. pose proof (writer_ok_pos w Hw). unfold block_pad. rewrite Z.rem_mod_nonneg by lia.
  pose proof (Z.mod_pos_bound n (w_blockSize w) ltac:(lia)). pose proof (Z.div_mod n (w_blockSize w) ltac:(lia)) as E. destruct (Z.eqb_spec (n mod w_blockSize w) 0) as [Z0|Z0]; cbn [negb].
  - rewrite Z.add_0_r. lia.
  - split; [lia|]. replace (n + (w_blockSize w - n mod w_blockSize w)) with ((n / w_blockSize w + 1) * w_blockSize w) by lia. apply Z.mod_mul. lia.
Qed.

Lemma data_bytes_len w st e d : writer_ok w -> plain w st e d -> zlen (e_tail e) <= w_blockSize w ->
  zlen (data_bytes w e d) = data_blocks w st e * w_blockSize w.
Proof.
  intros Hw Hp Ht. pose proof (writer_ok_pos w Hw). unfold data_bytes, data_blocks. rewrite (plain_size w st e d Hw Hp). cbv zeta.
  pose proof (zlen_nonneg d) as Nd. pose proof (zlen_nonneg (e_tail e)) as Nt.
  destruct (block_pad_range w (zlen d) Hw Nd) as [R1 _]. destruct (block_pad_range w (zlen (e_tail e)) Hw Nt) as [R2 R3].
  rewrite !zlen_app. unfold zeros. rewrite !zlen_replicate, !Z2Nat.id by lia. rewrite Z.mul_add_distr_r.
  pose proof (round_blocks (zlen d) (w_blockSize w) Nd ltac:(lia)) as RB. fold (block_pad w (zlen d)) in RB.
  assert (T1 : zlen d + block_pad w (zlen d) = (if 0 <? zlen d then Z.quot (zlen d + w_blockSize w - 1) (w_blockSize w) else 0) * w_blockSize w).
  { destruct (Z.ltb_spec 0 (zlen d)); [lia|]. replace (zlen d) with 0 in * by lia. unfold block_pad. rewrite Z.rem_0_l by lia. cbn. lia. }
  assert (T2 : zlen (e_tail e) + block_pad w (zlen (e_tail e)) = (if 0 <? zlen (e_tail e) then 1 else 0) * w_blockSize w).
  { destruct (Z.ltb_spec 0 (zlen (e_tail e))) as [Hlt|].
    - rewrite Z.mul_1_l. set (n := zlen (e_tail e)) in *. set (p := block_pad w n) in *.
      apply Z.mod_divide in R3 as [q Hq]; [|lia]. assert (0 < q < 2) by nia. nia.
    - replace (zlen (e_tail e)) with 0 in * by lia. unfold block_pad. rewrite Z.rem_0_l by lia. cbn. lia. }
  lia.
Qed.

Section DataBlocks.
Context {S : Type} `{SinkLaws S}.
Implicit Types buf : S.

Lemma tail_emits w buf e : writer_ok w ->
  emits buf (writeTailBlock w buf e) (e_tail e ++ zeros (Z.to_nat (block_pad w (zlen (e_tail e))))).
Proof.
  intros Hw. pose proof (writer_ok_pos w Hw) as Hb. pose proof (zlen_nonneg (e_tail e)). unfold writeTailBlock.
  destruct (Z.eqb_spec (zlen (e_tail e)) 0) as [E|E].
  - assert (e_tail e = []) as -> by (apply nil_length_inv; unfold zlen in E; lia). cbn [zlen length app]. unfold block_pad.
    rewrite Z.rem_0_l by lia. apply emits_ret.
  - apply emits_bind; [apply emits_write|]. intros buf' _. unfold block_pad. pose proof (Z.rem_bound_pos (zlen (e_tail e)) (w_blockSize w) ltac:(lia) ltac:(lia)).
    destruct (Z.eqb_spec (Z.rem (zlen (e_tail e)) (w_blockSize w)) 0) as [E0|E0]; cbn [negb].
    + rewrite E0, (proj2 (Z.ltb_ge _ _)) by lia. apply emits_ret.
    + rewrite (proj2 (Z.ltb_lt _ _)) by lia. apply emits_zeros. lia.
Qed.

Lemma write_data_emits w st buf e d : writer_ok w -> plain w st e d -> zlen d <> 0 -> emits_n buf (write_data w st buf e (zlen d)) d (zlen d).
Proof.
  intros Hw Hp Hn. destruct Hp as [src b T L Hz D C Lb|ents T L De M|T L|Hz0]; unfold write_data; [rewrite T..|done];
    cbn [Z.eqb StatTypeReg StatTypeDir StatTypeSymlink Pos.eqb].
  - rewrite D, Lb. rewrite <- (app_nil_r b) at 1. eapply emits_n_bind_n; [by apply copy_data_emits|]. intros buf' _.
    rewrite Lb, Z.eqb_refl. apply emits_ret_n.
  - by apply writeDirents_emits.
  - rewrite <- (app_nil_r (e_symTarget e)) at 2. apply emits_bind_n; [apply emits_write|]. intros. apply emits_ret_n.
Qed.

Lemma entry_data_emits w st buf e d : writer_ok w -> plain w st e d -> emits buf (write_entry_data w st buf e) (data_bytes w e d).
Proof.
  intros Hw Hp. pose proof (writer_ok_pos w Hw) as Hb. pose proof (zlen_nonneg d). unfold write_entry_data, data_bytes. rewrite (plain_size w st e d Hw Hp).
  destruct (Z.eqb_spec (zlen d) 0) as [E|E].
  - assert (d = []) as -> by (apply nil_length_inv; unfold zlen in E; lia). unfold block_pad at 1. rewrite Z.rem_0_l by lia. cbn [app]. by apply tail_emits.
  - eapply emits_n_bind; [by apply write_data_emits|]. intros buf1 _. apply emits_bind; [|intros; by apply tail_emits].
    unfold block_pad. pose proof (Z.rem_bound_pos (zlen d) (w_blockSize w) ltac:(lia) ltac:(lia)). case_match; [apply emits_zeros; lia|apply emits_ret].
Qed.

(** The data area of the entries with their contents. *)
Definition data_area (w : erofsWriter) (l : list (erofsEntry * bytes)) : bytes := mjoin ((fun p => data_bytes w p.1 p.2) <$> l).

Lemma data_emits w st buf l : writer_ok w -> Forall (fun p => plain w st p.1 p.2) l ->
  emits buf (fold_res (write_entry_data w st) buf (fst <$> l)) (data_area w l).
Proof.
  intros Hw Hl. revert buf. induction Hl as [|[e d] l Hp Hl IH]; intros buf; [apply emits_ret|].
  cbn [fmap list_fmap fold_res fst]. unfold data_area. cbn [fmap list_fmap mjoin list_join fst snd]. apply emits_bind; [by apply entry_data_emits|].
  intros buf' _. apply IH.
Qed.

End DataBlocks.

Lemma data_area_cons w p l : data_area w (p :: l) = data_bytes w p.1 p.2 ++ data_area w l.
Proof. done. Qed.

Lemma blocks_of_cons w st e es : blocks_of w st (e :: es) = data_blocks w st e + blocks_of w st es.
Proof. done. Qed.

Lemma data_area_len w st l : writer_ok w -> Forall (fun p => plain w st p.1 p.2 /\ zlen (e_tail p.1) <= w_blockSize w) l ->
  zlen (data_area w l) = blocks_of w st (fst <$> l) * w_blockSize w.
Proof.
  intros Hw. induction 1 as [|[e d] l [Hp Ht] Hl IH]; [done|]. rewrite data_area_cons, fmap_cons, blocks_of_cons. cbn [fst snd] in *.
  rewrite zlen_app, (data_bytes_len w st e d Hw Hp Ht), IH. lia.
Qed.

(** Where an entry's blocks lie in the data area. *)
Lemma data_at w st l i e d : writer_ok w -> Forall (fun p => plain w st p.1 p.2 /\ zlen (e_tail p.1) <= w_blockSize w) l -> l !! i = Some (e, d) ->
  sub (data_area w l) (Z.to_nat (blocks_of w st (fst <$> take i l) * w_blockSize w)) (length (data_bytes w e d)) = data_bytes w e d /\
  blocks_of w st (fst <$> take i l) * w_blockSize w + zlen (data_bytes w e d) <= zlen (data_area w l).
Proof.
  intros Hw Hl. revert i. induction Hl as [|[e' d'] l [Hp Ht] Hl IH]; intros i Hi; [done|].
  pose proof (data_bytes_len w st e' d' Hw Hp Ht) as L. pose proof (writer_ok_pos w Hw) as Hb. pose proof (data_blocks_nonneg w st e' Hw) as N.
  rewrite data_area_cons. cbn [fst snd] in *. destruct i as [|i].
  - injection Hi as -> ->. change (blocks_of w st _) with 0. rewrite Z.mul_0_l. change (Z.to_nat 0) with 0%nat. split.
    + rewrite sub_app_l by lia. by apply sub_all.
    + rewrite zlen_app. pose proof (zlen_nonneg (data_area w l)). lia.
  - cbn [lookup list_lookup] in Hi. destruct (IH i Hi) as [I1 I2]. rewrite firstn_cons, fmap_cons, blocks_of_cons. cbn [fst].
    set (n := blocks_of w st (fst <$> take i l)) in *.
    pose proof (blocks_of_nonneg w st (fst <$> take i l) Hw) as Nn. fold n in Nn. split.
    + rewrite sub_app_r by (unfold zlen in L; nia). rewrite <- I1 at 2. f_equal. unfold zlen in L. nia.
    + rewrite zlen_app, L. lia.
Qed.

(** The content and the tail block in the entry's blocks. *)
Lemma data_parts w st e d : writer_ok w -> plain w st e d -> zlen (e_tail e) <= w_blockSize w ->
  sub (data_bytes w e d) 0 (length d) = d /\ zlen d <= zlen (data_bytes w e d) /\
  (0 < zlen (e_tail e) -> sub (data_bytes w e d) (Z.to_nat ((data_blocks w st e - 1) * w_blockSize w)) (length (e_tail e)) = e_tail e /\
    (data_blocks w st e - 1) * w_blockSize w + zlen (e_tail e) <= zlen (data_bytes w e d)).
Proof.
  intros Hw Hp Ht. pose proof (writer_ok_pos w Hw) as Hb. pose proof (data_bytes_len w st e d Hw Hp Ht) as L. pose proof (zlen_nonneg d) as Nd.
  pose proof (zlen_nonneg (e_tail e)) as Nt. destruct (block_pad_range w (zlen d) Hw Nd) as [R1 _].
  destruct (block_pad_range w (zlen (e_tail e)) Hw Nt) as [R2 R3]. split; [|split].
  - unfold data_bytes. rewrite sub_app_l by lia. by apply sub_all.
  - unfold data_bytes. rewrite zlen_app. match goal with |- context [zlen (zeros ?a ++ ?b)] => pose proof (zlen_nonneg (zeros a ++ b)) end. lia.
  - intros H. unfold data_bytes in *. rewrite !zlen_app in L |- *. unfold zeros in L |- *. rewrite !zlen_replicate, !Z2Nat.id in L |- * by lia.
    assert (T : zlen (e_tail e) + block_pad w (zlen (e_tail e)) = w_blockSize w).
    { apply Z.mod_divide in R3 as [q Hq]; [|lia]. assert (0 < q < 2) by nia. nia. }
    split; [|lia]. rewrite app_assoc. rewrite (sub_mid _ _ _ 0); [by apply sub_all| |lia].
    rewrite length_app, length_replicate. unfold zlen in *. lia.
Qed.

(** ** The output *)

Lemma take_written {S} `{SeekSinkLaws S} (s : S) b : Written s = b -> exists rest, Content s = b ++ rest.
Proof. intros E. exists (drop (length b) (Content s)). rewrite <- E. rewrite (Content_written s) at 1. by rewrite take_drop. Qed.

(** After the seek back the superblock area is written over the zeros kept for
    it, and nothing else. *)
Lemma write_content {S} `{SeekSinkLaws S} `{!SinkLaws S} w st (out out' : S) l ml :
  writer_ok w -> Written out = [] -> derefs st (w_entries w) = Ok (fst <$> l) -> derefs st (w_entries w) = Ok (fst <$> ml) ->
  Forall (fun p => plain w st p.1 p.2) l -> laid w st 0 ml ->
  (let! out := Write out (zeros (Z.to_nat (sbAreaSize w))) in
   let! out := writeDataBlocks w st out in
   let! meta := writeMetadataInodes w st ([] : bytes) in
   let! out := Write out meta in
   let! out := SeekStart out in
   writeBlock0 w st out) = Ok out' ->
  forall area, block0 w st (fst <$> l) = Ok area -> zlen area = sbAreaSize w ->
  exists pad rest, Content out' = area ++ data_area w l ++ (meta_bytes w st 0 ml ++ zeros pad) ++ rest /\
    zlen (meta_bytes w st 0 ml ++ zeros pad) = metaBlocks w (fst <$> l) * w_blockSize w.
Proof.
  intros Hw Hout Hd Hdm Hl Hm E area Ha La. destruct (metadata_emits w st ([] : bytes) ml Hw Hdm Hm) as (pad & M1 & M2). apply emits_buffer in M1.
  rewrite Hd in Hdm. apply Ok_inj in Hdm. rewrite <- Hdm in M2. exists pad.
  destruct (Write out _) as [o1| |] eqn:W1; try done. apply Write_appends in W1. rewrite Hout, app_nil_l in W1.
  destruct (writeDataBlocks w st o1) as [o2| |] eqn:W2; try done.
  assert (Wr2 : Written o2 = Written o1 ++ data_area w l).
  { unfold writeDataBlocks in W2. rewrite Hd in W2. pose proof (data_emits w st o1 l Hw Hl) as D. rewrite W2 in D. exact D. }
  rewrite M1, app_nil_l in E. set (meta := meta_bytes w st 0 ml ++ zeros pad) in *.
  destruct (Write o2 meta) as [o3| |] eqn:W3; try done. apply Write_appends in W3. rewrite Wr2, W1 in W3.
  destruct (SeekStart o3) as [o4| |] eqn:W4; try done. apply Content_seek in W4 as [C4 W4].
  unfold writeBlock0 in E. rewrite Hd, Ha in E. pose proof (Content_write o4 area out' E) as C5. rewrite W4, app_nil_l, C4 in C5.
  destruct (take_written o3 _ W3) as [rest C3]. exists rest. split; [|done]. rewrite C5, C3. cbn [length Nat.add].
  rewrite <- !app_assoc. f_equal. rewrite drop_app_le by (rewrite length_zeros; unfold zlen in La; lia).
  rewrite (drop_ge (zeros _)) by (rewrite length_zeros; unfold zlen in La; lia). done.
Qed.

(** ** Opening the output *)

Lemma superblock_table w st es :
  (Z.land (sb_FeatureIncompat (superblock w st es)) FeatureIncompatDeviceTable =? 0) = negb (0 <? zlen (w_devices w)).
Proof. unfold superblock. cbn [sb_FeatureIncompat]. destruct (existsb _ es), (0 <? zlen (w_devices w)); reflexivity. Qed.

Lemma superblock_nocompr w st es : Z.land (sb_FeatureIncompat (superblock w st es)) FeatureIncompatLZ4_0Padding = 0.
Proof. unfold superblock. cbn [sb_FeatureIncompat]. destruct (existsb _ es), (0 <? zlen (w_devices w)); reflexivity. Qed.

Lemma open_devices_written w sb area c size extra :
  area_holds w sb area -> writer_ok w -> (0 < zlen (w_devices w) -> sb_DevtSlotOff sb = 9) -> take (length area) c = area ->
  length extra = length (w_devices w) ->
  forall n j, (j + n = length (w_devices w))%nat ->
  exists ds, open_devices (bytes_reader c) sb size extra false n (Z.of_nat j) = Ok ds /\
    Forall (fun d => dev_mappedBlkAddr d = 0 /\ dev_device d ∈ extra) ds.
Proof.
  intros Ha Hw Ho Hc Hx. induction n as [|n IH]; intros j Hj; cbn [open_devices]; [by exists []|].
  destruct (lookup_lt_is_Some_2 (w_devices w) j ltac:(lia)) as [b Hb]. destruct (lookup_lt_is_Some_2 extra j ltac:(lia)) as [d Hd].
  rewrite (open_device_written w sb area (bytes_reader c) c size extra j b d); auto;
    [|apply Ho; unfold zlen; lia|apply bytes_reader_backed|exact (bytes_reader_full c)].
  replace (Z.of_nat j + 1) with (Z.of_nat (S j)) by lia. destruct (IH (S j) ltac:(lia)) as (ds & -> & F). eexists. split; [reflexivity|].
  constructor; [|done]. split; [done|]. by eapply list_elem_of_lookup_2.
Qed.

(** What [Open] makes of an image whose first area was written for [w]. *)
Record opened_as (w : erofsWriter) (st : store) (es : list erofsEntry) (c : bytes) (extra : list ReaderAt) (img : image) : Prop := {
  oa_sb : exists sum, img_sb img = with_checksum sum (superblock w st es);
  oa_size : img_size img = zlen c;
  oa_meta : img_meta img = bytes_reader c;
  oa_unmapped : Forall (fun d => dev_mappedBlkAddr d = 0) (img_devices img);
  oa_readers : Forall (fun d => dev_device d ∈ extra) (img_devices img);
  oa_prefixes : img_longPrefixes img = [] }.

Lemma checkNid_at img nid total :
  img_size img = total -> 0 <= metaStartPos img -> 0 <= nid -> metaStartPos img + nid * 32 + 32 <= total -> total <= MaxInt64 - 64 -> checkNid img nid = Ok tt.
Proof.
  intros Hs H0 Hn Hle Hm. unfold checkNid, SizeInodeCompact, SizeInodeExtended, MaxInt64 in *. rewrite Hs.
  rewrite (i64_id nid) by lia. rewrite (i64_id (nid * 32)) by lia. rewrite (i64_id (metaStartPos img + _)) by lia. rewrite i64_id by lia.
  rewrite (proj2 (Z.ltb_ge _ _)) by (apply Z.div_le_lower_bound; lia).
  rewrite (proj2 (orb_false_iff _ _)) by (rewrite !Z.ltb_ge; lia).
  rewrite (proj2 (andb_false_iff _ _)) by (right; apply Z.ltb_ge; lia). done.
Qed.

Lemma Open_written w st es area sum c extra :
  sb_ok w -> area_holds w (with_checksum sum (superblock w st es)) area -> take (length area) c = area -> zlen c <= MaxInt64 - 64 ->
  length extra = length (w_devices w) -> 0 <= w_rootNid w <= MaxUint16 ->
  w_metaBlkAddr w * w_blockSize w + w_rootNid w * 32 + 32 <= zlen c -> sb_Blocks (superblock w st es) * w_blockSize w <= zlen c ->
  exists img, Open_image (bytes_reader c) extra = Ok img /\ opened_as w st es c extra img.
Proof.
  intros Hk Ha Hc Hmax Hx Hr Hroot Hblk. pose proof Hk as [Hw Hdv Hcnt Hi Ht Hn Hm]. pose proof (writer_ok_pos w Hw) as Hb.
  destruct (wo_block _ Hw) as (k & Hk9 & Hbs). set (sb := superblock w st es) in *.
  assert (HB : sb_BlkSizeBits sb = k) by (change (blkBits (w_blockSize w) = k); rewrite Hbs; by apply blkBits_pow).
  pose proof (open_written w st es area sum (bytes_reader c) c Hk Ha ltac:(apply bytes_reader_backed) (bytes_reader_full c) Hc) as Os.
  fold sb in Os. unfold Open_image. rewrite Os. cbn [with_checksum sb_FeatureIncompat sb_ExtraDevices].
  pose proof (superblock_table w st es) as Tb. fold sb in Tb. rewrite Tb, negb_involutive. unfold MaxInt64, MaxUint16, is_u32 in *.
  pose proof (zlen_nonneg (w_devices w)) as Nd. set (table := 0 <? zlen (w_devices w)).
  assert (Eo : (if table then sb_ExtraDevices sb else 0) = zlen (w_devices w)).
  { change (sb_ExtraDevices sb) with (if table then u16 (zlen (w_devices w)) else 0). unfold table. destruct (Z.ltb_spec 0 (zlen (w_devices w))); [|lia]. apply Z.mod_small. lia. }
  rewrite Eo. assert (Lx : zlen extra = zlen (w_devices w)) by (unfold zlen; lia). rewrite Lx.
  assert (Fl : (zlen (w_devices w) =? 0) && (0 <? zlen (w_devices w)) = false) by (destruct (Z.eqb_spec (zlen (w_devices w)) 0), (Z.ltb_spec 0 (zlen (w_devices w))); try done; lia).
  rewrite Fl, Z.eqb_refl. cbn [negb andb].
  assert (Hs : zlen area <= zlen c) by (apply (f_equal length) in Hc; rewrite length_take in Hc; unfold zlen; lia).
  pose proof (sbAreaSize_room w k Hw Hbs Hk9) as (R1 & _). pose proof (ah_len _ _ _ Ha) as La.
  destruct (open_devices_written w _ area c (imageSize (bytes_reader c)) extra Ha Hw) with (n := Z.to_nat (zlen (w_devices w))) (j := 0%nat) as (ds & Eds & Fds);
    [|done|done|unfold zlen; lia|].
  { intros Hd. change (sb_DevtSlotOff _) with (if 0 <? zlen (w_devices w) then u16 (Z.quot (SuperBlockOffset + SizeSuperBlock) SizeDeviceSlot) else 0).
    by rewrite (proj2 (Z.ltb_lt _ _)). }
  change (Z.of_nat 0) with 0 in Eds. rewrite Eds.
  unfold open_geometry. cbn [img_sb img_size img_devices img_meta with_checksum sb_FeatureIncompat sb_ComprAlgs sb_Blocks sb_XattrBlkAddr sb_RootNid sb_DirBlkBits].
  assert (Nc : Z.land (sb_FeatureIncompat sb) FeatureIncompatLZ4_0Padding = 0) by apply superblock_nocompr. rewrite Nc.
  change (sb_ComprAlgs sb) with 0. change (imageSize (bytes_reader c)) with (zlen c). cbn [Z.eqb negb orb].
  unfold img_bits. cbn [img_sb with_checksum sb_BlkSizeBits]. rewrite HB.
  destruct (shiftl_u32_bits (sb_Blocks sb) k ltac:(apply Z.mod_pos_bound; lia) Hk9) as [Eb1 Eb2]. rewrite Eb1, <- Hbs.
  rewrite (proj2 (Z.ltb_lt 0 (zlen c))), (proj2 (Z.ltb_ge (zlen c) _)) by (unfold SuperBlockOffset, SizeSuperBlock in *; lia). cbn [andb].
  unfold metaStartPos, img_bits. cbn [img_sb with_checksum sb_MetaBlkAddr sb_BlkSizeBits]. rewrite HB. change (sb_MetaBlkAddr sb) with (w_metaBlkAddr w).
  destruct (shiftl_u32_bits (w_metaBlkAddr w) k Hm Hk9) as [Em1 Em2]. rewrite Em1, <- Hbs in *.
  rewrite (proj2 (Z.ltb_ge _ 0)), (proj2 (Z.leb_gt (zlen c) _)) by lia. cbn [orb].
  rewrite andb_false_r. change (sb_XattrBlkAddr sb) with 0. rewrite Z.shiftl_0_l. change (i64 0) with 0.
  rewrite (proj2 (Z.leb_gt (zlen c) 0)) by lia. change (0 <? 0) with false. cbn [orb]. rewrite andb_false_r.
  match goal with |- context [checkNid ?i _] => set (img := i) end.
  assert (Em : metaStartPos img = w_metaBlkAddr w * w_blockSize w).
  { unfold metaStartPos, img_bits. cbn [img img_sb with_checksum sb_MetaBlkAddr sb_BlkSizeBits]. rewrite HB. exact Em1. }
  assert (Er : sb_RootNid sb = w_rootNid w) by (change (u16 (w_rootNid w) = w_rootNid w); apply Z.mod_small; lia).
  rewrite Er, (checkNid_at img (w_rootNid w) (zlen c)) by (done || (unfold MaxInt64; lia)).
  change (sb_DirBlkBits sb) with 0. cbn [Z.eqb negb]. change (loadLongPrefixes img) with (Ok ([] : list bytes)). eexists. split; [reflexivity|].
  split; try done; [by exists sum|..]; (eapply Forall_impl; [exact Fds|]; by intros d [? ?]).
Qed.

(** ** The limits *)

Lemma check_blocks_sum w st es b b' : writer_ok w ->
  (forall e, e ∈ es -> 0 <= flatPlainDataSize w st e) -> fold_res (check_blocks w st) b es = Ok b' ->
  b' = b + blocks_of w st es /\ (es <> [] -> b' <= MaxUint32).
Proof.
  intros Hw. pose proof (writer_ok_pos w Hw). revert b. induction es as [|e es IH]; intros b Hp; cbn [fold_res].
  { intros E. apply Ok_inj in E. cbn. split; [lia|done]. }
  pose proof (Hp e ltac:(left)) as He. unfold check_blocks at 1. cbv zeta. rewrite blocks_of_cons.
  match goal with |- context [MaxUint32 <? ?x] => assert (Ex : x = b + data_blocks w st e) end.
  { unfold data_blocks. cbv zeta. set (ds := flatPlainDataSize w st e) in *.
    pose proof (round_blocks ds (w_blockSize w) He ltac:(lia)) as R. pose proof (Z.quot_rem' ds (w_blockSize w)) as Q.
    pose proof (Z.rem_bound_pos ds (w_blockSize w) He ltac:(lia)).
    assert (T : (if negb (Z.rem ds (w_blockSize w) =? 0) then Z.quot ds (w_blockSize w) + 1 else Z.quot ds (w_blockSize w)) =
      Z.quot (ds + w_blockSize w - 1) (w_blockSize w)) by (apply (Z.mul_reg_r _ _ (w_blockSize w)); [lia|]; rewrite R; destruct (Z.eqb_spec (Z.rem ds (w_blockSize w)) 0); cbn [negb]; lia).
    destruct (Z.ltb_spec 0 ds) as [|Z0].
    - rewrite <- T. destruct (negb _), (0 <? zlen (e_tail e)); lia.
    - replace ds with 0 in * by lia. rewrite Z.rem_0_l, Z.quot_0_l by lia. cbn [Z.eqb negb]. destruct (0 <? zlen (e_tail e)); lia. }
  rewrite Ex. destruct (Z.ltb_spec MaxUint32 (b + data_blocks w st e)) as [|Hb]; [done|]. intros E.
  destruct (IH (b + data_blocks w st e)) as [I1 I2]; [intros; apply Hp; by right|done|]. split; [lia|]. intros _.
  destruct es as [|x es]; [|by apply I2]. change (blocks_of w st []) with 0 in I1. lia.
Qed.

(** A plan's slots after addresses are handed out. *)
Lemma slot_ok_assigned w st st1 e e' a : assigned_store st st1 -> touched e e' -> (e_chunks e' = e_chunks e \/ 0 < e_size e) ->
  slot_ok w st e -> slot_ok (with_metaBlkAddr w a) st1 e'.
Proof.
  intros Ha Ht Hc [N C I X T T0 P]. pose proof (dirents_assigned w st st1 Ha e e' Ht) as D. destruct Ht as (x & y & z & ->).
  split; try done. etransitivity; [exact T|].
  unfold calcTrailingSize. change (direntDataSize (with_metaBlkAddr w a) st1) with (direntDataSize w st1). rewrite D.
  change (e_type (set_dataBlkAddr _ _)) with (e_type e). change (e_layout (set_dataBlkAddr _ _)) with (e_layout e).
  change (e_size (set_dataBlkAddr _ _)) with (e_size e). change (e_symTarget (set_dataBlkAddr _ _)) with (e_symTarget e).
  change (chunkCount (with_metaBlkAddr w a) _) with (chunkCount w e).
  destruct Hc as [->|Hz]; [done|]. rewrite (proj2 (Z.eqb_neq (e_size e) 0)) by lia. done.
Qed.

(** What the writer needs of an entry's tail block: it is a block, and the file
    it ends has a size. *)
Definition tail_ok (w : erofsWriter) (e : erofsEntry) : Prop :=
  zlen (e_tail e) <= w_blockSize w /\ (0 < zlen (e_tail e) -> 0 < e_size e).

Lemma addressed_chunks w st a e : tail_ok w e -> e_chunks (addressed w st a e) = e_chunks e \/ 0 < e_size e.
Proof.
  intros [_ H]. unfold addressed. cbv zeta. destruct (0 <? flatPlainDataSize w st e); cbn [e_tail set_dataBlkAddr];
    (destruct (Z.ltb_spec 0 (zlen (e_tail e))); [right; auto|by left]).
Qed.

Lemma slot_ends_assigned e e' : touched e e' -> slot_start e' = slot_start e /\ inodeCoreSize e' = inodeCoreSize e /\ slot_end e' = slot_end e.
Proof. by intros (x & y & z & ->). Qed.

Lemma slots_assigned w st st1 a off ps : assigned_store st st1 ->
  (forall p e, p ∈ ps -> st !! p = Some e -> exists e', st1 !! p = Some e' /\ touched e e' /\ (e_chunks e' = e_chunks e \/ 0 < e_size e)) ->
  slots w st off ps -> slots (with_metaBlkAddr w a) st1 off ps.
Proof.
  intros Ha. revert off. induction ps as [|p ps IH]; intros off Hp Hs; [done|]. destruct Hs as (e & E1 & E2 & E3 & E4).
  destruct (Hp p e ltac:(left) E1) as (e' & F1 & F2 & F3). destruct (slot_ends_assigned e e' F2) as (G1 & G2 & G3).
  exists e'. split; [done|]. split; [by rewrite G1, G2|]. split; [by eapply slot_ok_assigned|]. rewrite G3. apply IH; [|done].
  intros q x Hq. apply Hp. by right.
Qed.

Lemma metadataBytes_assigned w st st1 (ps : list ptr) es es' : assigned_store st st1 -> derefs st ps = Ok es -> derefs st1 ps = Ok es' ->
  Forall2 touched es es' /\ metadataBytes es' = metadataBytes es /\ blocks_of w st1 es' = blocks_of w st es.
Proof.
  intros Ha. assert (X : derefs st ps = Ok es -> derefs st1 ps = Ok es' -> Forall2 touched es es').
  { revert es es'. induction ps as [|p ps IH]; intros es es'; cbn [derefs].
    - intros E E'. apply Ok_inj in E as <-. by apply Ok_inj in E' as <-.
    - unfold deref. destruct (st !! p) as [e|] eqn:Ep; [|done]. destruct (as_entry _ _ Ha p e Ep) as (e' & -> & T).
      destruct (derefs st ps) as [l| |]; try done. destruct (derefs st1 ps) as [l'| |]; try done.
      intros E E'. apply Ok_inj in E as <-. apply Ok_inj in E' as <-. constructor; [done|]. by apply IH. }
  intros E E'. specialize (X E E'). split; [done|]. clear E E'. split.
  - unfold metadataBytes. generalize 0. induction X as [|e e' l l' T X IH]; intros n; [done|]. cbn [foldl].
    rewrite (metadata_assigned n e e' T). apply IH.
  - induction X as [|e e' l l' T X IH]; [done|]. rewrite !blocks_of_cons, IH. f_equal. by apply data_blocks_assigned.
Qed.

Lemma derefs_assigned (st st1 : store) (ps : list ptr) es : assigned_store st st1 -> derefs st ps = Ok es -> exists es', derefs st1 ps = Ok es'.
Proof.
  intros Ha. revert es. induction ps as [|p ps IH]; intros es; cbn [derefs]; [by exists []|].
  unfold deref. destruct (st !! p) as [e|] eqn:Ep; [|done]. destruct (as_entry _ _ Ha p e Ep) as (e' & -> & T).
  destruct (derefs st ps) as [l| |]; try done. intros _. destruct (IH l eq_refl) as [l' ->]. by eexists.
Qed.

(** ** Data blocks, read *)

Lemma unmapped_range img pa n devs i : Forall (fun d => dev_mappedBlkAddr d = 0) devs ->
  locateRange_devs img devs i pa n = (let! _ := checkImageRange img pa n in Ok (0, pa)).
Proof. intros H. revert i. induction H as [|d devs Hd H IH]; intros i; [done|]. cbn [locateRange_devs]. rewrite Hd. apply IH. Qed.

Lemma unmapped_mapping img : Forall (fun d => dev_mappedBlkAddr d = 0) (img_devices img) -> 0 < img_size img -> mapping_ok img.
Proof.
  intros H Hs. rewrite Forall_forall in H. split; [done|..].
  - intros d Hd N. by rewrite (H d Hd) in N.
  - intros i j d d' _ Hi _ N. apply list_elem_of_lookup_2 in Hi. by rewrite (H d Hi) in N.
  - intros d Hd N. by rewrite (H d Hd) in N.
Qed.

(** A file or directory in its own blocks of the image. *)
Section Own.
Context (img : image) (ino : inode) (c d : bytes).
Context (Hwf : image_wf img) (Hino : inode_wf img ino) (Hun : Forall (fun x => dev_mappedBlkAddr x = 0) (img_devices img)).
Context (Hs : img_size img = zlen c) (Hc : zlen c <= MaxInt64 - 2 ^ 16).
Context (Hl : ino_inodeLayout ino = LayoutFlatPlain) (Hz : ino_size ino = zlen d) (Hd : 0 < zlen d) (Hn : nullAddress ino = false).
Let bs := 2 ^ img_bits img.
Let a := startBlock ino.
Context (Hfit : a * bs + zlen d <= zlen c) (Hat : sub c (Z.to_nat (a * bs)) (length d) = d).

Lemma own_start : 0 <= a * bs.
Proof using Hwf Hino. pose proof (pow2_bits _ (wf_bits _ Hwf)). pose proof (startBlock_range img ino Hino). unfold a, bs. nia. Qed.

Lemma own_located : blockAddr img a = Ok (a * bs) /\ locateRange img (a * bs) (ino_size ino) = Ok (0, a * bs).
Proof using Hwf Hino Hun Hs Hc Hz Hd Hfit.
  pose proof own_start as P. pose proof (zlen_nonneg d) as Nd. pose proof (startBlock_range img ino Hino). unfold MaxInt64 in *.
  split; [apply blockAddr_ok; [done|unfold a; lia|unfold MaxInt64; fold bs; lia]|].
  unfold locateRange. rewrite unmapped_range by done. unfold checkImageRange, MaxInt64. rewrite Hz, Hs, !i64_id by lia.
  rewrite (proj2 (Z.ltb_ge (a * bs) 0)), (proj2 (Z.ltb_ge (zlen d) 0)), (proj2 (Z.ltb_ge _ (a * bs))) by lia. cbn [orb].
  rewrite (proj2 (Z.ltb_ge (zlen c) _)) by lia. by rewrite andb_false_r.
Qed.

Lemma plain_serves : img_meta img = bytes_reader c -> is_u64 (ino_nid ino) -> serves img ino d.
Proof using Hwf Hino Hun Hs Hc Hl Hz Hd Hn Hfit Hat.
  intros Hm Hnid. pose proof own_start as P. destruct own_located as [Ea El]. unfold MaxInt64 in *.
  assert (Ed : openDirect img ino = Ok (Some (NewSectionReader (bytes_reader c) (a * bs) (ino_size ino)))).
  { unfold openDirect. rewrite (proj2 (Z.leb_gt _ _)), Hl by lia. cbn [Z.eqb LayoutFlatPlain]. unfold openDirect_plain, locateStart. rewrite Hn.
    fold a. rewrite Ea, El. change (deviceReader img 0) with (Ok (img_meta img)). by rewrite Hm. }
  pose proof (section_backed (bytes_reader c) c (a * bs) (zlen d) ltac:(apply bytes_reader_backed) P ltac:(lia) ltac:(unfold MaxInt64; lia)) as B.
  unfold zlen at 2 in B. rewrite Nat2Z.id, Hat, <- Hz in B.
  pose proof (direct_serves img ino _ d Hwf (unmapped_mapping img Hun ltac:(lia)) ltac:(rewrite Hm; apply bytes_reader_settled) Hino Hnid Ed B ltac:(lia)) as S.
  rewrite take_ge in S by (rewrite Hz; unfold zlen; lia). done.
Qed.

End Own.

(** What a file serves it holds block by block. *)
Lemma serves_holds img ino d : image_wf img -> zlen d <= MaxInt64 - 2 ^ 16 -> serves img ino d -> holds img ino d.
Proof.
  intros Hwf Hd [Sz Sb]. pose proof (pow2_bits _ (wf_bits _ Hwf)) as Hbs. split; [done|done|]. intros i Hi Hlt. rewrite Sb by nia. do 3 f_equal.
  unfold block_span. rewrite Sz. rewrite Z.mod_mul by lia. lia.
Qed.

(** ** Handing out the addresses *)

Lemma slots_NoDup w st off ps : writer_ok w -> 0 <= off -> off mod 32 = 0 -> slots w st off ps -> NoDup ps.
Proof.
  intros Hw H0 H32 Hs. apply NoDup_alt. intros i j p Hi Hj. destruct (slots_lookup w st off ps i p Hw H0 H32 Hs Hi) as (e & E1 & E2 & _).
  destruct (slot_end_ge w st e E2) as (G & _). destruct (inodeCoreSize_cases e) as [C|C];
    (destruct (Nat.lt_trichotomy i j) as [L|[L|L]]; [exfalso| done|exfalso]);
    [pose proof (slots_order w st off ps i j p p e e Hw H0 H32 Hs L Hi Hj E1 E1)
    |pose proof (slots_order w st off ps j i p p e e Hw H0 H32 Hs L Hj Hi E1 E1)
    |pose proof (slots_order w st off ps i j p p e e Hw H0 H32 Hs L Hi Hj E1 E1)
    |pose proof (slots_order w st off ps j i p p e e Hw H0 H32 Hs L Hj Hi E1 E1)]; lia.
Qed.

(** The writer with the metadata after the superblock area and the data. *)
Definition placed (w : erofsWriter) (st : store) (es : list erofsEntry) : erofsWriter :=
  with_metaBlkAddr w (sbAreaBlocks w + blocks_of w st es).

Lemma assign_written w st es :
  writer_ok w -> NoDup (w_entries w) -> derefs st (w_entries w) = Ok es -> 0 <= sbAreaBlocks w -> sbAreaBlocks w + blocks_of w st es < MaxUint32 ->
  exists st1, assignDataBlocks (with_metaBlkAddr w (2 ^ 32 - 1)) st = Ok (placed w st es, st1) /\ assigned_store st st1 /\
    forall i p e, w_entries w !! i = Some p -> st !! p = Some e ->
      exists st0, assigned_store st st0 /\ st1 !! p = Some (addressed w st0 (sbAreaBlocks w + blocks_of w st (take i es)) e).
Proof.
  intros Hw Hn Hd H0 Hlt. pose proof (blocks_of_nonneg w st es Hw) as N. unfold MaxUint32 in *.
  destruct (assign_fold w (w_entries w) Hw st (sbAreaBlocks w) es Hn Hd H0 ltac:(unfold MaxUint32; lia)) as (st1 & F & A & _ & G).
  exists st1. split; [|done]. unfold assignDataBlocks. change (sbAreaBlocks (with_metaBlkAddr w (2 ^ 32 - 1))) with (sbAreaBlocks w).
  change (w_metaBlkAddr (with_metaBlkAddr w (2 ^ 32 - 1))) with (2 ^ 32 - 1). rewrite u32_id by (unfold is_u32; lia).
  rewrite (proj2 (Z.eqb_neq (2 ^ 32 - 1) _)) by lia. unfold assignFlatPlainAddrs.
  change (fold_res (assign_addr (with_metaBlkAddr w (2 ^ 32 - 1))) (st, sbAreaBlocks w) (w_entries (with_metaBlkAddr w (2 ^ 32 - 1)))) with
    (fold_res (assign_addr w) (st, sbAreaBlocks w) (w_entries w)). rewrite F. done.
Qed.

Lemma addressed_at w st st0 a e : assigned_store st st0 ->
  (0 < flatPlainDataSize w st e -> e_dataBlkAddr (addressed w st0 a e) = a) /\
  (0 < zlen (e_tail e) -> e_tailBlkAddr (addressed w st0 a e) = a + (data_blocks w st e - 1)).
Proof.
  intros Ha. unfold addressed, data_blocks. cbv zeta. rewrite (data_size_assigned w st st0 Ha e e (touched_refl e)).
  split; intros H; rewrite (proj2 (Z.ltb_lt _ _) H).
  - cbn [e_tail set_dataBlkAddr]. by case_match.
  - destruct (0 <? flatPlainDataSize w st e); cbn [e_tail set_dataBlkAddr]; rewrite (proj2 (Z.ltb_lt _ _) H);
      cbn [e_tailBlkAddr set_chunks set_tailBlkAddr]; lia.
Qed.

(** ** What the limits leave *)

Lemma metadata_step_grows w st e off : slot_ok w st e -> off + 32 <= metadata_step off e.
Proof.
  intros Hs. destruct (slot_end_ge w st e Hs) as (_ & G2 & G3 & _). pose proof (so_trailing_nonneg _ _ _ Hs).
  unfold metadata_step. cbv zeta. set (n := inodeCoreSize e + _ + _ + _). assert (32 <= n) by (destruct (inodeCoreSize_cases e); lia).
  pose proof (Z.rem_bound_pos n 32 ltac:(lia) ltac:(lia)). case_match; case_match; zbool; lia.
Qed.

Lemma metadataBytes_grows w st ps off es n : slots w st off ps -> derefs st ps = Ok es -> n + 32 * zlen es <= foldl metadata_step n es.
Proof.
  revert off es n. induction ps as [|p ps IH]; intros off es n Hs; cbn [derefs].
  - intros E. apply Ok_inj in E as <-. cbn [foldl]. change (zlen []) with 0. lia.
  - destruct Hs as (e & E1 & E2 & E3 & E4). unfold deref. rewrite E1. destruct (derefs st ps) as [l| |] eqn:El; try done.
    intros E. apply Ok_inj in E as <-. cbn [foldl]. specialize (IH _ l (metadata_step n e) E4 eq_refl).
    pose proof (metadata_step_grows w st e n E3). rewrite zlen_cons. lia.
Qed.

Lemma fold_units {A} (f : unit -> A -> res unit) l x : fold_res f tt l = Ok x -> forall a, a ∈ l -> f tt a = Ok tt.
Proof.
  induction l as [|b l IH]; intros E a Ha; [by apply elem_of_nil in Ha|]. cbn [fold_res] in E. destruct (f tt b) as [[]| |] eqn:Eb; try done.
  apply elem_of_cons in Ha as [->|Ha]; [done|]. by apply IH.
Qed.

Lemma check_entry_xattrs w e k v : check_entry w tt e = Ok tt -> e_xattrs e !! k = Some v -> validateXattr k v = Ok tt.
Proof.
  intros E H. unfold check_entry in E. steps_in E. apply (fold_units _ _ _ E3 (k, v)). by apply elem_of_map_to_list.
Qed.

Lemma limits_hold w st es :
  writer_ok w -> slots w st 0 (w_entries w) -> derefs st (w_entries w) = Ok es -> es <> [] ->
  (forall e, e ∈ es -> 0 <= flatPlainDataSize w st e) -> checkLimits w st = Ok tt ->
  sbAreaBlocks w + metaBlocks w es + blocks_of w st es <= MaxUint32 /\ 1 <= metaBlocks w es /\ 0 <= sbAreaBlocks w /\
  forall e k v, e ∈ es -> e_xattrs e !! k = Some v -> validateXattr k v = Ok tt.
Proof.
  intros Hw Hs Hd Hn Hp E. pose proof (writer_ok_pos w Hw) as Hb. unfold checkLimits in E. rewrite Hd in E.
  destruct (fold_res (check_entry w) tt es) as [u| |] eqn:Ec; try done.
  destruct (fold_res (check_blocks w st) _ es) as [b| |] eqn:Eb; try done.
  destruct (check_blocks_sum w st es _ b Hw Hp Eb) as [B1 B2]. specialize (B2 Hn). fold (metaBlocks w es) in B1.
  pose proof (metadataBytes_grows w st _ 0 es 0 Hs Hd) as G. fold (metadataBytes es) in G.
  assert (1 <= zlen es) by (destruct es; [done|rewrite zlen_cons; pose proof (zlen_nonneg es); lia]).
  split; [lia|]. split; [|split].
  - unfold metaBlocks. rewrite Z.quot_div_nonneg by lia. apply Z.div_le_lower_bound; lia.
  - unfold sbAreaBlocks. apply Z.quot_pos; [|lia]. destruct (wo_block _ Hw) as (k & Hk & Hk'). pose proof (zlen_nonneg (w_devices w)).
    destruct (sbAreaSize_room w k Hw Hk' Hk) as (R & _). lia.
  - intros e k v He. apply check_entry_xattrs with (w := w). by apply (fold_units _ _ _ Ec).
Qed.

(** ** The image *)

Lemma slots_derefs w st off ps : slots w st off ps -> exists es, derefs st ps = Ok es.
Proof.
  revert off. induction ps as [|p ps IH]; intros off Hs; [by exists []|]. destruct Hs as (e & E1 & _ & _ & E4). destruct (IH _ E4) as [es E].
  cbn [derefs]. unfold deref. rewrite E1, E. by eexists.
Qed.

(** The entries with a content for each pointer. *)
Lemma derefs_pairs (st : store) (f : ptr -> bytes) ps es : derefs st ps = Ok es ->
  exists l, fst <$> l = es /\ (forall x, x ∈ l -> exists p, p ∈ ps /\ st !! p = Some x.1 /\ x.2 = f p) /\
    forall i p e, ps !! i = Some p -> st !! p = Some e -> l !! i = Some (e, f p).
Proof.
  revert es. induction ps as [|p ps IH]; intros es; cbn [derefs].
  - intros E. apply Ok_inj in E as <-. exists []. split; [done|]. split; [by intros x ?%elem_of_nil|done].
  - unfold deref. destruct (st !! p) as [e|] eqn:Ep; [|done]. destruct (derefs st ps) as [l| |]; try done. intros E. apply Ok_inj in E as <-.
    destruct (IH l eq_refl) as (m & <- & M1 & M2). exists ((e, f p) :: m). split; [done|]. split.
    + intros x [->|Hx]%elem_of_cons; [exists p; split; [left|done]|]. destruct (M1 x Hx) as (q & Q1 & Q2). exists q. split; [by right|done].
    + intros [|i] q x Hi Hq; [|by apply M2]. injection Hi as ->. rewrite Ep in Hq. by injection Hq as ->.
Qed.

(** A tree ready to be written: planned, with the root's nid one the superblock
    can hold, and every entry with its content: [pl] in blocks of its own, [tr]
    behind its inode. *)
Record to_write (w : erofsWriter) (st : store) (tr pl : ptr -> bytes) : Prop := {
  tw_super : sb_ok w;
  tw_slots : slots w st 0 (w_entries w);
  tw_root : exists p e, p ∈ w_entries w /\ st !! p = Some e /\ e_nid e = w_rootNid w /\ w_rootNid w <= MaxUint16;
  tw_data p e : p ∈ w_entries w -> st !! p = Some e -> 0 <= flatPlainDataSize w st e /\ tail_ok w e;
  tw_content w1 st1 : assignDataBlocks (with_metaBlkAddr w (2 ^ 32 - 1)) st = Ok (w1, st1) ->
    content_ok w1 st1 tr /\ forall p e, p ∈ w_entries w -> st1 !! p = Some e -> plain w1 st1 e (pl p);
}.

(** The parts of the output. *)
Record image_parts (w1 : erofsWriter) (st1 : store) (tr pl : ptr -> bytes) (c : bytes)
    (l ml : list (erofsEntry * bytes)) (area rest : bytes) (sum : Z) (pad : nat) : Prop := {
  ip_super : sb_ok w1;
  ip_slots : slots w1 st1 0 (w_entries w1);
  ip_laid : laid w1 st1 0 ml;
  ip_ml i p e : w_entries w1 !! i = Some p -> st1 !! p = Some e -> ml !! i = Some (e, tr p);
  ip_l i p e : w_entries w1 !! i = Some p -> st1 !! p = Some e -> l !! i = Some (e, pl p);
  ip_plain : Forall (fun x => plain w1 st1 x.1 x.2 /\ zlen (e_tail x.1) <= w_blockSize w1) l;
  ip_area : area_holds w1 (with_checksum sum (superblock w1 st1 (fst <$> l))) area;
  ip_bytes : c = area ++ data_area w1 l ++ (meta_bytes w1 st1 0 ml ++ zeros pad) ++ rest;
  ip_meta : zlen (meta_bytes w1 st1 0 ml ++ zeros pad) = metaBlocks w1 (fst <$> l) * w_blockSize w1;
  ip_at : w_metaBlkAddr w1 = sbAreaBlocks w1 + blocks_of w1 st1 (fst <$> l);
  ip_addr i p e : w_entries w1 !! i = Some p -> st1 !! p = Some e ->
    let a := sbAreaBlocks w1 + blocks_of w1 st1 (fst <$> take i l) in
    (0 < zlen (pl p) -> e_dataBlkAddr e = a) /\ (0 < zlen (e_tail e) -> e_tailBlkAddr e = a + (data_blocks w1 st1 e - 1));
  ip_xattrs p e k v : p ∈ w_entries w1 -> st1 !! p = Some e -> e_xattrs e !! k = Some v -> validateXattr k v = Ok tt;
  ip_total : 0 <= sbAreaBlocks w1 /\ 1 <= metaBlocks w1 (fst <$> l) /\ sbAreaBlocks w1 + metaBlocks w1 (fst <$> l) + blocks_of w1 st1 (fst <$> l) <= MaxUint32;
}.

Lemma derefs_elem (st : store) ps es p e : derefs st ps = Ok es -> p ∈ ps -> st !! p = Some e -> e ∈ es.
Proof.
  revert es. induction ps as [|q ps IH]; intros es; cbn [derefs]; [by intros _ ?%elem_of_nil|]. unfold deref.
  destruct (st !! q) as [x|] eqn:Eq; [|done]. destruct (derefs st ps) as [l| |]; try done. intros E. apply Ok_inj in E as <-.
  intros [->|Hp]%elem_of_cons He; [rewrite Eq in He; injection He as ->; left|right; by apply IH].
Qed.

Lemma elem_derefs (st : store) ps es e : derefs st ps = Ok es -> e ∈ es -> exists p, p ∈ ps /\ st !! p = Some e.
Proof.
  revert es. induction ps as [|q ps IH]; intros es; cbn [derefs].
  - intros E. apply Ok_inj in E as <-. by intros ?%elem_of_nil.
  - unfold deref. destruct (st !! q) as [x|] eqn:Eq; [|done]. destruct (derefs st ps) as [l| |]; try done. intros E. apply Ok_inj in E as <-.
    intros [->|Hp]%elem_of_cons; [exists q; split; [left|done]|]. destruct (IH l eq_refl Hp) as (p & ? & ?). exists p. split; [by right|done].
Qed.

Lemma blocks_of_assigned w st st1 es es' : assigned_store st st1 -> Forall2 touched es es' -> blocks_of w st1 es' = blocks_of w st es.
Proof.
  intros Ha X. induction X as [|e e' l l' T X IH]; [done|]. rewrite !blocks_of_cons, IH. f_equal. by apply data_blocks_assigned.
Qed.

(** The entries of [st1] are those of [st] with the addresses handed out. *)
Definition addressed_from (w : erofsWriter) (st st1 : store) (es : list erofsEntry) : Prop :=
  forall i p e1, w_entries w !! i = Some p -> st1 !! p = Some e1 -> exists e st0, st !! p = Some e /\ p ∈ w_entries w /\
    assigned_store st st0 /\ e1 = addressed w st0 (sbAreaBlocks w + blocks_of w st (take i es)) e.

Lemma assign_plan w st tr pl : to_write w st tr pl -> checkLimits w st = Ok tt ->
  exists es st1, derefs st (w_entries w) = Ok es /\
    assignDataBlocks (with_metaBlkAddr w (2 ^ 32 - 1)) st = Ok (placed w st es, st1) /\ assigned_store st st1 /\ addressed_from w st st1 es /\
    slots (placed w st es) st1 0 (w_entries w) /\
    0 <= sbAreaBlocks w /\ 1 <= metaBlocks w es /\ sbAreaBlocks w + metaBlocks w es + blocks_of w st es <= MaxUint32 /\
    forall e k v, e ∈ es -> e_xattrs e !! k = Some v -> validateXattr k v = Ok tt.
Proof.
  intros [Hk Hs (rp & re & R1 & R2 & _) Hda _] El. pose proof (sk_writer _ Hk) as Hw. destruct (slots_derefs _ _ _ _ Hs) as [es Hd].
  assert (Hne : es <> []) by (intros ->; by apply (derefs_elem _ _ _ _ _ Hd R1), elem_of_nil in R2).
  assert (Hsz : forall e, e ∈ es -> 0 <= flatPlainDataSize w st e).
  { intros e He. destruct (elem_derefs _ _ _ _ Hd He) as (p & Hp & Hq). by destruct (Hda p e Hp Hq). }
  destruct (limits_hold w st es Hw Hs Hd Hne Hsz El) as (T1 & T2 & T3 & T4). pose proof (blocks_of_nonneg w st es Hw) as Nb.
  destruct (assign_written w st es Hw (slots_NoDup w st 0 _ Hw ltac:(lia) eq_refl Hs) Hd T3 ltac:(lia)) as (st1 & Ea & As & G).
  exists es, st1. split; [done|]. split; [done|]. split; [done|]. split; [|split; [|done]].
  - intros i p e1 Hi He1. destruct (slots_lookup w st 0 _ i p Hw ltac:(lia) eq_refl Hs Hi) as (e & Ee & _).
    destruct (G i p e Hi Ee) as (st0 & A0 & Q). rewrite He1 in Q. injection Q as ->. exists e, st0. split; [done|]. split; [by eapply list_elem_of_lookup_2|done].
  - apply (slots_assigned w st st1); [done| |done]. intros p e Hp He. destruct (Hda p e Hp He) as [_ Ht].
    apply list_elem_of_lookup in Hp as [i Hi]. destruct (G i p e Hi He) as (st0 & _ & Q). eexists. split; [exact Q|].
    split; [apply addressed_touched|by apply addressed_chunks].
Qed.

(** Where an entry's data went. *)
Lemma addressed_data w st st1 es es1 i p e1 (d : bytes) : assigned_store st st1 -> addressed_from w st st1 es -> Forall2 touched es es1 ->
  w_entries w !! i = Some p -> st1 !! p = Some e1 -> flatPlainDataSize w st1 e1 = zlen d ->
  let a := sbAreaBlocks w + blocks_of w st1 (take i es1) in
  (0 < zlen d -> e_dataBlkAddr e1 = a) /\ (0 < zlen (e_tail e1) -> e_tailBlkAddr e1 = a + (data_blocks w st1 e1 - 1)).
Proof.
  intros As Inv F2 Hi He1 Pz. destruct (Inv i p e1 Hi He1) as (e & st0 & Ee & Hp & A0 & ->). cbv zeta.
  destruct (addressed_at w st st0 (sbAreaBlocks w + blocks_of w st (take i es)) e A0) as [A1 A2].
  rewrite (blocks_of_assigned w st st1 _ _ As (Forall2_take _ _ _ i F2)). set (a := sbAreaBlocks w + blocks_of w st (take i es)) in *.
  pose proof (addressed_touched w st0 a e) as T. pose proof (data_size_assigned w st st1 As e _ T) as Z.
  rewrite (data_blocks_assigned w st st1 As e _ T). split; [intros; apply A1; lia|].
  destruct T as (x & y & z & Et). rewrite Et at 1. exact A2.
Qed.

(** What a write that succeeds did. *)
Lemma write_parts {S} `{SeekSinkLaws S} `{!SinkLaws S} w st (out out' : S) tr pl :
  to_write w st tr pl -> Written out = [] -> write w st out = Ok out' ->
  exists w1 st1 l ml area rest sum pad, assignDataBlocks (with_metaBlkAddr w (2 ^ 32 - 1)) st = Ok (w1, st1) /\
    (exists a, w1 = with_metaBlkAddr w a) /\ assigned_store st st1 /\
    image_parts w1 st1 tr pl (Content out') l ml area rest sum pad.
Proof.
  intros Ht Hout E. unfold write in E. destruct (checkLimits w st) as [[]| |] eqn:El; try done.
  destruct (assign_plan w st tr pl Ht El) as (es & st1 & Hd & Ea & As & Inv & Hs1 & T1 & T2 & T3 & T4). set (w1 := placed w st es) in *.
  destruct Ht as [Hk _ _ Hda Hco]. pose proof (sk_writer _ Hk) as Hw. pose proof (blocks_of_nonneg w st es Hw) as Nb.
  destruct (Hco w1 st1 Ea) as [Hc Hpl]. destruct (derefs_assigned _ _ _ _ As Hd) as [es1 Hd1].
  destruct (metadataBytes_assigned w st st1 _ es es1 As Hd Hd1) as (F2 & Mb & Bo).
  destruct (slots_laid w1 st1 0 (w_entries w1) tr Hs1) as (ml & L1 & L2 & L3).
  { intros p e Hp He. destruct (Hc p e Hp He) as (? & ? & _). done. }
  destruct (derefs_pairs st1 pl (w_entries w) es1 Hd1) as (l & Pl1 & Pl2 & Pl3).
  assert (Hw1 : writer_ok w1) by (destruct Hw; by split).
  assert (Hk1 : sb_ok w1).
  { destruct Hk. split; try done. change (is_u32 (sbAreaBlocks w + blocks_of w st es)). unfold is_u32, MaxUint32 in *. lia. }
  assert (Hpt : Forall (fun x => plain w1 st1 x.1 x.2 /\ zlen (e_tail x.1) <= w_blockSize w1) l).
  { apply Forall_forall. intros x Hx. destruct (Pl2 x Hx) as (p & Hp & Hq & ->). split; [by apply Hpl|].
    apply list_elem_of_lookup in Hp as [i Hi]. destruct (Inv i p _ Hi Hq) as (e & st0 & Ee & Hp & A0 & Ex). rewrite Ex.
    destruct (addressed_touched w st0 (sbAreaBlocks w + blocks_of w st (take i es)) e) as (a & b & c0 & ->). by destruct (Hda p e Hp Ee) as [_ [? _]]. }
  unfold writeSeekable in E. rewrite Ea in E. destruct (block0_holds w1 st1 (fst <$> l) Hk1) as (area & sum & B1 & B2).
  destruct (write_content w1 st1 out out' l ml Hw1 Hout) with (area := area) as (pad & rest & C1 & C2); try done.
  { by rewrite Pl1. }
  { eapply Forall_impl; [exact Hpt|]. by intros x [? _]. }
  { apply B2. }
  exists w1, st1, l, ml, area, rest, sum, pad. split; [done|]. split; [by eexists|]. split; [done|].
  assert (Eb : blocks_of w1 st1 (fst <$> l) = blocks_of w st es) by (rewrite Pl1; exact Bo).
  assert (Em : metaBlocks w1 (fst <$> l) = metaBlocks w es) by (rewrite Pl1; unfold metaBlocks; by rewrite Mb).
  split; try done.
  - by rewrite Eb.
  - intros i p e1 Hi He1. rewrite fmap_take, Pl1. pose proof (Hpl p e1 ltac:(by eapply list_elem_of_lookup_2) He1) as Pp.
    exact (addressed_data w st st1 es es1 i p e1 (pl p) As Inv F2 Hi He1 (plain_size w1 st1 e1 _ Hw1 Pp)).
  - intros p e1 k v Hp He1 Hkv. apply list_elem_of_lookup in Hp as [i Hi]. destruct (Inv i p e1 Hi He1) as (e & st0 & Ee & Hp & A0 & ->).
    apply (T4 e k v); [by eapply derefs_elem|]. destruct (addressed_touched w st0 (sbAreaBlocks w + blocks_of w st (take i es)) e) as (x & y & z & Et).
    by rewrite Et in Hkv.
  - rewrite Eb, Em. done.
Qed.

Section Parts.
Context (w1 : erofsWriter) (st1 : store) (tr pl : ptr -> bytes) (c : bytes) (l ml : list (erofsEntry * bytes)).
Context (area rest : bytes) (sum : Z) (pad : nat) (P : image_parts w1 st1 tr pl c l ml area rest sum pad).
Context (Hmax : zlen c <= MaxInt64 - 2 ^ 16).
Let bs := w_blockSize w1.
Let meta := meta_bytes w1 st1 0 ml ++ zeros pad.

Lemma parts_writer : writer_ok w1 /\ 512 <= bs <= 65536.
Proof using P. pose proof (sk_writer _ (ip_super _ _ _ _ _ _ _ _ _ _ _ P)) as Hw. split; [done|]. by apply writer_ok_pos. Qed.

(** Where the parts lie. *)
Lemma parts_lengths :
  zlen area = sbAreaBlocks w1 * bs /\ zlen (data_area w1 l) = blocks_of w1 st1 (fst <$> l) * bs /\ zlen meta = metaBlocks w1 (fst <$> l) * bs /\
  w_metaBlkAddr w1 * bs = zlen area + zlen (data_area w1 l) /\ zlen area + zlen (data_area w1 l) + zlen meta <= zlen c.
Proof using P.
  destruct parts_writer as [Hw Hb]. pose proof (ip_area _ _ _ _ _ _ _ _ _ _ _ P) as Ha.
  assert (La : zlen area = sbAreaBlocks w1 * bs).
  { rewrite (ah_len _ _ _ Ha). unfold sbAreaBlocks, sbAreaSize. fold bs. by rewrite Z.quot_mul by lia. }
  pose proof (data_area_len w1 st1 l Hw (ip_plain _ _ _ _ _ _ _ _ _ _ _ P)) as Ld. fold bs in Ld.
  pose proof (ip_meta _ _ _ _ _ _ _ _ _ _ _ P) as Lm. fold bs meta in Lm. rewrite (ip_at _ _ _ _ _ _ _ _ _ _ _ P).
  rewrite (ip_bytes _ _ _ _ _ _ _ _ _ _ _ P). fold meta. rewrite !zlen_app. pose proof (zlen_nonneg rest). split_and!; lia.
Qed.

Lemma parts_data o n : (o + n <= length (data_area w1 l))%nat -> sub c (Z.to_nat (sbAreaBlocks w1 * bs) + o) n = sub (data_area w1 l) o n.
Proof using P.
  intros Hon. destruct parts_lengths as (L1 & _). rewrite (ip_bytes _ _ _ _ _ _ _ _ _ _ _ P).
  rewrite sub_app_r by (unfold zlen in L1; lia). replace (Z.to_nat (sbAreaBlocks w1 * bs) + o - length area)%nat with o by (unfold zlen in L1; lia).
  by rewrite sub_app_l by lia.
Qed.

Lemma parts_meta : sub c (Z.to_nat (w_metaBlkAddr w1 * bs)) (length meta) = meta.
Proof using P.
  destruct parts_lengths as (_ & _ & _ & L4 & _). rewrite L4, (ip_bytes _ _ _ _ _ _ _ _ _ _ _ P). fold meta. rewrite app_assoc.
  rewrite sub_app_r by (rewrite length_app; unfold zlen; lia). rewrite length_app. unfold zlen.
  replace (_ - _)%nat with 0%nat by lia. rewrite sub_app_l by lia. by apply sub_all.
Qed.

Lemma parts_blocks : sb_Blocks (superblock w1 st1 (fst <$> l)) = sbAreaBlocks w1 + metaBlocks w1 (fst <$> l) + blocks_of w1 st1 (fst <$> l).
Proof using P.
  destruct parts_writer as [Hw _]. destruct (ip_total _ _ _ _ _ _ _ _ _ _ _ P) as (T1 & T2 & T3). pose proof (blocks_of_nonneg w1 st1 (fst <$> l) Hw).
  unfold superblock. cbn [sb_Blocks]. rewrite blocks_of_foldl. fold (metaBlocks w1 (fst <$> l)). rewrite Z.add_0_l.
  apply Z.mod_small. unfold MaxUint32 in *. lia.
Qed.

Lemma parts_slot p e : p ∈ w_entries w1 -> st1 !! p = Some e -> slot_ok w1 st1 e /\ slot_end e <= zlen meta.
Proof using P.
  intros Hp He. destruct parts_writer as [Hw _]. apply list_elem_of_lookup in Hp as [i Hi].
  pose proof (ip_laid _ _ _ _ _ _ _ _ _ _ _ P) as Hl.
  destruct (meta_slot w1 st1 0 ml i e (tr p) Hw ltac:(lia) Hl (ip_ml _ _ _ _ _ _ _ _ _ _ _ P i p e Hi He)) as (_ & S2 & _).
  destruct (meta_len w1 st1 0 ml Hw ltac:(lia) Hl) as [S4 _].
  destruct (slots_lookup w1 st1 0 _ i p Hw ltac:(lia) eq_refl (ip_slots _ _ _ _ _ _ _ _ _ _ _ P) Hi) as (e' & E1 & E2 & _).
  rewrite He in E1. injection E1 as <-. split; [done|]. unfold meta. rewrite zlen_app. pose proof (zlen_nonneg (zeros pad)). lia.
Qed.

Context (extra : list ReaderAt) (Hlen : length extra = length (w_devices w1)).
Context (Hsz : Forall sized extra) (Hlaws : Forall ReaderAtLaws extra).
Context (rp : ptr) (re : erofsEntry) (Hrp : rp ∈ w_entries w1) (Hre : st1 !! rp = Some re).
Context (Hroot : e_nid re = w_rootNid w1) (Hr16 : w_rootNid w1 <= MaxUint16).

(** [Open] opens it. *)
Lemma parts_open : exists img, Open_image (bytes_reader c) extra = Ok img /\ opened_as w1 st1 (fst <$> l) c extra img /\ image_wf img /\ carries w1 img c meta.
Proof using P Hmax Hlen Hsz Hlaws Hrp Hre Hroot Hr16.
  destruct parts_writer as [Hw Hb]. destruct parts_lengths as (L1 & L2 & L3 & L4 & L5). destruct (parts_slot rp re Hrp Hre) as [Hs He].
  destruct (slot_end_ge w1 st1 re Hs) as (G1 & _). pose proof (so_nid _ _ _ Hs) as Hn. unfold slot_start in G1.
  destruct (ip_total _ _ _ _ _ _ _ _ _ _ _ P) as (T1 & T2 & T3). unfold MaxInt64 in *.
  assert (Hc : take (length area) c = area) by (rewrite (ip_bytes _ _ _ _ _ _ _ _ _ _ _ P); apply take_app_length).
  destruct (Open_written w1 st1 (fst <$> l) area sum c extra) as (img & Ho & Ha); try done.
  { apply P. } { apply P. } { unfold MaxInt64. lia. } { lia. }
  { fold bs. destruct (inodeCoreSize_cases re); lia. } { rewrite parts_blocks. fold bs. lia. }
  exists img. split; [done|]. split; [done|].
  destruct (Open_facts (bytes_reader c) extra) as [_ F]; [apply bytes_reader_sized; unfold MaxInt64; lia|done|apply bytes_reader_laws|done|].
  destruct (F img Ho) as (Hwf & _). split; [done|]. destruct Ha as [[sm Hsb] Hsi Hme _ _ _].
  assert (Hbits : w_blockSize w1 = 2 ^ img_bits img).
  { unfold img_bits. rewrite Hsb. cbn [with_checksum sb_BlkSizeBits]. destruct (wo_block _ Hw) as (k & Hk & Hk').
    change (sb_BlkSizeBits (superblock w1 st1 (fst <$> l))) with (blkBits (w_blockSize w1)). rewrite Hk'. by rewrite blkBits_pow. }
  assert (Hms : metaStartPos img = w_metaBlkAddr w1 * bs).
  { destruct (metaStartPos_eq img Hwf) as [-> _]. rewrite <- Hbits, Hsb. done. }
  split; try done.
  - rewrite Hme. apply bytes_reader_backed.
  - by right.
  - unfold MaxInt64. lia.
  - unfold inode_image_ok. rewrite Hsb. done.
  - rewrite Hms. apply parts_meta.
  - rewrite Hms. fold bs. lia.
  - rewrite L3. apply Z.mod_mul. lia.
Qed.

End Parts.

(** ** Reading an entry back *)

Lemma not_null a b : 0 <= a < 2 ^ 32 - 1 -> nullStartBlock a b = false.
Proof.
  intros Ha. unfold nullStartBlock, startBlockBits48, startBlockBits32. rewrite !Z.shiftl_1_l. apply Z.eqb_neq.
  destruct b; rewrite land_pow2_mask by lia; rewrite Z.mod_small by lia; lia.
Qed.

Lemma plain_file_size w st e d : writer_ok w -> plain w st e d -> readable w st e -> e_layout e = LayoutFlatPlain -> 0 < zlen d -> zlen d <= MaxInt64 ->
  i64 (inodeFileSize w st e) = zlen d /\ inode_data w e = e_dataBlkAddr e.
Proof.
  intros Hw Hp Hr L Hd Hm. pose proof (rb_size _ _ _ Hr) as Hz. pose proof (nf_size _ _ _ (rb_fits _ _ _ Hr)) as Hn.
  unfold inodeFileSize, inode_data, is_u64, MaxInt64 in *. rewrite L.
  destruct Hp as [src b T _ Hs D C Lb|ents T _ De M|T _|H0]; [| | |done]; rewrite T in *;
    cbn [Z.eqb StatTypeReg StatTypeDir StatTypeSymlink LayoutFlatPlain LayoutChunkBased Pos.eqb andb orb] in *.
  - rewrite (proj2 (Z.ltb_lt 0 (e_size e))) by lia. split; [|done]. by rewrite i64_id by lia.
  - rewrite M, (calcDirentDataSize_data w st e ents) in * by done. split; [|done]. rewrite u64_id by (unfold is_u64; lia). by rewrite i64_id by lia.
  - split; [|done]. by rewrite i64_id by lia.
Qed.

(** What the reader gets of an entry: its attributes, its xattrs, its content
    block by block, its chunk map and tail block, and a directory's entries. *)
Record reads_back (w : erofsWriter) (st : store) (img : image) (c : bytes) (e : erofsEntry) (t d name : bytes) : Prop := {
  rk_inode : readInfo_fresh img name (e_nid e) (EroFSFtypeToFileMode (e_erofsFileType e)) = Ok (inode_read w st e name);
  rk_xattrs : e_xattrs e <> ∅ -> loadXattrs img (inode_read w st e name) = Ok (e_xattrs e);
  rk_inline : e_layout e = LayoutFlatInline -> 0 < zlen t -> serves img (inode_read w st e name) t;
  rk_plain : e_layout e = LayoutFlatPlain -> 0 < zlen d -> serves img (inode_read w st e name) d;
  rk_xsize : 0 < e_xattrSize e <-> e_xattrs e <> ∅;
  rk_inline_ranges : e_layout e = LayoutFlatInline -> 0 < zlen t -> exists r, buildDataRanges img (inode_read w st e name) [] = Ok r;
  rk_plain_ranges : e_layout e = LayoutFlatPlain -> 0 < zlen d -> exists r, buildDataRanges img (inode_read w st e name) [] = Ok r;
  rk_map : e_layout e = LayoutChunkBased -> 0 < zlen t ->
    sub c (Z.to_nat (chunk_base img (inode_read w st e name) (u16 (ino_inodeData (inode_read w st e name))))) (length t) = t;
  rk_tail : 0 < zlen (e_tail e) -> sub c (Z.to_nat (e_tailBlkAddr e * w_blockSize w)) (length (e_tail e)) = e_tail e;
  rk_dir : e_type e = StatTypeDir -> 0 < direntDataSize w st e ->
    let f := new_file name (e_nid e) (EroFSFtypeToFileMode (e_erofsFileType e)) in
    exists ents, dir_entries w st e ents /\
      (forall x, (lookup img f x).1 = match dir_map ents !! x with Some a => Ok a | None => Err ErrNotExist end) /\
      exists r, ReadDir img (mkDir f 0 0) (-1) = Ok r /\ rdd_err r = None /\
        rdd_ents r = info_ent <$> filter (fun x => is_dot (di_name x) = false) ents;
}.

Section Back.
Context (w1 : erofsWriter) (st1 : store) (tr pl : ptr -> bytes) (c : bytes) (l ml : list (erofsEntry * bytes)).
Context (area rest : bytes) (sum : Z) (pad : nat) (P : image_parts w1 st1 tr pl c l ml area rest sum pad).
Context (Hmax : zlen c <= MaxInt64 - 2 ^ 16) (Hco : content_ok w1 st1 tr).
Context (img : image) (extra : list ReaderAt) (Ho : opened_as w1 st1 (fst <$> l) c extra img) (Hwf : image_wf img).
Context (Hca : carries w1 img c (meta_bytes w1 st1 0 ml ++ zeros pad)).
Context (p : ptr) (e : erofsEntry) (name : bytes) (Hp : p ∈ w_entries w1) (He : st1 !! p = Some e).

Lemma back_reads : entry_reads w1 st1 img c e (tr p) name /\ slot_ok w1 st1 e.
Proof using P Hco Hca Hp He.
  destruct (parts_writer _ _ _ _ _ _ _ _ _ _ _ P) as [Hw _].
  by destruct (metadata_facts w1 st1 tr ml pad img c p e name Hw (ip_slots _ _ _ _ _ _ _ _ _ _ _ P) Hco (ip_laid _ _ _ _ _ _ _ _ _ _ _ P)
    (ip_ml _ _ _ _ _ _ _ _ _ _ _ P) Hca Hp He) as (R & S & _).
Qed.

Lemma back_data : exists a, plain w1 st1 e (pl p) /\ 0 <= a /\ a * w_blockSize w1 + zlen (pl p) <= zlen c /\ (0 < zlen (pl p) -> a < 2 ^ 32 - 1) /\
  sub c (Z.to_nat (a * w_blockSize w1)) (length (pl p)) = pl p /\ (0 < zlen (pl p) -> e_dataBlkAddr e = a) /\
  (0 < zlen (e_tail e) -> sub c (Z.to_nat (e_tailBlkAddr e * w_blockSize w1)) (length (e_tail e)) = e_tail e).
Proof using P Hp He Hmax.
  destruct (parts_writer _ _ _ _ _ _ _ _ _ _ _ P) as [Hw Hb]. destruct (parts_lengths _ _ _ _ _ _ _ _ _ _ _ P) as (L1 & L2 & L3 & L4 & L5).
  pose proof Hp as Hp'. apply list_elem_of_lookup in Hp' as [i Hi]. pose proof (ip_l _ _ _ _ _ _ _ _ _ _ _ P i p e Hi He) as Hl.
  pose proof (ip_plain _ _ _ _ _ _ _ _ _ _ _ P) as Hf. pose proof (proj1 (Forall_lookup _ _) Hf i _ Hl) as [Hpl Ht]. cbn [fst snd] in Hpl, Ht.
  destruct (data_at w1 st1 l i e (pl p) Hw Hf Hl) as [D1 D2]. destruct (data_parts w1 st1 e (pl p) Hw Hpl Ht) as (Q1 & Q2 & Q3).
  destruct (ip_addr _ _ _ _ _ _ _ _ _ _ _ P i p e Hi He) as [A1 A2]. cbv zeta in A1, A2.
  destruct (ip_total _ _ _ _ _ _ _ _ _ _ _ P) as (T1 & T2 & T3). pose proof (blocks_of_nonneg w1 st1 (fst <$> take i l) Hw) as Nb.
  set (n := blocks_of w1 st1 (fst <$> take i l)) in *. set (bs := w_blockSize w1) in *. set (db := data_bytes w1 e (pl p)) in *.
  assert (S : forall o k, (o + k <= length db)%nat -> sub c (Z.to_nat ((sbAreaBlocks w1 + n) * bs) + o) k = sub db o k).
  { intros o k Hok. replace (Z.to_nat ((sbAreaBlocks w1 + n) * bs) + o)%nat with (Z.to_nat (sbAreaBlocks w1 * bs) + (Z.to_nat (n * bs) + o))%nat by lia.
    unfold bs at 1. rewrite (parts_data _ _ _ _ _ _ _ _ _ _ _ P) by (fold bs; unfold zlen in D2; lia). rewrite <- D1. symmetry. apply sub_sub. lia. }
  exists (sbAreaBlocks w1 + n). split; [done|]. split; [lia|]. split; [lia|]. split; [|split; [|split; [done|]]].
  - intros H. unfold MaxUint32 in *. assert (n < blocks_of w1 st1 (fst <$> l)) by nia. lia.
  - rewrite <- (Nat.add_0_r (Z.to_nat _)). rewrite S by (unfold zlen in Q2; lia). done.
  - intros H. destruct (Q3 H) as [Q4 Q5]. rewrite (A2 H). pose proof (data_blocks_nonneg w1 st1 e Hw).
    assert (0 <= data_blocks w1 st1 e - 1) by (unfold data_blocks; cbv zeta; rewrite (proj2 (Z.ltb_lt 0 (zlen (e_tail e)))) by lia;
      destruct (Z.ltb_spec 0 (flatPlainDataSize w1 st1 e)); [rewrite Z.quot_div_nonneg by lia; pose proof (Z.div_pos (flatPlainDataSize w1 st1 e + w_blockSize w1 - 1) (w_blockSize w1) ltac:(lia) ltac:(lia))|]; lia).
    assert (0 <= (data_blocks w1 st1 e - 1) * bs) by nia. assert (0 <= (sbAreaBlocks w1 + n) * bs) by nia.
    replace (Z.to_nat ((sbAreaBlocks w1 + n + (data_blocks w1 st1 e - 1)) * bs)) with
      (Z.to_nat ((sbAreaBlocks w1 + n) * bs) + Z.to_nat ((data_blocks w1 st1 e - 1) * bs))%nat by lia.
    rewrite S by (unfold zlen in Q5; lia). done.
Qed.

Let ino := inode_read w1 st1 e name.

Lemma back_inode : readInfo_fresh img name (e_nid e) (EroFSFtypeToFileMode (e_erofsFileType e)) = Ok ino /\ inode_wf img ino.
Proof using P Hco Hca Hp He.
  destruct back_reads as [[R _] _]. split; [done|]. by destruct (readInfo_fresh_facts _ _ _ _ _ R).
Qed.

Lemma back_xattrs : e_xattrs e <> ∅ -> loadXattrs img ino = Ok (e_xattrs e).
Proof using P Hmax Hco Ho Hwf Hca Hp He.
  intros Hx. destruct back_inode as [_ Hi]. destruct back_reads as [(_ & R & _) Hs]. cbv zeta in R.
  destruct (parts_slot _ _ _ _ _ _ _ _ _ _ _ P p e Hp He) as [_ Hm]. destruct (slot_end_ge w1 st1 e Hs) as (G1 & G2 & G3 & _).
  destruct (calcXattrSize_spec (e_xattrs e)) as [[_ ?]|(_ & X1 & _)]; [done|]. rewrite <- (so_xattr _ _ _ Hs) in X1.
  pose proof (ca_fits _ _ _ _ Hca) as Cf. pose proof (so_nid _ _ _ Hs) as Hn. destruct (metaStartPos_eq img Hwf) as [_ Mp].
  pose proof (so_trailing_nonneg _ _ _ Hs) as Tn. pose proof (inodeCoreSize_cases e) as Cs. pose proof (wf_size _ Hwf).
  assert (Fit : metaStartPos img + e_nid e * 32 + inodeCoreSize e + e_xattrSize e <= zlen c).
  { unfold slot_end, slot_size, slot_start in *.
    destruct (inodeSlotAlign_spec (inodeCoreSize e + e_xattrSize e + e_chunkPad e + e_trailingSize e)). lia. }
  change (ino_icsize (inode_read w1 st1 e name)) with (inodeCoreSize e) in R. change (ino_xsize (inode_read w1 st1 e name)) with (e_xattrSize e) in R.
  rewrite (loadXattrs_ref img ino c Hwf Hi); try apply Hca.
  - change (ino_nid ino) with (e_nid e). change (ino_icsize ino) with (inodeCoreSize e). change (ino_xsize ino) with (e_xattrSize e). rewrite R.
    unfold xattr_bytes. rewrite (proj2 (Z.ltb_lt _ _)) by lia. apply ref_xattrs_area; [done|].
    intros k v. by apply (ip_xattrs _ _ _ _ _ _ _ _ _ _ _ P p e k v).
  - change (is_u64 (e_nid e)). unfold is_u64, MaxInt64 in *. lia.
  - change (0 < e_xattrSize e). lia.
  - change (metaStartPos img + e_nid e * 32 + inodeCoreSize e + e_xattrSize e <= Z.min (zlen c) MaxInt64). unfold MaxInt64 in *. lia.
  - intros _. rewrite (oa_size _ _ _ _ _ _ Ho). exact Fit.
Qed.

Lemma back_nid : is_u64 (ino_nid ino).
Proof using P Hmax Hp He.
  destruct (parts_slot _ _ _ _ _ _ _ _ _ _ _ P p e Hp He) as [Hs Hm]. pose proof (so_nid _ _ _ Hs). change (is_u64 (e_nid e)).
  destruct (parts_lengths _ _ _ _ _ _ _ _ _ _ _ P) as (_ & _ & _ & _ & L5). destruct (slot_end_ge w1 st1 e Hs) as (G1 & _).
  pose proof (zlen_nonneg area). pose proof (zlen_nonneg (data_area w1 l)). pose proof (inodeCoreSize_cases e).
  unfold is_u64, MaxInt64, slot_start in *. lia.
Qed.

Lemma back_small : e_layout e = LayoutFlatInline -> zlen (tr p) <= 2 ^ img_bits img.
Proof using P Hco Hca Hp He name.
  intros L. destruct back_reads as [_ Hs]. destruct (parts_writer _ _ _ _ _ _ _ _ _ _ _ P) as [Hw Hb].
  destruct (Hco p e Hp He) as (Hz & Htr & Hr). assert (Hwr : writable w1 st1 e (tr p)) by (by split).
  pose proof (trailing_len w1 st1 e (tr p) Hw Hwr) as HL. pose proof (so_inline _ _ _ Hs L) as HI. destruct (slot_end_ge w1 st1 e Hs) as (_ & G2 & _).
  pose proof (Z.mod_pos_bound (slot_start e) (w_blockSize w1) ltac:(lia)) as HM. rewrite <- (ca_bits _ _ _ _ Hca).
  destruct (inodeCoreSize_cases e); lia.
Qed.

Lemma back_inline : e_layout e = LayoutFlatInline -> 0 < zlen (tr p) -> serves img ino (tr p).
Proof using P Hco Hwf Hca Hp He.
  intros L Ht. destruct back_reads as [(_ & _ & _ & R) Hs]. destruct (parts_writer _ _ _ _ _ _ _ _ _ _ _ P) as [Hw _].
  destruct (Hco p e Hp He) as (Hz & Htr & Hr). pose proof (back_small L) as Fit.
  assert (Sz : ino_size ino = zlen (tr p)) by (apply (inline_size w1 st1 e (tr p)); done).
  split; [done|]. intros pos Hpos. fold ino in R. rewrite R by done. do 3 f_equal. unfold block_span. rewrite Sz.
  rewrite Z.mod_small by lia. lia.
Qed.

Lemma back_xsize : 0 < e_xattrSize e <-> e_xattrs e <> ∅.
Proof using P Hco Hca Hp He name.
  destruct back_reads as [_ Hs]. rewrite (so_xattr _ _ _ Hs). destruct (calcXattrSize_spec (e_xattrs e)) as [[-> E]|(N & X & _)]; [|split; [done|lia]].
  split; [lia|by intros []].
Qed.

Lemma back_inline_ranges : e_layout e = LayoutFlatInline -> 0 < zlen (tr p) -> exists r, buildDataRanges img ino [] = Ok r.
Proof using P Hmax Hco Ho Hwf Hca Hp He.
  intros L Ht. destruct back_reads as [_ Hs]. destruct (parts_writer _ _ _ _ _ _ _ _ _ _ _ P) as [Hw _]. pose proof (back_small L) as Fit.
  destruct (parts_slot _ _ _ _ _ _ _ _ _ _ _ P p e Hp He) as [_ Hm]. destruct (Hco p e Hp He) as (Hz & Htr & Hr).
  assert (Hwr : writable w1 st1 e (tr p)) by (by split). pose proof (sv_size _ _ _ (back_inline L Ht)) as Sz.
  destruct (carries_addr w1 st1 e (tr p) img c _ Hwr Hca Hm) as (_ & _ & A3 & A4). destruct (slot_end_ge w1 st1 e Hs) as (G1 & G2 & G3 & _).
  pose proof (trailing_len w1 st1 e (tr p) Hw Hwr) as HL. pose proof (ca_fits _ _ _ _ Hca) as Cf. pose proof (inodeCoreSize_cases e) as Cs.
  assert (Hend : slot_start e + inodeCoreSize e + e_xattrSize e + zlen (tr p) <= slot_end e).
  { unfold slot_end, slot_size. destruct (inodeSlotAlign_spec (inodeCoreSize e + e_xattrSize e + e_chunkPad e + e_trailingSize e)). lia. }
  unfold buildDataRanges. change (ino_inodeLayout ino) with (e_layout e). rewrite L. cbn [Z.eqb LayoutFlatPlain LayoutFlatInline Pos.eqb].
  rewrite Sz, shiftl1 by (pose proof (wf_bits _ Hwf); lia). rewrite (proj2 (Z.leb_le _ _)) by lia.
  change (ino_nid ino) with (e_nid e). change (flatDataOffset ino) with (inodeCoreSize e + e_xattrSize e).
  unfold SizeInodeCompact, slot_start, MaxInt64 in *. rewrite (i64_id (e_nid e)), (i64_id (e_nid e * 32)), (i64_id (metaStartPos img + _)), i64_id by lia.
  unfold checkImageRange, MaxInt64. rewrite (oa_size _ _ _ _ _ _ Ho).
  rewrite (proj2 (Z.ltb_ge _ 0)), (proj2 (Z.ltb_ge _ 0)), (proj2 (Z.ltb_ge (2 ^ 63 - 1 - _) _)) by lia. cbn [orb]. rewrite i64_id by lia.
  rewrite (proj2 (Z.ltb_ge (zlen c) _)) by lia. rewrite andb_false_r. by eexists.
Qed.

Lemma back_plain_both : e_layout e = LayoutFlatPlain -> 0 < zlen (pl p) -> serves img ino (pl p) /\ exists r, buildDataRanges img ino [] = Ok r.
Proof using P Hmax Hco Ho Hwf Hca Hp He.
  intros L Hd. destruct back_inode as [_ Hi]. destruct back_data as (a & D1 & D2 & D3 & D4 & D5 & D6 & _). specialize (D4 Hd). specialize (D6 Hd).
  destruct (parts_writer _ _ _ _ _ _ _ _ _ _ _ P) as [Hw Hb]. destruct (Hco p e Hp He) as (_ & _ & Hr). unfold MaxInt64 in *.
  assert (0 <= a * w_blockSize w1) by nia.
  destruct (plain_file_size w1 st1 e (pl p) Hw D1 Hr L Hd ltac:(unfold MaxInt64; lia)) as [Sz Dt].
  assert (Sb : startBlock ino = a).
  { unfold startBlock. change (ino_inodeData ino) with (inode_data w1 e). change (ino_startHi ino) with 0. rewrite Dt, D6, Z.shiftl_0_l. apply Z.lor_0_r. }
  assert (Nu : nullAddress ino = false) by (unfold nullAddress; rewrite Sb, not_null by lia; apply andb_false_r).
  assert (Fi : startBlock ino * 2 ^ img_bits img + zlen (pl p) <= zlen c) by (rewrite Sb, <- (ca_bits _ _ _ _ Hca); done).
  destruct Ho as [_ Os Om Ou _ _]. split.
  - apply (plain_serves img ino c); try done; try (unfold MaxInt64; lia); [rewrite Sb, <- (ca_bits _ _ _ _ Hca); done|apply back_nid].
  - destruct (own_located img ino c (pl p) Hwf Hi Ou Os ltac:(unfold MaxInt64; lia) Sz Hd Fi) as [Ea El].
    unfold buildDataRanges. change (ino_inodeLayout ino) with (e_layout e). rewrite L. cbn [Z.eqb LayoutFlatPlain]. unfold flatPlainRange, locateStart.
    rewrite Nu, Ea, El. by eexists.
Qed.

Lemma back_plain : e_layout e = LayoutFlatPlain -> 0 < zlen (pl p) -> serves img ino (pl p).
Proof using P Hmax Hco Ho Hwf Hca Hp He. intros L Hd. by apply back_plain_both. Qed.

Lemma back_dir : e_type e = StatTypeDir -> 0 < direntDataSize w1 st1 e ->
  let f := new_file name (e_nid e) (EroFSFtypeToFileMode (e_erofsFileType e)) in
  exists ents, dir_entries w1 st1 e ents /\
    (forall x, (lookup img f x).1 = match dir_map ents !! x with Some a => Ok a | None => Err ErrNotExist end) /\
    exists r, ReadDir img (mkDir f 0 0) (-1) = Ok r /\ rdd_err r = None /\
      rdd_ents r = info_ent <$> filter (fun x => is_dot (di_name x) = false) ents.
Proof using P Hmax Hco Ho Hwf Hca Hp He.
  intros T Hz f. destruct (parts_writer _ _ _ _ _ _ _ _ _ _ _ P) as [Hw _]. destruct back_inode as [R Hi].
  assert (X : exists ents, dir_entries w1 st1 e ents /\ holds img ino (dir_data w1 ents)).
  { assert (BP : e_layout e = LayoutFlatPlain -> 0 < zlen (pl p) -> holds img ino (pl p)).
    { intros L D. destruct back_data as (a & _ & A0 & A1 & _). apply serves_holds; [done| |by apply back_plain].
      pose proof (writer_ok_pos w1 Hw). assert (0 <= a * w_blockSize w1) by nia. lia. }
    assert (BI : e_layout e = LayoutFlatInline -> 0 < zlen (tr p) -> holds img ino (tr p)).
    { intros L D. apply serves_holds; [done| |by apply back_inline]. pose proof (back_small L). pose proof (pow2_bits _ (wf_bits _ Hwf)).
      unfold MaxInt64. lia. }
    destruct (Hco p e Hp He) as (_ & Ht & _). destruct back_data as (_ & Hpl & _).
    destruct Ht as [T' _ _ _ _|? ? T' _ _ _ _ _|ents _ L De M|T' _|[L|[(T' & _)|(T' & _)]]]; try (rewrite T in T'; discriminate).
    - exists ents. split; [done|]. apply BI; [done|]. by rewrite <- (calcDirentDataSize_data w1 st1 e ents), <- M.
    - destruct Hpl as [? ? T' _ _ _ _ _|ents _ _ De M|T' _|H0]; try (rewrite T in T'; discriminate).
      + exists ents. split; [done|]. apply BP; [done|]. by rewrite <- (calcDirentDataSize_data w1 st1 e ents), <- M.
      + unfold flatPlainDataSize in H0. rewrite L, T in H0. cbn [Z.eqb negb LayoutFlatPlain StatTypeReg StatTypeDir Pos.eqb] in H0. lia. }
  destruct X as (ents & De & Hh). exists ents. split; [exact De|].
  apply (directory_facts w1 st1 e ents img f ino (with_info f (Some ino))); try done; [apply Hca|].
  by apply (readInfo_of_fresh img f).
Qed.

Lemma back_all : reads_back w1 st1 img c e (tr p) (pl p) name.
Proof using P Hmax Hco Ho Hwf Hca Hp He.
  split; [apply back_inode|apply back_xattrs|apply back_inline|apply back_plain|apply back_xsize|apply back_inline_ranges| | | |apply back_dir].
  - by intros; apply back_plain_both.
  - by destruct back_reads as [(_ & _ & R & _) _].
  - by destruct back_data as (a & _ & _ & _ & _ & _ & _ & R).
Qed.

End Back.

(** What is known of the image read from the output of [write]. *)
Record read_of (w : erofsWriter) (st : store) (tr pl : ptr -> bytes) (c : bytes) (extra : list ReaderAt)
  (w1 : erofsWriter) (st1 : store) (img : image) : Prop := {
  ro_assigned : assignDataBlocks (with_metaBlkAddr w (2 ^ 32 - 1)) st = Ok (w1, st1);
  ro_store : assigned_store st st1;
  ro_writer : exists a, w1 = with_metaBlkAddr w a;
  ro_open : Open_image (bytes_reader c) extra = Ok img;
  ro_root : sb_RootNid (img_sb img) = w_rootNid w;
  ro_wf : image_wf img;
  ro_mapping : mapping_ok img;
  ro_meta : img_meta img = bytes_reader c;
  ro_readers : Forall (fun d => dev_device d ∈ extra) (img_devices img);
  ro_content p e : p ∈ w_entries w -> st1 !! p = Some e ->
    0 <= e_size e <= MaxInt64 /\ trailing w1 st1 e (tr p) /\ readable w1 st1 e /\ plain w1 st1 e (pl p) /\ is_u64 (e_nid e);
  ro_entry p e name : p ∈ w_entries w -> st1 !! p = Some e -> reads_back w1 st1 img c e (tr p) (pl p) name;
}.

Lemma image_facts {S} `{SeekSinkLaws S} `{!SinkLaws S} w st (out out' : S) tr pl extra :
  to_write w st tr pl -> Written out = [] -> write w st out = Ok out' -> zlen (Content out') <= MaxInt64 - 2 ^ 16 ->
  length extra = length (w_devices w) -> Forall sized extra -> Forall ReaderAtLaws extra ->
  exists w1 st1 img, read_of w st tr pl (Content out') extra w1 st1 img.
Proof.
  intros Ht Hout E Hmax Hx Hsz Hlaws. destruct (write_parts w st out out' tr pl Ht Hout E) as (w1 & st1 & l & ml & area & rest & sum & pad & Ea & (a & ->) & As & P).
  pose proof Ht as [_ _ (rp & re & R1 & R2 & R3 & R4) _ Hco]. destruct (Hco _ _ Ea) as [Hc Hpl].
  destruct (as_entry _ _ As rp re R2) as (re' & R2' & (x & y & z & Er)). assert (R3' : e_nid re' = w_rootNid w) by (by rewrite Er).
  destruct (parts_open _ st1 tr pl (Content out') l ml area rest sum pad P Hmax extra Hx Hsz Hlaws rp re' R1 R2' R3' R4) as (img & Oi & Oa & Hwf & Hca).
  exists (with_metaBlkAddr w a), st1, img. destruct (oa_sb _ _ _ _ _ _ Oa) as [sm Esb].
  destruct (parts_slot _ _ _ _ _ _ _ _ _ _ _ P rp re' R1 R2') as [Hs _]. pose proof (so_nid _ _ _ Hs) as Hn.
  split; [done|done|by exists a|done| |done| |apply Oa|apply Oa| |].
  - rewrite Esb. change (u16 (w_rootNid w) = w_rootNid w). apply Z.mod_small. unfold MaxUint16 in *. lia.
  - apply unmapped_mapping; [apply Oa|]. rewrite (oa_size _ _ _ _ _ _ Oa).
    destruct (slot_end_ge _ st1 re' Hs) as (G1 & _). destruct (parts_slot _ _ _ _ _ _ _ _ _ _ _ P rp re' R1 R2') as [_ Hm].
    destruct (parts_lengths _ _ _ _ _ _ _ _ _ _ _ P) as (_ & _ & _ & _ & L5).
    pose proof (zlen_nonneg area). pose proof (zlen_nonneg (data_area (with_metaBlkAddr w a) l)). pose proof (inodeCoreSize_cases re').
    unfold slot_start in *. lia.
  - intros p e Hp He. destruct (Hc p e Hp He) as (C1 & C2 & C3). split; [done|]. split; [done|]. split; [done|].
    split; [by apply Hpl|]. exact (back_nid _ st1 tr pl _ l ml area rest sum pad P Hmax p e [] Hp He).
  - intros p e name Hp He.
    exact (back_all _ st1 tr pl _ l ml area rest sum pad P Hmax Hc img extra Oa Hwf Hca p e name Hp He).
Qed.

(** C4: a written image is the tree it was written from.  Take a tree that is
    planned, with a root nid the superblock can hold, tails of at most a block
    and contents of the sizes planned ([to_write]), an output that is empty, and
    as many device readers as the writer has devices.  When [write] succeeds
    with an output of at most [MaxInt64 - 2^16] bytes, [Open] opens it, the
    superblock's root is the tree's, and of every entry, as it was addressed, the
    reader gets back the attributes, the xattrs, flat content from any position
    whether inline or in blocks of its own, the chunk map and the tail block in
    place, and in a directory every lookup and the listing answer as its entries
    do. *)
Theorem image_roundtrip {S} `{SeekSinkLaws S} `{!SinkLaws S} w st (out out' : S) tr pl extra :
  to_write w st tr pl -> Written out = [] -> write w st out = Ok out' -> zlen (Content out') <= MaxInt64 - 2 ^ 16 ->
  length extra = length (w_devices w) -> Forall sized extra -> Forall ReaderAtLaws extra ->
  exists w1 st1 img, assignDataBlocks (with_metaBlkAddr w (2 ^ 32 - 1)) st = Ok (w1, st1) /\
    Open_image (bytes_reader (Content out')) extra = Ok img /\ sb_RootNid (img_sb img) = w_rootNid w /\
    forall p e name, p ∈ w_entries w -> st1 !! p = Some e -> reads_back w1 st1 img (Content out') e (tr p) (pl p) name.
Proof.
  intros Ht Hout E Hmax Hx Hsz Hlaws. destruct (image_facts w st out out' tr pl extra Ht Hout E Hmax Hx Hsz Hlaws) as (w1 & st1 & img & []).
  exists w1, st1, img. split; [done|]. split; [done|]. split; [done|]. intros p e name Hp He. by apply ro_entry0.
Qed.

#[export] Instance memfile_laws : SinkLaws memfile.
Proof.
  split; [|done]. intros [data pos] p s' [= <-]. cbn [Written memfile_sink mf_data mf_pos]. rewrite app_assoc.
  by rewrite take_app_le, take_ge by (rewrite !length_app; lia).
Qed.

#[export] Instance memfile_seek_laws : SeekSinkLaws memfile.
Proof.
  split.
  - intros [data pos]. cbn. rewrite length_take. destruct (Nat.le_gt_cases pos (length data)); [by rewrite Nat.min_l by lia|]. by rewrite !take_ge by lia.
  - intros [data pos] p s' [= <-]. cbn. do 2 f_equal. rewrite length_take.
    destruct (Nat.le_gt_cases pos (length data)); [by rewrite Nat.min_l by lia|]. by rewrite !drop_ge by lia.
  - by intros [data pos] s' [= <-].
  - done.
Qed.

(** The example tree written without inline file data. *)
Definition flat_writer : erofsWriter := mkWriter 512 true 0 0 0 [] [] 0 0 0.

Definition planned_flat : erofsWriter * store :=
  match planLayout flat_writer example_store 0 with Ok x => x | _ => (flat_writer, []) end.

Definition assigned_flat : erofsWriter * store :=
  match assignDataBlocks (with_metaBlkAddr planned_flat.1 (2 ^ 32 - 1)) planned_flat.2 with Ok x => x | _ => (flat_writer, []) end.

Definition flat_entry (p : ptr) : erofsEntry := default example_file (assigned_flat.2 !! p).

Lemma flat_entries : w_entries planned_flat.1 = [0; 1; 3]%nat.
Proof. vm_compute. reflexivity. Qed.

Lemma flat_assigned : assignDataBlocks (with_metaBlkAddr planned_flat.1 (2 ^ 32 - 1)) planned_flat.2 = Ok (assigned_flat.1, assigned_flat.2).
Proof.
  rewrite <- surjective_pairing.
  unfold assigned_flat. destruct (assignDataBlocks _ _) as [x|x|] eqn:E; [done| |]; exfalso;
    (assert (X : res_map (fun _ => tt) (assignDataBlocks (with_metaBlkAddr planned_flat.1 (2 ^ 32 - 1)) planned_flat.2) = Ok tt) by (vm_compute; reflexivity);
     rewrite E in X; discriminate).
Qed.

Lemma flat_lookup p : (p < 4)%nat -> assigned_flat.2 !! p = Some (flat_entry p).
Proof.
  intros Hp. unfold flat_entry. destruct (lookup_lt_is_Some_2 assigned_flat.2 p) as [e He]; [|by rewrite He].
  replace (length assigned_flat.2) with 4%nat; [done|]. vm_compute. reflexivity.
Qed.

Lemma flat_slots : writer_ok planned_flat.1 /\ slots planned_flat.1 planned_flat.2 0 (w_entries planned_flat.1).
Proof.
  unfold planned_flat. assert (W : writer_ok flat_writer) by (split; [exists 9; done|done]).
  destruct (planLayout_facts flat_writer example_store 0 W example_plannable) as (w & st & -> & [P1 _ _ _ _ P6 _ _]).
  cbn [fst snd]. rewrite P1. split; [by apply writer_ok_plan|]. by apply slots_plan.
Qed.

Lemma flat_dir : exists ents, dir_entries assigned_flat.1 assigned_flat.2 (flat_entry 0) ents.
Proof.
  apply allEnts_entries; [split; [exists 9; vm_compute; done|vm_compute; split; congruence]|]. split.
  - split; vm_compute; split; congruence.
  - assert (C : e_children (flat_entry 0) = [1; 3; 2]%nat) by (vm_compute; reflexivity). rewrite C.
    intros c Hc. exists (flat_entry c). rewrite flat_lookup by (set_unfold in Hc; lia). split; [done|]. set_unfold in Hc.
    destruct Hc as [-> | [-> | [-> | []]]]; (split; [apply checkDirentName_spec; vm_compute; reflexivity|]); vm_compute; repeat split; congruence.
  - apply (bool_decide_unpack _). vm_compute. done.
Qed.

Lemma flat_readable p : p ∈ [0; 1; 3]%nat -> readable assigned_flat.1 assigned_flat.2 (flat_entry p).
Proof.
  intros Hp. set_unfold in Hp.
  destruct Hp as [-> | [-> | [-> | []]]]; (split; [split|..]);
    try (vm_compute; split; congruence); try (vm_compute; congruence).
  all: try (left; vm_compute; reflexivity); try (right; left; vm_compute; reflexivity); try (vm_compute; intros _; repeat split; congruence).
  all: intros H; first [vm_compute in H; discriminate|split; [vm_compute; congruence|apply (bool_decide_unpack _); vm_compute; exact I]].
Qed.

Definition flat_trailing (ents : list direntInfo) (p : ptr) : bytes :=
  match p with O => dir_data assigned_flat.1 ents | 1 => [] | _ => bs "a" end%nat.

Definition flat_data (p : ptr) : bytes := match p with 1 => bs "hello" | _ => [] end%nat.

Lemma flat_super : sb_ok planned_flat.1.
Proof.
  split; [exact (proj1 flat_slots)|..].
  - assert (w_devices planned_flat.1 = []) as -> by (vm_compute; reflexivity). constructor.
  - vm_compute. congruence.
  - vm_compute; split; congruence.
  - vm_compute; split; congruence.
  - vm_compute; split; congruence.
  - vm_compute; split; congruence.
Qed.

Lemma flat_root : exists p e, p ∈ w_entries planned_flat.1 /\ planned_flat.2 !! p = Some e /\ e_nid e = w_rootNid planned_flat.1 /\
  w_rootNid planned_flat.1 <= MaxUint16.
Proof.
  exists 0%nat, (default example_file (planned_flat.2 !! 0%nat)). split; [rewrite flat_entries; left|].
  split; [vm_compute; reflexivity|]. split; [vm_compute; reflexivity|vm_compute; congruence].
Qed.

Lemma flat_sizes p e : p ∈ w_entries planned_flat.1 -> planned_flat.2 !! p = Some e ->
  0 <= flatPlainDataSize planned_flat.1 planned_flat.2 e /\ tail_ok planned_flat.1 e.
Proof.
  intros Hp He. rewrite flat_entries in Hp.
  assert (X : forallb (fun p => let e := default example_file (planned_flat.2 !! p) in
    (0 <=? flatPlainDataSize planned_flat.1 planned_flat.2 e) && (zlen (e_tail e) <=? w_blockSize planned_flat.1) && (zlen (e_tail e) =? 0))
    [0; 1; 3]%nat = true) by (vm_compute; reflexivity).
  rewrite forallb_forall in X. specialize (X p (proj1 (list_elem_of_In _ _) Hp)). cbv zeta in X. rewrite He in X. cbn [default from_option id] in X.
  zbool. split; [done|]. split; [done|lia].
Qed.

Lemma flat_to_write ents : dir_entries assigned_flat.1 assigned_flat.2 (flat_entry 0) ents ->
  to_write planned_flat.1 planned_flat.2 (flat_trailing ents) flat_data.
Proof.
  intros De. split; [exact flat_super|exact (proj2 flat_slots)|exact flat_root|exact flat_sizes|].
  intros w1 st1 E. rewrite flat_assigned in E. apply Ok_inj, pair_equal_spec in E as [<- <-].
    assert (Ee : w_entries assigned_flat.1 = [0; 1; 3]%nat) by (vm_compute; reflexivity). split.
    + intros p e Hp He. rewrite Ee in Hp. rewrite flat_lookup in He by (set_unfold in Hp; lia). apply (inj Some) in He as <-.
      split; [|split; [|by apply flat_readable]]; set_unfold in Hp; destruct Hp as [-> | [-> | [-> | []]]].
      1-3: vm_compute; split; congruence.
      * apply trailing_dir; [vm_compute; reflexivity..|done|vm_compute; reflexivity].
      * apply trailing_none. left. vm_compute. reflexivity.
      * replace (flat_trailing ents 3%nat) with (e_symTarget (flat_entry 3)) by (vm_compute; reflexivity).
        apply trailing_link; vm_compute; reflexivity.
    + intros p e Hp He. rewrite flat_entries in Hp. rewrite flat_lookup in He by (set_unfold in Hp; lia). apply (inj Some) in He as <-.
      set_unfold in Hp. destruct Hp as [-> | [-> | [-> | []]]]; [apply plain_none; vm_compute; reflexivity| |apply plain_none; vm_compute; reflexivity].
      apply (plain_file _ _ _ (bytes_source (bs "hello"))); vm_compute; (reflexivity || (split; congruence)).
Qed.

Lemma image_roundtrip_witness :
  exists out' img ino, write planned_flat.1 planned_flat.2 (mkMemfile [] 0) = Ok out' /\ zlen (Content out') = 2560 /\
    Open_image (bytes_reader (Content out')) [] = Ok img /\
    (lookup img (new_file (bs "/") 0 ModeDir) (bs "a")).1 = Ok (4, 0) /\
    readInfo_fresh img (bs "a") 4 0 = Ok ino /\ loadBlock img ino 0 = Ok (bs "hello").
Proof.
  destruct flat_dir as [ents De].
  destruct (write planned_flat.1 planned_flat.2 (mkMemfile [] 0)) as [out'|er|] eqn:Ew.
  2,3: exfalso; assert (X : res_map (fun _ => tt) (write planned_flat.1 planned_flat.2 (mkMemfile [] 0)) = Ok tt) by (vm_compute; reflexivity);
    rewrite Ew in X; discriminate.
  assert (Z : zlen (Content out') = 2560).
  { assert (X : res_map (fun o => zlen (Content o)) (write planned_flat.1 planned_flat.2 (mkMemfile [] 0)) = Ok 2560) by (vm_compute; reflexivity).
    rewrite Ew in X. by apply Ok_inj in X. }
  destruct (image_roundtrip planned_flat.1 planned_flat.2 (mkMemfile [] 0) out' (flat_trailing ents) flat_data [])
    as (w1 & st1 & img & E1 & E2 & E3 & E4); [by apply flat_to_write|reflexivity|done|rewrite Z; vm_compute; congruence|reflexivity|constructor|constructor|].
  rewrite flat_assigned in E1. apply Ok_inj, pair_equal_spec in E1 as [<- <-].
  pose proof (E4 0%nat (flat_entry 0) (bs "/") ltac:(rewrite flat_entries; left) (flat_lookup 0 ltac:(lia))) as R0.
  pose proof (E4 1%nat (flat_entry 1) (bs "a") ltac:(rewrite flat_entries; right; left) (flat_lookup 1 ltac:(lia))) as R1.
  exists out', img, (inode_read assigned_flat.1 assigned_flat.2 (flat_entry 1) (bs "a")). split; [done|]. split; [done|]. split; [done|]. split; [|split].
  - destruct (rk_dir _ _ _ _ _ _ _ _ R0) as (es & A1 & A2 & _); [vm_compute; reflexivity|vm_compute; reflexivity|].
    replace (e_nid (flat_entry 0)) with 0 in A2 by (vm_compute; reflexivity).
    replace (EroFSFtypeToFileMode (e_erofsFileType (flat_entry 0))) with ModeDir in A2 by (vm_compute; reflexivity). rewrite A2.
    assert (X : res_map (fun es => dir_map es !! bs "a") (allEnts assigned_flat.2 (flat_entry 0)) = Ok (Some (4, 0))) by (vm_compute; reflexivity).
    rewrite (de_all _ _ _ _ A1) in X. apply Ok_inj in X. cbv beta in X. by rewrite X.
  - pose proof (rk_inode _ _ _ _ _ _ _ _ R1) as A. replace (e_nid (flat_entry 1)) with 4 in A by (vm_compute; reflexivity).
    replace (EroFSFtypeToFileMode (e_erofsFileType (flat_entry 1))) with 0 in A by (vm_compute; reflexivity). exact A.
  - destruct (rk_plain _ _ _ _ _ _ _ _ R1) as [A0 A]; [vm_compute; reflexivity..|]. specialize (A 0 ltac:(vm_compute; split; congruence)).
    rewrite A. unfold block_span. rewrite A0.
    destruct (Open_facts (bytes_reader (Content out')) []) as [_ F]; [apply bytes_reader_sized; rewrite Z; vm_compute; congruence|constructor|apply bytes_reader_laws|constructor|].
    destruct (F img E2) as (Hwf & _). pose proof (pow2_bits _ (wf_bits _ Hwf)). change (zlen (flat_data 1)) with 5. rewrite Z.mod_0_l, Z.min_r by lia. reflexivity.
Defined.
