(* ===== verification/PathRead.v ===== *)
(** * Reading a written image by path

    What [resolve], [ReadFile] and [ReadLink] ([erofs.go]) answer on the output
    of [write] ([writer.go]): a path of the tree that was written leads to its
    entry, and reads as the bytes the entry's source gave. *)

From S2P Require Import Prelude Machine Disk Format Image Inode Data Reading Dir Path Xattr Stat Open Contents Layout Serialize Roundtrip DirWrite ImageWrite SuperWrite WriteImage.

(** ** The tree's paths *)

(** From the entry [p] of the tree, the elements of a path lead to [r]: one
    child per element, a hard link standing for the entry it is a link to. *)
Inductive reaches (w : erofsWriter) (st : store) : ptr -> list bytes -> ptr -> Prop :=
| reaches_here p : reaches w st p [] p
| reaches_child p e c k q e' xs r :
    st !! p = Some e -> e_type e = StatTypeDir -> 0 < direntDataSize w st e ->
    c ∈ e_children e -> st !! c = Some k ->
    q ∈ w_entries w -> st !! q = Some e' -> e_nid e' = e_nid k -> e_erofsFileType e' = e_erofsFileType k ->
    reaches w st q xs r -> reaches w st p (e_name k :: xs) r.

(** The bytes of a file or symlink: nothing, what its source gives, its target. *)
Inductive entry_bytes (e : erofsEntry) : bytes -> Prop :=
| eb_empty : e_type e = StatTypeReg -> e_size e = 0 -> entry_bytes e []
| eb_file src d : e_type e = StatTypeReg -> 0 < e_size e -> e_data e = Some src -> copy_upto src (e_size e) = (d, None) -> entry_bytes e d
| eb_link : e_type e = StatTypeSymlink -> entry_bytes e (e_symTarget e).

Definition flat (e : erofsEntry) : Prop := e_layout e = LayoutFlatPlain \/ e_layout e = LayoutFlatInline.

Lemma ftype_mode t : Z.land (EroFSFtypeToFileMode t) ModeType = EroFSFtypeToFileMode t.
Proof. unfold EroFSFtypeToFileMode. repeat case_match; reflexivity. Qed.

Lemma child_infos_elem (st : store) cs kids c k : child_infos st cs = Ok kids -> c ∈ cs -> st !! c = Some k ->
  mkDirentInfo (e_name k) (e_nid k) (e_erofsFileType k) ∈ kids.
Proof.
  revert kids. induction cs as [|x cs IH]; intros kids E Hc Hk; [by apply elem_of_nil in Hc|]. cbn [child_infos] in E. unfold child_info, deref in E.
  destruct (st !! x) as [ex|] eqn:Ex; [|done]. destruct (child_infos st cs) as [l| |] eqn:El; try done. apply Ok_inj in E as <-.
  apply elem_of_cons in Hc as [->|Hc]; [rewrite Hk in Ex; injection Ex as <-; left|right; by apply IH].
Qed.

(** A directory's map has every child under its name. *)
Lemma dir_map_child w st e ents c k : dir_entries w st e ents -> c ∈ e_children e -> st !! c = Some k ->
  dir_map ents !! e_name k = Some (e_nid k, EroFSFtypeToFileMode (e_erofsFileType k)).
Proof.
  intros [_ _ (kids & Ek & Pk) _ _ Hs] Hc Hk. unfold dir_map. apply elem_of_list_to_map_1.
  - rewrite <- list_fmap_compose. change (fst ∘ _) with di_name. by apply strict_NoDup.
  - apply list_elem_of_fmap. exists (mkDirentInfo (e_name k) (e_nid k) (e_erofsFileType k)). split; [done|]. rewrite Pk.
    apply elem_of_app. right. by eapply child_infos_elem.
Qed.

(** Two types or two layouts of one entry. *)
Ltac not_both :=
  match goal with
  | T : e_type ?e = _, T' : e_type ?e = _ |- _ => exfalso; rewrite T in T'; discriminate T'
  | L : e_layout ?e = _, L' : e_layout ?e = _ |- _ => exfalso; rewrite L in L'; discriminate L'
  end.

(** Which bytes a file or symlink has in blocks of its own or inline. *)
Definition has_bytes (e : erofsEntry) (d b : bytes) : Prop :=
  b = d /\ 0 < zlen d \/ e_type e = StatTypeReg /\ e_size e = 0 /\ d = [] \/ e_type e = StatTypeSymlink /\ d = [].

Lemma link_bytes e : e_type e = StatTypeSymlink -> has_bytes e (e_symTarget e) (e_symTarget e).
Proof.
  intros T. destruct (e_symTarget e) as [|x t] eqn:E; [right; by right|left]. split; [done|]. rewrite zlen_cons. pose proof (zlen_nonneg t). lia.
Qed.

Lemma plain_bytes w st e d b : e_layout e = LayoutFlatPlain -> 0 <= e_size e <= MaxInt64 -> entry_bytes e d -> plain w st e b -> has_bytes e d b.
Proof.
  intros L Hz Hb Hp. unfold MaxInt64 in *. destruct Hb as [T Z|src d T Z D C|T].
  - right. by left.
  - inversion Hp as [src' b' _ _ _ D' C' Lb|? T' _ _ _|T' _|H0]; subst; [|not_both..|].
    + left. rewrite D in D'. injection D' as <-. rewrite C in C'. injection C' as <-. split; [done|lia].
    + exfalso. unfold flatPlainDataSize in H0. rewrite L, T, D in H0. cbn [Z.eqb negb LayoutFlatPlain StatTypeReg Pos.eqb is_none] in H0.
      rewrite (proj2 (Z.ltb_lt 0 (e_size e))), i64_id in H0 by lia. cbn [andb] in H0. lia.
  - inversion Hp as [? ? T' _ _ _ _ _|? T' _ _ _|_ _|H0]; subst; [not_both..|by apply link_bytes|].
    unfold flatPlainDataSize in H0. rewrite L, T in H0. cbn [Z.eqb negb LayoutFlatPlain StatTypeReg StatTypeDir StatTypeSymlink Pos.eqb] in H0.
    right. right. split; [done|]. apply nil_length_inv. unfold zlen in H0. lia.
Qed.

Lemma inline_bytes w st e d b : e_layout e = LayoutFlatInline -> entry_bytes e d -> trailing w st e b -> has_bytes e d b.
Proof.
  intros L Hb Ht. destruct Hb as [T Z|src d T Z D C|T].
  - right. by left.
  - left. inversion Ht as [_ L' _ _ _|src' b' _ _ _ D' C' Lb|? T' _ _ _|T' _|[L'|[(_ & Z' & _)|(_ & L' & _)]]]; subst; try not_both; [|lia].
    rewrite D in D'. injection D' as <-. rewrite C in C'. injection C' as <-. split; [done|lia].
  - inversion Ht as [T' _ _ _ _|? ? T' _ _ _ _ _|? T' _ _ _|_ _|[L'|[(T' & _)|(T' & _)]]]; subst; try not_both. by apply link_bytes.
Qed.

Lemma regular_mode mode : is_u16 mode -> valid_type mode = true ->
  FileMode_IsRegular (EroFSModeToGoFileMode mode) = (Z.land mode StatTypeMask =? StatTypeReg).
Proof.
  intros Hm Hv. set (f m := implb (valid_type m) (Bool.eqb (FileMode_IsRegular (EroFSModeToGoFileMode m)) (Z.land m StatTypeMask =? StatTypeReg))).
  assert (Hf : all_modes f = true) by (vm_compute; reflexivity). pose proof (all_modes_spec f Hf mode Hm) as H. clear Hf. unfold f in H.
  rewrite Hv in H. by apply eqb_prop in H.
Qed.

(** What [Lstat] must say of an entry. *)
Record stat_says (e : erofsEntry) (name : bytes) (fi : fileInfo) : Prop := {
  ss_name : fi_name fi = name;
  ss_mode : fi_mode fi = EroFSModeToGoFileMode (e_mode e);
  ss_ids : st_UID (fi_stat fi) = e_uid e /\ st_GID (fi_stat fi) = e_gid e;
  ss_nlink : st_Nlink (fi_stat fi) = u64 (e_nlink e);
  ss_ino : st_Ino (fi_stat fi) = e_nid e;
  ss_mtime : fi_mtime fi = e_mtime e /\ fi_mtimeNs fi = e_mtimeNs e;
  ss_xattrs : GetAllXattr fi = if decide (e_xattrs e = ∅) then None else Some (e_xattrs e);
  ss_size d : flat e -> entry_bytes e d -> fi_size fi = zlen d;
}.

(** ** Walking the image *)

Section Paths.
Context (w : erofsWriter) (st : store) (tr pl : ptr -> bytes) (c : bytes) (extra : list ReaderAt).
Context (w1 : erofsWriter) (st1 : store) (img : image) (R : read_of w st tr pl c extra w1 st1 img).

Lemma entry_now p e : st !! p = Some e -> exists e1, st1 !! p = Some e1 /\ touched e e1.
Proof using R. apply (as_entry _ _ (ro_store _ _ _ _ _ _ _ _ _ R)). Qed.

Lemma size_now e e1 : touched e e1 -> direntDataSize w1 st1 e1 = direntDataSize w st e.
Proof using R.
  intros T. destruct (ro_writer _ _ _ _ _ _ _ _ _ R) as [a ->]. exact (dirents_assigned w st st1 (ro_store _ _ _ _ _ _ _ _ _ R) e e1 T).
Qed.

(** The type a dirent gives is the entry's. *)
Lemma entry_ftype p e t ft : p ∈ w_entries w -> st !! p = Some e -> e_type e = t -> modeToFileType t = ft -> e_erofsFileType e = ft.
Proof using R.
  intros Hp He <- <-. destruct (entry_now p e He) as (e1 & He1 & (x & y & z & E)).
  destruct (ro_content _ _ _ _ _ _ _ _ _ R p e1 Hp He1) as (_ & _ & Hr & _). pose proof (rb_ftype _ _ _ Hr) as F. rewrite E in F.
  change (e_erofsFileType e = modeToFileType (e_mode e)) in F. rewrite F. unfold modeToFileType, e_type. by rewrite <- Z.land_assoc.
Qed.

Lemma child_lookup p e ch k name : p ∈ w_entries w -> st !! p = Some e -> e_type e = StatTypeDir -> 0 < direntDataSize w st e ->
  ch ∈ e_children e -> st !! ch = Some k ->
  (lookup img (new_file name (e_nid e) ModeDir) (e_name k)).1 = Ok (e_nid k, EroFSFtypeToFileMode (e_erofsFileType k)).
Proof using R.
  intros Hp He T Hz Hc Hk. pose proof (entry_ftype p e _ _ Hp He T eq_refl) as Ft. destruct (entry_now p e He) as (e1 & He1 & Te).
  destruct (entry_now ch k Hk) as (k1 & Hk1 & (x & y & z & Ek)). pose proof (size_now e e1 Te) as Sz. destruct Te as (x' & y' & z' & Ee).
  destruct (rk_dir _ _ _ _ _ _ _ _ (ro_entry _ _ _ _ _ _ _ _ _ R p e1 name Hp He1)) as (ents & De & Hl & _); [by rewrite Ee|by rewrite Sz|].
  rewrite Ee in De, Hl. change (e_nid (set_dataBlkAddr _ _)) with (e_nid e) in Hl. change (e_erofsFileType (set_dataBlkAddr _ _)) with (e_erofsFileType e) in Hl.
  rewrite Ft in Hl. change (EroFSFtypeToFileMode (modeToFileType StatTypeDir)) with ModeDir in Hl. rewrite Hl.
  pose proof (dir_map_child w1 st1 _ ents ch k1 De Hc Hk1) as M. rewrite Ek in M.
  change (dir_map ents !! e_name k = Some (e_nid k, EroFSFtypeToFileMode (e_erofsFileType k))) in M. by rewrite M.
Qed.

(** A path of the tree is walked to its entry. *)
Lemma reaches_walks follow p xs r : reaches w st p xs r -> forall e er, p ∈ w_entries w -> st !! p = Some e -> st !! r = Some er -> xs <> [] ->
  (e_type er <> StatTypeSymlink \/ follow = false) ->
  r ∈ w_entries w /\ walks img follow xs (e_nid e) ModeDir (e_nid er) (EroFSFtypeToFileMode (e_erofsFileType er)).
Proof using R.
  induction 1 as [p|p e c' k q e' xs r He T Hz Hc Hk Hq He' En Ef Hr IH]; intros e2 er Hp He2 Hr' Hne Hs; [done|].
  rewrite He in He2. apply (inj Some) in He2 as <-. pose proof (child_lookup p e c' k (e_name k) Hp He T Hz Hc Hk) as L.
  rewrite <- En, <- Ef in L. destruct (decide (xs = [])) as [->|Hxs].
  - inversion Hr; subst. rewrite He' in Hr'. apply (inj Some) in Hr' as <-. split; [done|]. econstructor; [exact L| |rewrite ftype_mode; constructor].
    rewrite ftype_mode. destruct Hs as [Hs|Hs]; [left|by right].
    destruct (entry_now r e' He') as (e1 & He1 & (x & y & z & E)). destruct (ro_content _ _ _ _ _ _ _ _ _ R r e1 Hq He1) as (_ & _ & Hrd & _).
    rewrite (entry_ftype r e' _ _ Hq He' eq_refl eq_refl). unfold modeToFileType. unfold e_type in *. rewrite <- Z.land_assoc.
    change (Z.land StatTypeMask StatTypeMask) with StatTypeMask. repeat (case_match; [reflexivity|]).
    destruct (Z.eqb_spec (Z.land (e_mode e') StatTypeMask) StatTypeSymlink); [done|reflexivity].
  - destruct (IH e' er Hq He' Hr' Hxs Hs) as [I1 I2]. split; [done|].
    assert (Td : e_type e' = StatTypeDir) by (inversion Hr; subst; [done|congruence]).
    rewrite (entry_ftype q e' _ _ Hq He' Td eq_refl) in L. change (EroFSFtypeToFileMode (modeToFileType StatTypeDir)) with ModeDir in L.
    econstructor; [exact L|left; reflexivity|exact I2].
Qed.

(** An entry whose bytes are its own: it has them, or it is empty or a symlink
    without a target, which is refused. *)
Lemma entry_parts p e1 d name : p ∈ w_entries w -> st1 !! p = Some e1 -> flat e1 -> entry_bytes e1 d ->
  serves img (inode_read w1 st1 e1 name) d /\ (0 < zlen d -> exists r, buildDataRanges img (inode_read w1 st1 e1 name) [] = Ok r) /\
  (e_type e1 = StatTypeSymlink -> d <> [] /\ (x00 ∉ d)).
Proof using R.
  intros Hp He1 Hf Hb. destruct (ro_content _ _ _ _ _ _ _ _ _ R p e1 Hp He1) as (Hz & Ht & Hr & Hpl & Hn).
  pose proof (ro_entry _ _ _ _ _ _ _ _ _ R p e1 name Hp He1) as K. pose proof (rb_target _ _ _ Hr) as Hlk.
  assert (Hl : e_type e1 = StatTypeSymlink -> d <> [] /\ (x00 ∉ d)).
  { intros T. destruct Hb as [T' _|? ? T' _ _ _|T']; [not_both..|]. by apply Hlk. }
  set (ino := inode_read w1 st1 e1 name) in *.
  assert (X : forall b, has_bytes e1 d b -> (0 < zlen b -> serves img ino b /\ exists r, buildDataRanges img ino [] = Ok r) ->
    serves img ino d /\ (0 < zlen d -> exists r, buildDataRanges img ino [] = Ok r)).
  { intros b [[<- H]|[(T & Z & ->)|(T & ->)]] S; [destruct (S H); by split| |by destruct (Hl T)].
    split; [|change (zlen (@nil byte)) with 0; lia]. split; [|intros pos; change (zlen (@nil byte)) with 0; lia].
    change (i64 (inodeFileSize w1 st1 e1) = 0). unfold inodeFileSize. rewrite T, Z. reflexivity. }
  assert (Y : serves img ino d /\ (0 < zlen d -> exists r, buildDataRanges img ino [] = Ok r)); [|by destruct Y].
  destruct Hf as [L|L].
  - apply (X (pl p)); [by eapply plain_bytes|]. intros H. split; [by apply (rk_plain _ _ _ _ _ _ _ _ K)|by apply (rk_plain_ranges _ _ _ _ _ _ _ _ K)].
  - apply (X (tr p)); [by eapply inline_bytes|]. intros H. split; [by apply (rk_inline _ _ _ _ _ _ _ _ K)|by apply (rk_inline_ranges _ _ _ _ _ _ _ _ K)].
Qed.

Lemma entry_bytes_now e e1 d : touched e e1 -> entry_bytes e d -> entry_bytes e1 d.
Proof using Type.
  intros (x & y & z & ->) Hb. destruct Hb; [by apply eb_empty|by eapply eb_file|].
  exact (eb_link (set_dataBlkAddr x (set_chunks y (set_tailBlkAddr z e))) H).
Qed.

(** Every file or symlink with flat data serves its bytes. *)
Lemma entry_serves p e d name : p ∈ w_entries w -> st !! p = Some e -> flat e -> entry_bytes e d ->
  exists ino, readInfo_fresh img name (e_nid e) (EroFSFtypeToFileMode (e_erofsFileType e)) = Ok ino /\ serves img ino d /\ is_u64 (e_nid e) /\
    (e_type e = StatTypeSymlink -> d <> [] /\ (x00 ∉ d)).
Proof using R.
  intros Hp He Hf Hb. destruct (entry_now p e He) as (e1 & He1 & Te). pose proof (entry_bytes_now e e1 d Te Hb) as Hb1. destruct Te as (x & y & z & E).
  destruct (ro_content _ _ _ _ _ _ _ _ _ R p e1 Hp He1) as (_ & _ & _ & _ & Hn).
  pose proof (rk_inode _ _ _ _ _ _ _ _ (ro_entry _ _ _ _ _ _ _ _ _ R p e1 name Hp He1)) as Ki.
  destruct (entry_parts p e1 d name Hp He1) as (S1 & _ & S3); [by rewrite E|done|]. exists (inode_read w1 st1 e1 name).
  split; [rewrite E in Ki at 1 2; exact Ki|]. split; [done|]. split; [by rewrite E in Hn|by rewrite E in S3].
Qed.

(** And every entry that is no file of its own devices has its attributes. *)
Lemma entry_stat p e name : p ∈ w_entries w -> st !! p = Some e -> (e_type e = StatTypeReg -> flat e /\ exists d, entry_bytes e d) ->
  exists fi, (statInfo img (new_file name (e_nid e) (EroFSFtypeToFileMode (e_erofsFileType e)))).1 = Ok fi /\ stat_says e name fi.
Proof using R.
  intros Hp He Hreg. destruct (entry_now p e He) as (e1 & He1 & Te). pose proof Te as (x & y & z & E).
  destruct (ro_content _ _ _ _ _ _ _ _ _ R p e1 Hp He1) as (_ & _ & Hr & _). pose proof (ro_entry _ _ _ _ _ _ _ _ _ R p e1 name Hp He1) as K.
  pose proof (rk_inode _ _ _ _ _ _ _ _ K) as Ki. set (ino := inode_read w1 st1 e1 name) in *. destruct (readInfo_fresh_facts _ _ _ _ _ Ki) as (Hino & _).
  set (xs := if decide (e_xattrs e1 = ∅) then None else Some (e_xattrs e1)).
  assert (Hx : (if 0 <? ino_xsize ino then let! m := loadXattrs img ino in Ok (Some m) else Ok None) = Ok xs).
  { change (ino_xsize ino) with (e_xattrSize e1). pose proof (rk_xsize _ _ _ _ _ _ _ _ K) as Kx. unfold xs. destruct (Z.ltb_spec 0 (e_xattrSize e1)) as [Hl|Hl].
    - rewrite decide_False by (by apply Kx). pose proof (rk_xattrs _ _ _ _ _ _ _ _ K) as Kl. fold ino in Kl. rewrite Kl by (by apply Kx). done.
    - destruct (decide (e_xattrs e1 = ∅)) as [|Hne]; [done|]. apply Kx in Hne. lia. }
  assert (Hg : exists ranges, (if FileMode_IsRegular (ino_mode ino) && (0 <? ino_size ino) then
    if ino_inodeLayout ino =? LayoutChunkBased then buildChunkDataRanges img ino else buildDataRanges img ino [] else Ok []) = Ok ranges).
  { change (ino_mode ino) with (EroFSModeToGoFileMode (e_mode e1)). rewrite (regular_mode (e_mode e1) (wf_rawMode _ _ Hino) (rb_type _ _ _ Hr)).
    fold (e_type e1). destruct (Z.eqb_spec (e_type e1) StatTypeReg) as [T|T]; [|by exists []]. destruct Hreg as [Hf [d Hb]]; [by rewrite E in T|].
    destruct (entry_parts p e1 d name Hp He1) as (S1 & S2 & _); [by rewrite E|by apply (entry_bytes_now e)|]. fold ino in S1, S2. rewrite (sv_size _ _ _ S1).
    destruct (Z.ltb_spec 0 (zlen d)) as [Hd|Hd]; [|by exists []]. cbn [andb]. change (ino_inodeLayout ino) with (e_layout e1). destruct (S2 Hd) as [r ->].
    exists r. assert (L1 : e_layout e1 = e_layout e) by (by rewrite E). rewrite L1. by destruct Hf as [-> | ->]. }
  destruct Hg as [ranges Hg]. exists (info_of ino xs ranges). split.
  { pose proof (statInfo_fresh img name _ _ ino xs ranges Ki Hx Hg) as S. rewrite E in S at 1 2. exact S. }
  assert (Hxs : xs = if decide (e_xattrs e = ∅) then None else Some (e_xattrs e)) by (unfold xs; by rewrite E).
  assert (A : e_mode e1 = e_mode e /\ e_uid e1 = e_uid e /\ e_gid e1 = e_gid e /\ e_nlink e1 = e_nlink e /\ e_nid e1 = e_nid e /\
    e_mtime e1 = e_mtime e /\ e_mtimeNs e1 = e_mtimeNs e) by (by rewrite E). destruct A as (A1 & A2 & A3 & A4 & A5 & A6 & A7).
  split; [done|cbn; by rewrite ?A1, ?A2, ?A3, ?A4, ?A5, ?A6, ?A7..|exact Hxs|]. intros d Hf Hb.
  destruct (entry_parts p e1 d name Hp He1) as (S1 & _); [by rewrite E|by apply (entry_bytes_now e)|]. exact (sv_size _ _ _ S1).
Qed.

Context (Hset : Forall settled extra).

Lemma read_steady : steady img.
Proof using R Hset.
  split; [apply R|apply R|rewrite (ro_meta _ _ _ _ _ _ _ _ _ R); apply bytes_reader_settled|].
  eapply Forall_impl; [apply (ro_readers _ _ _ _ _ _ _ _ _ R)|]. intros dv Hd. by apply (proj1 (Forall_forall _ _) Hset).
Qed.

(** A path of the tree, from the root. *)
Record tree_path (path : bytes) (r : ptr) (er : erofsEntry) : Prop := {
  tp_valid : validPath path = true;
  tp_named : path <> bs ".";
  tp_short : zlen path <= maxPathLen;
  tp_entry : st !! r = Some er;
  tp_root : exists rp re, rp ∈ w_entries w /\ st !! rp = Some re /\ e_nid re = w_rootNid w /\ reaches w st rp (components path) r;
}.

Lemma tree_path_resolves follow path r er : tree_path path r er -> e_type er <> StatTypeSymlink \/ follow = false ->
  r ∈ w_entries w /\
  resolve img path follow = Ok (e_nid er, EroFSFtypeToFileMode (e_erofsFileType er), List.last (components path) []).
Proof using R.
  intros [V N Sh Er (rp & re & H1 & H2 & H3 & H4)] Hs.
  destruct (reaches_walks follow rp (components path) r H4 re er H1 H2 Er (components_nonempty path) Hs) as [Hr W]. split; [done|].
  apply resolve_plain_facts; [done|done|done|]. by rewrite (ro_root _ _ _ _ _ _ _ _ _ R), <- H3.
Qed.

Lemma path_reads path r er d : tree_path path r er -> flat er -> entry_bytes er d ->
  (e_type er = StatTypeReg -> zlen d <= maxReadFileSize -> ReadFile img path = Ok d) /\
  (e_type er = StatTypeSymlink -> zlen d <= maxSymlinkSize -> ReadLink img path = Ok d).
Proof using R Hset.
  intros Hp Hf Hb. set (base := List.last (components path) []). pose proof read_steady as Hst. split; intros T Hle.
  - destruct (tree_path_resolves true path r er Hp) as [Hr E]; [left; by rewrite T|].
    destruct (entry_serves r er d base Hr (tp_entry _ _ _ Hp) Hf Hb) as (ino & I1 & I2 & I3 & _).
    apply (ReadFile_serves img path _ _ _ ino d Hst I3 E); [|done|done|done].
    by rewrite (entry_ftype r er _ _ Hr (tp_entry _ _ _ Hp) T eq_refl).
  - destruct (tree_path_resolves false path r er Hp) as [Hr E]; [by right|].
    destruct (entry_serves r er d base Hr (tp_entry _ _ _ Hp) Hf Hb) as (ino & I1 & I2 & I3 & I4). destruct (I4 T) as [J1 J2].
    rewrite (entry_ftype r er _ _ Hr (tp_entry _ _ _ Hp) T eq_refl) in *.
    change (EroFSFtypeToFileMode (modeToFileType StatTypeSymlink)) with ModeSymlink in *. unfold ReadLink. rewrite E.
    change (Z.land ModeSymlink ModeSymlink =? 0) with false. cbv iota beta. by apply (linkTarget_serves img base _ ino).
Qed.

Lemma path_stat path r er : tree_path path r er -> (e_type er = StatTypeReg -> flat er /\ exists d, entry_bytes er d) ->
  exists fi, image_Lstat img path = Ok fi /\ stat_says er (List.last (components path) []) fi.
Proof using R.
  intros Hp Hreg. destruct (tree_path_resolves false path r er Hp) as [Hr E]; [by right|].
  destruct (entry_stat r er (List.last (components path) []) Hr (tp_entry _ _ _ Hp) Hreg) as (fi & S1 & S2). exists fi. split; [|done].
  unfold image_Lstat. by rewrite E.
Qed.

End Paths.


(** The example tree: a file, a hard link to it and a symlink. *)
Definition flat_planned (p : ptr) : erofsEntry := default example_file (planned_flat.2 !! p).

Lemma flat_planned_at p : (p < 4)%nat -> planned_flat.2 !! p = Some (flat_planned p).
Proof.
  intros Hp. unfold flat_planned. destruct (lookup_lt_is_Some_2 planned_flat.2 p) as [e He]; [|by rewrite He].
  replace (length planned_flat.2) with 4%nat; [done|]. vm_compute. reflexivity.
Qed.

Lemma flat_path x c r : (c < 4)%nat -> (r < 4)%nat -> validPath x = true -> x <> bs "." -> zlen x <= maxPathLen -> components x = [e_name (flat_planned c)] ->
  c ∈ e_children (flat_planned 0) -> r ∈ [0; 1; 3]%nat -> e_nid (flat_planned r) = e_nid (flat_planned c) ->
  e_erofsFileType (flat_planned r) = e_erofsFileType (flat_planned c) ->
  tree_path planned_flat.1 planned_flat.2 x r (flat_planned r).
Proof.
  intros Hc Hr V N Sh C Hin Hent En Ef. split; [done|done|done|by apply flat_planned_at|].
  exists 0%nat, (flat_planned 0). split; [rewrite flat_entries; left|]. split; [apply flat_planned_at; lia|]. split; [vm_compute; reflexivity|].
  rewrite C. apply (reaches_child _ _ 0%nat (flat_planned 0) c (flat_planned c) r (flat_planned r) [] r); [apply flat_planned_at; lia|vm_compute; reflexivity..|done| | | | | |constructor].
  - by apply flat_planned_at.
  - by rewrite flat_entries.
  - by apply flat_planned_at.
  - done.
  - done.
Qed.

