(* ===== verification/Spec.v ===== *)
(** * The reference reader ([internal/erofsspec])

    The oracle the package's tests hold the package to: a reader of whole
    images in memory, written from the format and the kernel's rules and sharing
    no code with the package.  This file models its superblock, device table,
    inodes, extended attributes and data ([erofsspec.go], [inode.go],
    [data.go]); SpecDir.v models its directories.  Its errors, results and
    constants are its own. *)

From S2P Require Import Prelude Machine Disk Image Inode Open.

Inductive specerr :=
| SpecCorrupt | SpecUnsupported | SpecTruncated | SpecNotExist | SpecNotDir | SpecLoop | SpecTooLarge | SpecSkipDir
| SpecCaller (code : Z).

#[export] Instance specerr_eq_dec : EqDecision specerr.
Proof. solve_decision. Defined.

(** A value, a refusal, or a run-time panic. *)
Inductive sres (A : Type) :=
| Got (a : A)
| Refused (e : specerr)
| Crash.
Arguments Got {A} a.
Arguments Refused {A} e.
Arguments Crash {A}.

#[export] Instance sres_ret : MRet sres := fun A a => Got a.
#[export] Instance sres_bind : MBind sres := fun A B f m =>
  match m with Got a => f a | Refused e => Refused e | Crash => Crash end.

(** [if cond { return err }] *)
Notation "'deny' b 'with' e ;; k" :=
  (if b then Refused e else k) (at level 10, b at level 99, e at level 99, k at level 200) : go_scope.

(** [b[lo:hi]] *)
Definition sslice (b : bytes) (lo hi : Z) : sres bytes :=
  if (lo <? 0) || (hi <? lo) || (zlen b <? hi) then Crash else Got (sub b (Z.to_nat lo) (Z.to_nat (hi - lo))).

(** ** Constants *)

Definition SuperOffset : Z := 1024.
Definition SuperSize : Z := 128.
Definition SuperExtSlot : Z := 16.
Definition Magic : Z := 0xE0F5E1E2.
Definition ChecksumSeed : Z := 0x5045B54A.
Definition MinBlockBits : Z := 9.
Definition MaxBlockBits : Z := 16.
Definition SpecMinPageSize : Z := 4096.
Definition SpecFeatureCompatSBChecksum : Z := 0x1.
Definition SpecFeatureCompatPlainXattrPfx : Z := 0x10.
Definition SpecFeatureCompatIshareXattrs : Z := 0x20.
Definition SpecFeatureIncompatDeviceTable : Z := 0x8.
Definition FeatureIncompat48Bit : Z := 0x80.
Definition FeatureIncompatMetabox : Z := 0x100.
Definition SpecFeatureIncompatAll : Z := Z.shiftl FeatureIncompatMetabox 1 - 1.
Definition DeviceSlotSize : Z := 128.
Definition NameMax : Z := 255.

(** ** The parsed image *)

Record Super := mkSuper {
  s_Magic : Z; s_Checksum : Z; s_FeatureCompat : Z; s_BlockBits : Z; s_ExtSlots : Z; s_Inos : Z; s_Epoch : Z;
  s_FixedNsec : Z; s_MetaBlkAddr : Z; s_XattrBlkAddr : Z; s_UUID : bytes; s_VolumeName : bytes;
  s_FeatureIncompat : Z; s_ComprAlgs : Z; s_ExtraDevices : Z; s_DevtSlotOff : Z; s_DirBlkBits : Z;
  s_XattrPrefixCount : Z; s_XattrPrefixStart : Z; s_PackedNid : Z; s_XattrFilterReserved : Z;
  s_IshareXattrPrefixID : Z; s_BuildTime : Z;
  s_BlockSize : Z; s_RootNid : Z; s_Blocks : Z; s_Size : Z; s_DeviceIDMask : Z }.

Record Device := mkDevice { d_Tag : bytes; d_Blocks : Z; d_UniAddr : Z }.

Record Prefix := mkPrefix { p_BaseIndex : Z; p_Infix : bytes }.

Record Image := mkSpecImage {
  im_Super : Super; im_Devices : list Device; im_Prefixes : list Prefix; im_data : bytes; im_extra : list bytes }.

Definition sliceAt (b : bytes) (off n : Z) : sres bytes :=
  deny (off <? 0) || (n <? 0) || (zlen b <? off) || (zlen b - off <? n) with SpecTruncated ;;
  Got (sub b (Z.to_nat off) (Z.to_nat n)).

Definition bytesAt (im : Image) (off n : Z) : sres bytes := sliceAt (im_data im) off n.

Definition roundUp (v to : Z) : Z := Z.quot (v + to - 1) to * to.

(** The loop of [roundupPow2]; [p] doubles up to the 64 bits it has. *)
Fixpoint pow2_from (fuel : nat) (p v : Z) : Z :=
  match fuel with
  | O => p
  | S fuel => if p <? v then pow2_from fuel (u64 (Z.shiftl p 1)) v else p
  end.

Definition roundupPow2 (v : Z) : Z := pow2_from 64 1 v.

(** ** The superblock *)

Definition verifyChecksum (data : bytes) (blockSize checksum : Z) : sres unit :=
  let n := blockSize in
  let n := if SuperOffset <? n then n - SuperOffset else n in
  let n := n - 8 in
  span ← sliceAt data (SuperOffset + 8) n;
  let crc := not32 (crc32_Update (not32 ChecksumSeed) span) in
  deny negb (crc =? checksum) with SpecCorrupt ;;
  Got tt.

(** The tail of [parseSuper]: the prefix id's bound, the root and the blocks. *)
Definition deriveSuper (raw : bytes) (s : Super) : sres Super :=
  deny negb (Z.land (s_FeatureCompat s) SpecFeatureCompatIshareXattrs =? 0) &&
       (s_XattrPrefixCount s <=? s_IshareXattrPrefixID s) with SpecCorrupt ;;
  let rootnid8 := get64 raw 112 in
  let wide := negb (Z.land (s_FeatureIncompat s) FeatureIncompat48Bit =? 0) && negb (rootnid8 =? 0) in
  let RootNid := if wide then rootnid8 else get16 raw 14 in
  let Blocks := if wide then Z.lor (s_Blocks s) (Z.shiftl (get16 raw 14) 32) else s_Blocks s in
  deny negb (Z.land (s_FeatureIncompat s) FeatureIncompatMetabox =? 0) with SpecUnsupported ;;
  Got (mkSuper (s_Magic s) (s_Checksum s) (s_FeatureCompat s) (s_BlockBits s) (s_ExtSlots s) (s_Inos s) (s_Epoch s)
    (s_FixedNsec s) (s_MetaBlkAddr s) (s_XattrBlkAddr s) (s_UUID s) (s_VolumeName s) (s_FeatureIncompat s)
    (s_ComprAlgs s) (s_ExtraDevices s) (s_DevtSlotOff s) (s_DirBlkBits s) (s_XattrPrefixCount s)
    (s_XattrPrefixStart s) (s_PackedNid s) (s_XattrFilterReserved s) (s_IshareXattrPrefixID s) (s_BuildTime s)
    (s_BlockSize s) RootNid Blocks (s_Size s) (s_DeviceIDMask s)).

Definition parseSuper (data : bytes) : sres Super :=
  raw ← sliceAt data SuperOffset SuperSize;
  let magic := get32 raw 0 in
  deny negb (magic =? Magic) with SpecCorrupt ;;
  let checksum := get32 raw 4 in
  let compat := get32 raw 8 in
  let bits := get8 raw 12 in
  let extSlots := get8 raw 13 in
  deny (bits <? MinBlockBits) || (MaxBlockBits <? bits) with SpecCorrupt ;;
  let blockSize := Z.shiftl 1 bits in
  let dirBlkBits := get8 raw 90 in
  deny negb (dirBlkBits =? 0) with SpecCorrupt ;;
  _ ← (if negb (Z.land compat SpecFeatureCompatSBChecksum =? 0) then verifyChecksum data blockSize checksum else Got tt);
  let incompat := get32 raw 80 in
  deny negb (andnot incompat SpecFeatureIncompatAll =? 0) with SpecCorrupt ;;
  let size := SuperSize + extSlots * SuperExtSlot in
  deny Z.max blockSize SpecMinPageSize - SuperOffset <? size with SpecCorrupt ;;
  deriveSuper raw (mkSuper magic checksum compat bits extSlots (get64 raw 16) (i64 (get64 raw 24)) (get32 raw 32)
    (get32 raw 40) (get32 raw 44) (sub raw 48 16) (sub raw 64 16) incompat (get16 raw 84) (get16 raw 86)
    (get16 raw 88) dirBlkBits (get8 raw 91) (get32 raw 92) (get64 raw 96) (get8 raw 104) (get8 raw 105)
    (get32 raw 108) blockSize 0 (get32 raw 36) size 0).

(** ** The device table *)

Fixpoint parse_slots (data : bytes) (wide : bool) (n : nat) (pos : Z) : sres (list Device) :=
  match n with
  | O => Got []
  | S n =>
      raw ← sliceAt data pos DeviceSlotSize;
      let Blocks := get32 raw 64 in
      let UniAddr := get32 raw 68 in
      let Blocks := if wide then Z.lor Blocks (Z.shiftl (get16 raw 72) 32) else Blocks in
      let UniAddr := if wide then Z.lor UniAddr (Z.shiftl (get16 raw 74) 32) else UniAddr in
      rest ← parse_slots data wide n (pos + DeviceSlotSize);
      Got (mkDevice (sub raw 0 64) Blocks UniAddr :: rest)
  end.

(** The superblock with its device-id mask, and the devices. *)
Definition parseDevices (data : bytes) (s : Super) : sres (Super * list Device) :=
  if (Z.land (s_FeatureIncompat s) SpecFeatureIncompatDeviceTable =? 0) || (s_ExtraDevices s =? 0) then Got (s, []) else
  let mask := u16 (roundupPow2 (s_ExtraDevices s + 1) - 1) in
  let s := mkSuper (s_Magic s) (s_Checksum s) (s_FeatureCompat s) (s_BlockBits s) (s_ExtSlots s) (s_Inos s) (s_Epoch s)
    (s_FixedNsec s) (s_MetaBlkAddr s) (s_XattrBlkAddr s) (s_UUID s) (s_VolumeName s) (s_FeatureIncompat s)
    (s_ComprAlgs s) (s_ExtraDevices s) (s_DevtSlotOff s) (s_DirBlkBits s) (s_XattrPrefixCount s)
    (s_XattrPrefixStart s) (s_PackedNid s) (s_XattrFilterReserved s) (s_IshareXattrPrefixID s) (s_BuildTime s)
    (s_BlockSize s) (s_RootNid s) (s_Blocks s) (s_Size s) mask in
  let wide := negb (Z.land (s_FeatureIncompat s) FeatureIncompat48Bit =? 0) in
  devices ← parse_slots data wide (Z.to_nat (s_ExtraDevices s)) (s_DevtSlotOff s * DeviceSlotSize);
  Got (s, devices).

(** ** Inodes *)

Definition SlotSize : Z := 32.
Definition CompactSize : Z := 32.
Definition ExtendedSize : Z := 64.
Definition formatAll : Z := Z.shiftl 1 (4 + 1) - 1.
Definition layoutMax : Z := 5.
Definition ChunkFormatBlkBitsMask : Z := 0x1F.
Definition ChunkFormatIndexes : Z := 0x20.
Definition ChunkFormat48Bit : Z := 0x40.
Definition chunkFormatAll : Z := Z.shiftl ChunkFormat48Bit 1 - 1.
Definition SpecNullAddr : Z := 2 ^ 64 - 1.
Definition ModeTypeMask : Z := 0xF000. (* 0o170000 *)
Definition SpecModeSocket : Z := 0xC000.
Definition SpecModeSymlink : Z := 0xA000.
Definition SpecModeRegular : Z := 0x8000.
Definition SpecModeBlock : Z := 0x6000.
Definition SpecModeDir : Z := 0x4000.
Definition SpecModeChar : Z := 0x2000.
Definition SpecModeFifo : Z := 0x1000.
Definition xattrHeaderSize : Z := 12.
Definition xattrEntrySize : Z := 4.
Definition xattrLongPrefix : Z := 0x80.
Definition xattrLongPrefixMask : Z := 0x7F.

Record Xattr := mkSpecXattr {
  x_Index : Z; x_Prefix : bytes; x_Suffix : bytes; x_Value : bytes; x_Shared : bool; x_SharedID : Z; x_Unresolved : bool }.

Definition Xattr_Name (x : Xattr) : bytes := x_Prefix x ++ x_Suffix x.

Record Inode := mkSpecInode {
  i_Nid : Z; i_Extended : bool; i_Format : Z; i_Layout : Z; i_Mode : Z; i_Nlink : Z; i_Size : Z; i_UID : Z; i_GID : Z;
  i_Mtime : Z; i_MtimeNs : Z; i_Ino : Z; i_XattrCnt : Z; i_NB : Z; i_XattrSize : Z; i_StartBlk : Z; i_Rdev : Z;
  i_ChunkFormat : Z; i_ChunkBits : Z; i_DotOmitted : bool; i_NameFilter : Z; i_SharedIDs : list Z; i_Xattrs : list Xattr;
  i_InlineTarget : option bytes; i_loc : Z; i_isize : Z; i_mask48 : bool }.

Definition IsDir (i : Inode) : bool := Z.land (i_Mode i) ModeTypeMask =? SpecModeDir.
Definition IsRegular (i : Inode) : bool := Z.land (i_Mode i) ModeTypeMask =? SpecModeRegular.
Definition IsSymlink (i : Inode) : bool := Z.land (i_Mode i) ModeTypeMask =? SpecModeSymlink.

(** [erofs_xattr_ibody_size]. *)
Definition ibodySize (count : Z) : Z := if count =? 0 then 0 else xattrHeaderSize + 4 * (count - 1).

(** What [decodeType] sets. *)
Definition with_type (startBlk rdev chunkBits : Z) (dotOmitted : bool) (i : Inode) : Inode :=
  mkSpecInode (i_Nid i) (i_Extended i) (i_Format i) (i_Layout i) (i_Mode i) (i_Nlink i) (i_Size i) (i_UID i) (i_GID i)
    (i_Mtime i) (i_MtimeNs i) (i_Ino i) (i_XattrCnt i) (i_NB i) (i_XattrSize i) startBlk rdev (i_ChunkFormat i)
    chunkBits dotOmitted (i_NameFilter i) (i_SharedIDs i) (i_Xattrs i) (i_InlineTarget i) (i_loc i) (i_isize i) (i_mask48 i).

Definition with_target (target : bytes) (i : Inode) : Inode :=
  mkSpecInode (i_Nid i) (i_Extended i) (i_Format i) (i_Layout i) (i_Mode i) (i_Nlink i) (i_Size i) (i_UID i) (i_GID i)
    (i_Mtime i) (i_MtimeNs i) (i_Ino i) (i_XattrCnt i) (i_NB i) (i_XattrSize i) (i_StartBlk i) (i_Rdev i) (i_ChunkFormat i)
    (i_ChunkBits i) (i_DotOmitted i) (i_NameFilter i) (i_SharedIDs i) (i_Xattrs i) (Some target) (i_loc i) (i_isize i) (i_mask48 i).

Definition with_attrs (filter : Z) (ids : list Z) (xattrs : list Xattr) (i : Inode) : Inode :=
  mkSpecInode (i_Nid i) (i_Extended i) (i_Format i) (i_Layout i) (i_Mode i) (i_Nlink i) (i_Size i) (i_UID i) (i_GID i)
    (i_Mtime i) (i_MtimeNs i) (i_Ino i) (i_XattrCnt i) (i_NB i) (i_XattrSize i) (i_StartBlk i) (i_Rdev i) (i_ChunkFormat i)
    (i_ChunkBits i) (i_DotOmitted i) filter ids xattrs (i_InlineTarget i) (i_loc i) (i_isize i) (i_mask48 i).

(** The kernel's name prefix of an index, and whether it has a handler. *)
Definition handlerPrefix (index : Z) : bytes * bool :=
  if index =? 1 then (bs "user.", true)
  else if index =? 2 then (bs "system.posix_acl_access", true)
  else if index =? 3 then (bs "system.posix_acl_default", true)
  else if index =? 4 then (bs "trusted.", true)
  else if index =? 6 then (bs "security.", true)
  else ([], false).

Section Reader.
Context (im : Image).

Let super := im_Super im.
Let BlockSize := s_BlockSize super.

Definition decodeCompact (nid format layout loc : Z) (raw : bytes) : Inode :=
  let mode := get16 raw 4 in
  let nb := get16 raw 6 in
  let u := get32 raw 16 in
  let one := negb (Z.land mode ModeTypeMask =? SpecModeDir) && (Z.land (Z.shiftr format 4) 1 =? 1) in
  mkSpecInode nid false format layout mode (if one then 1 else nb) (get32 raw 8) (get16 raw 24) (get16 raw 26)
    (i64 (s_Epoch super + get32 raw 12)) (s_FixedNsec super) (get32 raw 20) (get16 raw 2) nb (ibodySize (get16 raw 2))
    (if one then Z.lor u (Z.shiftl nb 32) else u) u (u16 u) 0 false 0 [] [] None loc CompactSize one.

Definition decodeExtended (nid format layout loc : Z) : sres Inode :=
  raw ← bytesAt im loc ExtendedSize;
  let nb := get16 raw 6 in
  let size := i64 (get64 raw 8) in
  let u := get32 raw 16 in
  deny size <? 0 with SpecCorrupt ;;
  Got (mkSpecInode nid true format layout (get16 raw 4) (get32 raw 44) size (get32 raw 24) (get32 raw 28)
    (i64 (get64 raw 32)) (get32 raw 40) (get32 raw 20) (get16 raw 2) nb (ibodySize (get16 raw 2))
    (Z.lor u (Z.shiftl nb 32)) u (u16 u) 0 false 0 [] [] None loc ExtendedSize true).

Definition decodeInlineSymlink (i : Inode) : sres Inode :=
  let ofs := Z.rem (i_loc i) BlockSize + i_isize i + i_XattrSize i in
  if negb (i_Layout i =? LayoutFlatInline) || (BlockSize <? i64 (ofs + i_Size i)) then Got i else
  target ← bytesAt im (i_loc i + i_isize i + i_XattrSize i) (i_Size i);
  deny (i_Size i =? 0) || (0 <=? IndexByte target x00) with SpecCorrupt ;;
  Got (with_target target i).

Definition decodeType (i : Inode) : sres Inode :=
  let typ := Z.land (i_Mode i) ModeTypeMask in
  let mask := if i_mask48 i then 2 ^ 48 - 1 else 2 ^ 32 - 1 in
  '(startBlk, rdev, dot) ←
    (if (typ =? SpecModeDir) || (typ =? SpecModeRegular) || (typ =? SpecModeSymlink) then
       let dot := (typ =? SpecModeDir) && (Z.land (Z.shiftr (i_Format i) 4) 1 =? 1) in
       Got (if (i_Layout i =? LayoutFlatPlain) && (Z.land (i_StartBlk i) mask =? mask) then SpecNullAddr else i_StartBlk i, 0, dot)
     else if (typ =? SpecModeChar) || (typ =? SpecModeBlock) then Got (0, i_Rdev i, false)
     else if (typ =? SpecModeFifo) || (typ =? SpecModeSocket) then Got (0, 0, false)
     else Refused SpecCorrupt);
  deny (i_Layout i =? LayoutCompressedFull) || (i_Layout i =? LayoutCompressedCompact) with SpecUnsupported ;;
  deny (i_Layout i =? LayoutChunkBased) && negb (andnot (i_ChunkFormat i) chunkFormatAll =? 0) with SpecUnsupported ;;
  let chunkBits := if i_Layout i =? LayoutChunkBased
    then s_BlockBits super + Z.land (i_ChunkFormat i) ChunkFormatBlkBitsMask else 0 in
  let i := with_type startBlk rdev chunkBits dot i in
  if IsSymlink i then decodeInlineSymlink i else Got i.

(** [xattrPrefix] of the image: the prefix and whether it is unresolved. *)
Definition spec_xattrPrefix (index : Z) : bytes * bool :=
  if negb (Z.land index xattrLongPrefix =? 0) then
    match im_Prefixes im !! Z.to_nat (Z.land index xattrLongPrefixMask) with
    | None => ([], true)
    | Some p => let '(base, ok) := handlerPrefix (p_BaseIndex p) in (base ++ p_Infix p, negb ok)
    end
  else let '(prefix, ok) := handlerPrefix index in (prefix, negb ok).

(** An entry and its size, rounded up. *)
Definition xattrEntry (pos : Z) : sres (Xattr * Z) :=
  hdr ← bytesAt im pos xattrEntrySize;
  let nameLen := get8 hdr 0 in
  let index := get8 hdr 1 in
  let valueLen := get16 hdr 2 in
  body ← bytesAt im (pos + xattrEntrySize) (nameLen + valueLen);
  let '(prefix, unresolved) := spec_xattrPrefix index in
  Got (mkSpecXattr index prefix (take (Z.to_nat nameLen) body) (drop (Z.to_nat nameLen) body) false 0 unresolved,
       roundUp (xattrEntrySize + nameLen + valueLen) xattrEntrySize).

(** The inline entries; each takes four bytes or more. *)
Fixpoint inline_xattrs (fuel : nat) (pos remaining : Z) : sres (list Xattr) :=
  if remaining <=? 0 then Got [] else
  match fuel with
  | O => Crash
  | S fuel =>
      '(x, size) ← xattrEntry pos;
      deny remaining <? size with SpecCorrupt ;;
      rest ← inline_xattrs fuel (pos + size) (remaining - size);
      Got (x :: rest)
  end.

Fixpoint shared_xattrs (ids : list Z) : sres (list Xattr) :=
  match ids with
  | [] => Got []
  | id :: ids =>
      '(x, _) ← xattrEntry (s_XattrBlkAddr super * BlockSize + id * 4);
      rest ← shared_xattrs ids;
      Got (mkSpecXattr (x_Index x) (x_Prefix x) (x_Suffix x) (x_Value x) true id (x_Unresolved x) :: rest)
  end.

Definition decodeXattrs (i : Inode) : sres Inode :=
  if i_XattrSize i =? 0 then Got i else
  deny i_XattrSize i =? xattrHeaderSize with SpecUnsupported ;;
  deny i_XattrSize i <? xattrHeaderSize with SpecCorrupt ;;
  let pos := i_loc i + i_isize i in
  hdr ← bytesAt im pos xattrHeaderSize;
  let shared := get8 hdr 4 in
  deny i_XattrSize i - xattrHeaderSize <? shared * 4 with SpecCorrupt ;;
  ids ← bytesAt im (pos + xattrHeaderSize) (shared * 4);
  let sharedIDs := (fun k => get32 ids (4 * k)) <$> seq 0 (Z.to_nat shared) in
  let remaining := i_XattrSize i - xattrHeaderSize - shared * 4 in
  inlined ← inline_xattrs (Z.to_nat remaining) (pos + xattrHeaderSize + shared * 4) remaining;
  others ← shared_xattrs sharedIDs;
  Got (with_attrs (get32 hdr 0) sharedIDs (inlined ++ others) i).

(** The inode up to its type: what [Inode] knows before the attributes. *)
Definition inode_core (nid : Z) : sres Inode :=
  deny negb (Z.shiftr nid 63 =? 0) with SpecUnsupported ;;
  let loc := i64 (s_MetaBlkAddr super * BlockSize + i64 (nid * SlotSize)) in
  raw ← bytesAt im loc CompactSize;
  let format := get16 raw 0 in
  deny negb (andnot format formatAll =? 0) with SpecUnsupported ;;
  let layout := Z.land (u8 (Z.shiftr format 1)) 7 in
  deny layoutMax <=? layout with SpecUnsupported ;;
  if Z.land format 1 =? 1 then decodeExtended nid format layout loc else Got (decodeCompact nid format layout loc raw).

Definition spec_Inode (nid : Z) : sres Inode :=
  i ← inode_core nid;
  i ← decodeType i;
  decodeXattrs i.

(** ** Data *)

Record Extent := mkExtent { e_Logical : Z; e_Length : Z; e_Device : Z; e_Physical : Z; e_Hole : bool }.

Definition flatExtents (i : Inode) : sres (list Extent) :=
  let bs := BlockSize in
  let inline := i_Layout i =? LayoutFlatInline in
  if negb inline && (i_StartBlk i =? SpecNullAddr) then Got [mkExtent 0 (i_Size i) 0 0 true] else
  let blocks := Z.quot (i64 (i_Size i + bs - 1)) bs in
  let mapped := if inline then i64 ((blocks - 1) * bs) else blocks * bs in
  let out := if 0 <? mapped
    then [mkExtent 0 (Z.min mapped (i_Size i)) 0 (i64 (i64 (i_StartBlk i) * bs)) false] else [] in
  if inline then
    let pa := i_loc i + i_isize i + i_XattrSize i in
    let tail := i64 (i_Size i - mapped) in
    deny bs <? i64 (Z.rem pa bs + tail) with SpecCorrupt ;;
    Got (out ++ [mkExtent mapped tail 0 pa false])
  else Got out.

(** Chunk [n] of a chunk-based inode. *)
Definition chunkExtent (i : Inode) (n : Z) : sres Extent :=
  let unit_ := if negb (Z.land (i_ChunkFormat i) ChunkFormatIndexes =? 0) then 8 else 4 in
  let addrMask := if negb (Z.land (i_ChunkFormat i) ChunkFormat48Bit =? 0) then 2 ^ 48 - 1 else 2 ^ 32 - 1 in
  let chunk := Z.shiftl 1 (i_ChunkBits i) in
  let pos := roundUp (i_loc i + i_isize i + i_XattrSize i) unit_ + n * unit_ in
  entry ← bytesAt im pos unit_;
  let length := Z.min chunk (i_Size i - n * chunk) in
  let addr := if unit_ =? 4 then get32 entry 0 else Z.lor (Z.shiftl (get16 entry 0) 32) (get32 entry 4) in
  let device := if unit_ =? 4 then 0 else Z.land (get16 entry 2) (s_DeviceIDMask super) in
  let addr := Z.land addr addrMask in
  if addr =? addrMask then Got (mkExtent (n * chunk) length 0 0 true)
  else Got (mkExtent (n * chunk) length device (i64 (addr * BlockSize)) false).

Fixpoint chunk_extents (i : Inode) (count : nat) (n : Z) : sres (list Extent) :=
  match count with
  | O => Got []
  | S count => e ← chunkExtent i n; rest ← chunk_extents i count (n + 1); Got (e :: rest)
  end.

Definition chunkExtents (i : Inode) : sres (list Extent) :=
  let chunk := Z.shiftl 1 (i_ChunkBits i) in
  let count := Z.quot (i64 (i_Size i + chunk - 1)) chunk in
  let unit_ := if negb (Z.land (i_ChunkFormat i) ChunkFormatIndexes =? 0) then 8 else 4 in
  _ ← bytesAt im (roundUp (i_loc i + i_isize i + i_XattrSize i) unit_) (count * unit_);
  chunk_extents i (Z.to_nat count) 0.

Definition Extents (i : Inode) : sres (list Extent) :=
  if i_Size i =? 0 then Got []
  else if i_Layout i =? LayoutChunkBased then chunkExtents i
  else if (i_Layout i =? LayoutFlatPlain) || (i_Layout i =? LayoutFlatInline) then flatExtents i
  else Refused SpecUnsupported.

Fixpoint extentAt (extents : list Extent) (pos : Z) : option Extent :=
  match extents with
  | [] => None
  | e :: extents => if (e_Logical e <=? pos) && (pos <? i64 (e_Logical e + e_Length e)) then Some e else extentAt extents pos
  end.

Definition ExtentAt (i : Inode) (pos : Z) : sres Extent :=
  deny (pos <? 0) || (i_Size i <=? pos) with SpecTruncated ;;
  if negb (i_Layout i =? LayoutChunkBased) then
    extents ← Extents i;
    match extentAt extents pos with Some e => Got e | None => Refused SpecCorrupt end
  else chunkExtent i (Z.quot pos (Z.shiftl 1 (i_ChunkBits i))).

Definition extraBytes (n : nat) (off len : Z) : sres bytes :=
  match im_extra im !! n with
  | None => Refused SpecTruncated
  | Some b => sliceAt b off len
  end.

(** The loop of [unifiedDevice] over the devices from the [n]th. *)
Fixpoint unified_device (devices : list Device) (n : nat) (off : Z) : option (nat * Z) :=
  match devices with
  | [] => None
  | d :: devices =>
      let start := i64 (d_UniAddr d * BlockSize) in
      let end_ := i64 (start + i64 (d_Blocks d * BlockSize)) in
      if negb (d_UniAddr d =? 0) && (start <=? off) && (off <? end_) then Some (n, start)
      else unified_device devices (S n) off
  end.

Definition unifiedDevice (off : Z) : option (nat * Z) :=
  match im_extra im with [] => None | _ => unified_device (im_Devices im) 0 off end.

Definition deviceBytes (device off n : Z) : sres bytes :=
  if device =? 0 then
    match unifiedDevice off with
    | Some (k, start) => extraBytes k (off - start) n
    | None => bytesAt im off n
    end
  else
    let k := Z.to_nat (device - 1) in
    match im_Devices im !! k with
    | None => Refused SpecCorrupt
    | Some d =>
        match im_extra im with
        | [] => bytesAt im (i64 (off + i64 (d_UniAddr d * BlockSize))) n
        | _ => extraBytes k off n
        end
    end.

(** The loop of [ReadAt]: the pieces of [off, end_) from [pos]; each piece
    takes a byte or more. *)
Fixpoint read_pieces (fuel : nat) (i : Inode) (off pos end_ : Z) : sres (list (Z * bytes)) :=
  if end_ <=? pos then Got [] else
  match fuel with
  | O => Crash
  | S fuel =>
      e ← ExtentAt i pos;
      let hi := Z.min (i64 (e_Logical e + e_Length e)) end_ in
      piece ← (if e_Hole e then Got [] else
        b ← deviceBytes (e_Device e) (i64 (e_Physical e + (pos - e_Logical e))) (hi - pos);
        Got [(pos - off, b)]);
      rest ← read_pieces fuel i off hi end_;
      Got (piece ++ rest)
  end.

(** The pieces copied into the zeroed result. *)
Definition assemble (n : Z) (pieces : list (Z * bytes)) : bytes :=
  foldl (fun out '(at_, data) => splice out (Z.to_nat at_) data) (zeros (Z.to_nat n)) pieces.

Definition spec_ReadAt (i : Inode) (off n : Z) : sres bytes :=
  deny (off <? 0) || (n <? 0) || (i_Size i <? off) || (i_Size i - off <? n) with SpecTruncated ;;
  pieces ← read_pieces (Z.to_nat n) i off off (off + n);
  Got (assemble n pieces).

Definition MaxContent : Z := Z.shiftl 64 20.

Definition spec_Read (i : Inode) : sres bytes :=
  deny MaxContent <? i_Size i with SpecTooLarge ;;
  spec_ReadAt i 0 (i_Size i).

Definition TargetMax : Z := 4095.

Definition Target (i : Inode) : sres bytes :=
  match i_InlineTarget i with
  | Some target => Got target
  | None =>
      b ← spec_ReadAt i 0 (Z.min (i_Size i) TargetMax);
      Got (if 0 <=? IndexByte b x00 then take (Z.to_nat (IndexByte b x00)) b else b)
  end.

End Reader.

(** ** Parsing *)

(** An item of the metadata at the next boundary of four, and what follows. *)
Definition spec_readMetadata (src : Z -> Z -> sres bytes) (pos : Z) : sres (bytes * Z) :=
  let pos := roundUp pos 4 in
  raw ← src pos 2;
  let n := get16 raw 0 in
  let n := if n =? 0 then 65536 else n in
  let pos := pos + 2 in
  item ← src pos n;
  Got (item, pos + n).

Fixpoint parse_prefixes (src : Z -> Z -> sres bytes) (count : nat) (pos : Z) : sres (list Prefix) :=
  match count with
  | O => Got []
  | S count =>
      '(item, next) ← spec_readMetadata src pos;
      match item with
      | [] => Refused SpecCorrupt
      | base :: infix =>
          deny NameMax + 1 <? zlen item with SpecCorrupt ;;
          rest ← parse_prefixes src count next;
          Got (mkPrefix (Z_of_byte base) infix :: rest)
      end
  end.

Definition parsePrefixes (im : Image) : sres (list Prefix) :=
  let s := im_Super im in
  if s_XattrPrefixCount s =? 0 then Got [] else
  src ← (if (Z.land (s_FeatureCompat s) SpecFeatureCompatPlainXattrPfx =? 0) && negb (s_PackedNid s =? 0) then
           packed ← spec_Inode im (s_PackedNid s);
           content ← spec_Read im packed;
           Got (sliceAt content)
         else Got (bytesAt im));
  parse_prefixes src (Z.to_nat (s_XattrPrefixCount s)) (s_XattrPrefixStart s * 4).

Definition Parse (img : bytes) (extra : list bytes) : sres Image :=
  s ← parseSuper img;
  '(s, devices) ← parseDevices img s;
  let ondisk := if negb (Z.land (s_FeatureIncompat s) SpecFeatureIncompatDeviceTable =? 0) then s_ExtraDevices s else 0 in
  deny (0 <? zlen extra) && negb (ondisk =? zlen extra) with SpecCorrupt ;;
  let im := mkSpecImage s devices [] img extra in
  prefixes ← parsePrefixes im;
  Got (mkSpecImage s devices prefixes img extra).
