(* ===== verification/SpecDir.v ===== *)
(** * The reference reader's directories ([internal/erofsspec/dir.go])

    Listing, the kernel's two-level search, path resolution, the walk of an
    image and the rules of fsck. *)

From S2P Require Import Prelude Machine Disk Image Inode Data Dir Path Open Spec.

Definition DirentSize : Z := 12.
Definition typeMax : Z := 8.

Record SpecDirent := mkSpecDirent { de_Nid : Z; de_Name : bytes; de_Type : Z }.

(** ** A block's entries *)

Definition strnlen (b : bytes) : Z := if 0 <=? IndexByte b x00 then IndexByte b x00 else zlen b.

Definition nameoff_of (block : bytes) (i : Z) : Z := get16 block (Z.to_nat (i * DirentSize + 8)).

Definition dirent_of_block (block : bytes) (count i : Z) : sres SpecDirent :=
  let maxsize := zlen block in
  let nameoff := nameoff_of block i in
  namelen ← (if i + 1 <? count then Got (nameoff_of block (i + 1) - nameoff)
             else deny maxsize <=? nameoff with SpecCorrupt ;;
             rest ← sslice block nameoff maxsize; Got (strnlen rest));
  deny (namelen <? 1) || (NameMax <? namelen) || (maxsize <? nameoff + namelen) with SpecCorrupt ;;
  name ← sslice block nameoff (nameoff + namelen);
  deny (0 <=? IndexByte name slash) || (0 <=? IndexByte name x00) with SpecCorrupt ;;
  Got (mkSpecDirent (get64 block (Z.to_nat (i * DirentSize))) name (get8 block (Z.to_nat (i * DirentSize + 10)))).

Fixpoint dirents_from (block : bytes) (count : Z) (n : nat) (i : Z) : sres (list SpecDirent) :=
  match n with
  | O => Got []
  | S n => d ← dirent_of_block block count i; rest ← dirents_from block count n (i + 1); Got (d :: rest)
  end.

Definition direntsOfBlock (block : bytes) (bs : Z) : sres (list SpecDirent) :=
  let maxsize := zlen block in
  deny maxsize <? DirentSize with SpecCorrupt ;;
  let nameoff0 := get16 block 8 in
  deny (nameoff0 =? 0) || (bs <=? nameoff0) || negb (Z.rem nameoff0 DirentSize =? 0) with SpecCorrupt ;;
  deny maxsize <? nameoff0 with SpecCorrupt ;;
  let count := Z.quot nameoff0 DirentSize in
  dirents_from block count (Z.to_nat count) 0.

(** ** The kernel's comparison *)

(** [erofs_dirnamecmp] from position [i]: the sign, and where it stopped. *)
Fixpoint namecmp_from (name stored : bytes) (i : nat) : Z * nat :=
  match stored with
  | [] => (if (length name <=? i)%nat then 0 else 1, i)
  | s :: stored =>
      if bool_decide (s = x00) then (if (length name <=? i)%nat then 0 else 1, i) else
      let c := default x00 (name !! i) in
      if bool_decide (c = s) then namecmp_from name stored (S i)
      else (if Z_of_byte s <? Z_of_byte c then 1 else -1, i)
  end.

Definition dirnamecmp (name stored : bytes) (matched : nat) : Z * nat :=
  namecmp_from name (drop matched stored) matched.

(** Entry [i] of a block, named as [Dirents] names it where it can. *)
Definition direntAt (block : bytes) (i : Z) : SpecDirent :=
  match direntsOfBlock block (zlen block) with
  | Got entries => default
      (mkSpecDirent (get64 block (Z.to_nat (i * DirentSize))) [] (get8 block (Z.to_nat (i * DirentSize + 10))))
      (entries !! Z.to_nat i)
  | _ => mkSpecDirent (get64 block (Z.to_nat (i * DirentSize))) [] (get8 block (Z.to_nat (i * DirentSize + 10)))
  end.

(** The search within a block; an iteration narrows the range. *)
Fixpoint find_target (fuel : nat) (name block : bytes) (bs ndirents head back : Z) (startprfx endprfx : nat) : sres (option SpecDirent) :=
  if back <? head then Got None else
  match fuel with
  | O => Crash
  | S fuel =>
      let mid := head + Z.quot (back - head) 2 in
      let nameoff := Z.land (nameoff_of block mid) (bs - 1) in
      let matched := Nat.min startprfx endprfx in
      let end_ := if mid <? ndirents - 1 then Z.land (nameoff_of block (mid + 1)) (bs - 1) else bs in
      stored ← (if nameoff <=? end_ then sslice block nameoff end_ else Got []);
      let '(r, matched) := dirnamecmp name stored matched in
      if r =? 0 then Got (Some (direntAt block mid))
      else if 0 <? r then find_target fuel name block bs ndirents (mid + 1) back matched endprfx
      else find_target fuel name block bs ndirents head (mid - 1) startprfx matched
  end.

Definition findTargetDirent (name block : bytes) (bs ndirents : Z) : sres (option SpecDirent) :=
  find_target (Z.to_nat ndirents) name block bs ndirents 1 (ndirents - 1) 0 0.

Section Directories.
Context (im : Image).

Let BlockSize := s_BlockSize (im_Super im).

(** ** Listing *)

Fixpoint dirents_blocks (fuel : nat) (dir : Inode) (start : Z) : sres (list SpecDirent) :=
  if i_Size dir <=? start then Got [] else
  match fuel with
  | O => Crash
  | S fuel =>
      block ← spec_ReadAt im dir start (Z.min BlockSize (i_Size dir - start));
      entries ← direntsOfBlock block BlockSize;
      rest ← dirents_blocks fuel dir (i64 (start + BlockSize));
      Got (entries ++ rest)
  end.

Definition Dirents (dir : Inode) : sres (list SpecDirent) :=
  deny negb (IsDir dir) with SpecNotDir ;;
  dirents_blocks (Z.to_nat (Z.quot (i_Size dir) BlockSize + 2)) dir 0.

(** ** Lookup *)

(** A directory block as the page cache holds it, and its entries' count. *)
Definition dirBlock (dir : Inode) (i : Z) : sres (bytes * Z) :=
  block ← spec_ReadAt im dir (i * BlockSize) (Z.min BlockSize (i_Size dir - i * BlockSize));
  let block := block ++ zeros (Z.to_nat (BlockSize - zlen block)) in
  let ndirents := Z.quot (Z.land (get16 block 8) (BlockSize - 1)) DirentSize in
  deny ndirents =? 0 with SpecCorrupt ;;
  Got (block, ndirents).

(** The search over the blocks, then within the candidate. *)
Fixpoint find_block (fuel : nat) (dir : Inode) (name : bytes) (head back : Z) (startprfx endprfx : nat)
  (candidate : option (bytes * Z)) : sres SpecDirent :=
  if back <? head then
    match candidate with
    | None => Refused SpecNotExist
    | Some (block, ndirents) =>
        found ← findTargetDirent name block BlockSize ndirents;
        match found with Some de => Got de | None => Refused SpecNotExist end
    end
  else
  match fuel with
  | O => Crash
  | S fuel =>
      let mid := head + Z.quot (back - head) 2 in
      '(block, ndirents) ← dirBlock dir mid;
      let matched := Nat.min startprfx endprfx in
      let end_ := if 1 <? ndirents then Z.land (nameoff_of block 1) (BlockSize - 1) else BlockSize in
      let nameoff := Z.land (nameoff_of block 0) (BlockSize - 1) in
      stored ← sslice block nameoff end_;
      let '(diff, matched) := dirnamecmp name stored matched in
      if diff <? 0 then find_block fuel dir name head (mid - 1) startprfx matched candidate
      else if diff =? 0 then Got (direntAt block 0)
      else find_block fuel dir name (mid + 1) back matched endprfx (Some (block, ndirents))
  end.

Definition Lookup (dir : Inode) (name : bytes) : sres SpecDirent :=
  deny negb (IsDir dir) with SpecNotDir ;;
  deny i_Size dir =? 0 with SpecNotExist ;;
  let back := Z.quot (i64 (i_Size dir + BlockSize - 1)) BlockSize - 1 in
  find_block (Z.to_nat (back + 1)) dir name 0 back 0 0 None.

(** ** Paths *)

(** [strings.Cut(rest, "/")]: what is before the first slash, and after. *)
Fixpoint Cut (rest : bytes) : bytes * bytes :=
  match rest with
  | [] => ([], [])
  | b :: rest => if bool_decide (b = slash) then ([], rest) else let '(name, rest) := Cut rest in (b :: name, rest)
  end.

(** [walk] and [followLink], the links followed so far threaded through; a
    link deeper takes one of [depth], a component one of its fuel. *)
Fixpoint spec_walk (depth : nat) (root : Inode) (maxLinks : Z) (links : Z) (dir : Inode) (rest : bytes) : sres (Inode * Z) :=
  let fix components (fuel : nat) (cur : Inode) (rest : bytes) (links : Z) : sres (Inode * Z) :=
    match rest with
    | [] => Got (cur, links)
    | _ =>
        match fuel with
        | O => Crash
        | S fuel =>
            let '(name, rest) := Cut rest in
            if bool_decide (name = []) || bool_decide (name = bs ".") then components fuel cur rest links else
            deny negb (IsDir cur) with SpecNotDir ;;
            de ← Lookup cur name;
            next ← spec_Inode im (de_Nid de);
            '(next, links) ←
              (if IsSymlink next then
                 let links := links + 1 in
                 deny maxLinks <? links with SpecLoop ;;
                 target ← Target im next;
                 let base := match target with b :: _ => if bool_decide (b = slash) then root else cur | [] => cur end in
                 match depth with O => Crash | S depth => spec_walk depth root maxLinks links base target end
               else Got (next, links));
            components fuel next rest links
        end
    end in
  components (length rest) dir rest links.

Definition Resolve (path : bytes) (maxLinks : Z) : sres Inode :=
  root ← spec_Inode im (s_RootNid (im_Super im));
  deny negb (IsDir root) with SpecNotDir ;;
  '(i, _) ← spec_walk (Z.to_nat maxLinks) root maxLinks 0 root path;
  Got i.

(** ** The walk of an image *)

Record Entry := mkEntry { en_Path : bytes; en_Dir : SpecDirent; en_Inode : Inode; en_Parent : Z }.

(** The callback, with a state of its own. *)
Context {T : Type} (fn : Entry -> T -> option specerr * T).

(** [walkDir] and [walkEntry]: the directories seen and the callback's state
    threaded through; a level takes one of the fuel. *)
Fixpoint walkDir (fuel : nat) (dir : Inode) (prefix : bytes) (seen : gset Z) (t : T) : sres unit * gset Z * T :=
  match fuel with
  | O => (Crash, seen, t)
  | S fuel =>
      match Dirents dir with
      | Refused e => (Refused e, seen, t)
      | Crash => (Crash, seen, t)
      | Got entries =>
          let fix entries_loop (l : list SpecDirent) (seen : gset Z) (t : T) : sres unit * gset Z * T :=
            match l with
            | [] => (Got tt, seen, t)
            | de :: l =>
                if bool_decide (de_Name de = bs ".") || bool_decide (de_Name de = bs "..") then entries_loop l seen t else
                match spec_Inode im (de_Nid de) with
                | Refused e => (Refused e, seen, t)
                | Crash => (Crash, seen, t)
                | Got i =>
                    let path := prefix ++ de_Name de in
                    let '(err, t) := fn (mkEntry path de i (i_Nid dir)) t in
                    match err with
                    | Some e => if bool_decide (e = SpecSkipDir) then entries_loop l seen t else (Refused e, seen, t)
                    | None =>
                        if IsDir i && negb (bool_decide (i_Nid i ∈ seen)) then
                          match walkDir fuel i (path ++ [slash]) ({[i_Nid i]} ∪ seen) t with
                          | (Got tt, seen, t) => entries_loop l seen t
                          | r => r
                          end
                        else entries_loop l seen t
                    end
                end
            end in
          entries_loop entries seen t
      end
  end.

(** The nids of the image: a slot of its bytes, which sixteen nids reach as
    their offset wraps around. *)
Definition walk_levels : nat := Z.to_nat (16 * (zlen (im_data im) / SlotSize + 1) + 1).

Definition Walk (t : T) : sres unit * T :=
  match spec_Inode im (s_RootNid (im_Super im)) with
  | Refused e => (Refused e, t)
  | Crash => (Crash, t)
  | Got root =>
      if negb (IsDir root) then (Refused SpecNotDir, t) else
      let '(r, _, t) := walkDir walk_levels root [] {[i_Nid root]} t in (r, t)
  end.

(** ** fsck's rules *)

(** What [CheckDir] reports, each an [ErrCorrupt]. *)
Inductive violation :=
| NotAfter (name previous : bytes) | BadType (name : bytes) (typ : Z)
| DotTwice | DotNames (nid : Z) | DotdotTwice | DotdotNames (nid : Z) | IllegalName (name : bytes) | DotsMissing.

Definition report (cond : bool) (v : violation) : list violation := if cond then [v] else [].

Fixpoint check_entries (dir : Inode) (parent : Z) (prev : option SpecDirent) (dot dotdot : bool) (entries : list SpecDirent)
  : list violation * bool * bool :=
  match entries with
  | [] => ([], dot, dotdot)
  | de :: rest =>
      let errs :=
        match prev with
        | Some p => match Compare (de_Name p) (de_Name de) with Lt => [] | _ => [NotAfter (de_Name de) (de_Name p)] end
        | None => []
        end ++ report (typeMax <=? de_Type de) (BadType (de_Name de) (de_Type de)) in
      let '(more, dot, dotdot) :=
        (if bool_decide (de_Name de = bs ".") then
           (report dot DotTwice ++ report (negb (de_Nid de =? i_Nid dir)) (DotNames (de_Nid de)), true, dotdot)
         else if bool_decide (de_Name de = bs "..") then
           (report dotdot DotdotTwice ++ report (negb (de_Nid de =? parent)) (DotdotNames (de_Nid de)), dot, true)
         else (report ((0 <=? IndexByte (de_Name de) slash) || (0 <=? IndexByte (de_Name de) x00)) (IllegalName (de_Name de)),
               dot, dotdot)) in
      let '(rest, dot, dotdot) := check_entries dir parent (Some de) dot dotdot rest in
      (errs ++ more ++ rest, dot, dotdot)
  end.

Definition CheckDir (dir : Inode) (parent : Z) (entries : list SpecDirent) : list violation :=
  let parent := if i_Nid dir =? s_RootNid (im_Super im) then i_Nid dir else parent in
  let '(errs, dot, dotdot) := check_entries dir parent None (i_DotOmitted dir) false entries in
  errs ++ report (negb dot || negb dotdot) DotsMissing.

End Directories.
