(* ===== verification/SpecInode.v ===== *)
(** * The package's inodes are the reference's

    What relates an opened image (Image.v) to the image the reference parsed
    (Spec.v), and [readInfo] to the reference's [Inode]. *)

From S2P Require Import Prelude Machine Disk Format Image Inode Data Open Spec.

(** ** The images *)

(** A device's slot and content, as both hold them; with no extra devices
    given the content is the image from the device's address. *)
Definition device_content (im : Image) (k : nat) : option bytes :=
  match im_extra im with
  | [] => (fun d => drop (Z.to_nat (d_UniAddr d * s_BlockSize (im_Super im))) (im_data im)) <$> im_Devices im !! k
  | _ => im_extra im !! k
  end.

Record device_agrees (im : Image) (k : nat) (d : deviceInfo) (sd : Device) : Prop := {
  da_addr : dev_mappedBlkAddr d = d_UniAddr sd;
  da_blocks : dev_blocks d = d_Blocks sd;
  da_content : exists c, device_content im k = Some c /\ Backed (dev_device d) c }.

Record agrees (img : image) (im : Image) : Prop := {
  ag_bits : s_BlockBits (im_Super im) = img_bits img;
  ag_bs : s_BlockSize (im_Super im) = 2 ^ img_bits img;
  ag_meta : s_MetaBlkAddr (im_Super im) = sb_MetaBlkAddr (img_sb img);
  ag_xattr : s_XattrBlkAddr (im_Super im) = sb_XattrBlkAddr (img_sb img);
  ag_epoch : s_Epoch (im_Super im) = i64 (sb_BuildTime (img_sb img));
  ag_nsec : s_FixedNsec (im_Super im) = sb_BuildTimeNs (img_sb img);
  ag_root : s_RootNid (im_Super im) = sb_RootNid (img_sb img);
  ag_compat : s_FeatureCompat (im_Super im) = sb_FeatureCompat (img_sb img);
  ag_packed : s_PackedNid (im_Super im) = sb_PackedNid (img_sb img);
  ag_pcount : s_XattrPrefixCount (im_Super im) = sb_XattrPrefixCount (img_sb img);
  ag_pstart : s_XattrPrefixStart (im_Super im) = sb_XattrPrefixStart (img_sb img);
  ag_mask : s_DeviceIDMask (im_Super im) = img_deviceIDMask img;
  ag_size : img_size img = zlen (im_data im);
  ag_data : Backed (img_meta img) (im_data im);
  ag_count : length (img_devices img) = length (im_Devices im);
  ag_devices : forall k d, img_devices img !! k = Some d ->
    exists sd, im_Devices im !! k = Some sd /\ device_agrees im k d sd }.

(** ** The inodes *)

Record same_inode (img : image) (ino : inode) (i : Inode) : Prop := {
  si_nid : i_Nid i = ino_nid ino;
  si_mode : i_Mode i = ino_rawMode ino;
  si_nlink : i_Nlink i = ino_nlink ino;
  si_size : i_Size i = ino_size ino;
  si_uid : i_UID i = ino_uid ino;
  si_gid : i_GID i = ino_gid ino;
  si_mtime : i_Mtime i = i64 (ino_mtime ino);
  si_mtimeNs : i_MtimeNs i = ino_mtimeNs ino;
  si_layout : i_Layout i = ino_inodeLayout ino;
  si_xsize : i_XattrSize i = ino_xsize ino;
  si_isize : i_isize i = ino_icsize ino;
  si_loc : i_loc i = metaStartPos img + ino_nid ino * 32;
  si_chunk : i_ChunkFormat i = u16 (ino_inodeData ino);
  si_bits : ino_inodeLayout ino = LayoutChunkBased -> i_ChunkBits i = chunk_bits img (u16 (ino_inodeData ino));
  si_start : Z.land (i_Mode i) ModeTypeMask = SpecModeDir \/ Z.land (i_Mode i) ModeTypeMask = SpecModeRegular \/
             Z.land (i_Mode i) ModeTypeMask = SpecModeSymlink ->
    i_StartBlk i = if nullAddress ino then SpecNullAddr else startBlock ino }.

Section Inodes.
Context (img : image) (im : Image) (Hwf : image_wf img) (Hag : agrees img im).

(** A read the image holds, on both sides. *)
Lemma sliceAt_ok (c : bytes) off n : 0 <= off -> 0 <= n -> off + n <= zlen c -> sliceAt c off n = Got (sub c (Z.to_nat off) (Z.to_nat n)).
Proof. clear. intros. unfold sliceAt. by rewrite !(proj2 (Z.ltb_ge _ _)) by lia. Qed.

Lemma sliceAt_inv (c : bytes) off n b :
  sliceAt c off n = Got b -> 0 <= off /\ 0 <= n /\ off + n <= zlen c /\ b = sub c (Z.to_nat off) (Z.to_nat n).
Proof.
  clear. unfold sliceAt. destruct (_ || _) eqn:E; [done|]. intros [= <-]. rewrite !orb_false_iff in E. zbool. split_and!; try done; lia.
Qed.

Lemma mode_type m : Z.land m ModeTypeMask = Z.land m StatTypeMask.
Proof. done. Qed.

(** The format's layout, as each computes it. *)
Lemma layout_agrees f : is_u16 f -> andnot f formatAll = 0 ->
  Z.land (u8 (Z.shiftr f 1)) 7 = u8 (Z.shiftr (Z.land f InodeFormatLayoutMask) 1) /\
  (Z.land f 1 =? 1) = negb (Z.land f InodeFormatExtended =? 0) /\
  (Z.land (Z.shiftr f 4) 1 =? 1) = negb (Z.land f InodeFormatNlink1 =? 0).
Proof.
  clear. intros Hf Ha.
  set (g f := (negb (andnot f formatAll =? 0)) ||
    ((Z.land (u8 (Z.shiftr f 1)) 7 =? u8 (Z.shiftr (Z.land f InodeFormatLayoutMask) 1)) &&
     eqb (Z.land f 1 =? 1) (negb (Z.land f InodeFormatExtended =? 0)) &&
     eqb (Z.land (Z.shiftr f 4) 1 =? 1) (negb (Z.land f InodeFormatNlink1 =? 0)))).
  assert (Hg : all_modes g = true) by (vm_compute; reflexivity).
  pose proof (all_modes_spec g Hg f Hf) as Hx. clear Hg. unfold g in Hx. rewrite Ha in Hx. cbn [Z.eqb negb orb] in Hx.
  rewrite !andb_true_iff in Hx. destruct Hx as [[H1%Z.eqb_eq H2%eqb_prop] H3%eqb_prop]. done.
Qed.

(** ** The core *)

(** The inode both decoded, before the reference looks at its type. *)
Record decoded (nid xcnt : Z) (ino : inode) (i : Inode) : Prop := {
  dc_nid : i_Nid i = nid; dc_mode : i_Mode i = ino_rawMode ino; dc_nlink : i_Nlink i = ino_nlink ino;
  dc_size : i_Size i = ino_size ino; dc_uid : i_UID i = ino_uid ino; dc_gid : i_GID i = ino_gid ino;
  dc_mtime : i_Mtime i = i64 (ino_mtime ino); dc_mtimeNs : i_MtimeNs i = ino_mtimeNs ino;
  dc_layout : i_Layout i = ino_inodeLayout ino; dc_xsize : i_XattrSize i = ibodySize xcnt;
  dc_isize : i_isize i = ino_icsize ino; dc_loc : i_loc i = metaStartPos img + nid * 32;
  dc_chunk : i_ChunkFormat i = u16 (ino_inodeData ino); dc_start : i_StartBlk i = startBlock ino;
  dc_mask : i_mask48 i = ino_addr48 ino }.

Lemma i64_add_l a b : i64 (i64 a + b) = i64 (a + b).
Proof.
  clear. unfold i64. f_equal. replace ((a + 2 ^ 63) mod 2 ^ 64 - 2 ^ 63 + b + 2 ^ 63) with ((a + 2 ^ 63) mod 2 ^ 64 + b) by lia.
  rewrite Z.add_mod_idemp_l by lia. f_equal. lia.
Qed.

Lemma i64_u64 a : i64 (u64 a) = i64 a.
Proof. clear. unfold i64, u64. by rewrite Z.add_mod_idemp_l by lia. Qed.

Lemma start_hi lo hi : is_u16 hi -> Z.lor lo (u64 (Z.shiftl hi startBlockBits32)) = Z.lor lo (Z.shiftl hi 32).
Proof.
  clear. unfold is_u16, startBlockBits32. intros H. rewrite u64_id; [done|]. unfold is_u64. rewrite Z.shiftl_mul_pow2 by lia. lia.
Qed.

(** A field of the window is the field of the slot. *)
Lemma get_window (c : bytes) a k o n w : (o + n <= k)%nat -> (k <= w)%nat ->
  sub (sub c a w) o n = sub (sub c a k) o n.
Proof. clear. intros. rewrite !sub_sub by lia. done. Qed.

Ltac window := unfold get16, get32, get64; f_equal; apply get_window; lia.

Lemma decode_matches name nid w format ino xcnt :
  let a := metaStartPos img + nid * 32 in
  let buf := sub (im_data im) (Z.to_nat a) w in
  is_u64 nid -> 0 <= a -> a + 32 <= zlen (im_data im) -> nid * 32 < 2 ^ 63 -> (64 <= w)%nat ->
  format = get16 buf 0 -> checkInodeFormat format = Ok tt ->
  decodeInode img name nid buf format = Ok (ino, xcnt) -> 0 <= ino_size ino ->
  exists i, inode_core im nid = Got i /\ decoded nid xcnt ino i /\ i_Format i = format /\ is_u16 xcnt.
Proof using Hwf Hag.
  intros a buf Hn Ha Hl Hfit Hw Hf Hc E Hs. set (c := im_data im) in *. unfold is_u64 in Hn.
  destruct (metaStartPos_eq img Hwf) as [Em Rm].
  assert (Loc : i64 (s_MetaBlkAddr (im_Super im) * s_BlockSize (im_Super im) + i64 (nid * SlotSize)) = a).
  { rewrite (ag_meta _ _ Hag), (ag_bs _ _ Hag), <- Em. unfold SlotSize. rewrite (i64_id (nid * 32)) by lia. apply i64_id.
    pose proof (wf_size _ Hwf) as Hz. rewrite (ag_size _ _ Hag) in Hz. fold c in Hz. unfold MaxInt64 in Hz. fold a. lia. }
  unfold inode_core. rewrite Z.shiftr_div_pow2, Z.div_small by lia. cbn [Z.eqb negb]. rewrite Loc.
  unfold bytesAt, CompactSize. fold c. rewrite (sliceAt_ok c a 32) by lia. cbn [mbind sres_bind].
  assert (Ef : get16 (sub c (Z.to_nat a) (Z.to_nat 32)) 0 = format) by (rewrite Hf; unfold buf; symmetry; window).
  rewrite Ef. unfold checkInodeFormat in Hc. step_in Hc. zbool. change InodeFormatAll with formatAll in E0.
  assert (Hfu : is_u16 format) by (rewrite Hf; apply get16_range).
  destruct (layout_agrees format Hfu E0) as (L1 & L2 & L3). rewrite E0. cbn [Z.eqb negb]. rewrite L1, L2.
  step_in Hc. rewrite !orb_false_iff in E1. destruct E1 as [[E1 _] _]. unfold LayoutMax in E1. zbool.
  assert (Hlay : u8 (Z.shiftr (Z.land format InodeFormatLayoutMask) 1) = Z.shiftr (Z.land format InodeFormatLayoutMask) 1).
  { apply Z.mod_small. split; [apply Z.shiftr_nonneg, Z.land_nonneg; right; unfold InodeFormatLayoutMask; lia|lia]. }
  rewrite (proj2 (Z.leb_gt layoutMax _)) by (rewrite Hlay; unfold layoutMax; lia).
  unfold decodeInode in E. destruct (Z.eqb_spec (Z.land format InodeFormatExtended) 0) as [Ex|Ex]; cbn [negb].
  - unfold InodeCompact_Unmarshal in E. destruct (zlen buf <? _); [done|]. apply Ok_inj in E. injection E as <- <-. cbn in Hs |- *.
    eexists. split; [reflexivity|]. split; [|split; [done|apply get16_range]]. unfold decodeCompact. rewrite L3.
    assert (G : forall o n, (o + n <= 32)%nat -> sub (sub c (Z.to_nat a) (Z.to_nat 32)) o n = sub buf o n)
      by (intros; symmetry; unfold buf; apply get_window; lia).
    unfold get16, get32. rewrite !G by lia. unfold ModeTypeMask, SpecModeDir. rewrite (ag_epoch _ _ Hag), (ag_nsec _ _ Hag).
    constructor; cbn; try done.
    + by rewrite i64_add_l, i64_u64.
    + unfold startBlock. cbn. rewrite start_hi; [|destruct (_ && _); [apply get16_range|unfold is_u16; lia]].
      destruct (_ && _); [done|]. cbn. by rewrite Z.lor_0_r.
  - unfold InodeExtended_Unmarshal in E. destruct (Z.ltb_spec (zlen buf) SizeInodeExtended) as [|Eb]; [done|]. apply Ok_inj in E. injection E as <- <-. cbn in Hs |- *.
    unfold SizeInodeExtended, buf, zlen, sub in Eb. rewrite length_take, length_drop in Eb.
    assert (Hl64 : a + 64 <= zlen c) by (unfold zlen; lia). clear Eb.
    unfold decodeExtended, bytesAt, ExtendedSize. fold c. rewrite (sliceAt_ok c a 64) by lia. cbn [mbind sres_bind].
    assert (G : forall o n, (o + n <= 64)%nat -> sub (sub c (Z.to_nat a) (Z.to_nat 64)) o n = sub buf o n)
      by (intros; symmetry; unfold buf; apply get_window; lia).
    unfold get16, get32, get64 in *. rewrite !G by lia. rewrite (proj2 (Z.ltb_ge _ 0)) by done.
    eexists. split; [reflexivity|]. split; [|split; [done|apply get16_range]].
    constructor; cbn; try done. unfold startBlock. cbn. rewrite start_hi; [done|apply get16_range].
Qed.

(** ** The type *)

(** The type a dirent can claim is one the format defines. *)
Lemma claimed_type m t : is_u16 m -> FileMode_Type (EroFSModeToGoFileMode m) = EroFSFtypeToFileMode t ->
  let typ := Z.land m ModeTypeMask in
  typ = SpecModeDir \/ typ = SpecModeRegular \/ typ = SpecModeSymlink \/ typ = SpecModeChar \/ typ = SpecModeBlock \/
  typ = SpecModeFifo \/ typ = SpecModeSocket.
Proof.
  clear. intros Hm Ht. cbv zeta.
  set (f m := let typ := Z.land m ModeTypeMask in let ft := FileMode_Type (EroFSModeToGoFileMode m) in
    (typ =? SpecModeDir) || (typ =? SpecModeRegular) || (typ =? SpecModeSymlink) || (typ =? SpecModeChar) ||
    (typ =? SpecModeBlock) || (typ =? SpecModeFifo) || (typ =? SpecModeSocket) || (ft =? ModeIrregular)).
  assert (Hf : all_modes f = true) by (vm_compute; reflexivity).
  pose proof (all_modes_spec f Hf m Hm) as H. clear Hf. unfold f in H. cbv zeta in H. rewrite !orb_true_iff, !Z.eqb_eq in H.
  assert (N : FileMode_Type (EroFSModeToGoFileMode m) <> ModeIrregular).
  { rewrite Ht. unfold EroFSFtypeToFileMode. repeat case_match; done. }
  tauto.
Qed.

Lemma symlink_bits m : is_u16 m -> Z.land m ModeTypeMask = SpecModeSymlink -> Z.land (EroFSModeToGoFileMode m) ModeSymlink <> 0.
Proof.
  clear. intros Hm Ht.
  set (f m := negb (Z.land m ModeTypeMask =? SpecModeSymlink) || negb (Z.land (EroFSModeToGoFileMode m) ModeSymlink =? 0)).
  assert (Hf : all_modes f = true) by (vm_compute; reflexivity).
  pose proof (all_modes_spec f Hf m Hm) as H. clear Hf. unfold f in H. rewrite Ht, Z.eqb_refl in H. cbn [negb orb] in H.
  by apply negb_true_iff, Z.eqb_neq in H.
Qed.

(** What [finishInfo] adds, and what it has looked at. *)
Lemma finishInfo_body ino buf xcnt ino' :
  is_u16 xcnt -> ino_xsize ino = 0 -> finishInfo ino buf xcnt = Ok ino' ->
  ino' = set_xsize (ibodySize xcnt) ino /\
  (Z.land (ino_mode ino) ModeSymlink <> 0 -> ino_inodeLayout ino = LayoutFlatInline -> 0 <= ino_size ino ->
   let start := ino_icsize ino + ibodySize xcnt in
   0 <= start -> start + ino_size ino <= zlen buf -> start + ino_size ino <= MaxInt64 ->
   IndexByte (sub buf (Z.to_nat start) (Z.to_nat (ino_size ino))) x00 < 0).
Proof.
  clear. intros Hx Hz E. unfold finishInfo, assign_xsize in E. unfold is_u16 in Hx.
  assert (X : (if 0 <? xcnt then let! xsize := xattrBodySize xcnt in Ok (set_xsize xsize ino) else Ok ino) = Ok (set_xsize (ibodySize xcnt) ino)).
  { unfold ibodySize, xattrBodySize, SizeXattrEntry, SizeXattrBodyHeader, xattrHeaderSize in *.
    destruct (Z.ltb_spec 0 xcnt); [|rewrite (proj2 (Z.eqb_eq _ _)) by lia; f_equal; destruct ino; cbn in *; by subst].
    rewrite (proj2 (Z.eqb_neq xcnt 0)) by lia. destruct (xcnt =? 1); [done|].
    rewrite u16_id by (unfold is_u16; lia). do 2 f_equal. lia. }
  rewrite X in E. clear X. step_in E. clear E0. cbn [ino_mode ino_inodeLayout ino_size ino_icsize ino_xsize set_xsize] in E.
  split; [repeat step_in E; by apply Ok_inj in E|]. intros Hs Hl H0. cbv zeta. intros H1 H2 H3.
  unfold MaxInt64 in H3. rewrite (proj2 (Z.eqb_neq _ 0) Hs), Hl, (proj2 (Z.ltb_ge _ 0) H0) in E. cbn [orb negb Z.eqb LayoutFlatInline Pos.eqb] in E.
  step_in E. rewrite i64_id in E by lia. rewrite (proj2 (Z.leb_le _ _)) in E by lia.
  step_in E. apply slice_inv in E1 as (_ & _ & ->). step_in E. zbool.
  replace (_ + _ + _ - _) with (ino_size ino) in E1 by lia. done.
Qed.

(** The switch on the mode sets what [same_inode] asks for. *)
Lemma type_switch t xcnt ino0 ino i0 :
  decoded (ino_nid ino) xcnt ino0 i0 -> inode_wf img ino -> ino = set_xsize (ibodySize xcnt) ino0 ->
  FileMode_Type (ino_mode ino) = EroFSFtypeToFileMode t ->
  exists sb rdev bits dot, decodeType im i0 =
      (let i := with_type sb rdev bits dot i0 in if IsSymlink i then decodeInlineSymlink im i else Got i) /\
      same_inode img ino (with_type sb rdev bits dot i0).
Proof using Hwf Hag.
  intros Dc Wf Ei Ht. pose proof (claimed_type _ t (wf_rawMode _ _ Wf) ltac:(by rewrite <- (wf_mode _ _ Wf))) as Htyp. cbv zeta in Htyp.
  assert (Em : i_Mode i0 = ino_rawMode ino) by (rewrite (dc_mode _ _ _ _ Dc), Ei; done).
  set (mask := if i_mask48 i0 then 2 ^ 48 - 1 else 2 ^ 32 - 1).
  set (bits := if i_Layout i0 =? LayoutChunkBased then s_BlockBits (im_Super im) + Z.land (i_ChunkFormat i0) ChunkFormatBlkBitsMask else 0).
  assert (LL : i_Layout i0 = ino_inodeLayout ino) by (by rewrite (dc_layout _ _ _ _ Dc), Ei).
  assert (L2 : (i_Layout i0 =? LayoutCompressedFull) || (i_Layout i0 =? LayoutCompressedCompact) = false)
    by (rewrite LL; by destruct (wf_layout _ _ Wf) as [-> | [-> | ->]]).
  assert (L3 : (i_Layout i0 =? LayoutChunkBased) && negb (andnot (i_ChunkFormat i0) chunkFormatAll =? 0) = false).
  { destruct (Z.eqb_spec (i_Layout i0) LayoutChunkBased) as [Hc|]; [|done]. rewrite LL in Hc. cbn [andb].
    rewrite (dc_chunk _ _ _ _ Dc). pose proof (wf_chunkfmt _ _ Wf Hc) as W. rewrite Ei in W. cbn in W.
    change chunkFormatAll with LayoutChunkFormatAll. by rewrite W. }
  assert (B : forall sb rdev dot,
    (Z.land (i_Mode i0) ModeTypeMask = SpecModeDir \/ Z.land (i_Mode i0) ModeTypeMask = SpecModeRegular \/
     Z.land (i_Mode i0) ModeTypeMask = SpecModeSymlink -> sb = if nullAddress ino then SpecNullAddr else startBlock ino) ->
    same_inode img ino (with_type sb rdev bits dot i0)).
  { intros sb rdev dot Hsb. destruct Dc. rewrite Ei in *. constructor; cbn in *; try done.
    intros Hc. unfold bits. rewrite dc_layout0, Hc. cbn [Z.eqb LayoutChunkBased Pos.eqb]. rewrite (ag_bits _ _ Hag), dc_chunk0.
    unfold chunk_bits. pose proof (wf_bits _ Hwf). set (f := u16 _). change ChunkFormatBlkBitsMask with LayoutChunkFormatBits.
    assert (Hf : 0 <= Z.land f LayoutChunkFormatBits < 32).
    { change LayoutChunkFormatBits with (2 ^ 5 - 1). rewrite land_pow2_mask by lia. apply Z.mod_pos_bound. lia. }
    unfold u8. rewrite (Z.mod_small (Z.land _ _)) by lia. rewrite Z.mod_small by lia. done. }
  assert (Sb : (if (i_Layout i0 =? LayoutFlatPlain) && (Z.land (i_StartBlk i0) mask =? mask) then SpecNullAddr else i_StartBlk i0) =
    if nullAddress ino then SpecNullAddr else startBlock ino).
  { destruct Dc. rewrite Ei. unfold nullAddress, nullStartBlock, mask. cbn. rewrite dc_layout0, dc_start0, dc_mask0. by destruct (ino_addr48 ino0). }
  rewrite <- Em in Htyp. unfold decodeType. cbv zeta. fold mask.
  destruct Htyp as [T|[T|[T|[T|[T|[T|T]]]]]]; rewrite T in *;
    unfold SpecModeDir, SpecModeRegular, SpecModeSymlink, SpecModeChar, SpecModeBlock, SpecModeFifo, SpecModeSocket in *;
    cbn [Z.eqb Pos.eqb orb andb mbind sres_bind]; rewrite L2, L3;
    (eexists _, _, bits, _; split; [reflexivity|apply B]); intros [?|[?|?]]; done.
Qed.

(** The data an inode carries after its core and attributes would end past the
    image. *)
Definition target_past (img : image) (im : Image) (ino : inode) : Prop :=
  zlen (im_data im) < metaStartPos img + ino_nid ino * 32 + ino_icsize ino + ino_xsize ino + ino_size ino.

(** A fast symlink [finishInfo] looked into: the reference takes its target. *)
Lemma fast_symlink xcnt ino0 ino i w :
  let a := metaStartPos img + ino_nid ino * 32 in
  let buf := sub (im_data im) (Z.to_nat a) w in
  0 <= a -> a + 32 <= zlen (im_data im) -> Z.of_nat w = readInfo_len img a ->
  inode_wf img ino -> is_u16 xcnt -> ino_xsize ino0 = 0 -> finishInfo ino0 buf xcnt = Ok ino ->
  same_inode img ino i -> IsSymlink i = true ->
  (exists i', same_inode img ino i' /\ decodeInlineSymlink im i = Got i') \/
  (decodeInlineSymlink im i = Refused SpecTruncated /\ target_past img im ino).
Proof using Hwf Hag.
  intros a buf Ha Hl Hw Wf Hx Hx0 E Same Hsl. destruct (finishInfo_body _ _ _ _ Hx Hx0 E) as [Ei Hsym].
  unfold decodeInlineSymlink. destruct (_ || _) eqn:Hin; [left; by exists i|].
  apply orb_false_iff in Hin as [Hlay%negb_false_iff%Z.eqb_eq Hfit%Z.ltb_ge].
  destruct (bytesAt im _ _) as [target|e|] eqn:Eb.
  2:{ right. cbn. unfold bytesAt, sliceAt in Eb. destruct (_ || _) eqn:Hb; [|done]. injection Eb as <-. split; [done|].
      unfold target_past. rewrite <- (si_isize _ _ _ Same), <- (si_xsize _ _ _ Same), <- (si_size _ _ _ Same), <- (si_loc _ _ _ Same).
      assert (0 <= i_loc i + i_isize i + i_XattrSize i /\ 0 <= i_Size i).
      { rewrite (si_isize _ _ _ Same), (si_xsize _ _ _ Same), (si_size _ _ _ Same), (si_loc _ _ _ Same).
        pose proof (wf_isize _ _ Wf). destruct (wf_icsize _ _ Wf), (wf_xsize _ _ Wf); lia. }
      rewrite !orb_true_iff, !Z.ltb_lt in Hb. lia. }
  2:{ unfold bytesAt, sliceAt in Eb. by destruct (_ || _). }
  cbn [mbind sres_bind]. apply sliceAt_inv in Eb as (B1 & B2 & B3 & ->). fold (im_data im).
  pose proof (wf_size _ Hwf) as Hz. rewrite (ag_size _ _ Hag) in Hz. unfold MaxInt64 in Hz.
  pose proof (pow2_bits _ (wf_bits _ Hwf)) as Rb. set (bs := 2 ^ img_bits img) in *.
  assert (Eloc : i_loc i = a) by apply (si_loc _ _ _ Same).
  assert (Ebs : s_BlockSize (im_Super im) = bs) by apply (ag_bs _ _ Hag).
  rewrite Ebs, Eloc, Z.rem_mod_nonneg in Hfit by lia. rewrite Eloc in *. pose proof (Z.mod_pos_bound a bs ltac:(lia)) as Hmod.
  pose proof (wf_icsize _ _ Wf) as I1. pose proof (wf_xsize _ _ Wf) as I2.
  rewrite <- (si_isize _ _ _ Same) in I1. rewrite <- (si_xsize _ _ _ Same) in I2.
  pose proof (Z.mod_le a bs ltac:(lia) ltac:(lia)). rewrite i64_id in Hfit by lia.
  assert (Hw' : bs - a mod bs <= Z.of_nat w).
  { rewrite Hw. unfold readInfo_len. rewrite shiftl1 by (pose proof (wf_bits _ Hwf); lia). fold bs.
    pose proof (land_pow2_mask a (img_bits img) ltac:(pose proof (wf_bits _ Hwf); lia)) as L1. fold bs in L1. rewrite L1. case_match; zbool; lia. }
  assert (Hlen : i_isize i + i_XattrSize i + i_Size i <= zlen buf).
  { unfold buf, zlen, sub. rewrite length_take, length_drop. unfold zlen in B3. lia. }
  left. exists (with_target (sub (im_data im) (Z.to_nat (a + i_isize i + i_XattrSize i)) (Z.to_nat (i_Size i))) i).
  split; [destruct Same; by constructor|].
  assert (Hsl' : Z.land (ino_mode ino0) ModeSymlink <> 0).
  { replace (ino_mode ino0) with (ino_mode ino) by (by rewrite Ei). rewrite (wf_mode _ _ Wf). apply symlink_bits; [apply (wf_rawMode _ _ Wf)|].
    unfold IsSymlink in Hsl. apply Z.eqb_eq in Hsl. by rewrite (si_mode _ _ _ Same) in Hsl. }
  assert (P0 : i_Size i <> 0).
  { rewrite (si_size _ _ _ Same). pose proof (wf_fastlink _ _ Wf) as W. rewrite Ei in *. cbn in *.
    specialize (W Hsl'). rewrite (si_layout _ _ _ Same) in Hlay. specialize (W Hlay). lia. }
  rewrite (proj2 (Z.eqb_neq _ _) P0). cbn [orb].
  assert (NUL : IndexByte (sub (im_data im) (Z.to_nat (a + i_isize i + i_XattrSize i)) (Z.to_nat (i_Size i))) x00 < 0).
  { pose proof (si_layout _ _ _ Same) as Zl. rewrite Hlay in Zl. symmetry in Zl. destruct Same as [_ _ _ Zs _ _ _ _ _ Zx Zi _ _ _ _]. rewrite Zs, Zx, Zi in *. rewrite Ei in *. cbn [ino_size ino_xsize ino_icsize set_xsize] in *.
    specialize (Hsym Hsl' Zl ltac:(lia)). cbv zeta in Hsym.
    specialize (Hsym ltac:(lia) ltac:(lia) ltac:(unfold MaxInt64; lia)). unfold buf in Hsym. rewrite sub_sub in Hsym.
    - replace (Z.to_nat (a + _ + _)) with (Z.to_nat a + Z.to_nat (ino_icsize ino0 + ibodySize xcnt))%nat by lia. done.
    - lia. }
  by rewrite (proj2 (Z.leb_gt _ _) NUL).
Qed.

(** What [decodeType] answers of an inode the package's [finishInfo] took. *)
Lemma type_matches t w xcnt ino0 ino i0 :
  let a := metaStartPos img + ino_nid ino * 32 in
  let buf := sub (im_data im) (Z.to_nat a) w in
  0 <= a -> a + 32 <= zlen (im_data im) -> Z.of_nat w = readInfo_len img a ->
  decoded (ino_nid ino) xcnt ino0 i0 -> is_u16 xcnt -> inode_wf img ino ->
  ino_xsize ino0 = 0 -> FileMode_Type (ino_mode ino) = EroFSFtypeToFileMode t ->
  finishInfo ino0 buf xcnt = Ok ino ->
  exists i, same_inode img ino i /\
    (decodeType im i0 = Got i \/ (IsSymlink i = true /\ decodeType im i0 = Refused SpecTruncated /\ target_past img im ino)).
Proof using Hwf Hag.
  intros a buf Ha Hl Hw Dc Hx Wf Hx0 Ht E. destruct (finishInfo_body _ _ _ _ Hx Hx0 E) as [Ei _].
  destruct (type_switch t xcnt ino0 ino i0 Dc Wf Ei Ht) as (sb & rdev & bits & dot & -> & Same).
  set (i := with_type sb rdev bits dot i0) in *. cbv zeta. destruct (IsSymlink i) eqn:Hsl; [|by exists i; auto].
  destruct (fast_symlink xcnt ino0 ino i w Ha Hl Hw Wf Hx Hx0 E Same Hsl) as [(i' & S' & ->)|[-> ?]]; [exists i'|exists i]; auto.
Qed.

Lemma readInfo_spec name nid t ino :
  is_u64 nid -> readInfo_fresh img name nid (EroFSFtypeToFileMode t) = Ok ino ->
  exists i0 i, inode_core im nid = Got i0 /\ same_inode img ino i /\
    (decodeType im i0 = Got i \/ (IsSymlink i = true /\ decodeType im i0 = Refused SpecTruncated /\ target_past img im ino)).
Proof using Hwf Hag.
  intros Hn E. unfold readInfo_fresh, readInfo_addr in E. destruct (checkNid img nid) as [[]| |] eqn:Ec; try done.
  destruct (checkNid_offset img Hwf nid Hn Ec) as [_ Hoff]. destruct (metaStartPos_eq img Hwf) as [_ Rm]. unfold MaxInt64, is_u64 in *.
  rewrite u64_id in E by (unfold is_u64, SizeInodeCompact; lia). rewrite (i64_id (nid * _)) in E by (unfold SizeInodeCompact; lia).
  rewrite i64_id in E by (unfold SizeInodeCompact; lia). unfold SizeInodeCompact in E. set (a := metaStartPos img + nid * 32) in *.
  destruct (readInfo_body _ _ _ _ _) as [ino'| |] eqn:Eb; try done. apply Ok_inj in E as ->.
  pose proof (readInfo_body_wf _ _ _ _ _ _ Ec Eb) as (W & W1 & W2 & W3).
  assert (Lw : 64 <= readInfo_len img a) by (unfold readInfo_len, SizeInodeExtended; case_match; zbool; lia).
  unfold readInfo_body, readInfo_decode in Eb. pose proof (ag_data _ _ Hag) as Hback.
  pose proof (backed_bytes (r := img_meta img) (c := im_data im) a (readInfo_len img a) ltac:(lia) ltac:(lia)) as Bb.
  destruct (ReadAt (img_meta img) a (readInfo_len img a)) as [buf err]. cbn in Bb. subst buf.
  destruct (match err with Some _ => _ | None => _ end) as [[]| |]; try done.
  set (buf := sub (im_data im) _ _) in *. destruct (Z.ltb_spec (zlen buf) SizeInodeCompact) as [|Lb]; [done|].
  assert (Hl : a + 32 <= zlen (im_data im)).
  { unfold SizeInodeCompact, buf, zlen, sub in *. rewrite length_take, length_drop in Lb. lia. }
  destruct (checkInodeFormat _) as [[]| |] eqn:Ef; try done.
  destruct (decodeInode _ _ _ _ _) as [[ino0 xcnt]| |] eqn:Ed; try done.
  destruct (Z.ltb_spec (ino_size ino0) 0) as [|Hs]; [done|]. destruct (negb _); [done|].
  destruct (decodeInode_wf _ _ _ _ _ _ _ Ec (get16_range _ _) Ef Ed) as (X1 & X2 & _).
  destruct (decode_matches name nid (Z.to_nat (readInfo_len img a)) (get16 buf 0) ino0 xcnt ltac:(unfold is_u64; lia) ltac:(lia) Hl ltac:(lia) ltac:(lia) eq_refl Ef Ed Hs) as (i0 & C & Dc & _ & _).
  assert (Hw : Z.of_nat (Z.to_nat (readInfo_len img a)) = readInfo_len img a) by lia.
  subst nid. destruct (type_matches t (Z.to_nat (readInfo_len img a)) xcnt ino0 ino i0 ltac:(lia) Hl Hw Dc X1 W X2 W3 Eb) as (i & Sm & T). by exists i0, i.
Qed.

End Inodes.
