(* ===== verification/SpecData.v ===== *)
(** * The package's data is the reference's

    The bytes [loadBlock] serves (Data.v) are the bytes the reference's
    [ReadAt] answers (Spec.v): flat, inline and chunk-based files, holes, and
    devices both given and laid out flat. *)

From S2P Require Import Prelude Machine Disk Format Image Inode Data Open Spec SpecInode.

(** ** One extent *)

(** A range within the extent at its start. *)
Lemma ReadAt_one im i pos n e :
  0 <= pos -> 0 < n -> pos + n <= i_Size i -> i_Size i <= MaxInt64 ->
  ExtentAt im i pos = Got e -> pos + n <= e_Logical e + e_Length e <= MaxInt64 ->
  spec_ReadAt im i pos n =
    if e_Hole e then Got (zeros (Z.to_nat n))
    else (b ← deviceBytes im (e_Device e) (i64 (e_Physical e + (pos - e_Logical e))) n; Got (assemble n [(0, b)])).
Proof.
  intros Hp Hn Hs Hm E He. unfold MaxInt64 in *. unfold spec_ReadAt. rewrite !(proj2 (Z.ltb_ge _ _)) by lia. cbn [orb].
  destruct (Z.to_nat n) as [|fuel] eqn:Ef; [lia|]. cbn [read_pieces]. rewrite (proj2 (Z.leb_gt _ _)) by lia. rewrite E. cbn [mbind sres_bind].
  rewrite i64_id by lia. rewrite Z.min_r by lia. replace (pos + n - pos) with n by lia.
  assert (R : read_pieces im fuel i pos (pos + n) (pos + n) = Got []).
  { destruct fuel; cbn [read_pieces]; by rewrite (proj2 (Z.leb_le _ _)) by lia. }
  destruct (e_Hole e); cbn [mbind sres_bind]; rewrite ?R; cbn [mbind sres_bind app]; [unfold assemble; cbn [foldl]; by rewrite Ef|].
  destruct (deviceBytes _ _ _ _); [|done..]. cbn [mbind sres_bind]. rewrite ?R. cbn [mbind sres_bind app]. by rewrite Z.sub_diag.
Qed.

Lemma assemble_one n b : zlen b = n -> assemble n [(0, b)] = b.
Proof.
  intros H. unfold assemble. cbn [foldl]. unfold splice, zeros, zlen in *. cbn [take app]. rewrite drop_ge; [by rewrite app_nil_r|].
  rewrite length_replicate. cbn. lia.
Qed.

Lemma block_le bs q delta a : 0 <= delta < bs -> a * bs <= q * bs + delta <-> a <= q.
Proof. intros H. split; nia. Qed.

(** No device given apart from the image is mapped over the image's bytes: the
    reference takes inline data from wherever its address is mapped, the package
    from the image. *)
Record metadata_apart (img : image) (im : Image) : Prop := {
  ma_size : 0 < img_size img;
  ma_above : im_extra im = [] \/ forall d, d ∈ img_devices img -> dev_mappedBlkAddr d <> 0 -> img_size img <= dev_start img d }.

Section Devices.
Context (img : image) (im : Image) (Hwf : image_wf img) (Hag : agrees img im).
Let bs := 2 ^ img_bits img.

(** A full read of a device is a slice of its content. *)
Lemma exact_slice r c off n b : Backed r c -> 0 <= off -> 0 < n -> read_exact r off n = Ok b -> sliceAt c off n = Got b.
Proof using Type.
  clear. intros Hb Ho Hn E. unfold read_exact in E. pose proof (backed_bytes (r := r) (c := c) off n Ho ltac:(lia)) as B.
  destruct (ReadAt r off n) as [b' err]. cbn in B. subst b'.
  destruct (Z.eqb_spec (zlen (sub c (Z.to_nat off) (Z.to_nat n))) n) as [L|L].
  - apply Ok_inj in E as <-. apply sliceAt_ok; [lia..|]. rewrite zlen_sub in L by lia. lia.
  - destruct err as [e|]; [destruct (negb _)|]; done.
Qed.

Lemma device_read dev r off n b :
  0 < dev -> deviceReader img dev = Ok r -> 0 <= off -> 0 < n -> read_exact r off n = Ok b ->
  exists sd c, im_Devices im !! Z.to_nat (dev - 1) = Some sd /\ device_content im (Z.to_nat (dev - 1)) = Some c /\
    (forall d, img_devices img !! Z.to_nat (dev - 1) = Some d -> dev_mappedBlkAddr d = d_UniAddr sd) /\
    is_u32 (d_UniAddr sd) /\ sliceAt c off n = Got b.
Proof using Hwf Hag.
  intros Hd Hr Ho Hn E. unfold deviceReader in Hr. rewrite (proj2 (Z.eqb_neq _ _)) in Hr by lia.
  destruct (img_devices img !! Z.to_nat (dev - 1)) as [d|] eqn:Ed; [|done]. rewrite (proj2 (Z.ltb_ge _ _)) in Hr by lia. apply Ok_inj in Hr as <-.
  destruct (ag_devices _ _ Hag _ _ Ed) as (sd & Es & [A1 A2 (c & A3 & A4)]). exists sd, c. split; [done|]. split; [done|].
  split; [by intros d' [= <-]|]. rewrite <- A1. pose proof (Forall_lookup_1 _ _ _ _ (wf_devs _ Hwf) Ed) as W.
  split; [apply W|]. by apply (exact_slice (dev_device d)).
Qed.

(** The content of a device laid out flat is the image's. *)
Lemma flat_slice (c : bytes) base off n b :
  0 <= base -> 0 <= off -> 0 < n -> sliceAt (drop (Z.to_nat base) c) off n = Got b -> sliceAt c (base + off) n = Got b.
Proof using Type.
  clear. intros Hb Ho Hn E. apply sliceAt_inv in E as (_ & _ & L & ->). unfold zlen in *. rewrite length_drop in L.
  rewrite sliceAt_ok by (unfold zlen; lia). unfold sub. rewrite drop_drop. do 3 f_equal. lia.
Qed.

(** An extra device named by its id. *)
Lemma secondary_bytes did r off n b :
  0 < did -> deviceReader img did = Ok r -> 0 <= off < 2 ^ 62 -> 0 < n -> read_exact r off n = Ok b ->
  deviceBytes im did off n = Got b.
Proof using Hwf Hag.
  intros Hd Hr Ho Hn E. destruct (device_read did r off n b Hd Hr ltac:(lia) Hn E) as (sd & c & Es & Ec & _ & Hu & Hs).
  unfold deviceBytes. rewrite (proj2 (Z.eqb_neq _ _)) by lia. rewrite Es. unfold device_content, extraBytes in *.
  destruct (im_extra im) as [|x xs]; [|by rewrite Ec]. rewrite Es in Ec. cbn in Ec. injection Ec as <-.
  rewrite (ag_bs _ _ Hag) in *. fold bs in Hs |- *. pose proof (pow2_bits _ (wf_bits _ Hwf)) as R. fold bs in R. unfold is_u32 in Hu.
  assert (0 <= d_UniAddr sd * bs < 2 ^ 48) by nia. rewrite (i64_id (_ * _)) by lia. rewrite i64_id by lia.
  rewrite Z.add_comm. unfold bytesAt. apply flat_slice; auto; lia.
Qed.

(** The search of the unified ranges, from device [k] on: both go to the same
    device, wherever in the block the address lies. *)
Lemma unified_matches devs : forall sdevs k pa delta dev off,
  Forall2 (fun d sd => dev_mappedBlkAddr d = d_UniAddr sd /\ dev_blocks d = d_Blocks sd) devs sdevs -> Forall dev_wf devs ->
  Z.of_nat k + zlen devs <= MaxUint16 -> (delta = 0 \/ (exists q, pa = q * bs) /\ 0 <= delta < bs) ->
  locate_devs img devs (Z.of_nat k + 1) pa = Ok (dev, off) ->
  (unified_device im sdevs k (pa + delta) = None /\ dev = 0 /\ off = pa /\ 0 <= pa) \/
  (exists j sd, unified_device im sdevs k (pa + delta) = Some (j, d_UniAddr sd * bs) /\ (k <= j)%nat /\ sdevs !! (j - k)%nat = Some sd /\
     dev = Z.of_nat j + 1 /\ off = pa - d_UniAddr sd * bs /\ 0 <= off).
Proof using Hwf Hag.
  pose proof (pow2_bits _ (wf_bits _ Hwf)) as R. fold bs in R.
  induction devs as [|d devs IH]; intros sdevs k pa delta dev off F W Hk Hdel E; inversion F as [|? sd ? sdevs' [A1 A2] F']; subst.
  - cbn [locate_devs] in E. step_in E. apply Ok_inj in E. injection E as <- <-. zbool. left. split; [done|]. split; [done|]. split; [done|lia].
  - apply Forall_cons in W as [Wd W]. rewrite zlen_cons in Hk. pose proof (zlen_nonneg devs). unfold MaxUint16 in *.
    cbn [locate_devs unified_device] in *. destruct (dev_start_eq img Hwf d Wd) as [S1 S2]. destruct (dev_length_eq img Hwf d Wd) as [L1 L2].
    fold bs in S1, L1. rewrite (ag_bs _ _ Hag). fold bs. rewrite <- A1, <- A2, <- S1, <- L1.
    rewrite (i64_id (dev_start _ _)), (i64_id (dev_length _ _)), i64_id by lia. rewrite i64_id in E by lia.
    assert (NEXT : locate_devs img devs (Z.of_nat k + 1 + 1) pa = Ok (dev, off) ->
      (unified_device im sdevs' (S k) (pa + delta) = None /\ dev = 0 /\ off = pa /\ 0 <= pa) \/
      (exists j sd0, unified_device im sdevs' (S k) (pa + delta) = Some (j, d_UniAddr sd0 * bs) /\ (k <= j)%nat /\
         (sd :: sdevs') !! (j - k)%nat = Some sd0 /\ dev = Z.of_nat j + 1 /\ off = pa - d_UniAddr sd0 * bs /\ 0 <= off)).
    { intros E'. replace (Z.of_nat k + 1 + 1) with (Z.of_nat (S k) + 1) in E' by lia.
      destruct (IH sdevs' (S k) pa delta dev off F' W ltac:(lia) Hdel E') as [?|(j & sd0 & U & J & L & ?)]; [by left|].
      right. exists j, sd0. split; [done|]. split; [lia|]. split; [|done]. replace (j - k)%nat with (S (j - S k)) by lia. done. }
    destruct (Z.eqb_spec (dev_mappedBlkAddr d) 0) as [Z0|Z0]; cbn [negb andb]; [by apply NEXT|].
    assert (IN : (dev_start img d <=? pa + delta) && (pa + delta <? dev_start img d + dev_length img d) =
      (dev_start img d <=? pa) && (pa <? dev_start img d + dev_length img d)).
    { destruct Hdel as [-> | [[q ->] Hd]]; [by rewrite Z.add_0_r|]. rewrite S1, L1. apply eq_true_iff_eq.
      rewrite !andb_true_iff, !Z.leb_le, !Z.ltb_lt. rewrite <- Z.mul_add_distr_r.
      pose proof (block_le bs q delta (dev_mappedBlkAddr d) Hd). pose proof (block_le bs q delta (dev_mappedBlkAddr d + dev_blocks d) Hd).
      pose proof (Z.mul_le_mono_pos_r (dev_mappedBlkAddr d) q bs ltac:(lia)).
      pose proof (Z.mul_lt_mono_pos_r bs q (dev_mappedBlkAddr d + dev_blocks d) ltac:(lia)). lia. }
    rewrite IN. destruct (_ && _) eqn:Hin; [|by apply NEXT]. apply andb_true_iff in Hin as [I1%Z.leb_le I2%Z.ltb_lt].
    apply Ok_inj in E. injection E as <- <-. right. exists k, sd. rewrite Nat.sub_diag, <- A1, <- S1. rewrite u16_id by (unfold is_u16; lia).
    split_and!; try done; lia.
Qed.

Lemma devices_match : Forall2 (fun d sd => dev_mappedBlkAddr d = d_UniAddr sd /\ dev_blocks d = d_Blocks sd) (img_devices img) (im_Devices im).
Proof using Hag.
  apply Forall2_same_length_lookup_2; [apply (ag_count _ _ Hag)|]. intros k d sd Hd Hs.
  destruct (ag_devices _ _ Hag k d Hd) as (sd' & Hs' & [A1 A2 _]). rewrite Hs in Hs'. by injection Hs' as <-.
Qed.

(** An address of the primary space. *)
Lemma primary_bytes pa delta n b dev off r :
  0 <= delta -> (delta = 0 \/ (exists q, pa = q * bs) /\ 0 <= delta < bs) -> locate img 0 pa = Ok (dev, off) ->
  deviceReader img dev = Ok r -> 0 < n -> read_exact r (off + delta) n = Ok b ->
  deviceBytes im 0 (pa + delta) n = Got b.
Proof using Hwf Hag.
  intros H0 Hdel El Hr Hn E. unfold locate in El. cbn [Z.ltb Z.compare] in El. pose proof (wf_ndevs _ Hwf) as Hd.
  pose proof (pow2_bits _ (wf_bits _ Hwf)) as R. fold bs in R.
  destruct (unified_matches (img_devices img) (im_Devices im) 0 pa delta dev off devices_match (wf_devs _ Hwf) ltac:(lia) Hdel El)
    as [(U & -> & -> & P0)|(j & sd & U & _ & Ls & -> & -> & P0)]; unfold deviceBytes; cbn [Z.eqb]; unfold unifiedDevice.
  - assert (bytesAt im (pa + delta) n = Got b).
    { apply (exact_slice (img_meta img)); [apply (ag_data _ _ Hag)|lia|done|]. unfold deviceReader in Hr. by apply Ok_inj in Hr as ->. }
    destruct (im_extra im); [done|]. by rewrite U.
  - rewrite Nat.sub_0_r in Ls.
    destruct (device_read (Z.of_nat j + 1) r (pa - d_UniAddr sd * bs + delta) n b ltac:(lia) Hr ltac:(lia) Hn E) as (sd' & c & Es & Ec & _ & Hu & Hs).
    replace (Z.to_nat (Z.of_nat j + 1 - 1)) with j in * by lia. rewrite Ls in Es. injection Es as <-.
    unfold device_content, extraBytes in *. destruct (im_extra im) as [|x xs].
    + rewrite Ls in Ec. cbn in Ec. injection Ec as <-. rewrite (ag_bs _ _ Hag) in Hs. fold bs in Hs. unfold is_u32 in Hu.
      apply flat_slice in Hs; [|nia|lia|done]. unfold bytesAt. by replace (pa + delta) with (d_UniAddr sd * bs + (pa - d_UniAddr sd * bs + delta)) by lia.
    + rewrite U, Ec. by replace (pa + delta - d_UniAddr sd * bs) with (pa - d_UniAddr sd * bs + delta) by lia.
Qed.

(** A block on whichever device [locate] puts it. *)
Lemma placed_bytes did pa delta n b dev off r :
  0 <= did -> 0 <= pa < 2 ^ 50 -> 0 <= delta < bs -> (exists q, pa = q * bs) -> 0 < n ->
  locate img did pa = Ok (dev, off) -> deviceReader img dev = Ok r -> read_exact r (i64 (off + delta)) n = Ok b ->
  deviceBytes im did (pa + delta) n = Got b.
Proof using Hwf Hag.
  intros Hd Hpa Hdel Hq Hn El Er E. pose proof (pow2_bits _ (wf_bits _ Hwf)) as R. fold bs in R.
  destruct (Z.eq_dec did 0) as [->|Hd0].
  - assert (Ho : 0 <= off <= pa).
    { destruct (locate_primary_sound img _ _ _ Hwf El) as [[[-> ->]|(d & P1 & P2 & P3 & P4 & P5)] _]; [lia|].
      destruct (dev_start_eq img Hwf d (Forall_lookup_1 _ _ _ _ (wf_devs _ Hwf) P2)). lia. }
    rewrite i64_id in E by lia. apply (primary_bytes pa delta n b dev off r); auto. lia.
  - unfold locate in El. rewrite (proj2 (Z.ltb_lt 0 did)) in El by lia. step_in El. apply Ok_inj in El. injection El as <- <-.
    rewrite i64_id in E by lia. apply (secondary_bytes did r); auto; lia.
Qed.

End Devices.

Section Blocks.
Context (img : image) (im : Image) (Hwf : image_wf img) (Hmap : metadata_apart img im) (Hag : agrees img im).
Context (ino : inode) (i : Inode) (Hino : inode_wf img ino) (Hsame : same_inode img ino i).
Context (Htype : Z.land (i_Mode i) ModeTypeMask = SpecModeDir \/ Z.land (i_Mode i) ModeTypeMask = SpecModeRegular \/
  Z.land (i_Mode i) ModeTypeMask = SpecModeSymlink).
Context (Hsize : ino_size ino < 2 ^ 62) (Hlim : img_size img < 2 ^ 62) (pos : Z) (Hpos : 0 <= pos < ino_size ino).

Let bs := 2 ^ img_bits img.
Let n := block_span img ino pos.
Let nb := calculateBlocks (img_bits img) (ino_size ino).

(** The position, its block and what is served from it. *)
Lemma pos_facts :
  512 <= bs <= 65536 /\ 0 <= pos / bs < nb /\ pos = pos / bs * bs + pos mod bs /\ 0 <= pos mod bs < bs /\
  (if pos / bs =? nb - 1 then ino_size ino - pos / bs * bs else bs) = pos mod bs + n /\ 0 < n /\
  pos / bs * bs + (pos mod bs + n) <= ino_size ino /\ pos mod bs + n <= bs.
Proof using Hwf Hpos.
  destruct (span_facts img ino Hwf pos Hpos) as (F1 & F2 & F3 & F4 & F5 & F6 & F7 & F8). fold bs nb in F1, F2, F3, F4, F5, F6, F7, F8. fold n in F5, F6.
  split_and!; try done; lia.
Qed.

(** The blocks of the file, as the reference counts them. *)
Lemma nb_eq : Z.quot (i64 (ino_size ino + bs - 1)) bs = nb /\ (nb - 1) * bs < ino_size ino <= nb * bs.
Proof using Hwf Hsize Hpos.
  destruct pos_facts as (F1 & _). pose proof (wf_bits _ Hwf) as Hb. rewrite i64_id by lia. rewrite Z.quot_div_nonneg by lia.
  assert (E : nb = (ino_size ino + bs - 1) / bs).
  { unfold nb, calculateBlocks. rewrite Z.shiftr_div_pow2, Z.shiftl_mul_pow2 by lia. fold bs.
    pose proof (Z.div_mod (ino_size ino) bs ltac:(lia)) as D. pose proof (Z.mod_pos_bound (ino_size ino) bs ltac:(lia)) as M.
    set (q := ino_size ino / bs) in *. destruct (Z.ltb_spec (q * bs) (ino_size ino)).
    - apply Z.div_unique with (r := ino_size ino mod bs - 1); lia.
    - apply Z.div_unique with (r := bs - 1); lia. }
  split; [done|]. rewrite E.
  pose proof (Z.div_mod (ino_size ino + bs - 1) bs ltac:(lia)). pose proof (Z.mod_pos_bound (ino_size ino + bs - 1) bs ltac:(lia)). nia.
Qed.

(** The single extent of a flat-plain file. *)
Lemma plain_extent :
  ino_inodeLayout ino = LayoutFlatPlain ->
  ExtentAt im i pos = Got (if nullAddress ino then mkExtent 0 (ino_size ino) 0 0 true
                           else mkExtent 0 (ino_size ino) 0 (i64 (startBlock ino * bs)) false).
Proof using Hwf Hag Hino Hsame Htype Hsize Hpos.
  intros Hl. destruct pos_facts as (F1 & _). destruct nb_eq as [Eq Nb]. pose proof (startBlock_range img ino Hino) as Rs.
  unfold ExtentAt, Extents. rewrite (si_layout _ _ _ Hsame), (si_size _ _ _ Hsame), Hl.
  rewrite (proj2 (Z.ltb_ge pos 0)), (proj2 (Z.leb_gt _ pos)) by lia. rewrite (proj2 (Z.eqb_neq (ino_size ino) 0)) by lia.
  cbn [orb negb Z.eqb LayoutFlatPlain LayoutChunkBased LayoutFlatInline]. unfold flatExtents.
  rewrite (si_layout _ _ _ Hsame), (si_size _ _ _ Hsame), (si_start _ _ _ Hsame Htype), Hl, (ag_bs _ _ Hag). fold bs.
  cbn [orb negb Z.eqb LayoutFlatPlain LayoutChunkBased LayoutFlatInline andb].
  destruct (nullAddress ino); cbn [andb Z.eqb].
  - rewrite Z.eqb_refl. cbn [mbind sres_bind extentAt e_Logical e_Length]. rewrite i64_id by lia.
    by rewrite (proj2 (Z.leb_le 0 pos)), (proj2 (Z.ltb_lt pos _)) by lia.
  - rewrite (proj2 (Z.eqb_neq (startBlock ino) SpecNullAddr)) by (unfold SpecNullAddr; lia). rewrite Eq.
    rewrite (proj2 (Z.ltb_lt 0 _)) by lia. rewrite Z.min_r by lia. cbn [mbind sres_bind extentAt e_Logical e_Length].
    rewrite (i64_id (0 + _)) by lia. rewrite (proj2 (Z.leb_le 0 pos)), (proj2 (Z.ltb_lt pos _)) by lia.
    by rewrite (i64_id (startBlock ino)) by lia.
Qed.

(** Where the inline tail and the chunk map start. *)
Let T := metaStartPos img + ino_nid ino * 32 + ino_icsize ino + ino_xsize ino.

Lemma trailing_eq : is_u64 (ino_nid ino) ->
  T = i64 (i64 (metaStartPos img + i64 (u64 (ino_nid ino * SizeInodeCompact))) + flatDataOffset ino) /\ 0 <= T < 2 ^ 62 + 2 ^ 20 /\ T mod 4 = 0 /\
  T = i_loc i + i_isize i + i_XattrSize i.
Proof using Hwf Hmap Hag Hino Hsame Hlim.
  clear Hsize Hpos n pos. intros Hn. destruct (metaStartPos_eq img Hwf) as [Em Rm]. pose proof (wf_nid _ _ Hino) as W.
  destruct (checkNid_offset img Hwf _ Hn W) as [Eo Hoff]. unfold MaxInt64, is_u64 in *.
  assert (Hfit : metaStartPos img + ino_nid ino * 32 + 32 <= img_size img).
  { unfold checkNid in W. rewrite Eo in W. unfold SizeInodeCompact in W. rewrite i64_id in W by lia.
    rewrite (proj2 (Z.ltb_lt 0 (img_size img)) (ma_size _ _ Hmap)) in W. cbn [andb] in W. steps_in W. lia. }
  pose proof (wf_icsize _ _ Hino) as I1. pose proof (wf_xsize _ _ Hino) as I2. unfold SizeInodeCompact, flatDataOffset.
  rewrite u64_id by (unfold is_u64; lia). rewrite (i64_id (ino_nid ino * 32)) by lia. rewrite (i64_id (metaStartPos img + _)) by lia.
  assert (RT : 0 <= T < 2 ^ 62 + 2 ^ 20) by (unfold T; lia). split; [rewrite i64_id; unfold T in *; lia|]. split; [done|].
  split; [|unfold T; by rewrite (si_loc _ _ _ Hsame), (si_isize _ _ _ Hsame), (si_xsize _ _ _ Hsame)].
  unfold T. rewrite Em. pose proof (wf_bits _ Hwf) as Hb.
  replace (2 ^ img_bits img) with (2 ^ (img_bits img - 2) * 4) by (change 4 with (2 ^ 2); rewrite <- Z.pow_add_r by lia; f_equal; lia).
  assert (Hi : ino_icsize ino mod 4 = 0) by (destruct I1 as [-> | ->]; done).
  assert (Hx : ino_xsize ino mod 4 = 0) by (destruct I2 as [-> | [_ ?]]; done).
  apply Z.mod_divide in Hi as [x ->]; [|done]. apply Z.mod_divide in Hx as [y ->]; [|done].
  apply Z.mod_divide; [done|]. exists (sb_MetaBlkAddr (img_sb img) * 2 ^ (img_bits img - 2) + ino_nid ino * 8 + x + y). ring.
Qed.

(** The two extents of a flat-inline file. *)
Lemma inline_run :
  is_u64 (ino_nid ino) -> ino_inodeLayout ino = LayoutFlatInline -> T mod bs + (ino_size ino - (nb - 1) * bs) <= bs ->
  ExtentAt im i pos = Got (if pos / bs =? nb - 1 then mkExtent ((nb - 1) * bs) (ino_size ino - (nb - 1) * bs) 0 T false
                           else mkExtent 0 ((nb - 1) * bs) 0 (i64 (startBlock ino * bs)) false).
Proof using Hwf Hmap Hag Hino Hsame Htype Hsize Hlim Hpos.
  intros Hn Hl Hfit. destruct pos_facts as (F1 & F2 & F3 & F4 & _). destruct nb_eq as [Eq Nb]. pose proof (startBlock_range img ino Hino) as Rs.
  destruct (trailing_eq Hn) as (_ & RT & _ & ET).
  assert (Hnull : nullAddress ino = false) by (unfold nullAddress; by rewrite Hl).
  unfold ExtentAt, Extents. rewrite (si_layout _ _ _ Hsame), (si_size _ _ _ Hsame), Hl.
  rewrite (proj2 (Z.ltb_ge pos 0)), (proj2 (Z.leb_gt _ pos)) by lia. rewrite (proj2 (Z.eqb_neq (ino_size ino) 0)) by lia.
  cbn [orb negb Z.eqb LayoutFlatPlain LayoutChunkBased LayoutFlatInline Pos.eqb]. unfold flatExtents.
  rewrite (si_layout _ _ _ Hsame), (si_size _ _ _ Hsame), (si_start _ _ _ Hsame Htype), Hnull, Hl, (ag_bs _ _ Hag), <- ET. fold bs.
  cbn [orb negb Z.eqb LayoutFlatPlain LayoutChunkBased LayoutFlatInline andb Pos.eqb]. rewrite Eq.
  set (m := (nb - 1) * bs) in *. assert (Hm : 0 <= m) by (unfold m; nia).
  rewrite (i64_id m), (i64_id (ino_size ino - m)) by lia. pose proof (Z.mod_pos_bound T bs ltac:(lia)) as Tm.
  rewrite Z.rem_mod_nonneg, i64_id by lia.
  rewrite (proj2 (Z.ltb_ge bs _)) by lia. rewrite Z.min_l, (i64_id (startBlock ino)) by lia. cbn [mbind sres_bind].
  assert (Hblk : (pos / bs =? nb - 1) = (m <=? pos)).
  { apply eq_true_iff_eq. rewrite Z.eqb_eq, Z.leb_le. unfold m. pose proof (block_le bs (pos / bs) (pos mod bs) (nb - 1) F4). lia. }
  rewrite Hblk. destruct (Z.ltb_spec 0 m) as [Pm|Pm]; cbn [app extentAt e_Logical e_Length]; rewrite ?(i64_id (0 + m)), (i64_id (m + _)) by lia.
  - rewrite (proj2 (Z.leb_le 0 pos)) by lia. cbn [andb]. destruct (Z.leb_spec m pos) as [Hin|Hin].
    + rewrite (proj2 (Z.ltb_ge pos _)) by lia. by rewrite (proj2 (Z.ltb_lt pos _)) by lia.
    + by rewrite (proj2 (Z.ltb_lt pos _)) by lia.
  - rewrite (proj2 (Z.leb_le m pos)) by lia. by rewrite (proj2 (Z.ltb_lt pos _)) by lia.
Qed.

(** A block of the flat run from the start block. *)
Lemma flat_block_reads pa b :
  blockAddr img (u64 (startBlock ino + pos / bs)) = Ok pa -> loadBlock_read img pa (pos mod bs) (pos mod bs + n) true = Ok b ->
  deviceBytes im 0 (i64 (i64 (startBlock ino * bs) + (pos - 0))) n = Got b /\ zlen b = n.
Proof using Hwf Hag Hino Hpos.
  intros Ea E. destruct pos_facts as (F1 & F2 & F3 & F4 & F5 & F6 & F7 & F8). pose proof (startBlock_range img ino Hino) as Rs.
  pose proof (wf_isize _ _ Hino) as Hz. unfold MaxInt64 in Hz.
  rewrite u64_id in Ea by (unfold is_u64; clear -F1 F2 F3 F4 Rs Hpos Hz; nia).
  destruct (blockAddr_eq img (startBlock ino + pos / bs) pa Hwf ltac:(lia) Ea) as [Epa Rpa]. fold bs in Epa. unfold MaxInt64 in Rpa.
  unfold loadBlock_read in E. step_in E. clear E0. replace (pos mod bs + n - pos mod bs) with n in E by lia.
  destruct (locateRange img _ n) as [[dev off]| |] eqn:El; try done. destruct (deviceReader img dev) as [r| |] eqn:Er; try done.
  assert (Hp : i64 (pa + pos mod bs) = pa + pos mod bs /\ pa + pos mod bs + n <= MaxInt64).
  { assert (Hd : pa <= 2 ^ 63 - bs).
    { rewrite Epa in *. pose proof (wf_bits _ Hwf). assert (Eb : 2 ^ 63 = 2 ^ (63 - img_bits img) * bs) by (unfold bs; rewrite <- Z.pow_add_r by lia; f_equal; lia).
      rewrite Eb in Rpa |- *. set (P := 2 ^ (63 - img_bits img)) in *. set (q := startBlock ino + pos / bs) in *.
      assert (q < P) by (apply (Z.mul_lt_mono_pos_r bs); lia). clear -H0 F1. nia. }
    assert (Hi : i64 (pa + pos mod bs) = pa + pos mod bs) by (apply i64_id; lia). split; [done|].
    rewrite Hi in El. unfold locateRange in El. steps_in El. lia. }
  destruct Hp as [Hp Hp']. rewrite Hp in El. unfold MaxInt64 in Hp'.
  destruct (locateRange_facts img _ n dev off Hwf F6 El) as (L & _).
  assert (Hs : startBlock ino * bs <= pa) by (rewrite Epa; clear -F1 F2; nia).
  assert (Hs0 : 0 <= startBlock ino * bs) by (apply Z.mul_nonneg_nonneg; lia). rewrite (i64_id (startBlock ino * bs)) by lia.
  assert (Ep : startBlock ino * bs + (pos - 0) = pa + pos mod bs + 0) by lia.
  rewrite Ep, i64_id by lia.
  split; [|by apply read_exact_len in E].
  apply (primary_bytes img im Hwf Hag _ 0 n b dev off r); [done|by left|done..|]. by rewrite Z.add_0_r.
Qed.

Lemma one_extent e b :
  ExtentAt im i pos = Got e -> pos + n <= e_Logical e + e_Length e <= ino_size ino -> e_Hole e = false ->
  deviceBytes im (e_Device e) (i64 (e_Physical e + (pos - e_Logical e))) n = Got b -> zlen b = n ->
  spec_ReadAt im i pos n = Got b.
Proof using Hwf Hsame Hsize Hpos.
  intros E He Hh Hd Hl. destruct pos_facts as (F1 & F2 & F3 & F4 & F5 & F6 & F7 & F8).
  rewrite (ReadAt_one im i pos n e); rewrite ?(si_size _ _ _ Hsame); unfold MaxInt64; auto; try lia.
  rewrite Hh, Hd. cbn [mbind sres_bind]. by rewrite assemble_one.
Qed.

Lemma one_hole e :
  ExtentAt im i pos = Got e -> pos + n <= e_Logical e + e_Length e <= ino_size ino -> e_Hole e = true ->
  spec_ReadAt im i pos n = Got (zeros (Z.to_nat n)).
Proof using Hwf Hsame Hsize Hpos.
  intros E He Hh. destruct pos_facts as (F1 & F2 & F3 & F4 & F5 & F6 & F7 & F8).
  rewrite (ReadAt_one im i pos n e); rewrite ?(si_size _ _ _ Hsame); unfold MaxInt64; auto; try lia. by rewrite Hh.
Qed.

Lemma plain_block b :
  ino_inodeLayout ino = LayoutFlatPlain -> loadBlock img ino pos = Ok b -> spec_ReadAt im i pos n = Got b.
Proof using Hwf Hag Hino Hsame Htype Hsize Hpos.
  intros Hl E. destruct pos_facts as (F1 & F2 & F3 & F4 & F5 & F6 & F7 & F8). pose proof (wf_bits _ Hwf) as Hb.
  pose proof (plain_extent Hl) as X. unfold loadBlock in E. rewrite Z.shiftr_div_pow2 in E by lia. fold bs nb in E.
  rewrite (proj2 (Z.leb_gt _ _)), Hl in E by lia. cbn [Z.eqb LayoutFlatPlain] in E. unfold loadBlock_plain in E.
  rewrite shiftl1 in E by lia. fold bs in E. rewrite Z.rem_mod_nonneg, F5 in E by lia. destruct (nullAddress ino).
  - step_in E. apply Ok_inj in E as <-. unfold holeBlock. replace (pos mod bs + n - pos mod bs) with n by lia.
    apply (one_hole _ X); cbn; [lia|done].
  - destruct (blockAddr img _) as [pa| |] eqn:Ea; try done. destruct (flat_block_reads pa b Ea E) as [D L].
    apply (one_extent _ b X); cbn [e_Logical e_Length e_Hole e_Device e_Physical]; auto; lia.
Qed.

(** The metadata past every device's range is the image's. *)
Lemma metadata_bytes off m b :
  0 <= off -> 0 < m -> off + m <= img_size img -> read_exact (img_meta img) off m = Ok b -> deviceBytes im 0 off m = Got b.
Proof using Hwf Hmap Hag Hlim.
  clear Hsize Hpos n pos T nb Htype Hsame Hino i ino. intros Ho Hm Hl E.
  assert (B : bytesAt im off m = Got b) by (apply (exact_slice (img_meta img)); [apply (ag_data _ _ Hag)|done..]).
  unfold deviceBytes. cbn [Z.eqb]. unfold unifiedDevice. destruct (im_extra im) as [|x0 xs] eqn:Ex; [done|].
  destruct (ma_above _ _ Hmap) as [M0|Hab]; [by rewrite M0 in Ex|].
  assert (U : unified_device im (im_Devices im) 0 off = None); [|by rewrite U].
  assert (G : forall sds k, (forall sd, sd ∈ sds -> exists d, d ∈ img_devices img /\ dev_mappedBlkAddr d = d_UniAddr sd) ->
    unified_device im sds k off = None).
  { induction sds as [|sd sds IH]; intros k Hin; [done|]. cbn [unified_device]. destruct (Hin sd ltac:(apply elem_of_cons; by left)) as (d & Hd & Ed).
    destruct (Z.eqb_spec (d_UniAddr sd) 0) as [|Hne]; cbn [negb andb]; [apply IH; intros; apply Hin; apply elem_of_cons; by right|].
    pose proof (Hab d Hd ltac:(congruence)) as Ha.
    pose proof (proj1 (Forall_forall _ _) (wf_devs _ Hwf) d Hd) as W. destruct (dev_start_eq img Hwf d W) as [S1 S2].
    rewrite (ag_bs _ _ Hag), <- Ed. fold bs. fold bs in S1. rewrite <- S1, (i64_id (dev_start _ _)) by lia.
    rewrite (proj2 (Z.leb_gt _ off)) by lia. cbn [andb]. apply IH. intros; apply Hin; apply elem_of_cons; by right. }
  apply G. intros sd [k Hk]%list_elem_of_lookup.
  assert (Hlt : (k < length (img_devices img))%nat) by (rewrite (ag_count _ _ Hag); by apply lookup_lt_Some in Hk).
  destruct (lookup_lt_is_Some_2 _ _ Hlt) as [d Hd]. destruct (ag_devices _ _ Hag k d Hd) as (sd' & Hs & [A1 _ _]).
  rewrite Hk in Hs. injection Hs as <-. exists d. split; [by eapply list_elem_of_lookup_2|done].
Qed.

Lemma inline_block b :
  is_u64 (ino_nid ino) -> ino_inodeLayout ino = LayoutFlatInline -> T mod bs + (ino_size ino - (nb - 1) * bs) <= bs ->
  loadBlock img ino pos = Ok b -> spec_ReadAt im i pos n = Got b.
Proof using Hwf Hmap Hag Hino Hsame Htype Hsize Hlim Hpos.
  intros Hn Hl Hfit E. destruct pos_facts as (F1 & F2 & F3 & F4 & F5 & F6 & F7 & F8). pose proof (wf_bits _ Hwf) as Hb.
  destruct (trailing_eq Hn) as (ET & RT & _ & _). destruct nb_eq as [_ Nb].
  pose proof (inline_run Hn Hl Hfit) as X. unfold loadBlock in E. rewrite Z.shiftr_div_pow2 in E by lia. fold bs nb in E.
  rewrite (proj2 (Z.leb_gt _ _)), Hl in E by lia. cbn [Z.eqb LayoutFlatPlain LayoutFlatInline Pos.eqb] in E. unfold loadBlock_inline in E.
  rewrite shiftl1 in E by lia. fold bs in E. destruct (Z.eqb_spec (pos / bs) (nb - 1)) as [Eb|Eb].
  - rewrite <- ET in E. pose proof (land_pow2_mask T (img_bits img) ltac:(lia)) as L1. pose proof (land_lnot_pow2 T (img_bits img) ltac:(lia)) as L2.
    fold bs in L1, L2. rewrite L1, L2, Z.shiftl_mul_pow2 in E by lia. fold bs in E. step_in E. clear E0.
    unfold loadBlock_read in E. step_in E. clear E0. pose proof (Z.mod_le T bs ltac:(lia) ltac:(lia)) as Tm.
    assert (Em : n = ino_size ino - pos) by lia. set (d := pos - pos / bs * bs) in *.
    replace (T - T mod bs + (T mod bs + d)) with (T + d) in E by lia.
    replace (ino_size ino - pos / bs * bs + T mod bs - (T mod bs + d)) with n in E by (unfold d in *; lia).
    destruct (checkImageRange img _ n) as [[]| |] eqn:Ec; try done.
    assert (Rd : i64 (T + d) = T + d) by (apply i64_id; lia). rewrite Rd in *.
    apply (checkImageRange_spec img _ _ Hwf) in Ec as (_ & _ & _ & Ec). specialize (Ec (ma_size _ _ Hmap)).
    apply (one_extent _ b X); cbn [e_Logical e_Length e_Hole e_Device e_Physical]; [lia|done| |by apply read_exact_len in E].
    rewrite <- Eb. fold d. rewrite Rd. apply metadata_bytes; [lia|done..].
  - destruct (blockAddr img _) as [pa| |] eqn:Ea; try done. rewrite Z.rem_mod_nonneg in E by lia. rewrite F5 in E at 2.
    destruct (flat_block_reads pa b Ea E) as [D L].
    apply (one_extent _ b X); cbn [e_Logical e_Length e_Hole e_Device e_Physical]; auto. split; [|nia]. rewrite F3. nia.
Qed.

(** ** Chunks *)

Let fmt := u16 (ino_inodeData ino).
Let unit_ := if chunk_indexed fmt then 8 else 4.
Let cs := 2 ^ chunk_bits img fmt.

Lemma map_start : is_u64 (ino_nid ino) -> roundUp T unit_ = chunk_base img ino fmt /\ 0 <= chunk_base img ino fmt < 2 ^ 62 + 2 ^ 21.
Proof using Hwf Hmap Hag Hino Hsame Hlim.
  clear Hsize Hpos n pos. intros Hn. destruct (trailing_eq Hn) as (ET & RT & M4 & _). unfold chunk_base. rewrite <- ET.
  unfold roundUp, unit_. destruct (chunk_indexed fmt).
  - rewrite Z.quot_div_nonneg by lia. unfold align8. rewrite Z.rem_mod_nonneg by lia.
    pose proof (Z.div_mod (T + 8 - 1) 8 ltac:(lia)) as D. pose proof (Z.mod_pos_bound (T + 8 - 1) 8 ltac:(lia)) as M.
    destruct (Z.eqb_spec (T mod 8) 0) as [Z0|Z0]; cbn [negb].
    + apply Z.mod_divide in Z0 as [q Eq]; [|done].
      assert ((T + 8 - 1) / 8 = q) as -> by (symmetry; apply Z.div_unique with (r := 7); lia). lia.
    + pose proof (land_lnot_pow2 (T + 7) 3 ltac:(lia)) as L. change (2 ^ 3 - 1) with 7 in L. change (2 ^ 3) with 8 in L. rewrite L.
      replace (T + 8 - 1) with (T + 7) in * by lia. lia.
  - rewrite Z.quot_div_nonneg by lia. apply Z.mod_divide in M4 as [q Eq]; [|done].
    assert ((T + 4 - 1) / 4 = q) as -> by (symmetry; apply Z.div_unique with (r := 3); lia). lia.
Qed.

Lemma chunk_extent entry :
  is_u64 (ino_nid ino) -> ino_inodeLayout ino = LayoutChunkBased -> Z.land fmt LayoutChunkFormat48Bit = 0 ->
  bytesAt im (chunk_base img ino fmt + pos / cs * unit_) unit_ = Got entry ->
  let blk := if unit_ =? 8 then get32 entry 4 else get32 entry 0 in
  let did := if unit_ =? 8 then Z.land (get16 entry 2) (img_deviceIDMask img) else 0 in
  ExtentAt im i pos = Got
    (if blk =? 2 ^ 32 - 1 then mkExtent (pos / cs * cs) (Z.min cs (ino_size ino - pos / cs * cs)) 0 0 true
     else mkExtent (pos / cs * cs) (Z.min cs (ino_size ino - pos / cs * cs)) did (i64 (blk * bs)) false).
Proof using Hwf Hmap Hag Hino Hsame Hlim Hpos.
  intros Hn Hl H48 E. destruct (map_start Hn) as [Eb Rb]. destruct (trailing_eq Hn) as (_ & _ & _ & ET).
  unfold ExtentAt. rewrite (si_layout _ _ _ Hsame), (si_size _ _ _ Hsame), Hl.
  rewrite (proj2 (Z.ltb_ge pos 0)), (proj2 (Z.leb_gt _ pos)) by lia. cbn [orb negb Z.eqb LayoutChunkBased Pos.eqb].
  destruct (chunk_bits_eq img fmt Hwf ltac:(apply Z.mod_pos_bound; lia)) as (k & Hk & Ek). pose proof (wf_bits _ Hwf) as Hb.
  assert (Ecs : Z.shiftl 1 (i_ChunkBits i) = cs) by (rewrite (si_bits _ _ _ Hsame Hl); fold fmt; apply shiftl1; lia).
  assert (Pcs : 0 < cs) by (unfold cs; apply Z.pow_pos_nonneg; lia).
  unfold chunkExtent. rewrite Ecs, (si_size _ _ _ Hsame), (si_chunk _ _ _ Hsame), <- ET, (ag_bs _ _ Hag), (ag_mask _ _ Hag). fold fmt bs.
  rewrite Z.quot_div_nonneg by lia. change ChunkFormatIndexes with LayoutChunkFormatIndexes. fold (chunk_indexed fmt). fold unit_.
  change ChunkFormat48Bit with LayoutChunkFormat48Bit. rewrite H48, Eb, E. cbn [mbind sres_bind Z.eqb negb].
  assert (Hblk : Z.land (if unit_ =? 4 then get32 entry 0 else Z.lor (Z.shiftl (get16 entry 0) 32) (get32 entry 4)) (2 ^ 32 - 1) =
    if unit_ =? 8 then get32 entry 4 else get32 entry 0).
  { rewrite land_pow2_mask by lia. unfold unit_. destruct (chunk_indexed fmt); cbn [Z.eqb Pos.eqb].
    - rewrite <- land_pow2_mask by lia. rewrite Z.land_lor_distr_l. rewrite !land_pow2_mask by lia. rewrite Z.shiftl_mul_pow2 by lia.
      rewrite Z.mod_mul by lia. rewrite Z.lor_0_l. apply Z.mod_small. apply get32_range.
    - apply Z.mod_small. apply get32_range. }
  rewrite Hblk. unfold unit_. destruct (chunk_indexed fmt); cbn [Z.eqb Pos.eqb]; match goal with |- (if ?c then _ else _) = _ => destruct c end; reflexivity.
Qed.

(** A block lies within its chunk. *)
Lemma block_in_chunk :
  512 <= cs <= 2 ^ 47 /\ 0 <= pos / cs < 2 ^ 53 /\ pos / cs * cs <= pos / bs * bs /\ pos / bs * bs + bs <= pos / cs * cs + cs /\
  pos + n <= pos / cs * cs + Z.min cs (ino_size ino - pos / cs * cs) <= ino_size ino.
Proof using Hwf Hsize Hpos.
  destruct pos_facts as (F1 & F2 & F3 & F4 & F5 & F6 & F7 & F8). pose proof (wf_bits _ Hwf) as Hb.
  destruct (chunk_bits_eq img fmt Hwf ltac:(apply Z.mod_pos_bound; lia)) as (k & Hk & Ek).
  assert (Ecs : cs = 2 ^ k * bs) by (unfold cs, bs; rewrite Ek, Z.add_comm, Z.pow_add_r by lia; done).
  assert (Rk : 1 <= 2 ^ k <= 2 ^ 31) by (split; [pose proof (Z.pow_pos_nonneg 2 k); lia|apply Z.pow_le_mono_r; lia]).
  set (K := 2 ^ k) in *. assert (Rcs : 512 <= cs <= 2 ^ 47) by (rewrite Ecs; clear -Rk F1; nia).
  pose proof (Z.div_mod pos cs ltac:(lia)) as D. pose proof (Z.mod_pos_bound pos cs ltac:(lia)) as M.
  assert (Ed : pos / cs = pos / bs / K) by (rewrite Ecs, Z.mul_comm, Z.div_div by lia; done).
  pose proof (Z.div_mod (pos / bs) K ltac:(lia)) as D'. pose proof (Z.mod_pos_bound (pos / bs) K ltac:(lia)) as M'. rewrite <- Ed in D'.
  set (cn := pos / cs) in *. set (q := pos / bs) in *. set (j := q mod K) in *.
  assert (A1 : q * bs = cn * cs + j * bs) by (rewrite Ecs, D'; ring).
  assert (A2 : 0 <= j * bs <= cs - bs) by (rewrite Ecs; clear -F1 M' Rk; nia).
  assert (A3 : 0 <= cn < 2 ^ 53) by (split; [apply Z.div_pos; lia|apply Z.div_lt_upper_bound; lia]).
  split; [done|]. split; [done|]. split; [lia|]. split; [lia|]. lia.
Qed.

Lemma chunk_block b :
  is_u64 (ino_nid ino) -> ino_inodeLayout ino = LayoutChunkBased -> loadBlock img ino pos = Ok b -> spec_ReadAt im i pos n = Got b.
Proof using Hwf Hmap Hag Hino Hsame Htype Hsize Hlim Hpos.
  intros Hn Hl E. destruct pos_facts as (F1 & F2 & F3 & F4 & F5 & F6 & F7 & F8). pose proof (wf_bits _ Hwf) as Hb.
  destruct block_in_chunk as (C1 & C2 & C3 & C4 & C5). destruct (map_start Hn) as [_ Rb].
  unfold loadBlock in E. rewrite Z.shiftr_div_pow2 in E by lia. fold bs nb in E.
  rewrite (proj2 (Z.leb_gt _ _)), Hl in E by lia. cbn [Z.eqb LayoutFlatPlain LayoutFlatInline LayoutChunkBased Pos.eqb] in E.
  unfold loadBlock_chunk in E. fold fmt in E. fold unit_ in E. step_in E. apply negb_false_iff, Z.eqb_eq in E0.
  step_in E. clear E1. step_in E. clear E1. rewrite shiftl1 in E by lia. fold bs in E. 
  destruct (chunk_bits_eq img fmt Hwf ltac:(apply Z.mod_pos_bound; lia)) as (k & Hk & Ek).
  rewrite Z.rem_mod_nonneg, F5, (Z.shiftr_div_pow2 pos), (Z.shiftl_mul_pow2 _ (chunk_bits img fmt)), (Z.shiftl_mul_pow2 _ (img_bits img)) in E by lia.
  fold bs cs in E.
  assert (Hu : unit_ = 8 \/ unit_ = 4) by (unfold unit_; destruct (chunk_indexed fmt); auto).
  rewrite (i64_id (chunk_base _ _ _ + _)) in E by lia.
  pose proof (ag_data _ _ Hag) as Hback. pose proof (backed_bytes (r := img_meta img) (c := im_data im) (chunk_base img ino fmt + pos / cs * unit_) unit_ ltac:(lia) ltac:(lia)) as Bb.
  destruct (ReadAt (img_meta img) _ unit_) as [entry [e|]]; [done|]. cbn [fst] in Bb.
  destruct (Z.eqb_spec (zlen entry) unit_) as [Le|]; [|done]. cbn [negb] in E.
  assert (Be : bytesAt im (chunk_base img ino fmt + pos / cs * unit_) unit_ = Got entry).
  { unfold bytesAt. rewrite Bb. apply sliceAt_ok; [lia..|]. rewrite Bb, zlen_sub in Le by lia. lia. }
  pose proof (chunk_extent entry Hn Hl E0 Be) as X. cbv zeta in X. unfold chunk_entry in E.
  set (blk := if unit_ =? 8 then get32 entry 4 else get32 entry 0) in *. set (did := if unit_ =? 8 then _ else 0) in *.
  assert (Rblk : is_u32 blk) by (unfold blk; destruct (unit_ =? 8); apply get32_range).
  destruct (Z.eqb_spec blk (2 ^ 32 - 1)) as [Hh|Hh].
  - step_in E. cbn [Z.eqb] in E. apply Ok_inj in E as <-. unfold holeBlock. replace (pos mod bs + n - pos mod bs) with n by lia.
    apply (one_hole _ X); [exact C5|done].
  - rewrite chunkAddr_u32 in E by done. fold bs in E. step_in E. clear E1.
    assert (Hbk : 0 <= blk * bs < 2 ^ 48) by (unfold is_u32 in Rblk; clear -F1 Rblk; nia).
    rewrite (proj2 (Z.eqb_neq (blk * bs) (-1))) in E by lia.
    set (d := pos / bs * bs - pos / cs * cs) in *.
    assert (Hd : 0 <= d <= cs - bs) by (unfold d; lia).
    replace (if 0 <? pos / bs * bs then _ else _) with (blk * bs + d) in E.
    2:{ destruct (Z.ltb_spec 0 (pos / bs * bs)); [rewrite i64_id; lia|]. unfold d. assert (pos / cs * cs = 0) by nia. lia. }
    destruct (locate img did _) as [[dev off]| |] eqn:Eloc; try done.
    destruct (boundOnDevice _ _ _ _) as [[]| |] eqn:Ebd; try done. destruct (deviceReader img dev) as [r| |] eqn:Er; try done.
    replace (pos mod bs + n - pos mod bs) with n in * by lia.
    assert (Hpa : exists q, blk * bs + d = q * bs).
    { assert (Ecs : cs = 2 ^ k * bs) by (unfold cs, bs; rewrite Ek, Z.add_comm, Z.pow_add_r by lia; done).
      exists (blk + pos / bs - pos / cs * 2 ^ k). unfold d. set (cn := pos / cs). rewrite Ecs. ring. }
    apply (one_extent _ b X); cbn [e_Logical e_Length e_Hole e_Device e_Physical]; [exact C5|done| |by apply read_exact_len in E].
    rewrite (i64_id (blk * bs)) by lia. replace (blk * bs + (pos - pos / cs * cs)) with (blk * bs + d + pos mod bs) by (unfold d; lia).
    rewrite i64_id by lia. apply (placed_bytes img im Hwf Hag did _ (pos mod bs) n b dev off r); auto; [|lia].
    unfold did. destruct (unit_ =? 8); [apply Z.land_nonneg; left; apply get16_range|lia].
Qed.

End Blocks.

(** ** Every layout *)

Lemma tail_fits img ino last :
  let bs := 2 ^ img_bits img in
  let nb := calculateBlocks (img_bits img) (ino_size ino) in
  let T := metaStartPos img + ino_nid ino * 32 + ino_icsize ino + ino_xsize ino in
  image_wf img -> 0 < ino_size ino < 2 ^ 62 ->
  T = i64 (i64 (metaStartPos img + i64 (u64 (ino_nid ino * SizeInodeCompact))) + flatDataOffset ino) ->
  ino_inodeLayout ino = LayoutFlatInline -> loadBlock img ino ((nb - 1) * bs) = Ok last ->
  T mod bs + (ino_size ino - (nb - 1) * bs) <= bs.
Proof.
  intros bs nb T Hwf Hs ET Hl E. pose proof (wf_bits _ Hwf) as Hb. pose proof (pow2_bits _ Hb) as R. fold bs in R.
  unfold loadBlock in E. rewrite Z.shiftr_div_pow2 in E by lia. fold bs nb in E. rewrite Z.div_mul in E by lia.
  rewrite (proj2 (Z.leb_gt nb (nb - 1))), Hl in E by lia. cbn [Z.eqb LayoutFlatPlain LayoutFlatInline Pos.eqb] in E.
  unfold loadBlock_inline in E. rewrite Z.eqb_refl, shiftl1 in E by lia. fold bs in E. rewrite <- ET in E.
  pose proof (land_pow2_mask T (img_bits img) ltac:(lia)) as L1. fold bs in L1. rewrite L1 in E. step_in E. zbool. lia.
Qed.

Section Files.
Context (img : image) (im : Image) (Hwf : image_wf img) (Hmap : metadata_apart img im) (Hag : agrees img im) (Hlim : img_size img < 2 ^ 62).
Context (ino : inode) (i : Inode) (Hino : inode_wf img ino) (Hsame : same_inode img ino i) (Hnid : is_u64 (ino_nid ino)).
Context (Htype : Z.land (i_Mode i) ModeTypeMask = SpecModeDir \/ Z.land (i_Mode i) ModeTypeMask = SpecModeRegular \/
  Z.land (i_Mode i) ModeTypeMask = SpecModeSymlink).
Context (Hsize : ino_size ino < 2 ^ 62).

(** The last block of a flat-inline file is one the package serves. *)
Definition tail_served : Prop := ino_inodeLayout ino = LayoutFlatInline ->
  exists last, loadBlock img ino ((calculateBlocks (img_bits img) (ino_size ino) - 1) * 2 ^ img_bits img) = Ok last.

Lemma loadBlock_spec pos b :
  tail_served -> 0 <= pos < ino_size ino -> loadBlock img ino pos = Ok b -> spec_ReadAt im i pos (block_span img ino pos) = Got b.
Proof using Hwf Hmap Hag Hlim Hino Hsame Hnid Htype Hsize.
  intros Ht Hp E. destruct (wf_layout _ _ Hino) as [Hl|[Hl|Hl]].
  - by apply plain_block.
  - destruct (Ht Hl) as [last E']. apply inline_block; auto. apply (tail_fits img ino last); auto; [lia|].
    by destruct (trailing_eq img im Hwf Hmap Hag ino i Hino Hsame Hlim Hnid).
  - by apply chunk_block.
Qed.

End Files.
