(* ===== verification/SpecOpen.v ===== *)
(** * What the package opens the reference parses

    [Open] (Open.v) over an image's bytes, and the reference's [Parse] (Spec.v)
    of the same bytes: the superblock and the device table agree. *)

From S2P Require Import Prelude Machine Disk Format Image Inode Data Open Spec SpecInode.

(** A clean read of a byte reader is a slice. *)
Lemma bytes_read c off n b : 0 <= off -> 0 < n -> ReadAt (bytes_reader c) off n = (b, None) -> sliceAt c off n = Got b /\ zlen b = n.
Proof.
  intros Ho Hn. cbn [ReadAt bytes_reader]. rewrite (proj2 (Z.ltb_ge off 0)) by lia.
  destruct (Z.leb_spec (zlen c) off); [done|]. intros E. injection E as <- E. destruct (Z.ltb_spec (zlen (sub c (Z.to_nat off) (Z.to_nat n))) n) as [|L]; [done|].
  rewrite zlen_sub in L by lia. split; [apply sliceAt_ok; lia|]. rewrite zlen_sub by lia. lia.
Qed.

(** Feature bits the package knows are not the ones it does not. *)
Lemma andnot_land x A B : andnot x A = 0 -> Z.land A B = 0 -> Z.land x B = 0.
Proof.
  intros H1 H2. apply Z.bits_inj'. intros k Hk. rewrite Z.land_spec, Z.bits_0.
  assert (T1 : Z.testbit (andnot x A) k = false) by (by rewrite H1, Z.bits_0).
  assert (T2 : Z.testbit (Z.land A B) k = false) by (by rewrite H2, Z.bits_0).
  unfold andnot in T1. rewrite Z.land_spec, Z.lnot_spec in T1 by lia. rewrite Z.land_spec in T2.
  destruct (Z.testbit x k), (Z.testbit A k), (Z.testbit B k); done.
Qed.

Lemma andnot_mono x A B : andnot x A = 0 -> andnot A B = 0 -> andnot x B = 0.
Proof. intros H1 H2. by apply (andnot_land x A (Z.lnot B)). Qed.

(** The doubling loop stops at the first power that reaches [v]. *)
Lemma pow2_from_spec k v : 0 <= k <= 16 -> v <= 2 ^ k < 2 * v ->
  forall fuel j, 0 <= j <= k -> k - j < Z.of_nat fuel -> pow2_from fuel (2 ^ j) v = 2 ^ k.
Proof.
  intros Hk Hv. induction fuel as [|fuel IH]; intros j Hj Hf; [lia|]. cbn [pow2_from].
  destruct (Z.eq_dec j k) as [->|Hn]; [by rewrite (proj2 (Z.ltb_ge _ _)) by lia|].
  assert (H1 : 2 ^ (j + 1) <= 2 ^ k) by (apply Z.pow_le_mono_r; lia).
  assert (H2 : 2 ^ k <= 2 ^ 16) by (apply Z.pow_le_mono_r; lia).
  assert (H3 : 2 ^ (j + 1) = 2 * 2 ^ j) by (rewrite Z.pow_add_r by lia; lia).
  assert (0 < 2 ^ j) by lia. rewrite (proj2 (Z.ltb_lt _ _)) by lia.
  rewrite Z.shiftl_mul_pow2 by lia. rewrite u64_id by (unfold is_u64; lia).
  replace (2 ^ j * 2 ^ 1) with (2 ^ (j + 1)) by lia. apply IH; lia.
Qed.

Lemma roundup_agrees n : is_u16 n -> roundupPow2 (n + 1) = roundupPowerOfTwo (n + 1).
Proof.
  intros Hn. unfold is_u16 in Hn. destruct (roundupPowerOfTwo_u16 (n + 1)) as (k & Hk & -> & Hv); [lia|].
  unfold roundupPow2. change 1 with (2 ^ 0) at 1. by apply pow2_from_spec; lia.
Qed.

Section Opening.
Context (c : bytes) (Hc : zlen c <= MaxInt64).

(** The superblock the reference keeps: the fields the readers use, and the
    others. *)
Definition super_rest (sb : SuperBlock) (s : Super) : Prop :=
  s_Magic s = sb_MagicNumber sb /\ s_Checksum s = sb_Checksum sb /\ s_ExtSlots s = sb_ExtSlots sb /\ s_Inos s = sb_Inos sb /\
  s_UUID s = sb_UUID sb /\ s_VolumeName s = sb_VolumeName sb /\ s_ComprAlgs s = sb_ComprAlgs sb /\ s_DirBlkBits s = sb_DirBlkBits sb /\
  s_XattrFilterReserved s = sb_XattrFilterRes sb /\ s_IshareXattrPrefixID s = sb_IshareXattrPrefixID sb /\
  s_Size s = SizeSuperBlock + sb_ExtSlots sb * SizeSuperExtSlot.

Definition super_agrees (sb : SuperBlock) (s : Super) : Prop :=
  s_BlockBits s = sb_BlkSizeBits sb /\ s_BlockSize s = 2 ^ sb_BlkSizeBits sb /\ s_MetaBlkAddr s = sb_MetaBlkAddr sb /\
  s_XattrBlkAddr s = sb_XattrBlkAddr sb /\ s_Epoch s = i64 (sb_BuildTime sb) /\ s_FixedNsec s = sb_BuildTimeNs sb /\
  s_RootNid s = sb_RootNid sb /\ s_Blocks s = sb_Blocks sb /\ s_FeatureIncompat s = sb_FeatureIncompat sb /\
  s_ExtraDevices s = sb_ExtraDevices sb /\ s_DevtSlotOff s = sb_DevtSlotOff sb /\
  s_FeatureCompat s = sb_FeatureCompat sb /\ s_PackedNid s = sb_PackedNid sb /\ s_XattrPrefixCount s = sb_XattrPrefixCount sb /\
  s_XattrPrefixStart s = sb_XattrPrefixStart sb /\ super_rest sb s.

Lemma checksum_agrees sb :
  9 <= sb_BlkSizeBits sb <= 16 -> verifySuperblockChecksum (bytes_reader c) sb = Ok tt ->
  (if negb (Z.land (sb_FeatureCompat sb) SpecFeatureCompatSBChecksum =? 0)
   then verifyChecksum c (2 ^ sb_BlkSizeBits sb) (sb_Checksum sb) else Got tt) = Got tt.
Proof using Type.
  intros Hb E. unfold verifySuperblockChecksum in E. change SpecFeatureCompatSBChecksum with FeatureCompatSBChksum.
  destruct (Z.land _ _ =? 0); [done|]. cbn [negb]. unfold checksumSpan in E. rewrite shiftl1 in E by lia.
  unfold verifyChecksum. change SuperOffset with SuperBlockOffset. pose proof (pow2_bits _ Hb) as R. set (bs := 2 ^ sb_BlkSizeBits sb) in *.
  change (SuperBlockOffset + 8) with (SuperBlockOffset + checksumEnd). change (_ - 8) with ((if SuperBlockOffset <? bs then bs - SuperBlockOffset else bs) - checksumEnd).
  set (n := (if SuperBlockOffset <? bs then bs - SuperBlockOffset else bs) - checksumEnd) in *.
  assert (Hn : 0 < n).
  { unfold n, SuperBlockOffset, checksumEnd. destruct (Z.ltb_spec 1024 bs) as [Hlt|]; [|lia].
    assert (11 <= sb_BlkSizeBits sb).
    { destruct (Z.le_gt_cases (sb_BlkSizeBits sb) 10) as [Hle|]; [|lia]. apply (Z.pow_le_mono_r 2) in Hle; [|lia].
      change (2 ^ 10) with 1024 in Hle. fold bs in Hle. lia. }
    assert (2 ^ 11 <= bs) by (apply Z.pow_le_mono_r; lia). lia. }
  pose proof (backed_bytes (r := bytes_reader c) (c := c) (SuperBlockOffset + checksumEnd) n ltac:(done) ltac:(lia)) as Bb.
  destruct (ReadAt (bytes_reader c) _ n) as [data err]. cbn [fst] in Bb.
  destruct (match err with Some _ => _ | None => _ end) as [[]| |]; try done.
  destruct (Z.eqb_spec (zlen data) n) as [Ld|]; [|done]. cbn [negb] in E.
  assert (Sl : sliceAt c (SuperBlockOffset + checksumEnd) n = Got data).
  { rewrite Bb. apply sliceAt_ok; [done|lia|]. rewrite Bb, zlen_sub in Ld by (done || lia). unfold SuperBlockOffset, checksumEnd in *. lia. }
  rewrite Sl. cbn [mbind sres_bind]. unfold superblockChecksum in E. change ChecksumSeed with superblockChecksumSeed.
  by destruct (negb _).
Qed.

Lemma super_matches sb :
  open_superblock (bytes_reader c) = Ok sb -> sb_DirBlkBits sb = 0 ->
  exists s, parseSuper c = Got s /\ super_agrees sb s /\ s_DeviceIDMask s = 0.
Proof using Type.
  intros E Hdir. destruct (open_superblock_facts _ _ E) as (_ & Hbits & Hmagic & Hck & Hinc). unfold open_superblock in E.
  destruct (ReadAt (bytes_reader c) _ _) as [raw [e|]] eqn:Er; [done|]. apply bytes_read in Er as [Sl Lr]; [|done..].
  step_in E. unfold decodeSuperBlock, SuperBlock_Unmarshal in E. rewrite Lr in E. cbn [Z.ltb Z.compare SizeSuperBlock Pos.compare Pos.compare_cont] in E.
  destruct (negb (sb_MagicNumber _ =? MagicNumber)) eqn:Em; [done|]. step_in E. clear E1. step_in E. step_in E. clear E2. step_in E. step_in E. apply Ok_inj in E. subst sb.
  cbn [sb_MagicNumber sb_BlkSizeBits sb_FeatureCompat sb_FeatureIncompat sb_ExtSlots sb_XattrPrefixCount sb_IshareXattrPrefixID sb_DirBlkBits sb_Checksum] in *.
  unfold parseSuper. change SuperOffset with SuperBlockOffset. change SuperSize with SizeSuperBlock. rewrite Sl. cbn [mbind sres_bind].
  pose proof Hck as Ck. apply checksum_agrees in Ck; [|exact Hbits]. cbn [sb_FeatureCompat sb_BlkSizeBits sb_Checksum] in Ck.
  change Magic with MagicNumber. rewrite Em, Hdir. unfold MinBlockBits, MaxBlockBits.
  rewrite !(proj2 (Z.ltb_ge _ _)), shiftl1 by lia. cbn [orb Z.eqb negb]. rewrite Ck. cbn [mbind sres_bind].
  rewrite (andnot_mono (get32 raw 80) FeatureIncompatAll SpecFeatureIncompatAll Hinc eq_refl). cbn [Z.eqb negb].
  change SpecMinPageSize with MinPageSize. change SuperExtSlot with SizeSuperExtSlot. rewrite shiftl1 in E2 by lia. rewrite E2.
  unfold deriveSuper. cbn [s_FeatureCompat s_XattrPrefixCount s_IshareXattrPrefixID s_FeatureIncompat s_Blocks].
  change SpecFeatureCompatIshareXattrs with FeatureCompatIshareXattrs. rewrite E3.
  rewrite (andnot_land (get32 raw 80) FeatureIncompatAll FeatureIncompat48Bit Hinc eq_refl).
  rewrite (andnot_land (get32 raw 80) FeatureIncompatAll FeatureIncompatMetabox Hinc eq_refl). cbn [Z.eqb negb andb].
  eexists. split; [reflexivity|]. split; [|done]. unfold super_agrees. cbn. done.
Qed.

(** The device table, slot by slot. *)
Definition slot_agrees (sb : SuperBlock) (size : Z) (extra : list ReaderAt) (flatdev : bool) (idx : Z) (d : deviceInfo) (sd : Device) : Prop :=
  dev_mappedBlkAddr d = d_UniAddr sd /\ dev_blocks d = d_Blocks sd /\ is_u32 (dev_mappedBlkAddr d) /\
  if flatdev then dev_device d = flatWindow (sb_BlkSizeBits sb) size (bytes_reader c) (dev_mappedBlkAddr d)
  else extra !! Z.to_nat idx = Some (dev_device d).

Lemma slots_match sb size extra flatdev n : SuperBlock_wf sb -> forall idx ds,
  0 <= idx -> open_devices (bytes_reader c) sb size extra flatdev n idx = Ok ds ->
  exists sds, parse_slots c false n (sb_DevtSlotOff sb * DeviceSlotSize + idx * DeviceSlotSize) = Got sds /\
    length ds = n /\ length sds = n /\
    forall k d, ds !! k = Some d -> exists sd, sds !! k = Some sd /\ slot_agrees sb size extra flatdev (idx + Z.of_nat k) d sd.
Proof using Type.
  intros Wf. induction n as [|n IH]; intros idx ds Hi E; cbn [open_devices parse_slots] in *.
  { apply Ok_inj in E as <-. exists []. split; [done|]. split; [done|]. split; [done|]. intros k d Hk. by rewrite lookup_nil in Hk. }
  destruct (open_device _ _ _ _ _ _) as [d| |] eqn:Ed; try done. destruct (open_devices _ _ _ _ _ _ _) as [ds'| |] eqn:Eds; try done.
  apply Ok_inj in E as <-. destruct (IH (idx + 1) ds' ltac:(lia) Eds) as (sds & Ps & L1 & L2 & Hs).
  pose proof (wf_sb_DevtSlotOff _ Wf) as Ho. unfold is_u16 in Ho. unfold open_device in Ed. change SizeDeviceSlot with DeviceSlotSize in Ed.
  destruct (ReadAt (bytes_reader c) _ _) as [raw [e|]] eqn:Er; [done|].
  apply bytes_read in Er as [Sl Lr]; [|unfold DeviceSlotSize; lia|done]. rewrite Sl. cbn [mbind sres_bind].
  replace (sb_DevtSlotOff sb * DeviceSlotSize + (idx + 1) * DeviceSlotSize) with (sb_DevtSlotOff sb * DeviceSlotSize + idx * DeviceSlotSize + DeviceSlotSize) in Ps by lia.
  rewrite Ps. cbn [mbind sres_bind]. eexists. split; [reflexivity|]. split; [cbn; lia|]. split; [cbn; lia|].
  rewrite Lr, Z.sub_diag in Ed. cbn [Z.to_nat zeros replicate] in Ed. change (zeros 0) with (@nil Byte.byte) in Ed. rewrite app_nil_r in Ed.
  unfold DeviceSlot_Unmarshal in Ed. rewrite Lr in Ed. cbn [Z.ltb Z.compare DeviceSlotSize SizeDeviceSlot Pos.compare Pos.compare_cont] in Ed.
  cbn [ds_MappedBlkAddr ds_Blocks] in Ed.
  intros [|k] d0 Hk; cbn [lookup list_lookup] in Hk |- *.
  - injection Hk as <-. eexists. split; [reflexivity|]. rewrite Z.add_0_r. unfold slot_agrees. destruct flatdev.
    + apply Ok_inj in Ed as <-. cbn. split; [done|]. split; [done|]. split; [apply get32_range|done].
    + destruct (extra !! Z.to_nat idx) as [r|]; [|done]. apply Ok_inj in Ed as <-. cbn. split; [done|]. split; [done|]. split; [apply get32_range|done].
  - destruct (Hs k d0 Hk) as (sd & E1 & E2). exists sd. split; [done|]. by replace (idx + Z.of_nat (S k)) with (idx + 1 + Z.of_nat k) by lia.
Qed.

Lemma open_geometry_fields img0 img :
  open_geometry img0 = Ok img -> 0 < img_size img0 ->
  img_sb img = img_sb img0 /\ img_size img = img_size img0 /\ img_meta img = img_meta img0 /\ img_devices img = img_devices img0 /\
  img_deviceIDMask img = img_deviceIDMask img0 /\ sb_DirBlkBits (img_sb img0) = 0.
Proof using Type.
  clear. intros E Hs. unfold open_geometry in E. rewrite (proj2 (Z.ltb_lt _ _) Hs) in E.
  repeat (step_in E). apply Ok_inj in E as <-. cbn. zbool. done.
Qed.

(** A device's window of the image is what is left of the image there. *)
Lemma flat_device_backed bits a :
  is_u32 a -> 9 <= bits <= 16 -> 0 < zlen c ->
  Backed (flatWindow bits (zlen c) (bytes_reader c) a) (drop (Z.to_nat (a * 2 ^ bits)) c).
Proof using Hc.
  intros Ha Hb Hp. unfold flatWindow. destruct (shiftl_u32_bits a bits Ha Hb) as [-> R]. rewrite (proj2 (Z.ltb_lt _ _) Hp).
  unfold MaxInt64 in Hc. set (st := a * 2 ^ bits) in *.
  assert (Ed : drop (Z.to_nat st) c = sub c (Z.to_nat st) (Z.to_nat (Z.max (zlen c - st) 0))).
  { unfold sub. rewrite take_ge; [done|]. rewrite length_drop. unfold zlen. lia. }
  rewrite Ed. apply section_backed; [apply bytes_reader_backed|lia|lia|unfold MaxInt64; lia].
Qed.

Lemma parseDevices_matches sb s sds mask :
  andnot (sb_FeatureIncompat sb) FeatureIncompatAll = 0 -> super_agrees sb s -> s_DeviceIDMask s = 0 -> is_u16 (sb_ExtraDevices sb) ->
  let table := negb (Z.land (sb_FeatureIncompat sb) FeatureIncompatDeviceTable =? 0) in
  parse_slots c false (Z.to_nat (if table then sb_ExtraDevices sb else 0)) (sb_DevtSlotOff sb * DeviceSlotSize) = Got sds ->
  mask = (if table then u16 (roundupPowerOfTwo (sb_ExtraDevices sb + 1) - 1) else 0) ->
  exists s', parseDevices c s = Got (s', sds) /\ super_agrees sb s' /\ s_DeviceIDMask s' = mask.
Proof using Type.
  clear Hc. intros Hinc Ag H0 Hx table Ps Em. destruct Ag as (A1 & A2 & A3 & A4 & A5 & A6 & A7 & A8 & A9 & A10 & A11 & A12 & A13 & A14 & A15 & A16).
  unfold parseDevices. rewrite A9, A10, A11. change SpecFeatureIncompatDeviceTable with FeatureIncompatDeviceTable.
  unfold table in *. destruct (Z.eqb_spec (Z.land (sb_FeatureIncompat sb) FeatureIncompatDeviceTable) 0) as [T|T]; cbn [negb orb] in *.
  { injection Ps as <-. subst mask. exists s. split; [done|]. split; [by split_and!|done]. }
  destruct (Z.eqb_spec (sb_ExtraDevices sb) 0) as [X|X].
  { rewrite X in Ps, Em. injection Ps as <-. subst mask. exists s. split; [done|]. split; [by split_and!|done]. }
  cbn [s_FeatureIncompat s_ExtraDevices s_DevtSlotOff]. rewrite (andnot_land _ _ FeatureIncompat48Bit Hinc eq_refl). cbn [Z.eqb negb].
  rewrite Ps. cbn [mbind sres_bind]. eexists. split; [reflexivity|]. split; [by split_and!|]. cbn [s_DeviceIDMask]. by rewrite roundup_agrees, Em.
Qed.

(** Each device reads its own content on both sides. *)
Lemma device_backed sb im flatdev k d sd :
  9 <= sb_BlkSizeBits sb <= 16 -> 0 < zlen c -> im_data im = c -> s_BlockSize (im_Super im) = 2 ^ sb_BlkSizeBits sb ->
  (flatdev = true -> im_extra im = []) -> im_Devices im !! k = Some sd ->
  slot_agrees sb (imageSize (bytes_reader c)) (bytes_reader <$> im_extra im) flatdev (Z.of_nat k) d sd ->
  exists x, device_content im k = Some x /\ Backed (dev_device d) x.
Proof using Hc.
  intros Hb Hp Hd Hbs Hf Hk (S1 & S2 & S3 & S4). unfold device_content. destruct flatdev.
  - rewrite (Hf eq_refl), Hk. cbn. eexists. split; [reflexivity|]. rewrite S4, Hd, Hbs, <- S1. by apply flat_device_backed.
  - rewrite Nat2Z.id, list_lookup_fmap in S4. destruct (im_extra im !! k) as [x|] eqn:Ex; [|done]. cbn in S4. injection S4 as <-.
    exists x. split; [|apply bytes_reader_backed]. by destruct (im_extra im).
Qed.

Lemma open_superblock_len sb : open_superblock (bytes_reader c) = Ok sb -> 0 < zlen c.
Proof using Type.
  clear. unfold open_superblock. destruct (ReadAt _ _ _) as [b [e|]] eqn:Er; [done|]. intros _.
  apply bytes_read in Er as [Sl _]; [|done..]. apply sliceAt_inv in Sl as (_ & _ & L & _). unfold SuperBlockOffset, SizeSuperBlock in L. lia.
Qed.

Lemma Open_spec extra img :
  Open_image (bytes_reader c) (bytes_reader <$> extra) = Ok img ->
  (exists img1, loadLongPrefixes img1 = Ok (img_longPrefixes img) /\ img = with_prefixes img1 (img_longPrefixes img) /\ 0 < img_size img1) /\
  exists s devices, (forall prefixes, agrees img (mkSpecImage s devices prefixes c extra)) /\ super_agrees (img_sb img) s /\
    Parse c extra = (prefixes ← parsePrefixes (mkSpecImage s devices [] c extra); Got (mkSpecImage s devices prefixes c extra)).
Proof using Hc.
  intros E. unfold Open_image in E. destruct (open_superblock _) as [sb| |] eqn:Es; try done.
  destruct (open_superblock_facts _ _ Es) as (Wf & Hbits & _ & _ & Hinc).
  set (table := negb (Z.land (sb_FeatureIncompat sb) FeatureIncompatDeviceTable =? 0)) in *.
  set (ondisk := if table then sb_ExtraDevices sb else 0) in *.
  set (mask := if table then _ else 0) in E. set (flatdev := (zlen (bytes_reader <$> extra) =? 0) && (0 <? ondisk)) in *.
  destruct (negb flatdev && negb (ondisk =? _)) eqn:Hmatch; [done|].
  destruct (open_devices _ _ _ _ _ _ _) as [ds| |] eqn:Ed; try done.
  destruct (open_geometry _) as [img1| |] eqn:Eg; try done. destruct (loadLongPrefixes img1) as [pf| |] eqn:El; try done. apply Ok_inj in E. subst img.
  pose proof (open_superblock_len sb Es) as Hp.
  destruct (open_geometry_fields _ _ Eg Hp) as (G1 & G2 & G3 & G4 & G5 & G6). cbn [img_sb img_size img_meta img_devices img_deviceIDMask] in *.
  split; [exists img1; split_and!; [done|done|by rewrite G2]|].
  destruct (super_matches sb Es G6) as (s & Ps & (A1 & A2 & A3 & A4 & A5 & A6 & A7 & A8 & A9 & A10 & A11 & A12 & A13 & A14 & A15 & A16) & Hm0).
  assert (Hx : is_u16 (sb_ExtraDevices sb)) by apply (wf_sb_ExtraDevices _ Wf). unfold is_u16 in Hx.
  destruct (slots_match sb _ _ _ _ Wf 0 ds ltac:(lia) Ed) as (sds & Psd & L1 & L2 & Hs).
  rewrite Z.mul_0_l, Z.add_0_r in Psd.
  (* the reference's superblock and devices *)
  assert (PD : exists s', parseDevices c s = Got (s', sds) /\ super_agrees sb s' /\ s_DeviceIDMask s' = mask).
  { apply (parseDevices_matches sb s sds mask Hinc); auto; [by split_and!|]. unfold mask, table. by rewrite u32_id by (unfold is_u32; lia). }
  destruct PD as (s' & PD & (B1 & B2 & B3 & B4 & B5 & B6 & B7 & B8 & B9 & B10 & B11 & B12 & B13 & B14 & B15 & B16) & Bm). exists s', sds. split_and!.
  - intros pf'. constructor; unfold img_bits; cbn [im_Super im_data im_Devices im_extra with_prefixes img_sb img_size img_meta img_devices img_deviceIDMask]; rewrite ?G1, ?G2, ?G3, ?G4, ?G5; try done.
    + apply bytes_reader_backed.
    + by rewrite L1, L2.
    + intros k d Hk. destruct (Hs k d Hk) as (sd & Es' & (S1 & S2 & S3 & S4)). exists sd. split; [done|]. split; [done|done|].
      apply (device_backed sb (mkSpecImage s' sds pf' c extra) flatdev k d sd); auto; [by unfold flatdev; intros [? _]%andb_true_iff; zbool; destruct extra|].
      by replace (Z.of_nat k) with (0 + Z.of_nat k) by lia.
  - cbn [img_sb with_prefixes]. rewrite G1. by split_and!.
  - unfold Parse. rewrite Ps. cbn [mbind sres_bind]. rewrite PD. cbn [mbind sres_bind]. rewrite B9, B10.
    change SpecFeatureIncompatDeviceTable with FeatureIncompatDeviceTable. fold table. fold ondisk.
    assert (Hmt : (0 <? zlen extra) && negb (ondisk =? zlen extra) = false); [|by rewrite Hmt].
    assert (Lf : zlen (bytes_reader <$> extra) = zlen extra) by (unfold zlen; by rewrite length_fmap).
    unfold flatdev in Hmatch. rewrite Lf in Hmatch. destruct (Z.ltb_spec 0 (zlen extra)); [|done].
    rewrite (proj2 (Z.eqb_neq (zlen extra) 0)) in Hmatch by lia. done.
Qed.

End Opening.
