(* ===== verification/SpecXattr.v ===== *)
(** * The package's extended attributes are the reference's

    The table of long name prefixes, and [loadXattrs] (Xattr.v) against the
    reference's [decodeXattrs] (Spec.v). *)

From S2P Require Import Prelude Machine Disk Format Image Inode Data Reading Xattr Open Spec SpecInode.

(** ** The long prefixes *)

(** What the package keeps of a prefix of the reference. *)
Definition prefix_name (p : Prefix) : bytes := xattrIndex_String (p_BaseIndex p) ++ p_Infix p.

(** The table lies in the image, not in the packed inode. *)
Definition prefixes_in_image (sb : SuperBlock) : Prop :=
  sb_XattrPrefixCount sb = 0 \/ Z.land (sb_FeatureCompat sb) FeatureCompatPlainXattrPfx <> 0 \/ sb_PackedNid sb = 0.

(** Arithmetic with remainders. *)
Ltac mod_lia := Z.to_euclidean_division_equations; lia.

Lemma roundUp4 v : 0 <= v -> v <= roundUp v 4 < v + 4 /\ roundUp v 4 mod 4 = 0 /\ (v mod 4 = 0 -> roundUp v 4 = v).
Proof. intros Hv. unfold roundUp. rewrite Z.quot_div_nonneg by lia. split_and!; mod_lia. Qed.

Lemma roundUp4_unique v r : 0 <= v -> v <= r < v + 4 -> r mod 4 = 0 -> roundUp v 4 = r.
Proof. intros Hv H1 H2. destruct (roundUp4 v Hv) as (A & B & _). mod_lia. Qed.

Section Table.
Context (img : image) (c : bytes) (st : Z) (sr : ReaderAt).
Context (Hst : 0 <= st <= zlen c) (Hst4 : st mod 4 = 0) (Hsr : Backed sr (drop (Z.to_nat st) c)).

(** A full read of the table's section. *)
Lemma section_source off n :
  0 <= off -> 0 < n ->
  (sliceAt c (st + off) n = Got (sub c (Z.to_nat (st + off)) (Z.to_nat n)) /\
   source_read img (from_section sr off) n = (Ok (sub c (Z.to_nat (st + off)) (Z.to_nat n)), from_section sr (off + n))) \/
  (exists e o, source_read img (from_section sr off) n = (Err e, from_section sr o) /\ off <= o /\ zlen c <= st + o).
Proof using Hst Hsr.
  intros Ho Hn. cbn [source_read]. pose proof (backed_bytes (r := sr) off n Ho ltac:(lia)) as B.
  destruct (ReadAt sr off n) as [b err]. cbn in B. subst b.
  replace (sub (drop (Z.to_nat st) c) (Z.to_nat off) (Z.to_nat n)) with (sub c (Z.to_nat (st + off)) (Z.to_nat n))
    by (unfold sub; rewrite drop_drop; do 2 f_equal; lia).
  set (b := sub c _ _). assert (Lb : zlen b = Z.max 0 (Z.min n (zlen c - (st + off)))) by (unfold b; rewrite zlen_sub by lia; lia).
  destruct (Z.eqb_spec (zlen b) n) as [L|L].
  - left. split; [unfold b; apply sliceAt_ok; lia|]. by rewrite L.
  - right. destruct err as [e|]; [destruct (_ && _)|]; eexists _, _; (split; [reflexivity|lia]).
Qed.

Lemma metadata_item off data src : 0 <= off -> off mod 4 = 0 -> readMetadata img (from_section sr off) = Ok (data, src) ->
  exists next o, spec_readMetadata (sliceAt c) (st + off) = Got (data, st + next) /\ src = from_section sr o /\ off <= o /\
    0 <= next /\ (o = roundUp next 4 \/ zlen c <= st + o).
Proof using Hst Hst4 Hsr.
  intros Ho H4. unfold readMetadata. destruct (section_source off 2 Ho ltac:(done)) as [[S1 ->]|(e & o & -> & _)]; [|done].
  set (raw := sub c _ (Z.to_nat 2)) in *. pose proof (get16_range raw 0) as G. unfold is_u16 in G.
  replace (if get16 raw 0 <? 1 then 65536 else get16 raw 0) with (if get16 raw 0 =? 0 then 65536 else get16 raw 0)
    by (destruct (Z.eqb_spec (get16 raw 0) 0), (Z.ltb_spec (get16 raw 0) 1); lia).
  set (n := if get16 raw 0 =? 0 then _ else _). assert (Hn : 0 < n) by (unfold n; destruct (Z.eqb_spec (get16 raw 0) 0); lia).
  destruct (section_source (off + 2) n ltac:(lia) Hn) as [[S2 ->]|(e & o & -> & _)]; [|done].
  assert (SM : spec_readMetadata (sliceAt c) (st + off) = Got (sub c (Z.to_nat (st + (off + 2))) (Z.to_nat n), st + (off + 2 + n))).
  { unfold spec_readMetadata. destruct (roundUp4 (st + off) ltac:(lia)) as (_ & _ & ->); [|mod_lia]. rewrite S1. cbn [mbind sres_bind]. fold n.
    replace (st + off + 2) with (st + (off + 2)) by lia. rewrite S2. cbn [mbind sres_bind]. by replace (st + (off + 2) + n) with (st + (off + 2 + n)) by lia. }
  rewrite Z.rem_mod_nonneg by lia. destruct (Z.eqb_spec ((2 + n) mod 4) 0) as [E4|E4].
  - intros [= <- <-]. eexists _, _. split; [exact SM|]. split; [done|]. split; [lia|]. split; [lia|]. left. symmetry. apply roundUp4_unique; mod_lia.
  - destruct (section_source (off + 2 + n) (4 - (2 + n) mod 4) ltac:(lia) ltac:(mod_lia)) as [[_ ->]|(e & o & -> & O1 & O2)].
    + intros [= <- <-]. eexists _, _. split; [exact SM|]. split; [done|]. split; [mod_lia|]. split; [lia|]. left. symmetry. apply roundUp4_unique; mod_lia.
    + destruct (_ || _); [|done]. intros [= <- <-]. eexists _, _. split; [exact SM|]. split; [done|]. split; [lia|]. split; [lia|]. by right.
Qed.

Lemma prefixes_match n : forall off o l, 0 <= off -> 0 <= o -> (o = roundUp off 4 \/ zlen c <= st + o) ->
  load_prefixes img n (from_section sr o) = Ok l ->
  exists ps, parse_prefixes (sliceAt c) n (st + off) = Got ps /\ l = prefix_name <$> ps.
Proof using Hst Hst4 Hsr.
  induction n as [|n IH]; intros off o l Hoff Ho Hr E; cbn [load_prefixes parse_prefixes] in *; [injection E as <-; by exists []|].
  destruct (readMetadata img (from_section sr o)) as [[data src]|e|] eqn:Em; [|by destruct (_ || _)|done].
  destruct Hr as [-> |Hend].
  2:{ exfalso. unfold readMetadata in Em. destruct (section_source o 2 Ho ltac:(done)) as [[S1 _]|(e & o' & S1 & _)]; [|by rewrite S1 in Em].
      apply sliceAt_inv in S1. lia. }
  destruct (roundUp4 off Hoff) as (R1 & R2 & _).
  destruct (metadata_item (roundUp off 4) data src ltac:(lia) R2 Em) as (next & o & SM & -> & O1 & N0 & O2).
  assert (SM' : spec_readMetadata (sliceAt c) (st + off) = Got (data, st + next)).
  { unfold spec_readMetadata in *. replace (roundUp (st + roundUp off 4) 4) with (roundUp (st + off) 4) in SM; [done|].
    rewrite (roundUp4_unique (st + off) (st + roundUp off 4)) by mod_lia. symmetry. apply roundUp4_unique; mod_lia. }
  rewrite SM'. cbn [mbind sres_bind]. step_in E. destruct data as [|b infix]; [done|]. change (NameMax + 1) with (1 + MaxNameLen). rewrite E0.
  destruct (load_prefixes img n _) as [rest| |] eqn:El; try done. injection E as <-.
  destruct (IH next o rest N0 ltac:(lia) O2 El) as (ps & -> & ->). cbn [mbind sres_bind]. eexists. split; [reflexivity|done].
Qed.

End Table.

Lemma loadLongPrefixes_spec img im l :
  image_wf img -> agrees img im -> 0 < img_size img -> zlen (im_data im) <= MaxInt64 -> prefixes_in_image (img_sb img) ->
  loadLongPrefixes img = Ok l -> exists ps, parsePrefixes im = Got ps /\ l = prefix_name <$> ps.
Proof.
  intros Hwf Hag Hs Hc Hin E. unfold loadLongPrefixes in E. unfold parsePrefixes. rewrite (ag_pcount _ _ Hag), (ag_compat _ _ Hag), (ag_packed _ _ Hag), (ag_pstart _ _ Hag).
  destruct (Z.eqb_spec (sb_XattrPrefixCount (img_sb img)) 0) as [|Hn]; [injection E as <-; by exists []|].
  change SpecFeatureCompatPlainXattrPfx with FeatureCompatPlainXattrPfx. unfold prefixSource in E.
  assert (P1 : (Z.land (sb_FeatureCompat (img_sb img)) FeatureCompatPlainXattrPfx =? 0) && negb (sb_PackedNid (img_sb img) =? 0) = false).
  { destruct Hin as [?|[Hp|Hp]]; [done|by rewrite (proj2 (Z.eqb_neq _ _))|]. rewrite Hp. by rewrite andb_false_r. }
  assert (P2 : (Z.land (sb_FeatureCompat (img_sb img)) FeatureCompatPlainXattrPfx =? 0) &&
     negb (Z.land (sb_FeatureIncompat (img_sb img)) FeatureIncompatFragments =? 0) && (0 <? sb_PackedNid (img_sb img)) = false).
  { destruct Hin as [?|[Hp|Hp]]; [done|by rewrite (proj2 (Z.eqb_neq _ _))|]. rewrite Hp. by rewrite andb_false_r. }
  rewrite P1. rewrite P2, (proj2 (Z.ltb_lt _ _) Hs) in E. cbn [mbind sres_bind]. set (st := sb_XattrPrefixStart (img_sb img) * 4) in *.
  destruct (Z.leb_spec (img_size img) st) as [|Hlt]; [done|]. pose proof (wf_sb_XattrPrefixStart _ (wf_sb _ Hwf)) as Hu. unfold is_u32 in Hu.
  rewrite (ag_size _ _ Hag) in *. pose proof (ag_data _ _ Hag) as Hb.
  assert (Hsec : Backed (NewSectionReader (img_meta img) st (zlen (im_data im) - st)) (drop (Z.to_nat st) (im_data im))).
  { assert (Ed : drop (Z.to_nat st) (im_data im) = sub (im_data im) (Z.to_nat st) (Z.to_nat (zlen (im_data im) - st))).
    { unfold sub. rewrite take_ge; [done|]. rewrite length_drop. unfold zlen. lia. }
    rewrite Ed. apply section_backed; auto; lia. }
  destruct (prefixes_match img (im_data im) st _ ltac:(lia) ltac:(unfold st; mod_lia) Hsec _ 0 0 l ltac:(lia) ltac:(lia) ltac:(by left) E) as (ps & P & ->).
  rewrite Z.add_0_r in P. exists ps. by split.
Qed.

(** ** Names *)

(** The prefix the package gives an entry of index [idx]: it knows "lustre.",
    which the kernel and the reference have no handler for. *)
Definition package_prefix (im : Image) (idx : Z) : bytes :=
  if negb (Z.land idx xattrLongPrefix =? 0)
  then match im_Prefixes im !! Z.to_nat (Z.land idx xattrLongPrefixMask) with Some p => prefix_name p | None => [] end
  else xattrIndex_String idx.

Definition package_name (im : Image) (x : Xattr) : bytes := package_prefix im (x_Index x) ++ x_Suffix x.

Lemma handler_string idx : (handlerPrefix idx).2 = true -> (handlerPrefix idx).1 = xattrIndex_String idx.
Proof. unfold handlerPrefix, xattrIndex_String. repeat case_match; try done; zbool; lia. Qed.

Lemma spec_prefix_resolved im idx : (spec_xattrPrefix im idx).2 = false -> (spec_xattrPrefix im idx).1 = package_prefix im idx.
Proof.
  unfold spec_xattrPrefix, package_prefix. destruct (negb _).
  - destruct (im_Prefixes im !! _) as [p|]; [|done]. pose proof (handler_string (p_BaseIndex p)) as H.
    destruct (handlerPrefix _) as [base ok]. cbn in *. intros ->%negb_false_iff. unfold prefix_name. by rewrite H.
  - pose proof (handler_string idx) as H. destruct (handlerPrefix idx) as [base ok]. cbn in *. intros ->%negb_false_iff. by apply H.
Qed.

Lemma entry_prefix_spec img im idx p :
  img_longPrefixes img = prefix_name <$> im_Prefixes im -> entry_prefix img idx = Ok p -> p = package_prefix im idx.
Proof.
  intros Hp. unfold entry_prefix, package_prefix. change XattrLongPrefixFlag with xattrLongPrefix. change XattrLongPrefixMask with xattrLongPrefixMask.
  destruct (negb _).
  - unfold getLongPrefix. rewrite Hp, list_lookup_fmap. intros E. step_in E. destruct (im_Prefixes im !! _) as [q|]; cbn in E; [by injection E as <-|done].
  - unfold xattrIndex_prefix. destruct (Z.eqb_spec idx 0) as [->|]; [by intros [= <-]|]. destruct (negb _); [by intros [= <-]|done].
Qed.

(** ** The map *)

(** The attributes of [xs] added to [m], each under a name of its own. *)
Fixpoint add_all (im : Image) (m : gmap bytes bytes) (xs : list Xattr) : res (gmap bytes bytes) :=
  match xs with
  | [] => Ok m
  | x :: xs => let! m := setXattr m (package_name im x) (x_Value x) in add_all im m xs
  end.

Definition binding (im : Image) (x : Xattr) : bytes * bytes := (package_name im x, x_Value x).

Lemma add_all_app im m xs ys : add_all im m (xs ++ ys) = let! m := add_all im m xs in add_all im m ys.
Proof. revert m. induction xs as [|x xs IH]; intros m; [done|]. cbn [app add_all]. destruct (setXattr _ _ _); [apply IH|done..]. Qed.

Lemma add_all_map im xs : forall m m', add_all im m xs = Ok m' ->
  NoDup (package_name im <$> xs) /\ (forall x, x ∈ xs -> m !! package_name im x = None) /\ m' = list_to_map (binding im <$> xs) ∪ m.
Proof.
  induction xs as [|x xs IH]; intros m m' E; cbn [add_all] in E.
  - injection E as <-. split; [constructor|]. split; [by intros ? ?%elem_of_nil|]. by rewrite fmap_nil, list_to_map_nil, map_empty_union.
  - unfold setXattr in E. destruct (m !! package_name im x) eqn:Em; [done|]. apply IH in E as (N & F & ->).
    assert (Hx : package_name im x ∉ package_name im <$> xs).
    { intros (y & Ey & Hy)%list_elem_of_fmap. specialize (F y Hy). rewrite <- Ey, lookup_insert_eq in F. done. }
    split; [by constructor|]. split.
    + intros y [-> |Hy]%elem_of_cons; [done|]. specialize (F y Hy). by apply lookup_insert_None in F as [F _].
    + cbn [fmap list_fmap list_to_map foldr]. unfold binding at 2. cbn [uncurry fst snd].
      change (foldr _ ∅ _) with (list_to_map (M := gmap bytes bytes) (binding im <$> xs)). rewrite <- insert_union_l, insert_union_r; [done|].
      apply not_elem_of_list_to_map. by rewrite <- list_fmap_compose.
Qed.

Lemma add_all_swap im xs ys m : add_all im ∅ (xs ++ ys) = Ok m ->
  NoDup (package_name im <$> ys ++ xs) /\ m = list_to_map (binding im <$> ys ++ xs).
Proof.
  intros E. apply add_all_map in E as (N & _ & ->). rewrite map_union_empty.
  assert (P : ys ++ xs ≡ₚ xs ++ ys) by apply Permutation_app_comm. split; [by rewrite P|].
  apply list_to_map_proper; [|by rewrite P]. by rewrite <- list_fmap_compose.
Qed.

(** ** The area *)

Section Area.
Context (img : image) (im : Image) (Hwf : image_wf img) (Hag : agrees img im).
Context (Hp : img_longPrefixes img = prefix_name <$> im_Prefixes im).

(** An entry whose bytes the image holds. *)
Lemma entry_read a nameLen idx valueLen :
  0 <= a -> nameLen = get8 (im_data im) (Z.to_nat a) -> idx = get8 (im_data im) (Z.to_nat (a + 1)) ->
  valueLen = get16 (im_data im) (Z.to_nat (a + 2)) -> a + 4 + nameLen + valueLen <= zlen (im_data im) ->
  exists x, xattrEntry im a = Got (x, roundUp (4 + nameLen + valueLen) 4) /\ x_Index x = idx /\
    x_Suffix x = sub (im_data im) (Z.to_nat (a + 4)) (Z.to_nat nameLen) /\
    x_Value x = sub (im_data im) (Z.to_nat (a + 4 + nameLen)) (Z.to_nat valueLen) /\
    (x_Prefix x, x_Unresolved x) = spec_xattrPrefix im idx.
Proof using Type.
  intros Ha Hn Hi Hv Hl. pose proof (get8_range (im_data im) (Z.to_nat a)) as R1. pose proof (get16_range (im_data im) (Z.to_nat (a + 2))) as R2.
  unfold is_u8, is_u16 in *. unfold xattrEntry, bytesAt, xattrEntrySize. rewrite sliceAt_ok by lia. cbn [mbind sres_bind].
  set (hdr := sub _ _ _). assert (G : get8 hdr 0 = nameLen /\ get8 hdr 1 = idx /\ get16 hdr 2 = valueLen).
  { unfold hdr, get8, get16 in *. rewrite !sub_sub by lia. subst. split_and!; do 2 f_equal; lia. }
  destruct G as (-> & -> & ->). rewrite sliceAt_ok by lia. cbn [mbind sres_bind]. destruct (spec_xattrPrefix im idx) as [prefix unres].
  eexists. split; [reflexivity|]. cbn. split; [done|]. split; [|split; [|done]].
  - unfold sub. rewrite take_take. f_equal. lia.
  - unfold sub. rewrite <- (Z2Nat.id nameLen) at 2 by lia. rewrite skipn_firstn_comm, drop_drop. f_equal; [lia|]. f_equal. lia.
Qed.

Context (addr xsize : Z) (Haddr : 0 <= addr) (Hfit : addr + xsize <= zlen (im_data im)) (Hx4 : xsize mod 4 = 0) (H12 : 12 <= xsize).

Let area := sub (im_data im) (Z.to_nat addr) (Z.to_nat xsize).

Lemma len_area : zlen area = xsize.
Proof using Haddr Hfit H12. unfold area. rewrite zlen_sub by lia. lia. Qed.

Lemma area_sub k n : 0 <= k -> k + Z.of_nat n <= xsize -> sub area (Z.to_nat k) n = sub (im_data im) (Z.to_nat (addr + k)) n.
Proof using Haddr. clear -Haddr. intros. unfold area. rewrite sub_sub by lia. f_equal. lia. Qed.

Lemma inline_match fuel : forall pos m m' fuel', 0 <= pos -> pos mod 4 = 0 -> (Z.to_nat (xsize - pos) <= fuel')%nat ->
  ref_inline fuel img area pos m = Ok m' ->
  exists xs, inline_xattrs im fuel' (addr + pos) (xsize - pos) = Got xs /\ add_all im m xs = Ok m'.
Proof using Hwf Hag Hp Haddr Hfit Hx4 H12.
  induction fuel as [|fuel IH]; intros pos m m' fuel' Hpos H4 Hf E; cbn [ref_inline] in E; rewrite len_area in E.
  - destruct (Z.leb_spec xsize pos); [|done]. injection E as <-. exists []. split; [|done].
    destruct fuel'; cbn [inline_xattrs]; by rewrite (proj2 (Z.leb_le _ 0)) by lia.
  - destruct (Z.leb_spec xsize pos) as [|Hlt].
    { injection E as <-. exists []. split; [|done]. destruct fuel'; cbn [inline_xattrs]; by rewrite (proj2 (Z.leb_le _ 0)) by lia. }
    destruct fuel' as [|fuel']; [lia|]. cbn [inline_xattrs]. rewrite (proj2 (Z.leb_gt _ 0)) by lia.
    step_in E. zbool. set (nl := get8 area (Z.to_nat pos)) in *. set (vl := get16 area (Z.to_nat pos + 2)) in *.
    assert (R1 : is_u8 nl) by apply get8_range. assert (R2 : is_u16 vl) by apply get16_range. unfold is_u8, is_u16 in *.
    destruct (entry_prefix img _) as [prefix| |] eqn:Ep; try done. step_in E. zbool.
    destruct (entry_read (addr + pos) nl (get8 area (Z.to_nat pos + 1)) vl) as (x & Ex & X1 & X2 & X3 & _); [lia| | | |lia|].
    { unfold nl, get8. rewrite (area_sub pos 1) by lia. done. }
    { unfold get8. replace (Z.to_nat pos + 1)%nat with (Z.to_nat (pos + 1)) by lia. rewrite (area_sub (pos + 1) 1) by lia. do 2 f_equal. lia. }
    { unfold vl, get16. replace (Z.to_nat pos + 2)%nat with (Z.to_nat (pos + 2)) by lia. rewrite (area_sub (pos + 2) 2) by lia. do 2 f_equal. lia. }
    rewrite Ex. cbn [mbind sres_bind]. destruct (roundUp4 (4 + nl + vl) ltac:(lia)) as (U1 & U2 & _). set (size := roundUp (4 + nl + vl) 4) in *.
    rewrite (proj2 (Z.ltb_ge _ size)) by mod_lia.
    assert (Er : round_up_pow2 (pos + 4 + nl + vl) 4 = pos + size).
    { destruct (round_up_pow2_spec (pos + 4 + nl + vl) 2 ltac:(lia)) as [V1 V2]. change (2 ^ 2) with 4 in *. mod_lia. }
    rewrite Er in E. rewrite (area_sub (pos + 4) (Z.to_nat nl)), (area_sub (pos + 4 + nl) (Z.to_nat vl)) in E by lia.
    replace (addr + (pos + 4)) with (addr + pos + 4) in E by lia. replace (addr + (pos + 4 + nl)) with (addr + pos + 4 + nl) in E by lia.
    rewrite <- X2, <- X3, (entry_prefix_spec img im _ prefix Hp Ep), <- X1 in E. fold (package_name im x) in E.
    destruct (setXattr m (package_name im x) (x_Value x)) as [m1| |] eqn:Es; try done.
    destruct (IH (pos + size) m1 m' fuel' ltac:(lia) ltac:(mod_lia) ltac:(lia) E) as (xs & Exs & Ad).
    replace (addr + pos + size) with (addr + (pos + size)) by lia. replace (xsize - pos - size) with (xsize - (pos + size)) by lia.
    rewrite Exs. cbn [mbind sres_bind]. exists (x :: xs). split; [done|]. cbn [add_all]. by rewrite Es.
Qed.

(** An entry of the shared area, within what one read of it holds. *)
Lemma shared_match id name value : 0 <= id < 2 ^ 32 -> shared_entry img id = Ok (name, value) ->
  exists x size, xattrEntry im (sb_XattrBlkAddr (img_sb img) * 2 ^ img_bits img + id * 4) = Got (x, size) /\
    name = package_name im x /\ value = x_Value x.
Proof using Hwf Hag Hp.
  clear Haddr Hfit Hx4 H12. intros Hid E. unfold shared_entry in E. pose proof (wf_bits _ Hwf) as Hb.
  destruct (shiftl_u32_bits (sb_XattrBlkAddr (img_sb img)) (img_bits img) (wf_sb_XattrBlkAddr _ (wf_sb _ Hwf)) Hb) as [Es Rs].
  rewrite Es in E. rewrite i64_id in E by lia. set (a := sb_XattrBlkAddr (img_sb img) * 2 ^ img_bits img + id * 4) in *.
  destruct (loadAt img a _) as [b| |] eqn:El; try done.
  assert (Hb' : b = sub (im_data im) (Z.to_nat a) (Z.to_nat (zlen b)) /\ a + zlen b <= zlen (im_data im)).
  { unfold loadAt in El. rewrite Z.ltb_irrefl in El. step_in El. zbool. set (n := Z.shiftl 1 (img_bits img)) in *. step_in El. clear E1.
    assert (Hn : 0 <= n) by lia.
    pose proof (backed_bytes (r := img_meta img) (Backed := ag_data _ _ Hag) a n ltac:(lia) Hn) as B.
    destruct (ReadAt (img_meta img) a n) as [b' err]. cbn in B. subst b'.
    assert (Eb : b = sub (im_data im) (Z.to_nat a) (Z.to_nat n) /\ 0 < zlen b) 
      by (destruct err as [e|]; [destruct (negb _); [done|]|]; (destruct (Z.leb_spec (zlen (sub (im_data im) (Z.to_nat a) (Z.to_nat n))) 0); [done|]); injection El as <-; split; done || lia).
    destruct Eb as [Eb Lp]. rewrite Eb, zlen_sub in Lp |- * by lia. split; [|lia]. unfold sub. set (l := drop (Z.to_nat a) (im_data im)) in *.
    replace (Z.to_nat (Z.max _ _)) with (Nat.min (Z.to_nat n) (length l)) by (unfold l; rewrite length_drop; unfold zlen; lia).
    by rewrite <- take_take, (take_ge l (length l)) by done. }
  destruct Hb' as [Eb Lb]. step_in E. zbool. unfold XattrEntry_Unmarshal in E. rewrite (proj2 (Z.ltb_ge (zlen b) SizeXattrEntry)) in E by lia. cbn [xe_NameLen xe_NameIndex xe_ValueLen] in E.
  assert (R1 : is_u8 (get8 b 0)) by apply get8_range. assert (R2 : is_u16 (get16 b 2)) by apply get16_range. unfold is_u8, is_u16 in *.
  rewrite slice_from_ok in E by (unfold SizeXattrEntry in *; lia).
  destruct (entry_prefix img _) as [prefix| |] eqn:Ep; try done. step_in E. zbool.
  rewrite slice_to_ok, slice_from_ok in E by lia. rewrite slice_to_ok in E by (rewrite zlen_drop by lia; lia).
  injection E as <- <-. unfold SizeXattrEntry in *.
  change (Z.to_nat 4) with 4%nat in *. set (nl := get8 b 0) in *. set (vl := get16 b 2) in *.
  assert (Ld : zlen (drop 4 b) = zlen b - 4) by (unfold zlen in *; rewrite length_drop; lia). rewrite Ld in *.
  assert (Sub : forall k n, (k + n <= length b)%nat -> sub b k n = sub (im_data im) (Z.to_nat a + k) n).
  { intros k n Hkn. rewrite Eb, sub_sub by (unfold zlen; lia). done. }
  destruct (entry_read a nl (get8 b 1) vl) as (x & Ex & X1 & X2 & X3 & _); [lia| | | |lia|].
  { unfold nl, get8. rewrite Sub by (unfold zlen in *; lia). by rewrite Nat.add_0_r. }
  { unfold get8. rewrite Sub by (unfold zlen in *; lia). do 2 f_equal. lia. }
  { unfold vl, get16. rewrite Sub by (unfold zlen in *; lia). do 2 f_equal. lia. }
  exists x, (roundUp (4 + nl + vl) 4). split; [done|]. unfold package_name. rewrite X1, X2, X3, <- (entry_prefix_spec img im _ prefix Hp Ep). split.
  - f_equal. change (take (Z.to_nat nl) (drop 4 b)) with (sub b 4 (Z.to_nat nl)). rewrite Sub by (unfold zlen in *; lia). f_equal. lia.
  - rewrite drop_drop. change (take (Z.to_nat vl) (drop ?k b)) with (sub b k (Z.to_nat vl)). rewrite Sub by (unfold zlen in *; lia). f_equal. lia.
Qed.

Lemma shared_all ids n : forall i m m',
  (forall k, (k < i + n)%nat -> get32 ids (4 * k) = get32 area (Z.to_nat (12 + Z.of_nat k * 4))) ->
  ref_shared img area n (Z.of_nat i) m = Ok m' ->
  exists xs, shared_xattrs im ((fun k => get32 ids (4 * k)) <$> seq i n) = Got xs /\ add_all im m xs = Ok m'.
Proof using Hwf Hag Hp.
  clear Haddr Hfit Hx4 H12. induction n as [|n IH]; intros i m m' Hids E; cbn [ref_shared seq] in *.
  { injection E as <-. by exists []. }
  rewrite fmap_cons. cbn [shared_xattrs].
  rewrite (Hids i) by lia. set (id := get32 area _) in *. assert (R : is_u32 id) by apply get32_range.
  destruct (shared_entry img id) as [[name value]| |] eqn:Es; try done.
  destruct (shared_match id name value R Es) as (x & size & Ex & -> & ->).
  rewrite (ag_xattr _ _ Hag), (ag_bs _ _ Hag), Ex. cbn [mbind sres_bind].
  destruct (setXattr m _ _) as [m1| |] eqn:Em; try done. replace (Z.of_nat i + 1) with (Z.of_nat (S i)) in E by lia.
  destruct (IH (S i) m1 m' ltac:(intros; apply Hids; lia) E) as (xs & Exs & Ad).
  rewrite Exs. cbn [mbind sres_bind]. eexists. split; [reflexivity|]. cbn [add_all]. 
  change (package_name im (mkSpecXattr _ _ _ _ _ _ _)) with (package_name im x). cbn [x_Value]. by rewrite Em.
Qed.

Lemma attributes_match i m : i_XattrSize i = xsize -> i_loc i + i_isize i = addr -> 12 < xsize -> ref_xattrs img area = Ok m ->
  exists filter ids xs, decodeXattrs im i = Got (with_attrs filter ids xs i) /\
    NoDup (package_name im <$> xs) /\ m = list_to_map (binding im <$> xs).
Proof using Hwf Hag Hp Haddr Hfit Hx4 H12.
  intros Hx Ha Hlt E. unfold ref_xattrs in E. rewrite len_area in E. unfold decodeXattrs. rewrite Hx, Ha.
  rewrite (proj2 (Z.eqb_neq xsize 0)), (proj2 (Z.eqb_neq xsize xattrHeaderSize)), (proj2 (Z.ltb_ge xsize xattrHeaderSize)) by (unfold xattrHeaderSize; lia).
  unfold bytesAt, xattrHeaderSize in *. rewrite (sliceAt_ok (im_data im) addr 12) by lia. cbn [mbind sres_bind].
  assert (Ec : get8 (sub (im_data im) (Z.to_nat addr) (Z.to_nat 12)) 4 = get8 area 4) by (unfold area, get8; by rewrite !sub_sub by lia).
  rewrite Ec. pose proof (get8_range area 4) as R. unfold is_u8 in R. set (count := get8 area 4) in *.
  destruct (Z.ltb_spec xsize (12 + count * 4)) as [|Hc]; [done|]. rewrite (proj2 (Z.ltb_ge (xsize - 12) _)) by lia.
  rewrite (sliceAt_ok (im_data im) (addr + 12)) by lia. cbn [mbind sres_bind]. rewrite <- (area_sub 12) by lia. set (ids := sub area _ _).
  destruct (ref_shared img area (Z.to_nat count) 0 ∅) as [m1| |] eqn:Es; try done.
  destruct (shared_all ids (Z.to_nat count) 0 ∅ m1) as (others & So & Ao); [|done|].
  { intros k Hk. unfold ids, get32. rewrite sub_sub by lia. do 2 f_equal. lia. }
  destruct (inline_match _ (12 + count * 4) m1 m (Z.to_nat (xsize - 12 - count * 4)) ltac:(lia) ltac:(mod_lia) ltac:(lia) E) as (inl & Si & Ai).
  replace (addr + 12 + count * 4) with (addr + (12 + count * 4)) by lia. replace (xsize - 12 - count * 4) with (xsize - (12 + count * 4)) in * by lia.
  rewrite Si. cbn [mbind sres_bind]. rewrite So. cbn [mbind sres_bind]. eexists _, _, _. split; [reflexivity|].
  apply add_all_swap. by rewrite add_all_app, Ao.
Qed.

End Area.

Lemma loadXattrs_spec img im ino i m :
  image_wf img -> agrees img im -> img_longPrefixes img = prefix_name <$> im_Prefixes im -> inode_wf img ino -> is_u64 (ino_nid ino) ->
  same_inode img ino i -> zlen (im_data im) <= MaxInt64 -> 12 < ino_xsize ino ->
  metaStartPos img + ino_nid ino * 32 + ino_icsize ino + ino_xsize ino <= img_size img -> loadXattrs img ino = Ok m ->
  exists filter ids xs, decodeXattrs im i = Got (with_attrs filter ids xs i) /\
    NoDup (package_name im <$> xs) /\ m = list_to_map (binding im <$> xs).
Proof.
  intros Hwf Hag Hp Hino Hn Hs Hc Hx Hfit E. rewrite (ag_size _ _ Hag) in Hfit.
  destruct (checkNid_offset img Hwf (ino_nid ino) Hn (wf_nid _ _ Hino)) as [Eo Hr]. destruct (metaStartPos_eq img Hwf) as [_ Rm]. unfold is_u64 in Hn.
  assert (Hic : 0 <= ino_icsize ino <= 64) by (destruct (wf_icsize _ _ Hino); lia).
  destruct (wf_xsize _ _ Hino) as [?|[Hxr Hxm]]; [lia|]. set (addr := metaStartPos img + ino_nid ino * 32 + ino_icsize ino) in *.
  rewrite (loadXattrs_ref img ino (im_data im)) in E; auto; [|apply (ag_data _ _ Hag)|lia|unfold addr in *; lia|by rewrite (ag_size _ _ Hag); intros _].
  apply (attributes_match img im Hwf Hag Hp addr (ino_xsize ino)); auto; try (unfold addr; lia).
  - apply (si_xsize _ _ _ Hs).
  - rewrite (si_loc _ _ _ Hs), (si_isize _ _ _ Hs). done.
Qed.

(** ** Names the reference resolves *)

Lemma Got_inj {A} (a b : A) : Got a = Got b -> a = b.
Proof. by injection 1. Qed.

(** A decoded entry's prefix is its index's. *)
Definition named (im : Image) (x : Xattr) : Prop := (x_Prefix x, x_Unresolved x) = spec_xattrPrefix im (x_Index x).

Lemma entry_named im a x size : xattrEntry im a = Got (x, size) -> named im x.
Proof.
  unfold xattrEntry. destruct (bytesAt im a _) as [hdr| |]; [|done..]. cbn [mbind sres_bind].
  destruct (bytesAt im _ _) as [body| |]; [|done..]. cbn [mbind sres_bind]. unfold named.
  destruct (spec_xattrPrefix im (get8 hdr 1)) as [prefix unres] eqn:Ep. intros [= <- _]. cbn. by rewrite Ep.
Qed.

Lemma inline_named im fuel : forall pos remaining xs, inline_xattrs im fuel pos remaining = Got xs -> Forall (named im) xs.
Proof.
  induction fuel as [|fuel IH]; intros pos remaining xs; cbn [inline_xattrs]; (destruct (_ <=? 0); [by intros [= <-]|]); [done|].
  destruct (xattrEntry im pos) as [[x size]| |] eqn:Ex; [|done..]. cbn [mbind sres_bind]. destruct (_ <? _); [done|].
  destruct (inline_xattrs im fuel _ _) as [rest| |] eqn:Er; [|done..]. intros [= <-]. constructor; [by eapply entry_named|by eapply IH].
Qed.

Lemma shared_named im ids : forall xs, shared_xattrs im ids = Got xs -> Forall (named im) xs.
Proof.
  induction ids as [|id ids IH]; intros xs; cbn [shared_xattrs]; [by intros [= <-]|].
  destruct (xattrEntry im _) as [[x size]| |] eqn:Ex; [|done..]. cbn [mbind sres_bind].
  destruct (shared_xattrs im ids) as [rest| |]; [|done..]. intros [= <-]. constructor; [|by apply IH]. by apply entry_named in Ex.
Qed.

Lemma decoded_names im i filter ids xs x :
  i_XattrSize i <> 0 -> decodeXattrs im i = Got (with_attrs filter ids xs i) -> x ∈ xs -> x_Unresolved x = false -> package_name im x = Xattr_Name x.
Proof.
  intros Hi E Hin Hu. assert (N : Forall (named im) xs).
  { unfold decodeXattrs in E. rewrite (proj2 (Z.eqb_neq _ 0)) in E by done.
    destruct (_ =? _); [done|]. destruct (_ <? _); [done|]. destruct (bytesAt im _ _) as [hdr| |]; [|done..]. cbn [mbind sres_bind] in E.
    destruct (_ <? _); [done|]. destruct (bytesAt im _ _) as [idb| |]; [|done..]. cbn [mbind sres_bind] in E.
    destruct (inline_xattrs _ _ _ _) as [inl| |] eqn:E1; [|done..]. cbn [mbind sres_bind] in E.
    destruct (shared_xattrs _ _) as [others| |] eqn:E2; [|done..]. cbn [mbind sres_bind] in E. apply Got_inj, (f_equal i_Xattrs) in E. cbn in E. rewrite <- E.
    apply Forall_app. split; [by eapply inline_named|by eapply shared_named]. }
  rewrite Forall_forall in N. specialize (N x Hin). unfold named in N. unfold package_name, Xattr_Name.
  rewrite <- spec_prefix_resolved; rewrite <- N; done.
Qed.
