(* ===== verification/SpecList.v ===== *)
(** * The package's directories are the reference's

    A block's entries, and [ReadDir] (Dir.v) against the reference's [Dirents]
    (SpecDir.v). *)

From S2P Require Import Prelude Machine Disk Format Image Inode Data Dir Path Open Spec SpecDir SpecInode SpecData SpecOpen.

(** ** A block of entries *)

(** The reference's entry of a decoded dirent and its name. *)
Definition spec_entry (p : Dirent * bytes) : SpecDirent := mkSpecDirent (Disk.de_Nid p.1) p.2 (de_FileType p.1).

Definition short_names (l : list (Dirent * bytes)) : Prop := Forall (fun p => zlen p.2 <= NameMax) l.

Lemma strnlen_until b : strnlen b = zlen (until_nul b) /\ until_nul b = sub b 0 (Z.to_nat (strnlen b)) /\ strnlen b <= zlen b.
Proof.
  unfold strnlen. pose proof (cut_nul_until b) as C. unfold cut_nul in C. destruct (Z.leb_spec 0 (IndexByte b x00)) as [H|H].
  - apply slice_inv in C as (_ & L & ->). rewrite Z.sub_0_r. change (Z.to_nat 0) with 0%nat.
    assert (E : zlen (sub b 0 (Z.to_nat (IndexByte b x00))) = IndexByte b x00); [|by rewrite E].
    unfold zlen, sub in *. rewrite length_take, drop_0. lia.
  - apply Ok_inj in C. rewrite <- C. split; [done|]. split; [|lia]. unfold sub, zlen. rewrite drop_0, take_ge; [done|lia].
Qed.

Lemma sslice_ok b lo hi : 0 <= lo <= hi -> hi <= zlen b -> sslice b lo hi = Got (sub b (Z.to_nat lo) (Z.to_nat (hi - lo))).
Proof. intros. unfold sslice. by rewrite !(proj2 (Z.ltb_ge _ _)) by lia. Qed.

Lemma good_name_index name : good_name name -> (0 <=? IndexByte name slash) || (0 <=? IndexByte name x00) = false.
Proof.
  intros (_ & G1 & G2). rewrite orb_false_iff, !Z.leb_gt.
  destruct (IndexByte_spec name slash) as [[-> _]|(_ & L & _)]; [|by apply list_elem_of_lookup_2 in L].
  destruct (IndexByte_spec name x00) as [[-> _]|(_ & L & _)]; [lia|by apply list_elem_of_lookup_2 in L].
Qed.

(** A block's table of entries, wherever its names end. *)
Record entry_table (buf : bytes) (l : list (Dirent * bytes)) : Prop := {
  et_pos : 0 < zlen l;
  et_first : get16 buf 8 = SizeDirent * zlen l;
  et_fits : SizeDirent * zlen l < zlen buf;
  et_at : forall i de name, l !! i = Some (de, name) -> exists e, dirent_at buf (Z.of_nat i) (zlen l) de name e }.

Lemma view_table buf l : block_view buf l -> entry_table buf l.
Proof.
  intros Hv. destruct (view_first buf l Hv) as (d0 & n0 & t & El & Hu & Ho & Hl1 & Hl2). pose proof (view_small buf l Hv) as Hsm.
  split; [lia| |lia|apply (view_at buf l Hv)]. unfold Dirent_Unmarshal in Hu. step_in Hu. apply Ok_inj in Hu. rewrite <- Ho, <- Hu. done.
Qed.

Section Block.
Context (buf : bytes) (l : list (Dirent * bytes)) (Hv : entry_table buf l) (Hs : short_names l).

Lemma entry_matches i p : l !! i = Some p -> dirent_of_block buf (zlen l) (Z.of_nat i) = Got (spec_entry p).
Proof using Hv Hs.
  destruct p as [de name]. intros Hi. destruct (et_at _ _ Hv i de name Hi) as [e D].
  pose proof (dirent_at_nameoff buf (Z.of_nat i) (zlen l) de name e ltac:(lia) D) as No.
  pose proof (Forall_lookup_1 _ _ _ _ Hs Hi) as Hn. cbn in Hn. pose proof (lookup_lt_Some _ _ _ Hi) as Hlt.
  destruct D as [D1 D2 D3 D4 D5 D6 D7]. unfold dirent_of_block, nameoff_of, DirentSize.
  rewrite (Z.mul_comm (Z.of_nat i) 12). change 12 with SizeDirent. rewrite <- No.
  pose proof (good_name_nonempty name D7) as Hpos. set (off := Disk.de_NameOff de) in *.
  unfold Dirent_Unmarshal in D2. step_in D2. apply Ok_inj in D2.
  assert (Hent : mkSpecDirent (get64 buf (Z.to_nat (SizeDirent * Z.of_nat i))) name (get8 buf (Z.to_nat (SizeDirent * Z.of_nat i + 10))) = spec_entry (de, name)).
  { unfold spec_entry. cbn [fst snd]. rewrite <- D2. cbn [Disk.de_Nid de_FileType]. unfold get64, get8, SizeDirent in *. rewrite !sub_sub by lia. rewrite Nat.add_0_r.
    replace (Z.to_nat (12 * Z.of_nat i) + 10)%nat with (Z.to_nat (12 * Z.of_nat i + 10)) by lia. done. }
  destruct (Z.ltb_spec (Z.of_nat i + 1) (zlen l)) as [Hnx|Hnx].
  - destruct (D3 ltac:(lia)) as [He _]. rewrite (proj2 (Z.eqb_neq _ _)) in D6 by lia.
    rewrite (Z.mul_comm SizeDirent (_ + 1)) in He. rewrite <- He. cbn [mbind sres_bind].
    assert (Ln : zlen name = e - off) by (rewrite D6, zlen_sub by lia; lia).
    rewrite !(proj2 (Z.ltb_ge _ _)) by lia. cbn [orb]. rewrite sslice_ok by lia. cbn [mbind sres_bind].
    replace (off + (e - off) - off) with (e - off) by lia. rewrite <- D6, (good_name_index name D7). by rewrite Hent.
  - assert (Hlast : Z.of_nat i = zlen l - 1) by (unfold zlen in *; lia). rewrite (proj2 (Z.eqb_eq _ _) Hlast) in D6.
    specialize (D4 ltac:(lia)). subst e. rewrite (proj2 (Z.leb_gt _ _)) by lia. rewrite (sslice_ok buf off) by lia.
    cbn [mbind sres_bind]. set (rest := sub buf (Z.to_nat off) (Z.to_nat (zlen buf - off))) in *.
    destruct (strnlen_until rest) as (U1 & U2 & U3). rewrite <- D6 in U1, U2. assert (Lr : zlen rest = zlen buf - off) by (unfold rest; rewrite zlen_sub by lia; lia).
    rewrite !(proj2 (Z.ltb_ge _ _)) by lia. cbn [orb]. rewrite sslice_ok by lia. cbn [mbind sres_bind].
    replace (off + strnlen rest - off) with (strnlen rest) by lia.
    assert (En : sub buf (Z.to_nat off) (Z.to_nat (strnlen rest)) = name).
    { rewrite U2. unfold rest at 2. rewrite sub_sub by lia. f_equal. lia. }
    rewrite En, (good_name_index name D7). by rewrite Hent.
Qed.

Lemma entries_from n : forall k, (k + n = length l)%nat ->
  dirents_from buf (zlen l) n (Z.of_nat k) = Got (spec_entry <$> drop k l).
Proof using Hv Hs.
  induction n as [|n IH]; intros k Hk; cbn [dirents_from].
  - rewrite drop_ge by lia. done.
  - destruct (lookup_lt_is_Some_2 l k ltac:(lia)) as [p Hp]. rewrite (entry_matches k p Hp). cbn [mbind sres_bind].
    replace (Z.of_nat k + 1) with (Z.of_nat (S k)) by lia. rewrite IH by lia. cbn [mbind sres_bind]. by rewrite (drop_S l p k Hp).
Qed.

Lemma block_matches bs : zlen buf <= bs -> direntsOfBlock buf bs = Got (spec_entry <$> l).
Proof using Hv Hs.
  intros Hb. destruct Hv as [Hp E8 Hf _]. unfold direntsOfBlock. change DirentSize with SizeDirent. rewrite E8. unfold SizeDirent in *.
  rewrite (proj2 (Z.ltb_ge (zlen buf) 12)), (proj2 (Z.eqb_neq (12 * zlen l) 0)), (proj2 (Z.leb_gt bs _)) by lia.
  rewrite (Z.mul_comm 12 (zlen l)), Z.rem_mul, Z.quot_mul by lia. cbn [orb negb Z.eqb].
  rewrite (proj2 (Z.ltb_ge (zlen buf) _)) by lia. exact (entries_from (Z.to_nat (zlen l)) 0 ltac:(unfold zlen; lia)).
Qed.

End Block.

(** ** A directory *)

Section Listing.
Context (img : image) (im : Image) (Hwf : image_wf img) (Hmap : metadata_apart img im) (Hag : agrees img im) (Hlim : img_size img < 2 ^ 62).
Context (ino : inode) (i : Inode) (Hino : inode_wf img ino) (Hsame : same_inode img ino i) (Hnid : is_u64 (ino_nid ino)).
Context (blks : list (list (Dirent * bytes))) (Hview : dir_view img ino blks) (Hshort : Forall short_names blks).
Context (Hdir : IsDir i = true) (Hsize : ino_size ino < 2 ^ 62).

Let bs := 2 ^ img_bits img.

Lemma blocks_size : ino_size ino = 0 /\ blks = [] \/ (zlen blks - 1) * bs < ino_size ino <= zlen blks * bs.
Proof using Hwf Hino Hview Hsize.
  pose proof (pow2_bits _ (wf_bits _ Hwf)) as R. fold bs in R. pose proof (wf_bits _ Hwf) as Hb. pose proof (dv_count _ _ _ Hview) as Hc.
  pose proof (wf_isize _ _ Hino). destruct (calculateBlocks_ceil (img_bits img) (ino_size ino)) as [U|[U0 U]]; [lia|lia| |].
  - pose proof (calculateBlocks_upper (img_bits img) (ino_size ino) ltac:(lia) ltac:(lia)) as V. rewrite Hc in U, V. fold bs in U, V. by right.
  - left. split; [done|]. rewrite Hc in U0. apply nil_length_inv. unfold zlen in U0. lia.
Qed.

(** A block of the directory, as the reference reads it. *)
Lemma block_read k l : blks !! k = Some l -> 0 <= Z.of_nat k * bs < ino_size ino /\
  exists buf, spec_ReadAt im i (Z.of_nat k * bs) (Z.min bs (ino_size ino - Z.of_nat k * bs)) = Got buf /\ block_view buf l /\ zlen buf <= bs.
Proof using Hwf Hmap Hag Hlim Hino Hsame Hnid Hview Hdir Hsize.
  intros Hl. pose proof (pow2_bits _ (wf_bits _ Hwf)) as R. fold bs in R. pose proof (lookup_lt_Some _ _ _ Hl) as Hlt.
  destruct (dv_blocks _ _ _ Hview k l Hl) as (buf & El & Bv). fold bs in El.
  assert (Hp : 0 <= Z.of_nat k * bs < ino_size ino) by (destruct blocks_size as [[_ E]|N]; [by rewrite E in Hl|unfold zlen in N; nia]).
  split; [done|]. exists buf.
  assert (Sp : block_span img ino (Z.of_nat k * bs) = Z.min bs (ino_size ino - Z.of_nat k * bs)).
  { unfold block_span. fold bs. rewrite Z.mod_mul by lia. f_equal. lia. }
  assert (Ts : tail_served img ino).
  { intros _. rewrite (dv_count _ _ _ Hview). destruct (lookup_lt_is_Some_2 blks (length blks - 1) ltac:(lia)) as [l' Hl'].
    destruct (dv_blocks _ _ _ Hview _ _ Hl') as (buf' & El' & _). exists buf'. fold bs in El' |- *. rewrite <- El'. f_equal. f_equal. unfold zlen. lia. }
  assert (Ty : Z.land (i_Mode i) ModeTypeMask = SpecModeDir) by (by apply Z.eqb_eq).
  pose proof (loadBlock_spec img im Hwf Hmap Hag Hlim ino i Hino Hsame Hnid (or_introl Ty) Hsize _ buf Ts Hp El) as RA. rewrite Sp in RA.
  split; [done|]. split; [done|]. pose proof (loadBlock_window_len img ino _ buf Hwf Hp El) as L. lia.
Qed.

Lemma listing_blocks fuel : forall k, (length blks < k + fuel)%nat -> (k <= length blks)%nat ->
  dirents_blocks im fuel i (Z.of_nat k * bs) = Got (spec_entry <$> entries_of (drop k blks)).
Proof using Hwf Hmap Hag Hlim Hino Hsame Hnid Hview Hshort Hdir Hsize.
  pose proof (pow2_bits _ (wf_bits _ Hwf)) as R. fold bs in R.
  induction fuel as [|fuel IH]; intros k Hk Hkl; cbn [dirents_blocks]; rewrite (si_size _ _ _ Hsame); [lia|].
  destruct (Z.leb_spec (ino_size ino) (Z.of_nat k * bs)) as [Hend|Hin].
  { rewrite drop_ge; [done|]. destruct blocks_size as [[_ E]|[N _]]; [rewrite E; cbn; lia|].
    assert (zlen blks - 1 < Z.of_nat k) by (apply (Z.mul_lt_mono_pos_r bs); lia). unfold zlen in *. lia. }
  assert (Hlt : (k < length blks)%nat) by (destruct blocks_size as [[? _]|[_ N]]; [nia|]; unfold zlen in N; nia).
  destruct (lookup_lt_is_Some_2 blks k Hlt) as [l Hl]. destruct (block_read k l Hl) as (Hp & buf & RA & Bv & Lb).
  rewrite (ag_bs _ _ Hag). fold bs. rewrite RA. cbn [mbind sres_bind].
  rewrite (block_matches buf l (view_table _ _ Bv) (Forall_lookup_1 _ _ _ _ Hshort Hl) bs Lb). cbn [mbind sres_bind].
  rewrite i64_id by lia. replace (Z.of_nat k * bs + bs) with (Z.of_nat (S k) * bs) by lia. rewrite IH by lia. cbn [mbind sres_bind].
  rewrite (drop_S blks l k Hl). unfold entries_of. cbn [mjoin list_join]. by rewrite fmap_app.
Qed.

Lemma Dirents_spec : Dirents im i = Got (spec_entry <$> entries_of blks).
Proof using Hwf Hmap Hag Hlim Hino Hsame Hnid Hview Hshort Hdir Hsize.
  unfold Dirents. rewrite Hdir. cbn [negb]. rewrite (ag_bs _ _ Hag), (si_size _ _ _ Hsame). fold bs.
  pose proof (pow2_bits _ (wf_bits _ Hwf)) as R. fold bs in R. pose proof (wf_isize _ _ Hino) as Hz. pose proof (wf_bits _ Hwf) as Hb.
  assert (Hf : zlen blks <= ino_size ino / bs + 1).
  { rewrite <- (dv_count _ _ _ Hview). unfold calculateBlocks. rewrite Z.shiftr_div_pow2 by lia. fold bs. destruct (_ <? _); lia. }
  rewrite Z.quot_div_nonneg by lia. assert (0 <= ino_size ino / bs) by (apply Z.div_pos; lia).
  apply (listing_blocks (Z.to_nat (ino_size ino / bs + 2)) 0); [unfold zlen in *; lia|lia].
Qed.

End Listing.

(** What [ReadDir] shows of the reference's entries. *)
Fixpoint listed (ds : list SpecDirent) : list direntry :=
  match ds with
  | [] => []
  | d :: ds =>
      if is_dot (de_Name d) then listed ds
      else mkDirentry (de_Name d) (de_Nid d) (EroFSFtypeToFileMode (de_Type d)) :: listed ds
  end.

Lemma listed_visible l : listed (spec_entry <$> l) = visible l.
Proof. induction l as [|[de name] l IH]; [done|]. cbn [fmap list_fmap listed visible]. rewrite IH. done. Qed.

Lemma dir_type m : is_u16 m -> FileMode_Type (EroFSModeToGoFileMode m) = ModeDir -> Z.land m ModeTypeMask = SpecModeDir.
Proof.
  intros Hm Ht.
  set (f m := negb (FileMode_Type (EroFSModeToGoFileMode m) =? ModeDir) || (Z.land m ModeTypeMask =? SpecModeDir)).
  assert (Hf : all_modes f = true) by (vm_compute; reflexivity).
  pose proof (all_modes_spec f Hf m Hm) as H. clear Hf. unfold f in H. rewrite Ht, Z.eqb_refl in H. by apply Z.eqb_eq.
Qed.

