(* ===== verification/SpecLookup.v ===== *)
(** * The kernel's lookup finds what the package's lookup finds

    The reference's [Lookup] (SpecDir.v) is the kernel's: two binary searches
    whose comparisons skip the prefix both bounds are known to share with the
    name.  On a directory whose names ascend it answers the entry of that name
    or that there is none, as the package's lookup (Dir.v) does. *)

From S2P Require Import Prelude Machine Disk Format Image Inode Data Dir Path Open Spec SpecDir SpecInode SpecData SpecList.

(** ** Comparing from a shared prefix *)

(** The first [k] bytes of both names are there and equal. *)
Definition shares (k : nat) (a b : bytes) : Prop := take k a = take k b /\ (k <= length a)%nat /\ (k <= length b)%nat.

Lemma shares_0 a b : shares 0 a b.
Proof. unfold shares. split; [done|lia]. Qed.

Lemma shares_le k j a b : (j <= k)%nat -> shares k a b -> shares j a b.
Proof.
  intros Hj (E & H1 & H2). split; [|lia]. apply (f_equal (take j)) in E. rewrite !take_take in E. by rewrite Nat.min_l in E by lia.
Qed.

Lemma shares_cons k x a b : shares k a b -> shares (S k) (x :: a) (x :: b).
Proof. intros (E & H1 & H2). split; [cbn; by rewrite E|cbn; lia]. Qed.

(** A name between two that share a prefix with a third shares it too. *)
Lemma shares_between k : forall n a s b, name_lt a s -> name_lt s b -> shares k n a -> shares k n b -> shares k n s.
Proof.
  induction k as [|k IH]; intros n a s b Ha Hb Sa Sb; [apply shares_0|].
  destruct Sa as (E1 & L1 & L2), Sb as (E2 & _ & L3). destruct n as [|x n], a as [|y a], b as [|z b]; cbn in *; try lia.
  injection E1 as <- E1. injection E2 as <- E2. destruct s as [|w s]; [done|]. unfold name_lt in *. cbn in Ha, Hb.
  destruct (Z.compare_spec (Z_of_byte x) (Z_of_byte w)) as [E|Hlt|]; [|destruct (Z.compare_spec (Z_of_byte w) (Z_of_byte x)); [lia|lia|done]|done].
  apply (inj Z_of_byte) in E as <-. rewrite Z.compare_refl in Hb. apply shares_cons. apply (IH n a s b); auto; (split; [done|lia]).
Qed.

(** What a comparison says. *)
Definition says (r : Z) (c : comparison) : Prop := r = match c with Eq => 0 | Lt => -1 | Gt => 1 end.

Lemma namecmp_spec name stored : x00 ∉ stored -> forall i, (i <= length name)%nat ->
  exists r k, namecmp_from name stored i = (r, (i + k)%nat) /\ says r (Compare (drop i name) stored) /\ shares k (drop i name) stored.
Proof.
  induction stored as [|s stored IH]; intros Hn i Hi; cbn [namecmp_from].
  - eexists _, 0%nat. rewrite Nat.add_0_r. split; [reflexivity|]. split; [|apply shares_0].
    destruct (Nat.leb_spec (length name) i); [by rewrite drop_ge|]. destruct (drop i name) eqn:E; [|done].
    apply (f_equal length) in E. rewrite length_drop in E. cbn in E. lia.
  - apply not_elem_of_cons in Hn as [Hs Hn]. rewrite (bool_decide_eq_false_2 (s = x00)) by congruence.
    destruct (name !! i) as [c|] eqn:Hc; cbv [default from_option id].
    + rewrite (drop_S name c i Hc). cbn [Compare]. case_bool_decide as Ec.
      * subst c. rewrite Z.compare_refl. apply lookup_lt_Some in Hc. destruct (IH Hn (S i) ltac:(lia)) as (r & k & -> & R1 & R2).
        exists r, (S k). split; [f_equal; lia|]. split; [done|]. by apply shares_cons.
      * eexists _, 0%nat. rewrite Nat.add_0_r. split; [reflexivity|]. split; [|apply shares_0]. unfold says.
        destruct (Z.compare_spec (Z_of_byte c) (Z_of_byte s)) as [E|E|E]; [by apply (inj Z_of_byte) in E| |];
          [rewrite (proj2 (Z.ltb_ge _ _)) by lia|rewrite (proj2 (Z.ltb_lt _ _)) by lia]; done.
    + apply lookup_ge_None in Hc. rewrite drop_ge by lia. cbn [Compare]. rewrite bool_decide_eq_false_2 by congruence.
      pose proof (Z_of_byte_range s). change (Z_of_byte x00) with 0. rewrite (proj2 (Z.ltb_ge _ _)) by lia.
      eexists _, 0%nat. rewrite Nat.add_0_r. split; [reflexivity|]. split; [done|apply shares_0].
Qed.

(** A stored slice compares as the name it holds up to the first NUL. *)
Lemma namecmp_until name : forall stored i, namecmp_from name stored i = namecmp_from name (until_nul stored) i.
Proof.
  induction stored as [|s stored IH]; intros i; [done|]. cbn [until_nul namecmp_from]. case_bool_decide as E; [done|].
  cbn [namecmp_from]. rewrite (bool_decide_eq_false_2 (s = x00)) by done. by rewrite IH.
Qed.

Lemma until_nul_drop m : forall stored, (m <= length (until_nul stored))%nat -> until_nul (drop m stored) = drop m (until_nul stored).
Proof.
  induction m as [|m IH]; intros [|s stored] Hm; cbn in *; try done. case_bool_decide; cbn in Hm; [lia|]. apply IH. lia.
Qed.

Lemma Compare_shared k : forall a b, take k a = take k b -> (k <= length a)%nat -> (k <= length b)%nat -> Compare (drop k a) (drop k b) = Compare a b.
Proof.
  induction k as [|k IH]; intros [|x a] [|y b] E L1 L2; cbn in *; try done; try lia. injection E as <- E. rewrite Z.compare_refl. apply IH; auto; lia.
Qed.

Lemma dirnamecmp_spec name stored m : shares m name (until_nul stored) ->
  exists r k, dirnamecmp name stored m = (r, k) /\ says r (Compare name (until_nul stored)) /\ shares k name (until_nul stored).
Proof.
  intros (E & L1 & L2). unfold dirnamecmp. rewrite namecmp_until, until_nul_drop by done.
  destruct (namecmp_spec name (drop m (until_nul stored))) with (i := m) as (r & k & -> & R1 & (S1 & S2 & S3)); [|done|].
  { intros H. apply (until_nul_sound stored). rewrite <- (take_drop m (until_nul stored)). apply elem_of_app. by right. }
  rewrite Compare_shared in R1 by done. exists r, (m + k)%nat. split; [done|]. split; [done|]. rewrite length_drop in S2, S3.
  split; [|lia]. by rewrite <- !take_take_drop, E, S1.
Qed.

(** ** A block as the page cache holds it *)

Lemma until_nul_zeros x : forall k, until_nul (x ++ zeros k) = until_nul x.
Proof.
  induction x as [|b x IH]; intros k; cbn [app until_nul]; [by destruct k|]. case_bool_decide; [done|]. by rewrite IH.
Qed.

Lemma dirent_pad buf k i n de name e : 0 <= i < n -> dirent_at buf i n de name e -> exists e', dirent_at (buf ++ zeros k) i n de name e'.
Proof.
  intros Hi [D1 D2 D3 D4 D5 D6 D7]. assert (L : zlen (buf ++ zeros k) = zlen buf + Z.of_nat k) by (rewrite zlen_app; unfold zlen, zeros; by rewrite length_replicate).
  unfold SizeDirent in *.
  assert (Sub : forall o m, (o + m <= length buf)%nat -> sub (buf ++ zeros k) o m = sub buf o m) by (intros; by rewrite sub_app_l).
  assert (U : Dirent_Unmarshal (sub (buf ++ zeros k) (Z.to_nat (12 * i)) (Z.to_nat (zlen (buf ++ zeros k) - 12 * i))) = Ok de).
  { rewrite <- D2. rewrite <- (Dirent_Unmarshal_prefix (sub (buf ++ zeros k) _ _) (zlen buf - 12 * i)); [|unfold SizeDirent; lia|].
    - f_equal. rewrite sub_sub by lia. rewrite Nat.add_0_r. apply Sub. unfold zlen in *. lia.
    - rewrite zlen_sub by lia. lia. }
  destruct (Z.eqb_spec i (n - 1)) as [Hl|Hl].
  - exists (zlen (buf ++ zeros k)). specialize (D4 ltac:(lia)). subst e. split; [unfold SizeDirent; lia|done|lia|done|lia| |done].
    rewrite (proj2 (Z.eqb_eq _ _) Hl), D6. set (off := Z.to_nat (Disk.de_NameOff de)).
    rewrite <- (until_nul_zeros _ k). f_equal. rewrite L. unfold off, sub. rewrite drop_app_le by (unfold zlen in *; lia).
    rewrite !take_ge; [done| |]; rewrite ?length_app, ?length_drop; unfold zeros; rewrite ?length_replicate; unfold zlen in *; lia.
  - exists e. destruct (D3 ltac:(lia)) as [E1 E2]. split; [unfold SizeDirent; lia|done| |lia|lia| |done].
    + intros _. split; [|unfold SizeDirent; lia]. unfold get16, SizeDirent in *. rewrite Sub; [done|unfold zlen in *; lia].
    + rewrite (proj2 (Z.eqb_neq _ _) Hl), D6. rewrite Sub; [done|unfold zlen in *; lia].
Qed.

Lemma table_pad buf k l : entry_table buf l -> entry_table (buf ++ zeros k) l.
Proof.
  intros [P F L A]. split; [done| | |].
  - rewrite <- F. unfold get16, SizeDirent, zlen in *. rewrite sub_app_l; [done|lia].
  - rewrite zlen_app. pose proof (zlen_nonneg (zeros k)). lia.
  - intros i de name Hi. destruct (A i de name Hi) as [e D]. eapply dirent_pad; [|done]. apply lookup_lt_Some in Hi. unfold zlen. lia.
Qed.

(** ** The search within a block *)

(** A prefix known to be shared with the name at [i], if any is. *)
Definition bound (k : nat) (target : bytes) (names : list bytes) (i : Z) : Prop :=
  k = 0%nat \/ exists x, 0 <= i /\ names !! Z.to_nat i = Some x /\ shares k target x.

Lemma bounds_share names target sp ep head back mid x :
  StronglySorted name_lt names -> bound sp target names (head - 1) -> bound ep target names (back + 1) ->
  head <= mid <= back -> 0 <= head -> names !! Z.to_nat mid = Some x -> shares (Nat.min sp ep) target x.
Proof.
  intros Hs [-> |(a & A1 & A2 & A3)] [-> |(b & B1 & B2 & B3)] Hm Hh Hx; rewrite ?Nat.min_0_r; try apply shares_0.
  apply (shares_between _ target a x b).
  - apply (sorted_lookup name_lt names (Z.to_nat (head - 1)) (Z.to_nat mid)); auto. lia.
  - apply (sorted_lookup name_lt names (Z.to_nat mid) (Z.to_nat (back + 1))); auto. lia.
  - apply (shares_le sp); [lia|done].
  - apply (shares_le ep); [lia|done].
Qed.

Section Search.
Context (buf : bytes) (l : list (Dirent * bytes)) (bits : Z) (Hbits : 0 <= bits).
Let bs := 2 ^ bits.
Context (Ht : entry_table buf l) (Hlen : zlen buf = bs) (Hsh : short_names l).

(** Where an entry's name is stored, up to the block's end for the last. *)
Lemma stored_at i de name : l !! i = Some (de, name) ->
  let off := Z.land (nameoff_of buf (Z.of_nat i)) (bs - 1) in
  let end_ := if Z.of_nat i <? zlen l - 1 then Z.land (nameoff_of buf (Z.of_nat i + 1)) (bs - 1) else bs in
  off <= end_ /\ exists st, sslice buf off end_ = Got st /\ until_nul st = name.
Proof using Hbits Ht Hlen.
  intros Hi. destruct (et_at _ _ Ht i de name Hi) as [e D]. pose proof (dirent_at_nameoff buf (Z.of_nat i) (zlen l) de name e ltac:(lia) D) as No.
  pose proof (lookup_lt_Some _ _ _ Hi) as Hlt. destruct D as [D1 D2 D3 D4 D5 D6 D7].
  assert (M : forall x, 0 <= x < bs -> Z.land x (bs - 1) = x) by (intros x Hx; unfold bs in *; rewrite land_pow2_mask by lia; by rewrite Z.mod_small).
  assert (Eo : nameoff_of buf (Z.of_nat i) = Disk.de_NameOff de) by (unfold nameoff_of, DirentSize; by rewrite No, (Z.mul_comm (Z.of_nat i))).
  rewrite Eo, M by lia. set (off := Disk.de_NameOff de) in *. cbv zeta. destruct (Z.ltb_spec (Z.of_nat i) (zlen l - 1)) as [Hn|Hn].
  - destruct (D3 Hn) as [En _]. assert (Ee : nameoff_of buf (Z.of_nat i + 1) = e) by (unfold nameoff_of, DirentSize; by rewrite En, (Z.mul_comm _ 12)).
    destruct (lookup_lt_is_Some_2 l (S i) ltac:(unfold zlen in *; lia)) as [[de' name'] Hi'].
    destruct (et_at _ _ Ht _ _ _ Hi') as [e' D']. pose proof (dirent_at_nameoff buf (Z.of_nat (S i)) (zlen l) _ _ _ ltac:(lia) D') as No'.
    destruct D' as [_ _ _ _ D5' _ _]. replace (Z.of_nat (S i)) with (Z.of_nat i + 1) in No' by lia. rewrite <- En in No'.
    rewrite Ee, M by lia. split; [lia|]. eexists. split; [apply sslice_ok; lia|]. rewrite (proj2 (Z.eqb_neq _ _)) in D6 by lia.
    rewrite <- D6. apply until_nul_no_nul, D7.
  - specialize (D4 ltac:(lia)). rewrite (proj2 (Z.eqb_eq _ _)) in D6 by (unfold zlen in *; lia).
    split; [lia|]. eexists. split; [apply sslice_ok; lia|]. by rewrite D6, D4, Hlen.
Qed.

Lemma direntAt_entry i p : l !! i = Some p -> direntAt buf (Z.of_nat i) = spec_entry p.
Proof using Ht Hsh.
  clear -Ht Hsh. intros Hi. unfold direntAt. rewrite (block_matches buf l Ht Hsh (zlen buf)) by lia.
  rewrite Nat2Z.id, list_lookup_fmap, Hi. done.
Qed.
Context (Hs : StronglySorted name_lt (names_of l)) (target : bytes).

(** What the search answers, past the first entry. *)
Definition found_in (r : option SpecDirent) : Prop :=
  (exists i de, l !! i = Some (de, target) /\ r = Some (spec_entry (de, target))) \/ ((target ∉ names_of l) /\ r = None).

Lemma find_target_spec fuel : forall head back sp ep,
  1 <= head -> back < zlen l -> back - head + 1 <= Z.of_nat fuel ->
  (forall k x, names_of l !! k = Some x -> Z.of_nat k < head -> name_lt x target) ->
  (forall k x, names_of l !! k = Some x -> back < Z.of_nat k -> name_lt target x) ->
  bound sp target (names_of l) (head - 1) -> bound ep target (names_of l) (back + 1) ->
  exists r, find_target fuel target buf bs (zlen l) head back sp ep = Got r /\ found_in r.
Proof using Hbits Ht Hlen Hsh Hs.
  induction fuel as [|fuel IH]; intros head back sp ep H1 Hbk Hf Hlo Hhi Bs Be; cbn [find_target];
    (destruct (Z.ltb_spec back head) as [He|He];
     [exists None; split; [done|]; right; split; [|done]; intros Hin; apply list_elem_of_lookup in Hin as [k Hk]; apply (name_lt_irrefl target);
      destruct (Z.lt_ge_cases (Z.of_nat k) head); [by apply (Hlo k)|apply (Hhi k); [done|lia]]|]); [lia|].
  set (mid := head + Z.quot (back - head) 2).
  assert (Hm : head <= mid <= back).
  { unfold mid. rewrite Z.quot_div_nonneg by lia. pose proof (Z.div_pos (back - head) 2 ltac:(lia) ltac:(lia)).
    pose proof (Z.div_le_upper_bound (back - head) 2 (back - head) ltac:(lia) ltac:(lia)). lia. }
  destruct (lookup_lt_is_Some_2 l (Z.to_nat mid) ltac:(unfold zlen in *; lia)) as [[de x] Hx].
  pose proof (names_of_lookup _ _ _ _ Hx) as Hn. destruct (stored_at _ _ _ Hx) as (Ho & st & Est & Eu). rewrite Z2Nat.id in * by lia.
  rewrite (proj2 (Z.leb_le _ _) Ho), Est. cbn [mbind sres_bind].
  destruct (dirnamecmp_spec target st (Nat.min sp ep)) as (r & k & -> & Sr & Sk).
  { rewrite Eu. apply (bounds_share (names_of l) target sp ep head back mid); auto; lia. }
  rewrite Eu in Sr, Sk. unfold says in Sr. destruct (Compare target x) eqn:Ec; subst r; cbn [Z.eqb Z.ltb Z.compare].
  - apply Compare_eq in Ec as <-. eexists. split; [reflexivity|]. left. exists (Z.to_nat mid), de. split; [done|].
    rewrite <- (direntAt_entry _ _ Hx). by rewrite Z2Nat.id by lia.
  - apply IH; auto; try lia.
    + intros j y Hj Hjm. destruct (Z.eq_dec (Z.of_nat j) mid) as [E|].
      * rewrite <- E, Nat2Z.id, Hj in Hn. by injection Hn as ->.
      * transitivity x; [done|]. apply (sorted_lookup name_lt (names_of l) (Z.to_nat mid) j); auto. lia.
    + right. exists x. replace (mid - 1 + 1) with mid by lia. split; [lia|done].
  - apply Compare_gt_lt in Ec. apply IH; auto; try lia.
    + intros j y Hj Hjm. destruct (Z.eq_dec (Z.of_nat j) mid) as [E|].
      * rewrite <- E, Nat2Z.id, Hj in Hn. by injection Hn as ->.
      * transitivity x; [|done]. apply (sorted_lookup name_lt (names_of l) j (Z.to_nat mid)); auto. lia.
    + right. exists x. replace (mid + 1 - 1) with mid by lia. split; [lia|done].
Qed.

Lemma findTargetDirent_spec : name_lt (first_name l) target ->
  exists r, findTargetDirent target buf bs (zlen l) = Got r /\ found_in r.
Proof using Hbits Ht Hlen Hsh Hs.
  intros Hf. unfold findTargetDirent. pose proof (et_pos _ _ Ht) as Hp. apply find_target_spec; try lia; [| |by left..].
  - intros k x Hk Hk1. assert (k = 0%nat) as -> by lia. clear -Hk Hf. destruct l as [|[d n] t]; [done|]. cbn in *. by injection Hk as ->.
  - intros k x Hk Hk1. apply lookup_lt_Some in Hk. unfold names_of, zlen in *. rewrite length_fmap in Hk. lia.
Qed.

End Search.

(** ** The search over the blocks *)

Section Directory.
Context (img : image) (im : Image) (Hwf : image_wf img) (Hmap : metadata_apart img im) (Hag : agrees img im) (Hlim : img_size img < 2 ^ 62).
Context (ino : inode) (i : Inode) (Hino : inode_wf img ino) (Hsame : same_inode img ino i) (Hnid : is_u64 (ino_nid ino)).
Context (blks : list (list (Dirent * bytes))) (Hview : dir_view img ino blks) (Hshort : Forall short_names blks).
Context (Hdir : IsDir i = true) (Hsize : ino_size ino < 2 ^ 62).
Context (Hs : StronglySorted name_lt (names_of (entries_of blks))) (target : bytes).

Let bs := 2 ^ img_bits img.
Let firsts := first_name <$> blks.

(** A block padded to its size, with the count of its entries. *)
Definition padded (k : nat) (block : bytes) (n : Z) : Prop :=
  exists l, blks !! k = Some l /\ n = zlen l /\ entry_table block l /\ zlen block = bs /\ short_names l /\ StronglySorted name_lt (names_of l).

Lemma dirBlock_padded k : (k < length blks)%nat -> exists block n, dirBlock im i (Z.of_nat k) = Got (block, n) /\ padded k block n.
Proof using Hwf Hmap Hag Hlim Hino Hsame Hnid Hview Hshort Hdir Hsize Hs.
  intros Hk. destruct (lookup_lt_is_Some_2 blks k Hk) as [l Hl]. pose proof (pow2_bits _ (wf_bits _ Hwf)) as R. fold bs in R.
  destruct (block_read img im Hwf Hmap Hag Hlim ino i Hino Hsame Hnid blks Hview Hdir Hsize k l Hl) as (Hp & buf & RA & Bv & Lb). fold bs in RA, Lb, Hp.
  unfold dirBlock. rewrite (ag_bs _ _ Hag), (si_size _ _ _ Hsame). fold bs. rewrite RA. cbn [mbind sres_bind].
  pose proof (table_pad buf (Z.to_nat (bs - zlen buf)) l (view_table _ _ Bv)) as T. set (block := buf ++ _) in *.
  assert (Lk : zlen block = bs) by (unfold block; rewrite zlen_app; unfold zeros; rewrite zlen_replicate; lia).
  rewrite (et_first _ _ T). pose proof (et_pos _ _ T) as Hpos. pose proof (et_fits _ _ T) as Hfit. unfold SizeDirent, DirentSize in *.
  assert (M : Z.land (12 * zlen l) (bs - 1) = 12 * zlen l) by (pose proof (wf_bits _ Hwf); unfold bs in *; rewrite land_pow2_mask by lia; by rewrite Z.mod_small by lia).
  rewrite M, Z.mul_comm, Z.quot_mul by lia. rewrite (proj2 (Z.eqb_neq _ _)) by lia. exists block, (zlen l). split; [done|].
  exists l. split_and!; try done; [by eapply (Forall_lookup_1 _ _ _ _ Hshort)|by eapply sorted_block].
Qed.

Lemma firsts_sorted : StronglySorted name_lt firsts.
Proof using Hview Hs.
  assert (Hne : Forall (fun l => l <> []) blks).
  { apply Forall_lookup. intros k l Hk. by eapply (block_nonempty img ino blks Hview). }
  unfold firsts. clear -Hs Hne. induction blks as [|b t IH]; [constructor|]. apply Forall_cons in Hne as [Hb Hne].
  unfold entries_of in Hs. cbn [mjoin list_join] in Hs. rewrite names_of_app in Hs. apply StronglySorted_app in Hs as (H1 & H2 & H3).
  rewrite fmap_cons. constructor; [by apply IH|]. apply Forall_forall. intros x Hx. apply list_elem_of_fmap in Hx as (l & -> & Hl).
  apply H1; [by apply first_name_in|]. apply elem_of_entries. apply list_elem_of_lookup in Hl as [k Hk]. exists k, l. split; [done|].
  apply first_name_in. by apply (Forall_lookup_1 _ _ _ _ Hne Hk).
Qed.

(** The block the search keeps: the one before [head]. *)
Definition keeps (head : Z) (candidate : option (bytes * Z)) : Prop :=
  match candidate with
  | None => head = 0
  | Some (block, n) => 0 < head /\ padded (Z.to_nat (head - 1)) block n
  end.

(** What [Lookup] answers. *)
Definition spec_answers (r : sres SpecDirent) : Prop :=
  (exists k de, entries_of blks !! k = Some (de, target) /\ r = Got (spec_entry (de, target))) \/
  ((target ∉ names_of (entries_of blks)) /\ r = Refused SpecNotExist).

Lemma answer_in k l j de : blks !! k = Some l -> l !! j = Some (de, target) -> spec_answers (Got (spec_entry (de, target))).
Proof using Type.
  clear. intros Hk Hj. left. assert (Hin : (de, target) ∈ entries_of blks).
  { apply list_elem_of_join. exists l. split; by eapply list_elem_of_lookup_2. }
  apply list_elem_of_lookup in Hin as [j' Hj']. eauto.
Qed.

(** The candidate decides, once every other block is ruled out. *)
Lemma candidate_answers head candidate :
  0 <= head -> keeps head candidate ->
  (forall k l, blks !! k = Some l -> Z.of_nat k < head -> name_lt (first_name l) target) ->
  (forall k l, blks !! k = Some l -> head <= Z.of_nat k -> name_lt target (first_name l)) ->
  spec_answers (match candidate with
    | None => Refused SpecNotExist
    | Some (block, ndirents) => found ← findTargetDirent target block bs ndirents; match found with Some de => Got de | None => Refused SpecNotExist end
    end).
Proof using Hwf Hview Hs.
  intros Hh Hc Hlo Hhi.
  assert (Above : forall k l, blks !! k = Some l -> head <= Z.of_nat k -> target ∉ names_of l).
  { intros k l Hk Hkh Hin. apply (name_lt_irrefl target). eapply name_lt_le_trans; [by eapply Hhi|].
    apply first_name_least; [by eapply sorted_block|done]. }
  destruct candidate as [[block n]|]; cbn in Hc.
  - destruct Hc as [H0 (l & Hl & -> & T & Lk & Sh & Sl)]. pose proof (Hlo _ l Hl ltac:(lia)) as Hf.
    destruct (findTargetDirent_spec block l (img_bits img) ltac:(pose proof (wf_bits _ Hwf); lia) T Lk Sh Sl target Hf) as (r & Hr & [(j & de & Hj & ->)|[Hn ->]]).
    { fold bs in Hr. rewrite Hr. by apply (answer_in (Z.to_nat (head - 1)) l j). }
    fold bs in Hr. rewrite Hr. right. split; [|done]. intros Hin. apply elem_of_entries in Hin as (k & l' & Hk & Hx).
    destruct (Z.lt_trichotomy (Z.of_nat k) (head - 1)) as [Hlt|[Heq|Hgt]].
    + apply (name_lt_irrefl target). transitivity (first_name l); [|done].
      apply (sorted_blocks blks k (Z.to_nat (head - 1)) l' l); auto; [lia|]. by eapply first_name_in, (block_nonempty img ino blks Hview).
    + replace (Z.to_nat (head - 1)) with k in Hl by lia. rewrite Hk in Hl. by injection Hl as <-.
    + by apply (Above k l' Hk ltac:(lia)).
  - right. split; [|done]. intros Hin. apply elem_of_entries in Hin as (k & l' & Hk & Hx). by apply (Above k l' Hk ltac:(lia)).
Qed.

Lemma firsts_at k l : blks !! k = Some l -> firsts !! k = Some (first_name l).
Proof using Type. clear. intros Hk. unfold firsts. by rewrite list_lookup_fmap, Hk. Qed.

(** The comparison with a block's first name, and the entry it holds. *)
Lemma first_stored k block n : padded k block n ->
  exists l de st, blks !! k = Some l /\ l !! 0%nat = Some (de, first_name l) /\ until_nul st = first_name l /\
    sslice block (Z.land (nameoff_of block 0) (bs - 1)) (if 1 <? n then Z.land (nameoff_of block 1) (bs - 1) else bs) = Got st /\
    direntAt block 0 = spec_entry (de, first_name l).
Proof using Hwf Hview.
  intros (l & Hl & -> & T & Lk & Sh & _). destruct l as [|[de x] t] eqn:El; [by destruct (block_nonempty img ino blks Hview k [] Hl)|].
  rewrite <- El in *. assert (H0 : l !! 0%nat = Some (de, x)) by (by rewrite El). assert (Fx : first_name l = x) by (by rewrite El).
  destruct (stored_at block l (img_bits img) ltac:(pose proof (wf_bits _ Hwf); lia) T Lk 0 de x H0) as (_ & st & Est & Eu).
  exists l, de, st. rewrite Fx. split; [done|]. split; [done|]. split; [done|]. split.
  - rewrite <- Est. change (Z.of_nat 0) with 0. change (0 + 1) with 1. fold bs.
    assert (E1 : (0 <? zlen l - 1) = (1 <? zlen l)) by (apply eq_true_iff_eq; rewrite !Z.ltb_lt; lia). by rewrite E1.
  - apply (direntAt_entry block l T Sh 0 (de, x) H0).
Qed.

Lemma find_block_spec fuel : forall head back sp ep candidate,
  0 <= head -> back < zlen blks -> back - head + 1 <= Z.of_nat fuel -> keeps head candidate ->
  (forall k l, blks !! k = Some l -> Z.of_nat k < head -> name_lt (first_name l) target) ->
  (forall k l, blks !! k = Some l -> back < Z.of_nat k -> name_lt target (first_name l)) ->
  head <= back + 1 -> bound sp target firsts (head - 1) -> bound ep target firsts (back + 1) ->
  spec_answers (find_block im fuel i target head back sp ep candidate).
Proof using Hwf Hmap Hag Hlim Hino Hsame Hnid Hview Hshort Hdir Hsize Hs.
  induction fuel as [|fuel IH]; intros head back sp ep candidate Hh Hbk Hf Hc Hlo Hhi Hle Bs Be; cbn [find_block]; rewrite (ag_bs _ _ Hag); fold bs;
    (destruct (Z.ltb_spec back head) as [He|He]; [apply (candidate_answers head); auto; intros; apply (Hhi k l); auto; lia|]); [lia|].
  set (mid := head + Z.quot (back - head) 2).
  assert (Hm : head <= mid <= back).
  { unfold mid. rewrite Z.quot_div_nonneg by lia. pose proof (Z.div_pos (back - head) 2 ltac:(lia) ltac:(lia)).
    pose proof (Z.div_le_upper_bound (back - head) 2 (back - head) ltac:(lia) ltac:(lia)). lia. }
  destruct (dirBlock_padded (Z.to_nat mid) ltac:(unfold zlen in *; lia)) as (block & n & Eb & Pd). rewrite Z2Nat.id in Eb by lia.
  rewrite Eb. cbn [mbind sres_bind]. destruct (first_stored _ _ _ Pd) as (l & de & st & Hl & H0 & Eu & Est & Ed). rewrite Est. cbn [mbind sres_bind].
  pose proof (firsts_at _ _ Hl) as Hn. set (x := first_name l) in *.
  destruct (dirnamecmp_spec target st (Nat.min sp ep)) as (r & k & -> & Sr & Sk).
  { rewrite Eu. apply (bounds_share firsts target sp ep head back mid); auto using firsts_sorted. }
  rewrite Eu in Sr, Sk. unfold says in Sr. destruct (Compare target x) eqn:Ec; subst r; cbn [Z.eqb Z.ltb Z.compare].
  - apply Compare_eq in Ec. rewrite Ed, <- Ec. rewrite <- Ec in H0. by apply (answer_in (Z.to_nat mid) l 0 de).
  - apply IH; auto; try lia.
    + intros j l' Hj Hjm. destruct (Z.eq_dec (Z.of_nat j) mid) as [E|].
      * rewrite <- E, Nat2Z.id, Hj in Hl. by injection Hl as ->.
      * transitivity x; [done|]. apply (sorted_lookup name_lt firsts (Z.to_nat mid) j); auto using firsts_sorted, firsts_at. lia.
    + right. exists x. replace (mid - 1 + 1) with mid by lia. split; [lia|done].
  - apply Compare_gt_lt in Ec. apply IH; auto; try lia.
    + cbn. split; [lia|]. by replace (mid + 1 - 1) with mid by lia.
    + intros j l' Hj Hjm. destruct (Z.eq_dec (Z.of_nat j) mid) as [E|].
      * rewrite <- E, Nat2Z.id, Hj in Hl. by injection Hl as ->.
      * transitivity x; [|done]. apply (sorted_lookup name_lt firsts j (Z.to_nat mid)); auto using firsts_sorted, firsts_at. lia.
    + right. exists x. replace (mid + 1 - 1) with mid by lia. split; [lia|done].
Qed.

Lemma Lookup_spec : spec_answers (Lookup im i target).
Proof using Hwf Hmap Hag Hlim Hino Hsame Hnid Hview Hshort Hdir Hsize Hs.
  unfold Lookup. rewrite Hdir. cbn [negb]. rewrite (si_size _ _ _ Hsame), (ag_bs _ _ Hag).
  pose proof (blocks_count img ino blks Hview (wf_bits _ Hwf)) as Hc. rewrite shiftl1 in Hc by (pose proof (wf_bits _ Hwf); lia).
  destruct (Z.eqb_spec (ino_size ino) 0) as [E0|E0].
  { right. split; [|done]. destruct (blocks_size img Hwf ino Hino blks Hview Hsize) as [[_ ->]|[N1 N]]; [apply not_elem_of_nil|].
    pose proof (pow2_bits _ (wf_bits _ Hwf)). assert (zlen blks = 0) by nia. assert (blks = []) as -> by (apply nil_length_inv; unfold zlen in *; lia).
    apply not_elem_of_nil. }
  rewrite Hc. pose proof (zlen_nonneg blks). apply find_block_spec; try lia; [done| |by left..].
  intros k l Hk Hx. apply lookup_lt_Some in Hk. unfold zlen in Hx. lia.
Qed.

End Directory.
