(* ===== verification/Agreement.v ===== *)
(** * The package against the reference

    What the package opens, decodes, serves and lists is what the reference
    parses, decodes, reads and lists: what [contract_test.go] checks on a corpus
    of images, for every image the package opens. *)

From S2P Require Import Prelude Machine Disk Format Image Inode Data Reading Dir Path Xattr Open Spec SpecDir SpecInode SpecData SpecOpen SpecXattr SpecList SpecLookup.

(** ** An image of five blocks

    Inode 0 is the root, a directory with its block at 4; inode 1 is "f", a
    flat-inline file of a block and five bytes with two attributes. *)

Definition small_sb : SuperBlock :=
  {| sb_MagicNumber := MagicNumber; sb_Checksum := 0; sb_FeatureCompat := 0; sb_BlkSizeBits := 9;
     sb_ExtSlots := 0; sb_RootNid := 0; sb_Inos := 2; sb_BuildTime := 7; sb_BuildTimeNs := 0; sb_Blocks := 6;
     sb_MetaBlkAddr := 3; sb_XattrBlkAddr := 0; sb_UUID := zeros 16; sb_VolumeName := zeros 16;
     sb_FeatureIncompat := 0; sb_ComprAlgs := 0; sb_ExtraDevices := 0; sb_DevtSlotOff := 0; sb_DirBlkBits := 0;
     sb_XattrPrefixCount := 0; sb_XattrPrefixStart := 0; sb_PackedNid := 0; sb_XattrFilterRes := 0;
     sb_IshareXattrPrefixID := 0; sb_Reserved := zeros 22 |}.

Definition small_disk : bytes :=
  let block b := b ++ zeros (512 - length b) in
  let root := put32 16 4 (put32 8 40 (put16 4 0x41ED (zeros 32))) in
  let file := put32 16 5 (put32 8 517 (put16 4 0x81A4 (put16 2 5 (put16 0 4 (zeros 32))))) in
  zeros 1024 ++ block (default [] (match SuperBlock_Marshal small_sb (zeros 128) with Ok b => Some b | _ => None end)) ++
  block (root ++ file ++ example_xattr_area ++ bs "tail!") ++
  block (example_dirent 0 36 2 ++ example_dirent 0 37 2 ++ example_dirent 1 39 1 ++ bs "...f") ++
  block (bs "head").

Definition small_img : image :=
  {| img_sb := small_sb; img_size := 3072; img_meta := bytes_reader small_disk;
     img_devices := []; img_deviceIDMask := 0; img_longPrefixes := [] |}.

Definition small_spec : Image :=
  match Parse small_disk [] with Got im => im | _ => mkSpecImage (mkSuper 0 0 0 0 0 0 0 0 0 0 [] [] 0 0 0 0 0 0 0 0 0 0 0 0 0 0 0 0) [] [] [] [] end.

Lemma small_opens : Open_image (bytes_reader small_disk) [] = Ok small_img.
Proof. vm_compute. reflexivity. Qed.

Lemma small_parses : Parse small_disk [] = Got small_spec.
Proof. vm_compute. reflexivity. Qed.

Lemma small_img_wf : image_wf small_img.
Proof. constructor; cbn; try done. Qed.

Lemma opened_wf c extra img :
  zlen c <= MaxInt64 -> Forall (fun b => zlen b <= MaxInt64) extra -> Open_image (bytes_reader c) (bytes_reader <$> extra) = Ok img -> image_wf img.
Proof.
  intros Hc Hx E. apply (Open_facts (bytes_reader c) (bytes_reader <$> extra)); auto; [by apply bytes_reader_sized| |apply bytes_reader_laws|].
  - apply Forall_fmap. eapply Forall_impl; [exact Hx|]. intros b Hb. by apply bytes_reader_sized.
  - apply Forall_fmap, Forall_forall. intros b _. apply bytes_reader_laws.
Qed.

Lemma opened_prefixes c extra img s devices :
  zlen c <= MaxInt64 -> Open_image (bytes_reader c) (bytes_reader <$> extra) = Ok img -> image_wf img ->
  agrees img (mkSpecImage s devices [] c extra) -> prefixes_in_image (img_sb img) ->
  exists ps, parsePrefixes (mkSpecImage s devices [] c extra) = Got ps /\ img_longPrefixes img = prefix_name <$> ps.
Proof.
  intros Hc E Hwf Hag Hin. destruct (Open_spec c Hc extra img E) as ((img1 & El & Ei & Hs) & _). rewrite Ei in Hwf, Hag, Hin.
  apply (loadLongPrefixes_spec img1 _ _); auto; [|by destruct Hag; constructor].
  destruct Hwf; by constructor.
Qed.

(** ** Opening *)

(** C12: what [Open] opens the reference parses, up to the long xattr prefixes.
    From the same bytes the two take the same superblock (every field the
    package keeps but the reserved bytes), the same device-id mask and extent,
    and the same devices with the same contents, and [Parse] then answers what
    its prefix table answers.  Where the table lies in the image (no prefixes,
    the plain-prefix feature or no packed inode) [Parse] succeeds, with the
    package's prefixes; where the superblock names a packed inode the two may
    part, which is a finding. *)
Theorem Open_matches_reference c extra img :
  zlen c <= MaxInt64 -> Forall (fun b => zlen b <= MaxInt64) extra -> Open_image (bytes_reader c) (bytes_reader <$> extra) = Ok img ->
  exists s devices, super_agrees (img_sb img) s /\ (forall prefixes, agrees img (mkSpecImage s devices prefixes c extra)) /\
    Parse c extra = (prefixes ← parsePrefixes (mkSpecImage s devices [] c extra); Got (mkSpecImage s devices prefixes c extra)) /\
    (prefixes_in_image (img_sb img) ->
     exists ps, Parse c extra = Got (mkSpecImage s devices ps c extra) /\ img_longPrefixes img = prefix_name <$> ps).
Proof.
  intros Hc Hx E. pose proof (opened_wf c extra img Hc Hx E). destruct (Open_spec c Hc extra img E) as (_ & s & ds & Ag & Su & P). exists s, ds.
  split_and!; [done..|]. intros Hin. destruct (opened_prefixes c extra img s ds) as (ps & Ep & El); [done..|]. exists ps. by rewrite P, Ep.
Qed.

Lemma Open_matches_reference_witness :
  exists s, Parse small_disk [] = Got (mkSpecImage s [] [] small_disk []) /\ agrees small_img (mkSpecImage s [] [] small_disk []).
Proof.
  destruct (Open_matches_reference small_disk [] small_img ltac:(by vm_compute) ltac:(by constructor) small_opens) as (s & ds & _ & Ag & _ & P).
  destruct (P (or_introl eq_refl)) as (ps & E & El).
  destruct ps as [|p ps]; [|discriminate El]. pose proof (Ag []) as A. pose proof (ag_count _ _ A) as L. cbn in L.
  destruct ds as [|d ds]; [|discriminate L]. exists s. split; [exact E|exact A].
Defined.

Lemma small_agrees : agrees small_img small_spec.
Proof.
  destruct (Open_spec small_disk ltac:(by vm_compute) [] small_img small_opens) as (_ & s & ds & Ag & _ & E).
  destruct (opened_prefixes small_disk [] small_img s ds ltac:(by vm_compute) small_opens small_img_wf (Ag []) (or_introl eq_refl)) as (ps & P & _).
  rewrite P in E. cbn [mbind sres_bind] in E. rewrite small_parses in E. apply Got_inj in E. rewrite E. apply Ag.
Qed.

Lemma small_apart : metadata_apart small_img small_spec.
Proof. constructor; [done|left; by vm_compute]. Qed.

(** ** Inodes *)

(** The package decodes the inode's attributes, in an area the image holds. *)
Definition attributes_read (img : image) (ino : inode) : Prop :=
  ino_xsize ino = 0 \/
  (metaStartPos img + ino_nid ino * 32 + ino_icsize ino + ino_xsize ino <= img_size img /\ exists m, loadXattrs img ino = Ok m).

Lemma same_with_attrs img ino i f ids xs : same_inode img ino i -> same_inode img ino (with_attrs f ids xs i).
Proof. intros []. by constructor. Qed.

Lemma decodeXattrs_same img im ino i :
  image_wf img -> agrees img im -> img_longPrefixes img = prefix_name <$> im_Prefixes im -> inode_wf img ino -> is_u64 (ino_nid ino) ->
  same_inode img ino i -> attributes_read img ino -> exists i', decodeXattrs im i = Got i' /\ same_inode img ino i'.
Proof.
  intros Hwf Hag Hp Hino Hn Hs [E|[Hfit [m E]]].
  { exists i. split; [|done]. unfold decodeXattrs. by rewrite (si_xsize _ _ _ Hs), E. }
  destruct (wf_xsize _ _ Hino) as [E0|[Hx _]].
  { exists i. split; [|done]. unfold decodeXattrs. by rewrite (si_xsize _ _ _ Hs), E0. }
  pose proof (wf_size _ Hwf) as Hz. rewrite (ag_size _ _ Hag) in Hz.
  destruct (loadXattrs_spec img im ino i m) as (f & ids & xs & D & _); [done..|lia|lia|done|done|].
  eexists. split; [exact D|by apply same_with_attrs].
Qed.


(** The root and the file of [small_img]. *)
Definition small_root : inode :=
  {| ino_name := bs "."; ino_nid := 0; ino_icsize := 32; ino_xsize := 0; ino_inodeLayout := LayoutFlatPlain; ino_inodeData := 4;
     ino_startHi := 0; ino_addr48 := false; ino_size := 40; ino_mode := EroFSModeToGoFileMode 0x41ED; ino_rawMode := 0x41ED;
     ino_uid := 0; ino_gid := 0; ino_nlink := 0; ino_mtime := 7; ino_mtimeNs := 0 |}.

Definition small_file : inode :=
  {| ino_name := bs "f"; ino_nid := 1; ino_icsize := 32; ino_xsize := 28; ino_inodeLayout := LayoutFlatInline; ino_inodeData := 5;
     ino_startHi := 0; ino_addr48 := false; ino_size := 517; ino_mode := EroFSModeToGoFileMode 0x81A4; ino_rawMode := 0x81A4;
     ino_uid := 0; ino_gid := 0; ino_nlink := 0; ino_mtime := 7; ino_mtimeNs := 0 |}.

Lemma small_root_read : readInfo_fresh small_img (bs ".") 0 ModeDir = Ok small_root.
Proof. vm_compute. reflexivity. Qed.

Lemma small_file_read : readInfo_fresh small_img (bs "f") 1 (EroFSFtypeToFileMode 1) = Ok small_file.
Proof. vm_compute. reflexivity. Qed.


(** ** Data *)

(** C13: the bytes the package serves are the reference's, on an image over
    whose bytes no separate device is mapped ([metadata_apart]).  A block [loadBlock] answers, on
    the image or on any of its devices, of a directory, file or symlink that is
    flat, flat-inline or chunk-based, a hole included, is the reference's read of
    the same positions; for a flat-inline inode provided the package serves its
    tail ([tail_served]), since the reference refuses every block of an inode
    whose tail crosses its block, and for images and files below 2^62 bytes. *)
Theorem loadBlock_matches_reference img im ino i pos b :
  image_wf img -> metadata_apart img im -> agrees img im -> img_size img < 2 ^ 62 ->
  inode_wf img ino -> same_inode img ino i -> is_u64 (ino_nid ino) ->
  IsDir i || IsRegular i || IsSymlink i = true -> ino_size ino < 2 ^ 62 ->
  tail_served img ino -> 0 <= pos < ino_size ino -> loadBlock img ino pos = Ok b ->
  spec_ReadAt im i pos (block_span img ino pos) = Got b.
Proof.
  intros Hwf Hma Hag Hl Hino Hs Hn Ht Hz. apply loadBlock_spec; auto.
  unfold IsDir, IsRegular, IsSymlink in Ht. rewrite !orb_true_iff, !Z.eqb_eq in Ht. tauto.
Qed.

(** The reference's decoding of [small_img]'s file. *)
Lemma small_file_spec : exists i, same_inode small_img small_file i /\ IsDir i || IsRegular i || IsSymlink i = true.
Proof.
  destruct (readInfo_spec small_img small_spec small_img_wf small_agrees (bs "f") 1 1 small_file ltac:(by split) small_file_read) as (i0 & i & _ & H & _).
  exists i. split; [done|]. unfold IsDir, IsRegular, IsSymlink. by rewrite (si_mode _ _ _ H).
Qed.

Lemma small_file_wf : inode_wf small_img small_file.
Proof. apply (readInfo_fresh_facts _ _ _ _ _ small_file_read). Qed.

Lemma small_tail : tail_served small_img small_file.
Proof. intros _. exists (bs "tail!"). vm_compute. reflexivity. Qed.

Lemma loadBlock_matches_reference_witness :
  exists i, same_inode small_img small_file i /\ spec_ReadAt small_spec i 514 3 = Got (bs "il!") /\
    spec_ReadAt small_spec i 0 512 = Got (bs "head" ++ zeros 508).
Proof.
  destruct small_file_spec as (i & Hs & Ht). exists i. split; [exact Hs|].
  assert (Hn : is_u64 (ino_nid small_file)) by (split; reflexivity || discriminate).
  split.
  - apply (loadBlock_matches_reference small_img small_spec small_file i 514 (bs "il!") small_img_wf small_apart small_agrees eq_refl
      small_file_wf Hs Hn Ht eq_refl small_tail); [by split|vm_compute; reflexivity].
  - apply (loadBlock_matches_reference small_img small_spec small_file i 0 _ small_img_wf small_apart small_agrees eq_refl
      small_file_wf Hs Hn Ht eq_refl small_tail); [by split|vm_compute; reflexivity].
Defined.

(** ** Extended attributes *)

(** C15: the attributes [loadXattrs] answers are the reference's.  Where the
    package decodes an inode's attributes the reference decodes them too, shared
    and inline, no name twice, and the package's map holds each value under its
    name; the names are the reference's wherever it resolves the prefix. *)
Theorem loadXattrs_matches_reference img im ino i m :
  image_wf img -> agrees img im -> img_longPrefixes img = prefix_name <$> im_Prefixes im -> inode_wf img ino -> is_u64 (ino_nid ino) ->
  same_inode img ino i -> zlen (im_data im) <= MaxInt64 -> 12 < ino_xsize ino ->
  metaStartPos img + ino_nid ino * 32 + ino_icsize ino + ino_xsize ino <= img_size img -> loadXattrs img ino = Ok m ->
  exists filter ids xs, decodeXattrs im i = Got (with_attrs filter ids xs i) /\
    NoDup (package_name im <$> xs) /\ m = list_to_map (binding im <$> xs) /\
    forall x, x ∈ xs -> x_Unresolved x = false -> package_name im x = Xattr_Name x.
Proof.
  intros Hwf Hag Hp Hino Hn Hs Hc Hx Hfit E.
  destruct (loadXattrs_spec img im ino i m Hwf Hag Hp Hino Hn Hs Hc Hx Hfit E) as (f & ids & xs & D & N & M). exists f, ids, xs.
  split; [done|]. split; [done|]. split; [done|]. intros x Hin Hu. apply (decoded_names im i f ids xs); auto. rewrite (si_xsize _ _ _ Hs). lia.
Qed.

Lemma loadXattrs_matches_reference_witness :
  exists i f ids xs, decodeXattrs small_spec i = Got (with_attrs f ids xs i) /\ length xs = 2%nat /\ NoDup (package_name small_spec <$> xs).
Proof.
  destruct small_file_spec as (i & Hs & _).
  assert (X : res_map size (loadXattrs small_img small_file) = Ok 2%nat) by (vm_compute; reflexivity).
  destruct (loadXattrs small_img small_file) as [m| |] eqn:E; [|discriminate X..].
  destruct (loadXattrs_matches_reference small_img small_spec small_file i m small_img_wf small_agrees ltac:(vm_compute; reflexivity)
    small_file_wf ltac:(split; reflexivity || discriminate) Hs ltac:(vm_compute; discriminate) eq_refl ltac:(vm_compute; discriminate) E)
    as (f & ids & xs & H1 & H2 & H3 & _).
  exists i, f, ids, xs. split; [exact H1|]. split; [|exact H2].
  cbn in X. injection X as X. rewrite H3, map_size_list_to_map, length_fmap in X; [exact X|]. rewrite <- list_fmap_compose. exact H2.
Defined.

(** ** Directories *)

(** A directory's inode, on both sides. *)
Lemma directory_decodes img im name nid ino :
  image_wf img -> agrees img im -> is_u64 nid -> readInfo_fresh img name nid ModeDir = Ok ino ->
  exists i0 i, inode_core im nid = Got i0 /\ decodeType im i0 = Got i /\ same_inode img ino i /\ IsDir i = true /\
    inode_wf img ino /\ is_u64 (ino_nid ino) /\
    readInfo img (new_file name nid ModeDir) = (Ok ino, with_info (new_file name nid ModeDir) (Some ino)).
Proof.
  intros Hwf Hag Hn Hr. destruct (readInfo_fresh_facts _ _ _ _ _ Hr) as (Hino & Hid & Hft).
  destruct (readInfo_spec img im Hwf Hag name nid 2 ino Hn Hr) as (i0 & i & Hc & Hsame & Hdt).
  rewrite (wf_mode _ _ Hino) in Hft. apply dir_type in Hft; [|apply (wf_rawMode _ _ Hino)]. rewrite <- (si_mode _ _ _ Hsame) in Hft.
  destruct Hdt as [Hdt|[Hsl _]]; [|by unfold IsSymlink in Hsl; rewrite Hft in Hsl].
  exists i0, i. split; [done|]. split; [done|]. split; [done|]. split; [unfold IsDir; by rewrite Hft|]. split; [done|].
  split; [by rewrite Hid|]. by apply readInfo_of_fresh.
Qed.

(** The root's entries. *)
Definition small_entries : list (list (Dirent * bytes)) :=
  [[(mkDirent 0 36 2 0, bs "."); (mkDirent 0 37 2 0, bs ".."); (mkDirent 1 39 1 0, bs "f")]].

Lemma small_view : dir_view small_img small_root small_entries.
Proof.
  constructor; [by vm_compute|reflexivity|]. intros k l Hk. destruct k as [|k]; cbn in Hk; [injection Hk as <-|done].
  eexists. split; [vm_compute; reflexivity|]. constructor; [by eexists _, _, _|]. intros k de nm Hk.
  destruct k as [|[|[|k]]]; cbn in Hk; try (injection Hk as <- <-; vm_compute; reflexivity). done.
Qed.

Lemma small_names : Forall short_names small_entries.
Proof. repeat constructor; by vm_compute. Qed.

(** C16: [ReadDir] lists what the reference lists.  On an image over whose bytes
    no separate device is mapped, and a directory whose blocks decode ([dir_view]) with
    names of at most 255 bytes, one call hands out every entry the reference's
    [Dirents] finds but "." and "..", in its order, with its nid and its type;
    the reference decodes the directory's inode and refuses nothing.  A longer
    name, which [checkDirentName] lets through, is one the reference refuses
    ([long_name_listed]). *)
Theorem listing_matches_reference img im name nid ino blks :
  image_wf img -> metadata_apart img im -> agrees img im -> img_size img < 2 ^ 62 -> is_u64 nid ->
  readInfo_fresh img name nid ModeDir = Ok ino -> ino_size ino < 2 ^ 62 -> dir_view img ino blks -> Forall short_names blks ->
  exists i0 i r ds, inode_core im nid = Got i0 /\ decodeType im i0 = Got i /\ same_inode img ino i /\ Dirents im i = Got ds /\
    ReadDir img (mkDir (new_file name nid ModeDir) 0 0) 0 = Ok r /\ rdd_err r = None /\ rdd_ents r = listed ds.
Proof.
  intros Hwf Hmap Hag Hlim Hn Hr Hs Hv Hsh.
  destruct (directory_decodes img im name nid ino Hwf Hag Hn Hr) as (i0 & i & Hc & Hdt & Hsame & Hdir & Hino & Hn' & Hri).
  pose proof (Dirents_spec img im Hwf Hmap Hag Hlim ino i Hino Hsame Hn' blks Hv Hsh Hdir Hs) as HD.
  destruct (ReadDir_facts img (mkDir (new_file name nid ModeDir) 0 0) 0 _ _ blks Hwf Hri Hv ltac:(pose proof (zlen_nonneg blks); cbn; lia) ltac:(done))
    as (r & HR & Hrem & _ & _ & _ & [(_ & Hx & _)|(He & Hemp & _)]); [lia|].
  exists i0, i, r, (spec_entry <$> entries_of blks). split_and!; try done.
  rewrite Hemp, app_nil_r in Hrem. rewrite <- Hrem, listed_visible. unfold remaining, entries_of. cbn [d_bn d_consumed].
  change (Z.to_nat 0) with 0%nat. rewrite drop_0. destruct blks as [|l blks]; [done|]. cbn. by rewrite drop_0, visible_app.
Qed.

Lemma listing_matches_reference_witness :
  exists i r ds, Dirents small_spec i = Got ds /\ ReadDir small_img (mkDir (new_file (bs ".") 0 ModeDir) 0 0) 0 = Ok r /\
    rdd_ents r = listed ds /\ rdd_ents r = [mkDirentry (bs "f") 1 0].
Proof.
  destruct (listing_matches_reference small_img small_spec (bs ".") 0 small_root small_entries small_img_wf small_apart small_agrees eq_refl
    ltac:(by split) small_root_read eq_refl small_view small_names) as (i0 & i & r & ds & _ & _ & _ & H1 & H2 & _ & H3).
  exists i, r, ds. split; [exact H1|]. split; [exact H2|]. split; [exact H3|].
  assert (X : res_map rdd_ents (ReadDir small_img (mkDir (new_file (bs ".") 0 ModeDir) 0 0) 0) = Ok [mkDirentry (bs "f") 1 0])
    by (vm_compute; reflexivity).
  rewrite H2 in X. cbn in X. injection X as X. exact X.
Defined.

(** C17: the kernel's lookup and the package's agree.  On a directory whose
    names ascend and have at most 255 bytes, the reference's [Lookup], the
    kernel's two binary searches with their shared-prefix comparison, ends
    without a panic and finds the entry the package's lookup finds, nid and
    type, or neither finds one. *)
Theorem Lookup_matches_reference img im name nid ino blks target :
  image_wf img -> metadata_apart img im -> agrees img im -> img_size img < 2 ^ 62 -> is_u64 nid ->
  readInfo_fresh img name nid ModeDir = Ok ino -> ino_size ino < 2 ^ 62 -> dir_view img ino blks -> Forall short_names blks ->
  StronglySorted name_lt (names_of (entries_of blks)) ->
  exists i0 i, inode_core im nid = Got i0 /\ decodeType im i0 = Got i /\ same_inode img ino i /\
    match Lookup im i target with
    | Got d => de_Name d = target /\ (lookup img (new_file name nid ModeDir) target).1 = Ok (de_Nid d, EroFSFtypeToFileMode (de_Type d))
    | Refused e => e = SpecNotExist /\ (lookup img (new_file name nid ModeDir) target).1 = Err ErrNotExist
    | Crash => False
    end.
Proof.
  intros Hwf Hmap Hag Hlim Hn Hr Hs Hv Hsh Hso.
  destruct (directory_decodes img im name nid ino Hwf Hag Hn Hr) as (i0 & i & Hc & Hdt & Hsame & Hdir & Hino & Hn' & Hri).
  exists i0, i. split; [done|]. split; [done|]. split; [done|].
  destruct (Lookup_spec img im Hwf Hmap Hag Hlim ino i Hino Hsame Hn' blks Hv Hsh Hdir Hs Hso target) as [(k & de & Hk & ->)|[Hne ->]];
    destruct (lookup_facts img _ _ _ blks target Hwf Hri Hv Hso) as [(k' & de' & Hk' & ->)|[Hne' ->]].
  - split; [done|]. assert (k = k') as <-.
    { apply names_of_lookup in Hk, Hk'. destruct (Nat.lt_trichotomy k k') as [Hlt|[?|Hlt]]; [|done|];
        destruct (name_lt_irrefl target); eapply (sorted_lookup name_lt); eauto. }
    rewrite Hk in Hk'. by injection Hk' as <-.
  - destruct Hne'. apply names_of_lookup in Hk. by eapply list_elem_of_lookup_2.
  - destruct Hne. apply names_of_lookup in Hk'. by eapply list_elem_of_lookup_2.
  - done.
Qed.

Lemma small_sorted : StronglySorted name_lt (names_of (entries_of small_entries)).
Proof. repeat constructor; by vm_compute. Qed.

Lemma Lookup_matches_reference_witness :
  exists i d, Lookup small_spec i (bs "f") = Got d /\ de_Nid d = 1 /\ Lookup small_spec i (bs "g") = Refused SpecNotExist.
Proof.
  destruct (directory_decodes small_img small_spec (bs ".") 0 small_root small_img_wf small_agrees ltac:(by split) small_root_read) as (i0 & i & C & D & _).
  assert (W : forall t, match Lookup small_spec i t with
    | Got d => de_Name d = t /\ (lookup small_img (new_file (bs ".") 0 ModeDir) t).1 = Ok (de_Nid d, EroFSFtypeToFileMode (de_Type d))
    | Refused e => e = SpecNotExist /\ (lookup small_img (new_file (bs ".") 0 ModeDir) t).1 = Err ErrNotExist
    | Crash => False end).
  { intros t. destruct (Lookup_matches_reference small_img small_spec (bs ".") 0 small_root small_entries t small_img_wf small_apart small_agrees eq_refl
      ltac:(by split) small_root_read eq_refl small_view small_names small_sorted) as (j0 & j & C' & D' & _ & M).
    rewrite C in C'. apply Got_inj in C' as <-. rewrite D in D'. apply Got_inj in D' as <-. exact M. }
  assert (F : (lookup small_img (new_file (bs ".") 0 ModeDir) (bs "f")).1 = Ok (1, 0)) by (vm_compute; reflexivity).
  assert (G : (lookup small_img (new_file (bs ".") 0 ModeDir) (bs "g")).1 = Err ErrNotExist) by (vm_compute; reflexivity).
  pose proof (W (bs "f")) as Wf. pose proof (W (bs "g")) as Wg. rewrite F in Wf. rewrite G in Wg.
  destruct (Lookup small_spec i (bs "f")) as [d|e|] eqn:E1; [|destruct Wf as [_ Wf]; discriminate Wf|destruct Wf].
  destruct (Lookup small_spec i (bs "g")) as [d'|e'|] eqn:E2; [destruct Wg as [_ Wg]; discriminate Wg| |destruct Wg].
  exists i, d. split; [exact E1|]. split; [destruct Wf as [_ Wf]; injection Wf as Wf _; symmetry; exact Wf|]. destruct Wg as [-> _]. exact E2.
Defined.

(** The reference's [Lookup] slices a block between its first two name offsets
    without comparing them: on a root whose second name starts before its first
    it panics, where [Dirents] reports the corruption and the package's lookup
    an error. *)
Definition crossed_disk : bytes := put16 2068 30 small_disk.

Example reference_lookup_panics :
  (im ← Parse crossed_disk []; root ← spec_Inode im 0; Lookup im root (bs "f")) = Crash /\
  (im ← Parse crossed_disk []; root ← spec_Inode im 0; Dirents im root) = Refused SpecCorrupt /\
  (let! img := Open_image (bytes_reader crossed_disk) [] in (lookup img (new_file (bs ".") 0 ModeDir) (bs "f")).1) = Err ErrCorrupt.
Proof. split_and!; vm_compute; reflexivity. Qed.

(** [checkDirentName] has no bound on a name's length: a root with one entry of
    300 bytes is listed by the package and refused by the reference. *)
Definition long_name_disk : bytes :=
  let name := replicate 300 x61 in
  splice (put32 1544 312 small_disk) 2048 (example_dirent 1 12 1 ++ name).

Example long_name_listed :
  (im ← Parse long_name_disk []; root ← spec_Inode im 0; Dirents im root) = Refused SpecCorrupt /\
  (let! img := Open_image (bytes_reader long_name_disk) [] in
   let! r := ReadDir img (mkDir (new_file (bs ".") 0 ModeDir) 0 0) 0 in
   Ok (ent_name <$> rdd_ents r, rdd_err r)) = Ok ([replicate 300 x61], None).
Proof. split; vm_compute; reflexivity. Qed.
